(* ===== verification/_CoqProject ===== *)
-Q . S2P
Prelude.v
JsMap.v
SafeString.v
Tabs.v
Json.v
JsonText.v
Protocol.v
TerminalBridge.v
BridgeFacts.v
Fs.v
TabStore.v
TabStoreFacts.v
SecureJson.v
JsonTree.v
Preflight.v
SecureFile.v
SecureFileFacts.v
JsonRegister.v
Double.v
Settings.v
SettingsFacts.v
SettingsStore.v
SettingsStoreFacts.v
Generations.v
ActivityTracker.v
WsAuthIndex.v
Eligibility.v
IsoDate.v
PromiseQueue.v
CredentialStore.v
CredentialFacts.v
Tmux.v
Headers.v
Origin.v
KeyedMutex.v
BridgeRegistry.v
RegistryFacts.v
SessionManager.v
SessionFacts.v
StaleCleaner.v
Csrf.v
RateLimiter.v
AuthService.v
AuthFacts.v
AuthSafety.v
AuthQueue.v
Upstream.v
UpstreamFacts.v
AuthMiddleware.v
MiddlewareFacts.v
Routes.v
TabRoutes.v
AuthRoutes.v
SettingsRoutes.v
Admin.v
AdminRoutes.v
Config.v
ConfigFacts.v
ConfigFile.v
App.v
AppFacts.v
Teardown.v
Lifecycle.v
Production.v
ProbeGate.v
AdminService.v
AdminFacts.v
WebSocket.v
WebSocketFacts.v
WebSocketSafety.v
Logger.v
WorkspaceBootstrap.v
TerminalAuth.v
TerminalSocket.v
TerminalSocketFacts.v
ClientAuth.v
ClientAuthFacts.v
