(* ===== verification/Prelude.v ===== *)
(** * Verification of flanterminal

    Flanterminal serves terminals in a browser: an Express and WebSocket server
    ([src/apps/server]) that runs tmux sessions behind pseudo-terminals, a
    React client ([src/apps/client]) and the schemas both share
    ([src/packages/shared]).  This library models the server's own logic and
    the shared schemas, as shallow embeddings of the TypeScript source, and
    proves them correct.

    ** How the program is put together

    The browser's tabs are records of a JSON document that [TabStore] keeps in
    one file.  [SessionManager] attaches a socket to a tab: under the tab's
    lock ([KeyedMutex]) it checks an attach token, prepares the tmux session,
    spawns a pseudo-terminal and gives both ends to a [TerminalBridge], which
    [BridgeRegistry] then owns.  The bridge parses the client's frames
    ([Protocol]), has each input authenticated, and marks the tab in
    [ActivityTracker], which flushes to [TabStore].  [AuthService] keeps the
    authenticated sessions, with [CsrfService] and [LoginRateLimiter] beside
    it, and tells [WebSocketAuthIndex] when one ends, which closes its sockets.
    [StaleSessionCleaner] periodically asks [CleanupEligibility], which reads
    all of these, which tabs may be terminated, and has [SessionManager] do it.
    [SecureJsonFile] stores credentials and settings.

    ** How it is modelled

    - A function that may throw is [M S E A], a state and exception monad of
      this file, with weakest preconditions ([wp]) and the tactics [wp_step],
      [wp_go] and [wp_sys].  A component that calls others does so through
      [call] on a [handler], or through an [environment], which fixes what
      each call answers, whether it throws, and what runs during it; a theorem
      about every handler or environment covers every behaviour of the callee,
      re-entrant calls included.
    - Asynchronous code is a state machine: one event for each stretch between
      two awaits, executable as [event -> state -> option state].  Reachability
      is [rtc], so that every interleaving of the events is covered.
    - Strings are lists of UTF-16 code units ([jsstr]), bytes are integers
      below 256, numbers are exact integers or rationals with the bounds that
      the code checks; a [Map] or [Set] is the insertion-ordered list of
      [JsMap] where its order is observed, and a [gmap] elsewhere.
    - Code outside of the repository (hashes, random bytes, Unicode tables,
      address parsing, the clock, timers, the kernel) is a parameter or an
      answer of the environment.

    ** The files

    Shared: this file; [JsMap]; [Json] (values and [JSON.stringify]) and
    [JsonText] ([JSON.parse] and the UTF-8 decoder, with their round trips);
    [Fs] (the calls of [node:fs/promises] on a file system in which any call
    may fail, tear a write, or be interrupted).

    - [SafeString], [Tabs], [Protocol]: [safe-string.ts], [tabs.ts] and
      [protocol.ts] of the shared package.
    - [TabStore], [TabStoreFacts]: [tab-store.ts].
    - [SecureJson], [JsonTree], [Preflight]: the serializer of
      [secure-json-file.ts], a work list over a heap of objects that may share
      and be cyclic, against the recursive [unfold].
    - [SecureFile], [SecureFileFacts]: its [read], [replace] and
      [syncParent].
    - [TerminalBridge], [BridgeFacts]: [terminal-bridge.ts].
    - [KeyedMutex] and [SessionManager], [SessionFacts]:
      [session-manager.ts]; the tmux adapter and the bridge factory are calls.
    - [BridgeRegistry], [RegistryFacts]: [bridge-registry.ts], on the promise
      chains of [KeyedMutex].
    - [Generations] (the class of bounded generation tables),
      [ActivityTracker], [WsAuthIndex], [Eligibility], [StaleCleaner]:
      [activity-tracker.ts], [websocket-auth-index.ts],
      [cleanup-eligibility.ts] and [stale-session-cleaner.ts].
    - [AuthService], [AuthFacts], [AuthSafety], [AuthQueue], [Csrf],
      [RateLimiter]: [auth-service.ts], [csrf-service.ts] and
      [rate-limiter.ts].

    ** What the theorems show

    - Persistence: a completed write of [TabStore] is what a later load reads,
      a failed one leaves memory and disk unchanged or is reported;
      [SecureJsonFile] is an atomic register whose three outcomes are exact
      under every failure; its byte and depth limits are exact.
    - Documents: every operation of [Tabs] and [TabStore] keeps the document
      well-formed and does what its name says, on every branch.
    - Sessions: attach tokens die with their tab's generation, are used with
      valid sizes only, and a stale session is terminated only after it was
      confirmed again; calls to other components come in a fixed order.
    - Terminals: a bridge kills its terminal exactly once and never calls it
      again, writes authenticated input only, and sends within the buffer
      limit; the registry never loses an owner and empties on shutdown; frames
      and messages round trip.
    - Authentication: a session exists only after a verified login, expires at
      its deadlines, never comes back once revoked, is revoked by a password
      change, and all tables stay within their bounds; the sockets of a
      revoked session are closed; logins are rate limited under any clock.
    - Liveness: operations of a key, flushes, clean-up runs and a shutdown
      make progress and end.

    ** Bounds and fuel

    [TerminalBridge.perform] takes the depth of re-entrant calls as fuel; its
    theorem holds for every depth.  [JsonText.json_parse] recurses on a fuel of
    twice the length of its input and two more; [json_parse_fuel] shows that
    more would change nothing on any text.  [SecureJson.walk] runs for two turns for each of
    the nodes that the code admits, and a few more; [Preflight] shows that it
    never runs out, on cyclic graphs too.  All other recursion is structural or a step
    relation.

    ** What is not modelled

    Outside of the scope: start-up and signals ([index.ts],
    [workspace-bootstrap.ts]), React views, style tables, build scripts, and
    the bodies of libraries (zod, ws, express, node-pty, jose, ipaddr.js, scrypt,
    tmux).  Planned next, in this order: the settings document and its store,
    the credential store, the tmux and pty adapters, the authentication of a
    request (origin, cookies, trusted headers, JWT claims), the WebSocket
    admission, the configuration, the administration service, the routes and
    the client's socket and request state machines.  [TabStore] still takes the
    decoder of its file as a parameter.  Within modelled parts: JavaScript
    proxies, double rounding of rate-limiter tokens, the text of log records
    and the inspection hooks of [AuthService] are left out. *)
From stdpp Require Export prelude gmap strings list.
From Stdlib Require Export ZArith Lia.

(** * Strings

    A JavaScript string is a sequence of UTF-16 code units; [js] embeds the
    ASCII literals that the source uses. *)

Abbreviation jsstr := (list Z).

Definition js (s : string) : jsstr :=
  (λ a, Z.of_nat (Ascii.nat_of_ascii a)) <$> String.list_ascii_of_string s.
Arguments js : simpl never.

(** [Number.isSafeInteger] on an integral number. *)
Definition MAX_SAFE_INTEGER : Z := 9007199254740991.
Definition is_safe_integer (z : Z) : bool :=
  (- MAX_SAFE_INTEGER <=? z)%Z && (z <=? MAX_SAFE_INTEGER)%Z.

(** The range of [Date]; [new Date(ms).toISOString()] throws outside of it.
    An ISO string is represented by its instant. *)
Definition MAX_DATE : Z := 8640000000000000.
Definition toISOString (ms : Z) : option Z :=
  if ((- MAX_DATE <=? ms) && (ms <=? MAX_DATE))%Z then Some ms else None.

(** * Results and the state-and-exception monad

    A TypeScript function that may throw is [M S E A]: it runs on a state,
    returns a value or throws, and keeps the state changes made before the
    throw. *)

Inductive res (E A : Type) : Type :=
| Ok (a : A)
| Throw (e : E).
Arguments Ok {E A} a.
Arguments Throw {E A} e.

Definition is_ok {E A} (r : res E A) : bool :=
  match r with Ok _ => true | Throw _ => false end.

Definition M (S E A : Type) : Type := S → res E A * S.

Section monad.
Context {S E : Type}.

Definition ret {A} (a : A) : M S E A := λ s, (Ok a, s).
Definition throw {A} (e : E) : M S E A := λ s, (Throw e, s).
Definition bind {A B} (m : M S E A) (k : A → M S E B) : M S E B := λ s,
  match m s with
  | (Ok a, s') => k a s'
  | (Throw e, s') => (Throw e, s')
  end.
(** [try { m } catch (e) { h e }] *)
Definition catch {A} (m : M S E A) (h : E → M S E A) : M S E A := λ s,
  match m s with
  | (Ok a, s') => (Ok a, s')
  | (Throw e, s') => h e s'
  end.
(** [try { m } finally { f }]; a throw of [f] overrides the outcome. *)
Definition finally {A} (m : M S E A) (f : M S E unit) : M S E A := λ s,
  let '(r, s1) := m s in
  match f s1 with
  | (Ok _, s2) => (r, s2)
  | (Throw e, s2) => (Throw e, s2)
  end.
(** Runs [m] and reifies its outcome. *)
Definition attempt {A} (m : M S E A) : M S E (res E A) := λ s,
  let '(r, s') := m s in (Ok r, s').
Definition get : M S E S := λ s, (Ok s, s).
Definition gets {A} (f : S → A) : M S E A := λ s, (Ok (f s), s).
Definition modify (f : S → S) : M S E unit := λ s, (Ok tt, f s).
Definition of_option {A} (o : option A) (e : E) : M S E A :=
  match o with Some a => ret a | None => throw e end.
Definition of_res {A} (r : res E A) : M S E A := λ s, (r, s).
(** [if (b) throw e] *)
Definition throw_if (b : bool) (e : E) : M S E unit :=
  if b then throw e else ret tt.
(** [try { m } catch {}] around a statement. *)
Definition attempt_call (m : M S E unit) : M S E unit := catch m (λ _, ret tt).
(** [for (const a of l) f(a)] *)
Fixpoint each {A} (l : list A) (f : A → M S E unit) : M S E unit :=
  match l with
  | [] => ret tt
  | a :: l' => bind (f a) (λ _, each l' f)
  end.
End monad.

Declare Scope js_scope.
Delimit Scope js_scope with js.
Notation "'let!' x ':=' m 'in' k" := (bind m (λ x, k))
  (at level 10, x name, m at level 100, k at level 200,
   format "'[v' let!  x  :=  m  in  '/' k ']'") : js_scope.
Notation "'let!' ' p ':=' m 'in' k" := (bind m (λ p, k))
  (at level 10, p strict pattern, m at level 100, k at level 200) : js_scope.
Notation "'do!' m 'in' k" := (bind m (λ _, k))
  (at level 10, m at level 100, k at level 200,
   format "'[v' do!  m  in  '/' k ']'") : js_scope.
Open Scope js_scope.

(** ** Weakest preconditions *)

Section wp.
Context {S E : Type}.

Definition wp {A} (m : M S E A) (Q : res E A → S → Prop) (s : S) : Prop :=
  Q (m s).1 (m s).2.

Lemma wp_ret {A} (a : A) Q s : Q (Ok a) s → wp (ret a) Q s.
Proof. done. Qed.
Lemma wp_throw {A} (e : E) (Q : res E A → S → Prop) s :
  Q (Throw e) s → wp (throw e) Q s.
Proof. done. Qed.
Lemma wp_bind {A B} (m : M S E A) (k : A → M S E B) Q s :
  wp m (λ r s', match r with
                | Ok a => wp (k a) Q s'
                | Throw e => Q (Throw e) s'
                end) s →
  wp (bind m k) Q s.
Proof. unfold wp, bind. by destruct (m s) as [[a|e] s']. Qed.
Lemma wp_catch {A} (m : M S E A) h Q s :
  wp m (λ r s', match r with
                | Ok a => Q (Ok a) s'
                | Throw e => wp (h e) Q s'
                end) s →
  wp (catch m h) Q s.
Proof. unfold wp, catch. by destruct (m s) as [[a|e] s']. Qed.
Lemma wp_finally {A} (m : M S E A) f Q s :
  wp m (λ r s1, wp f (λ r2 s2, match r2 with
                               | Ok _ => Q r s2
                               | Throw e => Q (Throw e) s2
                               end) s1) s →
  wp (finally m f) Q s.
Proof.
  unfold wp, finally. destruct (m s) as [r s1]; simpl.
  by destruct (f s1) as [[u|e] s2].
Qed.
Lemma wp_attempt {A} (m : M S E A) Q s :
  wp m (λ r s', Q (Ok r) s') s → wp (attempt m) Q s.
Proof. unfold wp, attempt. by destruct (m s). Qed.
Lemma wp_get (Q : res E S → S → Prop) s : Q (Ok s) s → wp get Q s.
Proof. done. Qed.
Lemma wp_gets {A} (f : S → A) Q s : Q (Ok (f s)) s → wp (gets f) Q s.
Proof. done. Qed.
Lemma wp_modify f Q s : Q (Ok tt) (f s) → wp (modify f) Q s.
Proof. done. Qed.
Lemma wp_of_option {A} (o : option A) e Q s :
  (∀ a, o = Some a → Q (Ok a) s) → (o = None → Q (Throw e) s) →
  wp (of_option o e) Q s.
Proof. destruct o; unfold wp; simpl; eauto. Qed.
Lemma wp_of_res {A} (r : res E A) Q s : Q r s → wp (of_res r) Q s.
Proof. done. Qed.
Lemma wp_throw_if b (e : E) Q s :
  (b = true → Q (Throw e) s) → (b = false → Q (Ok tt) s) →
  wp (throw_if b e) Q s.
Proof. destruct b; unfold wp; simpl; eauto. Qed.
Lemma wp_mono {A} (m : M S E A) (P Q : res E A → S → Prop) s :
  wp m P s → (∀ r s', P r s' → Q r s') → wp m Q s.
Proof. unfold wp; eauto. Qed.
Lemma wp_if {A} (b : bool) (m1 m2 : M S E A) Q s :
  (b = true → wp m1 Q s) → (b = false → wp m2 Q s) →
  wp (if b then m1 else m2) Q s.
Proof. destruct b; eauto. Qed.
Lemma wp_run {A} (m : M S E A) Q s : wp m Q s → Q (m s).1 (m s).2.
Proof. done. Qed.
(** A loop whose body never throws and relates the states by a preorder. *)
Lemma wp_each (R : S → S → Prop) `{!PreOrder R} {A} (l : list A) (f : A → M S E unit) s :
  (∀ a s, wp (f a) (λ r s', r = Ok tt ∧ R s s') s) →
  wp (each l f) (λ r s', r = Ok tt ∧ R s s') s.
Proof.
  intros Hf. revert s. induction l as [|a l IH]; intros s; simpl; [by apply wp_ret|].
  apply wp_bind. eapply wp_mono; [apply Hf|]. intros r s1 [-> Hr].
  eapply wp_mono; [apply IH|]. intros r s2 [-> Hr2]. split; [done|]. by etrans.
Qed.
End wp.

(** One structural step of a [wp] goal. *)
Ltac wp_step :=
  lazymatch goal with
  | |- wp (bind _ _) _ _ => apply wp_bind
  | |- wp (catch _ _) _ _ => apply wp_catch
  | |- wp (finally _ _) _ _ => apply wp_finally
  | |- wp (attempt _) _ _ => apply wp_attempt
  | |- wp (ret _) _ _ => apply wp_ret; cbn beta iota
  | |- wp (throw _) _ _ => apply wp_throw; cbn beta iota
  | |- wp get _ _ => apply wp_get; cbn beta iota
  | |- wp (gets _) _ _ => apply wp_gets; cbn beta iota
  | |- wp (modify _) _ _ => apply wp_modify; cbn beta iota
  | |- wp (of_res _) _ _ => apply wp_of_res; cbn beta iota
  | |- wp (of_option _ _) _ _ =>
      apply wp_of_option; [intros ? ?|intros ?]; cbn beta iota
  | |- wp (throw_if _ _) _ _ =>
      apply wp_throw_if; intros ?; cbn beta iota
  | |- wp (match ?x with left _ => _ | right _ => _ end) _ _ => destruct x
  | |- wp (if _ then _ else _) _ _ => apply wp_if; intros ?
  end.
Ltac wp_go := repeat wp_step.

(** * Calls to other components

    A component that calls others is run against a [handler]: for each call
    it yields the outcome, and may change the world and, for an asynchronous
    call during which other code runs, the component's own state.  The calls
    made are logged in order, each with whether it succeeded. *)

Record sys (C W Ev : Type) : Type := Sys { comp : C; world : W; log : list (Ev * bool) }.
Arguments Sys {C W Ev}.
Arguments comp {C W Ev}.
Arguments world {C W Ev}.
Arguments log {C W Ev}.

Section calls.
Context {C W Ev E : Type} (resp : Ev → Type).

Definition handler : Type := ∀ e : Ev, C → W → res E (resp e) * (C * W).

Definition call (h : handler) (e : Ev) : M (sys C W Ev) E (resp e) := λ s,
  let '(r, (c, w)) := h e (comp s) (world s) in
  (r, Sys c w (log s ++ [(e, is_ok r)])).

(** Reads and updates of the component's own fields. *)
Definition own {A} (f : C → A) : M (sys C W Ev) E A := gets (λ s, f (comp s)).
Definition set_own (f : C → C) : M (sys C W Ev) E unit :=
  modify (λ s, Sys (f (comp s)) (world s) (log s)).

Lemma wp_call h e (Q : res E (resp e) → sys C W Ev → Prop) s :
  (∀ r c w, h e (comp s) (world s) = (r, (c, w)) →
     Q r (Sys c w (log s ++ [(e, is_ok r)]))) →
  wp (call h e) Q s.
Proof.
  intros H. unfold wp, call.
  destruct (h e (comp s) (world s)) as [r [c w]] eqn:Hh. by apply H.
Qed.
Lemma wp_own {A} (f : C → A) Q s : Q (Ok (f (comp s))) s → wp (own f) Q s.
Proof. done. Qed.
Lemma wp_set_own f Q s :
  Q (Ok tt) (Sys (f (comp s)) (world s) (log s)) → wp (set_own f) Q s.
Proof. done. Qed.
End calls.

(** [wp_step] extended with calls. *)
Ltac wp_sys_step :=
  lazymatch goal with
  | |- wp (call _ _ _) _ _ => apply wp_call; intros ? ? ? ?; cbn beta iota
  | |- wp (own _) _ _ => apply wp_own; cbn beta iota
  | |- wp (set_own _) _ _ => apply wp_set_own; cbn beta iota
  | |- _ => wp_step
  end.
Ltac wp_sys := repeat wp_sys_step.

(** Splits boolean conjunctions and reflects comparisons of the context. *)
Ltac breflect :=
  repeat match goal with
  | H : (_ && _) = true |- _ => apply andb_true_iff in H as [? ?]
  | H : (_ || _) = false |- _ => apply orb_false_iff in H as [? ?]
  | H : negb _ = true |- _ => apply negb_true_iff in H
  | H : negb _ = false |- _ => apply negb_false_iff in H
  | H : bool_decide _ = true |- _ => apply bool_decide_eq_true in H
  | H : bool_decide _ = false |- _ => apply bool_decide_eq_false in H
  | H : (_ <=? _)%Z = true |- _ => apply Z.leb_le in H
  | H : (_ <=? _)%Z = false |- _ => apply Z.leb_gt in H
  | H : (_ <? _)%Z = true |- _ => apply Z.ltb_lt in H
  | H : (_ <? _)%Z = false |- _ => apply Z.ltb_ge in H
  | H : (_ =? _)%Z = true |- _ => apply Z.eqb_eq in H
  | H : (_ =? _)%Z = false |- _ => apply Z.eqb_neq in H
  | H : (_ <=? _)%nat = true |- _ => apply Nat.leb_le in H
  | H : (_ <=? _)%nat = false |- _ => apply Nat.leb_gt in H
  | H : (_ <? _)%nat = true |- _ => apply Nat.ltb_lt in H
  | H : (_ <? _)%nat = false |- _ => apply Nat.ltb_ge in H
  | H : (_ =? _)%nat = true |- _ => apply Nat.eqb_eq in H
  | H : (_ =? _)%nat = false |- _ => apply Nat.eqb_neq in H
  end.
