(* ===== verification/JsMap.v ===== *)
(** JavaScript's [Map] and [Set]: insertion-ordered association lists.

    The iteration order of a [Map] is observable in the program (the oldest
    entry of the activity, socket-generation and suspension tables is the one
    evicted), so these tables are association lists rather than [gmap]s.
    [jm_set] keeps the position of a key that is already present, as
    [Map.prototype.set] does. *)
From S2P Require Import Prelude.

Section jsmap.
Context {K V : Type} `{EqDecision K}.
Implicit Types (m : list (K * V)) (k : K) (v : V).

Fixpoint jm_get k m : option V :=
  match m with
  | [] => None
  | (k', v) :: m' => if decide (k = k') then Some v else jm_get k m'
  end.

Definition jm_has k m : bool :=
  match jm_get k m with Some _ => true | None => false end.

Fixpoint jm_set k v m : list (K * V) :=
  match m with
  | [] => [(k, v)]
  | (k', v') :: m' =>
      if decide (k = k') then (k', v) :: m' else (k', v') :: jm_set k v m'
  end.

Definition jm_delete k m : list (K * V) := filter (λ p, p.1 ≠ k) m.

(** A [Map] never holds a key twice. *)
Definition jm_wf m : Prop := NoDup m.*1.

Lemma jm_get_set k k' v m :
  jm_get k' (jm_set k v m) = if decide (k' = k) then Some v else jm_get k' m.
Proof.
  induction m as [|[k0 v0] m IH]; simpl; [by repeat case_decide|].
  destruct (decide (k = k0)) as [->|]; simpl; [by repeat case_decide|].
  rewrite IH. repeat case_decide; congruence.
Qed.

Lemma jm_get_set_eq k v m : jm_get k (jm_set k v m) = Some v.
Proof. rewrite jm_get_set. by case_decide. Qed.
Lemma jm_get_set_ne k k' v m :
  k' ≠ k → jm_get k' (jm_set k v m) = jm_get k' m.
Proof. intros. rewrite jm_get_set. by case_decide. Qed.

Lemma jm_get_delete k k' m :
  jm_get k' (jm_delete k m) = if decide (k' = k) then None else jm_get k' m.
Proof.
  unfold jm_delete. induction m as [|[k0 v0] m IH]; [by repeat case_decide|].
  destruct (decide (k0 = k)) as [->|Hne].
  - rewrite filter_cons_False by (simpl; tauto). rewrite IH. simpl.
    by repeat case_decide.
  - rewrite filter_cons_True by done. simpl. rewrite IH.
    repeat case_decide; congruence.
Qed.

Lemma jm_get_delete_eq k m : jm_get k (jm_delete k m) = None.
Proof. rewrite jm_get_delete. by case_decide. Qed.
Lemma jm_get_delete_ne k k' m :
  k' ≠ k → jm_get k' (jm_delete k m) = jm_get k' m.
Proof. intros. rewrite jm_get_delete. by case_decide. Qed.

Lemma jm_get_app k m1 m2 :
  jm_get k (m1 ++ m2) =
  match jm_get k m1 with Some v => Some v | None => jm_get k m2 end.
Proof.
  induction m1 as [|[k0 v0] m IH]; simpl; [done|]. by case_decide.
Qed.

Lemma jm_get_elem k v m : jm_get k m = Some v → (k, v) ∈ m.
Proof.
  induction m as [|[k0 v0] m IH]; simpl; [done|]. case_decide.
  - intros [= ->]. subst. left.
  - intros H'. right. by apply IH.
Qed.

Lemma jm_elem_get k v m : jm_wf m → (k, v) ∈ m → jm_get k m = Some v.
Proof.
  unfold jm_wf. induction m as [|[k0 v0] m IH]; simpl; [set_solver|].
  intros [Hn Hnd]%NoDup_cons [Heq|Hin]%elem_of_cons.
  - inversion Heq; subst. by case_decide.
  - case_decide as Hk; [|by apply IH].
    subst. destruct Hn. apply list_elem_of_fmap. by exists (k0, v).
Qed.

Lemma jm_get_None k m : jm_get k m = None ↔ k ∉ m.*1.
Proof.
  induction m as [|[k0 v0] m IH]; simpl; [set_solver|].
  rewrite not_elem_of_cons. case_decide; [|rewrite IH; tauto].
  split; [done|tauto].
Qed.

Lemma jm_get_is_Some k m : is_Some (jm_get k m) ↔ k ∈ m.*1.
Proof.
  rewrite <-not_eq_None_Some, jm_get_None.
  destruct (decide (k ∈ m.*1)); tauto.
Qed.

Lemma jm_keys_set k v m :
  (jm_set k v m).*1 = if decide (k ∈ m.*1) then m.*1 else m.*1 ++ [k].
Proof.
  induction m as [|[k0 v0] m IH]; [done|]. cbn [jm_set].
  destruct (decide (k = k0)) as [->|Hne]; rewrite !fmap_cons; cbn [fst].
  - rewrite decide_True by left. done.
  - rewrite IH. destruct (decide (k ∈ m.*1)) as [Hin|Hni].
    + rewrite decide_True by (by right). done.
    + rewrite decide_False; [done|]. rewrite elem_of_cons. tauto.
Qed.

Lemma jm_delete_cons_eq k v m : jm_delete k ((k, v) :: m) = jm_delete k m.
Proof. unfold jm_delete. by rewrite filter_cons_False by (simpl; tauto). Qed.
Lemma jm_delete_cons_ne k k' v m :
  k' ≠ k → jm_delete k ((k', v) :: m) = (k', v) :: jm_delete k m.
Proof. intros. unfold jm_delete. by rewrite filter_cons_True by done. Qed.

Lemma jm_keys_delete k m : (jm_delete k m).*1 = filter (λ k', k' ≠ k) m.*1.
Proof.
  induction m as [|[k0 v0] m IH]; [done|].
  destruct (decide (k0 = k)) as [->|Hne].
  - rewrite jm_delete_cons_eq, fmap_cons, filter_cons_False by (simpl; tauto).
    done.
  - rewrite jm_delete_cons_ne, !fmap_cons, filter_cons_True by done.
    by rewrite IH.
Qed.

Lemma jm_set_wf k v m : jm_wf m → jm_wf (jm_set k v m).
Proof.
  unfold jm_wf. rewrite jm_keys_set. case_decide; [done|].
  intros. apply NoDup_app. split_and!; [done|set_solver|apply NoDup_singleton].
Qed.
Lemma jm_delete_wf k m : jm_wf m → jm_wf (jm_delete k m).
Proof. unfold jm_wf. rewrite jm_keys_delete. apply NoDup_filter. Qed.

Lemma jm_delete_absent k m : jm_get k m = None → jm_delete k m = m.
Proof.
  induction m as [|[k0 v0] m IH]; simpl; [done|].
  case_decide; [done|]. intros Hg.
  rewrite jm_delete_cons_ne by congruence. by rewrite IH.
Qed.

Lemma jm_set_absent k v m : jm_get k m = None → jm_set k v m = m ++ [(k, v)].
Proof.
  induction m as [|[k0 v0] m IH]; simpl; [done|].
  case_decide; [done|]. intros. by rewrite IH.
Qed.

Lemma jm_length_set k v m :
  length (jm_set k v m) =
  if decide (k ∈ m.*1) then length m else S (length m).
Proof.
  rewrite <-(length_fmap fst (jm_set k v m)), jm_keys_set.
  case_decide; rewrite ?length_app, length_fmap; simpl; lia.
Qed.

Lemma jm_length_delete_le k m : length (jm_delete k m) ≤ length m.
Proof. apply length_filter. Qed.

Lemma jm_length_delete k m :
  jm_wf m → is_Some (jm_get k m) → S (length (jm_delete k m)) = length m.
Proof.
  unfold jm_wf. induction m as [|[k0 v0] m IH]; simpl; [by intros _ [? ?]|].
  intros [Hn Hnd]%NoDup_cons Hs. destruct (decide (k = k0)) as [->|Hk].
  - rewrite jm_delete_cons_eq, jm_delete_absent by by apply jm_get_None. done.
  - rewrite jm_delete_cons_ne by congruence. simpl. by rewrite IH.
Qed.

Lemma jm_elem_delete k p m : p ∈ jm_delete k m ↔ p ∈ m ∧ p.1 ≠ k.
Proof. unfold jm_delete. rewrite list_elem_of_filter. tauto. Qed.
End jsmap.

(** ** [Set] *)

Section jsset.
Context {A : Type} `{EqDecision A}.
Implicit Types (l : list A) (x : A).

Definition js_add x l : list A := if decide (x ∈ l) then l else l ++ [x].
Definition js_remove x l : list A := filter (λ y, y ≠ x) l.
(** [for (const id of ids) set.add(id)] *)
Definition js_add_all (xs l : list A) : list A := foldl (λ l x, js_add x l) l xs.
Definition js_remove_all (xs l : list A) : list A := foldl (λ l x, js_remove x l) l xs.

Lemma elem_of_js_add x y l : x ∈ js_add y l ↔ x = y ∨ x ∈ l.
Proof. unfold js_add. case_decide; set_solver. Qed.
Lemma elem_of_js_remove x y l : x ∈ js_remove y l ↔ x ≠ y ∧ x ∈ l.
Proof. unfold js_remove. rewrite list_elem_of_filter. tauto. Qed.
Lemma elem_of_js_add_all x xs l : x ∈ js_add_all xs l ↔ x ∈ xs ∨ x ∈ l.
Proof.
  revert l. induction xs as [|y xs IH]; intros l; simpl; [set_solver|].
  rewrite IH, elem_of_js_add. set_solver.
Qed.
Lemma elem_of_js_remove_all x xs l : x ∈ js_remove_all xs l ↔ x ∉ xs ∧ x ∈ l.
Proof.
  revert l. induction xs as [|y xs IH]; intros l; simpl; [set_solver|].
  rewrite IH, elem_of_js_remove. set_solver.
Qed.
Lemma js_add_NoDup x l : NoDup l → NoDup (js_add x l).
Proof.
  unfold js_add. case_decide; [done|]. intros.
  apply NoDup_app. split_and!; [done|set_solver|apply NoDup_singleton].
Qed.
Lemma js_remove_NoDup x l : NoDup l → NoDup (js_remove x l).
Proof. apply NoDup_filter. Qed.
End jsset.

Create HintDb jsmap.
Create Rewrite HintDb jsmap_rw.
#[export] Hint Resolve jm_set_wf jm_delete_wf jm_get_elem : jsmap.
#[export] Hint Rewrite @jm_get_set_eq @jm_get_delete_eq @jm_get_app : jsmap_rw.
#[export] Hint Rewrite @jm_get_set_ne @jm_get_delete_ne using done : jsmap_rw.
