(* ===== verification/SafeString.v ===== *)
(** [packages/shared/src/safe-string.ts]: UTF-8 lengths, Unicode character
    classes and the schema of safe, normalised strings.

    NFC normalisation ([String.prototype.normalize]) is driven by the Unicode
    data tables, which are not part of the repository: it is the field [nfc]
    of [Platform].  [iso_datetime] stands for the [z.iso.datetime] check of the
    zod package. *)
From S2P Require Import Prelude.
Open Scope Z_scope.

Class Platform := {
  (** [s.normalize('NFC')] *)
  nfc : jsstr → jsstr;
  (** [z.iso.datetime({ offset: false })] accepts the string *)
  iso_datetime : jsstr → bool;
}.

(** * Code points *)

Definition is_high_surrogate (c : Z) : bool := (0xD800 <=? c) && (c <=? 0xDBFF).
Definition is_low_surrogate (c : Z) : bool := (0xDC00 <=? c) && (c <=? 0xDFFF).
Definition is_surrogate (c : Z) : bool := (0xD800 <=? c) && (c <=? 0xDFFF).

(** The characters of [[...value]]: surrogate pairs are joined, a lone
    surrogate is yielded as it is. *)
Fixpoint code_points (s : jsstr) : list Z :=
  match s with
  | [] => []
  | c :: s' =>
      match s' with
      | d :: s'' =>
          if is_high_surrogate c && is_low_surrogate d
          then (0x10000 + (c - 0xD800) * 0x400 + (d - 0xDC00)) :: code_points s''
          else c :: code_points s'
      | [] => [c]
      end
  end.

(** Bytes of one code point in UTF-8; [TextEncoder] writes a lone surrogate
    as U+FFFD. *)
Definition utf8_width (c : Z) : Z :=
  if c <? 0x80 then 1
  else if c <? 0x800 then 2
  else if c <? 0x10000 then 3
  else 4.

Definition utf8ByteLength (s : jsstr) : Z :=
  foldr (λ c n, utf8_width c + n) 0 (code_points s).

(** * Character classes *)

Definition in_ranges (rs : list (Z * Z)) (c : Z) : bool :=
  existsb (λ r, (r.1 <=? c) && (c <=? r.2)) rs.

(** [/[\p{Cc}\p{Cs}\p{Zl}\p{Zp}]/u] *)
Definition forbiddenCharacterPattern (c : Z) : bool :=
  in_ranges [(0, 0x1F); (0x7F, 0x9F); (0xD800, 0xDFFF); (0x2028, 0x2029)] c.

(** [/\p{Cf}/u] *)
Definition formatControlPattern (c : Z) : bool :=
  in_ranges
    [(0xAD, 0xAD); (0x600, 0x605); (0x61C, 0x61C); (0x6DD, 0x6DD);
     (0x70F, 0x70F); (0x890, 0x891); (0x8E2, 0x8E2); (0x180E, 0x180E);
     (0x200B, 0x200F); (0x202A, 0x202E); (0x2060, 0x2064); (0x2066, 0x206F);
     (0xFEFF, 0xFEFF); (0xFFF9, 0xFFFB); (0x110BD, 0x110BD);
     (0x110CD, 0x110CD); (0x13430, 0x1343F); (0x1BCA0, 0x1BCA3);
     (0x1D173, 0x1D17A); (0xE0001, 0xE0001); (0xE0020, 0xE007F)] c.

Definition allowedJoinControls : list Z := [0x200C; 0x200D].

(** The white space and line terminators removed by [String.prototype.trim]. *)
Definition is_js_space (c : Z) : bool :=
  in_ranges
    [(0x9, 0xD); (0x20, 0x20); (0xA0, 0xA0); (0x1680, 0x1680);
     (0x2000, 0x200A); (0x2028, 0x2029); (0x202F, 0x202F); (0x205F, 0x205F);
     (0x3000, 0x3000); (0xFEFF, 0xFEFF)] c.

Fixpoint drop_while (f : Z → bool) (s : jsstr) : jsstr :=
  match s with
  | [] => []
  | c :: s' => if f c then drop_while f s' else s
  end.

Definition trim (s : jsstr) : jsstr :=
  reverse (drop_while is_js_space (reverse (drop_while is_js_space s))).

(** * [safeNormalizedStringSchema] *)

Record SafeNormalizedStringOptions := {
  maxUtf8Bytes : option Z;
  opt_trim : bool;
  allowJoinControls : bool;
}.

Definition safe_character (o : SafeNormalizedStringOptions) (c : Z) : bool :=
  negb (forbiddenCharacterPattern c) &&
  (negb (formatControlPattern c) ||
   (allowJoinControls o && bool_decide (c ∈ allowedJoinControls))).

Section safe_string.
Context `{Platform}.

(** The parsed value, or [None] when the schema reports an issue. *)
Definition safeNormalizedString (o : SafeNormalizedStringOptions)
    (value : jsstr) : option jsstr :=
  if negb (forallb (safe_character o) (code_points value)) then None
  else
    let v := nfc (if opt_trim o then trim value else value) in
    if negb (1 <=? utf8ByteLength v) then None
    else
      match maxUtf8Bytes o with
      | Some b => if utf8ByteLength v <=? b then Some v else None
      | None => Some v
      end.

Lemma safeNormalizedString_bounds o value v :
  safeNormalizedString o value = Some v →
  1 <= utf8ByteLength v ∧
  match maxUtf8Bytes o with Some b => utf8ByteLength v <= b | None => True end.
Proof.
  unfold safeNormalizedString. intros Hs.
  repeat (case_match; try done); simplify_eq; by breflect.
Qed.

Lemma safeNormalizedString_safe o value v :
  safeNormalizedString o value = Some v →
  Forall (λ c, safe_character o c = true) (code_points value) ∧
  v = nfc (if opt_trim o then trim value else value).
Proof.
  unfold safeNormalizedString. intros Hs.
  destruct (forallb _ _) eqn:Hf; simpl in Hs; [|done].
  split; [|by repeat (case_match; try done); simplify_eq].
  apply Forall_forall. intros c Hc.
  eapply forallb_forall; [exact Hf|]. by apply list_elem_of_In.
Qed.
End safe_string.

(** * Lengths *)

Lemma utf8_width_pos c : 1 <= utf8_width c <= 4.
Proof. unfold utf8_width. repeat case_match; lia. Qed.

Lemma utf8ByteLength_nonneg s : 0 <= utf8ByteLength s.
Proof.
  unfold utf8ByteLength. induction (code_points s) as [|c l IH]; simpl; [lia|].
  pose proof (utf8_width_pos c). lia.
Qed.

(** Induction along the pairs that [code_points] consumes. *)
Lemma jsstr_pair_ind (P : jsstr → Prop) :
  P [] → (∀ c, P [c]) → (∀ c d s, P s → P (d :: s) → P (c :: d :: s)) → ∀ s, P s.
Proof.
  intros H0 H1 H2.
  assert (∀ s, P s ∧ ∀ c, P (c :: s)) as Hs; [|apply Hs].
  induction s as [|c s [IH1 IH2]]; split; auto.
Qed.

(** A string never takes more UTF-8 bytes than three per code unit. *)
Lemma utf8ByteLength_upper s :
  Forall (λ c, 0 <= c < 0x10000) s → utf8ByteLength s <= 3 * Z.of_nat (length s).
Proof.
  unfold utf8ByteLength.
  induction s as [|c|c d s IH1 IH2] using jsstr_pair_ind; intros Hwf.
  - simpl; lia.
  - apply Forall_cons in Hwf as [? _]. simpl. unfold utf8_width.
    repeat case_match; breflect; lia.
  - apply Forall_cons in Hwf as [Hc Hwf]. pose proof Hwf as [Hd Hs]%Forall_cons.
    specialize (IH1 Hs). specialize (IH2 Hwf).
    change (code_points (c :: d :: s)) with
      (if is_high_surrogate c && is_low_surrogate d
       then (0x10000 + (c - 0xD800) * 0x400 + (d - 0xDC00)) :: code_points s
       else c :: code_points (d :: s)).
    case_match; cbn [foldr length] in *.
    + pose proof (utf8_width_pos (0x10000 + (c - 0xD800) * 0x400 + (d - 0xDC00))).
      lia.
    + assert (utf8_width c <= 3) by (unfold utf8_width; repeat case_match; breflect; lia).
      lia.
Qed.

Lemma utf8ByteLength_ascii s :
  Forall (λ c, 0 <= c < 0x80) s → utf8ByteLength s = Z.of_nat (length s).
Proof.
  unfold utf8ByteLength. induction s as [|c s IH]; intros Hs; [done|].
  apply Forall_cons in Hs as [Hc Hs].
  assert (code_points (c :: s) = c :: code_points s) as ->.
  { destruct s; [done|]. simpl. unfold is_high_surrogate.
    by rewrite (proj2 (Z.leb_gt _ _)) by lia. }
  cbn [foldr length]. rewrite (IH Hs). unfold utf8_width.
  rewrite (proj2 (Z.ltb_lt _ _)) by lia. lia.
Qed.
