(* ===== verification/Tabs.v ===== *)
(** [packages/shared/src/tabs.ts] and [isSessionId] of [protocol.ts]: tab
    identifiers, tab records and the persisted tab document with its schema. *)
From S2P Require Import Prelude SafeString.
Open Scope Z_scope.

(** * Character patterns

    A regular expression that is anchored at both ends and is a fixed sequence
    of character classes is a list of predicates. *)

Fixpoint match_chars (ps : list (Z → bool)) (s : jsstr) : bool :=
  match ps, s with
  | [], [] => true
  | p :: ps', c :: s' => p c && match_chars ps' s'
  | _, _ => false
  end.

Definition char_in (cs : jsstr) (c : Z) : bool := bool_decide (c ∈ cs).
Definition is_lower_hex (c : Z) : bool :=
  ((48 <=? c) && (c <=? 57)) || ((97 <=? c) && (c <=? 102)).
Definition dash : Z := 45.

(** [/^[0-9a-f]{8}-[0-9a-f]{4}-[1-8][0-9a-f]{3}-[89ab][0-9a-f]{3}-[0-9a-f]{12}$/] *)
Definition TAB_ID_PATTERN : list (Z → bool) :=
  replicate 8 is_lower_hex ++ [Z.eqb dash] ++
  replicate 4 is_lower_hex ++ [Z.eqb dash] ++
  [char_in (js "12345678")] ++ replicate 3 is_lower_hex ++ [Z.eqb dash] ++
  [char_in (js "89ab")] ++ replicate 3 is_lower_hex ++ [Z.eqb dash] ++
  replicate 12 is_lower_hex.

Definition isSessionId (value : jsstr) : bool := match_chars TAB_ID_PATTERN value.

(** * Constants of the tab protocol *)

Definition TAB_DOCUMENT_FORMAT_VERSION : Z := 1.
Definition SESSION_REPLACED : Z := 4001.
Definition AUTHENTICATION_REQUIRED : Z := 4003.
Definition BRIDGE_RESTART : Z := 4010.
Definition SESSION_STOPPED : Z := 4011.
Definition SESSION_RESTARTING : Z := 4012.

(** * Records *)

Inductive DesiredState := active | stopped.
#[export] Instance DesiredState_eq_dec : EqDecision DesiredState.
Proof. solve_decision. Defined.

Inductive SessionState := running | state_stopped | unknown.
#[export] Instance SessionState_eq_dec : EqDecision SessionState.
Proof. solve_decision. Defined.

Record TabRecord := {
  tab_id : jsstr;
  displayName : jsstr;
  position : Z;
  createdAt : jsstr;
  lastActivityAt : jsstr;
  desiredState : DesiredState;
}.
#[export] Instance TabRecord_eq_dec : EqDecision TabRecord.
Proof. solve_decision. Defined.

Record SessionHealth := {
  health_state : SessionState;
  attached : bool;
  bridgePid : option Z;
}.

Record TabView := { view_tab : TabRecord; session : SessionHealth }.

Record PersistedTabsDocument := {
  structureRevision : Z;
  tabs : list TabRecord;
}.
#[export] Instance PersistedTabsDocument_eq_dec : EqDecision PersistedTabsDocument.
Proof. solve_decision. Defined.

(** The object spreads [{ ...tab, field }] of the source. *)
Definition with_displayName (n : jsstr) (t : TabRecord) : TabRecord :=
  {| tab_id := tab_id t; displayName := n; position := position t;
     createdAt := createdAt t; lastActivityAt := lastActivityAt t;
     desiredState := desiredState t |}.
Definition with_position (p : Z) (t : TabRecord) : TabRecord :=
  {| tab_id := tab_id t; displayName := displayName t; position := p;
     createdAt := createdAt t; lastActivityAt := lastActivityAt t;
     desiredState := desiredState t |}.
Definition with_lastActivityAt (w : jsstr) (t : TabRecord) : TabRecord :=
  {| tab_id := tab_id t; displayName := displayName t; position := position t;
     createdAt := createdAt t; lastActivityAt := w;
     desiredState := desiredState t |}.
Definition with_desiredState (d : DesiredState) (t : TabRecord) : TabRecord :=
  {| tab_id := tab_id t; displayName := displayName t; position := position t;
     createdAt := createdAt t; lastActivityAt := lastActivityAt t;
     desiredState := d |}.

(** [z.number().int().nonnegative()] *)
Definition nonnegative_int (z : Z) : bool := is_safe_integer z && (0 <=? z).

(** * Schemas *)

Section schemas.
Context `{Platform}.

Definition persistedDisplayNameOptions : SafeNormalizedStringOptions :=
  {| maxUtf8Bytes := None; opt_trim := true; allowJoinControls := true |}.

Definition persistedDisplayName (value : jsstr) : option jsstr :=
  v ← safeNormalizedString persistedDisplayNameOptions value;
  let n := Z.of_nat (length (code_points v)) in
  if (1 <=? n) && (n <=? 80) then Some v else None.

Definition displayNameSchema (value : jsstr) : option jsstr :=
  v ← persistedDisplayName value;
  if utf8ByteLength v <=? 128 then Some v else None.

Definition tabRecordSchema (t : TabRecord) : option TabRecord :=
  if negb (isSessionId (tab_id t)) then None
  else
    n ← persistedDisplayName (displayName t);
    if nonnegative_int (position t) && iso_datetime (createdAt t) &&
       iso_datetime (lastActivityAt t)
    then Some (with_displayName n t) else None.

(** The loop of [superRefine]: [false] once an issue has been added. *)
Fixpoint refine_tabs (ids : gset jsstr) (positions : gset Z) (index : Z)
    (ts : list TabRecord) : bool :=
  match ts with
  | [] => true
  | tab :: ts' =>
      bool_decide (tab_id tab ∉ ids) &&
      bool_decide (position tab ∉ positions) &&
      (position tab =? index) &&
      refine_tabs ({[ tab_id tab ]} ∪ ids) ({[ position tab ]} ∪ positions)
        (index + 1) ts'
  end.

(** [parseDocument] of [tab-store.ts] on a document value:
    [persistedTabsDocumentSchema.parse]. *)
Definition parseDocument (d : PersistedTabsDocument)
    : option PersistedTabsDocument :=
  if negb (nonnegative_int (structureRevision d)) then None
  else
    ts ← mapM tabRecordSchema (tabs d);
    if refine_tabs ∅ ∅ 0 ts
    then Some {| structureRevision := structureRevision d; tabs := ts |}
    else None.
End schemas.

(** * Facts *)

Lemma match_chars_length ps s : match_chars ps s = true → length s = length ps.
Proof.
  revert s. induction ps as [|p ps IH]; intros [|c s]; simpl; try done.
  intros [_ Hm]%andb_true_iff. by rewrite (IH s).
Qed.

Lemma match_chars_app ps1 ps2 s :
  match_chars (ps1 ++ ps2) s =
  match_chars ps1 (take (length ps1) s) && match_chars ps2 (drop (length ps1) s).
Proof.
  revert s. induction ps1 as [|p ps1 IH]; intros s; simpl; [by destruct s|].
  destruct s as [|c s]; simpl; [done|]. by rewrite IH, andb_assoc.
Qed.

Lemma isSessionId_length s : isSessionId s = true → length s = 36%nat.
Proof. intros Hs%match_chars_length. exact Hs. Qed.

(** Positions of a list are its indices, starting at [i]. *)
Fixpoint positions_from (i : Z) (ts : list TabRecord) : Prop :=
  match ts with
  | [] => True
  | t :: ts' => position t = i ∧ positions_from (i + 1) ts'
  end.

Lemma refine_tabs_spec ids ps i ts :
  (∀ p, p ∈ ps → p < i) →
  refine_tabs ids ps i ts = true ↔
  NoDup (tab_id <$> ts) ∧ (∀ t, t ∈ ts → tab_id t ∉ ids) ∧ positions_from i ts.
Proof.
  revert ids ps i. induction ts as [|t ts IH]; intros ids ps i Hps; csimpl.
  { split; [|done]. intros _. split_and!; [constructor|set_solver|done]. }
  destruct (decide (position t = i)) as [Hp|Hp]; cycle 1.
  { split; [|naive_solver]. rewrite !andb_true_iff, Z.eqb_eq. naive_solver. }
  rewrite !andb_true_iff, !bool_decide_eq_true, Z.eqb_eq, NoDup_cons, IH
    by (intros p [->%elem_of_singleton|?%Hps]%elem_of_union; lia).
  assert ((∀ u, u ∈ ts → tab_id u ∉ {[tab_id t]} ∪ ids) ↔
          tab_id t ∉ tab_id <$> ts ∧ ∀ u, u ∈ ts → tab_id u ∉ ids) as ->.
  { rewrite list_elem_of_fmap. set_solver. }
  assert ((∀ u, u ∈ t :: ts → tab_id u ∉ ids) ↔
          tab_id t ∉ ids ∧ ∀ u, u ∈ ts → tab_id u ∉ ids) as -> by set_solver.
  assert (position t ∉ ps) by (intros ?%Hps; lia). tauto.
Qed.

Lemma refine_tabs_ok ts :
  refine_tabs ∅ ∅ 0 ts = true ↔ NoDup (tab_id <$> ts) ∧ positions_from 0 ts.
Proof. rewrite refine_tabs_spec by set_solver. set_solver. Qed.

Lemma positions_from_lookup i ts :
  positions_from i ts ↔ ∀ k t, ts !! k = Some t → position t = i + Z.of_nat k.
Proof.
  revert i. induction ts as [|t ts IH]; intros i; simpl; [by split|].
  rewrite IH. split.
  - intros [Hp Hts] [|k] u; simpl.
    + intros [= ->]. lia.
    + intros Hu. rewrite (Hts k u Hu). lia.
  - intros Hall. split.
    + specialize (Hall 0%nat t eq_refl). lia.
    + intros k u Hu. specialize (Hall (S k) u Hu). lia.
Qed.

Section schema_facts.
Context `{Platform}.

Lemma tabRecordSchema_Some t u :
  tabRecordSchema t = Some u →
  ∃ n, persistedDisplayName (displayName t) = Some n ∧
       u = with_displayName n t ∧ isSessionId (tab_id t) = true ∧
       nonnegative_int (position t) = true ∧
       iso_datetime (createdAt t) = true ∧
       iso_datetime (lastActivityAt t) = true.
Proof.
  unfold tabRecordSchema. intros Hp.
  destruct (isSessionId (tab_id t)); simpl in Hp; [|done].
  destruct (persistedDisplayName (displayName t)) as [n|]; simpl in Hp; [|done].
  case_match; simplify_eq. breflect. naive_solver.
Qed.

Lemma tabRecordSchema_id t u : tabRecordSchema t = Some u → tab_id u = tab_id t.
Proof. intros (n & _ & -> & _)%tabRecordSchema_Some. done. Qed.

Lemma parse_ids ts us :
  mapM tabRecordSchema ts = Some us → tab_id <$> us = tab_id <$> ts.
Proof.
  intros Hm%mapM_Some. induction Hm as [|t u ts us Ht Hm IH]; [done|].
  rewrite !fmap_cons, IH. f_equal. by apply tabRecordSchema_id.
Qed.

Lemma parseDocument_Some d d' :
  parseDocument d = Some d' →
  structureRevision d' = structureRevision d ∧
  mapM tabRecordSchema (tabs d) = Some (tabs d') ∧
  nonnegative_int (structureRevision d) = true ∧
  NoDup (tab_id <$> tabs d') ∧ positions_from 0 (tabs d').
Proof.
  unfold parseDocument. intros Hp.
  destruct (nonnegative_int (structureRevision d)) eqn:Hr; simpl in Hp; [|done].
  destruct (mapM tabRecordSchema (tabs d)) as [ts|] eqn:Hm; simpl in Hp; [|done].
  case_match eqn:Href; simplify_eq. apply refine_tabs_ok in Href as [??]. done.
Qed.

Lemma parseDocument_length d d' :
  parseDocument d = Some d' → length (tabs d') = length (tabs d).
Proof.
  intros (_ & Hm & _)%parseDocument_Some.
  symmetry. by eapply length_mapM.
Qed.

Lemma parseDocument_ids d d' :
  parseDocument d = Some d' → tab_id <$> tabs d' = tab_id <$> tabs d.
Proof. intros (_ & Hm & _)%parseDocument_Some. by apply parse_ids. Qed.

(** What a stored document satisfies. *)
Definition document_ok (d : PersistedTabsDocument) : Prop :=
  nonnegative_int (structureRevision d) = true ∧
  NoDup (tab_id <$> tabs d) ∧ positions_from 0 (tabs d) ∧
  Forall (λ t, isSessionId (tab_id t) = true) (tabs d).

Lemma parseDocument_ok d d' : parseDocument d = Some d' → document_ok d'.
Proof.
  intros (Hr & Hm & Hnn & Hnd & Hpos)%parseDocument_Some.
  split_and!; [congruence|done|done|].
  apply mapM_Some_1 in Hm. clear -Hm.
  induction Hm as [|t u ts us Ht Hm IH]; constructor; [|done].
  apply tabRecordSchema_Some in Ht as (n & _ & -> & Hid & _). done.
Qed.
End schema_facts.
