(* ===== verification/Json.v ===== *)
(** JSON values, [JSON.stringify] without indentation, and UTF-8 encoding, as
    the stores use them.  A finite number is the shortest decimal that denotes
    its double: [JNum z] when that is an integer, and otherwise [JReal m e] for
    [m * 10 ^ e] with [e < 0] and [m] not a multiple of ten. *)
From S2P Require Import Prelude SafeString.
Open Scope Z_scope.

Inductive json : Type :=
| JNull
| JBool (b : bool)
| JNum (z : Z)
| JReal (m e : Z)
| JStr (s : jsstr)
| JArr (l : list json)
| JObj (fields : list (jsstr * json)).

(** * Printing *)

Definition hex_digit (z : Z) : Z := if z <? 10 then 48 + z else 87 + z.

Definition u_escape (c : Z) : jsstr :=
  js "\u" ++ [hex_digit (c / 4096); hex_digit (c / 256 mod 16);
              hex_digit (c / 16 mod 16); hex_digit (c mod 16)].

(** The two-character escapes of [QuoteJSONString]. *)
Definition short_escape (c : Z) : option Z :=
  if c =? 0x22 then Some 0x22 else if c =? 0x5C then Some 0x5C
  else if c =? 0x08 then Some 98 else if c =? 0x09 then Some 116
  else if c =? 0x0A then Some 110 else if c =? 0x0C then Some 102
  else if c =? 0x0D then Some 114 else None.

Definition quote_unit (c : Z) : jsstr :=
  match short_escape c with
  | Some e => [0x5C; e]
  | None => if c <? 0x20 then u_escape c else [c]
  end.

(** The body of a quoted string: surrogate pairs are kept, lone surrogates
    are escaped. *)
Fixpoint quote_body (s : jsstr) : jsstr :=
  match s with
  | [] => []
  | c :: s' =>
      if is_surrogate c then
        match s' with
        | d :: s'' =>
            if is_high_surrogate c && is_low_surrogate d
            then c :: d :: quote_body s''
            else u_escape c ++ quote_body s'
        | [] => u_escape c
        end
      else quote_unit c ++ quote_body s'
  end.

Definition quote (s : jsstr) : jsstr := [0x22] ++ quote_body s ++ [0x22].

(** Decimal digits, most significant first; [fuel] bounds their number. *)
Fixpoint digits (fuel : nat) (z : Z) (acc : jsstr) : jsstr :=
  match fuel with
  | O => acc
  | S f => if z <? 10 then (48 + z) :: acc
           else digits f (z / 10) ((48 + z mod 10) :: acc)
  end.

Fixpoint drop_zeros (s : jsstr) : jsstr :=
  match s with
  | c :: s' => if c =? 48 then drop_zeros s' else s
  | [] => []
  end.
(** [d.ddd] of a digit string. *)
Definition scientific (s : jsstr) : jsstr :=
  take 1 s ++ (if (length s =? 1)%nat then [] else 46 :: drop 1 s).
Definition sign_string (z : Z) : jsstr := if z <? 0 then [45] else [].

(** [Number::toString] of an integral number. *)
Definition number_to_string (z : Z) : jsstr :=
  sign_string z ++
  let s := digits 400 (Z.abs z) [] in
  if Z.abs z <? 10 ^ 21 then s
  else scientific (reverse (drop_zeros (reverse s))) ++ js "e+" ++
       digits 400 (Z.of_nat (length s) - 1) [].

(** [Number::toString] of [m * 10 ^ e], [e < 0]. *)
Definition real_to_string (m e : Z) : jsstr :=
  sign_string m ++
  let s := digits 400 (Z.abs m) [] in
  let n := Z.of_nat (length s) + e in
  if 0 <? n then take (Z.to_nat n) s ++ [46] ++ drop (Z.to_nat n) s
  else if -6 <? n then js "0." ++ replicate (Z.to_nat (- n)) 48 ++ s
  else scientific s ++ js "e-" ++ digits 400 (1 - n) [].

Fixpoint join (sep : jsstr) (l : list jsstr) : jsstr :=
  match l with
  | [] => []
  | [x] => x
  | x :: l' => x ++ sep ++ join sep l'
  end.

Fixpoint stringify (v : json) : jsstr :=
  match v with
  | JNull => js "null"
  | JBool true => js "true"
  | JBool false => js "false"
  | JNum z => number_to_string z
  | JReal m e => real_to_string m e
  | JStr s => quote s
  | JArr l => js "[" ++ join (js ",") (map stringify l) ++ js "]"
  | JObj fs =>
      js "{" ++
      join (js ",") (map (λ p, quote p.1 ++ js ":" ++ stringify p.2) fs) ++
      js "}"
  end.

(** * UTF-8 *)

(** [TextEncoder.encode] of one code point, lone surrogates replaced. *)
Definition utf8_char (c0 : Z) : list Z :=
  let c := if is_surrogate c0 then 0xFFFD else c0 in
  if c <? 0x80 then [c]
  else if c <? 0x800 then [0xC0 + c / 64; 0x80 + c mod 64]
  else if c <? 0x10000 then
    [0xE0 + c / 4096; 0x80 + c / 64 mod 64; 0x80 + c mod 64]
  else
    [0xF0 + c / 262144; 0x80 + c / 4096 mod 64; 0x80 + c / 64 mod 64;
     0x80 + c mod 64].

Definition utf8_encode (s : jsstr) : list Z := concat (map utf8_char (code_points s)).

Lemma utf8_char_length c : Z.of_nat (length (utf8_char c)) = utf8_width c.
Proof.
  unfold utf8_char, utf8_width, is_surrogate.
  repeat (case_match; simpl; breflect; try lia).
Qed.

Lemma utf8_encode_length s : Z.of_nat (length (utf8_encode s)) = utf8ByteLength s.
Proof.
  unfold utf8_encode, utf8ByteLength.
  induction (code_points s) as [|c l IH]; simpl; [done|].
  rewrite length_app, Nat2Z.inj_add, utf8_char_length, IH. done.
Qed.

(** * Access to parsed objects *)

Fixpoint field (k : jsstr) (fields : list (jsstr * json)) : option json :=
  match fields with
  | [] => None
  | (k', v) :: fs => if decide (k = k') then Some v else field k fs
  end.

(** [z.object({...}).strict()]: no key besides the expected ones. *)
Definition strict_object (keys : list jsstr) (v : json)
    : option (list (jsstr * json)) :=
  match v with
  | JObj fs => if forallb (λ p, bool_decide (p.1 ∈ keys)) fs then Some fs else None
  | _ => None
  end.

Definition as_string (v : json) : option jsstr :=
  match v with JStr s => Some s | _ => None end.
Definition as_int (v : json) : option Z :=
  match v with JNum z => Some z | _ => None end.
Definition as_array (v : json) : option (list json) :=
  match v with JArr l => Some l | _ => None end.
