(* ===== verification/JsonText.v ===== *)
(** [JSON.parse] and [new TextDecoder('utf-8', { fatal: true }).decode], the
    readers that the stores and the protocol use, with their round trips with
    the printers of [Json].

    A parsed number is exact; the rounding of a literal with more digits than
    a double holds, and the overflow of one beyond its range, are not
    modelled.  A repeated key replaces the earlier value, as in the code; the
    order of integer-like keys among others is not modelled. *)
From S2P Require Import Prelude JsMap SafeString Json.
Open Scope Z_scope.

(** * [JSON.parse] *)

Definition is_ws (c : Z) : bool := (c =? 32) || (c =? 9) || (c =? 10) || (c =? 13).
Fixpoint skip_ws (s : jsstr) : jsstr :=
  match s with
  | c :: s' => if is_ws c then skip_ws s' else s
  | [] => []
  end.

Definition is_digit (c : Z) : bool := (48 <=? c) && (c <=? 57).

(** The longest run of digits: its value after [acc], its length, the rest. *)
Fixpoint span_digits (acc : Z) (n : nat) (s : jsstr) : Z * nat * jsstr :=
  match s with
  | c :: s' => if is_digit c then span_digits (acc * 10 + (c - 48)) (S n) s' else (acc, n, s)
  | [] => (acc, n, [])
  end.

(** A run of at least one digit. *)
Definition some_digits (acc : Z) (s : jsstr) : option (Z * nat * jsstr) :=
  match span_digits acc 0 s with
  | (_, O, _) => None
  | r => Some r
  end.

(** [int frac? exp?]: the mantissa's digits, the exponent, the rest. *)
Definition parse_int (s : jsstr) : option (Z * jsstr) :=
  match s with
  | c :: s' => if c =? 48 then Some (0, s')
               else ' (m, _, s) ← some_digits 0 s; Some (m, s)
  | [] => None
  end.
Definition parse_frac (m : Z) (s : jsstr) : option (Z * Z * jsstr) :=
  match s with
  | c :: s' =>
      if c =? 46 then
        ' (m, n, s') ← some_digits m s';
        Some (m, - Z.of_nat n, s')
      else Some (m, 0, s)
  | [] => Some (m, 0, s)
  end.
Definition parse_sign (s : jsstr) : Z * jsstr :=
  match s with
  | c :: s' => if c =? 43 then (1, s') else if c =? 45 then (-1, s') else (1, s)
  | [] => (1, s)
  end.
Definition parse_exp (s : jsstr) : option (Z * jsstr) :=
  match s with
  | c :: s' =>
      if (c =? 101) || (c =? 69) then
        ' (x, _, s'') ← some_digits 0 (parse_sign s').2;
        Some ((parse_sign s').1 * x, s'')
      else Some (0, s)
  | [] => Some (0, s)
  end.

(** The number [m * 10 ^ e]. *)
Fixpoint strip_zeros (fuel : nat) (m e : Z) : json :=
  match fuel with
  | O => if e <? 0 then JReal m e else JNum (m * 10 ^ e)
  | S f =>
      if (e <? 0) && (m mod 10 =? 0) then strip_zeros f (m / 10) (e + 1)
      else if e <? 0 then JReal m e else JNum (m * 10 ^ e)
  end.
Definition make_number (m e : Z) : json :=
  if m =? 0 then JNum 0 else strip_zeros (Z.to_nat (- e)) m e.

(** After an optional minus sign. *)
Definition parse_unsigned (sign : Z) (s : jsstr) : option (json * jsstr) :=
  ' (m, s) ← parse_int s;
  ' (m, e1, s) ← parse_frac m s;
  ' (e2, s) ← parse_exp s;
  Some (make_number (sign * m) (e1 + e2), s).

Definition parse_number (s : jsstr) : option (json * jsstr) :=
  match s with
  | c :: s' => if c =? 45 then parse_unsigned (-1) s' else parse_unsigned 1 s
  | [] => None
  end.

Definition hex_value (c : Z) : option Z :=
  if (48 <=? c) && (c <=? 57) then Some (c - 48)
  else if (97 <=? c) && (c <=? 102) then Some (c - 87)
  else if (65 <=? c) && (c <=? 70) then Some (c - 55)
  else None.

(** What follows a backslash. *)
Definition escaped (c : Z) : option Z :=
  if (c =? 34) || (c =? 92) || (c =? 47) then Some c
  else if c =? 98 then Some 8 else if c =? 102 then Some 12
  else if c =? 110 then Some 10 else if c =? 114 then Some 13
  else if c =? 116 then Some 9 else None.
Definition parse_hex (s : jsstr) : option (Z * jsstr) :=
  match s with
  | a :: b :: c :: d :: s =>
      a ← hex_value a; b ← hex_value b; c ← hex_value c; d ← hex_value d;
      Some (a * 4096 + b * 256 + c * 16 + d, s)
  | _ => None
  end.
Definition parse_escape (s : jsstr) : option (Z * jsstr) :=
  match s with
  | c :: s => if c =? 117 then parse_hex s else c ← escaped c; Some (c, s)
  | [] => None
  end.

(** The body of a string, up to its closing quote. *)
Fixpoint parse_string (fuel : nat) (s : jsstr) : option (jsstr * jsstr) :=
  match fuel, s with
  | S f, c :: s =>
      if c =? 34 then Some ([], s)
      else if c =? 92 then
        ' (c, s) ← parse_escape s;
        ' (cs, s) ← parse_string f s;
        Some (c :: cs, s)
      else if c <? 32 then None
      else ' (cs, s) ← parse_string f s; Some (c :: cs, s)
  | _, _ => None
  end.

Definition parse_literal (lit : jsstr) (v : json) (s : jsstr) : option (json * jsstr) :=
  if bool_decide (take (length lit) s = lit) then Some (v, drop (length lit) s) else None.

(** The rest after the next token, if that is the character [c]. *)
Definition expect (c : Z) (s : jsstr) : option jsstr :=
  match skip_ws s with
  | c' :: s' => if c' =? c then Some s' else None
  | [] => None
  end.

Fixpoint parse_value (fuel : nat) (s : jsstr) : option (json * jsstr) :=
  match fuel with
  | O => None
  | S f =>
      match skip_ws s with
      | [] => None
      | c :: t =>
          if c =? 34 then ' (cs, s) ← parse_string (S (length t)) t; Some (JStr cs, s)
          else if c =? 91 then
            match expect 93 t with
            | Some s => Some (JArr [], s)
            | None => ' (vs, s) ← parse_elements f t; Some (JArr vs, s)
            end
          else if c =? 123 then
            match expect 125 t with
            | Some s => Some (JObj [], s)
            | None => ' (fs, s) ← parse_members f [] t; Some (JObj fs, s)
            end
          else if c =? 116 then parse_literal (js "true") (JBool true) (c :: t)
          else if c =? 102 then parse_literal (js "false") (JBool false) (c :: t)
          else if c =? 110 then parse_literal (js "null") JNull (c :: t)
          else parse_number (c :: t)
      end
  end
with parse_elements (fuel : nat) (s : jsstr) : option (list json * jsstr) :=
  match fuel with
  | O => None
  | S f =>
      ' (v, s) ← parse_value f s;
      match expect 44 s with
      | Some s => ' (vs, s) ← parse_elements f s; Some (v :: vs, s)
      | None => s ← expect 93 s; Some ([v], s)
      end
  end
with parse_members (fuel : nat) (acc : list (jsstr * json)) (s : jsstr)
    : option (list (jsstr * json) * jsstr) :=
  match fuel with
  | O => None
  | S f =>
      s ← expect 34 s;
      ' (k, s) ← parse_string (S (length s)) s;
      s ← expect 58 s;
      ' (v, s) ← parse_value f s;
      match expect 44 s with
      | Some s => parse_members f (jm_set k v acc) s
      | None => s ← expect 125 s; Some (jm_set k v acc, s)
      end
  end.

(** [None] is a [SyntaxError]. *)
Definition json_parse (s : jsstr) : option json :=
  ' (v, s) ← parse_value (2 * length s + 2) s;
  match skip_ws s with [] => Some v | _ => None end.

(** * The UTF-8 decoder *)

Definition continuation (b : Z) : option Z :=
  if (0x80 <=? b) && (b <=? 0xBF) then Some (b - 0x80) else None.

(** One code point; overlong forms, surrogates and values beyond U+10FFFF
    are errors. *)
Definition decode_char (s : list Z) : option (Z * list Z) :=
  match s with
  | [] => None
  | b :: s =>
      if b <? 0x80 then (if 0 <=? b then Some (b, s) else None)
      else if (0xC2 <=? b) && (b <=? 0xDF) then
        match s with
        | b1 :: s => c1 ← continuation b1; Some ((b - 0xC0) * 64 + c1, s)
        | _ => None
        end
      else if (0xE0 <=? b) && (b <=? 0xEF) then
        match s with
        | b1 :: b2 :: s =>
            c1 ← continuation b1; c2 ← continuation b2;
            let c := (b - 0xE0) * 4096 + c1 * 64 + c2 in
            if (c <? 0x800) || is_surrogate c then None else Some (c, s)
        | _ => None
        end
      else if (0xF0 <=? b) && (b <=? 0xF4) then
        match s with
        | b1 :: b2 :: b3 :: s =>
            c1 ← continuation b1; c2 ← continuation b2; c3 ← continuation b3;
            let c := (b - 0xF0) * 262144 + c1 * 4096 + c2 * 64 + c3 in
            if (c <? 0x10000) || (0x10FFFF <? c) then None else Some (c, s)
        | _ => None
        end
      else None
  end.

(** The code units of a code point. *)
Definition utf16 (c : Z) : jsstr :=
  if c <? 0x10000 then [c]
  else [0xD800 + (c - 0x10000) / 1024; 0xDC00 + (c - 0x10000) mod 1024].

Fixpoint decode_chars (fuel : nat) (s : list Z) : option jsstr :=
  match fuel with
  | O => None
  | S f =>
      match s with
      | [] => Some []
      | _ => ' (c, s) ← decode_char s; cs ← decode_chars f s; Some (utf16 c ++ cs)
      end
  end.

(** A byte order mark at the start is dropped. *)
Definition utf8_decode (s : list Z) : option jsstr :=
  let s := match s with 0xEF :: 0xBB :: 0xBF :: s' => s' | _ => s end in
  decode_chars (S (length s)) s.

(** * Numbers *)

Definition digits_ok (ds : jsstr) : Prop := Forall (λ c, is_digit c = true) ds.
Definition dval (acc : Z) (ds : jsstr) : Z := foldl (λ a c, a * 10 + (c - 48)) acc ds.

Lemma is_digit_iff c : is_digit c = true ↔ 48 <= c <= 57.
Proof. unfold is_digit. rewrite andb_true_iff, !Z.leb_le. done. Qed.

(** What may follow a number. *)
Definition no_digit (s : jsstr) : bool :=
  match s with c :: _ => negb (is_digit c) | [] => true end.

Lemma span_digits_app ds : digits_ok ds → ∀ acc n s, no_digit s = true →
  span_digits acc n (ds ++ s) = (dval acc ds, (n + length ds)%nat, s).
Proof.
  induction 1 as [|c ds Hc _ IH]; intros acc n s Hs; simpl.
  - destruct s as [|c s]; simpl in *; [by rewrite Nat.add_0_r|].
    apply negb_true_iff in Hs. by rewrite Hs, Nat.add_0_r.
  - rewrite Hc, IH by done. by rewrite Nat.add_succ_r.
Qed.

Lemma some_digits_app ds acc s : digits_ok ds → ds ≠ [] → no_digit s = true →
  some_digits acc (ds ++ s) = Some (dval acc ds, length ds, s).
Proof.
  intros Hd Hn Hs. unfold some_digits. rewrite span_digits_app by done.
  by destruct ds.
Qed.

Lemma dval_app acc d1 d2 : dval acc (d1 ++ d2) = dval (dval acc d1) d2.
Proof. apply foldl_app. Qed.
Lemma dval_zeros acc n : dval acc (replicate n 48) = acc * 10 ^ Z.of_nat n.
Proof.
  revert acc. induction n as [|n IH]; intros acc; [simpl; lia|].
  rewrite replicate_S. cbn [dval foldl]. fold (dval (acc * 10 + (48 - 48)) (replicate n 48)).
  rewrite IH, Nat2Z.inj_succ, Z.pow_succ_r by lia. lia.
Qed.

(** The digits of a positive number. *)
Lemma digits_spec f : ∀ z a, 0 <= z < 10 ^ Z.of_nat f →
  ∃ ds, digits f z a = ds ++ a ∧ digits_ok ds ∧ dval 0 ds = z ∧
        (f ≠ O → ds ≠ []) ∧ (z ≠ 0 → head ds ≠ Some 48).
Proof.
  induction f as [|f IH]; intros z a Hz.
  - change (Z.of_nat 0) with 0 in Hz. rewrite Z.pow_0_r in Hz. assert (z = 0) as -> by lia.
    exists []. split_and!; done || (repeat split; try done; apply Forall_nil_2).
  - cbn [digits]. destruct (z <? 10) eqn:Hlt; breflect.
    + exists [48 + z]. split_and!; try done; [| simpl; lia | intros Hnz Heq; apply (inj Some) in Heq; lia].
      repeat constructor. apply is_digit_iff. lia.
    + rewrite Nat2Z.inj_succ, Z.pow_succ_r in Hz by lia.
      pose proof (Z.div_mod z 10 ltac:(lia)). pose proof (Z.mod_pos_bound z 10 ltac:(lia)).
      destruct (IH (z / 10) ((48 + z mod 10) :: a)) as (ds & Heq & Hok & Hv & Hne & Hhd); [lia|].
      assert (ds ≠ []) as Hnil by (intros ->; simpl in Hv; lia).
      exists (ds ++ [48 + z mod 10]). rewrite <-(assoc_L (++)). split_and!.
      * done.
      * apply Forall_app; split; [done|]. repeat constructor. apply is_digit_iff. lia.
      * rewrite dval_app, Hv. cbn [dval foldl]. lia.
      * by destruct ds.
      * intros _. destruct ds; [done|]. simpl. apply Hhd. lia.
Qed.

(** What [parse_number] reads of a mantissa and its exponents. *)
Lemma parse_int_digits ds s : digits_ok ds → ds ≠ [] → head ds ≠ Some 48 → no_digit s = true →
  parse_int (ds ++ s) = Some (dval 0 ds, s).
Proof.
  intros Hd Hn Hh Hs. destruct ds as [|c ds]; [done|]. simpl app. unfold parse_int.
  destruct (c =? 48) eqn:E; breflect; [by subst|].
  change (c :: ds ++ s) with ((c :: ds) ++ s). by rewrite some_digits_app.
Qed.

Lemma parse_number_sign z s : head s ≠ Some 45 → s ≠ [] →
  parse_number (sign_string z ++ s) = parse_unsigned (if z <? 0 then -1 else 1) s.
Proof.
  intros Hh Hs. unfold sign_string, parse_number. destruct (z <? 0); [done|].
  destruct s as [|c s]; [done|]. simpl. destruct (c =? 45) eqn:E; breflect; [by subst|done].
Qed.

(** What follows a value: nothing, a comma or a closing bracket. *)
Definition delimited (s : jsstr) : Prop :=
  match s with [] => True | c :: _ => c = 44 ∨ c = 93 ∨ c = 125 end.

Lemma delimited_no_digit s : delimited s → no_digit s = true.
Proof. destruct s; [done|]. by intros [->|[->| ->]]. Qed.
Lemma delimited_frac m s : delimited s → parse_frac m s = Some (m, 0, s).
Proof. destruct s; [done|]. by intros [->|[->| ->]]. Qed.
Lemma delimited_exp s : delimited s → parse_exp s = Some (0, s).
Proof. destruct s; [done|]. by intros [->|[->| ->]]. Qed.
#[local] Hint Resolve delimited_no_digit : core.

Lemma head_not_minus ds s : digits_ok ds → ds ≠ [] → head (ds ++ s) ≠ Some 45.
Proof.
  intros Hd Hn. destruct ds as [|c ds]; [done|]. intros [= ->].
  by inversion Hd.
Qed.

Lemma make_integer m : make_number m 0 = JNum m.
Proof.
  unfold make_number. destruct (m =? 0) eqn:E; breflect; [by subst|]. simpl.
  by rewrite Z.mul_1_r.
Qed.

Lemma number_roundtrip z s : Z.abs z < 10 ^ 21 → delimited s →
  parse_number (number_to_string z ++ s) = Some (JNum z, s).
Proof.
  intros Hz Hs. destruct (decide (z = 0)) as [->|Hnz].
  { change (number_to_string 0 ++ s) with (48 :: s).
    change (parse_number (48 :: s)) with (parse_unsigned 1 (48 :: s)). unfold parse_unsigned.
    change (parse_int (48 :: s)) with (Some (0, s)). cbn [mbind option_bind].
    rewrite delimited_frac by done. cbn [mbind option_bind]. by rewrite delimited_exp. }
  unfold number_to_string. rewrite (proj2 (Z.ltb_lt _ _) Hz).
  destruct (digits_spec 400 (Z.abs z) []) as (ds & -> & Hd & Hv & Hn & Hh).
  { split; [lia|]. etrans; [exact Hz|]. by apply Z.ltb_lt. }
  rewrite app_nil_r, <-(assoc_L (++)). specialize (Hn ltac:(lia)). specialize (Hh ltac:(lia)).
  rewrite parse_number_sign by (by apply head_not_minus || by destruct ds).
  unfold parse_unsigned. rewrite parse_int_digits, Hv by auto. cbn [mbind option_bind].
  rewrite delimited_frac by done. cbn [mbind option_bind].
  rewrite delimited_exp by done. cbn [mbind option_bind].
  change (0 + 0) with 0. rewrite make_integer. do 3 f_equal.
  destruct (z <? 0) eqn:Hneg; breflect; lia.
Qed.

Lemma make_real m e : e < 0 → m mod 10 ≠ 0 → make_number m e = JReal m e.
Proof.
  intros He Hm. unfold make_number.
  rewrite (proj2 (Z.eqb_neq m 0)) by (intros ->; done).
  destruct (Z.to_nat (- e)) as [|n] eqn:En; [lia|]. simpl.
  rewrite (proj2 (Z.ltb_lt _ _) He), (proj2 (Z.eqb_neq _ _) Hm). done.
Qed.

Lemma take_digits_ok n ds : digits_ok ds → digits_ok (take n ds).
Proof. apply Forall_take. Qed.
Lemma drop_digits_ok n ds : digits_ok ds → digits_ok (drop n ds).
Proof. apply Forall_drop. Qed.
#[local] Hint Resolve take_digits_ok drop_digits_ok : core.

Lemma dval_take_drop n ds : dval (dval 0 (take n ds)) (drop n ds) = dval 0 ds.
Proof. by rewrite <-dval_app, take_drop. Qed.

(** The fraction after the dot, and its exponent. *)
Lemma parse_frac_digits m ds s : digits_ok ds → ds ≠ [] → no_digit s = true →
  parse_frac m ((46 :: ds) ++ s) = Some (dval m ds, - Z.of_nat (length ds), s).
Proof. intros Hd Hn Hs. simpl. by rewrite some_digits_app. Qed.

Lemma parse_exp_negative x s : 0 < x < 10 ^ 400 → delimited s →
  parse_exp ((js "e-" ++ digits 400 x []) ++ s) = Some (- x, s).
Proof.
  intros Hx Hs. destruct (digits_spec 400 x []) as (ds & -> & Hd & Hv & Hn & Hh).
  { change (Z.of_nat 400) with 400. lia. }
  rewrite app_nil_r. change (js "e-") with [101; 45]. cbn [app].
  unfold parse_exp, parse_sign. simpl. rewrite some_digits_app by auto.
  cbn [mbind option_bind]. rewrite Hv. by destruct x.
Qed.

Lemma parse_int_zero ds : parse_int ([48] ++ ds) = Some (0, ds).
Proof. done. Qed.

(** [d.ddd], which stands for the digits shifted by all but one. *)
Lemma parse_scientific ds s : digits_ok ds → ds ≠ [] → head ds ≠ Some 48 →
  no_digit s = true → head s ≠ Some 46 →
  ∃ e, (' (m, r) ← parse_int (scientific ds ++ s); parse_frac m r) = Some (dval 0 ds, e, s) ∧
       e = 1 - Z.of_nat (length ds).
Proof.
  intros Hd Hn Hh Hs Hdot. destruct ds as [|c ds]; [done|]. unfold scientific. cbn [take drop].
  destruct ds as [|c' ds].
  - cbn [length Nat.eqb]. rewrite app_nil_r, parse_int_digits by done.
    cbn [mbind option_bind]. eexists; split; [|done].
    destruct s as [|x s]; [done|]. unfold parse_frac. destruct (x =? 46) eqn:E; [|done].
    breflect; by subst.
  - cbn [length Nat.eqb]. rewrite <-(assoc_L (++)).
    rewrite parse_int_digits by (done || by apply (take_digits_ok 1 (c :: c' :: ds))).
    cbn [mbind option_bind].
    rewrite parse_frac_digits by (done || by apply (drop_digits_ok 1 (c :: c' :: ds))).
    eexists; split; [done|]. simpl length. lia.
Qed.

(** A double that is not an integer: at most 17 digits and exponents down to
    that of the smallest positive one. *)
Definition real_ok (m e : Z) : Prop :=
  m mod 10 ≠ 0 ∧ Z.abs m < 10 ^ 17 ∧ -400 <= e < 0.

Lemma parse_unsigned_eq sign s m e1 e2 r r' :
  (' (m, r) ← parse_int s; parse_frac m r) = Some (m, e1, r) →
  parse_exp r = Some (e2, r') →
  parse_unsigned sign s = Some (make_number (sign * m) (e1 + e2), r').
Proof.
  intros H1 H2. unfold parse_unsigned.
  destruct (parse_int s) as [[m1 r1]|]; [|done]. cbn [mbind option_bind] in *.
  rewrite H1. cbn [mbind option_bind]. by rewrite H2.
Qed.

Lemma real_body_roundtrip n ds e s : digits_ok ds → ds ≠ [] → head ds ≠ Some 48 →
  n = Z.of_nat (length ds) + e → -400 <= e < 0 → delimited s →
  let body := if 0 <? n then take (Z.to_nat n) ds ++ [46] ++ drop (Z.to_nat n) ds
              else if -6 <? n then js "0." ++ replicate (Z.to_nat (- n)) 48 ++ ds
              else scientific ds ++ js "e-" ++ digits 400 (1 - n) [] in
  ∃ e1 e2 r, (' (m, r) ← parse_int (body ++ s); parse_frac m r) = Some (dval 0 ds, e1, r) ∧
             parse_exp r = Some (e2, s) ∧ e1 + e2 = e.
Proof.
  intros Hd Hn Hh -> He Hs. cbn zeta.
  destruct (0 <? Z.of_nat (length ds) + e) eqn:E1; breflect;
    [|destruct (-6 <? Z.of_nat (length ds) + e) eqn:E2; breflect].
  - remember (Z.to_nat (Z.of_nat (length ds) + e)) as k eqn:Ek.
    assert (0 < k < length ds)%nat as Hk by lia.
    exists (- Z.of_nat (length (drop k ds))), 0, s. split_and!; [|by apply delimited_exp|].
    2: { rewrite length_drop. lia. }
    rewrite <-(assoc_L (++)), parse_int_digits; [|by auto| | |done].
    + cbn [mbind option_bind].
      change (([46] ++ drop k ds) ++ s) with ((46 :: drop k ds) ++ s).
      rewrite parse_frac_digits, dval_take_drop; [done|by auto| |by auto].
      intros Hz. apply (f_equal length) in Hz. rewrite length_drop in Hz. simpl in Hz. lia.
    + intros Hz. apply (f_equal length) in Hz. rewrite length_take in Hz. simpl in Hz. lia.
    + destruct ds, k; simpl in *; try lia; done.
  - remember (Z.to_nat (- (Z.of_nat (length ds) + e))) as k eqn:Ek.
    assert (digits_ok (replicate k 48 ++ ds)) as Hd'.
    { apply Forall_app. split; [|done]. by apply Forall_replicate. }
    exists (- Z.of_nat (length (replicate k 48 ++ ds))), 0, s.
    split_and!; [|by apply delimited_exp|].
    2: { rewrite length_app, length_replicate. lia. }
    change (js "0." ++ replicate k 48 ++ ds) with (48 :: 46 :: replicate k 48 ++ ds).
    change (parse_int ((48 :: 46 :: replicate k 48 ++ ds) ++ s)) with
      (Some (0, (46 :: replicate k 48 ++ ds) ++ s)). cbn [mbind option_bind].
    rewrite parse_frac_digits; [|done| |by auto].
    + by rewrite dval_app, dval_zeros.
    + intros Hz. apply app_eq_nil in Hz as [_ ?]. done.
  - rewrite <-(assoc_L (++)).
    destruct (parse_scientific ds ((js "e-" ++ digits 400 (1 - (Z.of_nat (length ds) + e)) []) ++ s))
      as (e1 & Heq & He1); [done..|].
    exists e1, (- (1 - (Z.of_nat (length ds) + e))). eexists. split_and!; [exact Heq| |lia].
    apply parse_exp_negative; [|done]. split; [lia|].
    apply Z.le_lt_trans with 402; [lia|by apply Z.ltb_lt].
Qed.

Lemma parse_int_head {A} s (k : Z * jsstr → option A) a :
  (parse_int s ≫= k) = Some a → head s ≠ Some 45 ∧ s ≠ [].
Proof. destruct s as [|c s]; [done|]. intros H. split; [|done]. by intros [= ->]. Qed.

Lemma real_roundtrip m e s : real_ok m e → delimited s →
  parse_number (real_to_string m e ++ s) = Some (JReal m e, s).
Proof.
  intros (Hm & Hb & He) Hs. unfold real_to_string.
  assert (m ≠ 0) as Hnz by (intros ->; done).
  destruct (digits_spec 400 (Z.abs m) []) as (ds & -> & Hd & Hv & Hn & Hh).
  { split; [lia|]. etrans; [exact Hb|]. by apply Z.ltb_lt. }
  specialize (Hn ltac:(lia)). specialize (Hh ltac:(lia)). rewrite app_nil_r. cbn zeta.
  destruct (real_body_roundtrip (Z.of_nat (length ds) + e) ds e s) as (e1 & e2 & r & H1 & H2 & H3);
    [done..|].
  cbn zeta in H1. rewrite <-(assoc_L (++)).
  rewrite parse_number_sign; [|by eapply parse_int_head, H1..].
  rewrite (parse_unsigned_eq _ _ _ _ _ _ _ H1 H2), Hv, H3.
  assert ((if m <? 0 then -1 else 1) * Z.abs m = m) as ->
    by (destruct (m <? 0) eqn:E; breflect; lia).
  by rewrite make_real by lia.
Qed.

(** * Strings *)

Definition unit_ok (c : Z) : Prop := 0 <= c < 65536.
Definition units_ok (s : jsstr) : Prop := Forall unit_ok s.

Lemma hex_value_digit z : 0 <= z < 16 → hex_value (hex_digit z) = Some z.
Proof.
  intros Hz. unfold hex_value, hex_digit.
  repeat (case_match; breflect; try lia; simpl); f_equal; lia.
Qed.

Lemma hex_digit_ascii z : 0 <= z < 16 → 32 <= hex_digit z < 128.
Proof. unfold hex_digit. case_match; breflect; lia. Qed.

Lemma parse_hex_digits c s : unit_ok c → parse_hex (drop 2 (u_escape c) ++ s) = Some (c, s).
Proof.
  intros Hc. unfold unit_ok in Hc.
  change (drop 2 (u_escape c) ++ s) with
    (hex_digit (c / 4096) :: hex_digit (c / 256 mod 16) :: hex_digit (c / 16 mod 16) ::
     hex_digit (c mod 16) :: s).
  unfold parse_hex.
  rewrite !hex_value_digit by (try apply Z.mod_pos_bound; lia || (split; [apply Z.div_pos|apply Z.div_lt_upper_bound]; lia)).
  cbn [mbind option_bind]. do 2 f_equal.
  pose proof (Z.div_mod c 16 ltac:(lia)). pose proof (Z.div_mod (c / 16) 16 ltac:(lia)).
  pose proof (Z.div_mod (c / 256) 16 ltac:(lia)).
  assert (c / 16 / 16 = c / 256) by (rewrite Z.div_div by lia; done).
  assert (c / 256 / 16 = c / 4096) by (rewrite Z.div_div by lia; done). lia.
Qed.

Lemma parse_string_escape f c s cs r : unit_ok c →
  parse_string f s = Some (cs, r) → parse_string (S f) (u_escape c ++ s) = Some (c :: cs, r).
Proof.
  intros Hc Hp. change (u_escape c ++ s) with (92 :: 117 :: drop 2 (u_escape c) ++ s).
  cbn [parse_string]. change (92 =? 34) with false. change (92 =? 92) with true.
  cbn [parse_escape]. change (117 =? 117) with true. cbn iota.
  rewrite parse_hex_digits by done. cbn [mbind option_bind]. by rewrite Hp.
Qed.

Lemma parse_string_plain f c s cs r : 32 <= c → c ≠ 34 → c ≠ 92 →
  parse_string f s = Some (cs, r) → parse_string (S f) (c :: s) = Some (c :: cs, r).
Proof.
  intros. cbn [parse_string]. rewrite (proj2 (Z.eqb_neq c 34)), (proj2 (Z.eqb_neq c 92)) by done.
  rewrite (proj2 (Z.ltb_ge c 32)) by done. cbn iota. by rewrite H2.
Qed.

Lemma parse_string_unit f c s cs r : unit_ok c →
  parse_string f s = Some (cs, r) → parse_string (S f) (quote_unit c ++ s) = Some (c :: cs, r).
Proof.
  intros Hc Hp. unfold quote_unit. destruct (short_escape c) as [x|] eqn:Hx.
  - assert (escaped x = Some c ∧ x ≠ 117) as [He Hu].
    { unfold short_escape in Hx. repeat (case_match; [breflect; simplify_eq; by split|]). done. }
    cbn [app parse_string]. change (92 =? 34) with false. change (92 =? 92) with true.
    cbn [parse_escape]. rewrite (proj2 (Z.eqb_neq _ _) Hu). cbn iota. rewrite He.
    cbn [mbind option_bind]. by rewrite Hp.
  - unfold short_escape in Hx.
    destruct (c <? 32) eqn:E; breflect; [by apply parse_string_escape|].
    apply parse_string_plain; try done; intros ->; done.
Qed.

Lemma quote_body_pair c d s : is_high_surrogate c && is_low_surrogate d = true →
  quote_body (c :: d :: s) = c :: d :: quote_body s.
Proof.
  intros H. assert (is_surrogate c = true) as Hc.
  { unfold is_high_surrogate, is_surrogate in *. breflect.
    apply andb_true_iff; split; apply Z.leb_le; lia. }
  cbn [quote_body]. by rewrite Hc, H.
Qed.
Lemma quote_body_lone c d s : is_surrogate c = true →
  is_high_surrogate c && is_low_surrogate d = false →
  quote_body (c :: d :: s) = u_escape c ++ quote_body (d :: s).
Proof. intros Hc H. cbn [quote_body]. by rewrite Hc, H. Qed.
Lemma quote_body_plain c s : is_surrogate c = false →
  quote_body (c :: s) = quote_unit c ++ quote_body s.
Proof. intros Hc. cbn [quote_body]. by rewrite Hc. Qed.

Lemma parse_string_quoted s r : units_ok s → ∀ f, (length s < f)%nat →
  parse_string f (quote_body s ++ 34 :: r) = Some (s, r).
Proof.
  intros Hs. induction s as [|c|c d s IH1 IH2] using jsstr_pair_ind; intros f Hf.
  - destruct f; [simpl in Hf; lia|]. done.
  - inversion_clear Hs. cbn [quote_body]. destruct f as [|f]; [simpl in Hf; lia|].
    destruct (is_surrogate c).
    + apply parse_string_escape; [done|]. destruct f; [simpl in Hf; lia|]. done.
    + rewrite <-(assoc_L (++)). apply parse_string_unit; [done|].
      destruct f; [simpl in Hf; lia|]. done.
  - inversion_clear Hs as [|?? Hc Hds]. destruct f as [|f]; [simpl in Hf; lia|].
    destruct (is_surrogate c) eqn:Ec.
    + destruct (is_high_surrogate c && is_low_surrogate d) eqn:Ep.
      * rewrite quote_body_pair by done. inversion_clear Hds.
        unfold is_high_surrogate, is_low_surrogate in Ep. breflect.
        cbn [app]. apply parse_string_plain; [lia..|].
        destruct f as [|f]; [simpl in Hf; lia|]. apply parse_string_plain; [lia..|].
        apply IH1; [done|]. simpl in Hf; lia.
      * rewrite quote_body_lone, <-(assoc_L (++)) by done.
        apply parse_string_escape; [done|]. apply IH2; [done|]. simpl in *; lia.
    + rewrite quote_body_plain, <-(assoc_L (++)) by done.
      apply parse_string_unit; [done|]. apply IH2; [done|]. simpl in *; lia.
Qed.

Lemma quote_body_length s : (length s <= length (quote_body s))%nat.
Proof.
  induction s as [|c|c d s IH1 IH2] using jsstr_pair_ind; [done| |].
  - cbn [quote_body]. unfold quote_unit. repeat case_match; simpl; lia.
  - destruct (is_surrogate c) eqn:Ec.
    + destruct (is_high_surrogate c && is_low_surrogate d) eqn:Ep.
      * rewrite quote_body_pair by done. simpl; lia.
      * rewrite quote_body_lone, length_app by done. simpl in *; lia.
    + rewrite quote_body_plain, length_app by done. unfold quote_unit.
      repeat case_match; simpl in *; lia.
Qed.

(** [parse_string] on the rest of a quoted string. *)
Lemma quote_roundtrip s r : units_ok s →
  ∃ t, quote s ++ r = 34 :: t ∧ parse_string (S (length t)) t = Some (s, r).
Proof.
  intros Hs. exists (quote_body s ++ 34 :: r). split.
  - unfold quote. by rewrite <-!(assoc_L (++)).
  - apply parse_string_quoted; [done|]. rewrite length_app.
    pose proof (quote_body_length s). lia.
Qed.

(** * Values *)

Fixpoint json_ok (v : json) : Prop :=
  match v with
  | JNull | JBool _ => True
  | JNum z => Z.abs z < 10 ^ 21
  | JReal m e => real_ok m e
  | JStr s => units_ok s
  | JArr l => foldr (λ v P, json_ok v ∧ P) True l
  | JObj fs => NoDup fs.*1 ∧ foldr (λ p P, (units_ok p.1 ∧ json_ok p.2) ∧ P) True fs
  end.
Lemma foldr_Forall {A} (P : A → Prop) l : foldr (λ x Q, P x ∧ Q) True l ↔ Forall P l.
Proof.
  induction l as [|x l IH]; simpl; [by split|]. rewrite IH, Forall_cons. done.
Qed.
Lemma json_ok_arr l : json_ok (JArr l) ↔ Forall json_ok l.
Proof. apply foldr_Forall. Qed.
Lemma json_ok_obj fs : json_ok (JObj fs) ↔
  NoDup fs.*1 ∧ Forall (λ p, units_ok p.1 ∧ json_ok p.2) fs.
Proof. cbn [json_ok]. by rewrite (foldr_Forall (λ p : jsstr * json, units_ok p.1 ∧ json_ok p.2)). Qed.

Section induction.
Variable P : json → Prop.
Hypotheses (Hnull : P JNull) (Hbool : ∀ b, P (JBool b)) (Hnum : ∀ z, P (JNum z))
  (Hreal : ∀ m e, P (JReal m e)) (Hstr : ∀ s, P (JStr s))
  (Harr : ∀ l, Forall P l → P (JArr l))
  (Hobj : ∀ fs, Forall (λ p, P p.2) fs → P (JObj fs)).
Fixpoint json_induction (v : json) : P v :=
  match v with
  | JNull => Hnull
  | JBool b => Hbool b
  | JNum z => Hnum z
  | JReal m e => Hreal m e
  | JStr s => Hstr s
  | JArr l => Harr l
      ((fix go l := match l return Forall P l with
                    | [] => Forall_nil_2 P
                    | v :: l' => Forall_cons_2 P v l' (json_induction v) (go l')
                    end) l)
  | JObj fs => Hobj fs
      ((fix go fs := match fs return Forall (λ p, P p.2) fs with
                     | [] => Forall_nil_2 _
                     | p :: fs' => Forall_cons_2 (λ p, P p.2) p fs' (json_induction p.2) (go fs')
                     end) fs)
  end.
End induction.

(** The first character of a value, which no other value begins with. *)
Definition starts : jsstr := [34; 91; 123; 116; 102; 110; 45; 48; 49; 50; 51; 52; 53; 54; 55; 56; 57].

Lemma starts_digit c s : digits_ok (c :: s) → c ∈ starts.
Proof.
  intros H. inversion_clear H as [|?? Hc]. apply is_digit_iff in Hc. unfold starts.
  assert (c = 48 ∨ c = 49 ∨ c = 50 ∨ c = 51 ∨ c = 52 ∨ c = 53 ∨ c = 54 ∨ c = 55 ∨ c = 56 ∨ c = 57)
    as Hcs by lia.
  repeat (destruct Hcs as [->|Hcs]; [set_solver|]). subst. set_solver.
Qed.

Lemma parse_unsigned_start sign s r : parse_unsigned sign s = Some r →
  ∃ c t, s = c :: t ∧ is_digit c = true.
Proof.
  unfold parse_unsigned. destruct s as [|c s]; [done|]. intros H. exists c, s. split; [done|].
  unfold parse_int in H. destruct (c =? 48) eqn:E; [by breflect; subst|].
  unfold some_digits in H. cbn [span_digits] in H. by destruct (is_digit c).
Qed.
Lemma parse_number_start s r : parse_number s = Some r →
  ∃ c t, s = c :: t ∧ (c = 45 ∨ is_digit c = true).
Proof.
  unfold parse_number. destruct s as [|c s]; [done|]. intros H. exists c, s. split; [done|].
  destruct (c =? 45) eqn:E; [left; by breflect|]. right.
  apply parse_unsigned_start in H as (? & ? & [= -> ->] & ?). done.
Qed.

Lemma stringify_start v : json_ok v → ∃ c t, stringify v = c :: t ∧ c ∈ starts.
Proof.
  assert (∀ s r, parse_number (s ++ []) = Some r → ∃ c t, s = c :: t ∧ c ∈ starts) as Hnum.
  { intros s r Hp. rewrite app_nil_r in Hp.
    apply parse_number_start in Hp as (c & t & -> & Hc). exists c, t. split; [done|].
    destruct Hc as [->|Hc]; [set_solver|]. apply (starts_digit c []). by constructor. }
  assert (∀ (s : jsstr) c t, s = c :: t → bool_decide (c ∈ starts) = true →
    ∃ c t, s = c :: t ∧ c ∈ starts) as Hlit.
  { intros s c t -> Hb. apply bool_decide_eq_true in Hb. by exists c, t. }
  destruct v as [|[]|z|m e|s|l|fs]; intros Hok; cbn [stringify json_ok] in *;
    try (by eapply Hlit).
  - eapply Hnum. by apply number_roundtrip.
  - eapply Hnum. by apply real_roundtrip.
Qed.

Lemma skip_ws_start c s : c ∈ starts → skip_ws (c :: s) = c :: s.
Proof.
  unfold starts. intros Hc. repeat (apply elem_of_cons in Hc as [->|Hc]; [done|]).
  by apply elem_of_nil in Hc.
Qed.

Lemma expect_token c s : is_ws c = false → expect c (c :: s) = Some s.
Proof. intros Hc. unfold expect. cbn [skip_ws]. by rewrite Hc, Z.eqb_refl. Qed.
Lemma expect_start c s c' : c ∈ starts → expect c' (c :: s) = if c =? c' then Some s else None.
Proof. intros Hc. unfold expect. by rewrite skip_ws_start. Qed.

(** A text that [parse_number] reads is read as a number. *)
Lemma parse_value_number f s r : parse_number s = Some r → parse_value (S f) s = Some r.
Proof.
  intros H. pose proof (parse_number_start _ _ H) as (c & t & -> & Hc).
  assert (c ∈ starts) as Hin.
  { destruct Hc as [->|Hc]; [set_solver|]. apply (starts_digit c []). by constructor. }
  cbn [parse_value]. rewrite skip_ws_start by done.
  assert (48 <= c <= 57 ∨ c = 45) by (destruct Hc as [->|Hc]; [lia|apply is_digit_iff in Hc; lia]).
  by rewrite !(proj2 (Z.eqb_neq c _)) by lia.
Qed.

Definition reads (v : json) : Prop := ∀ f r, (2 * length (stringify v) <= f)%nat → delimited r →
  parse_value f (stringify v ++ r) = Some (v, r).

(** A comma, the rest of an array, and likewise for an object. *)
Lemma join_cons sep x l : l ≠ [] → join sep (x :: l) = x ++ sep ++ join sep l.
Proof. by destruct l. Qed.

Lemma parse_elements_reads l : l ≠ [] → Forall reads l → ∀ f r,
  (2 * length (join (js ",") (map stringify l)) + 1 <= f)%nat →
  parse_elements f (join (js ",") (map stringify l) ++ 93 :: r) = Some (l, r).
Proof.
  induction l as [|v l IH]; [done|]. intros _ [Hv Hl]%Forall_cons f r Hf.
  destruct f as [|f]; [lia|]. cbn [parse_elements]. destruct l as [|v' l].
  - cbn [map join] in *. rewrite Hv; [done|lia|]. by right; left.
  - cbn [map] in *. rewrite join_cons in * by done. rewrite <-!(assoc_L (++)).
    change (js ",") with [44] in *. rewrite !length_app in Hf. change (length [44]) with 1%nat in Hf.
    rewrite Hv by (lia || by left). cbn [mbind option_bind app].
    rewrite expect_token by done. rewrite IH; [done|done|done|]. lia.
Qed.

Definition member (p : jsstr * json) : jsstr := quote p.1 ++ js ":" ++ stringify p.2.

Lemma parse_members_reads fs : fs ≠ [] → Forall (λ p, units_ok p.1 ∧ reads p.2) fs → ∀ f acc r,
  (2 * length (join (js ",") (map member fs)) + 1 <= f)%nat → NoDup (acc ++ fs).*1 →
  parse_members f acc (join (js ",") (map member fs) ++ 125 :: r) = Some (acc ++ fs, r).
Proof.
  induction fs as [|[k v] fs IH]; [done|]. intros _ [[Hk Hv] Hl]%Forall_cons f acc r Hf Hnd.
  destruct f as [|f]; [lia|]. cbn [fst snd] in *.
  assert (jm_set k v acc = acc ++ [(k, v)]) as Hset.
  { apply jm_set_absent, jm_get_None. rewrite fmap_app, fmap_cons in Hnd.
    apply NoDup_app in Hnd as (_ & Hd & _). intros Hin. apply (Hd _ Hin). left. }
  assert (∀ r', parse_members (S f) acc (member (k, v) ++ r') =
    (' (v', s) ← parse_value f (stringify v ++ r');
     match expect 44 s with
     | Some s => parse_members f (jm_set k v' acc) s
     | None => s ← expect 125 s; Some (jm_set k v' acc, s)
     end)) as Hstep.
  { intros r'. unfold member. cbn [fst snd]. rewrite <-!(assoc_L (++)).
    destruct (quote_roundtrip k (js ":" ++ stringify v ++ r') Hk) as (t & -> & Ht).
    cbn [parse_members]. rewrite expect_token by done. cbn [mbind option_bind].
    rewrite Ht. cbn [mbind option_bind].
    change (js ":" ++ stringify v ++ r') with (58 :: stringify v ++ r').
    by rewrite expect_token by done. }
  assert (2 * length (stringify v) + 1 <= 2 * length (member (k, v)))%nat as Hlen.
  { unfold member, quote. rewrite !length_app. simpl. lia. }
  destruct fs as [|p fs].
  - cbn [map join] in *. rewrite Hstep, Hv by (lia || by right; right).
    cbn. by rewrite Hset.
  - cbn [map] in *. rewrite join_cons in * by done. rewrite <-!(assoc_L (++)).
    change (js ",") with [44] in *. rewrite !length_app in Hf. change (length [44]) with 1%nat in Hf.
    rewrite Hstep, Hv by (lia || by left). cbn [mbind option_bind app].
    rewrite expect_token by done.
    rewrite Hset, IH; [by rewrite <-(assoc_L (++))|done|done|lia|].
    by rewrite <-(assoc_L (++)).
Qed.

Lemma Forall_mp {A} (P Q : A → Prop) l :
  Forall (λ v, P v → Q v) l → Forall P l → Forall Q l.
Proof. rewrite !Forall_forall. eauto. Qed.
Lemma Forall_members (P Q : json → Prop) (fs : list (jsstr * json)) :
  Forall (λ p, P p.2 → Q p.2) fs → Forall (λ p, units_ok p.1 ∧ P p.2) fs →
  Forall (λ p, units_ok p.1 ∧ Q p.2) fs.
Proof. rewrite !Forall_forall. intros H1 H2 p Hp. destruct (H2 p Hp). eauto. Qed.

Lemma json_ok_reads v : json_ok v → reads v.
Proof.
  induction v as [|b|z|m e|s|l IH|fs IH] using json_induction; intros Hok f r Hf Hr.
  - destruct f; [simpl in Hf; lia|]. done.
  - destruct b, f; try (simpl in Hf; lia); done.
  - destruct (stringify_start (JNum z) Hok) as (c & t & Hs & _).
    destruct f as [|f]; [rewrite Hs in Hf; simpl in Hf; lia|].
    apply parse_value_number. by apply number_roundtrip.
  - destruct (stringify_start (JReal m e) Hok) as (c & t & Hs & _).
    destruct f as [|f]; [rewrite Hs in Hf; simpl in Hf; lia|].
    apply parse_value_number. by apply real_roundtrip.
  - destruct f as [|f]; [simpl in Hf; lia|]. cbn [stringify json_ok] in *.
    destruct (quote_roundtrip s r Hok) as (t & -> & Ht).
    cbn [parse_value]. change (skip_ws (34 :: t)) with (34 :: t). cbn iota beta zeta.
    change (34 =? 34) with true. cbn iota. by rewrite Ht.
  - apply json_ok_arr in Hok. cbn [stringify] in *. rewrite !length_app in Hf. simpl length in Hf.
    destruct f as [|f]; [lia|]. rewrite <-!(assoc_L (++)).
    change (js "]" ++ r) with (93 :: r). change (js "[") with [91]. cbn [app parse_value].
    destruct l as [|v l]; [done|].
    pose proof (parse_elements_reads (v :: l) ltac:(done)
      (Forall_mp _ _ _ IH Hok) f r ltac:(lia)) as Hp.
    apply Forall_cons in Hok as [Hv _]. destruct (stringify_start v Hv) as (c & t & Hs & Hc).
    assert (∃ t, join (js ",") (map stringify (v :: l)) ++ 93 :: r = c :: t) as [t' Ht'].
    { cbn [map]. destruct l; cbn [map]; [|rewrite join_cons by done]; cbn [join]; rewrite Hs; by eexists. }
    rewrite Ht' in *. change (skip_ws (91 :: c :: t')) with (91 :: c :: t').
    change (91 =? 34) with false. change (91 =? 91) with true. cbn iota.
    rewrite expect_start by done. assert ((c =? 93) = false) as ->; [|by rewrite Hp].
    unfold starts in Hc. repeat (apply elem_of_cons in Hc as [->|Hc]; [done|]).
    by apply elem_of_nil in Hc.
  - apply json_ok_obj in Hok. cbn [stringify] in *. rewrite !length_app in Hf.
    destruct Hok as [Hnd Hok].
    change (length (js "{")) with 1%nat in Hf. change (length (js "}")) with 1%nat in Hf.
    change (map (λ p, quote p.1 ++ js ":" ++ stringify p.2) fs) with (map member fs) in *.
    destruct f as [|f]; [lia|]. rewrite <-!(assoc_L (++)).
    change (js "}" ++ r) with (125 :: r). change (js "{") with [123]. cbn [app parse_value].
    destruct fs as [|p fs]; [done|].
    pose proof (parse_members_reads (p :: fs) ltac:(done)
      (Forall_members _ _ _ IH Hok) f [] r ltac:(lia) Hnd) as Hp.
    cbn [app] in Hp.
    assert (∃ t, join (js ",") (map member (p :: fs)) ++ 125 :: r = 34 :: t) as [t' Ht'].
    { cbn [map]. destruct fs; cbn [map]; [|rewrite join_cons by done]; cbn [join];
        unfold member, quote; by eexists. }
    rewrite Ht' in *. change (skip_ws (123 :: 34 :: t')) with (123 :: 34 :: t').
    change (123 =? 34) with false. change (123 =? 91) with false. change (123 =? 123) with true.
    cbn iota. rewrite expect_start by set_solver. change (34 =? 125) with false. cbn iota.
    by rewrite Hp.
Qed.

Lemma json_parse_stringify v : json_ok v → json_parse (stringify v) = Some v.
Proof.
  intros Hok. unfold json_parse. rewrite <-(app_nil_r (stringify v)) at 2.
  rewrite json_ok_reads by (done || lia). done.
Qed.

(** * UTF-8 *)

Definition scalar (c : Z) : Prop := 0 <= c <= 0x10FFFF ∧ is_surrogate c = false.

Lemma code_points_plain c s : is_high_surrogate c = false → code_points (c :: s) = c :: code_points s.
Proof. intros H. cbn [code_points]. destruct s; [done|]. by rewrite H. Qed.

Lemma code_points_utf16 c s : scalar c → code_points (utf16 c ++ s) = c :: code_points s.
Proof.
  intros [Hr Hs]. unfold utf16. destruct (c <? 0x10000) eqn:E; breflect.
  - assert (is_high_surrogate c = false) as Hh.
    { unfold is_surrogate, is_high_surrogate in *.
      destruct (55296 <=? c) eqn:?; [|done]. simpl in *. breflect. apply Z.leb_gt. lia. }
    by apply code_points_plain.
  - pose proof (Z.div_mod (c - 0x10000) 1024 ltac:(lia)) as Hd.
    pose proof (Z.mod_pos_bound (c - 0x10000) 1024 ltac:(lia)) as Hm.
    assert (0 <= (c - 0x10000) / 1024 < 1024) as Hq.
    { split; [apply Z.div_pos; lia|apply Z.div_lt_upper_bound; lia]. }
    assert (is_high_surrogate (0xD800 + (c - 0x10000) / 1024) &&
            is_low_surrogate (0xDC00 + (c - 0x10000) mod 1024) = true) as Hp.
    { unfold is_high_surrogate, is_low_surrogate. rewrite !andb_true_iff, !Z.leb_le. lia. }
    cbn [app code_points]. rewrite Hp. f_equal. lia.
Qed.
(** Text without lone surrogates. *)
Definition text (s : jsstr) : Prop := ∃ cs, Forall scalar cs ∧ s = concat (map utf16 cs).

Lemma text_code_points cs : Forall scalar cs → code_points (concat (map utf16 cs)) = cs.
Proof.
  induction 1 as [|c cs Hc _ IH]; [done|]. cbn [map concat].
  rewrite code_points_utf16 by done. by rewrite IH.
Qed.

Lemma continuation_ok x : 0 <= x < 64 → continuation (0x80 + x) = Some x.
Proof.
  intros H. unfold continuation. rewrite (proj2 (andb_true_iff _ _)).
  - f_equal. lia.
  - rewrite !Z.leb_le. lia.
Qed.

(** The base-64 digits of a code point. *)
Lemma base64_digits c : 0 <= c <= 0x10FFFF →
  0 <= c mod 64 < 64 ∧ 0 <= c / 64 mod 64 < 64 ∧ 0 <= c / 4096 mod 64 < 64 ∧
  c = c / 64 * 64 + c mod 64 ∧
  c = c / 4096 * 4096 + c / 64 mod 64 * 64 + c mod 64 ∧
  c = c / 262144 * 262144 + c / 4096 mod 64 * 4096 + c / 64 mod 64 * 64 + c mod 64.
Proof.
  intros Hc. pose proof (Z.div_mod c 64 ltac:(lia)). pose proof (Z.div_mod (c / 64) 64 ltac:(lia)).
  pose proof (Z.div_mod (c / 4096) 64 ltac:(lia)).
  assert (c / 64 / 64 = c / 4096) by (rewrite Z.div_div by lia; done).
  assert (c / 4096 / 64 = c / 262144) by (rewrite Z.div_div by lia; done).
  pose proof (Z.mod_pos_bound c 64 ltac:(lia)). pose proof (Z.mod_pos_bound (c / 64) 64 ltac:(lia)).
  pose proof (Z.mod_pos_bound (c / 4096) 64 ltac:(lia)). lia.
Qed.

(** Decides a comparison of the goal by arithmetic. *)
Ltac zdecide :=
  repeat match goal with
  | |- context [?a <? ?b] =>
      first [rewrite (proj2 (Z.ltb_lt a b)) by lia | rewrite (proj2 (Z.ltb_ge a b)) by lia]
  | |- context [?a <=? ?b] =>
      first [rewrite (proj2 (Z.leb_le a b)) by lia | rewrite (proj2 (Z.leb_gt a b)) by lia]
  end.

Lemma decode_char_utf8 c r : scalar c → decode_char (utf8_char c ++ r) = Some (c, r).
Proof.
  intros [Hr Hs]. unfold utf8_char. rewrite Hs.
  pose proof (base64_digits c Hr) as (H0 & H1 & H2 & E1 & E2 & E3).
  destruct (c <? 0x80) eqn:L1; [|destruct (c <? 0x800) eqn:L2; [|destruct (c <? 0x10000) eqn:L3]];
    breflect; cbn [app]; unfold decode_char.
  - zdecide. done.
  - assert (2 <= c / 64 < 32) by lia. zdecide. cbn [andb].
    rewrite continuation_ok by done. cbn [mbind option_bind]. do 2 f_equal. lia.
  - assert (0 <= c / 4096 < 16) by lia. zdecide. cbn [andb].
    rewrite !continuation_ok by done. cbn [mbind option_bind].
    assert ((0xE0 + c / 4096 - 0xE0) * 4096 + c / 64 mod 64 * 64 + c mod 64 = c) as -> by lia.
    rewrite Hs. zdecide. done.
  - assert (0 <= c / 262144 < 5) by lia. zdecide. cbn [andb].
    rewrite !continuation_ok by done. cbn [mbind option_bind].
    assert ((0xF0 + c / 262144 - 0xF0) * 262144 + c / 4096 mod 64 * 4096 + c / 64 mod 64 * 64 +
            c mod 64 = c) as -> by lia.
    zdecide. done.
Qed.

Lemma utf8_char_nonempty c : utf8_char c ≠ [].
Proof. unfold utf8_char. by repeat case_match. Qed.

Lemma decode_chars_utf8 cs : Forall scalar cs → ∀ f,
  (length (concat (map utf8_char cs)) < f)%nat →
  decode_chars f (concat (map utf8_char cs)) = Some (concat (map utf16 cs)).
Proof.
  induction 1 as [|c cs Hc _ IH]; intros f Hf.
  - destruct f; [simpl in Hf; lia|]. done.
  - cbn [map concat] in *. rewrite length_app in Hf. destruct f as [|f]; [lia|].
    pose proof (decode_char_utf8 c (concat (map utf8_char cs)) Hc) as Hd.
    pose proof (utf8_char_nonempty c) as Hn.
    destruct (utf8_char c) as [|b bs] eqn:E; [done|]. cbn [app decode_chars] in *.
    rewrite Hd. cbn [mbind option_bind]. rewrite IH; [done|]. simpl in Hf. lia.
Qed.

Lemma text_app s t : text s → text t → text (s ++ t).
Proof.
  intros (a & Ha & ->) (b & Hb & ->). exists (a ++ b). split; [by apply Forall_app|].
  by rewrite map_app, concat_app.
Qed.
Lemma text_nil : text [].
Proof. by exists []. Qed.
Lemma text_unit c : unit_ok c → is_surrogate c = false → text [c].
Proof.
  intros Hc Hs. unfold unit_ok in Hc. exists [c]. split.
  - repeat constructor; [lia|lia|done].
  - simpl. unfold utf16. zdecide. done.
Qed.
Lemma text_pair c d : is_high_surrogate c = true → is_low_surrogate d = true → text [c; d].
Proof.
  unfold is_high_surrogate, is_low_surrogate. intros Hc Hd. breflect.
  set (x := 0x10000 + (c - 0xD800) * 1024 + (d - 0xDC00)).
  exists [x]. split.
  - repeat constructor; [lia|lia|]. unfold is_surrogate. apply andb_false_iff.
    right. apply Z.leb_gt. lia.
  - simpl. unfold utf16. zdecide. rewrite app_nil_r.
    assert (x - 65536 = (c - 0xD800) * 1024 + (d - 0xDC00)) as -> by lia.
    assert (((c - 0xD800) * 1024 + (d - 0xDC00)) / 1024 = c - 0xD800) as ->.
    { rewrite Z.div_add_l by lia. rewrite (Z.div_small (d - 0xDC00)); lia. }
    assert (((c - 0xD800) * 1024 + (d - 0xDC00)) mod 1024 = d - 0xDC00) as ->.
    { rewrite Z.add_comm, Z_mod_plus_full. apply Z.mod_small. lia. }
    f_equal; [|f_equal]; lia.
Qed.

(** ASCII text. *)
Lemma text_ascii s : Forall (λ c, 0 <= c < 128) s → text s.
Proof.
  induction 1 as [|c s Hc _ IH]; [apply text_nil|]. apply (text_app [c]); [|done].
  apply text_unit; [unfold unit_ok; lia|]. unfold is_surrogate. apply andb_false_iff.
  left. apply Z.leb_gt. lia.
Qed.
Lemma text_literal (s : jsstr) : forallb (λ c, (0 <=? c) && (c <? 128)) s = true → text s.
Proof.
  intros H. apply text_ascii, Forall_forall. intros c Hc.
  apply list_elem_of_In in Hc. eapply forallb_forall in H; [|done].
  apply andb_true_iff in H as [? ?]. breflect. lia.
Qed.
Lemma text_digits ds : digits_ok ds → text ds.
Proof.
  intros H. apply text_ascii. eapply Forall_impl; [exact H|]. intros c Hc.
  apply is_digit_iff in Hc. lia.
Qed.

Lemma text_u_escape c : unit_ok c → text (u_escape c).
Proof.
  intros Hc. unfold unit_ok in Hc. unfold u_escape. apply text_ascii, Forall_app. split.
  { by repeat constructor. }
  assert (0 <= c / 4096 < 16).
  { split; [apply Z.div_pos; lia|apply Z.div_lt_upper_bound; lia]. }
  pose proof (Z.mod_pos_bound (c / 256) 16 ltac:(lia)).
  pose proof (Z.mod_pos_bound (c / 16) 16 ltac:(lia)).
  pose proof (Z.mod_pos_bound c 16 ltac:(lia)).
  repeat (apply Forall_cons; split); try apply Forall_nil_2;
    match goal with |- 0 <= hex_digit ?z < _ => pose proof (hex_digit_ascii z ltac:(done)); lia end.
Qed.

Lemma text_quote_unit c : unit_ok c → is_surrogate c = false → text (quote_unit c).
Proof.
  intros Hc Hs. unfold quote_unit. destruct (short_escape c) eqn:E.
  - apply text_ascii. unfold short_escape in E.
    repeat (case_match; [simplify_eq; by repeat constructor|]). done.
  - case_match; [by apply text_u_escape|by apply text_unit].
Qed.

Lemma text_quote_body s : units_ok s → text (quote_body s).
Proof.
  induction s as [|c|c d s IH1 IH2] using jsstr_pair_ind; intros Hs.
  - apply text_nil.
  - inversion_clear Hs. cbn [quote_body]. destruct (is_surrogate c) eqn:E.
    + by apply text_u_escape.
    + rewrite app_nil_r. by apply text_quote_unit.
  - inversion_clear Hs as [|?? Hc Hds]. destruct (is_surrogate c) eqn:Ec.
    + destruct (is_high_surrogate c && is_low_surrogate d) eqn:Ep.
      * rewrite quote_body_pair by done. apply andb_true_iff in Ep as [? ?]. inversion_clear Hds.
        apply (text_app [c; d]); [by apply text_pair|by apply IH1].
      * rewrite quote_body_lone by done. apply text_app; [by apply text_u_escape|by apply IH2].
    + rewrite quote_body_plain by done. apply text_app; [by apply text_quote_unit|by apply IH2].
Qed.
Lemma text_quote s : units_ok s → text (quote s).
Proof.
  intros H. unfold quote. apply text_app; [by apply text_literal|].
  apply text_app; [by apply text_quote_body|by apply text_literal].
Qed.

Lemma text_join sep l : text sep → Forall text l → text (join sep l).
Proof.
  intros Hsep. induction 1 as [|x l Hx Hl IH]; [apply text_nil|].
  destruct l; [done|]. rewrite join_cons by done. auto using text_app.
Qed.

Lemma digits_text z : 0 <= z < 10 ^ 400 → text (digits 400 z []).
Proof.
  intros Hz. destruct (digits_spec 400 z []) as (ds & -> & Hd & _).
  { by change (Z.of_nat 400) with 400. }
  rewrite app_nil_r. by apply text_digits.
Qed.
Lemma text_sign z : text (sign_string z).
Proof. unfold sign_string. case_match; [by apply text_literal|apply text_nil]. Qed.
Lemma text_number z : Z.abs z < 10 ^ 21 → text (number_to_string z).
Proof.
  intros Hz. unfold number_to_string. apply text_app; [apply text_sign|].
  rewrite (proj2 (Z.ltb_lt _ _) Hz). apply digits_text. split; [lia|].
  etrans; [exact Hz|]. by apply Z.ltb_lt.
Qed.
Lemma text_real m e : real_ok m e → text (real_to_string m e).
Proof.
  intros (Hm & Hb & He). unfold real_to_string. apply text_app; [apply text_sign|].
  destruct (digits_spec 400 (Z.abs m) []) as (ds & -> & Hd & _).
  { split; [lia|]. etrans; [exact Hb|]. by apply Z.ltb_lt. }
  rewrite app_nil_r. cbn zeta.
  assert (∀ k, text (take k ds)) as Ht by (intros k; by apply text_digits, take_digits_ok).
  assert (∀ k, text (drop k ds)) as Hdr by (intros k; by apply text_digits, drop_digits_ok).
  assert (text ds) by by apply text_digits.
  case_match; [|case_match]; breflect.
  - auto using text_app, text_literal.
  - apply text_app; [by apply text_literal|]. apply text_app; [|done].
    apply text_digits. by apply Forall_replicate.
  - unfold scientific. repeat apply text_app; [done| |by apply text_literal|].
    + case_match; [apply text_nil|]. apply (text_app [46]); [by apply text_literal|done].
    + apply digits_text. split; [lia|]. apply Z.le_lt_trans with 401; [lia|by apply Z.ltb_lt].
Qed.

Lemma text_stringify v : json_ok v → text (stringify v).
Proof.
  induction v as [|b|z|m e|s|l IH|fs IH] using json_induction; intros Hok.
  - by apply text_literal.
  - destruct b; by apply text_literal.
  - by apply text_number.
  - by apply text_real.
  - by apply text_quote.
  - apply json_ok_arr in Hok. cbn [stringify].
    apply text_app; [by apply text_literal|]. apply text_app; [|by apply text_literal].
    apply text_join; [by apply text_literal|]. apply Forall_fmap. exact (Forall_mp _ (λ v, text (stringify v)) _ IH Hok).
  - apply json_ok_obj in Hok as [_ Hok]. cbn [stringify].
    apply text_app; [by apply text_literal|]. apply text_app; [|by apply text_literal].
    apply text_join; [by apply text_literal|]. apply Forall_fmap.
    eapply Forall_impl; [exact (Forall_members _ (λ v, text (stringify v)) _ IH Hok)|]. intros [k v] [Hk Hv].
    cbn [compose fst snd] in *. apply text_app; [by apply text_quote|].
    apply text_app; [by apply text_literal|done].
Qed.

Lemma utf8_decode_stringify v : json_ok v → utf8_decode (utf8_encode (stringify v)) = Some (stringify v).
Proof.
  intros Hok. pose proof (text_stringify v Hok) as (cs & Hcs & Heq).
  destruct (stringify_start v Hok) as (c & t & Hs & Hc).
  assert (utf8_encode (stringify v) = concat (map utf8_char cs)) as Henc.
  { rewrite Heq. unfold utf8_encode. by rewrite text_code_points. }
  assert (decode_chars (S (length (concat (map utf8_char cs)))) (concat (map utf8_char cs)) =
    Some (stringify v)) as Hdec by (rewrite Heq; apply decode_chars_utf8; [done|lia]).
  assert (∃ t', concat (map utf8_char cs) = c :: t') as [t' Ht'].
  { apply (f_equal code_points) in Heq. rewrite text_code_points, Hs in Heq by done.
    revert Heq. unfold starts in Hc.
    repeat (apply elem_of_cons in Hc as [->|Hc];
      [intros Heq; rewrite code_points_plain in Heq by done; subst cs; by eexists|]).
    by apply elem_of_nil in Hc. }
  rewrite Henc in *. unfold utf8_decode. rewrite Ht' in *.
  unfold starts in Hc. repeat (apply elem_of_cons in Hc as [->|Hc]; [exact Hdec|]).
  by apply elem_of_nil in Hc.
Qed.

(** * The fuel of [json_parse] *)

Lemma skip_ws_length s : (length (skip_ws s) <= length s)%nat.
Proof. induction s as [|c s IH]; simpl; [done|]. case_match; simpl; lia. Qed.

Lemma span_digits_length s : ∀ acc n, (length (span_digits acc n s).2 <= length s)%nat.
Proof.
  induction s as [|c s IH]; intros acc n; simpl; [done|].
  destruct (is_digit c); [|done]. etrans; [apply IH|lia].
Qed.
Lemma some_digits_length acc s z n r : some_digits acc s = Some (z, n, r) →
  (length r <= length s)%nat.
Proof.
  unfold some_digits. pose proof (span_digits_length s acc 0).
  destruct (span_digits acc 0 s) as [[? []] ?]; [done|]. intros ?. by simplify_eq.
Qed.
Lemma span_digits_digit c s acc n : is_digit c = true →
  (length (span_digits acc n (c :: s)).2 <= length s)%nat.
Proof. intros H. cbn [span_digits]. rewrite H. apply span_digits_length. Qed.

Lemma parse_unsigned_length sign s v r : parse_unsigned sign s = Some (v, r) →
  (length r < length s)%nat.
Proof.
  unfold parse_unsigned. intros H.
  apply bind_Some in H as ([m s1] & E1 & H). apply bind_Some in H as ([[m' e1] s2] & E2 & H).
  apply bind_Some in H as ([e2 s3] & E3 & H). simplify_eq.
  assert (length s1 < length s)%nat.
  { unfold parse_int in E1. destruct s as [|c s]; [done|]. destruct (c =? 48).
    - simplify_eq. simpl; lia.
    - unfold some_digits in E1. cbn [span_digits] in E1.
      destruct (is_digit c); [|done].
      pose proof (span_digits_length s (0 * 10 + (c - 48)) 1).
      destruct (span_digits _ _ s) as [[? []] ?]; [done|]. simpl in *. simplify_eq. lia. }
  assert (length s2 <= length s1)%nat.
  { unfold parse_frac in E2. destruct s1 as [|c s1]; [by simplify_eq|].
    destruct (c =? 46); [|by simplify_eq].
    destruct (some_digits m s1) as [[[? ?] ?]|] eqn:E; [|done].
    apply some_digits_length in E. simpl in *. simplify_eq. lia. }
  assert (length r <= length s2)%nat; [|lia].
  unfold parse_exp in E3. destruct s2 as [|c s2]; [by simplify_eq|].
  case_match; [|by simplify_eq].
  destruct (some_digits 0 (parse_sign s2).2) as [[[? ?] ?]|] eqn:E; [|done].
  apply some_digits_length in E. simpl in *. simplify_eq.
  assert (length (parse_sign s2).2 <= length s2)%nat; [|lia].
  unfold parse_sign. repeat case_match; simpl; lia.
Qed.
Lemma parse_number_length s v r : parse_number s = Some (v, r) → (length r < length s)%nat.
Proof.
  unfold parse_number. destruct s as [|c s]; [done|].
  case_match; intros Hp; apply parse_unsigned_length in Hp; simpl in *; lia.
Qed.

Lemma parse_hex_length s c r : parse_hex s = Some (c, r) → (length r < length s)%nat.
Proof.
  unfold parse_hex. destruct s as [|a [|b [|c0 [|d s]]]]; try done.
  intros H. repeat (apply bind_Some in H as (? & ? & H)). simplify_eq. simpl; lia.
Qed.
Lemma parse_escape_length s c r : parse_escape s = Some (c, r) → (length r < length s)%nat.
Proof.
  unfold parse_escape. destruct s as [|a s]; [done|]. case_match.
  - intros Hp. apply parse_hex_length in Hp. simpl; lia.
  - intros Hp. apply bind_Some in Hp as (? & ? & Hp). simplify_eq. simpl; lia.
Qed.
Lemma parse_string_length f : ∀ s cs r, parse_string f s = Some (cs, r) →
  (length r < length s)%nat.
Proof.
  induction f as [|f IH]; intros s cs r H; [done|]. destruct s as [|c s]; [done|].
  cbn [parse_string] in H. destruct (c =? 34); [simplify_eq; simpl; lia|].
  destruct (c =? 92); [|destruct (c <? 32); [done|]].
  - apply bind_Some in H as ([? ?] & E%parse_escape_length & H).
    apply bind_Some in H as ([? ?] & E'%IH & H). simplify_eq. simpl; lia.
  - apply bind_Some in H as ([? ?] & E & H). simplify_eq. apply IH in E. simpl; lia.
Qed.
Lemma parse_literal_length lit v s v' r : lit ≠ [] →
  parse_literal lit v s = Some (v', r) → (length r < length s)%nat.
Proof.
  unfold parse_literal. intros Hl. case_bool_decide as E; [|done]. intros [= -> <-].
  apply (f_equal length) in E. rewrite length_take in E. rewrite length_drop.
  assert (0 < length lit)%nat by (destruct lit; [done|simpl; lia]). lia.
Qed.


Lemma expect_length c s r : expect c s = Some r → (length r < length s)%nat.
Proof.
  unfold expect. pose proof (skip_ws_length s) as Hw. destruct (skip_ws s) as [|c' t]; [done|].
  case_match; [|done]. intros [= ->]. done.
Qed.

(** Every parser consumes at least one character. *)
Lemma parse_length f :
  (∀ s v r, parse_value f s = Some (v, r) → (length r < length s)%nat) ∧
  (∀ s l r, parse_elements f s = Some (l, r) → (length r < length s)%nat) ∧
  (∀ a s l r, parse_members f a s = Some (l, r) → (length r < length s)%nat).
Proof.
  induction f as [|f (IHv & IHe & IHm)]; [done|]. split_and!.
  - intros s v r H. cbn [parse_value] in H.
    pose proof (skip_ws_length s) as Hw. destruct (skip_ws s) as [|c t]; [done|].
    enough (length r < length (c :: t))%nat by lia. clear Hw s.
    destruct (c =? 34); [|destruct (c =? 91); [|destruct (c =? 123)]].
    + apply bind_Some in H as ([? ?] & E & H). simplify_eq.
      apply parse_string_length in E. simpl; lia.
    + destruct (expect 93 t) eqn:E.
      * apply expect_length in E. simplify_eq. simpl; lia.
      * apply bind_Some in H as ([? ?] & E' & H). simplify_eq. apply IHe in E'. simpl; lia.
    + destruct (expect 125 t) eqn:E.
      * apply expect_length in E. simplify_eq. simpl; lia.
      * apply bind_Some in H as ([? ?] & E' & H). simplify_eq. apply IHm in E'. simpl; lia.
    + repeat (match goal with H : (if ?b then _ else _) = _ |- _ => destruct b end);
        first [by apply parse_literal_length in H|by apply parse_number_length in H].
  - intros s l r H. cbn [parse_elements] in H. apply bind_Some in H as ([v s1] & E & H).
    apply IHv in E. destruct (expect 44 s1) eqn:E1; apply bind_Some in H.
    + destruct H as ([? ?] & E2 & H). simplify_eq. apply expect_length in E1. apply IHe in E2. lia.
    + destruct H as (? & E2 & H). simplify_eq. apply expect_length in E2. lia.
  - intros a s l r H. cbn [parse_members] in H. apply bind_Some in H as (s1 & E1%expect_length & H).
    apply bind_Some in H as ([k s2] & E2%parse_string_length & H).
    apply bind_Some in H as (s3 & E3%expect_length & H).
    apply bind_Some in H as ([v s4] & E4%IHv & H).
    destruct (expect 44 s4) eqn:E5.
    + apply expect_length in E5. apply IHm in H. lia.
    + apply bind_Some in H as (s5 & E6%expect_length & H). simplify_eq. lia.
Qed.

(** More fuel than the length of the text asks for changes nothing. *)
Lemma parse_fuel n :
  (∀ s f g, (length s <= n)%nat → (2 * n < f)%nat → (2 * n < g)%nat →
     parse_value f s = parse_value g s) ∧
  (∀ s f g, (length s <= n)%nat → (2 * n + 1 < f)%nat → (2 * n + 1 < g)%nat →
     parse_elements f s = parse_elements g s) ∧
  (∀ a s f g, (length s <= n)%nat → (2 * n + 1 < f)%nat → (2 * n + 1 < g)%nat →
     parse_members f a s = parse_members g a s).
Proof.
  induction n as [n IH] using lt_wf_ind.
  assert (∀ s f g, (length s <= n)%nat → (2 * n < f)%nat → (2 * n < g)%nat →
     parse_value f s = parse_value g s) as Hv.
  { intros s f g Hs Hf Hg. destruct f as [|f], g as [|g]; try lia. cbn [parse_value].
    pose proof (skip_ws_length s) as Hw. destruct (skip_ws s) as [|c t]; [done|].
    simpl in Hw. destruct n as [|n]; [lia|].
    destruct (IH n ltac:(lia)) as (_ & IHe & IHm).
    by rewrite (IHe t f g), (IHm [] t f g) by lia. }
  split_and!; [done| |].
  - intros s f g Hs Hf Hg. destruct f as [|f], g as [|g]; try lia. cbn [parse_elements].
    rewrite (Hv s f g) by lia.
    destruct (parse_value g s) as [[v s1]|] eqn:E; [|done]. cbn [mbind option_bind].
    apply (parse_length g) in E. destruct (expect 44 s1) as [s2|] eqn:E1; [|done].
    apply expect_length in E1. destruct n as [|n]; [lia|].
    destruct (IH n ltac:(lia)) as (_ & IHe & _). by rewrite (IHe s2 f g) by lia.
  - intros a s f g Hs Hf Hg. destruct f as [|f], g as [|g]; try lia. cbn [parse_members].
    destruct (expect 34 s) as [s1|] eqn:E1; [|done]. cbn [mbind option_bind].
    destruct (parse_string _ s1) as [[k s2]|] eqn:E2; [|done]. cbn [mbind option_bind].
    destruct (expect 58 s2) as [s3|] eqn:E3; [|done]. cbn [mbind option_bind].
    apply expect_length in E1, E3. apply parse_string_length in E2.
    rewrite (Hv s3 f g) by lia.
    destruct (parse_value g s3) as [[v s4]|] eqn:E4; [|done]. cbn [mbind option_bind].
    apply (parse_length g) in E4. destruct (expect 44 s4) as [s5|] eqn:E5; [|done].
    apply expect_length in E5. destruct n as [|n]; [lia|].
    destruct (IH n ltac:(lia)) as (_ & _ & IHm). by rewrite (IHm _ s5 f g) by lia.
Qed.

Lemma json_parse_fuel f s : (2 * length s < f)%nat →
  json_parse s = ' (v, s) ← parse_value f s;
                 match skip_ws s with [] => Some v | _ => None end.
Proof.
  intros Hf. unfold json_parse.
  by rewrite (proj1 (parse_fuel (length s)) s (2 * length s + 2)%nat f) by lia.
Qed.

(** ** A concrete document *)

Definition sample_json : json :=
  JObj [(js "name", JStr [0x22; 10; 0xE9; 0xD83D; 0xDE00; 0xD800]);
        (js "rates", JArr [JNum (-120); JReal 5 (-1); JReal (-25) (-9); JNull; JBool true]);
        (js "empty", JObj [])].

(** [JSON.parse] after [JSON.stringify], and the fatal UTF-8 decoder after the
    encoder, give back every JSON value whose objects have distinct keys:
    strings of any code units, escapes and lone surrogates included, numbers
    in all of their notations.  The parser's fuel never runs out on any text. *)
Lemma json_text_roundtrip v : json_ok v →
  json_parse (stringify v) = Some v ∧
  (t ← utf8_decode (utf8_encode (stringify v)); json_parse t) = Some v ∧
  (∀ f s, (2 * length s < f)%nat →
     json_parse s = ' (v, s) ← parse_value f s;
                    match skip_ws s with [] => Some v | _ => None end).
Proof.
  intros Hok. split_and!.
  - by apply json_parse_stringify.
  - rewrite utf8_decode_stringify by done. cbn [mbind option_bind].
    by apply json_parse_stringify.
  - intros. by apply json_parse_fuel.
Qed.

Example sample_json_text :
  json_parse (js "[1.50, -2e2, true ,{}]") =
  Some (JArr [JReal 15 (-1); JNum (-200); JBool true; JObj []]) ∧
  json_parse (js "[01]") = None ∧ json_parse (js "[1,]") = None ∧
  json_parse (stringify sample_json) = Some sample_json.
Proof. split_and!; vm_compute; reflexivity. Qed.
