(* ===== verification/Protocol.v ===== *)
(** [packages/shared/src/protocol.ts]: the terminal protocol, its frames and
    its parsers.

    A frame is what the WebSocket library hands over: a string, a buffer, a
    list of buffers, or anything else.  Zod's issues are not distinguished:
    the code maps every one of them to [invalid_message]. *)
From S2P Require Import Prelude JsMap SafeString Tabs Json JsonText.
Open Scope Z_scope.

Definition PROTOCOL_VERSION : Z := 1.
Definition MAX_WS_PAYLOAD_BYTES : Z := 65536.
Definition MAX_INPUT_BYTES : Z := 16384.
Definition MIN_COLS : Z := 2.
Definition MAX_COLS : Z := 500.
Definition MIN_ROWS : Z := 2.
Definition MAX_ROWS : Z := 200.

(** * Messages *)

Inductive ClientMessage :=
| Input (sessionId data : jsstr)
| Resize (sessionId : jsstr) (cols rows : Z).

Inductive ServerMessage :=
| Ready (sessionId : jsstr)
| Output (sessionId data : jsstr)
| ErrorMessage (sessionId code : jsstr).

Definition inputDataSchema (value : jsstr) : bool :=
  Z.of_nat (length (utf8_encode value)) <=? MAX_INPUT_BYTES.

(** [z.literal(PROTOCOL_VERSION)], [z.number().int().min(lo).max(hi)] and
    [sessionIdSchema] on a property. *)
Definition version_field (fs : list (jsstr * json)) : option unit :=
  v ← field (js "v") fs; n ← as_int v; if n =? PROTOCOL_VERSION then Some tt else None.
Definition range_field (k : jsstr) (lo hi : Z) (fs : list (jsstr * json)) : option Z :=
  v ← field k fs; n ← as_int v; if (lo <=? n) && (n <=? hi) then Some n else None.
Definition string_field (k : jsstr) (ok : jsstr → bool) (fs : list (jsstr * json)) : option jsstr :=
  v ← field k fs; s ← as_string v; if ok s then Some s else None.

Definition clientMessageSchema (v : json) : option ClientMessage :=
  match v with
  | JObj fs =>
      type ← string_field (js "type") (λ _, true) fs;
      if bool_decide (type = js "input") then
        fs ← strict_object [js "v"; js "type"; js "sessionId"; js "data"] v;
        _ ← version_field fs;
        sessionId ← string_field (js "sessionId") isSessionId fs;
        data ← string_field (js "data") inputDataSchema fs;
        Some (Input sessionId data)
      else if bool_decide (type = js "resize") then
        fs ← strict_object [js "v"; js "type"; js "sessionId"; js "cols"; js "rows"] v;
        _ ← version_field fs;
        sessionId ← string_field (js "sessionId") isSessionId fs;
        cols ← range_field (js "cols") MIN_COLS MAX_COLS fs;
        rows ← range_field (js "rows") MIN_ROWS MAX_ROWS fs;
        Some (Resize sessionId cols rows)
      else None
  | _ => None
  end.

Definition serverMessageSchema (v : json) : option ServerMessage :=
  match v with
  | JObj fs =>
      type ← string_field (js "type") (λ _, true) fs;
      if bool_decide (type = js "ready") then
        fs ← strict_object [js "v"; js "type"; js "sessionId"] v;
        _ ← version_field fs;
        sessionId ← string_field (js "sessionId") isSessionId fs;
        Some (Ready sessionId)
      else if bool_decide (type = js "output") then
        fs ← strict_object [js "v"; js "type"; js "sessionId"; js "data"] v;
        _ ← version_field fs;
        sessionId ← string_field (js "sessionId") isSessionId fs;
        data ← string_field (js "data") (λ _, true) fs;
        Some (Output sessionId data)
      else if bool_decide (type = js "error") then
        fs ← strict_object [js "v"; js "type"; js "sessionId"; js "code"] v;
        _ ← version_field fs;
        sessionId ← string_field (js "sessionId") isSessionId fs;
        code ← string_field (js "code")
                 (λ s, (1 <=? length s)%nat && (length s <=? 100)%nat) fs;
        Some (ErrorMessage sessionId code)
      else None
  | _ => None
  end.

(** * Frames *)

Inductive ProtocolParseErrorCode :=
| binary_payload | payload_too_large | invalid_json | invalid_message.
Inductive ProtocolParseResult (T : Type) :=
| Parsed (data : T)
| Rejected (code : ProtocolParseErrorCode).
Arguments Parsed {T} data.
Arguments Rejected {T} code.

Inductive frame :=
| FString (s : jsstr)
| FBytes (b : list Z)
| FList (l : list (option (list Z)))  (** [None]: an element without bytes *)
| FOther.

Inductive decoded := Text (text : jsstr) (byteLength : Z) | TooLarge | Undecodable.

Definition byte_size (s : jsstr) : Z := Z.of_nat (length (utf8_encode s)).

Definition decode_views (views : list (option (list Z))) : decoded :=
  match mapM (λ v, v) views with
  | None => Undecodable
  | Some views =>
      let bytes := concat views in
      let byteLength := Z.of_nat (length bytes) in
      if MAX_WS_PAYLOAD_BYTES <? byteLength then TooLarge
      else match utf8_decode bytes with
           | Some text => Text text byteLength
           | None => Undecodable
           end
  end.
Definition decodeTextFrame (raw : frame) : decoded :=
  match raw with
  | FString s => Text s (byte_size s)
  | FBytes b => decode_views [Some b]
  | FList l => decode_views l
  | FOther => decode_views [None]
  end.

(** [None] is an input that is not a string. *)
Definition parseMessage {T} (input : option jsstr) (schema : json → option T)
    : ProtocolParseResult T :=
  match input with
  | None => Rejected binary_payload
  | Some input =>
      if MAX_WS_PAYLOAD_BYTES <? byte_size input then Rejected payload_too_large
      else
        match json_parse input with
        | None => Rejected invalid_json
        | Some parsed =>
            match schema parsed with
            | Some data => Parsed data
            | None => Rejected invalid_message
            end
        end
  end.

Definition parseClientMessage (raw : frame) (isBinary : bool) : ProtocolParseResult ClientMessage :=
  if isBinary then Rejected binary_payload
  else
    match decodeTextFrame raw with
    | TooLarge => Rejected payload_too_large
    | Undecodable => Rejected invalid_message
    | Text text byteLength =>
        if MAX_WS_PAYLOAD_BYTES <? byteLength then Rejected payload_too_large
        else parseMessage (Some text) clientMessageSchema
    end.

Definition parseServerMessage (input : option jsstr) : ProtocolParseResult ServerMessage :=
  parseMessage input serverMessageSchema.

(** * The senders *)

(** The objects that the client and [TerminalBridge] print. *)
Definition client_json (m : ClientMessage) : json :=
  match m with
  | Input s d => JObj [(js "v", JNum PROTOCOL_VERSION); (js "type", JStr (js "input"));
                       (js "sessionId", JStr s); (js "data", JStr d)]
  | Resize s c r => JObj [(js "v", JNum PROTOCOL_VERSION); (js "type", JStr (js "resize"));
                          (js "sessionId", JStr s); (js "cols", JNum c); (js "rows", JNum r)]
  end.
Definition server_json (m : ServerMessage) : json :=
  match m with
  | Ready s => JObj [(js "v", JNum PROTOCOL_VERSION); (js "type", JStr (js "ready"));
                     (js "sessionId", JStr s)]
  | Output s d => JObj [(js "v", JNum PROTOCOL_VERSION); (js "type", JStr (js "output"));
                        (js "sessionId", JStr s); (js "data", JStr d)]
  | ErrorMessage s c => JObj [(js "v", JNum PROTOCOL_VERSION); (js "type", JStr (js "error"));
                              (js "sessionId", JStr s); (js "code", JStr c)]
  end.

(** * Well-typed messages *)

Definition client_ok (m : ClientMessage) : Prop :=
  match m with
  | Input s d => isSessionId s = true ∧ byte_size d <= MAX_INPUT_BYTES
  | Resize s c r => isSessionId s = true ∧ MIN_COLS <= c <= MAX_COLS ∧ MIN_ROWS <= r <= MAX_ROWS
  end.
Definition server_ok (m : ServerMessage) : Prop :=
  match m with
  | Ready s | Output s _ => isSessionId s = true
  | ErrorMessage s c => isSessionId s = true ∧ (1 <= length c <= 100)%nat
  end.
Definition message_units (m : ClientMessage) : Prop :=
  match m with Input _ d => units_ok d | Resize _ _ _ => True end.
Definition server_units (m : ServerMessage) : Prop :=
  match m with Ready _ => True | Output _ d | ErrorMessage _ d => units_ok d end.

Lemma string_field_ok k ok fs s : string_field k ok fs = Some s → ok s = true.
Proof.
  unfold string_field. intros (v & _ & H)%bind_Some. apply bind_Some in H as (x & _ & H).
  by case_match; simplify_eq.
Qed.
Lemma range_field_ok k lo hi fs n : range_field k lo hi fs = Some n → lo <= n <= hi.
Proof.
  unfold range_field. intros (v & _ & H)%bind_Some. apply bind_Some in H as (x & _ & H).
  case_match; simplify_eq. by breflect.
Qed.

Lemma clientMessageSchema_ok v m : clientMessageSchema v = Some m → client_ok m.
Proof.
  unfold clientMessageSchema. destruct v as [| | | | | |fs]; try done.
  intros (type & _ & H)%bind_Some. case_bool_decide; [|case_bool_decide; [|done]];
    apply bind_Some in H as (fs' & _ & H); apply bind_Some in H as (_ & _ & H);
    apply bind_Some in H as (s & Hs%string_field_ok & H).
  - apply bind_Some in H as (d & Hd%string_field_ok & H). simplify_eq. split; [done|].
    by apply Z.leb_le in Hd.
  - apply bind_Some in H as (c & Hc%range_field_ok & H).
    apply bind_Some in H as (r & Hr%range_field_ok & H). by simplify_eq.
Qed.

(** Session identifiers are ASCII. *)
Lemma match_chars_units ps s : match_chars ps s = true →
  Forall (λ p, ∀ c, p c = true → 0 <= c < 128) ps → units_ok s.
Proof.
  revert s. induction ps as [|p ps IH]; intros [|c s] H Hp; try done; [by constructor|].
  cbn [match_chars] in H. apply andb_true_iff in H as [Hc H]. inversion_clear Hp as [|?? Hpc Hps].
  constructor; [|by apply IH]. specialize (Hpc c Hc). unfold unit_ok. lia.
Qed.
Lemma isSessionId_units s : isSessionId s = true → units_ok s.
Proof.
  intros H. apply (match_chars_units _ _ H). unfold TAB_ID_PATTERN.
  assert (∀ c, is_lower_hex c = true → 0 <= c < 128) as Hx.
  { intros c Hc. unfold is_lower_hex in Hc. apply orb_true_iff in Hc as [?|?]; breflect; lia. }
  assert (∀ c, (dash =? c) = true → 0 <= c < 128) as Hd.
  { intros c Hc. apply Z.eqb_eq in Hc. unfold dash in Hc. lia. }
  assert (∀ (l : jsstr), forallb (λ c, (0 <=? c) && (c <? 128)) l = true →
    ∀ c, char_in l c = true → 0 <= c < 128) as Hi.
  { intros l Hl c Hc. unfold char_in in Hc. apply bool_decide_eq_true in Hc.
    apply list_elem_of_In in Hc. eapply forallb_forall in Hl; [|done].
    apply andb_true_iff in Hl as [? ?]. breflect. lia. }
  repeat first [apply Forall_app_2 | apply Forall_replicate | apply Forall_cons_2 | apply Forall_nil_2];
    first [exact Hx | exact Hd | by apply Hi].
Qed.

Lemma units_ok_literal (s : jsstr) : forallb (λ c, (0 <=? c) && (c <? 65536)) s = true → units_ok s.
Proof.
  intros H. apply Forall_forall. intros c Hc. apply list_elem_of_In in Hc.
  eapply forallb_forall in H; [|done]. apply andb_true_iff in H as [? ?]. breflect.
  unfold unit_ok. lia.
Qed.

Lemma NoDup_keys (l : list jsstr) : bool_decide (NoDup l) = true → NoDup l.
Proof. apply bool_decide_eq_true_1. Qed.

Lemma client_json_ok m : client_ok m → message_units m → json_ok (client_json m).
Proof.
  intros Hok Hu. destruct m as [s d|s c r]; apply json_ok_obj; (split; [by apply NoDup_keys|]);
    repeat first [apply Forall_cons_2 | apply Forall_nil_2]; split; cbn [fst snd json_ok client_ok message_units] in *;
    try (by apply units_ok_literal); try done; try (by apply isSessionId_units, Hok).
  all: unfold PROTOCOL_VERSION, MIN_COLS, MAX_COLS, MIN_ROWS, MAX_ROWS in *; lia.
Qed.
Lemma server_json_ok m : server_ok m → server_units m → json_ok (server_json m).
Proof.
  intros Hok Hu. destruct m as [s|s d|s c]; apply json_ok_obj; (split; [by apply NoDup_keys|]);
    repeat first [apply Forall_cons_2 | apply Forall_nil_2]; split; cbn [fst snd json_ok server_ok server_units] in *;
    try (by apply units_ok_literal); try done; try (by apply isSessionId_units, Hok).
Qed.

(** The schemas accept what the senders print. *)
Lemma clientMessageSchema_json m : client_ok m → clientMessageSchema (client_json m) = Some m.
Proof.
  destruct m as [s d|s c r]; cbn [client_ok].
  - intros [Hs Hd]. unfold clientMessageSchema, client_json.
    change (string_field (js "type") (λ _, true) _) with (Some (js "input")).
    cbn [mbind option_bind]. rewrite bool_decide_eq_true_2 by done.
    change (strict_object _ _) with (Some [(js "v", JNum PROTOCOL_VERSION); (js "type", JStr (js "input"));
      (js "sessionId", JStr s); (js "data", JStr d)]). cbn [mbind option_bind].
    change (version_field _) with (Some tt). cbn [mbind option_bind].
    change (string_field (js "sessionId") _ _) with (if isSessionId s then Some s else None).
    rewrite Hs. cbn [mbind option_bind].
    change (string_field (js "data") _ _) with (if inputDataSchema d then Some d else None).
    unfold inputDataSchema. by rewrite (proj2 (Z.leb_le _ _)).
  - intros (Hs & Hc & Hr). unfold clientMessageSchema, client_json.
    change (string_field (js "type") (λ _, true) _) with (Some (js "resize")).
    cbn [mbind option_bind]. rewrite bool_decide_eq_false_2, bool_decide_eq_true_2 by done.
    change (strict_object _ _) with (Some [(js "v", JNum PROTOCOL_VERSION); (js "type", JStr (js "resize"));
      (js "sessionId", JStr s); (js "cols", JNum c); (js "rows", JNum r)]). cbn [mbind option_bind].
    change (version_field _) with (Some tt). cbn [mbind option_bind].
    change (string_field (js "sessionId") _ _) with (if isSessionId s then Some s else None).
    rewrite Hs. cbn [mbind option_bind].
    change (range_field (js "cols") ?lo ?hi _) with (if (lo <=? c) && (c <=? hi) then Some c else None).
    change (range_field (js "rows") ?lo ?hi _) with (if (lo <=? r) && (r <=? hi) then Some r else None).
    rewrite !(proj2 (andb_true_iff _ _)) by (rewrite !Z.leb_le; lia). done.
Qed.

Lemma serverMessageSchema_json m : server_ok m → serverMessageSchema (server_json m) = Some m.
Proof.
  destruct m as [s|s d|s c]; cbn [server_ok]; intros Hs; unfold serverMessageSchema, server_json.
  - change (string_field (js "type") (λ _, true) _) with (Some (js "ready")).
    cbn [mbind option_bind]. rewrite bool_decide_eq_true_2 by done.
    change (strict_object _ _) with (Some [(js "v", JNum PROTOCOL_VERSION); (js "type", JStr (js "ready"));
      (js "sessionId", JStr s)]). cbn [mbind option_bind].
    change (version_field _) with (Some tt). cbn [mbind option_bind].
    change (string_field (js "sessionId") _ _) with (if isSessionId s then Some s else None).
    by rewrite Hs.
  - change (string_field (js "type") (λ _, true) _) with (Some (js "output")).
    cbn [mbind option_bind]. rewrite bool_decide_eq_false_2, bool_decide_eq_true_2 by done.
    change (strict_object _ _) with (Some [(js "v", JNum PROTOCOL_VERSION); (js "type", JStr (js "output"));
      (js "sessionId", JStr s); (js "data", JStr d)]). cbn [mbind option_bind].
    change (version_field _) with (Some tt). cbn [mbind option_bind].
    change (string_field (js "sessionId") _ _) with (if isSessionId s then Some s else None).
    by rewrite Hs.
  - destruct Hs as [Hs Hc]. change (string_field (js "type") (λ _, true) _) with (Some (js "error")).
    cbn [mbind option_bind]. rewrite !bool_decide_eq_false_2, bool_decide_eq_true_2 by done.
    change (strict_object _ _) with (Some [(js "v", JNum PROTOCOL_VERSION); (js "type", JStr (js "error"));
      (js "sessionId", JStr s); (js "code", JStr c)]). cbn [mbind option_bind].
    change (version_field _) with (Some tt). cbn [mbind option_bind].
    change (string_field (js "sessionId") _ _) with (if isSessionId s then Some s else None).
    rewrite Hs. cbn [mbind option_bind].
    change (string_field (js "code") _ _) with
      (if (1 <=? length c)%nat && (length c <=? 100)%nat then Some c else None).
    rewrite (proj2 (andb_true_iff _ _)) by (rewrite !Nat.leb_le; lia). done.
Qed.

Lemma parseMessage_json {T} (schema : json → option T) v m :
  json_ok v → byte_size (stringify v) <= MAX_WS_PAYLOAD_BYTES → schema v = Some m →
  parseMessage (Some (stringify v)) schema = Parsed m.
Proof.
  intros Hv Hs Hm. unfold parseMessage. rewrite (proj2 (Z.ltb_ge _ _)) by done.
  by rewrite json_parse_stringify, Hm.
Qed.

Lemma parseMessage_parsed {T} (schema : json → option T) input m :
  parseMessage input schema = Parsed m → ∃ v, schema v = Some m.
Proof.
  unfold parseMessage. destruct input; [|done]. case_match; [done|].
  destruct (json_parse _) as [v|]; [|done]. destruct (schema v) eqn:E; [|done].
  intros [= ->]. eauto.
Qed.

Lemma parseClientMessage_ok raw isBinary m : parseClientMessage raw isBinary = Parsed m →
  isBinary = false ∧ client_ok m.
Proof.
  destruct isBinary; [done|]. unfold parseClientMessage.
  destruct (decodeTextFrame raw); [|done..].
  case_match; [done|]. intros (v & Hv)%parseMessage_parsed. split; [done|].
  by eapply clientMessageSchema_ok.
Qed.

(** The buffers of a frame, however it is split. *)
Definition carries (raw : frame) (bytes : list Z) : Prop :=
  match raw with
  | FBytes b => b = bytes
  | FList l => ∃ parts, l = Some <$> parts ∧ concat parts = bytes
  | FString s => utf8_encode s = bytes ∧ ∃ v, json_ok v ∧ s = stringify v
  | FOther => False
  end.

Lemma decode_views_parts parts : decode_views (Some <$> parts) =
  if MAX_WS_PAYLOAD_BYTES <? Z.of_nat (length (concat parts)) then TooLarge
  else match utf8_decode (concat parts) with
       | Some text => Text text (Z.of_nat (length (concat parts)))
       | None => Undecodable
       end.
Proof.
  unfold decode_views. assert (mapM (λ v : option (list Z), v) (Some <$> parts) = Some parts) as ->; [|done].
  apply mapM_Some, Forall2_fmap_l. apply Forall_Forall2_diag. by apply Forall_true.
Qed.

Lemma parseClientMessage_carries raw v m : json_ok v → clientMessageSchema v = Some m →
  carries raw (utf8_encode (stringify v)) →
  byte_size (stringify v) <= MAX_WS_PAYLOAD_BYTES →
  (∀ s, raw = FString s → s = stringify v) →
  parseClientMessage raw false = Parsed m.
Proof.
  intros Hv Hm Hc Hs Hraw. unfold parseClientMessage.
  assert (decodeTextFrame raw = Text (stringify v) (byte_size (stringify v))) as ->.
  { assert (∀ parts, concat parts = utf8_encode (stringify v) →
      decode_views (Some <$> parts) = Text (stringify v) (byte_size (stringify v))) as Hp.
    { intros parts Hcat. rewrite decode_views_parts, Hcat. unfold byte_size in *.
      rewrite (proj2 (Z.ltb_ge _ _)) by done. by rewrite utf8_decode_stringify. }
    destruct raw as [s|b|l|]; cbn [decodeTextFrame carries] in *.
    - by rewrite (Hraw s eq_refl).
    - subst b. apply (Hp [_]). cbn. by rewrite app_nil_r.
    - destruct Hc as (parts & -> & Hcat). by apply Hp.
    - done. }
  rewrite (proj2 (Z.ltb_ge _ _)) by done. by apply parseMessage_json.
Qed.

Definition sample_session : jsstr := js "0f8fad5b-d9cb-469f-a165-70867728950e".
Definition sample_input : ClientMessage := Input sample_session [0x6C; 0x73; 13; 0xE9; 0xD83D; 0xDE00].


Example sample_frames :
  parseClientMessage (FString (js "{}")) false = Rejected invalid_message ∧
  parseClientMessage (FList [Some [123]; None]) false = Rejected invalid_message ∧
  parseClientMessage (FBytes [0xC0; 0x80]) false = Rejected invalid_message ∧
  parseClientMessage (FBytes (utf8_encode (stringify (client_json sample_input)))) false =
  Parsed sample_input.
Proof. split_and!; vm_compute; reflexivity. Qed.

