(* ===== verification/TerminalBridge.v ===== *)
(** [TerminalBridge] of [terminal-bridge.ts]: one WebSocket joined to one
    pseudo-terminal.

    The socket, the terminal, the activity callback and the authenticator are
    other components: every call to them consumes one tick of an
    [environment], which fixes whether the call throws, what it answers, and
    which of the bridge's own listeners and methods run during it
    ([reenter]).  Re-entrant runs nest to any depth: [perform] takes the depth
    as fuel, and the theorems hold for every depth.  Every call is recorded in
    [log] when it starts, an [authenticate] when it answers.

    A subscription is its kind; [PtyProcess] is the terminal of [pty.ts].  The
    lifecycle logger of [logger.ts] does not throw and does not call back. *)
From S2P Require Import Prelude SafeString Tabs Json Protocol.
Open Scope Z_scope.

Definition MAX_BUFFER_BYTES : Z := 1048576.
Definition AUTHENTICATION_REQUIRED_REASON : jsstr := js "authentication_required".

(** Listeners and methods, as others call them. *)
Inductive action :=
| AMessage (data : frame) (isBinary : bool)
| AOutput (data : jsstr)
| AExit
| ASocketClosed
| ASocketError
| AClose (code : Z) (reason : jsstr).

Inductive subscription := OnMessage | OnData | OnExit | OnClose | OnError.

Inductive reject_category := ParseError (code : ProtocolParseErrorCode) | SessionMismatch.

Inductive event :=
| Subscribe (k : subscription)
| Dispose (k : subscription)
| PtyWrite (data : jsstr)
| PtyResize (cols rows : Z)
| PtyKill
| Send (data : jsstr)
| SocketClose (code : Z) (reason : jsstr)
| SocketTerminate
| ReadyState (open : bool)
| BufferedAmount (n : Z)
| Authenticate (accepted : bool)
| Activity
| Log (name : jsstr) (category : option reject_category).

Record environment := {
  throws : nat → bool;
  answer : nat → bool;
  amount : nat → Z;
  reenter : nat → list action;
}.

Record TerminalBridgeOptions := {
  sessionId : jsstr;
  maxBufferedBytes : option Z;  (** [None]: not an integer *)
  has_onActivity : bool;
}.

Record bridge := Bridge {
  disposables : list subscription;
  closed : bool;
  tick : nat;
  log : list event;
}.

Inductive bridge_error := Thrown | InvalidSession | InvalidBufferLimit | SetupFailed.
Abbreviation B A := (M bridge bridge_error A).

Definition buffer_limit (n : Z) : Z := Z.min n MAX_BUFFER_BYTES.

Section bridge.
Variables (o : TerminalBridgeOptions) (env : environment).

Definition limit : Z := buffer_limit (default 0 (maxBufferedBytes o)).

Definition record (e : event) : B unit :=
  modify (λ s, Bridge (disposables s) (closed s) (tick s) (log s ++ [e])).
Definition next_tick : B nat := λ s,
  (Ok (tick s), Bridge (disposables s) (closed s) (S (tick s)) (log s)).
Definition log_event (name : jsstr) : B unit := record (Log name None).

Section reentrant.
(** What runs during a call. *)
Variable nested : list action → B unit.

Definition call (e : event) : B unit :=
  do! record e in
  let! t := next_tick in
  do! nested (reenter env t) in
  throw_if (throws env t) Thrown.

Definition socketIsOpen : B bool :=
  let! t := next_tick in
  do! record (ReadyState (answer env t)) in
  ret (answer env t).
Definition bufferedAmount : B Z :=
  let! t := next_tick in
  do! record (BufferedAmount (amount env t)) in
  ret (amount env t).

(** [try { m } catch { log }] *)
Definition guarded (m : B unit) (name : jsstr) : B unit := catch m (λ _, log_event name).

Definition shutdown (code : Z) (reason : jsstr) (closeSocket : bool) : B unit :=
  let! c := gets closed in
  if c : bool then ret tt
  else
    do! modify (λ s, Bridge (disposables s) true (tick s) (log s)) in
    let! ds := gets disposables in
    do! each ds (λ d, guarded (call (Dispose d)) (js "subscription_dispose_failed")) in
    do! guarded (call PtyKill) (js "terminal_kill_failed") in
    do! if closeSocket then
          let! open := socketIsOpen in
          if open : bool then
            do! guarded (call (SocketClose code reason)) (js "socket_close_failed") in
            let! open := socketIsOpen in
            if open : bool then guarded (call SocketTerminate) (js "socket_terminate_failed")
            else ret tt
          else ret tt
        else ret tt in
    log_event (js "terminal_closed").

Definition markActivity : B unit :=
  if has_onActivity o then guarded (call Activity) (js "terminal_activity_failed") else ret tt.

Definition write (data : jsstr) : B unit :=
  let! c := gets closed in
  if c : bool then ret tt
  else
    catch (call (PtyWrite data))
      (λ _, do! log_event (js "terminal_write_failed") in
            shutdown 1011 (js "terminal_write_failed") true).

Definition resize (cols rows : Z) : B unit :=
  let! c := gets closed in
  if c : bool then ret tt
  else
    catch (call (PtyResize cols rows))
      (λ _, do! log_event (js "terminal_resize_failed") in
            shutdown 1011 (js "terminal_resize_failed") true).

Definition close (code : Z) (reason : jsstr) : B unit := shutdown code reason true.

Definition authenticateInput : B bool :=
  let! t := next_tick in
  do! nested (reenter env t) in
  let accepted := negb (throws env t) && answer env t in
  do! record (Authenticate accepted) in
  if accepted then ret true
  else do! shutdown AUTHENTICATION_REQUIRED AUTHENTICATION_REQUIRED_REASON true in ret false.

Definition message_session (m : ClientMessage) : jsstr :=
  match m with Input s _ | Resize s _ _ => s end.

Definition handleMessage (data : frame) (isBinary : bool) : B unit :=
  let! c := gets closed in
  if c : bool then ret tt
  else
    match parseClientMessage data isBinary with
    | Rejected code =>
        do! record (Log (js "protocol_message_rejected") (Some (ParseError code))) in
        shutdown 1008 (js "invalid_message") true
    | Parsed m =>
        if negb (bool_decide (message_session m = sessionId o)) then
          do! record (Log (js "protocol_message_rejected") (Some SessionMismatch)) in
          shutdown 1008 (js "invalid_message") true
        else
          match m with
          | Input _ data =>
              let! ok := authenticateInput in
              if negb ok then ret tt
              else do! markActivity in write data
          | Resize _ cols rows => do! markActivity in resize cols rows
          end
    end.

(** [Buffer.byteLength(serialized, 'utf8')] *)
Definition serialize (m : ServerMessage) : jsstr := stringify (server_json m).

Definition handleOutput (data : jsstr) : B unit :=
  let! c := gets closed in
  if c : bool then ret tt
  else
    do! markActivity in
    let! open := socketIsOpen in
    if negb open then ret tt
    else
      let serialized := serialize (Output (sessionId o) data) in
      let! n := bufferedAmount in
      if limit <=? n + byte_size serialized then
        let! _ := bufferedAmount in
        do! log_event (js "terminal_backpressure") in
        shutdown 4002 (js "terminal_backpressure") true
      else
        catch (call (Send serialized))
          (λ _, do! log_event (js "terminal_send_failed") in
                shutdown 1011 (js "terminal_send_failed") true).

Definition sendLifecycleError : B unit :=
  let! c := gets closed in
  if c : bool then ret tt
  else
    let! open := socketIsOpen in
    if negb open then ret tt
    else
      let serialized := serialize (ErrorMessage (sessionId o) (js "terminal_unavailable")) in
      let! n := bufferedAmount in
      if limit <=? n + byte_size serialized then ret tt
      else guarded (call (Send serialized)) (js "terminal_send_failed").

Definition on_exit : B unit :=
  let! c := gets closed in
  if c : bool then ret tt
  else
    do! log_event (js "terminal_exited") in
    do! sendLifecycleError in
    shutdown 1011 (js "terminal_exited") true.

Definition on_socket_error : B unit :=
  let! c := gets closed in
  if c : bool then ret tt
  else
    do! log_event (js "socket_error") in
    shutdown 1011 (js "socket_error") false.

Definition act (a : action) : B unit :=
  match a with
  | AMessage data isBinary => handleMessage data isBinary
  | AOutput data => handleOutput data
  | AExit => on_exit
  | ASocketClosed => shutdown 1000 (js "socket_closed") false
  | ASocketError => on_socket_error
  | AClose code reason => close code reason
  end.

Definition subscribe (k : subscription) : B unit :=
  do! call (Subscribe k) in
  modify (λ s, Bridge (disposables s ++ [k]) (closed s) (tick s) (log s)).

Definition construct : B unit :=
  do! throw_if (negb (isSessionId (sessionId o))) InvalidSession in
  match maxBufferedBytes o with
  | None => throw InvalidBufferLimit
  | Some n =>
      do! throw_if (n <=? 0) InvalidBufferLimit in
      do! catch
        (each [OnMessage; OnData; OnExit; OnClose; OnError] subscribe)
        (λ _, do! log_event (js "terminal_setup_failed") in
              do! shutdown 1011 (js "terminal_setup_failed") true in
              throw SetupFailed) in
      log_event (js "terminal_opened")
  end.
End reentrant.

(** Re-entrant runs to the depth [fuel]. *)
Fixpoint perform (fuel : nat) (a : action) : B unit :=
  match fuel with
  | O => ret tt
  | S f => act (λ l, each l (perform f)) a
  end.
Definition nested_at (fuel : nat) (l : list action) : B unit := each l (perform fuel).

(** A bridge from its construction on. *)
Definition run (fuel : nat) (acts : list action) : res bridge_error unit * bridge :=
  (do! construct (nested_at fuel) in each acts (perform fuel)) (Bridge [] false 0 []).
End bridge.

(** [get pid]: a property read that may throw; [None] inside [Ok] is a value
    that is not an integer. *)
Definition pid (read : res unit (option Z)) : option Z :=
  match read with
  | Ok (Some n) => if 0 <? n then Some n else None
  | _ => None
  end.
