(* ===== verification/BridgeFacts.v ===== *)
(** The life of a [TerminalBridge]: it kills its terminal exactly once,
    nothing reaches the terminal afterwards, input needs authentication, and
    output respects the buffer limit, under re-entrancy of any depth. *)
From S2P Require Import Prelude SafeString Tabs Json Protocol TerminalBridge.
Open Scope Z_scope.

(** * Traces *)

Definition is_kill (e : event) : bool := match e with PtyKill => true | _ => false end.
Definition is_write (e : event) : bool := match e with PtyWrite _ => true | _ => false end.
Definition is_auth (e : event) : bool := match e with Authenticate true => true | _ => false end.
(** A call that the terminal must not see after it was killed. *)
Definition is_pty (e : event) : bool :=
  match e with PtyWrite _ | PtyResize _ _ | PtyKill => true | _ => false end.
(** A call that no invariant constrains. *)
Definition ordinary (e : event) : bool :=
  match e with
  | PtyWrite _ | PtyResize _ _ | PtyKill | Send _ | Authenticate _ => false
  | _ => true
  end.

Definition count (p : event → bool) (l : list event) : nat := length (List.filter p l).
Definition quiet (l : list event) : Prop := Forall (λ e, is_pty e = false) l.

Lemma count_app p l1 l2 : count p (l1 ++ l2) = (count p l1 + count p l2)%nat.
Proof. unfold count. by rewrite List.filter_app, length_app. Qed.
Lemma quiet_kills l : quiet l → count is_kill l = 0%nat.
Proof. induction 1 as [|e l He _ IH]; [done|]. by destruct e. Qed.

(** How a stretch of the trace takes the bridge from closed or not to closed
    or not: the kill is the last call to the terminal. *)
Definition life (c : bool) (l : list event) (c' : bool) : Prop :=
  match c, c' with
  | true, true => quiet l
  | true, false => False
  | false, true => ∃ l1 l2, l = l1 ++ PtyKill :: l2 ∧ count is_kill l1 = 0%nat ∧ quiet l2
  | false, false => count is_kill l = 0%nat
  end.
Lemma life_trans c1 c2 c3 l1 l2 : life c1 l1 c2 → life c2 l2 c3 → life c1 (l1 ++ l2) c3.
Proof.
  destruct c1, c2, c3; simpl; try done.
  - intros. by apply Forall_app.
  - intros (a & b & -> & Ha & Hb) Hq. exists a, (b ++ l2). rewrite <-(assoc_L (++)). cbn [app].
    split_and!; [done..|]. by apply Forall_app.
  - intros H1 (a & b & -> & Ha & Hb). exists (l1 ++ a), b. rewrite <-(assoc_L (++)).
    split_and!; [done| |done]. rewrite count_app. lia.
  - intros. rewrite count_app. lia.
Qed.
Lemma life_refl c : life c [] c.
Proof. destruct c; [constructor|done]. Qed.

(** Authentications are tokens that writes spend: the stretch starts with [n]
    of them, never overdraws, and leaves [m]. *)
Definition flow (n : nat) (l : list event) (m : nat) : Prop :=
  (∀ l1 l2, l = l1 ++ l2 → count is_write l1 <= n + count is_auth l1)%nat ∧
  (m + count is_write l <= n + count is_auth l)%nat.
Lemma flow_app n m k a b : flow n a m → flow m b k → flow n (a ++ b) k.
Proof.
  intros [Pa Ea] [Pb Eb]. split; [|rewrite !count_app; lia].
  intros l1 l2 Heq. apply app_eq_inv in Heq as [(c & -> & ->)|(c & -> & ->)].
  - by eapply Pa.
  - rewrite !count_app. pose proof (Pb c l2 eq_refl). lia.
Qed.
Lemma flow_frame n l m k : flow n l m → flow (n + k) l (m + k).
Proof.
  intros [P E]. split; [|lia]. intros l1 l2 Heq. specialize (P l1 l2 Heq). lia.
Qed.
Lemma flow_nil n m : (m <= n)%nat → flow n [] m.
Proof.
  intros H. split; [|cbn; lia]. intros l1 l2 Heq. symmetry in Heq.
  apply app_nil in Heq as [-> _]. cbn. lia.
Qed.
Lemma flow_cons n m k e l : (m + count is_write [e] <= n + count is_auth [e])%nat →
  flow m l k → flow n (e :: l) k.
Proof.
  intros H Hl. apply (flow_app n m k [e]); [|done]. split; [|done].
  intros [|x [|? ?]] l2 Heq; [cbn; lia| |done]. injection Heq as <- _. cbn in *. lia.
Qed.
Lemma flow_plain n l : Forall (λ e, is_write e = false) l → flow n l n.
Proof.
  induction 1 as [|e l He _ IH]; [by apply flow_nil|]. apply (flow_cons n n); [|done].
  destruct e; try done; cbn; lia.
Qed.

(** What a single call may carry. *)
Definition event_ok (e : event) : Prop :=
  match e with
  | PtyWrite d => byte_size d <= MAX_INPUT_BYTES
  | PtyResize c r => MIN_COLS <= c <= MAX_COLS ∧ MIN_ROWS <= r <= MAX_ROWS
  | _ => True
  end.

Section facts.
Variables (o : TerminalBridgeOptions) (env : environment).

(** A message is sent right after the socket was open with room for it. *)
Definition sends_ok (l : list event) : Prop :=
  ∀ l1 s l2, l = l1 ++ Send s :: l2 → ∃ l0 n,
    l1 = l0 ++ [ReadyState true; BufferedAmount n] ∧ n + byte_size s < limit o.
Lemma sends_ok_app a b : sends_ok a → sends_ok b → sends_ok (a ++ b).
Proof.
  intros Ha Hb l1 s l2 Heq. apply app_eq_inv in Heq as [(k & -> & Hk)|(k & -> & Hk)].
  - destruct k as [|e k]; cbn [app] in Hk.
    + destruct (Hb [] s l2) as (l0 & n & Hl & _); [by rewrite Hk|]. by destruct l0.
    + simplify_eq. by eapply Ha.
  - destruct (Hb k s l2 Hk) as (l0 & n & -> & Hn). exists (a ++ l0), n.
    by rewrite <-(assoc_L (++)).
Qed.
Lemma sends_ok_plain l : Forall (λ e, ∀ s, e ≠ Send s) l → sends_ok l.
Proof.
  intros Hf l1 s l2 ->. apply Forall_app in Hf as [_ Hf]. inversion_clear Hf. naive_solver.
Qed.

(** * What a part of the bridge's code does to it *)
Definition steps (n m : nat) (s s' : bridge) : Prop := ∃ l, log s' = log s ++ l ∧
  life (closed s) l (closed s') ∧ flow n l m ∧ sends_ok l ∧ Forall event_ok l.

Lemma bridge_trans n m k s1 s2 s3 : steps n m s1 s2 → steps m k s2 s3 → steps n k s1 s3.
Proof.
  intros (a & Ha & La & Ba & Sa & Ea) (b & Hb & Lb & Bb & Sb & Eb). exists (a ++ b).
  split_and!.
  - by rewrite Hb, Ha, (assoc_L (++)).
  - by eapply life_trans.
  - by eapply flow_app.
  - by apply sends_ok_app.
  - by apply Forall_app.
Qed.
Lemma bridge_same n m s s' : closed s' = closed s → log s' = log s → (m <= n)%nat →
  steps n m s s'.
Proof.
  intros Hc Hl H. exists []. rewrite app_nil_r. split_and!; [done|rewrite Hc; apply life_refl|
    by apply flow_nil|apply sends_ok_plain; constructor|constructor].
Qed.
Lemma bridge_frame n m k s s' : steps n m s s' → steps (n + k) (m + k) s s'.
Proof. intros (l & ? & ? & ? & ? & ?). exists l. split_and!; auto using flow_frame. Qed.
Lemma bridge_drop n m s s' : steps n m s s' → steps n 0 s s'.
Proof.
  intros (l & ? & ? & [? ?] & ? & ?). exists l. split_and!; try done. split; [done|lia].
Qed.
Lemma closed_stays n m s s' : steps n m s s' → closed s = true → closed s' = true.
Proof. intros (l & _ & H & _) Hc. rewrite Hc in H. by destruct (closed s'). Qed.
Lemma plain_life c e : is_kill e = false → (c = true → is_pty e = false) → life c [e] c.
Proof.
  intros Hk Hp. destruct c; cbn; [by constructor; [apply Hp|]|]. unfold count. cbn. by rewrite Hk.
Qed.
(** One recorded call, a [Send] apart. *)
Lemma bridge_one n m s s' e : closed s' = closed s → log s' = log s ++ [e] →
  is_kill e = false → (closed s = true → is_pty e = false) → (∀ d, e ≠ Send d) → event_ok e →
  (m + count is_write [e] <= n + count is_auth [e])%nat → steps n m s s'.
Proof.
  intros Hc Hl Hk Hp Hs He Hn. exists [e]. rewrite Hc.
  split_and!; [done|by apply plain_life| | |by constructor].
  - eapply flow_cons; [done|]. by apply flow_nil.
  - apply sends_ok_plain. by constructor.
Qed.
Lemma bridge_ordinary n s s' e : log s' = log s ++ [e] → ordinary e = true →
  closed s' = closed s → steps n n s s'.
Proof.
  intros Hl Ho Hc. eapply bridge_one; [done..| | | | |]; destruct e; try done; cbn; lia.
Qed.

(** Code that never throws and steps; code that may throw. *)
Definition runs (n m : nat) (k : B unit) : Prop :=
  ∀ s, wp k (λ r s', r = Ok tt ∧ steps n m s s') s.
Definition goes {A} (n m : nat) (k : B A) : Prop := ∀ s, wp k (λ _ s', steps n m s s') s.

Lemma runs_goes n m k : runs n m k → goes n m k.
Proof. intros H s. eapply wp_mono; [apply H|]. by intros ? ? [_ ?]. Qed.
Lemma runs_frame k n m c : runs n m c → runs (n + k) (m + k) c.
Proof.
  intros H s. eapply wp_mono; [apply H|]. intros r s' [-> ?]. eauto using bridge_frame.
Qed.
Lemma runs_pure n m : (m <= n)%nat → runs n m (ret tt).
Proof. intros H s. apply wp_ret. split; [done|]. by apply bridge_same. Qed.
Lemma runs_seq n m k (a b : B unit) : runs n m a → runs m k b → runs n k (do! a in b).
Proof.
  intros Ha Hb s. apply wp_bind. eapply wp_mono; [apply Ha|]. intros r s1 [-> H1].
  eapply wp_mono; [apply Hb|]. intros r s2 [-> H2]. split; [done|]. by eapply bridge_trans.
Qed.
Lemma runs_catch n m k (a : B unit) (h : bridge_error → B unit) :
  goes n m a → (∀ e, runs m m (h e)) → (k <= m)%nat → runs n k (catch a h).
Proof.
  intros Ha Hh Hk s. apply wp_catch. eapply wp_mono; [apply Ha|]. intros [[]|e] s1 H1.
  - split; [done|]. eapply bridge_trans; [done|]. by apply bridge_same.
  - eapply wp_mono; [apply Hh|]. intros r s2 [-> H2]. split; [done|].
    eapply bridge_trans; [done|]. eapply bridge_trans; [done|]. by apply bridge_same.
Qed.
Lemma runs_after n m k (a b : B unit) s : wp a (λ r s', r = Ok tt ∧ steps n m s s') s →
  runs m k b → wp (do! a in b) (λ r s', r = Ok tt ∧ steps n k s s') s.
Proof.
  intros Ha Hb. apply wp_bind. eapply wp_mono; [apply Ha|]. intros r s1 [-> H1].
  eapply wp_mono; [apply Hb|]. intros r s2 [-> H2]. split; [done|]. by eapply bridge_trans.
Qed.
Lemma runs_each {A} (l : list A) (f : A → B unit) :
  (∀ a, runs 0 0 (f a)) → runs 0 0 (each l f).
Proof.
  intros Hf. induction l as [|a l IH]; cbn [each]; [by apply runs_pure|].
  by eapply runs_seq.
Qed.
Lemma runs_log n name : runs n n (log_event name).
Proof. intros s. apply wp_modify. split; [done|]. by eapply bridge_ordinary. Qed.
Lemma wp_open (Q : res bridge_error bool → bridge → Prop) s :
  Q (Ok (answer env (tick s)))
    (Bridge (disposables s) (closed s) (S (tick s)) (log s ++ [ReadyState (answer env (tick s))])) →
  wp (socketIsOpen env) Q s.
Proof. done. Qed.
Lemma wp_amount (Q : res bridge_error Z → bridge → Prop) s :
  Q (Ok (amount env (tick s)))
    (Bridge (disposables s) (closed s) (S (tick s))
      (log s ++ [BufferedAmount (amount env (tick s))])) →
  wp (bufferedAmount env) Q s.
Proof. done. Qed.
Lemma runs_open n m (k : bool → B unit) : (∀ b, runs n m (k b)) →
  runs n m (let! b := socketIsOpen env in k b).
Proof.
  intros Hk s. apply wp_bind, wp_open. eapply wp_mono; [apply Hk|]. intros r s2 [-> H2].
  split; [done|]. eapply bridge_trans; [|done]. by eapply bridge_ordinary.
Qed.

(** * Calls, given what runs during them *)
Section nested.
Variable nested : list action → B unit.
Hypothesis nested_runs : ∀ l, runs 0 0 (nested l).

Lemma nested_frame n l : runs n n (nested l).
Proof. apply (runs_frame n 0 0), nested_runs. Qed.
(** The bridge after a call was recorded. *)
Definition called (e : event) (s : bridge) : bridge :=
  Bridge (disposables s) (closed s) (S (tick s)) (log s ++ [e]).
Lemma wp_call_then n e s :
  wp (call env nested e) (λ _ s', steps n n (called e s) s') s.
Proof.
  unfold call. apply wp_bind, wp_modify, wp_bind. unfold next_tick at 1, wp at 1.
  cbn [fst snd tick disposables closed log]. apply wp_bind. eapply wp_mono; [apply (nested_frame n)|].
  intros r s1 [-> H1]. wp_go; apply H1.
Qed.
Lemma wp_calling n m e s : steps n m s (called e s) →
  wp (call env nested e) (λ _ s', steps n m s s') s.
Proof.
  intros H. eapply wp_mono; [apply (wp_call_then m)|]. intros r s' H'. by eapply bridge_trans.
Qed.
Lemma call_goes n e : ordinary e = true → goes n n (call env nested e).
Proof. intros He s. apply wp_calling. by eapply bridge_ordinary. Qed.
Lemma runs_guarded n e name : ordinary e = true →
  runs n n (guarded (call env nested e) name).
Proof.
  intros He. eapply runs_catch; [by apply call_goes| |done]. intros _. apply runs_log.
Qed.
Lemma runs_activity n : runs n n (markActivity o env nested).
Proof. unfold markActivity. destruct has_onActivity; [by apply runs_guarded|by apply runs_pure]. Qed.

(** The kill from a bridge just closed, and then the rest. *)
Definition killed (s s' : bridge) : Prop := closed s' = true ∧ ∃ l1 l2,
  log s' = log s ++ l1 ++ PtyKill :: l2 ∧ quiet l1 ∧ quiet l2 ∧
  flow 0 (l1 ++ PtyKill :: l2) 0 ∧ sends_ok (l1 ++ PtyKill :: l2) ∧
  Forall event_ok (l1 ++ PtyKill :: l2).
Lemma killed_steps s s' : closed s = false → killed s s' → steps 0 0 s s'.
Proof.
  intros Hc (Hc' & l1 & l2 & Hl & Q1 & Q2 & ?). exists (l1 ++ PtyKill :: l2).
  split_and!; [done| |naive_solver..]. rewrite Hc, Hc'. exists l1, l2. auto using quiet_kills.
Qed.
Lemma kill_steps s s1 s2 s3 : closed s1 = true → log s1 = log s → steps 0 0 s1 s2 →
  steps 0 0 (called PtyKill s2) s3 →
  killed s s3.
Proof.
  intros Hc Hl H1 H2. pose proof (closed_stays _ _ _ _ H1 Hc) as Hc2.
  split; [by apply (closed_stays _ _ _ _ H2)|].
  unfold called in H2. destruct H1 as (a & Ha & La & Ba & Sa & Ea), H2 as (b & Hb & Lb & Bb & Sb & Eb).
  cbn [log closed] in *. rewrite Hc, Hc2 in La. exists a, b.
  assert (closed s3 = true) as Hc3 by (rewrite Hc2 in Lb; by destruct (closed s3)).
  rewrite Hc2, Hc3 in Lb. split_and!; [|done|done| | |].
  - by rewrite Hb, Ha, Hl, <-!(assoc_L (++)).
  - eapply flow_app; [done|]. eapply flow_cons; [|done]. cbn. lia.
  - apply sends_ok_app; [done|]. apply (sends_ok_app [PtyKill]); [|done].
    apply sends_ok_plain. by constructor.
  - apply Forall_app; split; [done|by constructor].
Qed.

Lemma wp_guarded n m e name s : steps n m s (called e s) →
  wp (guarded (call env nested e) name) (λ r s', r = Ok tt ∧ steps n m s s') s.
Proof.
  intros H. apply wp_catch. eapply wp_mono; [by apply wp_calling|]. intros [[]|er] s1 H1; [done|].
  eapply wp_mono; [apply (runs_log m)|]. intros r s2 [-> H2]. split; [done|]. by eapply bridge_trans.
Qed.

(** * The methods *)

Lemma shutdown_kills code reason b s :
  wp (shutdown env nested code reason b) (λ r s', r = Ok tt ∧ closed s' = true ∧
    steps 0 0 s s' ∧ (closed s = false → killed s s')) s.
Proof.
  apply wp_bind, wp_gets. destruct (closed s) eqn:Hc; cbn [negb].
  { apply wp_ret. split_and!; [done..|by apply bridge_same|done]. }
  apply wp_bind, wp_modify, wp_bind, wp_gets, wp_bind. cbn [disposables].
  eapply wp_mono; [apply (runs_each _ (λ d, guarded (call env nested (Dispose d)) _))|].
  { intros d. by apply runs_guarded. }
  intros r s2 [-> H2]. apply wp_bind.
  eapply wp_mono; [apply (wp_catch (call env nested PtyKill) _ (λ r s', r = Ok tt ∧
    steps 0 0 (called PtyKill s2) s'))|].
  { eapply wp_mono; [apply (wp_call_then 0)|]. intros [[]|e] s3 H3; [done|].
    eapply wp_mono; [apply (runs_log 0)|]. intros r s4 [-> H4]. split; [done|].
    by eapply bridge_trans. }
  intros r s3 [-> H3].
  eapply wp_mono; [apply (runs_seq 0 0 0 _ _)|].
  { destruct b; [|by apply runs_pure]. apply runs_open. intros []; [|by apply runs_pure].
    eapply runs_seq; [by apply runs_guarded|]. apply runs_open.
    intros []; [by apply runs_guarded|by apply runs_pure]. }
  { apply runs_log. }
  intros r s4 [-> H4]. assert (killed s s4) as Hk.
  { eapply (kill_steps s (Bridge (disposables s) true (tick s) (log s))); [done..|].
    by eapply bridge_trans. }
  split_and!; [done|apply Hk|by apply killed_steps|done].
Qed.
Lemma runs_shutdown n code reason b : runs n n (shutdown env nested code reason b).
Proof.
  apply (runs_frame n 0 0). intros s. eapply wp_mono; [apply shutdown_kills|]. naive_solver.
Qed.
Lemma runs_failed n name code reason :
  runs n n (do! log_event name in shutdown env nested code reason true).
Proof. eapply runs_seq; [apply runs_log|apply runs_shutdown]. Qed.

(** A call to the terminal of an open bridge, with the shutdown when it fails. *)
Lemma runs_terminal n m e name code reason :
  event_ok e → is_kill e = false → (∀ d, e ≠ Send d) →
  (m + count is_write [e] <= n + count is_auth [e])%nat → (m <= n)%nat →
  runs n m (let! c := gets closed in
    if c : bool then ret tt
    else catch (call env nested e)
           (λ _, do! log_event name in shutdown env nested code reason true)).
Proof.
  intros He Hk Hs Hm Hn s. apply wp_bind, wp_gets. destruct (closed s) eqn:Hc; [by apply runs_pure|].
  apply wp_catch. eapply wp_mono; [apply (wp_calling n m)|].
  { eapply bridge_one; try done. by rewrite Hc. }
  intros [[]|er] s1 H1; [done|]. eapply wp_mono; [apply (runs_failed m)|].
  intros r s2 [-> H2]. split; [done|]. by eapply bridge_trans.
Qed.
Lemma runs_write d : byte_size d <= MAX_INPUT_BYTES → runs 1 0 (write env nested d).
Proof. intros Hd. apply runs_terminal; try done. cbn. lia. Qed.
Lemma runs_resize c r : MIN_COLS <= c <= MAX_COLS → MIN_ROWS <= r <= MAX_ROWS →
  runs 0 0 (resize env nested c r).
Proof. intros Hc Hr. by apply runs_terminal. Qed.

Lemma authenticateInput_spec s :
  wp (authenticateInput env nested) (λ r s', ∃ b : bool, r = Ok b ∧
    steps 0 (if b then 1 else 0)%nat s s') s.
Proof.
  unfold authenticateInput. apply wp_bind. unfold next_tick at 1, wp at 1. cbn [fst snd].
  apply wp_bind. eapply wp_mono; [apply nested_runs|]. intros r s1 [-> H1].
  apply wp_bind, wp_modify. apply (bridge_trans 0 0 0 s) in H1; [|by apply bridge_same].
  destruct (negb _ && _) eqn:Ha.
  - apply wp_ret. exists true. split; [done|]. eapply bridge_trans; [done|].
    eapply bridge_one; try done; cbn; lia.
  - apply wp_bind. eapply wp_mono; [apply (runs_shutdown 0)|]. intros r s2 [-> H2]. apply wp_ret.
    exists false. split; [done|]. eapply bridge_trans; [done|]. eapply bridge_trans; [|done].
    eapply bridge_one; try done; cbn; lia.
Qed.

Lemma runs_message data isBinary : runs 0 0 (handleMessage o env nested data isBinary).
Proof.
  intros s. apply wp_bind, wp_gets. destruct (closed s); [by apply runs_pure|].
  destruct (parseClientMessage data isBinary) as [m|code] eqn:Hp.
  - apply parseClientMessage_ok in Hp as [_ Hm]. case_match.
    { apply (runs_seq 0 0 0); [|apply runs_shutdown]. intros s1. apply wp_modify.
      split; [done|]. by eapply bridge_ordinary. }
    destruct m as [sid d|sid c r].
    + apply wp_bind. eapply wp_mono; [apply authenticateInput_spec|].
      intros r s1 ([] & -> & H1); cbn [negb].
      * eapply wp_mono; [apply (runs_seq 1 1 0); [apply runs_activity|apply runs_write, Hm]|].
        intros r s2 [-> H2]. split; [done|]. by eapply bridge_trans.
      * by apply wp_ret.
    + destruct Hm as (_ & ? & ?). apply (runs_seq 0 0 0); [apply runs_activity|by apply runs_resize].
  - apply (runs_seq 0 0 0); [|apply runs_shutdown]. intros s1. apply wp_modify.
    split; [done|]. by eapply bridge_ordinary.
Qed.

(** The three events of an accepted message. *)
Lemma bridge_send s s' n m : closed s' = closed s → n + byte_size m < limit o →
  log s' = log s ++ [ReadyState true; BufferedAmount n; Send m] → steps 0 0 s s'.
Proof.
  intros Hc Hn Hl. exists [ReadyState true; BufferedAmount n; Send m]. rewrite Hc.
  split_and!; [done| |by apply flow_plain; repeat constructor| |by repeat constructor].
  - by destruct (closed s); [repeat constructor|].
  - intros l1 m' l2 Heq. destruct l1 as [|? [|? [|? l1]]]; try done; cbn in Heq; simplify_eq.
    + by exists [], n.
    + by destruct l1.
Qed.
(** Sending when there is room, [refuse] otherwise. *)
Lemma runs_send m (refuse : B unit) (h : bridge_error → B unit) :
  runs 0 0 refuse → (∀ e, runs 0 0 (h e)) →
  runs 0 0 (let! open := socketIsOpen env in
    if negb open then ret tt
    else let! n := bufferedAmount env in
      if limit o <=? n + byte_size m then refuse else catch (call env nested (Send m)) h).
Proof.
  intros Hr Hh s. apply wp_bind, wp_open. destruct (answer env (tick s)) eqn:Ha; cbn [negb].
  2: { apply wp_ret. split; [done|]. by eapply bridge_ordinary. }
  apply wp_bind, wp_amount. cbn [tick log disposables closed]. destruct (limit o <=? _) eqn:Hl.
  - eapply wp_mono; [apply Hr|]. intros r s2 [-> H2]. split; [done|]. eapply bridge_trans; [|done].
    eapply (bridge_trans 0 0 0 s (called (ReadyState true) s)); by eapply bridge_ordinary.
  - apply Z.leb_gt in Hl. apply wp_catch. eapply wp_mono; [apply (wp_call_then 0)|].
    intros r s2 H2. apply (bridge_trans 0 0 0 s) in H2.
    2: { eapply bridge_send; [done|exact Hl|]. cbn. by rewrite <-!(assoc_L (++)). }
    destruct r as [[]|e]; [done|]. eapply wp_mono; [apply Hh|]. intros r s3 [-> H3].
    split; [done|]. by eapply bridge_trans.
Qed.

Lemma runs_open_bridge (k : B unit) : runs 0 0 k →
  runs 0 0 (let! c := gets closed in if c : bool then ret tt else k).
Proof. intros Hk s. apply wp_bind, wp_gets. destruct (closed s); [by apply runs_pure|apply Hk]. Qed.
Lemma runs_output data : runs 0 0 (handleOutput o env nested data).
Proof.
  apply runs_open_bridge. eapply runs_seq; [apply runs_activity|].
  apply (runs_send _ (let! _ := bufferedAmount env in do! log_event (js "terminal_backpressure") in
    shutdown env nested 4002 (js "terminal_backpressure") true)).
  - intros s. apply wp_bind, wp_amount. eapply wp_mono; [apply (runs_failed 0)|].
    intros r s1 [-> H1]. split; [done|]. eapply bridge_trans; [|done]. by eapply bridge_ordinary.
  - intros e. apply runs_failed.
Qed.
Lemma runs_lifecycle_error : runs 0 0 (sendLifecycleError o env nested).
Proof.
  apply runs_open_bridge. apply (runs_send _ (ret tt)); [by apply runs_pure|].
  intros e. apply runs_log.
Qed.
Lemma runs_act a : runs 0 0 (act o env nested a).
Proof.
  destruct a; cbn [act].
  - apply runs_message.
  - apply runs_output.
  - apply runs_open_bridge. eapply runs_seq; [apply runs_log|].
    eapply runs_seq; [apply runs_lifecycle_error|apply runs_shutdown].
  - apply runs_shutdown.
  - apply runs_open_bridge. eapply runs_seq; [apply runs_log|apply runs_shutdown].
  - apply runs_shutdown.
Qed.

(** ** The ends of a bridge *)

(** Actions that leave no bridge open. *)
Definition ends (a : action) : bool :=
  match a with
  | AMessage data isBinary =>
      match parseClientMessage data isBinary with
      | Rejected _ => true
      | Parsed m => negb (bool_decide (message_session m = sessionId o))
      end
  | AOutput _ => false
  | AExit | ASocketClosed | ASocketError | AClose _ _ => true
  end.
Lemma closes_shutdown code reason b s :
  wp (shutdown env nested code reason b) (λ _ s', closed s' = true) s.
Proof. eapply wp_mono; [apply shutdown_kills|]. naive_solver. Qed.
Lemma closes_after n (m : B unit) code reason b : runs n n m → ∀ s,
  wp (do! m in shutdown env nested code reason b) (λ _ s', closed s' = true) s.
Proof.
  intros Hm s. apply wp_bind. eapply wp_mono; [apply Hm|]. intros r s1 [-> _]. apply closes_shutdown.
Qed.
Lemma closes_record e code reason b s :
  wp (do! record e in shutdown env nested code reason b) (λ _ s', closed s' = true) s.
Proof. apply wp_bind, wp_modify, closes_shutdown. Qed.
Lemma ends_closes a s : ends a = true → wp (act o env nested a) (λ _ s', closed s' = true) s.
Proof.
  destruct a; cbn [ends act]; intros Ha; try done; try apply closes_shutdown.
  - apply wp_bind, wp_gets. destruct (closed s) eqn:Hc; [done|].
    destruct (parseClientMessage _ _); [rewrite Ha|]; apply closes_record.
  - apply wp_bind, wp_gets. destruct (closed s) eqn:Hc; [done|].
    apply wp_bind, wp_modify. apply (closes_after 0), runs_lifecycle_error.
  - apply wp_bind, wp_gets. destruct (closed s) eqn:Hc; [done|]. apply closes_record.
Qed.

(** ** Construction *)

Lemma subscribe_goes k : goes 0 0 (subscribe env nested k).
Proof.
  intros s. apply wp_bind. eapply wp_mono; [by apply (call_goes 0)|]. intros [[]|e] s1 H1; [|done].
  apply wp_modify. eapply bridge_trans; [done|]. by apply bridge_same.
Qed.
Lemma subscribes_goes l : goes 0 0 (each l (subscribe env nested)).
Proof.
  induction l as [|k l IH]; [by apply runs_goes, runs_pure|]. intros s. apply wp_bind.
  eapply wp_mono; [apply subscribe_goes|]. intros [[]|e] s1 H1; [|done].
  eapply wp_mono; [apply IH|]. intros r s2 H2. by eapply bridge_trans.
Qed.
Definition valid_options : bool :=
  isSessionId (sessionId o) && match maxBufferedBytes o with Some n => 0 <? n | None => false end.
Lemma construct_spec s : wp (construct o env nested) (λ r s',
  if valid_options then
    steps 0 0 s s' ∧ (r = Ok tt ∨ r = Throw SetupFailed ∧ closed s' = true)
  else s' = s ∧ (r = Throw InvalidSession ∨ r = Throw InvalidBufferLimit)) s.
Proof.
  unfold construct, valid_options. apply wp_bind. destruct (isSessionId _); cbn [negb andb];
    [apply wp_ret|by apply wp_throw; auto].
  destruct (maxBufferedBytes o) as [n|]; [|by apply wp_throw; auto].
  rewrite Z.leb_antisym. apply wp_bind. destruct (0 <? n); cbn [negb]; [|by apply wp_throw; auto].
  apply wp_ret, wp_bind, wp_catch. eapply wp_mono; [apply subscribes_goes|]. intros [[]|e] s1 H1.
  - eapply wp_mono; [apply (runs_log 0)|]. intros r s2 [-> H2]. split; [|by left].
    by eapply bridge_trans.
  - apply wp_bind. eapply wp_mono; [apply (runs_log 0)|]. intros r s2 [-> H2]. apply wp_bind.
    eapply wp_mono; [apply shutdown_kills|]. intros r s3 (-> & Hc & H3 & _). apply wp_throw.
    split; [|by right]. eapply bridge_trans; [|done]. by eapply bridge_trans.
Qed.
End nested.

Lemma runs_perform fuel a : runs 0 0 (perform o env fuel a).
Proof.
  revert a. induction fuel as [|f IH]; intros a; cbn [perform]; [by apply runs_pure|].
  apply runs_act. intros l. by apply runs_each.
Qed.
Lemma runs_nested fuel l : runs 0 0 (nested_at o env fuel l).
Proof. apply runs_each, runs_perform. Qed.

Lemma run_spec fuel acts : wp (do! construct o env (nested_at o env fuel) in
    each acts (perform o env fuel)) (λ r s',
  if valid_options then
    steps 0 0 (Bridge [] false 0 []) s' ∧ (r = Ok tt ∨ r = Throw SetupFailed ∧ closed s' = true)
  else s' = Bridge [] false 0 [] ∧ (r = Throw InvalidSession ∨ r = Throw InvalidBufferLimit))
  (Bridge [] false 0 []).
Proof.
  apply wp_bind. eapply wp_mono; [apply construct_spec, runs_nested|]. intros r s1 H1.
  destruct valid_options.
  - destruct H1 as [H1 [-> | [-> Hc]]]; [|auto].
    eapply wp_mono; [apply runs_each, runs_perform|]. intros r s2 [-> H2].
    split; [by eapply bridge_trans|auto].
  - destruct H1 as [-> [-> | ->]]; auto.
Qed.
End facts.


(** A session whose terminal fails while a message is being handled. *)
Definition sample_options : TerminalBridgeOptions :=
  {| sessionId := sample_session; maxBufferedBytes := Some 4096; has_onActivity := true |}.
(** The second write fails; the terminal exits and the socket closes during
    the [kill] that follows. *)
Definition sample_environment : environment :=
  {| throws := λ t, (t =? 10)%nat; answer := λ _, true; amount := λ _, 0;
     reenter := λ t, if (t =? 16)%nat then [AExit; ASocketClosed] else [] |}.
Definition sample_actions : list action :=
  let text := FString (stringify (client_json sample_input)) in
  [AMessage text false; AMessage text false; AOutput (js "ok"); AMessage (FString []) false].

Example sample_run :
  let '(r, s) := run sample_options sample_environment 3 sample_actions in
  (r, closed s, count is_write (log s), count is_auth (log s), count is_kill (log s)) =
  (Ok tt, true, 2, 2, 1)%nat ∧ List.filter (λ e, match e with Log _ _ => true | _ => false end) (log s) =
    (λ n, Log (js n) None) <$>
      ["terminal_opened"; "terminal_write_failed"; "terminal_closed"]%string.
Proof. vm_compute. done. Qed.

