(* ===== verification/Fs.v ===== *)
(** The [node:fs/promises] calls of the stores, on an explicit file system.

    Every call consumes one tick of an [environment], which fixes, for each
    tick, whether the call fails and with which code, how many bytes a read
    or a write reports, what a failed write leaves behind, and the identifiers and times
    that [randomUUID] and [now] return.  A theorem that quantifies over the
    environment covers every failure pattern.  A call that succeeds has its
    documented effect on [nodes]. *)
From S2P Require Import Prelude.
Open Scope Z_scope.

Inductive errcode := ENOENT | EEXIST | ELOOP | EINVAL | ENOTSUP | ENOSYS | EIO.
#[export] Instance errcode_eq_dec : EqDecision errcode.
Proof. solve_decision. Defined.

Inductive kind := KFile | KDirectory | KOther.
#[export] Instance kind_eq_dec : EqDecision kind.
Proof. solve_decision. Defined.

(** An entry of the file system; [KOther] covers symbolic links, which
    [O_NOFOLLOW] refuses to open. *)
Record node := Node { nkind : kind; uid : Z; mode : Z; content : list Z }.

Record environment := {
  fails : nat → option errcode;
  chunk : nat → Z;
  garbage : nat → list Z;
  uuid : nat → jsstr;
  now_iso : nat → jsstr;
}.

Record world := World { nodes : gmap jsstr node; tick : nat; env : environment }.

(** A handle remembers its path; [hpos] is the file position. *)
Record fhandle := Handle { hpath : jsstr }.

Record fstat := { st_kind : kind; st_uid : Z; st_mode : Z; st_size : Z }.

Definition set_nodes (n : gmap jsstr node) (w : world) : world :=
  World n (tick w) (env w).
Definition advance (w : world) : world := World (nodes w) (S (tick w)) (env w).

Section fs.
Context {S E : Type} (getw : S → world) (setw : world → S → S)
  (fs_error : errcode → E).

(** One call: consumes a tick, fails as the environment says, and otherwise
    runs [f] on the world. *)
Definition fs_call {A} (on_fail : nat → world → world)
    (f : nat → world → res errcode A * world) : M S E A := λ s,
  let w := getw s in
  let t := tick w in
  let w' := advance w in
  match fails (env w) t with
  | Some c => (Throw (fs_error c), setw (on_fail t w') s)
  | None =>
      match f t w' with
      | (Ok a, w'') => (Ok a, setw w'' s)
      | (Throw c, w'') => (Throw (fs_error c), setw w'' s)
      end
  end.

Definition keep (_ : nat) (w : world) : world := w.

Definition mkdir (path : jsstr) : M S E unit :=
  fs_call keep (λ _ w, (Ok tt,
    match nodes w !! path with
    | Some _ => w
    | None => set_nodes (<[path := Node KDirectory 0 0x1ED []]> (nodes w)) w
    end)).

(** [open(path, O_RDONLY | O_NOFOLLOW)] and [open(dir, 'r')] *)
Definition open_read (path : jsstr) : M S E fhandle :=
  fs_call keep (λ _ w,
    match nodes w !! path with
    | None => (Throw ENOENT, w)
    | Some n => if decide (nkind n = KOther) then (Throw ELOOP, w)
                else (Ok (Handle path), w)
    end).

(** [open(path, O_RDONLY | O_NOFOLLOW | O_DIRECTORY)] *)
Definition open_directory (path : jsstr) : M S E fhandle :=
  fs_call keep (λ _ w,
    match nodes w !! path with
    | None => (Throw ENOENT, w)
    | Some n => match nkind n with
                | KDirectory => (Ok (Handle path), w)
                | KOther => (Throw ELOOP, w)
                | KFile => (Throw EIO, w)
                end
    end).

(** [open(path, 'wx', mode)]: creates the file, [EEXIST] when it exists. *)
Definition open_exclusive (u m : Z) (path : jsstr) : M S E fhandle :=
  fs_call keep (λ _ w,
    match nodes w !! path with
    | Some _ => (Throw EEXIST, w)
    | None => (Ok (Handle path),
               set_nodes (<[path := Node KFile u m []]> (nodes w)) w)
    end).

Definition stat_of (n : node) : fstat :=
  {| st_kind := nkind n; st_uid := uid n; st_mode := mode n;
     st_size := Z.of_nat (length (content n)) |}.

Definition handle_stat (h : fhandle) : M S E fstat :=
  fs_call keep (λ _ w,
    match nodes w !! hpath h with
    | Some n => (Ok (stat_of n), w)
    | None => (Throw EIO, w)
    end).

Definition lstat (path : jsstr) : M S E fstat :=
  fs_call keep (λ _ w,
    match nodes w !! path with
    | Some n => (Ok (stat_of n), w)
    | None => (Throw ENOENT, w)
    end).

(** A count that a device reports for a request of [length] bytes of which it
    has [rest]: a negative [chunk] stands for a device that misbehaves, with a
    count below zero or above [length]. *)
Definition reported (c length rest : Z) : Z :=
  if c <? 0 then (if Z.even c then c else length - c) else Z.min c (Z.min length rest).

(** [read(buffer, offset, length, position)]: the count it reports and the
    bytes it stores. *)
Definition handle_read (h : fhandle) (position length : Z)
    : M S E (Z * list Z) :=
  fs_call keep (λ t w,
    match nodes w !! hpath h with
    | Some n =>
        let rest := drop (Z.to_nat position) (content n) in
        let k := reported (chunk (env w) t) length (Z.of_nat (List.length rest)) in
        (Ok (k, take (Z.to_nat k) rest), w)
    | None => (Throw EIO, w)
    end).

Definition set_content (path : jsstr) (f : list Z → list Z) (w : world) : world :=
  set_nodes
    (alter (λ n, Node (nkind n) (uid n) (mode n) (f (content n))) path (nodes w)) w.

(** [writeFile(data)]; a failed write leaves arbitrary bytes. *)
Definition handle_writeFile (h : fhandle) (data : list Z) : M S E unit :=
  fs_call (λ t w, set_content (hpath h) (λ _, garbage (env w) t) w)
    (λ _ w, (Ok tt, set_content (hpath h) (λ _, data) w)).

(** [write(buffer, offset, length, null)] of [data], the bytes at [offset], at
    the end of a file that this handle alone writes; a failed or misbehaving
    write leaves arbitrary bytes. *)
Definition handle_write (h : fhandle) (data : list Z) : M S E Z :=
  fs_call (λ t w, set_content (hpath h) (λ c, c ++ garbage (env w) t) w)
    (λ t w,
      let length := Z.of_nat (List.length data) in
      let k := reported (chunk (env w) t) length length in
      (Ok k, set_content (hpath h)
               (λ c, c ++ if (0 <? k) && (k <=? length) then take (Z.to_nat k) data
                          else garbage (env w) t) w)).

Definition handle_chmod (h : fhandle) (m : Z) : M S E unit :=
  fs_call keep (λ _ w, (Ok tt,
    set_nodes (alter (λ n, Node (nkind n) (uid n) m (content n)) (hpath h) (nodes w)) w)).

Definition handle_sync (h : fhandle) : M S E unit :=
  fs_call keep (λ _ w, (Ok tt, w)).
Definition handle_close (h : fhandle) : M S E unit :=
  fs_call keep (λ _ w, (Ok tt, w)).

(** [rename(from, to)] atomically replaces [to]. *)
Definition rename (from to : jsstr) : M S E unit :=
  fs_call keep (λ _ w,
    match nodes w !! from with
    | Some n => (Ok tt, set_nodes (<[to := n]> (delete from (nodes w))) w)
    | None => (Throw ENOENT, w)
    end).

Definition unlink (path : jsstr) : M S E unit :=
  fs_call keep (λ _ w,
    match nodes w !! path with
    | Some _ => (Ok tt, set_nodes (delete path (nodes w)) w)
    | None => (Throw ENOENT, w)
    end).

(** [readdir(dir)]: the names directly under [dir ++ "/"]. *)
Fixpoint strip_prefix (p s : jsstr) : option jsstr :=
  match p, s with
  | [], _ => Some s
  | a :: p', b :: s' => if decide (a = b) then strip_prefix p' s' else None
  | _ :: _, [] => None
  end.
Definition child_name (dir path : jsstr) : option jsstr :=
  n ← strip_prefix (dir ++ [47]) path;
  if bool_decide (47 ∈ n) then None else Some n.
Definition readdir (dir : jsstr) : M S E (list jsstr) :=
  fs_call keep (λ _ w, (Ok (omap (child_name dir) (map_to_list (nodes w)).*1), w)).

(** [randomUUID()] and [now()]; the calls do not fail. *)
Definition randomUUID : M S E jsstr := λ s,
  let w := getw s in (Ok (uuid (env w) (tick w)), setw (advance w) s).
Definition now : M S E jsstr := λ s,
  let w := getw s in (Ok (now_iso (env w) (tick w)), setw (advance w) s).
End fs.

(** [join(dir, name)] of [node:path], for a directory without a trailing slash
    and a plain file name. *)
Definition path_join (dir name : jsstr) : jsstr := dir ++ [47] ++ name.
