(* ===== verification/TabStore.v ===== *)
(** [apps/server/src/tab-store.ts]: the class [TabStore].

    Mutations run one after another ([enqueue] chains them on one promise), so
    an operation is a function from the store state to the store state; the
    state is [document], [ready] and the file system.  Each operation either
    commits (the primary file and [document] both hold the next document) or
    throws with [document] unchanged. *)
From S2P Require Import Prelude SafeString Tabs Json Fs.
Open Scope Z_scope.

Inductive TabStoreErrorCode :=
| not_initialized | already_initialized | tab_not_found | session_limit
| order_conflict
| schema_error       (** a [ZodError] of [displayNameSchema] or the document *)
| invalid_document   (** 'Invalid tab store document' *)
| too_large          (** 'Tab store document exceeds size limit' *)
| no_temp            (** 'Unable to allocate tab store temporary file' *)
| fs_error (c : errcode).
#[export] Instance TabStoreErrorCode_eq_dec : EqDecision TabStoreErrorCode.
Proof. solve_decision. Defined.

Record TabStoreOptions := { dataDir : jsstr; sessionMaxCount : Z }.

Record state := State {
  document : option PersistedTabsDocument;
  ready : bool;
  degraded_events : nat;  (** [onDurabilityEvent] notifications sent *)
  fs_world : world;
}.

Definition set_document (d : option PersistedTabsDocument) (s : state) : state :=
  State d (ready s) (degraded_events s) (fs_world s).
Definition set_ready (b : bool) (s : state) : state :=
  State (document s) b (degraded_events s) (fs_world s).
Definition emit_degraded (s : state) : state :=
  State (document s) (ready s) (S (degraded_events s)) (fs_world s).
Definition set_world (w : world) (s : state) : state :=
  State (document s) (ready s) (degraded_events s) w.

Abbreviation TM := (M state TabStoreErrorCode).
Abbreviation fsop f := (f fs_world set_world fs_error).
Abbreviation envop f := (f fs_world set_world).

Definition MAX_DOCUMENT_BYTES : Z := 64 * 1024.
Definition PRIMARY_FILENAME : jsstr := js "tabs.json".
Arguments PRIMARY_FILENAME : simpl never.

Definition desiredState_string (d : DesiredState) : jsstr :=
  match d with active => js "active" | stopped => js "stopped" end.

(** The value that [JSON.stringify(next)] prints, in schema key order. *)
Definition json_of_tab (t : TabRecord) : json :=
  JObj [(js "id", JStr (tab_id t)); (js "displayName", JStr (displayName t));
        (js "position", JNum (position t)); (js "createdAt", JStr (createdAt t));
        (js "lastActivityAt", JStr (lastActivityAt t));
        (js "desiredState", JStr (desiredState_string (desiredState t)))].
Definition json_of_document (d : PersistedTabsDocument) : json :=
  JObj [(js "formatVersion", JNum TAB_DOCUMENT_FORMAT_VERSION);
        (js "structureRevision", JNum (structureRevision d));
        (js "tabs", JArr (map json_of_tab (tabs d)))].

(** [`${JSON.stringify(next)}\n`] *)
Definition serialize (d : PersistedTabsDocument) : jsstr :=
  stringify (json_of_document d) ++ [10].

Definition desiredState_of_json (v : json) : option DesiredState :=
  s ← as_string v;
  if decide (s = js "active") then Some active
  else if decide (s = js "stopped") then Some stopped else None.

Definition tab_of_json (v : json) : option TabRecord :=
  fs ← strict_object [js "id"; js "displayName"; js "position"; js "createdAt";
                      js "lastActivityAt"; js "desiredState"] v;
  i ← field (js "id") fs ≫= as_string;
  n ← field (js "displayName") fs ≫= as_string;
  p ← field (js "position") fs ≫= as_int;
  c ← field (js "createdAt") fs ≫= as_string;
  l ← field (js "lastActivityAt") fs ≫= as_string;
  d ← field (js "desiredState") fs ≫= desiredState_of_json;
  Some {| tab_id := i; displayName := n; position := p; createdAt := c;
          lastActivityAt := l; desiredState := d |}.

Definition document_of_json (v : json) : option PersistedTabsDocument :=
  fs ← strict_object [js "formatVersion"; js "structureRevision"; js "tabs"] v;
  f ← field (js "formatVersion") fs ≫= as_int;
  r ← field (js "structureRevision") fs ≫= as_int;
  l ← field (js "tabs") fs ≫= as_array;
  ts ← mapM tab_of_json l;
  if f =? TAB_DOCUMENT_FORMAT_VERSION
  then Some {| structureRevision := r; tabs := ts |} else None.

(** [TEMP_FILENAME_PATTERN] *)
Definition temp_filename (name : jsstr) : bool :=
  match strip_prefix (js "tabs.json.tmp.") name with
  | Some rest => isSessionId rest
  | None => false
  end.

Section store.
Context `{Platform}.
(** [JSON.parse] after [TextDecoder('utf-8', { fatal: true }).decode]. *)
Context (decode_json : list Z → option json).
Context (o : TabStoreOptions).

Definition primaryPath : jsstr := path_join (dataDir o) PRIMARY_FILENAME.

Definition requireDocument : TM PersistedTabsDocument :=
  let! d := gets document in of_option d not_initialized.

Definition parse (d : PersistedTabsDocument) : TM PersistedTabsDocument :=
  of_option (parseDocument d) schema_error.

Definition structuralDocument (current : PersistedTabsDocument)
    (ts : list TabRecord) : TM PersistedTabsDocument :=
  parse {| structureRevision := structureRevision current + 1; tabs := ts |}.

Definition find_tab (d : PersistedTabsDocument) (id : jsstr) : option TabRecord :=
  snd <$> list_find (λ t, tab_id t = id) (tabs d).

Definition requireTab (d : PersistedTabsDocument) (id : jsstr) : TM TabRecord :=
  of_option (find_tab d id) tab_not_found.

(** ** [persist] *)

(** The eight attempts at an unused temporary name. *)
Fixpoint open_temp (attempts : nat) : TM (option (fhandle * jsstr)) :=
  match attempts with
  | O => ret None
  | S n =>
      let! u := envop randomUUID in
      let tempPath :=
        path_join (dataDir o) (PRIMARY_FILENAME ++ js ".tmp." ++ u) in
      let! r := attempt (fsop open_exclusive 0 0x180 tempPath) in
      match r with
      | Ok h => ret (Some (h, tempPath))
      | Throw e => if decide (e = fs_error EEXIST) then open_temp n else throw e
      end
  end.

Definition ignore (m : TM unit) : TM unit := catch m (λ _, ret tt).

(** [syncDirectory]: the sync failure wins over the close failure. *)
Definition syncDirectory : TM unit :=
  let! h := fsop open_read (dataDir o) in
  let! r1 := attempt (fsop handle_sync h) in
  let! r2 := attempt (fsop handle_close h) in
  match r1, r2 with
  | Throw e, _ => throw e
  | Ok _, Throw e => throw e
  | Ok _, Ok _ => ret tt
  end.

Definition isUnsupportedDirectorySync (e : TabStoreErrorCode) : bool :=
  match e with
  | fs_error c => bool_decide (c ∈ [EINVAL; ENOTSUP; ENOSYS])
  | _ => false
  end.

(** Writes the temporary file [h] and renames it over the primary. *)
Definition commit_temp (next : PersistedTabsDocument) (h : fhandle)
    (tempPath : jsstr) : TM unit :=
  catch
    (do! catch
           (do! fsop handle_writeFile h (utf8_encode (serialize next)) in
            do! fsop handle_sync h in
            fsop handle_close h)
           (λ e, do! ignore (fsop handle_close h) in throw e) in
     do! fsop rename tempPath primaryPath in
     modify (set_document (Some next)))
    (λ e, do! ignore (fsop unlink tempPath) in throw e).

Definition finish_durability : TM unit :=
  catch
    (do! syncDirectory in modify (set_ready true))
    (λ e,
       if isUnsupportedDirectorySync e then modify (set_ready true)
       else do! modify (set_ready false) in modify emit_degraded).

Definition persist (candidate : PersistedTabsDocument) : TM unit :=
  let! next := parse candidate in
  do! throw_if
        (MAX_DOCUMENT_BYTES <? Z.of_nat (length (utf8_encode (serialize next))))
        too_large in
  let! t := open_temp 8 in
  let! '(h, tempPath) := of_option t no_temp in
  do! commit_temp next h tempPath in
  finish_durability.

(** ** [readPrimary], [initialize] *)

(** The read loop; [fuel] bounds the number of reads, each of which makes
    progress. *)
Fixpoint read_loop (fuel : nat) (h : fhandle) (limit : Z) (acc : list Z)
    : TM (list Z) :=
  match fuel with
  | O => ret acc
  | S n =>
      let offset := Z.of_nat (length acc) in
      if limit <=? offset then ret acc
      else
        let! '(bytesRead, bytes) := fsop handle_read h offset (limit - offset) in
        if bytesRead =? 0 then ret acc
        else if (bytesRead <? 0) || (limit - offset <? bytesRead)
        then throw invalid_document
        else read_loop n h limit (acc ++ bytes)
  end.

Definition read_bytes (h : fhandle) : TM (list Z) :=
  let! st := fsop handle_stat h in
  do! throw_if (negb (bool_decide (st_kind st = KFile)) ||
                (MAX_DOCUMENT_BYTES <? st_size st)) invalid_document in
  let! bytes := read_loop (Z.to_nat (MAX_DOCUMENT_BYTES + 2)) h
                  (MAX_DOCUMENT_BYTES + 1) [] in
  do! throw_if (MAX_DOCUMENT_BYTES <? Z.of_nat (length bytes)) invalid_document in
  ret bytes.

Definition decode_document (bytes : list Z) : option PersistedTabsDocument :=
  v ← decode_json bytes;
  d ← document_of_json v;
  parseDocument d.

Definition readPrimary : TM PersistedTabsDocument :=
  let! h := fsop open_read primaryPath in
  let! bytes := finally (read_bytes h) (fsop handle_close h) in
  match decode_document bytes with
  | Some d =>
      if Z.of_nat (length (tabs d)) <=? sessionMaxCount o
      then ret d else throw invalid_document
  | None => throw invalid_document
  end.

Definition cleanup_temp (name : jsstr) : TM unit :=
  let path := path_join (dataDir o) name in
  ignore
    (let! st := fsop lstat path in
     if bool_decide (st_kind st = KFile) then fsop unlink path else ret tt).

Fixpoint for_each {A} (l : list A) (f : A → TM unit) : TM unit :=
  match l with
  | [] => ret tt
  | a :: l' => do! f a in for_each l' f
  end.

Definition cleanupTemps : TM unit :=
  let! r := attempt (fsop readdir (dataDir o)) in
  match r with
  | Throw _ => ret tt
  | Ok names => for_each (List.filter temp_filename names) cleanup_temp
  end.

Definition initialize : TM unit :=
  let! d := gets document in
  do! throw_if (match d with Some _ => true | None => false end)
        already_initialized in
  do! fsop mkdir (dataDir o) in
  let! found := catch
    (let! p := readPrimary in do! modify (set_ready true) in ret p)
    (λ e,
       if decide (e = fs_error ENOENT) then
         let! p := parse {| structureRevision := 0; tabs := [] |} in
         do! persist p in ret p
       else throw e) in
  (* [this.document ??= document] *)
  do! modify (λ s, match document s with
                   | Some _ => s | None => set_document (Some found) s end) in
  cleanupTemps.

(** ** Queries *)

Definition snapshot : TM PersistedTabsDocument := requireDocument.
Definition has (id : jsstr) : TM bool :=
  let! d := requireDocument in ret (existsb (λ t, bool_decide (tab_id t = id)) (tabs d)).
Definition durabilityReady (s : state) : bool := ready s.

(** ** Mutations *)

(** [mutate]: [build] yields the next document and the read of the result,
    or nothing to do. *)
Definition mutate {A} (none : A)
    (build : PersistedTabsDocument → TM (option (PersistedTabsDocument * TM A)))
    : TM A :=
  let! current := requireDocument in
  let! m := build current in
  match m with
  | None => ret none
  | Some (next, result) => do! persist next in result
  end.

Definition read_tab (id : jsstr) : TM (option TabRecord) :=
  let! d := requireDocument in
  let! t := requireTab d id in ret (Some t).

Definition new_tab (id name : jsstr) (pos : Z) (timestamp : jsstr) : TabRecord :=
  {| tab_id := id; displayName := name; position := pos;
     createdAt := timestamp; lastActivityAt := timestamp;
     desiredState := active |}.

Definition create (name : option jsstr) : TM (option TabRecord) :=
  mutate None (λ current,
    let n := Z.of_nat (length (tabs current)) in
    do! throw_if (sessionMaxCount o <=? n) session_limit in
    let! timestamp := envop now in
    let! id := envop randomUUID in
    let! displayName := match name with
      | None => ret (js "Terminal " ++ number_to_string (n + 1))
      | Some v => of_option (displayNameSchema v) schema_error
      end in
    let tab := new_tab id displayName n timestamp in
    let! next := structuralDocument current (tabs current ++ [tab]) in
    ret (Some (next, read_tab id))).

Definition ensureInitialTab : TM (option TabRecord) :=
  mutate None (λ current,
    match tabs current with
    | _ :: _ => ret None
    | [] =>
        do! throw_if (sessionMaxCount o <=? 0) session_limit in
        let! timestamp := envop now in
        let! id := envop randomUUID in
        let tab := new_tab id (js "Terminal 1") 0 timestamp in
        let! next := structuralDocument current [tab] in
        ret (Some (next, read_tab id))
    end).

Definition update_tab (id : jsstr) (f : TabRecord → TabRecord) (t : TabRecord)
    : TabRecord := if decide (tab_id t = id) then f t else t.

Definition rename_tab (id name : jsstr) : TM (option TabRecord) :=
  mutate None (λ current,
    let! _t := requireTab current id in
    let! displayName := of_option (displayNameSchema name) schema_error in
    let! next := structuralDocument current
                   (map (update_tab id (with_displayName displayName)) (tabs current)) in
    ret (Some (next, read_tab id))).

Definition setDesiredState (id : jsstr) (d : DesiredState) : TM (option TabRecord) :=
  mutate None (λ current,
    let! _t := requireTab current id in
    let! next := structuralDocument current
                   (map (update_tab id (with_desiredState d)) (tabs current)) in
    ret (Some (next, read_tab id))).

(** The refusal condition of [reorder]; [new Set(ids).size] counts the
    distinct ids. *)
Definition reorder_conflict (revision : Z) (ids : list jsstr)
    (current : PersistedTabsDocument) : bool :=
  negb (revision =? structureRevision current) ||
  negb (length ids =? length (tabs current))%nat ||
  negb (size (list_to_set ids : gset jsstr) =? length (tabs current))%nat ||
  existsb (λ id, negb (existsb (λ t, bool_decide (tab_id t = id)) (tabs current))) ids.

(** [ids.map((id, position) => ({ ...byId.get(id)!, position }))] *)
Definition reordered (ids : list jsstr) (current : PersistedTabsDocument)
    : list TabRecord :=
  imap (λ k id, with_position (Z.of_nat k)
                  (default (new_tab id [] 0 []) (find_tab current id))) ids.

Definition reorder (revision : Z) (ids : list jsstr)
    : TM (option PersistedTabsDocument) :=
  mutate None (λ current,
    do! throw_if (reorder_conflict revision ids current) order_conflict in
    let! next := structuralDocument current (reordered ids current) in
    ret (Some (next, let! d := snapshot in ret (Some d)))).

Definition remove (id : jsstr) : TM unit :=
  mutate tt (λ current,
    let! _t := requireTab current id in
    let rest := filter (λ t, tab_id t ≠ id) (tabs current) in
    let! next := structuralDocument current
                   (imap (λ k t, with_position (Z.of_nat k) t) rest) in
    ret (Some (next, ret tt))).

Definition flushActivity (ids : gset jsstr) (at_ : jsstr) : TM unit :=
  mutate tt (λ current,
    if existsb (λ t, bool_decide (tab_id t ∈ ids)) (tabs current) then
      let! next := parse
        {| structureRevision := structureRevision current;
           tabs := map (λ t, if decide (tab_id t ∈ ids)
                             then with_lastActivityAt at_ t else t) (tabs current) |} in
      ret (Some (next, ret tt))
    else ret None).
End store.

(** * Proof rules for the file system calls *)

Definition disk (s : state) : gmap jsstr node := nodes (fs_world s).

(** [s'] differs from [s] at most in the ticks consumed. *)
Definition quiet (s s' : state) : Prop :=
  document s' = document s ∧ ready s' = ready s ∧
  degraded_events s' = degraded_events s ∧ disk s' = disk s ∧
  env (fs_world s') = env (fs_world s).

#[export] Instance quiet_preorder : PreOrder quiet.
Proof.
  split; [done|]. intros s1 s2 s3 (?&?&?&?&?) (?&?&?&?&?).
  unfold quiet. split_and!; congruence.
Qed.

Lemma quiet_document s s' : quiet s s' → document s' = document s.
Proof. by intros (?&_). Qed.
Lemma quiet_disk s s' : quiet s s' → disk s' = disk s.
Proof. by intros (_&_&_&?&_). Qed.

(** A call that changes no file is quiet, whatever it returns. *)
Lemma wp_fs_quiet {A} (f : nat → world → res errcode A * world)
    (Q : res TabStoreErrorCode A → state → Prop) s :
  (∀ t w, nodes (f t w).2 = nodes w ∧ env (f t w).2 = env w) →
  (∀ r s', quiet s s' →
     (∀ a, r = Ok a →
        ∃ t w, nodes w = disk s ∧ env w = env (fs_world s) ∧ (f t w).1 = Ok a) →
     Q r s') →
  wp (fsop fs_call keep f) Q s.
Proof.
  intros Hf HQ. unfold wp, fs_call.
  destruct (fails _ _); [by apply HQ|].
  specialize (Hf (tick (fs_world s)) (advance (fs_world s))).
  destruct (f _ _) as [[a|e] w] eqn:Hfw; destruct Hf as [Hn He]; simpl in *.
  - apply HQ; [done|]. intros a' [= <-].
    exists (tick (fs_world s)), (advance (fs_world s)). by rewrite Hfw.
  - by apply HQ.
Qed.

Lemma wp_fs_change {A} on_fail (f : nat → world → res errcode A * world)
    (Q : res TabStoreErrorCode A → state → Prop) s :
  (∀ c t w, quiet s (set_world w s) →
     Q (Throw (fs_error c)) (set_world (on_fail t w) s)) →
  (∀ t w, quiet s (set_world w s) →
     match f t w with
     | (Ok a, w') => Q (Ok a) (set_world w' s)
     | (Throw c, w') => Q (Throw (fs_error c)) (set_world w' s)
     end) →
  wp (fsop fs_call on_fail f) Q s.
Proof.
  intros H1 H2. unfold wp, fs_call. destruct (fails _ _); [by apply H1|].
  specialize (H2 (tick (fs_world s)) (advance (fs_world s))).
  destruct (f _ _) as [[a|e] w]; by apply H2.
Qed.

Ltac solve_fs_quiet :=
  apply wp_fs_quiet; [intros ? ?; by repeat case_match|]; eauto.

Section fs_rules.
Implicit Types (s : state).

Lemma wp_open_read p Q s :
  (∀ r s', quiet s s' → Q r s') → wp (fsop open_read p) Q s.
Proof. intros. solve_fs_quiet. Qed.
Lemma wp_handle_stat h Q s :
  (∀ r s', quiet s s' → Q r s') → wp (fsop handle_stat h) Q s.
Proof. intros. solve_fs_quiet. Qed.
Lemma wp_lstat p Q s :
  (∀ r s', quiet s s' → Q r s') → wp (fsop lstat p) Q s.
Proof. intros. solve_fs_quiet. Qed.
Lemma wp_handle_sync h Q s :
  (∀ r s', quiet s s' → Q r s') → wp (fsop handle_sync h) Q s.
Proof. intros. solve_fs_quiet. Qed.
Lemma wp_handle_close h Q s :
  (∀ r s', quiet s s' → Q r s') → wp (fsop handle_close h) Q s.
Proof. intros. solve_fs_quiet. Qed.
Lemma wp_handle_read h a b Q s :
  (∀ r s', quiet s s' → Q r s') → wp (fsop handle_read h a b) Q s.
Proof. intros. solve_fs_quiet. Qed.
Lemma wp_readdir p Q s :
  (∀ r s', quiet s s' → Q r s') → wp (fsop readdir p) Q s.
Proof. intros. solve_fs_quiet. Qed.
Lemma wp_randomUUID (Q : res TabStoreErrorCode jsstr → state → Prop) s :
  (∀ u s', quiet s s' → Q (Ok u) s') → wp (envop randomUUID) Q s.
Proof. intros HQ. by apply HQ. Qed.
Lemma wp_now (Q : res TabStoreErrorCode jsstr → state → Prop) s :
  (∀ u s', quiet s s' → Q (Ok u) s') → wp (envop now) Q s.
Proof. intros HQ. by apply HQ. Qed.
End fs_rules.

Create HintDb fs.
#[export] Hint Resolve wp_open_read wp_handle_stat wp_lstat wp_handle_sync
  wp_handle_close wp_handle_read wp_readdir wp_randomUUID wp_now : fs.

(** Steps through quiet calls, collecting the [quiet] facts. *)
Ltac tab_step :=
  first [wp_step|lazymatch goal with
  | |- wp (open_read _ _ _ _) _ _ => apply wp_open_read; intros ? ? ?; cbn beta iota
  | |- wp (handle_stat _ _ _ _) _ _ => apply wp_handle_stat; intros ? ? ?; cbn beta iota
  | |- wp (lstat _ _ _ _) _ _ => apply wp_lstat; intros ? ? ?; cbn beta iota
  | |- wp (handle_sync _ _ _ _) _ _ => apply wp_handle_sync; intros ? ? ?; cbn beta iota
  | |- wp (handle_close _ _ _ _) _ _ => apply wp_handle_close; intros ? ? ?; cbn beta iota
  | |- wp (handle_read _ _ _ _ _ _) _ _ => apply wp_handle_read; intros ? ? ?; cbn beta iota
  | |- wp (readdir _ _ _ _) _ _ => apply wp_readdir; intros ? ? ?; cbn beta iota
  | |- wp (randomUUID _ _) _ _ => apply wp_randomUUID; intros ? ? ?; cbn beta iota
  | |- wp (now _ _) _ _ => apply wp_now; intros ? ? ?; cbn beta iota
  | |- match ?r with _ => _ end => is_var r; destruct r
  | |- wp (match ?r with _ => _ end) _ _ => is_var r; destruct r
  end].
Ltac tab_go := repeat tab_step.

(** Chains the [quiet] facts of the context. *)
Ltac quiet_solve :=
  cbv beta in *;
  solve [ reflexivity | assumption
        | match goal with
          | H : quiet ?a ?b |- quiet ?a _ => apply (transitivity H); clear H; quiet_solve
          end ].
#[export] Hint Extern 2 (quiet _ _) => quiet_solve : fs.

(** * [persist] *)

Section persist_facts.
Context `{Platform} (decode_json : list Z → option json) (o : TabStoreOptions).
Implicit Types (s : state).

(** The outcome of a mutation: all of it or none of it. *)
Definition committed (s' : state) (d : PersistedTabsDocument) : Prop :=
  document s' = Some d ∧
  ∃ n, disk s' !! primaryPath o = Some n ∧ content n = utf8_encode (serialize d).
Definition rolled_back (s s' : state) : Prop :=
  document s' = document s ∧ disk s' !! primaryPath o = disk s !! primaryPath o.

#[export] Instance rolled_back_preorder : PreOrder rolled_back.
Proof. split; [done|]. intros s1 s2 s3 [??] [??]. split; congruence. Qed.
Lemma quiet_rolled_back s s' : quiet s s' → rolled_back s s'.
Proof. intros (?&_&_&Hd&_). split; [done|]. by rewrite Hd. Qed.
Lemma quiet_committed s s' d : quiet s s' → committed s d → committed s' d.
Proof.
  intros (Hdoc&_&_&Hd&_) [? (n&?&?)]. split; [congruence|].
  exists n. by rewrite Hd.
Qed.

(** Only the file [p] differs. *)
Definition touches (p : jsstr) (s s' : state) : Prop :=
  document s' = document s ∧ ∀ q, q ≠ p → disk s' !! q = disk s !! q.

Lemma quiet_touches p s s' : quiet s s' → touches p s s'.
Proof. intros (?&_&_&Hd&_). split; [done|]. intros q _. by rewrite Hd. Qed.
Lemma touches_rolled_back p s0 s s' :
  p ≠ primaryPath o → touches p s s' → rolled_back s0 s → rolled_back s0 s'.
Proof. intros Hp [? Hq] [??]. split; [congruence|]. rewrite Hq; congruence. Qed.

Lemma wp_unlink p Q s :
  (∀ r s', touches p s s' → Q r s') → wp (fsop unlink p) Q s.
Proof.
  intros HQ. apply wp_fs_change; unfold keep.
  - intros c t w Hw. apply HQ. by apply quiet_touches.
  - intros t w (Hd&_&_&Hk&_). unfold disk in *. simpl in *.
    destruct (nodes w !! p); cbn beta iota; apply HQ; (split; [done|]);
      intros q ?; unfold disk; simpl; rewrite ?lookup_delete_ne by done;
      by rewrite Hk.
Qed.

Lemma wp_writeFile h data Q s :
  (∀ r s', touches (hpath h) s s' →
     (∀ u n, r = Ok u → disk s !! hpath h = Some n →
        ∃ n', disk s' !! hpath h = Some n' ∧ content n' = data) → Q r s') →
  wp (fsop handle_writeFile h data) Q s.
Proof.
  intros HQ. apply wp_fs_change.
  - intros c t w (Hd&_&_&Hk&_). apply HQ; [|done]. split; [done|].
    intros q Hq. unfold disk in *. simpl in *. rewrite lookup_alter_ne by done.
    by rewrite Hk.
  - intros t w (Hd&_&_&Hk&_). unfold disk in *. simpl in *. apply HQ.
    + split; [done|]. intros q Hq. unfold disk. simpl.
      rewrite lookup_alter_ne by done. by rewrite Hk.
    + intros u n _ Hn. unfold disk. simpl. rewrite lookup_alter_eq, Hk, Hn.
      by eexists.
Qed.

Lemma wp_rename from to Q s :
  (∀ e s', quiet s s' → Q (Throw e) s') →
  (∀ n s', disk s !! from = Some n → document s' = document s →
     disk s' = <[to := n]> (delete from (disk s)) → Q (Ok tt) s') →
  wp (fsop rename from to) Q s.
Proof.
  intros HQ1 HQ2. apply wp_fs_change; unfold keep.
  - intros c t w Hw. by apply HQ1.
  - intros t w Hw. destruct (nodes w !! from) as [n|] eqn:Hn; cbn beta iota.
    + destruct Hw as (Hd&_&_&Hk&_). unfold disk in *. simpl in *.
      apply (HQ2 n); unfold disk; simpl; congruence.
    + by apply HQ1.
Qed.

Lemma wp_ignore m Q s :
  wp m (λ _ s', Q (Ok tt) s') s → wp (ignore m) Q s.
Proof.
  intros Hm. unfold ignore. wp_step. eapply wp_mono; [exact Hm|].
  intros [[]|e] s' ?; [done|by wp_step].
Qed.

Lemma temp_ne_primary u :
  path_join (dataDir o) (PRIMARY_FILENAME ++ js ".tmp." ++ u) ≠ primaryPath o.
Proof.
  unfold primaryPath, path_join. intros Heq%(inj _). apply (inj _) in Heq.
  apply (f_equal length) in Heq. rewrite !length_app in Heq.
  assert (length (js ".tmp.") = 5%nat) by reflexivity. lia.
Qed.

Definition temp_opened (s s' : state) (h : fhandle) (p : jsstr) : Prop :=
  p ≠ primaryPath o ∧ hpath h = p ∧ document s' = document s ∧
  disk s' = <[p := Node KFile 0 0x180 []]> (disk s).

Definition temp_post (s : state)
    (r : res TabStoreErrorCode (option (fhandle * jsstr))) (s' : state) : Prop :=
  match r with
  | Ok (Some (h, p)) => temp_opened s s' h p
  | _ => quiet s s'
  end.

Lemma temp_post_quiet s1 s2 r s : quiet s1 s2 → temp_post s2 r s → temp_post s1 r s.
Proof.
  intros Hq. destruct r as [[[h p]|]|e]; simpl; [|by etrans|by etrans].
  intros (?&?&Hd&Hk). split_and!; try done.
  - rewrite Hd. by apply quiet_document.
  - rewrite Hk. by rewrite (quiet_disk _ _ Hq).
Qed.

Lemma temp_opened_intro s s' w p :
  quiet s s' → quiet s' (set_world w s') → p ≠ primaryPath o →
  temp_opened s (set_world (set_nodes (<[p := Node KFile 0 0x180 []]> (nodes w)) w) s')
    (Handle p) p.
Proof.
  intros (Hd&_&_&Hk&_) (_&_&_&Hw&_) Hp. unfold disk in *. simpl in *.
  split_and!; try done. unfold disk. simpl. congruence.
Qed.

Lemma wp_open_temp n s : wp (open_temp o n) (temp_post s) s.
Proof.
  revert s. induction n as [|n IH]; intros s; simpl; [by wp_step|].
  tab_go. unfold open_exclusive. apply wp_fs_change; unfold keep.
  - intros c t w Hw. tab_go; [|simpl; by etrans].
    eapply wp_mono; [apply IH|]. intros r s2. apply temp_post_quiet. by etrans.
  - intros t w Hw. destruct (nodes w !! _); cbn beta iota; tab_go.
    + eapply wp_mono; [apply IH|]. intros r s2. apply temp_post_quiet. by etrans.
    + done.
    + apply temp_opened_intro; [done..|]. apply temp_ne_primary.
Qed.

(** All of the mutation, or none of it. *)
Definition atomic (s : state) (next : PersistedTabsDocument) {A}
    (r : res TabStoreErrorCode A) (s' : state) : Prop :=
  match r with
  | Ok _ => committed s' next
  | Throw _ => rolled_back s s'
  end.

Lemma wp_commit_temp next h p s0 s :
  temp_opened s0 s h p → wp (commit_temp o next h p) (atomic s0 next) s.
Proof.
  intros (Hne & <- & Hdoc & Hdisk).
  assert (rolled_back s0 s) as Hrb.
  { split; [done|]. by rewrite Hdisk, lookup_insert_ne. }
  assert (is_Some (disk s !! hpath h)) as [n Hl].
  { rewrite Hdisk, lookup_insert_eq. by eexists. }
  clear Hdisk Hdoc. unfold commit_temp. do 4 wp_step.
  apply wp_writeFile. intros r s1 Ht Hok.
  assert (rolled_back s0 s1) as Hrb1 by (by eapply touches_rolled_back).
  assert (∀ s2 s3, quiet s1 s2 → touches (hpath h) s2 s3 → rolled_back s0 s3)
    as Hroll.
  { intros s2 s3 Hq Ht3. eapply touches_rolled_back; [done..|].
    etrans; [done|]. by apply quiet_rolled_back. }
  clear Ht Hrb Hrb1.
  destruct r as [u|e]; tab_go;
    try (apply wp_ignore; tab_go;
         apply wp_ignore, wp_unlink; intros; tab_go;
         eapply Hroll; [|eassumption]; quiet_solve).
  destruct (Hok u n eq_refl Hl) as (n' & Hn' & Hc).
  assert (quiet s1 s'0) as Hq by quiet_solve.
  apply wp_rename.
  - intros e s2 Hq2. tab_go. apply wp_ignore, wp_unlink; intros; tab_go.
    eapply Hroll; [|eassumption]; quiet_solve.
  - intros m s2 Hm Hd Hk. tab_go. split; [done|]. exists m. split.
    + unfold set_document, disk in *. simpl. by rewrite Hk, lookup_insert_eq.
    + rewrite (quiet_disk _ _ Hq) in Hm. congruence.
Qed.

Lemma wp_finish_durability s :
  wp (finish_durability o)
     (λ r s', r = Ok tt ∧ document s' = document s ∧ disk s' = disk s) s.
Proof.
  unfold finish_durability, syncDirectory. wp_step. wp_step.
  eapply wp_mono.
  { instantiate (1 := λ _ s', quiet s s'). tab_go; quiet_solve. }
  intros [[]|e] s' Hq; tab_go.
  all: split_and!; [done|exact (quiet_document _ _ Hq)|exact (quiet_disk _ _ Hq)].
Qed.

Lemma wp_parse d (Q : res TabStoreErrorCode PersistedTabsDocument → state → Prop) s :
  (∀ d', parseDocument d = Some d' → Q (Ok d') s) →
  (parseDocument d = None → Q (Throw schema_error) s) → wp (parse d) Q s.
Proof. intros. by apply wp_of_option. Qed.

(** [persist] commits the parsed candidate or changes nothing. *)
Lemma wp_persist candidate s :
  wp (persist o candidate)
     (λ r s', match r with
              | Ok _ => ∃ d, parseDocument candidate = Some d ∧ committed s' d
              | Throw _ => rolled_back s s'
              end) s.
Proof.
  unfold persist. wp_step. apply wp_parse; [|done]. intros d Hd. tab_go; [done|].
  eapply wp_mono; [apply wp_open_temp|]. intros [[[h p]|]|e] s1; simpl.
  - intros Hopen. tab_go; simplify_eq.
    eapply wp_mono; [by apply wp_commit_temp|]. intros [[]|e] s2 Hc; [|done].
    eapply wp_mono; [apply wp_finish_durability|].
    intros r s3 (-> & Hdoc & Hk). exists d. split; [done|]. destruct Hc as [? (n&?&?)].
    split; [congruence|]. exists n. by rewrite Hk.
  - intros Hq. tab_go; simplify_eq. by apply quiet_rolled_back.
  - apply quiet_rolled_back.
Qed.
End persist_facts.
