(* ===== verification/TabStoreFacts.v ===== *)
(** Theorems about the operations of [TabStore]. *)
From S2P Require Import Prelude SafeString Tabs Json Fs TabStore.
Open Scope Z_scope.

(** * Documents up to re-normalised names *)

Definition erase_name (t : TabRecord) : TabRecord := with_displayName [] t.
(** The record without its name and position. *)
Definition core (t : TabRecord) : TabRecord := with_position 0 (erase_name t).

Section document_facts.
Context `{Platform}.
Implicit Types (d cur : PersistedTabsDocument) (ts : list TabRecord).

Lemma parse_erase ts us :
  mapM tabRecordSchema ts = Some us → erase_name <$> us = erase_name <$> ts.
Proof.
  intros Hm%mapM_Some_1. induction Hm as [|t u ts us Ht Hm IH]; [done|].
  rewrite !fmap_cons, IH. f_equal.
  apply tabRecordSchema_Some in Ht as (n & _ & -> & _). done.
Qed.

Lemma parseDocument_shape d d' :
  parseDocument d = Some d' →
  structureRevision d' = structureRevision d ∧
  erase_name <$> tabs d' = erase_name <$> tabs d ∧ document_ok d'.
Proof.
  intros Hp. pose proof (parseDocument_ok _ _ Hp).
  apply parseDocument_Some in Hp as (Hr & Hm & _).
  split_and!; [done|by apply parse_erase|done].
Qed.

Lemma erase_ids ts us :
  erase_name <$> ts = erase_name <$> us → tab_id <$> ts = tab_id <$> us.
Proof.
  intros Heq. apply (f_equal (fmap tab_id)) in Heq.
  by rewrite <-!list_fmap_compose in Heq.
Qed.
Lemma erase_length ts us :
  erase_name <$> ts = erase_name <$> us → length ts = length us.
Proof. intros Heq%(f_equal length). by rewrite !length_fmap in Heq. Qed.

Lemma find_tab_Some d id t :
  find_tab d id = Some t → t ∈ tabs d ∧ tab_id t = id.
Proof.
  unfold find_tab. intros ([i u] & Hf & ->)%fmap_Some_1.
  apply list_find_Some in Hf as (Hl & Hid & _).
  split; [by eapply list_elem_of_lookup_2|done].
Qed.
Lemma find_tab_is_Some d id :
  is_Some (find_tab d id) ↔ id ∈ tab_id <$> tabs d.
Proof.
  split.
  - intros [t [Hin <-]%find_tab_Some]. apply list_elem_of_fmap. eauto.
  - intros (t & -> & Hin)%list_elem_of_fmap. unfold find_tab.
    apply fmap_is_Some. by eapply list_find_elem_of.
Qed.
Lemma find_tab_None d id : find_tab d id = None ↔ id ∉ tab_id <$> tabs d.
Proof. rewrite <-find_tab_is_Some, eq_None_not_Some. done. Qed.

Lemma find_tab_unique d t :
  NoDup (tab_id <$> tabs d) → t ∈ tabs d → find_tab d (tab_id t) = Some t.
Proof.
  intros Hnd Hin.
  destruct (find_tab d (tab_id t)) as [u|] eqn:Hf.
  - apply find_tab_Some in Hf as [Hu Hid]. f_equal.
    apply list_elem_of_lookup in Hin as [i Hi].
    apply list_elem_of_lookup in Hu as [j Hj].
    assert (i = j) as ->; [|congruence].
    apply (NoDup_lookup (tab_id <$> tabs d) i j (tab_id t)); [done| |];
      rewrite list_lookup_fmap; [rewrite Hi|rewrite Hj]; simpl; congruence.
  - apply find_tab_None in Hf. destruct Hf. apply list_elem_of_fmap. eauto.
Qed.

Lemma size_list_to_set_NoDup (l : list jsstr) :
  size (list_to_set l : gset jsstr) = length l ↔ NoDup l.
Proof.
  split; [|apply size_list_to_set].
  induction l as [|x l IH]; intros Hs; [constructor|].
  assert (size (list_to_set l : gset jsstr) ≤ length l)%nat as Hle.
  { clear. induction l as [|y l IH]; [done|]. simpl.
    pose proof (size_union_alt {[y]} (list_to_set l : gset jsstr)) as Hsz.
    rewrite size_singleton in Hsz.
    pose proof (subseteq_size (list_to_set l ∖ {[y]}) (list_to_set l : gset jsstr)).
    simpl in *. specialize (H ltac:(set_solver)). lia. }
  simpl in Hs. destruct (decide (x ∈ l)) as [Hx|Hx].
  - rewrite subseteq_union_1_L in Hs by set_solver. lia.
  - rewrite size_union in Hs by set_solver. rewrite size_singleton in Hs.
    constructor; [done|]. apply IH. lia.
Qed.

Lemma reorder_conflict_false rev ids cur :
  NoDup (tab_id <$> tabs cur) →
  reorder_conflict rev ids cur = false ↔
  rev = structureRevision cur ∧ ids ≡ₚ tab_id <$> tabs cur.
Proof.
  intros Hnd. unfold reorder_conflict. rewrite !orb_false_iff, !negb_false_iff,
    Z.eqb_eq, !Nat.eqb_eq.
  assert (existsb (λ id, negb (existsb (λ t, bool_decide (tab_id t = id)) (tabs cur))) ids
          = false ↔ ∀ id, id ∈ ids → id ∈ tab_id <$> tabs cur) as ->.
  { rewrite <-not_true_iff_false, existsb_exists. split.
    - intros Hn id Hid. destruct (decide (id ∈ tab_id <$> tabs cur)); [done|].
      destruct Hn. exists id. split; [by apply list_elem_of_In|].
      apply negb_true_iff, not_true_iff_false. intros (t & Ht & Hb)%existsb_exists.
      apply bool_decide_eq_true in Hb as <-.
      apply list_elem_of_In in Ht. set_solver.
    - intros Hall (id & Hid & Hn). apply negb_true_iff, not_true_iff_false in Hn.
      apply Hn, existsb_exists. apply list_elem_of_In, Hall in Hid.
      apply list_elem_of_fmap in Hid as (t & -> & Ht).
      exists t. split; [by apply list_elem_of_In|]. by apply bool_decide_eq_true. }
  split.
  - intros [[[Hr Hl] Hs] Hall]. split; [done|].
    rewrite <-Hl in Hs. apply size_list_to_set_NoDup in Hs.
    apply submseteq_length_Permutation; [by apply NoDup_submseteq|].
    rewrite length_fmap. lia.
  - intros [-> Hp]. pose proof (Permutation_length Hp) as Hl.
    rewrite length_fmap in Hl. split_and!; [done|done| |].
    + rewrite size_list_to_set; [done|]. by rewrite Hp.
    + intros id. by rewrite Hp.
Qed.
End document_facts.

(** * Operations *)

Section operations.
Context `{Platform} (o : TabStoreOptions).
Implicit Types (s : state) (d cur : PersistedTabsDocument).

(** What [build] must establish for [mutate] to end in [Q]. *)
Definition build_post {A} (none : A) (Q : res TabStoreErrorCode A → state → Prop)
    (r : res TabStoreErrorCode (option (PersistedTabsDocument * TM A)))
    (s1 : state) : Prop :=
  match r with
  | Throw e => Q (Throw e) s1
  | Ok None => Q (Ok none) s1
  | Ok (Some (next, result)) =>
      (∀ e s2, rolled_back o s1 s2 → Q (Throw e) s2) ∧
      (∀ d s2, parseDocument next = Some d → committed o s2 d → wp result Q s2)
  end.

Lemma wp_mutate {A} (none : A) build Q s :
  (document s = None → Q (Throw not_initialized) s) →
  (∀ cur, document s = Some cur → wp (build cur) (build_post none Q) s) →
  wp (mutate o none build) Q s.
Proof.
  intros Hnone Hbuild. unfold mutate, requireDocument. wp_go.
  - rename a into cur. eapply wp_mono; [by apply Hbuild|].
    intros [[[next result]|]|e] s1; cbn beta iota; [|done|done].
    intros [Hroll Hcom]. wp_step. eapply wp_mono; [apply wp_persist|].
    intros [u|e] s2; [|apply Hroll]. intros (d & Hp & Hc). by eapply Hcom.
  - by apply Hnone.
Qed.

Lemma wp_read_tab d id t (Q : res TabStoreErrorCode (option TabRecord) → state → Prop) s :
  document s = Some d → find_tab d id = Some t → Q (Ok (Some t)) s →
  wp (read_tab id) Q s.
Proof.
  intros Hd Hf HQ. unfold read_tab, requireDocument, requireTab.
  wp_go; simplify_eq; congruence.
Qed.

(** The outcome of an operation: committed with a good next document, or
    nothing has changed. *)
Definition op_post {A} (good : PersistedTabsDocument → A → PersistedTabsDocument → Prop)
    (idle : PersistedTabsDocument → A → Prop) s (r : res TabStoreErrorCode A) s' : Prop :=
  match r with
  | Throw _ => rolled_back o s s'
  | Ok a => ∃ cur, document s = Some cur ∧
      ((rolled_back o s s' ∧ idle cur a) ∨
       ∃ d, committed o s' d ∧ document_ok d ∧ good cur a d)
  end.

(** The documents that a structural change to the records [ts] yields. *)
Definition next_of cur (ts : list TabRecord) d : Prop :=
  structureRevision d = structureRevision cur + 1 ∧
  erase_name <$> tabs d = erase_name <$> ts.

(** A mutation that replaces the records by [f cur] after its guards. *)
Lemma op_post_throw {A} good idle s (e : TabStoreErrorCode) s' :
  quiet s s' → @op_post A good idle s (Throw e) s'.
Proof. apply quiet_rolled_back. Qed.

Lemma op_post_commit {A} good idle s cur (r : res TabStoreErrorCode A) s' d :
  document s = Some cur → document_ok d →
  match r with
  | Ok a => committed o s' d ∧ good cur a d
  | Throw _ => False
  end → op_post good idle s r s'.
Proof.
  intros Hcur Hok. destruct r as [a|e]; [|done]. intros [??].
  exists cur. split; [done|]. right. by exists d.
Qed.

(** The end of a mutation: the next document is parsed and handed to
    [persist], and its result is read. *)
Lemma wp_next {A} (none : A) cur x (result : TM A) good idle s0 s :
  document s0 = Some cur → quiet s0 s →
  (∀ d s2, committed o s2 d → document_ok d →
     structureRevision d = structureRevision x →
     erase_name <$> tabs d = erase_name <$> tabs x →
     wp result (λ r s3, match r with
                        | Ok a => committed o s3 d ∧ good cur a d
                        | Throw _ => False
                        end) s2) →
  wp (let! next := parse x in ret (Some (next, result)))
     (build_post none (op_post good idle s0)) s.
Proof.
  intros Hcur Hq Hres. wp_step. apply wp_parse; [|intros _; by apply op_post_throw].
  intros next Hnext. wp_step. split.
  - intros e s2 Hr. simpl. etrans; [|exact Hr]. by apply quiet_rolled_back.
  - intros d s2 Hd Hc.
    apply parseDocument_shape in Hnext as (Hr1 & He1 & _).
    apply parseDocument_shape in Hd as (Hr2 & He2 & Hok).
    eapply wp_mono; [apply (Hres d s2); [done|done|congruence..]|].
    intros r s3 Hr. by eapply op_post_commit.
Qed.

Lemma wp_structural {A} (none : A) cur ts (result : TM A) good idle s0 s :
  document s0 = Some cur → quiet s0 s →
  (∀ d s2, committed o s2 d → document_ok d → next_of cur ts d →
     wp result (λ r s3, match r with
                        | Ok a => committed o s3 d ∧ good cur a d
                        | Throw _ => False
                        end) s2) →
  wp (let! next := structuralDocument cur ts in ret (Some (next, result)))
     (build_post none (op_post good idle s0)) s.
Proof.
  intros Hcur Hq Hres. apply (wp_next none cur); [done..|].
  intros d s2 Hc Hok Hr He. by apply Hres.
Qed.

(** What [create] and [ensureInitialTab] promise about the new record. *)
Definition appended cur (a : option TabRecord) d : Prop :=
  ∃ t, a = Some t ∧ Z.of_nat (length (tabs cur)) < sessionMaxCount o ∧
    structureRevision d = structureRevision cur + 1 ∧
    erase_name <$> tabs d = (erase_name <$> tabs cur) ++ [erase_name t] ∧
    find_tab d (tab_id t) = Some t ∧ tab_id t ∉ tab_id <$> tabs cur ∧
    position t = Z.of_nat (length (tabs cur)) ∧ desiredState t = active ∧
    createdAt t = lastActivityAt t.

(** The read of a record whose erased form is known. *)
Lemma find_tab_next d id ts u :
  NoDup (tab_id <$> tabs d) → erase_name <$> tabs d = erase_name <$> ts →
  u ∈ ts → tab_id u = id →
  ∃ t, find_tab d id = Some t ∧ erase_name t = erase_name u.
Proof.
  intros Hnd He Hin <-.
  assert (erase_name u ∈ erase_name <$> tabs d) as Hu.
  { rewrite He. by apply list_elem_of_fmap_2. }
  apply list_elem_of_fmap in Hu as (t & Heq & Ht). exists t. split; [|done].
  replace (tab_id u) with (tab_id t); [by apply find_tab_unique|].
  apply (f_equal tab_id) in Heq. done.
Qed.

Lemma appended_result cur id name ts d :
  Z.of_nat (length (tabs cur)) < sessionMaxCount o → document_ok d →
  next_of cur (tabs cur ++ [new_tab id name (Z.of_nat (length (tabs cur))) ts]) d →
  ∃ t, find_tab d id = Some t ∧ appended cur (Some t) d.
Proof.
  intros Hlt (_ & Hnd & _) [Hr He].
  destruct (find_tab_next d id (tabs cur ++ [new_tab id name
    (Z.of_nat (length (tabs cur))) ts]) (new_tab id name
    (Z.of_nat (length (tabs cur))) ts)) as (t & Hf & Het); [done..|set_solver|done|].
  exists t. split; [done|]. exists t. pose proof (find_tab_Some _ _ _ Hf) as [Hin Hid].
  rewrite Hid. apply erase_ids in He as Hids.
  rewrite fmap_app in He. simpl in He. rewrite <-Het in He.
  split_and!; try done; try by apply (f_equal position) in Het.
  - rewrite Hids in Hnd. clear -Hnd.
    rewrite fmap_app in Hnd. apply NoDup_app in Hnd as (_ & Hd & _).
    intros Hin. apply (Hd id Hin). by left.
  - by apply (f_equal desiredState) in Het.
  - pose proof (f_equal createdAt Het). pose proof (f_equal lastActivityAt Het).
    simpl in *. congruence.
Qed.

Definition never {A} : PersistedTabsDocument → A → Prop := λ _ _, False.

Lemma wp_append cur id name ts s0 s :
  document s0 = Some cur → quiet s0 s →
  Z.of_nat (length (tabs cur)) < sessionMaxCount o →
  wp (let! next := structuralDocument cur (tabs cur ++
        [new_tab id name (Z.of_nat (length (tabs cur))) ts]) in
      ret (Some (next, read_tab id)))
     (build_post None (op_post appended never s0)) s.
Proof.
  intros Hcur Hq Hlt. apply wp_structural; [done..|].
  intros d s2 Hc Hok Hnext.
  destruct (appended_result cur id name ts d) as (t & Hf & Ha); [done..|].
  destruct Hc as [Hd Hk]. by eapply wp_read_tab.
Qed.

Lemma wp_create name s : wp (create o name) (op_post appended never s) s.
Proof.
  unfold create. apply wp_mutate; [intros; by apply op_post_throw|].
  intros cur Hcur. do 2 wp_step; [by apply op_post_throw|]. breflect.
  wp_step. apply wp_now. intros ts s1 Hq1. wp_step. apply wp_randomUUID.
  intros id s2 Hq2. wp_step. destruct name as [v|]; wp_step.
  - apply wp_append; [done|quiet_solve|done].
  - apply op_post_throw. quiet_solve.
  - apply wp_append; [done|quiet_solve|done].
Qed.

Lemma wp_ensureInitialTab s :
  wp (ensureInitialTab o)
     (op_post appended (λ cur a, a = None ∧ tabs cur ≠ []) s) s.
Proof.
  unfold ensureInitialTab. apply wp_mutate; [intros; by apply op_post_throw|].
  intros cur Hcur. destruct (tabs cur) as [|t ts] eqn:Hts.
  - do 2 wp_step; [by apply op_post_throw|]. breflect.
    wp_step. apply wp_now. intros w s1 Hq1. wp_step. apply wp_randomUUID.
    intros id s2 Hq2. apply wp_structural; [done|quiet_solve|].
    intros d s3 Hc Hok Hnext.
    destruct (appended_result cur id (js "Terminal 1") w d) as (t & Hf & Ha);
      rewrite ?Hts; [done..|].
    destruct Hc as [Hd Hk]. by eapply wp_read_tab.
  - wp_step. exists cur. split; [done|]. left. split; [done|]. by rewrite Hts.
Qed.

(** [f] commutes with forgetting names, so it survives re-normalisation. *)
Lemma erase_map (f : TabRecord → TabRecord) (ts : list TabRecord) :
  (∀ t, erase_name (f t) = f (erase_name t)) →
  erase_name <$> (f <$> ts) = f <$> (erase_name <$> ts).
Proof.
  intros Hf. rewrite <-!list_fmap_compose. apply list_fmap_ext. intros i t _. apply Hf.
Qed.

Lemma requireTab_in cur id t : find_tab cur id = Some t → id ∈ tab_id <$> tabs cur.
Proof. intros Hf. apply find_tab_is_Some. by eexists. Qed.

(** The record that [findTab] reads back after the records were mapped. *)
Lemma wp_read_mapped cur id f d s (good : option TabRecord → Prop) :
  committed o s d → document_ok d → next_of cur (f <$> tabs cur) d →
  (∀ t, tab_id (f t) = tab_id t) → id ∈ tab_id <$> tabs cur →
  (∀ t u, find_tab d id = Some t → u ∈ tabs cur → tab_id u = id →
     erase_name t = erase_name (f u) → good (Some t)) →
  wp (read_tab id) (λ r s3, match r with
                            | Ok a => committed o s3 d ∧ good a
                            | Throw _ => False
                            end) s.
Proof.
  intros Hc (_ & Hnd & _) [Hr He] Hf Hin Hgood.
  apply list_elem_of_fmap in Hin as (u & -> & Hu).
  destruct (find_tab_next d (tab_id u) (f <$> tabs cur) (f u)) as (t & Hft & Het);
    [done|done|by apply list_elem_of_fmap_2|done|].
  eapply wp_read_tab; [apply Hc|exact Hft|]. split; [done|]. by eapply Hgood.
Qed.

Definition renamed id name cur (a : option TabRecord) d : Prop :=
  is_Some (displayNameSchema name) ∧
  (∃ t, a = Some t ∧ tab_id t = id ∧ find_tab d id = Some t) ∧
  structureRevision d = structureRevision cur + 1 ∧
  erase_name <$> tabs d = erase_name <$> tabs cur.

Lemma wp_rename_tab id name s :
  wp (rename_tab o id name) (op_post (renamed id name) never s) s.
Proof.
  unfold rename_tab. apply wp_mutate; [intros; by apply op_post_throw|].
  intros cur Hcur. unfold requireTab.
  wp_step. wp_step; [|by apply op_post_throw].
  wp_step. wp_step; [|by apply op_post_throw].
  apply wp_structural; [done..|]. intros d s2 Hc Hok Hnext.
  change (map ?f ?l) with (f <$> l) in *.
  assert (erase_name <$> (update_tab id (with_displayName a0) <$> tabs cur) =
          erase_name <$> tabs cur) as Hname.
  { rewrite <-list_fmap_compose. apply list_fmap_ext. intros _ t _.
    unfold update_tab. simpl. by case_decide. }
  eapply (wp_read_mapped cur id); [done..| |by eapply requireTab_in|].
  - intros t. unfold update_tab. by case_decide.
  - intros t u Hf Hu Hid _. destruct Hnext as [Hr He]. rewrite Hname in He.
    split_and!; [by eexists| |done|done]. exists t. split; [done|].
    split; [by eapply find_tab_Some|done].
Qed.

Definition desired id st cur (a : option TabRecord) d : Prop :=
  (∃ t, a = Some t ∧ tab_id t = id ∧ desiredState t = st ∧ find_tab d id = Some t) ∧
  structureRevision d = structureRevision cur + 1 ∧
  erase_name <$> tabs d =
    update_tab id (with_desiredState st) <$> (erase_name <$> tabs cur).

Lemma wp_setDesiredState id st s :
  wp (setDesiredState o id st) (op_post (desired id st) never s) s.
Proof.
  unfold setDesiredState. apply wp_mutate; [intros; by apply op_post_throw|].
  intros cur Hcur. unfold requireTab.
  wp_step. wp_step; [|by apply op_post_throw].
  apply wp_structural; [done..|]. intros d s2 Hc Hok Hnext.
  change (map ?f ?l) with (f <$> l) in *.
  eapply (wp_read_mapped cur id); [done..| |by eapply requireTab_in|].
  - intros t. unfold update_tab. by case_decide.
  - intros t u Hf Hu Hid Het. destruct Hnext as [Hr He].
    rewrite erase_map in He by (intros v; unfold update_tab; simpl; by case_decide).
    split_and!; [|done|done]. exists t. split; [done|].
    split; [by eapply find_tab_Some|]. split; [|done].
    apply (f_equal desiredState) in Het. simpl in Het. rewrite Het.
    unfold update_tab. by rewrite decide_True.
Qed.

Definition reordered_to rev ids cur (a : option PersistedTabsDocument) d : Prop :=
  rev = structureRevision cur ∧ a = Some d ∧
  structureRevision d = structureRevision cur + 1 ∧
  tab_id <$> tabs d = ids ∧ core <$> tabs d ≡ₚ core <$> tabs cur.

Lemma reordered_ids ids cur :
  (∀ id, id ∈ ids → id ∈ tab_id <$> tabs cur) → tab_id <$> reordered ids cur = ids.
Proof.
  intros Hin. unfold reordered. rewrite fmap_imap.
  rewrite <-(list_fmap_id ids) at 2. rewrite <-imap_const.
  apply imap_ext. intros i id Hid. simpl.
  apply list_elem_of_lookup_2, Hin, find_tab_is_Some in Hid as [t Ht].
  rewrite Ht. by apply find_tab_Some in Ht as [_ ?].
Qed.

Lemma reordered_core ids cur :
  NoDup (tab_id <$> tabs cur) → ids ≡ₚ tab_id <$> tabs cur →
  core <$> reordered ids cur ≡ₚ core <$> tabs cur.
Proof.
  intros Hnd Hp.
  assert (core <$> reordered ids cur =
    (λ id, core (default (new_tab id [] 0 []) (find_tab cur id))) <$> ids) as ->.
  { unfold reordered. rewrite fmap_imap. rewrite <-imap_const.
    by apply imap_ext. }
  rewrite Hp, <-list_fmap_compose.
  match goal with |- ?a ≡ₚ ?b => assert (a = b) as ->; [|done] end.
  apply list_fmap_ext.
  intros i t Ht. simpl. rewrite find_tab_unique; [done|done|].
  by eapply list_elem_of_lookup_2.
Qed.

Lemma wp_reorder rev ids s :
  (∀ cur, document s = Some cur → document_ok cur) →
  wp (reorder o rev ids) (op_post (reordered_to rev ids) never s) s.
Proof.
  intros Hdok. unfold reorder. apply wp_mutate; [intros; by apply op_post_throw|].
  intros cur Hcur. destruct (Hdok cur Hcur) as (_ & Hnd & _).
  wp_step. wp_step; [by apply op_post_throw|].
  match goal with H : reorder_conflict _ _ _ = false |- _ =>
    apply reorder_conflict_false in H as [-> Hp]; [|done] end.
  apply wp_structural; [done..|]. intros d s2 Hc Hok [Hr He].
  unfold snapshot, requireDocument. destruct Hc as [Hd Hk].
  wp_go; simplify_eq. split; [done|]. split_and!; try done.
  - rewrite (erase_ids _ _ He). apply reordered_ids. intros id. by rewrite Hp.
  - rewrite <-(reordered_core ids cur) by done. apply (f_equal (fmap (with_position 0))) in He.
    rewrite <-!list_fmap_compose in He.
    change (with_position 0 ∘ erase_name) with core in He. by rewrite He.
Qed.

Definition removed id cur (_ : unit) d : Prop :=
  id ∈ tab_id <$> tabs cur ∧
  structureRevision d = structureRevision cur + 1 ∧
  core <$> tabs d = core <$> filter (λ t, tab_id t ≠ id) (tabs cur).

Lemma wp_remove id s : wp (remove o id) (op_post (removed id) never s) s.
Proof.
  unfold remove. apply wp_mutate; [intros; by apply op_post_throw|].
  intros cur Hcur. unfold requireTab.
  wp_step. wp_step; [|by apply op_post_throw].
  apply wp_structural; [done..|]. intros d s2 Hc Hok [Hr He].
  wp_step. split; [done|]. split_and!; [by eapply requireTab_in|done|].
  apply (f_equal (fmap (with_position 0))) in He. rewrite <-!list_fmap_compose in He.
  change (with_position 0 ∘ erase_name) with core in He. rewrite He.
  rewrite fmap_imap. rewrite <-imap_const. by apply imap_ext.
Qed.

Definition touch_tab (ids : gset jsstr) at_ (t : TabRecord) : TabRecord :=
  if decide (tab_id t ∈ ids) then with_lastActivityAt at_ t else t.
Definition flushed ids at_ cur (_ : unit) d : Prop :=
  structureRevision d = structureRevision cur ∧
  erase_name <$> tabs d = touch_tab ids at_ <$> (erase_name <$> tabs cur).

Lemma wp_flushActivity ids at_ s :
  wp (flushActivity o ids at_)
     (op_post (flushed ids at_) (λ cur _, ∀ t, t ∈ tabs cur → tab_id t ∉ ids) s) s.
Proof.
  unfold flushActivity. apply wp_mutate; [intros; by apply op_post_throw|].
  intros cur Hcur. wp_step.
  - apply (wp_next tt cur); [done..|]. intros d s2 Hc Hok Hr He. wp_step.
    split; [done|]. split; [done|]. simpl in He. change (map ?f ?l) with (f <$> l) in *.
    rewrite <-erase_map; [done|].
    intros t. unfold touch_tab. simpl. by case_decide.
  - wp_step. exists cur. split; [done|]. left. split; [done|].
    intros t Ht Hin.
    assert (existsb (λ t, bool_decide (tab_id t ∈ ids)) (tabs cur) = true)
      as Hex; [|congruence].
    apply existsb_exists. exists t. split; [by apply list_elem_of_In|].
    by apply bool_decide_eq_true.
Qed.

(** ** [initialize] *)

Lemma wp_read_loop fuel h limit acc s :
  wp (read_loop fuel h limit acc) (λ _ s', quiet s s') s.
Proof.
  revert acc s. induction fuel as [|n IH]; intros acc s; simpl; [by wp_step|].
  tab_go; try quiet_solve.
  eapply wp_mono; [apply IH|]. intros r s2 ?; simpl. quiet_solve.
Qed.

Lemma wp_read_bytes h s : wp (read_bytes h) (λ _ s', quiet s s') s.
Proof.
  unfold read_bytes. tab_go; try quiet_solve.
  eapply wp_mono; [apply wp_read_loop|]. intros r s2 Hq; simpl.
  destruct r; tab_go; quiet_solve.
Qed.

(** The bound that every stored document respects. *)
Definition within_limit d : Prop := Z.of_nat (length (tabs d)) <= sessionMaxCount o.

Definition read_post s (r : res TabStoreErrorCode PersistedTabsDocument) s' : Prop :=
  quiet s s' ∧ match r with Ok d => document_ok d ∧ within_limit d | Throw _ => True end.

Context (decode_json : list Z → option json).

Lemma wp_readPrimary s : wp (readPrimary decode_json o) (read_post s) s.
Proof.
  unfold readPrimary. wp_step. apply wp_open_read. intros [h|e] s1 Hq1; [|by split].
  wp_step. wp_step. eapply wp_mono; [apply wp_read_bytes|]. intros r s2 Hq2.
  apply wp_handle_close. intros [u|e] s3 Hq3; [|split; [quiet_solve|done]].
  destruct r as [bytes|e]; [|split; [quiet_solve|done]].
  unfold decode_document.
  destruct (decode_json bytes) as [v|]; simpl; [|split; [quiet_solve|done]].
  destruct (document_of_json v) as [d0|]; simpl; [|split; [quiet_solve|done]].
  destruct (parseDocument d0) as [d|] eqn:Hp; [|split; [quiet_solve|done]].
  wp_step; wp_step; (split; [quiet_solve|]); [|done].
  split; [by eapply parseDocument_ok|]. unfold within_limit. by breflect.
Qed.

(** The state is good: its document is valid and within the limit. *)
Definition store_ok s : Prop :=
  match document s with
  | Some d => document_ok d ∧ within_limit d
  | None => True
  end.

Lemma quiet_store_ok s s' : quiet s s' → store_ok s → store_ok s'.
Proof. intros Hq. unfold store_ok. by rewrite (quiet_document _ _ Hq). Qed.

Lemma wp_for_each {A} (l : list A) (f : A → TM unit) (P : state → Prop) s :
  (∀ a s, P s → wp (f a) (λ _ s', P s') s) → P s → wp (for_each l f) (λ _ s', P s') s.
Proof.
  intros Hf. revert s. induction l as [|a l IH]; intros s HP; simpl; [by wp_step|].
  wp_step. eapply wp_mono; [by apply Hf|]. intros [u|e] s' HP'; [by apply IH|done].
Qed.

Lemma wp_cleanupTemps s :
  wp (cleanupTemps o) (λ _ s', document s' = document s) s.
Proof.
  unfold cleanupTemps. wp_step. wp_step. apply wp_readdir. intros [names|e] s1 Hq;
    [|by wp_step; apply quiet_document].
  apply (wp_for_each _ _ (λ s', document s' = document s)); [|by apply quiet_document].
  intros name s2 Hs2. unfold cleanup_temp. apply wp_ignore. wp_step.
  apply wp_lstat. intros [st|e] s3 Hq3; [|by rewrite (quiet_document _ _ Hq3)].
  wp_step; [|by wp_step; rewrite (quiet_document _ _ Hq3)].
  apply wp_unlink. intros r s4 [Hd _]. rewrite Hd. by rewrite (quiet_document _ _ Hq3).
Qed.

Lemma wp_mkdir p s :
  wp (fsop mkdir p) (λ _ s', document s' = document s) s.
Proof. unfold mkdir. by apply wp_fs_change. Qed.

Lemma wp_initialize s :
  0 <= sessionMaxCount o → store_ok s →
  wp (initialize decode_json o) (λ _ s', store_ok s') s.
Proof.
  intros Hmax Hs. unfold initialize. do 2 wp_step.
  wp_step. wp_step; [done|]. wp_step. eapply wp_mono; [apply wp_mkdir|].
  intros r s1 Hd1. assert (document s1 = None) as Hnone.
  { rewrite Hd1. by destruct (document s). }
  destruct r as [u|e]; [|by unfold store_ok; rewrite Hnone].
  wp_step. wp_step. wp_step. eapply wp_mono; [apply wp_readPrimary|].
  assert (∀ d s2, document_ok d ∧ within_limit d →
    (document s2 = None ∨ document s2 = Some d ∨ store_ok s2) →
    wp (do! modify (λ s, match document s with
                   | Some _ => s | None => set_document (Some d) s end) in
        cleanupTemps o) (λ _ s', store_ok s') s2) as Hset.
  { intros d s2 Hd Hs2. wp_step. wp_step. eapply wp_mono; [apply wp_cleanupTemps|].
    intros r3 s3 Hs3.
    assert (document s3 = Some (default d (document s2))) as Hd3.
    { rewrite Hs3. by destruct (document s2) eqn:?. }
    unfold store_ok in *. rewrite Hd3. clear Hs3.
    destruct (document s2) as [d2|]; simpl; [|done].
    destruct Hs2 as [?|[?|?]]; by simplify_eq. }
  intros [d|e] s2 [Hq2 Hok]; cbn beta iota.
  - do 3 wp_step. apply Hset; [done|]. left. simpl.
    by rewrite (quiet_document _ _ Hq2).
  - assert (store_ok s2) as Hs2.
    { eapply quiet_store_ok; [exact Hq2|]. unfold store_ok. by rewrite Hnone. }
    wp_step; [|by wp_step]. wp_step. apply wp_parse; [|done].
    intros d Hd. assert (document_ok d ∧ within_limit d) as Hgood.
    { split; [by eapply parseDocument_ok|]. unfold within_limit.
      by rewrite (parseDocument_length _ _ Hd). }
    wp_step. eapply wp_mono; [apply wp_persist|]. intros [u'|e'] s3 Hs3; cbn beta iota.
    + wp_step. apply Hset; [done|]. right. right.
      destruct Hs3 as (d3 & Hd3 & [Hdoc _]). unfold store_ok. rewrite Hdoc.
      split; [by eapply parseDocument_ok|]. unfold within_limit.
      rewrite (parseDocument_length _ _ Hd3). apply Hgood.
    + destruct Hs3 as [Hdoc _]. unfold store_ok. rewrite Hdoc. exact Hs2.
Qed.

(** ** Sequences of operations *)

Inductive op :=
| Op_initialize
| Op_create (name : option jsstr)
| Op_ensureInitialTab
| Op_rename (id name : jsstr)
| Op_reorder (revision : Z) (ids : list jsstr)
| Op_setDesiredState (id : jsstr) (d : DesiredState)
| Op_remove (id : jsstr)
| Op_flushActivity (ids : gset jsstr) (at_ : jsstr).

Definition run_op (p : op) s : state :=
  match p with
  | Op_initialize => (initialize decode_json o s).2
  | Op_create n => (create o n s).2
  | Op_ensureInitialTab => (ensureInitialTab o s).2
  | Op_rename id n => (rename_tab o id n s).2
  | Op_reorder r ids => (reorder o r ids s).2
  | Op_setDesiredState id d => (setDesiredState o id d s).2
  | Op_remove id => (remove o id s).2
  | Op_flushActivity ids w => (flushActivity o ids w s).2
  end.

(** A new [TabStore] on an arbitrary file system. *)
Definition new_store (w : world) : state := State None false 0 w.

Lemma op_post_store_ok {A} good idle s (r : res TabStoreErrorCode A) s' :
  (∀ cur a d, good cur a d → within_limit cur → within_limit d) →
  op_post good idle s r s' → store_ok s → store_ok s'.
Proof.
  intros Hgood Hpost Hs. unfold store_ok in *. destruct r as [a|e]; simpl in Hpost.
  - destruct Hpost as (cur & Hcur & [[[Hd _] _]|(d & [Hd _] & Hok & Hg)]).
    + by rewrite Hd.
    + rewrite Hd. rewrite Hcur in Hs. split; [done|]. by eapply Hgood, Hs.
  - destruct Hpost as [Hd _]. by rewrite Hd.
Qed.

Lemma within_limit_erase cur d ts :
  erase_name <$> tabs d = ts → length ts = length (tabs cur) →
  within_limit cur → within_limit d.
Proof.
  intros He Hl. apply (f_equal length) in He. rewrite length_fmap in He.
  unfold within_limit. by rewrite He, Hl.
Qed.

Lemma run_op_store_ok p s :
  0 <= sessionMaxCount o → store_ok s → store_ok (run_op p s).
Proof.
  intros Hmax Hs.
  assert (∀ cur a d, appended cur a d → within_limit cur → within_limit d) as Happ.
  { intros cur a d (t & _ & Hlt & _ & He & _) _. unfold within_limit.
    apply (f_equal length) in He. rewrite length_app, !length_fmap in He.
    simpl in He. lia. }
  destruct p; simpl.
  - by apply (wp_run _ _ _ (wp_initialize s Hmax Hs)).
  - eapply op_post_store_ok; [exact Happ|apply (wp_run _ _ _ (wp_create name s))|done].
  - eapply op_post_store_ok; [exact Happ|apply (wp_run _ _ _ (wp_ensureInitialTab s))|done].
  - eapply op_post_store_ok; [|apply (wp_run _ _ _ (wp_rename_tab id name s))|done].
    intros cur a d (_ & _ & _ & He). eapply within_limit_erase; [exact He|].
    by rewrite length_fmap.
  - eapply op_post_store_ok;
      [|apply (wp_run _ _ _ (wp_reorder revision ids s ltac:(
          intros cur Hc; unfold store_ok in Hs; rewrite Hc in Hs; apply Hs)))|done].
    intros cur a d (_ & _ & _ & _ & Hp). unfold within_limit.
    apply Permutation_length in Hp. rewrite !length_fmap in Hp. by rewrite Hp.
  - eapply op_post_store_ok; [|apply (wp_run _ _ _ (wp_setDesiredState id d s))|done].
    intros cur a d' (_ & _ & He). eapply within_limit_erase; [exact He|].
    by rewrite !length_fmap.
  - eapply op_post_store_ok; [|apply (wp_run _ _ _ (wp_remove id s))|done].
    intros cur a d (_ & _ & He). unfold within_limit.
    apply (f_equal length) in He. rewrite !length_fmap in He. rewrite He.
    pose proof (length_filter (λ t, tab_id t ≠ id) (tabs cur)). lia.
  - eapply op_post_store_ok; [|apply (wp_run _ _ _ (wp_flushActivity ids at_ s))|done].
    intros cur a d (_ & He). eapply within_limit_erase; [exact He|].
    by rewrite !length_fmap.
Qed.
End operations.

(** * Theorems *)

Section theorems.
Context `{Platform} (decode_json : list Z → option json) (o : TabStoreOptions).

(** C16: whatever sequence of operations runs on a new [TabStore], over any
    file system behaviour, the document in memory has distinct, well-formed
    tab ids, positions equal to the array indices, a non-negative safe
    revision, and never more tabs than [sessionMaxCount]. *)
Theorem tab_store_invariant (ops : list op) (w : world) :
  0 <= sessionMaxCount o →
  ∀ d, document (foldl (λ s p, run_op o decode_json p s) (new_store w) ops) = Some d →
    NoDup (tab_id <$> tabs d) ∧
    (∀ k t, tabs d !! k = Some t → position t = Z.of_nat k) ∧
    (∀ t, t ∈ tabs d → isSessionId (tab_id t) = true) ∧
    0 <= structureRevision d <= MAX_SAFE_INTEGER ∧
    Z.of_nat (length (tabs d)) <= sessionMaxCount o.
Proof.
  intros Hmax.
  assert (store_ok o (foldl (λ s p, run_op o decode_json p s) (new_store w) ops)) as Hok.
  { assert (∀ s, store_ok o s → store_ok o (foldl (λ s p, run_op o decode_json p s) s ops))
      as Hgen; [|by apply Hgen].
    induction ops as [|p ops IH]; intros s Hs; [done|].
    apply IH. by apply run_op_store_ok. }
  intros d Hd. unfold store_ok in Hok. rewrite Hd in Hok.
  destruct Hok as [(Hr & Hnd & Hpos & Hids) Hl]. split_and!; try done.
  - intros k t Ht. rewrite (proj1 (positions_from_lookup _ _) Hpos k t Ht). lia.
  - intros t Ht. by apply (proj1 (Forall_forall _ _) Hids).
  - unfold nonnegative_int, is_safe_integer in Hr. by breflect.
  - unfold nonnegative_int, is_safe_integer in Hr. by breflect.
Qed.

(** [create] either throws and leaves the document and the primary file
    as they were, or the primary file holds the serialisation of the next
    document: the old records followed by one fresh active record at the
    last position, with the structure revision one higher. *)
Theorem create_appends (name : option jsstr) (s : state) :
  let (r, s') := create o name s in
  match r with
  | Throw _ =>
      document s' = document s ∧ disk s' !! primaryPath o = disk s !! primaryPath o
  | Ok None => False
  | Ok (Some t) => ∃ cur d,
      document s = Some cur ∧ document s' = Some d ∧
      (content <$> disk s' !! primaryPath o) = Some (utf8_encode (serialize d)) ∧
      structureRevision d = structureRevision cur + 1 ∧
      erase_name <$> tabs d = (erase_name <$> tabs cur) ++ [erase_name t] ∧
      tab_id t ∉ tab_id <$> tabs cur ∧
      position t = Z.of_nat (length (tabs cur)) ∧ desiredState t = active ∧
      Z.of_nat (length (tabs cur)) < sessionMaxCount o
  end.
Proof.
  pose proof (wp_run _ _ _ (wp_create o name s)) as Hc.
  destruct (create o name s) as [[a|e] s']; simpl in *; [|done].
  destruct Hc as (cur & Hcur & [[_ []]|(d & [Hd (n & Hn & Hk)] & _ & Ha)]).
  destruct Ha as (t & -> & Hlt & Hr & He & Hf & Hid & Hp & Hst & _).
  exists cur, d. rewrite Hn. simpl. rewrite Hk. done.
Qed.

(** C23: [reorder] is refused with [order_conflict], changing nothing, when
    the revision is stale or the ids are not a permutation of the current
    ids; otherwise, when it succeeds, the tabs appear in the requested order
    and only their positions have changed. *)
Theorem reorder_correct (revision : Z) (ids : list jsstr) (s : state)
    (cur : PersistedTabsDocument) :
  document s = Some cur → document_ok cur →
  (revision ≠ structureRevision cur ∨ ¬ ids ≡ₚ tab_id <$> tabs cur →
     reorder o revision ids s = (Throw order_conflict, s)) ∧
  (let (r, s') := reorder o revision ids s in
   match r with
   | Throw _ =>
       document s' = document s ∧ disk s' !! primaryPath o = disk s !! primaryPath o
   | Ok a => ∃ d, a = Some d ∧ document s' = Some d ∧
       structureRevision d = structureRevision cur + 1 ∧
       tab_id <$> tabs d = ids ∧ core <$> tabs d ≡ₚ core <$> tabs cur
   end).
Proof.
  intros Hcur Hok. split.
  - intros Hbad. unfold reorder, mutate, requireDocument, bind, gets, of_option, ret.
    rewrite Hcur. destruct (reorder_conflict revision ids cur) eqn:Hcf; [done|].
    apply reorder_conflict_false in Hcf; [|apply Hok]. tauto.
  - pose proof (wp_run _ _ _ (wp_reorder o revision ids s
      ltac:(intros c Hc; by simplify_eq))) as Hw.
    destruct (reorder o revision ids s) as [[a|e] s']; simpl in *; [|done].
    destruct Hw as (cur' & ? & [[_ []]|(d & [Hd _] & _ & Hr)]); simplify_eq.
    destruct Hr as (_ & -> & Hrev & Hids & Hp). by exists d.
Qed.

(** [remove] drops exactly the named tab, keeps the order and contents of
    the others and renumbers them from zero; a throw changes nothing. *)
Theorem remove_compacts (id : jsstr) (s : state) :
  let (r, s') := remove o id s in
  match r with
  | Throw _ =>
      document s' = document s ∧ disk s' !! primaryPath o = disk s !! primaryPath o
  | Ok _ => ∃ cur d, document s = Some cur ∧ document s' = Some d ∧
      id ∈ tab_id <$> tabs cur ∧
      structureRevision d = structureRevision cur + 1 ∧
      core <$> tabs d = core <$> filter (λ t, tab_id t ≠ id) (tabs cur) ∧
      (∀ k t, tabs d !! k = Some t → position t = Z.of_nat k)
  end.
Proof.
  pose proof (wp_run _ _ _ (wp_remove o id s)) as Hw.
  destruct (remove o id s) as [[a|e] s']; simpl in *; [|done].
  destruct Hw as (cur & Hcur & [[_ []]|(d & [Hd _] & (_ & _ & Hpos & _) & Hin & Hr & Hk)]).
  exists cur, d. split_and!; try done.
  intros k t Ht. rewrite (proj1 (positions_from_lookup _ _) Hpos k t Ht). lia.
Qed.
End theorems.

(** * Concrete instances *)

Definition ascii_platform : Platform := {| nfc := λ s, s; iso_datetime := λ _, true |}.
Definition no_json : list Z → option json := λ _, None.
Definition sample_options : TabStoreOptions :=
  {| dataDir := js "/app/data"; sessionMaxCount := 10 |}.
Definition sample_id : jsstr := js "11111111-1111-4111-8111-111111111111".
Definition sample_id2 : jsstr := js "22222222-2222-4222-8222-222222222222".
(** No call fails; identifiers differ from tick to tick. *)
Definition sample_env : environment :=
  {| fails := λ _, None; chunk := λ _, 0; garbage := λ _, [];
     uuid := λ t, if Nat.even t then sample_id else sample_id2;
     now_iso := λ _, js "2026-07-16T00:00:00.000Z" |}.
Definition sample_world : world :=
  World {[ js "/app/data" := Node KDirectory 0 0x1ED [] ]} 0 sample_env.

Lemma tab_store_invariant_witness :
  let s := foldl (λ s p, @run_op ascii_platform sample_options no_json p s)
             (new_store sample_world) [Op_initialize; Op_create None] in
  ∃ d, document s = Some d ∧ length (tabs d) = 1%nat ∧ NoDup (tab_id <$> tabs d).
Proof.
  eexists. split; [vm_compute; reflexivity|]. split; [reflexivity|].
  apply (@tab_store_invariant ascii_platform no_json sample_options
    [Op_initialize; Op_create None] sample_world ltac:(vm_compute; discriminate)).
  vm_compute. reflexivity.
Defined.

Definition sample_tab (id : jsstr) (p : Z) : TabRecord :=
  new_tab id (js "Terminal") p (js "2026-07-16T00:00:00.000Z").
Definition sample_document : PersistedTabsDocument :=
  {| structureRevision := 2; tabs := [sample_tab sample_id 0; sample_tab sample_id2 1] |}.

Lemma reorder_correct_witness :
  document_ok sample_document ∧
  ∃ d, document (@reorder ascii_platform sample_options 2 [sample_id2; sample_id]
         (State (Some sample_document) true 0 sample_world)).2 = Some d ∧
    tab_id <$> tabs d = [sample_id2; sample_id].
Proof.
  assert (document_ok sample_document) as Hok.
  { split_and!; [reflexivity| |by split|by repeat constructor].
    apply (bool_decide_eq_true (NoDup _)). vm_compute. reflexivity. }
  split; [exact Hok|].
  set (s0 := State (Some sample_document) true 0 sample_world).
  destruct (@reorder_correct ascii_platform sample_options 2
    [sample_id2; sample_id] s0 sample_document eq_refl Hok) as [_ Hr].
  assert (is_ok (@reorder ascii_platform sample_options 2 [sample_id2; sample_id] s0).1
          = true) as Hrun by (vm_compute; reflexivity).
  clearbody s0. revert Hr Hrun. generalize (@reorder ascii_platform sample_options 2
    [sample_id2; sample_id] s0).
  intros [[a|e] s'] Hr Hrun; [|discriminate Hrun].
  destruct Hr as (d & _ & Hd & _ & Hids & _). exists d. exact (conj Hd Hids).
Defined.
