(* ===== verification/SecureJson.v ===== *)
(** [secure-json-file.ts]: the owner-only JSON files of the credential and
    settings stores.

    [preflightJson] walks an object graph: [heap] gives the object at each
    reference, with its own properties in the order of [Reflect.ownKeys].
    Proxies and getters with side effects are not modelled (an accessor is a
    property without data, which the code refuses).  The copies that it
    builds live in a store of their own, [clones], that [assign] updates in
    place.  A value that [read] returns is a JSON value, which is immutable
    here: [structuredClone] and [deepFreeze] leave no trace. *)
From S2P Require Import Prelude JsMap SafeString Json JsonText Fs.
Open Scope Z_scope.

Definition TEMP_OPEN_ATTEMPTS : nat := 8.
Definition MAX_SERIALIZATION_DEPTH : Z := 256.
Definition MAX_SERIALIZATION_KEYS : Z := 100000.
Definition MAX_SERIALIZATION_NODES : Z := 100000.
Definition MAX_SECURE_JSON_BYTES : Z := 1048576.

(** * Values and objects *)

Inductive number := NInt (z : Z) | NReal (m e : Z) | NNegZero | NNonFinite.

(** [VOther] is [undefined], a function, a symbol or a bigint. *)
Inductive value :=
| VNull
| VBool (b : bool)
| VNumber (n : number)
| VString (s : jsstr)
| VRef (l : nat)
| VOther.

Inductive key := KString (k : jsstr) | KSymbol (n : nat).
#[export] Instance key_eq_dec : EqDecision key.
Proof. solve_decision. Defined.

(** A property descriptor; an accessor has no [pvalue]. *)
Record property := Property { enumerable : bool; pvalue : option value }.

(** [plain] says that the prototype is [Object.prototype] or [null]. *)
Record object := Object {
  is_array : bool;
  plain : bool;
  alength : Z;
  own : list (key * property);
}.
Definition heap : Type := nat → object.

(** * Preflight *)

(** A snapshot: a primitive, or one of the [clones]. *)
Inductive sval := SNull | SBool (b : bool) | SNumber (n : number) | SString (s : jsstr) | SRef (l : nat).
Inductive clone := CArray (slots : list (option sval)) | CObject (fields : list (jsstr * sval)).

Inductive slot := Index (i : Z) | Name (k : jsstr).

Record item := Item {
  it_value : value;
  it_parent : option (nat * slot);
  it_depth : Z;
}.
Inductive PreflightWork := WValue (i : item) | WExit (l : nat).

Record preflight := Preflight {
  work : list PreflightWork;
  ancestors : list nat;
  byteCount : Z;
  keyCount : Z;
  nodeCount : Z;
  clones : list clone;
  snapshot : option sval;
}.

(** Any throw of the walk; [OutOfFuel] is not one. *)
Inductive walk_error := InvalidJson | OutOfFuel.
Abbreviation W A := (M preflight walk_error A).

Definition set_work f (s : preflight) : preflight :=
  Preflight (f (work s)) (ancestors s) (byteCount s) (keyCount s) (nodeCount s) (clones s) (snapshot s).
Definition set_ancestors f (s : preflight) : preflight :=
  Preflight (work s) (f (ancestors s)) (byteCount s) (keyCount s) (nodeCount s) (clones s) (snapshot s).
Definition add_byteCount n (s : preflight) : preflight :=
  Preflight (work s) (ancestors s) (byteCount s + n) (keyCount s) (nodeCount s) (clones s) (snapshot s).
Definition add_keyCount n (s : preflight) : preflight :=
  Preflight (work s) (ancestors s) (byteCount s) (keyCount s + n) (nodeCount s) (clones s) (snapshot s).
Definition add_nodeCount n (s : preflight) : preflight :=
  Preflight (work s) (ancestors s) (byteCount s) (keyCount s) (nodeCount s + n) (clones s) (snapshot s).
Definition set_clones f (s : preflight) : preflight :=
  Preflight (work s) (ancestors s) (byteCount s) (keyCount s) (nodeCount s) (f (clones s)) (snapshot s).
Definition set_snapshot v (s : preflight) : preflight :=
  Preflight (work s) (ancestors s) (byteCount s) (keyCount s) (nodeCount s) (clones s) v.

Definition addBytes (amount : Z) : W unit :=
  do! modify (add_byteCount amount) in
  let! n := gets byteCount in
  throw_if (MAX_SECURE_JSON_BYTES <? n) InvalidJson.

(** A property write on a copy. *)
Definition write_slot (k : slot) (next : sval) (c : clone) : clone :=
  match c, k with
  | CArray slots, Index i => CArray (<[Z.to_nat i := Some next]> slots)
  | CObject fields, Name n => CObject (jm_set n next fields)
  | _, _ => c
  end.
Definition assign (parent : option (nat * slot)) (next : sval) : W unit :=
  match parent with
  | None => modify (set_snapshot (Some next))
  | Some (p, k) => modify (set_clones (alter (write_slot k next) p))
  end.

(** [new Array(length)] or [Object.create(null)]: the reference it gets. *)
Definition new_clone (c : clone) : W nat := λ s,
  (Ok (length (clones s)), set_clones (λ cs, cs ++ [c]) s).

(** The widths that one code unit adds, and how many units it consumes. *)
Definition unit_width (code : Z) (next : option Z) : Z * bool :=
  if (code =? 0x22) || (code =? 0x5c) || (code =? 0x08) || (code =? 0x09) || (code =? 0x0a) ||
     (code =? 0x0c) || (code =? 0x0d) then (2, false)
  else if code <? 0x20 then (6, false)
  else if code <? 0x80 then (1, false)
  else if code <? 0x800 then (2, false)
  else if (0xd800 <=? code) && (code <=? 0xdbff) then
    match next with
    | Some n => if (0xdc00 <=? n) && (n <=? 0xdfff) then (4, true) else (6, false)
    | None => (6, false)
    end
  else if (0xdc00 <=? code) && (code <=? 0xdfff) then (6, false)
  else (3, false).
Fixpoint count_units (bytes : Z) (s : jsstr) : Z :=
  match s with
  | [] => bytes
  | c :: s' =>
      let '(n, joined) := unit_width c (head s') in
      if MAX_SECURE_JSON_BYTES <? bytes + n then bytes + n
      else
        match joined, s' with
        | true, _ :: s'' => count_units (bytes + n) s''
        | _, _ => count_units (bytes + n) s'
        end
  end.
Definition jsonStringByteLength (value : jsstr) : Z := count_units 2 value.

(** [String(Object.is(value, -0) ? 0 : value)] of a finite number, which is
    also what [JSON.stringify] writes. *)
Definition number_json (n : number) : option json :=
  match n with
  | NInt z => Some (JNum z)
  | NReal m e => Some (JReal m e)
  | NNegZero => Some (JNum 0)
  | NNonFinite => None
  end.

Definition descriptor (o : object) (k : key) : option property := jm_get k (own o).
Definition is_symbol (k : key) : bool := match k with KSymbol _ => true | KString _ => false end.

Section walk.
Variable h : heap.

Definition push (i : PreflightWork) : W unit := modify (set_work (cons i)).

Definition visit_array (l : nat) (it : item) : W unit :=
  let o := h l in
  let length := alength o in
  do! throw_if (MAX_SERIALIZATION_NODES <? length) InvalidJson in
  let enumerableKeys := filter (λ p, enumerable p.2 = true) (own o) in
  do! throw_if (existsb (λ p, is_symbol p.1) enumerableKeys ||
                negb (Z.of_nat (List.length enumerableKeys) =? length)) InvalidJson in
  let! c := new_clone (CArray (replicate (Z.to_nat length) None)) in
  do! assign (it_parent it) (SRef c) in
  do! addBytes (2 + Z.max 0 (length - 1)) in
  each (reverse (seqZ 0 length)) (λ i,
    match descriptor o (KString (number_to_string i)) with
    | Some (Property true (Some v)) =>
        push (WValue (Item v (Some (c, Index i)) (it_depth it + 1)))
    | _ => throw InvalidJson
    end).

(** The enumerable own data properties, in order. *)
Fixpoint entries (ps : list (key * property)) : option (list (jsstr * value)) :=
  match ps with
  | [] => Some []
  | (k, p) :: ps =>
      if enumerable p then
        match k, pvalue p with
        | KString k, Some v => es ← entries ps; Some ((k, v) :: es)
        | _, _ => None
        end
      else entries ps
  end.

Definition visit_object (l : nat) (it : item) : W unit :=
  let o := h l in
  do! throw_if (negb (plain o)) InvalidJson in
  let! es := of_option (entries (own o)) InvalidJson in
  let! c := new_clone (CObject []) in
  do! assign (it_parent it) (SRef c) in
  do! addBytes (2 + Z.max 0 (Z.of_nat (length es) - 1)) in
  each (reverse es) (λ e,
    do! addBytes (jsonStringByteLength e.1 + 1) in
    push (WValue (Item e.2 (Some (c, Name e.1)) (it_depth it + 1)))).

(** A visit after the limits. *)
Definition visit_value (it : item) : W unit :=
  match it_value it with
  | VNull => do! addBytes 4 in assign (it_parent it) SNull
  | VString s => do! addBytes (jsonStringByteLength s) in assign (it_parent it) (SString s)
  | VBool b => do! addBytes (if b then 4 else 5) in assign (it_parent it) (SBool b)
  | VNumber n =>
      let! j := of_option (number_json n) InvalidJson in
      do! addBytes (Z.of_nat (length (stringify j))) in
      assign (it_parent it) (SNumber n)
  | VOther => throw InvalidJson
  | VRef l =>
      let! anc := gets ancestors in
      do! throw_if (bool_decide (l ∈ anc)) InvalidJson in
      do! modify (set_ancestors (js_add l)) in
      do! push (WExit l) in
      do! modify (add_keyCount (Z.of_nat (length (own (h l))))) in
      let! k := gets keyCount in
      do! throw_if (MAX_SERIALIZATION_KEYS <? k) InvalidJson in
      if is_array (h l) then visit_array l it else visit_object l it
  end.

Definition visit (it : item) : W unit :=
  do! modify (add_nodeCount 1) in
  let! n := gets nodeCount in
  do! throw_if ((MAX_SERIALIZATION_NODES <? n) || (MAX_SERIALIZATION_DEPTH <? it_depth it))
        InvalidJson in
  visit_value it.

(** [while (work.length > 0)] *)
Fixpoint walk (fuel : nat) : W unit :=
  match fuel with
  | O => throw OutOfFuel
  | S f =>
      let! w := gets work in
      match w with
      | [] => ret tt
      | i :: w' =>
          do! modify (set_work (λ _, w')) in
          do! match i with
              | WExit l => modify (set_ancestors (js_remove l))
              | WValue it => visit it
              end in
          walk f
      end
  end.

(** A node takes at most two turns, its visit and its exit. *)
Definition walk_fuel : nat := Z.to_nat (2 * MAX_SERIALIZATION_NODES + 4).

Definition preflightJson (v : value) : res walk_error (option sval) * preflight :=
  (do! walk walk_fuel in gets snapshot)
    (Preflight [WValue (Item v None 0)] [] 0 0 0 [] None).

(** What [JSON.stringify] reads from the snapshot; [fuel] bounds the depth. *)
Fixpoint read_clone (cs : list clone) (fuel : nat) (v : sval) : option json :=
  match v with
  | SNull => Some JNull
  | SBool b => Some (JBool b)
  | SNumber n => number_json n
  | SString s => Some (JStr s)
  | SRef l =>
      match fuel with
      | O => None
      | S f =>
          match cs !! l with
          | Some (CArray slots) =>
              vs ← mapM (λ s, s ≫= read_clone cs f) slots; Some (JArr vs)
          | Some (CObject fields) =>
              fs ← mapM (λ p, v ← read_clone cs f p.2; Some (p.1, v)) fields; Some (JObj fs)
          | None => None
          end
      end
  end.

Definition serializeJson (v : value) : option (list Z) :=
  match preflightJson v with
  | (Ok (Some s), p) =>
      j ← read_clone (clones p) (Z.to_nat (MAX_SERIALIZATION_DEPTH + 1)) s;
      let bytes := utf8_encode (stringify j) in
      if MAX_SECURE_JSON_BYTES <? Z.of_nat (length bytes) then None else Some bytes
  | _ => None
  end.
End walk.
