(* ===== verification/JsonTree.v ===== *)
(** The reference for [SecureJson.preflightJson]: [unfold], the JSON tree that
    an object graph stands for, with the exact size of its text and the
    absence of cycles. *)
From S2P Require Import Prelude JsMap SafeString Json JsonText SecureJson.
Open Scope Z_scope.

(** * The reference *)

Definition array_item (o : object) (i : Z) : option value :=
  match descriptor o (KString (number_to_string i)) with
  | Some (Property true (Some v)) => Some v
  | _ => None
  end.
(** The items of an array without other enumerable properties. *)
Definition array_values (o : object) : option (list value) :=
  let es := filter (λ p, enumerable p.2 = true) (own o) in
  if existsb (λ p, is_symbol p.1) es || negb (Z.of_nat (length es) =? alength o) then None
  else mapM (array_item o) (seqZ 0 (alength o)).
(** The properties of a plain object. *)
Definition object_values (o : object) : option (list (jsstr * value)) :=
  if plain o then entries (own o) else None.

Definition zsum (l : list Z) : Z := foldr Z.add 0 l.

Section reference.
Variable h : heap.

(** The JSON tree that a value stands for, to the depth [d], and the number of
    own keys of the objects on the way. *)
Fixpoint unfold (d : nat) (v : value) : option (json * Z) :=
  match d with
  | O => None
  | S d =>
      match v with
      | VNull => Some (JNull, 0)
      | VBool b => Some (JBool b, 0)
      | VNumber n => j ← number_json n; Some (j, 0)
      | VString s => Some (JStr s, 0)
      | VOther => None
      | VRef l =>
          let o := h l in
          if is_array o then
            vs ← array_values o;
            rs ← mapM (unfold d) vs;
            Some (JArr rs.*1, Z.of_nat (length (own o)) + zsum rs.*2)
          else
            es ← object_values o;
            rs ← mapM (unfold d) es.*2;
            Some (JObj (zip es.*1 rs.*1), Z.of_nat (length (own o)) + zsum rs.*2)
      end
  end.

(** [w] is held by the object [v]. *)
Definition held (o : object) : list value :=
  if is_array o then default [] (array_values o) else default [] (es ← object_values o; Some es.*2).
Definition child (v w : value) : Prop := ∃ l, v = VRef l ∧ w ∈ held (h l).
End reference.

(** The number of nodes of a tree. *)
Fixpoint nodes (j : json) : Z :=
  match j with
  | JArr l => 1 + zsum (map nodes l)
  | JObj fs => 1 + zsum (map (λ p, nodes p.2) fs)
  | _ => 1
  end.
(** The size of its text. *)
Definition bytes (j : json) : Z := utf8ByteLength (stringify j).

(** ** Well-formed objects *)

Definition value_ok (v : value) : Prop :=
  match v with
  | VString s => units_ok s
  | VNumber (NInt z) => Z.abs z < 10 ^ 309
  | VNumber (NReal m e) => real_ok m e
  | _ => True
  end.
Definition object_ok (o : object) : Prop :=
  0 <= alength o ∧ NoDup (own o).*1 ∧
  Forall (λ p, match p.1 with KString k => units_ok k | _ => True end ∧
               match pvalue p.2 with Some v => value_ok v | None => True end) (own o).
Definition heap_ok (h : heap) : Prop := ∀ l, object_ok (h l).

(** * The size of a text *)

Lemma code_points_app s t : text s → code_points (s ++ t) = code_points s ++ code_points t.
Proof.
  intros (cs & Hcs & ->). revert t. induction Hcs as [|c cs Hc _ IH]; intros t; [done|].
  cbn [map concat]. rewrite <-(assoc_L (++)), !code_points_utf16 by done. by rewrite IH.
Qed.
Lemma size_app s t : text s → utf8ByteLength (s ++ t) = utf8ByteLength s + utf8ByteLength t.
Proof.
  intros Hs. unfold utf8ByteLength. rewrite code_points_app by done. generalize (code_points s).
  intros l. induction l as [|c l IH]; simpl; lia.
Qed.
Lemma size_ascii s : Forall (λ c, 0 <= c < 128) s → utf8ByteLength s = Z.of_nat (length s).
Proof.
  induction 1 as [|c s Hc _ IH]; [done|]. unfold utf8ByteLength in *.
  rewrite code_points_plain by (unfold is_high_surrogate; apply andb_false_iff; left; apply Z.leb_gt; lia).
  cbn [foldr length]. rewrite IH. unfold utf8_width. zdecide. lia.
Qed.

Definition ascii (s : jsstr) : Prop := Forall (λ c, 0 <= c < 128) s.
Lemma digits_ascii z : 0 <= z < 10 ^ 400 → ascii (digits 400 z []).
Proof.
  intros Hz. destruct (digits_spec 400 z []) as (ds & -> & Hd & _).
  { by change (Z.of_nat 400) with 400. }
  rewrite app_nil_r. eapply Forall_impl; [exact Hd|]. intros c Hc.
  apply is_digit_iff in Hc. lia.
Qed.
Lemma scientific_ascii s : ascii s → ascii (scientific s).
Proof.
  intros H. unfold scientific. apply Forall_app. split; [by apply Forall_take|].
  case_match; [by apply Forall_nil_2|]. constructor; [lia|]. by apply Forall_drop.
Qed.
Lemma drop_zeros_ascii s : ascii s → ascii (drop_zeros s).
Proof. induction 1; simpl; [by apply Forall_nil_2|]. case_match; [done|by constructor]. Qed.
Lemma sign_ascii z : ascii (sign_string z).
Proof. unfold sign_string. case_match; by repeat constructor. Qed.
Lemma literal_ascii s : forallb (λ c, (0 <=? c) && (c <? 128)) s = true → ascii s.
Proof.
  intros H. apply Forall_forall. intros c Hc. apply list_elem_of_In in Hc.
  eapply forallb_forall in H; [|done]. apply andb_true_iff in H as [? ?]. breflect. lia.
Qed.

Lemma digits_length_bound f : ∀ z a, (length (digits f z a) <= f + length a)%nat.
Proof.
  induction f as [|f IH]; intros z a; simpl; [done|]. case_match; simpl; [lia|].
  etrans; [apply IH|]. simpl. lia.
Qed.

Lemma number_ascii n j : value_ok (VNumber n) → number_json n = Some j → ascii (stringify j).
Proof.
  destruct n as [z|m e| |]; cbn [number_json value_ok]; intros Hok ?; simplify_eq.
  - cbn [stringify]. unfold number_to_string. apply Forall_app. split; [apply sign_ascii|].
    assert (ascii (digits 400 (Z.abs z) [])) as Hd.
    { apply digits_ascii. split; [lia|]. etrans; [exact Hok|]. by apply Z.ltb_lt. }
    cbn zeta. case_match; [done|]. apply Forall_app; split; [|apply Forall_app; split].
    + by apply scientific_ascii, Forall_reverse, drop_zeros_ascii, Forall_reverse.
    + by apply literal_ascii.
    + apply digits_ascii. breflect. pose proof (digits_length_bound 400 (Z.abs z) []) as Hl.
      assert (digits 400 (Z.abs z) [] ≠ []) as Hne.
      { destruct (digits_spec 400 (Z.abs z) []) as (ds & -> & _ & _ & Hn & _).
        - split; [lia|]. etrans; [exact Hok|]. by apply Z.ltb_lt.
        - rewrite app_nil_r. by apply Hn. }
      destruct (digits 400 (Z.abs z) []); [done|]. simpl length in *.
      split; [lia|]. apply Z.le_lt_trans with 400; [lia|by apply Z.ltb_lt].
  - destruct Hok as (Hm & Hb & He). cbn [stringify]. unfold real_to_string.
    assert (ascii (digits 400 (Z.abs m) [])) as Hd.
    { apply digits_ascii. split; [lia|]. etrans; [exact Hb|]. by apply Z.ltb_lt. }
    apply Forall_app. split; [apply sign_ascii|]. cbn zeta.
    case_match; [|case_match]; breflect; (apply Forall_app; split; [|apply Forall_app; split]);
      try (by apply literal_ascii); try done.
    + by apply Forall_take.
    + by apply Forall_drop.
    + apply Forall_replicate. lia.
    + by apply scientific_ascii.
    + apply digits_ascii. split; [lia|]. apply Z.le_lt_trans with 402; [lia|by apply Z.ltb_lt].
  - by apply literal_ascii.
Qed.

Lemma size_nonneg s : 0 <= utf8ByteLength s.
Proof. unfold utf8ByteLength. induction (code_points s) as [|c l IH]; simpl; [lia|].
  pose proof (utf8_width_pos c). lia. Qed.
Lemma size_cons_pair c d s : is_high_surrogate c && is_low_surrogate d = true →
  utf8ByteLength (c :: d :: s) = 4 + utf8ByteLength s.
Proof.
  intros H. unfold utf8ByteLength.
  change (code_points (c :: d :: s)) with
    (if is_high_surrogate c && is_low_surrogate d
     then (0x10000 + (c - 0xD800) * 0x400 + (d - 0xDC00)) :: code_points s
     else c :: code_points (d :: s)).
  rewrite H. cbn [foldr]. f_equal. unfold is_high_surrogate, is_low_surrogate in H. breflect.
  unfold utf8_width. zdecide. done.
Qed.

Lemma u_escape_size c : unit_ok c → utf8ByteLength (u_escape c) = 6.
Proof.
  intros Hc. unfold unit_ok in Hc. assert (0 <= c / 4096 < 16).
  { split; [apply Z.div_pos; lia|apply Z.div_lt_upper_bound; lia]. }
  pose proof (Z.mod_pos_bound (c / 256) 16 ltac:(lia)).
  pose proof (Z.mod_pos_bound (c / 16) 16 ltac:(lia)).
  pose proof (Z.mod_pos_bound c 16 ltac:(lia)).
  rewrite size_ascii; [done|]. unfold u_escape. apply Forall_app. split; [by repeat constructor|].
  repeat (apply Forall_cons; split); try apply Forall_nil_2;
    match goal with |- 0 <= hex_digit ?z < _ => pose proof (hex_digit_ascii z ltac:(done)); lia end.
Qed.

(** What [jsonStringByteLength] adds for a code unit is the size of what
    [quote] writes for it. *)
Lemma unit_width_quote c next : unit_ok c → is_surrogate c = false →
  unit_width c next = (utf8ByteLength (quote_unit c), false).
Proof.
  intros Hc Hs. assert (∀ x, 0 <= x < 128 → utf8ByteLength [0x5C; x] = 2) as H2.
  { intros x Hx. rewrite size_ascii; [done|]. repeat constructor; lia. }
  pose proof (u_escape_size c Hc) as H6. unfold unit_ok in Hc.
  unfold unit_width, quote_unit, short_escape.
  repeat match goal with
  | |- context [?a =? ?b] => destruct (Z.eqb_spec a b) as [->|]; cbn [orb]; [rewrite H2 by lia; done|]
  end.
  destruct (c <? 0x20) eqn:E1; breflect; [by rewrite H6|].
  assert (utf8ByteLength [c] = utf8_width c) as ->.
  { unfold utf8ByteLength. simpl. lia. }
  unfold is_surrogate in Hs. unfold utf8_width.
  destruct (c <? 0x80) eqn:E2; [done|]. destruct (c <? 0x800) eqn:E3; [done|]. breflect.
  apply andb_false_iff in Hs.
  assert ((0xd800 <=? c) && (c <=? 0xdbff) = false) as ->.
  { apply andb_false_iff. rewrite !Z.leb_gt in *. lia. }
  assert ((0xdc00 <=? c) && (c <=? 0xdfff) = false) as ->.
  { apply andb_false_iff. rewrite !Z.leb_gt in *. lia. }
  zdecide. done.
Qed.

Lemma unit_width_lone c next : unit_ok c → is_surrogate c = true →
  (∀ d, next = Some d → is_high_surrogate c && is_low_surrogate d = false) →
  unit_width c next = (6, false).
Proof.
  unfold is_surrogate, unit_width. intros Hc Hs Hn. breflect.
  repeat match goal with
  | |- context [?a =? ?b] => rewrite (proj2 (Z.eqb_neq a b)) by lia; cbn [orb]
  end. zdecide. cbn [andb].
  destruct (c <=? 0xdbff) eqn:E.
  - destruct next as [d|]; [|done]. specialize (Hn d eq_refl).
    unfold is_high_surrogate, is_low_surrogate in Hn. rewrite E in Hn.
    rewrite (proj2 (Z.leb_le 0xd800 c)) in Hn by done. cbn [andb] in Hn. by rewrite Hn.
  - breflect. zdecide. done.
Qed.
Lemma unit_width_pair c d : is_high_surrogate c && is_low_surrogate d = true →
  unit_width c (Some d) = (4, true).
Proof.
  unfold is_high_surrogate, is_low_surrogate, unit_width. intros H. breflect.
  repeat match goal with
  | |- context [?a =? ?b] => rewrite (proj2 (Z.eqb_neq a b)) by lia; cbn [orb]
  end. zdecide. done.
Qed.

(** An exact count, or one beyond the limit for a size beyond it. *)
Definition counted (total r : Z) : Prop :=
  if decide (total <= MAX_SECURE_JSON_BYTES) then r = total
  else MAX_SECURE_JSON_BYTES < r ∧ MAX_SECURE_JSON_BYTES < total.

Lemma counted_beyond total r : MAX_SECURE_JSON_BYTES < r → r <= total → counted total r.
Proof. unfold counted. case_decide; lia. Qed.

Lemma count_units_cons b c s : count_units b (c :: s) =
  let '(n, joined) := unit_width c (head s) in
  if MAX_SECURE_JSON_BYTES <? b + n then b + n
  else match joined, s with
       | true, _ :: s' => count_units (b + n) s'
       | _, _ => count_units (b + n) s
       end.
Proof. done. Qed.

Lemma count_units_single b c s n : unit_width c (head s) = (n, false) →
  counted (b + n + utf8ByteLength (quote_body s)) (count_units (b + n) s) →
  counted (b + (n + utf8ByteLength (quote_body s))) (count_units b (c :: s)).
Proof.
  intros Hw Hc. rewrite count_units_cons, Hw. rewrite Z.add_assoc.
  destruct (_ <? b + n) eqn:E; breflect; [|done].
  apply counted_beyond; [done|]. pose proof (size_nonneg (quote_body s)). lia.
Qed.

Lemma count_units_quote s : units_ok s → ∀ b,
  counted (b + utf8ByteLength (quote_body s)) (count_units b s).
Proof.
  intros Hs. induction s as [|c|c d s IH1 IH2] using jsstr_pair_ind; intros b.
  - unfold counted. change (utf8ByteLength (quote_body [])) with 0.
    rewrite Z.add_0_r. cbn [count_units]. case_decide; lia.
  - inversion_clear Hs as [|?? Hc _].
    assert (∀ n, counted (b + n + 0) (count_units (b + n) [])) as Hn.
    { intros n. unfold counted. cbn [count_units]. case_decide; lia. }
    destruct (is_surrogate c) eqn:E; cbn [quote_body]; rewrite E.
    + rewrite u_escape_size by done. apply (count_units_single b c [] 6); [|apply Hn].
      by apply unit_width_lone.
    + rewrite app_nil_r, <-(Z.add_0_r (utf8ByteLength (quote_unit c))).
      apply (count_units_single b c []); [|apply Hn]. by apply unit_width_quote.
  - inversion_clear Hs as [|?? Hc Hds]. destruct (is_surrogate c) eqn:Ec.
    + destruct (is_high_surrogate c && is_low_surrogate d) eqn:Ep.
      * rewrite quote_body_pair, size_cons_pair, count_units_cons by done. cbn [head].
        rewrite unit_width_pair, Z.add_assoc by done. inversion_clear Hds.
        destruct (_ <? b + 4) eqn:E; breflect; [|by apply IH1].
        apply counted_beyond; [done|]. pose proof (size_nonneg (quote_body s)). lia.
      * rewrite quote_body_lone, size_app, u_escape_size by (done || by apply text_u_escape).
        apply count_units_single; [|by apply IH2]. apply unit_width_lone; [done..|].
        intros ? [= <-]. done.
    + rewrite quote_body_plain, size_app by (done || by apply text_quote_unit).
      apply count_units_single; [|by apply IH2]. by apply unit_width_quote.
Qed.

Lemma jsonStringByteLength_exact s : units_ok s →
  counted (utf8ByteLength (quote s)) (jsonStringByteLength s).
Proof.
  intros Hs. unfold jsonStringByteLength, quote.
  rewrite (size_app [34]) by by apply text_literal.
  rewrite (size_app (quote_body s)) by by apply text_quote_body.
  change (utf8ByteLength [34]) with 1.
  replace (1 + (utf8ByteLength (quote_body s) + 1)) with (2 + utf8ByteLength (quote_body s)) by lia.
  by apply count_units_quote.
Qed.

(** ** Containers *)

Lemma size_join l : Forall text l →
  utf8ByteLength (join (js ",") l) = Z.max 0 (Z.of_nat (length l) - 1) + zsum (map utf8ByteLength l).
Proof.
  induction 1 as [|x l Hx Hl IH]; [done|]. destruct l as [|y l].
  - cbn [join map zsum foldr length]. lia.
  - rewrite join_cons by done. rewrite (size_app x), (size_app (js ",")) by (done || by apply text_literal).
    rewrite IH. change (utf8ByteLength (js ",")) with 1. cbn [map zsum foldr length]. lia.
Qed.

Lemma bytes_arr l : Forall (λ j, text (stringify j)) l →
  bytes (JArr l) = 2 + Z.max 0 (Z.of_nat (length l) - 1) + zsum (map bytes l).
Proof.
  intros Hl. unfold bytes at 1. cbn [stringify].
  assert (text (join (js ",") (map stringify l))).
  { apply text_join; [by apply text_literal|]. by apply Forall_fmap. }
  rewrite (size_app (js "[")), (size_app (join _ _)) by (done || by apply text_literal).
  rewrite size_join by by apply Forall_fmap.
  rewrite length_map, map_map. change (utf8ByteLength (js "[")) with 1.
  change (utf8ByteLength (js "]")) with 1. fold bytes. unfold bytes. lia.
Qed.

Lemma bytes_obj fs : Forall (λ p, units_ok p.1 ∧ text (stringify p.2)) fs →
  bytes (JObj fs) = 2 + Z.max 0 (Z.of_nat (length fs) - 1) +
    (zsum (map (λ p, utf8ByteLength (quote p.1) + 1) fs) + zsum (map (λ p, bytes p.2) fs)).
Proof.
  intros Hl. unfold bytes at 1. cbn [stringify].
  assert (Forall text (map member fs)) as Hm.
  { apply Forall_fmap. eapply Forall_impl; [exact Hl|]. intros [k v] [Hk Hv].
    unfold member. cbn [fst snd] in *. apply text_app; [by apply text_quote|].
    apply text_app; [by apply text_literal|done]. }
  change (map (λ p, quote p.1 ++ js ":" ++ stringify p.2) fs) with (map member fs).
  assert (text (join (js ",") (map member fs))) by (by apply text_join; [apply text_literal|]).
  rewrite (size_app (js "{")), (size_app (join _ _)) by (done || by apply text_literal).
  rewrite size_join, length_map, map_map by done.
  change (utf8ByteLength (js "{")) with 1. change (utf8ByteLength (js "}")) with 1.
  assert (zsum (map (λ p, utf8ByteLength (member p)) fs) =
    zsum (map (λ p, utf8ByteLength (quote p.1) + 1) fs) + zsum (map (λ p, bytes p.2) fs)) as ->; [|lia].
  clear Hm H. induction Hl as [|[k v] fs [Hk Hv] _ IH]; [done|]. cbn [map zsum foldr].
  change (foldr Z.add 0 (map ?f fs)) with (zsum (map f fs)). rewrite IH.
  unfold member at 1. cbn [fst snd] in *.
  rewrite (size_app (quote k)) by by apply text_quote.
  rewrite (size_app (js ":")) by by apply text_literal.
  change (utf8ByteLength (js ":")) with 1. unfold bytes at 2. lia.
Qed.

(** * Facts about the reference *)

Lemma zsum_cons x l : zsum (x :: l) = x + zsum l.
Proof. done. Qed.
Lemma zsum_nonneg {A} (f : A → Z) l : (∀ x, x ∈ l → 0 <= f x) → 0 <= zsum (map f l).
Proof.
  induction l as [|x l IH]; intros H; cbn [map]; [done|]. rewrite zsum_cons.
  pose proof (H x ltac:(left)). specialize (IH ltac:(intros; apply H; by right)). lia.
Qed.
Lemma zsum_elem {A} (f : A → Z) l x : (∀ x, 0 <= f x) → x ∈ l → f x <= zsum (map f l).
Proof.
  intros Hf. induction 1 as [x l|x y l _ IH]; cbn [map]; rewrite zsum_cons.
  - pose proof (zsum_nonneg f l ltac:(auto)). lia.
  - pose proof (Hf y). lia.
Qed.
Lemma zsum_length {A} (f : A → Z) l : (∀ x, 1 <= f x) → Z.of_nat (length l) <= zsum (map f l).
Proof.
  intros Hf. induction l as [|x l IH]; cbn [map]; [done|]. rewrite zsum_cons.
  pose proof (Hf x). simpl length. lia.
Qed.

Lemma nodes_pos j : 1 <= nodes j.
Proof.
  induction j as [| | | | |l IH|fs IH] using json_induction; cbn [nodes]; try lia.
  - pose proof (zsum_nonneg nodes l) as H. rewrite Forall_forall in IH.
    specialize (H ltac:(intros x Hx; specialize (IH x Hx); lia)). lia.
  - pose proof (zsum_nonneg (λ p, nodes p.2) fs) as H. rewrite Forall_forall in IH.
    specialize (H ltac:(intros x Hx; specialize (IH x Hx); simpl in *; lia)). lia.
Qed.
Lemma bytes_nonneg j : 0 <= bytes j.
Proof. apply size_nonneg. Qed.

Lemma map_zip_l {A B} (ks : list A) (vs : list B) {C} (f : A → C) :
  length ks = length vs → map (λ p, f p.1) (zip ks vs) = map f ks.
Proof.
  revert vs. induction ks as [|x ks IH]; intros [|v vs] Hl; try done.
  cbn [zip zip_with map]. f_equal. apply IH. by injection Hl.
Qed.
Lemma map_zip_r {A B} (ks : list A) (vs : list B) {C} (f : B → C) :
  length ks = length vs → map (λ p, f p.2) (zip ks vs) = map f vs.
Proof.
  revert vs. induction ks as [|x ks IH]; intros [|v vs] Hl; try done.
  cbn [zip zip_with map]. f_equal. apply IH. by injection Hl.
Qed.

(** ** The values that an object holds *)

Lemma array_item_ok o i v : object_ok o → array_item o i = Some v → value_ok v.
Proof.
  intros (_ & _ & Hf) H. unfold array_item, descriptor in H.
  destruct (jm_get _ (own o)) as [[[] [v'|]]|] eqn:E; simplify_eq.
  apply jm_get_elem in E. rewrite Forall_forall in Hf. by apply (Hf _ E).
Qed.
Lemma array_values_ok o vs : object_ok o → array_values o = Some vs →
  Forall value_ok vs ∧ Z.of_nat (length vs) = alength o ∧
  mapM (array_item o) (seqZ 0 (alength o)) = Some vs.
Proof.
  unfold array_values. intros Ho H. case_match; [done|]. split_and!; [| |done].
  - apply mapM_Some in H. induction H; constructor; eauto using array_item_ok.
  - apply length_mapM in H. rewrite length_seqZ in H. destruct Ho. lia.
Qed.
Lemma entries_ok ps es : NoDup ps.*1 → Forall (λ p : key * property,
    match p.1 with KString k => units_ok k | _ => True end ∧
    match pvalue p.2 with Some v => value_ok v | None => True end) ps →
  entries ps = Some es →
  NoDup es.*1 ∧ Forall units_ok es.*1 ∧ Forall value_ok es.*2 ∧
  (∀ k, k ∈ es.*1 → KString k ∈ ps.*1).
Proof.
  revert es. induction ps as [|[k p] ps IH]; intros es Hnd Hf H; cbn [entries] in H.
  - simplify_eq. split_and!; [by constructor..|]. intros k. cbn. set_solver.
  - rewrite fmap_cons in Hnd. apply NoDup_cons in Hnd as [Hn Hnd]. cbn [fst] in Hn.
    apply Forall_cons in Hf as [[Hk Hv] Hf]. cbn [fst snd] in *.
    destruct (enumerable p).
    + destruct k as [k|]; [|done]. destruct (pvalue p) as [v|]; [|done].
      apply bind_Some in H as (es' & H & [= <-]).
      destruct (IH es' Hnd Hf H) as (H1 & H2 & H3 & H4). rewrite !fmap_cons. cbn [fst snd].
      split_and!; [|by constructor..|].
      * constructor; [|done]. intros Hin. by apply H4 in Hin.
      * intros k' [->|Hk']%elem_of_cons; [left|right; by apply H4].
    + destruct (IH es Hnd Hf H) as (H1 & H2 & H3 & H4). split_and!; [done..|].
      intros k' Hk'. right. by apply H4.
Qed.
Lemma object_values_ok o es : object_ok o → object_values o = Some es →
  NoDup es.*1 ∧ Forall units_ok es.*1 ∧ Forall value_ok es.*2.
Proof.
  unfold object_values. intros (_ & Hnd & Hf) H. destruct (plain o); [|done].
  destruct (entries_ok _ _ Hnd Hf H) as (? & ? & ? & _). done.
Qed.
Lemma held_ok h l v : heap_ok h → v ∈ held (h l) → value_ok v.
Proof.
  intros Hh Hv. specialize (Hh l). unfold held in Hv. destruct (is_array (h l)).
  - destruct (array_values (h l)) as [vs|] eqn:E; cbn in Hv; [|set_solver].
    destruct (array_values_ok _ _ Hh E) as (Hf & _). rewrite Forall_forall in Hf. auto.
  - destruct (object_values (h l)) as [es|] eqn:E; cbn in Hv; [|set_solver].
    destruct (object_values_ok _ _ Hh E) as (_ & _ & Hf). rewrite Forall_forall in Hf. auto.
Qed.

(** ** Sizes, text and cycles *)

Section reference.
Variable h : heap.

Lemma unfold_ref d l : unfold h (S d) (VRef l) =
  if is_array (h l) then
    vs ← array_values (h l);
    rs ← mapM (unfold h d) vs;
    Some (JArr rs.*1, Z.of_nat (length (own (h l))) + zsum rs.*2)
  else
    es ← object_values (h l);
    rs ← mapM (unfold h d) es.*2;
    Some (JObj (zip es.*1 rs.*1), Z.of_nat (length (own (h l))) + zsum rs.*2).
Proof. done. Qed.

Lemma unfold_mono d v r : unfold h d v = Some r → unfold h (S d) v = Some r.
Proof.
  revert v r. induction d as [|d IH]; intros v r H; [done|].
  assert (∀ vs rs, mapM (unfold h d) vs = Some rs → mapM (unfold h (S d)) vs = Some rs) as Hm.
  { intros vs rs Hvs. apply mapM_Some. apply mapM_Some in Hvs.
    eapply Forall2_impl; [exact Hvs|]. intros. by apply IH. }
  destruct v as [| | | |l|]; try done. rewrite !unfold_ref in *. destruct (is_array (h l)).
  - apply bind_Some in H as (vs & -> & H). apply bind_Some in H as (rs & E & H).
    cbn [mbind option_bind]. by rewrite (Hm _ _ E).
  - apply bind_Some in H as (vs & -> & H). apply bind_Some in H as (rs & E & H).
    cbn [mbind option_bind]. by rewrite (Hm _ _ E).
Qed.
Lemma unfold_agree d d' v r r' : unfold h d v = Some r → unfold h d' v = Some r' → r = r'.
Proof.
  assert (∀ n, unfold h d v = Some r → unfold h (n + d) v = Some r) as Hm.
  { intros n H. induction n as [|n IH]; [done|]. by apply unfold_mono. }
  assert (∀ n, unfold h d' v = Some r' → unfold h (n + d') v = Some r') as Hm'.
  { intros n H. induction n as [|n IH]; [done|]. by apply unfold_mono. }
  intros H1%(Hm d') H2%(Hm' d). rewrite Nat.add_comm in H1. congruence.
Qed.

Lemma unfold_child d v w j k : unfold h d v = Some (j, k) → child h v w →
  ∃ d' j' k', unfold h d' w = Some (j', k') ∧ nodes j' < nodes j.
Proof.
  intros H (l & -> & Hw). destruct d as [|d]; [done|]. rewrite unfold_ref in H. unfold held in Hw.
  assert (∀ vs rs, mapM (unfold h d) vs = Some rs → w ∈ vs →
    ∃ r, unfold h d w = Some r ∧ r ∈ rs) as Hin.
  { intros vs rs Hm Hwv. apply mapM_Some in Hm.
    induction Hm as [|v r vs rs Hv _ IH]; [set_solver|].
    apply elem_of_cons in Hwv as [->|Hwv]; [exists r; set_solver|].
    destruct (IH Hwv) as (r' & ? & ?). exists r'. set_solver. }
  pose proof (λ j, Z.le_trans 0 1 _ ltac:(lia) (nodes_pos j)) as Hpos.
  destruct (is_array (h l)).
  - apply bind_Some in H as (vs & E1 & H). apply bind_Some in H as (rs & E & H).
    rewrite E1 in Hw. cbn in Hw. destruct (Hin _ _ E Hw) as ([j' k'] & Hr & Hrs).
    simplify_eq. exists d, j', k'. split; [done|]. cbn [nodes].
    pose proof (zsum_elem nodes rs.*1 j' Hpos) as Hz.
    specialize (Hz ltac:(apply list_elem_of_fmap; by exists (j', k'))). lia.
  - apply bind_Some in H as (es & E1 & H). apply bind_Some in H as (rs & E & H).
    rewrite E1 in Hw. cbn in Hw. destruct (Hin _ _ E Hw) as ([j' k'] & Hr & Hrs).
    simplify_eq. exists d, j', k'. split; [done|]. cbn [nodes].
    rewrite (map_zip_r es.*1 rs.*1 nodes) by (rewrite !length_fmap; apply length_mapM in E; by rewrite length_fmap in E).
    pose proof (zsum_elem nodes rs.*1 j' Hpos) as Hz.
    specialize (Hz ltac:(apply list_elem_of_fmap; by exists (j', k'))). lia.
Qed.

(** A value that unfolds is not inside itself. *)
Lemma unfold_acyclic d v j k : unfold h d v = Some (j, k) → ¬ tc (child h) v v.
Proof.
  intros H Hc.
  assert (∀ u w, tc (child h) u w → ∀ d j k, unfold h d u = Some (j, k) →
    ∃ d' j' k', unfold h d' w = Some (j', k') ∧ nodes j' < nodes j) as Hreach.
  { clear. induction 1 as [u w Huw|u w x Huw _ IH]; intros d j k Hu.
    - by eapply unfold_child.
    - destruct (unfold_child _ _ _ _ _ Hu Huw) as (d' & j' & k' & Hw & Hn).
      destruct (IH _ _ _ Hw) as (d'' & j'' & k'' & Hx & Hn'). exists d'', j'', k''. split; [done|lia]. }
  destruct (Hreach _ _ Hc _ _ _ H) as (d' & j' & k' & H' & Hn).
  pose proof (unfold_agree _ _ _ _ _ H H'). simplify_eq. lia.
Qed.

Lemma unfold_text : heap_ok h → ∀ d v j k, value_ok v → unfold h d v = Some (j, k) →
  text (stringify j) ∧ 0 <= k.
Proof.
  intros Hh d. induction d as [|d IH]; intros v j k Hv H; [done|].
  assert (∀ vs rs, Forall value_ok vs → mapM (unfold h d) vs = Some rs →
    Forall (λ j, text (stringify j)) rs.*1 ∧ 0 <= zsum rs.*2) as Hm.
  { intros vs rs Hvs E. apply mapM_Some in E. induction E as [|v' [j' k'] vs rs E _ IHl].
    - split; [constructor|done].
    - apply Forall_cons in Hvs as [Hv' Hvs]. destruct (IHl Hvs) as [IH1 IH2].
      destruct (IH _ _ _ Hv' E) as [Ht Hk]. rewrite !fmap_cons. cbn [fst snd].
      split; [by constructor|]. rewrite zsum_cons. lia. }
  destruct v as [|b|n|s|l|]; cbn [unfold] in H.
  - simplify_eq. split; [by apply text_literal|done].
  - simplify_eq. split; [destruct b; by apply text_literal|done].
  - apply bind_Some in H as (j' & E & H). simplify_eq. split; [|done].
    by apply text_ascii, (number_ascii n).
  - simplify_eq. split; [by apply text_quote|done].
  - pose proof (Hh l) as Ho. destruct (is_array (h l)).
    + apply bind_Some in H as (vs & E1 & H). apply bind_Some in H as (rs & E & H).
      destruct (array_values_ok _ _ Ho E1) as (Hvs & _). destruct (Hm _ _ Hvs E) as [H1 H2].
      simplify_eq. split; [|lia]. cbn [stringify].
      apply text_app; [by apply text_literal|]. apply text_app; [|by apply text_literal].
      apply text_join; [by apply text_literal|]. by apply Forall_fmap.
    + apply bind_Some in H as (es & E1 & H). apply bind_Some in H as (rs & E & H).
      destruct (object_values_ok _ _ Ho E1) as (_ & Hk & Hvs).
      destruct (Hm _ _ Hvs E) as [H1 H2].
      simplify_eq. split; [|lia]. cbn [stringify].
      apply text_app; [by apply text_literal|]. apply text_app; [|by apply text_literal].
      apply text_join; [by apply text_literal|]. apply Forall_fmap, Forall_forall.
      intros [k0 j0] Hkj. cbn [compose fst snd].
      pose proof (proj1 (Forall_forall _ _) Hk k0 (elem_of_zip_l _ _ _ _ Hkj)) as Hk0.
      pose proof (proj1 (Forall_forall _ _) H1 j0 (elem_of_zip_r _ _ _ _ Hkj)) as Hj0.
      apply text_app; [by apply text_quote|]. by apply text_app; [apply text_literal|].
  - done.
Qed.
End reference.
