(* ===== verification/Preflight.v ===== *)
(** The preflight walk of [SecureJson] against the recursive reference of
    [JsonTree]: the work list visits exactly the nodes of the unfolded value,
    its byte count is the size of the text that [JSON.stringify] then writes,
    and the copies read back as the unfolded value. *)
From S2P Require Import Prelude JsMap SafeString Json JsonText SecureJson JsonTree.
Open Scope Z_scope.

(** * The walk *)

Section walk.
Variable h : heap.

(** [σ] reaches [τ], or a throw, in some number of turns. *)
Definition steps (σ τ : preflight) : Prop := ∃ n, ∀ m, walk h (n + m) σ = walk h m τ.
Definition fails (σ : preflight) : Prop :=
  ∃ n, ∀ m, (walk h (n + m) σ).1 = Throw InvalidJson.

Lemma walk_steps_refl σ : steps σ σ.
Proof. by exists O. Qed.
Lemma walk_steps_trans σ τ ρ : steps σ τ → steps τ ρ → steps σ ρ.
Proof.
  intros [n Hn] [m Hm]. exists (n + m)%nat. intros k. by rewrite <-Nat.add_assoc, Hn, Hm.
Qed.
Lemma walk_steps_fails σ τ : steps σ τ → fails τ → fails σ.
Proof.
  intros [n Hn] [m Hm]. exists (n + m)%nat. intros k. by rewrite <-Nat.add_assoc, Hn, Hm.
Qed.

Definition turn (i : PreflightWork) : W unit :=
  match i with
  | WExit l => modify (set_ancestors (js_remove l))
  | WValue it => visit h it
  end.
Lemma walk_turn i w a b k n cs sn m :
  walk h (S m) (Preflight (i :: w) a b k n cs sn) =
  match turn i (Preflight w a b k n cs sn) with
  | (Ok _, τ) => walk h m τ
  | (Throw e, τ) => (Throw e, τ)
  end.
Proof.
  cbn [walk]. unfold bind at 1, gets. cbn [work]. unfold bind at 1, modify.
  cbn [set_work work]. unfold bind. destruct i; simpl; [|done].
  by destruct (visit h i _) as [[[]|] ?].
Qed.
Lemma turn_steps i w a b k n cs sn τ :
  turn i (Preflight w a b k n cs sn) = (Ok tt, τ) → steps (Preflight (i :: w) a b k n cs sn) τ.
Proof. intros H. exists 1%nat. intros m. cbn [Nat.add]. by rewrite walk_turn, H. Qed.
Lemma turn_fails i w a b k n cs sn :
  (turn i (Preflight w a b k n cs sn)).1 = Throw InvalidJson →
  fails (Preflight (i :: w) a b k n cs sn).
Proof.
  intros H. exists 1%nat. intros m. cbn [Nat.add]. rewrite walk_turn.
  destruct (turn i _) as [r τ]; simpl in H; subst. done.
Qed.

(** ** The effects of the helpers *)

Lemma addBytes_run x w a b k n cs sn :
  addBytes x (Preflight w a b k n cs sn) =
  (if decide (b + x <= MAX_SECURE_JSON_BYTES) then Ok tt else Throw InvalidJson,
   Preflight w a (b + x) k n cs sn).
Proof.
  unfold addBytes, bind, modify, gets, throw_if. cbn [add_byteCount byteCount].
  case_decide as E.
  - by rewrite (proj2 (Z.ltb_ge _ _)) by lia.
  - by rewrite (proj2 (Z.ltb_lt _ _)) by lia.
Qed.

Definition assign_clones (p : option (nat * slot)) (v : sval) (cs : list clone) : list clone :=
  match p with Some (p, k) => alter (write_slot k v) p cs | None => cs end.
Definition assign_snapshot (p : option (nat * slot)) (v : sval) (sn : option sval) : option sval :=
  match p with Some _ => sn | None => Some v end.
Lemma assign_run p v w a b k n cs sn :
  assign p v (Preflight w a b k n cs sn) =
  (Ok tt, Preflight w a b k n (assign_clones p v cs) (assign_snapshot p v sn)).
Proof. by destruct p as [[? ?]|]. Qed.

(** The node and depth limits of a visit. *)
Lemma visit_run it w a b k n cs sn :
  visit h it (Preflight w a b k n cs sn) =
  if decide (n + 1 <= MAX_SERIALIZATION_NODES ∧ it_depth it <= MAX_SERIALIZATION_DEPTH)
  then visit_value h it (Preflight w a b k (n + 1) cs sn)
  else (Throw InvalidJson, Preflight w a b k (n + 1) cs sn).
Proof.
  unfold visit, bind, modify, gets, throw_if. cbn [add_nodeCount nodeCount].
  case_decide as E.
  - destruct E as [E1 E2]. apply Z.ltb_ge in E1, E2. by rewrite E1, E2.
  - destruct (MAX_SERIALIZATION_NODES <? n + 1) eqn:E1; [done|].
    destruct (MAX_SERIALIZATION_DEPTH <? it_depth it) eqn:E2; [done|]. breflect. lia.
Qed.

Lemma each_app {S E A} (l1 l2 : list A) (f : A → M S E unit) s :
  each (l1 ++ l2) f s = bind (each l1 f) (λ _, each l2 f) s.
Proof.
  revert s. induction l1 as [|x l1 IH]; intros s; [done|]. cbn [app each]. unfold bind.
  destruct (f x s) as [[?|?] ?]; [apply IH|done].
Qed.

(** Pushing in reverse leaves the first element on top. *)
Lemma each_push {A} (l : list A) (g : A → option PreflightWork) (f : A → W unit) w a b k n cs sn :
  (∀ x, f x = match g x with Some i => push i | None => throw InvalidJson end) →
  let r := each (reverse l) f (Preflight w a b k n cs sn) in
  match mapM g l with
  | Some ws => r = (Ok tt, Preflight (ws ++ w) a b k n cs sn)
  | None => r.1 = Throw InvalidJson
  end.
Proof.
  intros Hf. cbn zeta. induction l as [|x l IH]; [done|].
  rewrite reverse_cons, !each_app. unfold bind. cbn [mapM].
  destruct (mapM g l) as [ws|].
  - rewrite IH. cbn [each]. unfold bind. rewrite Hf. destruct (g x); done.
  - destruct (each _ _ _) as [r τ]. simpl in IH. subst r. destruct (g x); exact eq_refl.
Qed.

Lemma each_push_bytes (l : list (jsstr * value)) (cost : jsstr * value → Z)
    (f : jsstr * value → PreflightWork) w a b k n cs sn :
  (∀ x, x ∈ l → 0 <= cost x) → b <= MAX_SECURE_JSON_BYTES →
  let r := each (reverse l) (λ x, do! addBytes (cost x) in push (f x))
    (Preflight w a b k n cs sn) in
  (b + zsum (map cost l) <= MAX_SECURE_JSON_BYTES →
     r = (Ok tt, Preflight (map f l ++ w) a (b + zsum (map cost l)) k n cs sn)) ∧
  (MAX_SECURE_JSON_BYTES < b + zsum (map cost l) → r.1 = Throw InvalidJson).
Proof.
  intros Hc Hb. cbn zeta. induction l as [|x l IH].
  - cbn [map zsum foldr]. rewrite Z.add_0_r. split; [done|lia].
  - rewrite reverse_cons, each_app. unfold bind at 1 4. cbn [map zsum foldr].
    change (foldr Z.add 0 (map cost l)) with (zsum (map cost l)).
    pose proof (Hc x ltac:(left)).
    destruct IH as [IH1 IH2]; [intros; apply Hc; by right|].
    destruct (decide (b + zsum (map cost l) <= MAX_SECURE_JSON_BYTES)) as [E|E].
    + rewrite (IH1 E). cbn [each]. unfold bind. rewrite addBytes_run.
      rewrite <-(Z.add_assoc b), (Z.add_comm (zsum _)).
      split; intros E'; [rewrite decide_True by done|rewrite decide_False by lia]; exact eq_refl.
    + split; [lia|]. intros _. specialize (IH2 ltac:(lia)).
      destruct (each _ _ _) as [r τ]. simpl in IH2. by subst.
Qed.
(** ** One value, then a list of children *)

Definition fits (b k n : Z) (j : json) (kk : Z) : Prop :=
  b + bytes j <= MAX_SECURE_JSON_BYTES ∧ k + kk <= MAX_SERIALIZATION_KEYS ∧
  n + nodes j <= MAX_SERIALIZATION_NODES.

Definition parent_ok (p : option (nat * slot)) (cs : list clone) : Prop :=
  match p with Some (l, _) => (l < length cs)%nat | None => True end.

(** [cs'] holds [new] from the position [at_] on. *)
Definition embeds (at_ : nat) (new cs' : list clone) : Prop :=
  ∀ i c, new !! i = Some c → cs' !! (at_ + i)%nat = Some c.

(** Visiting a value at depth budget [d], with anything left to do and any
    copies made so far. *)
Definition visits_value (d : nat) (v : value) : Prop := ∀ p dep w a b k n cs sn,
  dep = MAX_SERIALIZATION_DEPTH + 1 - Z.of_nat d →
  (∀ l, l ∈ a → tc (child h) (VRef l) v) → parent_ok p cs →
  0 <= b <= MAX_SECURE_JSON_BYTES → k <= MAX_SERIALIZATION_KEYS → 0 <= n <= MAX_SERIALIZATION_NODES →
  let σ := Preflight (WValue (Item v p dep) :: w) a b k n cs sn in
  match unfold h d v with
  | Some (j, kk) =>
      (fits b k n j kk → ∃ sv new,
         steps σ (Preflight w a (b + bytes j) (k + kk) (n + nodes j)
                    (assign_clones p sv cs ++ new) (assign_snapshot p sv sn)) ∧
         ∀ cs', embeds (length cs) new cs' → read_clone cs' d sv = Some j) ∧
      (¬ fits b k n j kk → fails σ)
  | None => fails σ
  end.

Definition visits (d : nat) : Prop := ∀ v, value_ok v → visits_value d v.

Definition fill (c : clone) (xs : list (slot * sval)) : clone :=
  foldl (λ c x, write_slot x.1 x.2 c) c xs.

Definition fits_all (b k n : Z) (rs : list (json * Z)) : Prop :=
  b + zsum (map bytes rs.*1) <= MAX_SECURE_JSON_BYTES ∧
  k + zsum rs.*2 <= MAX_SERIALIZATION_KEYS ∧
  n + zsum (map nodes rs.*1) <= MAX_SERIALIZATION_NODES.

Lemma walk_steps_eq σ τ τ' : steps σ τ → τ = τ' → steps σ τ'.
Proof. by intros ? ->. Qed.

Lemma alter_insert_eq (l : list clone) i x f c : l !! i = Some c →
  <[i := x]> (alter f i l) = <[i := x]> l.
Proof.
  revert i. induction l as [|y l IH]; intros [|i] H; try done.
  cbn [alter list_alter insert list_insert]. f_equal. by apply IH.
Qed.

Lemma unfold_keys_nonneg d vs rs : heap_ok h → Forall value_ok vs →
  mapM (unfold h d) vs = Some rs → 0 <= zsum rs.*2.
Proof.
  intros Hh Hvs E. apply mapM_Some in E. induction E as [|v [j k] vs rs E _ IH]; [done|].
  apply Forall_cons in Hvs as [Hv Hvs]. rewrite fmap_cons, zsum_cons. cbn [snd].
  destruct (unfold_text h Hh _ _ _ _ Hv E). specialize (IH Hvs). lia.
Qed.

Lemma visit_children d : heap_ok h → visits d → ∀ ch p dep w a b k n cs sn c,
  dep = MAX_SERIALIZATION_DEPTH + 1 - Z.of_nat d → Forall value_ok ch.*2 →
  (∀ l v, l ∈ a → v ∈ ch.*2 → tc (child h) (VRef l) v) → cs !! p = Some c →
  0 <= b <= MAX_SECURE_JSON_BYTES → k <= MAX_SERIALIZATION_KEYS → 0 <= n <= MAX_SERIALIZATION_NODES →
  let σ := Preflight (map (λ x, WValue (Item x.2 (Some (p, x.1)) dep)) ch ++ w) a b k n cs sn in
  match mapM (unfold h d) ch.*2 with
  | Some rs =>
      (fits_all b k n rs → ∃ svs new, length svs = length ch ∧
         steps σ (Preflight w a (b + zsum (map bytes rs.*1)) (k + zsum rs.*2)
                    (n + zsum (map nodes rs.*1))
                    (<[p := fill c (zip ch.*1 svs)]> cs ++ new) sn) ∧
         ∀ cs', embeds (length cs) new cs' → Forall2 (λ sv r, read_clone cs' d sv = Some r.1) svs rs) ∧
      (¬ fits_all b k n rs → fails σ)
  | None => fails σ
  end.
Proof.
  intros Hh Hvis ch p dep. induction ch as [|[s v] ch IH];
    intros w a b k n cs sn c Hdep Hch Ha Hp Hb Hk Hn; cbn zeta.
  - cbn [map app mapM fmap list_fmap]. split.
    2: { intros Hf. destruct Hf. unfold fits_all. cbn [fmap list_fmap map].
         change (zsum []) with 0. lia. }
    intros _.
    exists [], []. split; [done|]. cbn [fmap list_fmap map zip zip_with fill foldl].
    rewrite list_insert_id, app_nil_r by done. change (zsum []) with 0. rewrite !Z.add_0_r.
    split; [apply walk_steps_refl|]. by constructor.
  - rewrite fmap_cons in *. cbn [snd] in *. apply Forall_cons in Hch as [Hv Hch].
    assert (p < length cs)%nat as Hlt by by eapply lookup_lt_Some.
    specialize (Hvis v Hv (Some (p, s)) dep
      (map (λ x, WValue (Item x.2 (Some (p, x.1)) dep)) ch ++ w) a b k n cs sn Hdep
      ltac:(intros l Hl; apply Ha; [done|left]) Hlt Hb Hk Hn). cbn zeta in Hvis.
    cbn [map app mapM fst snd].
    destruct (unfold h d v) as [[j kk]|] eqn:Ev; [|exact Hvis].
    destruct (unfold_text h Hh _ _ _ _ Hv Ev) as [_ Hkk].
    pose proof (bytes_nonneg j) as Hbj. pose proof (nodes_pos j) as Hnj.
    destruct Hvis as [Hok Hbad]. cbn [mbind option_bind].
    assert (Dec : Decision (fits b k n j kk)) by (unfold fits; apply _).
    destruct Dec as [Hf|Hf].
    + destruct (Hok Hf) as (sv & new & Hst & Hrd). clear Hok Hbad.
      cbn [assign_clones assign_snapshot] in Hst. destruct Hf as (Hf1 & Hf2 & Hf3).
      specialize (IH w a (b + bytes j) (k + kk) (n + nodes j)
        (alter (write_slot s sv) p cs ++ new) sn (write_slot s sv c) Hdep Hch
        ltac:(intros l v' Hl Hv'; apply Ha; [done|by right])
        ltac:(rewrite lookup_app_l by (by rewrite length_alter); by rewrite list_lookup_alter_eq, Hp)
        ltac:(lia) Hf2 ltac:(lia)). cbn zeta in IH.
      destruct (mapM (unfold h d) ch.*2) as [rs|] eqn:Ers; [|by eapply walk_steps_fails].
      cbn [mbind option_bind mret option_ret]. unfold fits_all in *.
      rewrite (fmap_cons fst), (fmap_cons snd). cbn [map fst snd]. rewrite !zsum_cons, !Z.add_assoc.
      destruct IH as [IH1 IH2]. split; intros Hfa; [|eapply walk_steps_fails; eauto].
      destruct (IH1 Hfa) as (svs & new' & Hl & Hst' & Hrd').
      exists (sv :: svs), (new ++ new'). split; [by simpl; rewrite Hl|]. split.
      * eapply walk_steps_trans; [exact Hst|]. eapply walk_steps_eq; [exact Hst'|].
        f_equal. rewrite insert_app_l by by rewrite length_alter.
        by erewrite alter_insert_eq, (assoc_L (++)).
      * intros cs' He. constructor.
        -- cbn [fst]. apply Hrd. intros i x Hx. apply He. by apply lookup_app_l_Some.
        -- apply Hrd'. intros i x Hx. rewrite length_app, length_alter, <-Nat.add_assoc.
           apply He. rewrite lookup_app_r by lia.
           by replace (length new + i - length new)%nat with i by lia.
    + specialize (Hbad Hf). destruct (mapM (unfold h d) ch.*2) as [rs|] eqn:Ers; [|exact Hbad].
      cbn [mbind option_bind mret option_ret]. split; [|done]. intros Hfa. destruct Hf.
      unfold fits_all in Hfa. rewrite (fmap_cons fst), (fmap_cons snd) in Hfa. cbn [map fst snd] in Hfa.
      rewrite !zsum_cons in Hfa. pose proof (unfold_keys_nonneg _ _ _ Hh Hch Ers).
      pose proof (zsum_nonneg bytes rs.*1 ltac:(intros; apply bytes_nonneg)).
      pose proof (zsum_nonneg nodes rs.*1 ltac:(intros x _; pose proof (nodes_pos x); lia)).
      unfold fits. lia.
Qed.
(** ** Leaves *)

(** A visit beyond a limit throws, and one within them runs its body. *)
Lemma visit_limits v p dep w a b k n cs sn :
  ¬ (n + 1 <= MAX_SERIALIZATION_NODES ∧ dep <= MAX_SERIALIZATION_DEPTH) →
  fails (Preflight (WValue (Item v p dep) :: w) a b k n cs sn).
Proof. intros H. apply turn_fails. cbn [turn]. rewrite visit_run. by rewrite decide_False. Qed.

Lemma visits_O v : visits_value 0 v.
Proof. intros p dep w a b k n cs sn -> _ _ _ _ _. cbn. apply visit_limits. lia. Qed.

Lemma visits_leaf d v j sv x :
  unfold h (S d) v = Some (j, 0) → nodes j = 1 → counted (bytes j) x → 0 <= x →
  (∀ cs, read_clone cs (S d) sv = Some j) →
  (∀ p dep σ, visit_value h (Item v p dep) σ = (do! addBytes x in assign p sv) σ) →
  visits_value (S d) v.
Proof.
  intros Hu Hn Hx Hx0 Hr Hv p dep w a b k n cs sn -> _ _ Hb Hk Hnn. cbn zeta. rewrite Hu.
  assert (visit h (Item v p (MAX_SERIALIZATION_DEPTH + 1 - Z.of_nat (S d))) (Preflight w a b k n cs sn) =
    if decide (n + 1 <= MAX_SERIALIZATION_NODES) then
      if decide (b + x <= MAX_SECURE_JSON_BYTES) then
        (Ok tt, Preflight w a (b + x) k (n + 1) (assign_clones p sv cs) (assign_snapshot p sv sn))
      else (Throw InvalidJson, Preflight w a (b + x) k (n + 1) cs sn)
    else (Throw InvalidJson, Preflight w a b k (n + 1) cs sn)) as Hrun.
  { rewrite visit_run. cbn [it_depth]. destruct (decide (n + 1 <= _)) as [E|E].
    - rewrite decide_True by lia. rewrite Hv. unfold bind. rewrite addBytes_run.
      destruct (decide (b + x <= _)); [|done]. by rewrite assign_run.
    - by rewrite decide_False by lia. }
  unfold counted in Hx. unfold fits. rewrite Hn.
  destruct (decide (bytes j <= _)) as [E|E]; [subst x|].
  - split.
    + intros (H1 & H2 & H3). rewrite !decide_True in Hrun by done.
      exists sv, []. rewrite app_nil_r, Z.add_0_r. split; [by apply turn_steps|auto].
    + intros Hf. apply turn_fails. cbn [turn]. rewrite Hrun.
      case_decide; [|done]. rewrite decide_False by lia. done.
  - split; [lia|]. intros _. apply turn_fails. cbn [turn]. rewrite Hrun.
    case_decide; [|done]. rewrite decide_False by lia. done.
Qed.

Lemma visits_none d v : unfold h (S d) v = None →
  (∀ p dep σ, (visit_value h (Item v p dep) σ).1 = Throw InvalidJson) → visits_value (S d) v.
Proof.
  intros Hu Hv p dep w a b k n cs sn _ _ _ _ _ _. cbn zeta. rewrite Hu.
  apply turn_fails. cbn [turn]. rewrite visit_run. case_decide; [apply Hv|done].
Qed.

Lemma visits_leaves d v : value_ok v → (∀ l, v ≠ VRef l) → visits_value (S d) v.
Proof.
  intros Hok Href. destruct v as [|b|num|s|l|].
  - by eapply (visits_leaf _ _ _ SNull 4).
  - eapply (visits_leaf _ _ _ (SBool b) (if b then 4 else 5)); try done; by destruct b.
  - destruct (number_json num) as [j|] eqn:E.
    + pose proof (number_ascii _ _ Hok E) as Ha.
      apply (visits_leaf _ _ j (SNumber num) (Z.of_nat (length (stringify j)))); try done.
      * cbn [unfold]. by rewrite E.
      * destruct num; cbn in E; by simplify_eq.
      * unfold bytes. rewrite size_ascii by done. unfold counted. case_decide; lia.
      * lia.
      * intros p dep σ. cbn [visit_value it_value it_parent]. by rewrite E.
    + apply visits_none; [cbn [unfold]; by rewrite E|].
      intros p dep σ. cbn [visit_value it_value it_parent]. by rewrite E.
  - eapply (visits_leaf _ _ _ (SString s) (jsonStringByteLength s)); try done.
    + by apply jsonStringByteLength_exact.
    + pose proof (jsonStringByteLength_exact s Hok) as He. unfold counted in He.
      pose proof (size_nonneg (quote s)). case_decide; [lia|]. unfold MAX_SECURE_JSON_BYTES in He. lia.
  - by destruct (Href l).
  - by apply visits_none.
Qed.

(** ** Containers *)

Definition child_items (c : nat) (dep : Z) (ch : list (slot * value)) : list PreflightWork :=
  map (λ x, WValue (Item x.2 (Some (c, x.1)) dep)) ch.

(** What entering an object does: it throws, or it makes the copy [fresh] and
    pushes the children [ch], having counted [over] bytes. *)
Definition enters (body : option (nat * slot) → Z → W unit) (ch : option (list (slot * value)))
    (fresh : clone) (over : Z) : Prop := ∀ p dep w a b k n cs sn,
  parent_ok p cs → 0 <= b <= MAX_SECURE_JSON_BYTES →
  let r := body p dep (Preflight w a b k n cs sn) in
  match ch with
  | Some ch =>
      (b + over <= MAX_SECURE_JSON_BYTES →
       r = (Ok tt, Preflight (child_items (length cs) (dep + 1) ch ++ w) a (b + over) k n
                     (assign_clones p (SRef (length cs)) cs ++ [fresh])
                     (assign_snapshot p (SRef (length cs)) sn)) ∨
       MAX_SERIALIZATION_NODES < Z.of_nat (length ch) ∧ r.1 = Throw InvalidJson) ∧
      (MAX_SECURE_JSON_BYTES < b + over → r.1 = Throw InvalidJson)
  | None => r.1 = Throw InvalidJson
  end.

Lemma mapM_push {A} (f : A → option value) (g : A → value → PreflightWork) l :
  mapM (λ x, v ← f x; Some (g x v)) l = (vs ← mapM f l; Some (zip_with g l vs)).
Proof.
  induction l as [|x l IH]; [done|]. cbn [mapM]. rewrite IH.
  destruct (f x); cbn [mbind option_bind]; [|done].
  by destruct (mapM f l).
Qed.
Lemma child_items_zip {A} (key_of : A → slot) c dep l vs :
  child_items c dep (zip (key_of <$> l) vs) =
  zip_with (λ x v, WValue (Item v (Some (c, key_of x)) dep)) l vs.
Proof.
  revert vs. induction l as [|x l IH]; intros [|v vs]; try done.
  cbn [fmap list_fmap zip zip_with child_items map]. f_equal. apply IH.
Qed.

Lemma assign_clones_app p v cs c : parent_ok p cs →
  assign_clones p v (cs ++ [c]) = assign_clones p v cs ++ [c].
Proof. destruct p as [[l s]|]; [|done]. intros H. cbn. by rewrite alter_app_l. Qed.
Lemma assign_clones_length p v cs : length (assign_clones p v cs) = length cs.
Proof. destruct p as [[l s]|]; [|done]. apply length_alter. Qed.

Definition array_children (o : object) : option (list (slot * value)) :=
  vs ← array_values o; Some (zip (Index <$> seqZ 0 (alength o)) vs).
Definition object_children (o : object) : option (list (slot * value)) :=
  es ← object_values o; Some (zip (Name <$> es.*1) es.*2).

Definition array_push (l c : nat) (dep i : Z) : W unit :=
  match descriptor (h l) (KString (number_to_string i)) with
  | Some (Property true (Some v)) => push (WValue (Item v (Some (c, Index i)) dep))
  | _ => throw InvalidJson
  end.
Definition odd_array (o : object) : bool :=
  let es := filter (λ p, enumerable p.2 = true) (own o) in
  existsb (λ p, is_symbol p.1) es || negb (Z.of_nat (length es) =? alength o).

(** The state after the copy of a container has its place. *)
Definition entered (p : option (nat * slot)) (fresh : clone) (over : Z) w a b k n cs sn : preflight :=
  Preflight w a (b + over) k n (assign_clones p (SRef (length cs)) cs ++ [fresh])
    (assign_snapshot p (SRef (length cs)) sn).

Lemma enter_run p fresh over w a b k n cs sn (m : nat → W unit) : parent_ok p cs →
  (let! c := new_clone fresh in do! assign p (SRef c) in do! addBytes over in m c)
    (Preflight w a b k n cs sn) =
  if decide (b + over <= MAX_SECURE_JSON_BYTES)
  then m (length cs) (entered p fresh over w a b k n cs sn)
  else (Throw InvalidJson, entered p fresh over w a b k n cs sn).
Proof.
  intros Hp. etrans.
  { instantiate (1 := (do! assign p (SRef (length cs)) in do! addBytes over in m (length cs))
      (Preflight w a b k n (cs ++ [fresh]) sn)). done. }
  unfold bind at 1. rewrite assign_run, assign_clones_app by done.
  unfold bind. rewrite addBytes_run.
  by destruct (decide (b + over <= _)).
Qed.

Lemma visit_array_run l p dep w a b k n cs sn : parent_ok p cs →
  let σ := Preflight w a b k n cs sn in
  let len := alength (h l) in
  visit_array h l (Item (VRef l) p dep) σ =
  if MAX_SERIALIZATION_NODES <? len then (Throw InvalidJson, σ)
  else if odd_array (h l) then (Throw InvalidJson, σ)
  else
    let τ := entered p (CArray (replicate (Z.to_nat len) None)) (2 + Z.max 0 (len - 1)) w a b k n cs sn in
    if decide (b + (2 + Z.max 0 (len - 1)) <= MAX_SECURE_JSON_BYTES)
    then each (reverse (seqZ 0 len)) (array_push l (length cs) (dep + 1)) τ
    else (Throw InvalidJson, τ).
Proof.
  intros Hp. cbn zeta. unfold visit_array. fold (odd_array (h l)).
  destruct (MAX_SERIALIZATION_NODES <? alength (h l)); [done|].
  destruct (odd_array (h l)); [done|].
  change (throw_if false InvalidJson) with (ret tt : W unit).
  etrans; [|apply (enter_run p (CArray (replicate (Z.to_nat (alength (h l))) None)) _ w a b k n cs sn
    (λ c, each (reverse (seqZ 0 (alength (h l)))) (array_push l c (dep + 1)))); done]. done.
Qed.

Lemma enters_array l : object_ok (h l) →
  enters (λ p dep, visit_array h l (Item (VRef l) p dep)) (array_children (h l))
    (CArray (replicate (Z.to_nat (alength (h l))) None)) (2 + Z.max 0 (alength (h l) - 1)).
Proof.
  intros Ho p dep w a b k n cs sn Hp Hb. cbn zeta. unfold array_children.
  rewrite visit_array_run by done. cbn zeta.
  pose proof (array_values_ok (h l)) as Hvs. unfold array_values in *. fold (odd_array (h l)) in *.
  set (len := alength (h l)) in *.
  destruct (odd_array (h l)) eqn:Eo; [by destruct (_ <? len)|].
  pose proof (each_push (seqZ 0 len)
    (λ i, v ← array_item (h l) i; Some (WValue (Item v (Some (length cs, Index i)) (dep + 1))))
    (array_push l (length cs) (dep + 1)) w a (b + (2 + Z.max 0 (len - 1))) k n
    (assign_clones p (SRef (length cs)) cs ++ [CArray (replicate (Z.to_nat len) None)])
    (assign_snapshot p (SRef (length cs)) sn)
    ltac:(intros i; unfold array_push, array_item; by destruct (descriptor _ _) as [[[] [?|]]|])) as Hpush.
  cbn zeta in Hpush. rewrite mapM_push in Hpush.
  destruct (mapM (array_item (h l)) (seqZ 0 len)) as [vs|] eqn:E; cbn [mbind option_bind] in *.
  - destruct (Hvs vs Ho eq_refl) as (_ & Hl & _). rewrite child_items_zip.
    assert (length (zip (Index <$> seqZ 0 len) vs) = length vs) as Hlz.
    { rewrite length_zip, length_fmap, length_seqZ. unfold len. lia. }
    rewrite Hlz, Hl. fold len. split.
    + intros Hover. destruct (_ <? len) eqn:El; breflect; [by right|]. left.
      rewrite decide_True by done. exact Hpush.
    + intros Hover. destruct (_ <? len); [done|]. by rewrite decide_False by lia.
  - destruct (_ <? len); [done|]. case_decide; [exact Hpush|done].
Qed.

(** ** Objects *)

Definition key_size (k : jsstr) : Z := utf8ByteLength (quote k) + 1.
Lemma key_costs (ks : list jsstr) : Forall units_ok ks →
  counted (zsum (map key_size ks)) (zsum (map (λ k, jsonStringByteLength k + 1) ks)) ∧
  Forall (λ k, 0 <= jsonStringByteLength k + 1) ks.
Proof.
  induction 1 as [|k ks Hk _ [IH1 IH2]]; [by split; [|constructor]|].
  pose proof (jsonStringByteLength_exact k Hk) as He. cbn [map]. rewrite !zsum_cons.
  pose proof (size_nonneg (quote k)) as Hq.
  pose proof (zsum_nonneg key_size ks ltac:(intros x _; unfold key_size; pose proof (size_nonneg (quote x)); lia)).
  rewrite Forall_forall in IH2.
  pose proof (zsum_nonneg (λ k, jsonStringByteLength k + 1) ks IH2) as Hs.
  rewrite <-Forall_forall in IH2. unfold counted, key_size in *. unfold MAX_SECURE_JSON_BYTES in *.
  split.
  - repeat case_decide; lia.
  - constructor; [|done]. case_decide; lia.
Qed.

Lemma child_items_entries c dep (es : list (jsstr * value)) :
  child_items c dep (zip (Name <$> es.*1) es.*2) =
  map (λ e, WValue (Item e.2 (Some (c, Name e.1)) dep)) es.
Proof.
  induction es as [|[k v] es IH]; [done|]. rewrite !fmap_cons.
  cbn [zip zip_with child_items map fst snd]. f_equal. exact IH.
Qed.

Lemma visit_object_run l p dep w a b k n cs sn es : parent_ok p cs →
  object_values (h l) = Some es →
  let over := 2 + Z.max 0 (Z.of_nat (length es) - 1) in
  let τ := entered p (CObject []) over w a b k n cs sn in
  visit_object h l (Item (VRef l) p dep) (Preflight w a b k n cs sn) =
  if decide (b + over <= MAX_SECURE_JSON_BYTES)
  then each (reverse es) (λ e, do! addBytes (jsonStringByteLength e.1 + 1) in
         push (WValue (Item e.2 (Some (length cs, Name e.1)) (dep + 1)))) τ
  else (Throw InvalidJson, τ).
Proof.
  intros Hp. unfold object_values, visit_object. destruct (plain (h l)); [|done].
  intros Hes. cbn zeta. rewrite Hes.
  etrans; [|apply (enter_run p (CObject []) _ w a b k n cs sn
    (λ c, each (reverse es) (λ e, do! addBytes (jsonStringByteLength e.1 + 1) in
       push (WValue (Item e.2 (Some (c, Name e.1)) (dep + 1)))))); done]. done.
Qed.

Definition object_overhead (es : list (jsstr * value)) : Z :=
  2 + Z.max 0 (Z.of_nat (length es) - 1) + zsum (map key_size es.*1).

Lemma enters_object l : object_ok (h l) →
  enters (λ p dep, visit_object h l (Item (VRef l) p dep)) (object_children (h l))
    (CObject []) (object_overhead (default [] (object_values (h l)))).
Proof.
  intros Ho p dep w a b k n cs sn Hp Hb. cbn zeta. unfold object_children.
  destruct (object_values (h l)) as [es|] eqn:E; cbn [mbind option_bind from_option id].
  2: { unfold object_values, visit_object in *. destruct (plain (h l)); [|done].
       change (throw_if (negb true) InvalidJson) with (ret tt : W unit).
       unfold bind, ret, of_option. by rewrite E. }
  destruct (object_values_ok _ _ Ho E) as (_ & Hks & _).
  rewrite (visit_object_run l p dep w a b k n cs sn es Hp E). cbn zeta.
  rewrite child_items_entries. unfold object_overhead, entered.
  set (over := 2 + Z.max 0 (Z.of_nat (length es) - 1)).
  assert (0 <= over) as Hover0 by (unfold over; lia).
  destruct (key_costs es.*1 Hks) as [Hc Hpos].
  assert (zsum (map (λ e : jsstr * value, jsonStringByteLength e.1 + 1) es) =
          zsum (map (λ k, jsonStringByteLength k + 1) es.*1)) as Hz.
  { f_equal. symmetry. apply map_map. }
  assert (0 <= zsum (map key_size es.*1)) as Hkey.
  { apply zsum_nonneg. intros x _. unfold key_size. pose proof (size_nonneg (quote x)). lia. }
  destruct (decide (b + over <= MAX_SECURE_JSON_BYTES)) as [Eo|Eo].
  - destruct (each_push_bytes es (λ e, jsonStringByteLength e.1 + 1)
      (λ e, WValue (Item e.2 (Some (length cs, Name e.1)) (dep + 1))) w a (b + over) k n
      (assign_clones p (SRef (length cs)) cs ++ [CObject []])
      (assign_snapshot p (SRef (length cs)) sn)) as [H1 H2]; [|done|].
    + intros x Hx. rewrite Forall_forall in Hpos. apply Hpos.
      apply list_elem_of_fmap. by exists x.
    + rewrite Hz in H1, H2. unfold counted in Hc. rewrite Z.add_assoc.
      split; intros Hover.
      * left. rewrite decide_True in Hc by lia. rewrite Hc in H1. by apply H1.
      * apply H2. destruct (decide (zsum (map key_size es.*1) <= _)); lia.
  - split; [lia|done].
Qed.

(** ** A container after its children *)

Lemma js_add_remove (l : nat) a : l ∉ a → js_remove l (js_add l a) = a.
Proof.
  intros Hl. unfold js_add, js_remove. rewrite decide_False by done.
  rewrite filter_app, filter_cons_False by (intros H; by apply H). rewrite app_nil_r.
  induction a as [|x a IH]; [done|]. apply not_elem_of_cons in Hl as [Hx Hl].
  rewrite filter_cons_True by congruence. by rewrite IH.
Qed.

Lemma visit_ref_run l p dep w a b k n cs sn : l ∉ a →
  visit_value h (Item (VRef l) p dep) (Preflight w a b k n cs sn) =
  let τ := Preflight (WExit l :: w) (js_add l a) b (k + Z.of_nat (length (own (h l)))) n cs sn in
  if decide (k + Z.of_nat (length (own (h l))) <= MAX_SERIALIZATION_KEYS) then
    if is_array (h l) then visit_array h l (Item (VRef l) p dep) τ
    else visit_object h l (Item (VRef l) p dep) τ
  else (Throw InvalidJson, τ).
Proof.
  intros Hl. cbn [visit_value it_value it_parent]. unfold bind, gets, throw_if, modify, push.
  cbn [ancestors]. rewrite bool_decide_eq_false_2 by done.
  cbn -[visit_array visit_object js_add Z.ltb Z.of_nat MAX_SERIALIZATION_KEYS].
  case_decide as E.
  - rewrite (proj2 (Z.ltb_ge _ _)) by done. by destruct (is_array (h l)).
  - rewrite (proj2 (Z.ltb_lt _ _)) by lia. done.
Qed.

(** The limits of a tree, from the limits of its children. *)
Lemma container_fits over b k n K j rs :
  bytes j = over + zsum (map bytes rs.*1) → nodes j = 1 + zsum (map nodes rs.*1) →
  fits b k n j (K + zsum rs.*2) ↔ fits_all (b + over) (k + K) (n + 1) rs.
Proof. unfold fits, fits_all. lia. Qed.

(** What the entry of a container does in one turn. *)
Lemma enter_turn l p dep w a b k n cs sn body c fresh over :
  let K := Z.of_nat (length (own (h l))) in
  let σ := Preflight (WValue (Item (VRef l) p dep) :: w) a b k n cs sn in
  visit h (Item (VRef l) p dep) (Preflight w a b k n cs sn) =
    (if decide (k + K <= MAX_SERIALIZATION_KEYS)
     then body p dep (Preflight (WExit l :: w) (js_add l a) b (k + K) (n + 1) cs sn)
     else (Throw InvalidJson, Preflight (WExit l :: w) (js_add l a) b (k + K) (n + 1) cs sn)) →
  enters body (Some c) fresh over → parent_ok p cs → 0 <= b <= MAX_SECURE_JSON_BYTES →
  steps σ (Preflight (child_items (length cs) (dep + 1) c ++ WExit l :: w)
             (js_add l a) (b + over) (k + K) (n + 1)
             (assign_clones p (SRef (length cs)) cs ++ [fresh])
             (assign_snapshot p (SRef (length cs)) sn)) ∧
  b + over <= MAX_SECURE_JSON_BYTES ∧ k + K <= MAX_SERIALIZATION_KEYS ∨
  fails σ ∧ (MAX_SECURE_JSON_BYTES < b + over ∨ MAX_SERIALIZATION_KEYS < k + K ∨
             MAX_SERIALIZATION_NODES < Z.of_nat (length c)).
Proof.
  cbn zeta. intros Hrun Hent Hp Hb. set (K := Z.of_nat (length (own (h l)))) in *.
  destruct (decide (k + K <= MAX_SERIALIZATION_KEYS)) as [Ek|Ek].
  - destruct (Hent p dep (WExit l :: w) (js_add l a) b (k + K) (n + 1) cs sn Hp Hb) as [Hent1 Hent2].
    destruct (decide (b + over <= MAX_SECURE_JSON_BYTES)) as [Eb|Eb].
    + destruct (Hent1 Eb) as [Hr|[Hlen Hr]].
      * left. split; [|done]. apply turn_steps. cbn [turn]. by rewrite Hrun, Hr.
      * right. split; [|lia]. apply turn_fails. cbn [turn]. by rewrite Hrun, Hr.
    + right. split; [|lia]. apply turn_fails. cbn [turn]. rewrite Hrun. apply Hent2. lia.
  - right. split; [|lia]. apply turn_fails. cbn [turn]. by rewrite Hrun.
Qed.

(** A container within its own ancestors does not unfold, and is refused. *)
Lemma visits_cycle d l p dep w a b k n cs sn : l ∈ a → tc (child h) (VRef l) (VRef l) →
  n + 1 <= MAX_SERIALIZATION_NODES → dep <= MAX_SERIALIZATION_DEPTH →
  unfold h d (VRef l) = None ∧
  fails (Preflight (WValue (Item (VRef l) p dep) :: w) a b k n cs sn).
Proof.
  intros Hin Hc Hn Hd. split.
  - destruct (unfold h d (VRef l)) as [[j kk]|] eqn:E; [|done]. by apply unfold_acyclic in E.
  - apply turn_fails. cbn [turn]. rewrite visit_run, decide_True by done.
    cbn [visit_value it_value]. unfold bind, gets, throw_if. cbn [ancestors].
    by rewrite bool_decide_eq_true_2.
Qed.

Lemma visits_container d l body ch fresh over :
  heap_ok h → visits d →
  (∀ p dep, body p dep = if is_array (h l) then visit_array h l (Item (VRef l) p dep)
                         else visit_object h l (Item (VRef l) p dep)) →
  enters body ch fresh over → 0 <= over →
  (∀ c, ch = Some c → Forall value_ok c.*2 ∧ ∀ v, v ∈ c.*2 → child h (VRef l) v) →
  (match ch with
   | Some c => ∃ mk, unfold h (S d) (VRef l) =
         (rs ← mapM (unfold h d) c.*2;
          Some (mk rs.*1, Z.of_nat (length (own (h l))) + zsum rs.*2)) ∧
       (∀ rs, mapM (unfold h d) c.*2 = Some rs →
          bytes (mk rs.*1) = over + zsum (map bytes rs.*1) ∧
          nodes (mk rs.*1) = 1 + zsum (map nodes rs.*1)) ∧
       (∀ cs' m svs (rs : list (json * Z)), cs' !! m = Some (fill fresh (zip c.*1 svs)) → length svs = length c →
          Forall2 (λ sv r, read_clone cs' d sv = Some r.1) svs rs →
          read_clone cs' (S d) (SRef m) = Some (mk rs.*1))
   | None => unfold h (S d) (VRef l) = None
   end) →
  visits_value (S d) (VRef l).
Proof.
  intros Hh Hvis Hbody Hent Hov Hch Hspec p dep w a b k n cs sn Hdep Ha Hp Hb Hk Hn. cbn zeta.
  destruct (decide (n + 1 <= MAX_SERIALIZATION_NODES)) as [En|En].
  2: { destruct (unfold h (S d) (VRef l)) as [[j kk]|].
       - split; [intros (_ & _ & Hf); pose proof (nodes_pos j); lia|].
         intros _. apply visit_limits. lia.
       - apply visit_limits. lia. }
  assert (dep <= MAX_SERIALIZATION_DEPTH) as Hd by lia.
  destruct (decide (l ∈ a)) as [Hin|Hin].
  { destruct (visits_cycle (S d) l p dep w a b k n cs sn Hin (Ha l Hin) En Hd) as [-> ?]. done. }
  set (K := Z.of_nat (length (own (h l)))) in *.
  assert (Hrun : visit h (Item (VRef l) p dep) (Preflight w a b k n cs sn) =
    if decide (k + K <= MAX_SERIALIZATION_KEYS)
    then body p dep (Preflight (WExit l :: w) (js_add l a) b (k + K) (n + 1) cs sn)
    else (Throw InvalidJson, Preflight (WExit l :: w) (js_add l a) b (k + K) (n + 1) cs sn)).
  { rewrite visit_run, decide_True, visit_ref_run by done. cbn zeta. fold K. rewrite Hbody.
    by destruct (is_array (h l)). }
  destruct ch as [c|].
  2: { rewrite Hspec. apply turn_fails. cbn [turn]. rewrite Hrun. case_decide; [|done].
       exact (Hent p dep (WExit l :: w) (js_add l a) b (k + K) (n + 1) cs sn Hp Hb). }
  destruct (Hch c eq_refl) as [Hcv Hcc]. destruct Hspec as (mk & -> & Hsz & Hread).
  pose proof (enter_turn l p dep w a b k n cs sn body c fresh over Hrun Hent Hp Hb) as Hgo.
  cbn zeta in Hgo. fold K in Hgo.
  set (cs1 := assign_clones p (SRef (length cs)) cs ++ [fresh]) in *.
  assert (length (assign_clones p (SRef (length cs)) cs) = length cs) as Hlen
    by apply assign_clones_length.
  destruct Hgo as [(Hst & Hb1 & Hk1)|[Hfail Hlim]].
  - pose proof (visit_children d Hh Hvis c (length cs) (dep + 1) (WExit l :: w) (js_add l a)
      (b + over) (k + K) (n + 1) cs1 (assign_snapshot p (SRef (length cs)) sn) fresh ltac:(lia) Hcv) as Hkids.
    specialize (Hkids ltac:(intros l' v Hl' Hv; apply elem_of_js_add in Hl' as [->|Hl'];
      [by apply tc_once, Hcc|eapply tc_r; [by apply Ha|by apply Hcc]])).
    specialize (Hkids ltac:(unfold cs1; rewrite lookup_app_r, Hlen, Nat.sub_diag by lia; done)
      ltac:(lia) Hk1 ltac:(lia)). cbn zeta in Hkids. fold (child_items (length cs) (dep + 1) c) in Hkids.
    destruct (mapM (unfold h d) c.*2) as [rs|] eqn:Ers; cbn [mbind option_bind];
      [|by eapply walk_steps_fails].
    destruct (Hsz rs eq_refl) as [Hbs Hns]. rewrite (container_fits over b k n K _ rs Hbs Hns).
    destruct Hkids as [Hok Hbad]. split; [|intros Hf; eapply walk_steps_fails; eauto].
    intros Hf. destruct (Hok Hf) as (svs & new & Hls & Hst' & Hrd).
    exists (SRef (length cs)), (fill fresh (zip c.*1 svs) :: new). split.
    + eapply walk_steps_trans; [exact Hst|]. eapply walk_steps_trans; [exact Hst'|].
      apply turn_steps. cbn [turn]. unfold modify, set_ancestors.
      cbn [work ancestors byteCount keyCount nodeCount clones snapshot].
      rewrite js_add_remove, Hbs, Hns by done. unfold cs1.
      rewrite insert_app_r_alt by lia. rewrite Hlen, Nat.sub_diag. cbn [insert list_insert].
      rewrite <-(assoc_L (++)). cbn [app]. do 2 f_equal; lia.
    + intros cs' He. eapply Hread; [|exact Hls|].
      * specialize (He O _ eq_refl). by rewrite Nat.add_0_r in He.
      * apply Hrd. intros i x Hx. unfold cs1. rewrite length_app, Hlen. cbn [length].
        rewrite <-Nat.add_assoc. by apply (He (1 + i)%nat).
  - destruct (mapM (unfold h d) c.*2) as [rs|] eqn:Ers; cbn [mbind option_bind]; [|done].
    split; [|done]. intros (Hf1 & Hf2 & Hf3). destruct (Hsz rs eq_refl) as [Hbs Hns].
    rewrite Hbs in Hf1. rewrite Hns in Hf3.
    pose proof (unfold_keys_nonneg _ _ _ Hh Hcv Ers).
    pose proof (zsum_nonneg bytes rs.*1 ltac:(intros; apply bytes_nonneg)).
    pose proof (zsum_length nodes rs.*1 nodes_pos) as Hll. rewrite length_fmap in Hll.
    apply length_mapM in Ers. rewrite length_fmap in Ers. lia.
Qed.

(** ** Arrays and objects *)

Lemma fill_array n : ∀ pre svs, length svs = n →
  fill (CArray (pre ++ replicate n None)) (zip (Index <$> seqZ (Z.of_nat (length pre)) (Z.of_nat n)) svs) =
  CArray (pre ++ (Some <$> svs)).
Proof.
  induction n as [|n IH]; intros pre svs Hl.
  - destruct svs; [|done]. done.
  - destruct svs as [|sv svs]; [done|]. injection Hl as Hl.
    rewrite seqZ_cons by lia. rewrite !fmap_cons. cbn [zip zip_with fill foldl write_slot fst snd].
    rewrite Nat2Z.id, replicate_S.
    assert (<[length pre := Some sv]> (pre ++ None :: replicate n None) =
            (pre ++ [Some sv]) ++ replicate n None) as ->.
    { rewrite insert_app_r_alt, Nat.sub_diag by done. cbn. by rewrite <-(assoc_L (++)). }
    specialize (IH (pre ++ [Some sv]) svs Hl). rewrite length_app, Nat.add_1_r in IH.
    rewrite Nat2Z.inj_succ in IH. replace (Z.pred (Z.of_nat (S n))) with (Z.of_nat n) by lia.
    unfold fill in IH. rewrite IH, <-(assoc_L (++)). done.
Qed.
Lemma fill_object ks : ∀ pre svs, length svs = length ks → NoDup (pre.*1 ++ ks) →
  fill (CObject pre) (zip (Name <$> ks) svs) = CObject (pre ++ zip ks svs).
Proof.
  induction ks as [|k ks IH]; intros pre svs Hl Hnd.
  - destruct svs; [|done]. cbn. by rewrite app_nil_r.
  - destruct svs as [|sv svs]; [done|]. injection Hl as Hl.
    rewrite fmap_cons. cbn [zip zip_with fill foldl write_slot fst snd].
    rewrite jm_set_absent.
    + specialize (IH (pre ++ [(k, sv)]) svs Hl). unfold fill in IH.
      rewrite IH, <-(assoc_L (++)); [done|]. rewrite fmap_app, <-(assoc_L (++)). done.
    + apply jm_get_None. intros Hin. apply NoDup_app in Hnd as (_ & Hd & _).
      apply (Hd k Hin). left.
Qed.

Lemma mapM_Forall2 {A B} (f : A → option B) l k :
  Forall2 (λ x y, f x = Some y) l k → mapM f l = Some k.
Proof. intros. by apply mapM_Some. Qed.

Lemma read_array cs d l svs (rs : list (json * Z)) : cs !! l = Some (CArray (Some <$> svs)) →
  Forall2 (λ sv r, read_clone cs d sv = Some r.1) svs rs →
  read_clone cs (S d) (SRef l) = Some (JArr rs.*1).
Proof.
  intros Hl Hf. cbn [read_clone]. rewrite Hl.
  rewrite (mapM_Forall2 _ (Some <$> svs) rs.*1); [done|].
  apply Forall2_fmap. exact Hf.
Qed.
Lemma read_object cs d l ks svs (rs : list (json * Z)) : cs !! l = Some (CObject (zip ks svs)) →
  length ks = length svs → Forall2 (λ sv r, read_clone cs d sv = Some r.1) svs rs →
  read_clone cs (S d) (SRef l) = Some (JObj (zip ks rs.*1)).
Proof.
  intros Hl Hk Hf. cbn [read_clone]. rewrite Hl.
  rewrite (mapM_Forall2 _ (zip ks svs) (zip ks rs.*1)); [done|]. clear Hl.
  revert ks Hk. induction Hf as [|sv r svs rs Hr _ IH]; intros [|k ks] Hk; try done.
  rewrite fmap_cons. cbn [zip zip_with]. constructor; [|apply IH; by injection Hk].
  cbn [fst snd]. by rewrite Hr.
Qed.

Lemma Forall_unfold_text d vs rs : heap_ok h → Forall value_ok vs →
  mapM (unfold h d) vs = Some rs → Forall (λ j, text (stringify j)) rs.*1.
Proof.
  intros Hh Hvs E. apply mapM_Some in E. induction E as [|v [j k] vs rs E _ IH]; [by constructor|].
  apply Forall_cons in Hvs as [Hv Hvs]. rewrite fmap_cons. constructor; [|by apply IH].
  by eapply unfold_text.
Qed.

Lemma visits_array d l : heap_ok h → visits d → is_array (h l) = true → visits_value (S d) (VRef l).
Proof.
  intros Hh Hvis Harr. pose proof (Hh l) as Ho.
  eapply (visits_container d l (λ p dep, visit_array h l (Item (VRef l) p dep)));
    [done|done|intros; by rewrite Harr|by apply enters_array|..].
  - lia.
  - intros c Hc. unfold array_children in Hc. apply bind_Some in Hc as (vs & E & [= <-]).
    destruct (array_values_ok _ _ Ho E) as (Hvs & Hl & _).
    rewrite snd_zip by (rewrite length_fmap, length_seqZ; lia). split; [done|].
    intros v Hv. exists l. split; [done|]. unfold held. rewrite Harr, E. done.
  - unfold array_children. destruct (array_values (h l)) as [vs|] eqn:E; cbn [mbind option_bind].
    2: { rewrite unfold_ref, Harr, E. done. }
    destruct (array_values_ok _ _ Ho E) as (Hvs & Hl & _). exists JArr.
    assert (length (Index <$> seqZ 0 (alength (h l))) = length vs) as Hlz.
    { rewrite length_fmap, length_seqZ. lia. }
    rewrite snd_zip, fst_zip by lia. split_and!.
    + rewrite unfold_ref, Harr, E. done.
    + intros rs Hrs. rewrite bytes_arr by by eapply Forall_unfold_text.
      apply length_mapM in Hrs as Hlr. rewrite length_fmap, <-Hlr, Hl. done.
    + intros cs' m svs rs Hm Hls Hf. eapply read_array; [|exact Hf]. rewrite Hm.
      rewrite length_zip, Hlz, Nat.min_id in Hls. f_equal.
      pose proof (fill_array (length vs) [] svs Hls) as Hfill. cbn [length app] in Hfill.
      by rewrite Hl in Hfill; rewrite <-Hl, Nat2Z.id; rewrite <-Hl in Hfill.
Qed.

Lemma visits_object d l : heap_ok h → visits d → is_array (h l) = false → visits_value (S d) (VRef l).
Proof.
  intros Hh Hvis Harr. pose proof (Hh l) as Ho.
  eapply (visits_container d l (λ p dep, visit_object h l (Item (VRef l) p dep)));
    [done|done|intros; by rewrite Harr|by apply enters_object|..].
  - unfold object_overhead. pose proof (zsum_nonneg key_size (default [] (object_values (h l))).*1) as Hz.
    specialize (Hz ltac:(intros x _; unfold key_size; pose proof (size_nonneg (quote x)); lia)). lia.
  - intros c Hc. unfold object_children in Hc. apply bind_Some in Hc as (es & E & [= <-]).
    destruct (object_values_ok _ _ Ho E) as (_ & _ & Hvs).
    rewrite snd_zip by (rewrite !length_fmap; lia). split; [done|].
    intros v Hv. exists l. split; [done|]. unfold held. rewrite Harr, E. done.
  - unfold object_children. destruct (object_values (h l)) as [es|] eqn:E; cbn [mbind option_bind from_option id].
    2: { rewrite unfold_ref, Harr, E. done. }
    destruct (object_values_ok _ _ Ho E) as (Hnd & Hks & Hvs). exists (λ js, JObj (zip es.*1 js)).
    rewrite snd_zip, fst_zip by (rewrite !length_fmap; lia). split_and!.
    + rewrite unfold_ref, Harr, E. done.
    + intros rs Hrs. pose proof (Forall_unfold_text _ _ _ Hh Hvs Hrs) as Ht.
      apply length_mapM in Hrs as Hlr. rewrite length_fmap in Hlr.
      assert (length es.*1 = length rs.*1) as Hle by (by rewrite !length_fmap).
      rewrite bytes_obj.
      * cbn [nodes]. rewrite (map_zip_r es.*1 rs.*1 nodes), (map_zip_r es.*1 rs.*1 bytes) by done.
        change (map (λ p : jsstr * json, utf8ByteLength (quote p.1) + 1) (zip es.*1 rs.*1))
          with (map (λ p : jsstr * json, key_size p.1) (zip es.*1 rs.*1)).
        rewrite (map_zip_l es.*1 rs.*1 key_size) by done.
        rewrite length_zip, !length_fmap, <-Hlr, Nat.min_id. unfold object_overhead. split; lia.
      * apply Forall_forall. intros [k j] Hkj. split.
        -- exact (proj1 (Forall_forall _ _) Hks k (elem_of_zip_l _ _ _ _ Hkj)).
        -- exact (proj1 (Forall_forall _ _) Ht j (elem_of_zip_r _ _ _ _ Hkj)).
    + intros cs' m svs rs Hm Hls Hf. rewrite length_zip, !length_fmap, Nat.min_id in Hls.
      eapply read_object; [|by rewrite length_fmap|exact Hf]. rewrite Hm.
      by rewrite (fill_object es.*1 []) by (done || by rewrite length_fmap).
Qed.

Lemma visits_all d : heap_ok h → visits d.
Proof.
  intros Hh. induction d as [|d IH]; intros v Hv; [apply visits_O|].
  destruct v as [| | | |l|]; try by apply visits_leaves.
  destruct (is_array (h l)) eqn:E; [by apply visits_array|by apply visits_object].
Qed.
End walk.

(** * The walk ends *)

Definition is_exit (i : PreflightWork) : bool := match i with WExit _ => true | WValue _ => false end.
Definition exits (w : list PreflightWork) : nat := length (List.filter is_exit w).

(** What the parts of a visit leave alone. *)
Definition keeps (σ : preflight) (r : res walk_error unit) (τ : preflight) : Prop :=
  nodeCount τ = nodeCount σ ∧ exits (work τ) = exits (work σ) ∧ r ≠ Throw OutOfFuel.

Lemma keeps_trans (m k : W unit) σ :
  wp m (keeps σ) σ → (∀ τ, wp k (keeps τ) τ) → wp (do! m in k) (keeps σ) σ.
Proof.
  intros Hm Hk. apply wp_bind. eapply wp_mono; [exact Hm|]. intros [u|e] τ (H1 & H2 & H3).
  - eapply wp_mono; [apply Hk|]. intros r ρ (H4 & H5 & H6). split_and!; congruence.
  - split_and!; [done..|]. congruence.
Qed.
Lemma keeps_addBytes x σ : wp (addBytes x) (keeps σ) σ.
Proof. unfold addBytes. wp_go; by split_and!. Qed.
Lemma keeps_assign p v σ : wp (assign p v) (keeps σ) σ.
Proof. unfold assign. destruct p as [[? ?]|]; wp_go; by split_and!. Qed.
Lemma keeps_push i σ : is_exit i = false → wp (push i) (keeps σ) σ.
Proof.
  intros Hi. unfold push. wp_go. split_and!; [done| |done].
  unfold exits. cbn [set_work work List.filter]. by rewrite Hi.
Qed.
Lemma keeps_each {A} (l : list A) (f : A → W unit) σ :
  (∀ x τ, wp (f x) (keeps τ) τ) → wp (each l f) (keeps σ) σ.
Proof.
  intros Hf. revert σ. induction l as [|x l IH]; intros σ; [by split_and!|].
  cbn [each]. by apply keeps_trans.
Qed.
Lemma keeps_throw_if (b : bool) σ : wp (throw_if b InvalidJson) (keeps σ) σ.
Proof. destruct b; by split_and!. Qed.
Lemma keeps_enter c p x (k : nat → W unit) σ : (∀ l τ, wp (k l) (keeps τ) τ) →
  wp (let! l := new_clone c in do! assign p (SRef l) in do! addBytes x in k l) (keeps σ) σ.
Proof.
  intros Hk. apply wp_bind. unfold new_clone, wp at 1. cbn [fst snd].
  eapply wp_mono; [apply keeps_trans; [apply keeps_assign|intros; apply keeps_trans; auto using keeps_addBytes]|].
  intros r τ (H1 & H2 & H3). by split_and!.
Qed.

Lemma keeps_array h l it σ : wp (visit_array h l it) (keeps σ) σ.
Proof.
  unfold visit_array. apply keeps_trans; [apply keeps_throw_if|]. intros τ.
  apply keeps_trans; [apply keeps_throw_if|]. intros ρ. apply keeps_enter. intros c υ.
  apply keeps_each. intros i π.
  destruct (descriptor _ _) as [[[] [v|]]|]; first [by apply keeps_push|by split_and!].
Qed.
Lemma keeps_object h l it σ : wp (visit_object h l it) (keeps σ) σ.
Proof.
  unfold visit_object. apply keeps_trans; [apply keeps_throw_if|]. intros τ.
  apply wp_bind. destruct (entries (own (h l))) as [es|]; [|by split_and!].
  apply wp_ret. apply keeps_enter. intros c υ. apply keeps_each. intros e π.
  apply keeps_trans; [apply keeps_addBytes|]. intros ρ. by apply keeps_push.
Qed.

Lemma visit_progress h it σ : wp (visit h it) (λ r τ,
  r ≠ Throw OutOfFuel ∧ (r = Ok tt → nodeCount τ = nodeCount σ + 1 ∧
    nodeCount τ <= MAX_SERIALIZATION_NODES ∧ (exits (work τ) <= S (exits (work σ)))%nat)) σ.
Proof.
  unfold visit. wp_go; [done|]. rename select (_ || _ = false) into Hlim. breflect.
  cbn [add_nodeCount nodeCount] in *. set (σ' := add_nodeCount 1 σ).
  assert (Hk : ∀ m : W unit, wp m (keeps σ') σ' → wp m (λ r τ,
    r ≠ Throw OutOfFuel ∧ (r = Ok tt → nodeCount τ = nodeCount σ + 1 ∧
    nodeCount τ <= MAX_SERIALIZATION_NODES ∧ (exits (work τ) <= S (exits (work σ)))%nat)) σ').
  { intros m Hm. eapply wp_mono; [exact Hm|]. intros r τ (H1 & H2 & H3). split; [done|].
    intros _. rewrite H1, H2. unfold σ'. cbn [add_nodeCount nodeCount work]. lia. }
  unfold visit_value. destruct (it_value it) as [|b|num|s|l|].
  - apply Hk, keeps_trans; [apply keeps_addBytes|intros; apply keeps_assign].
  - apply Hk, keeps_trans; [apply keeps_addBytes|intros; apply keeps_assign].
  - destruct (number_json num) as [j|]; [|done]. apply wp_bind, wp_ret.
    apply Hk, keeps_trans; [apply keeps_addBytes|intros; apply keeps_assign].
  - apply Hk, keeps_trans; [apply keeps_addBytes|intros; apply keeps_assign].
  - unfold push. do 4 wp_step; [done|]. do 8 wp_step; try done.
    all: set (ρ := add_keyCount _ _) in *.
    all: assert (nodeCount ρ = nodeCount σ + 1 ∧ exits (work ρ) = S (exits (work σ))) as [Hn He] by done.
    eapply wp_mono.
    { apply (keeps_trans (throw_if _ InvalidJson)); [apply keeps_throw_if|]. intros τ.
      destruct (is_array (h l)); [apply keeps_array|apply keeps_object]. }
    intros r τ (H2 & H3 & H4). split; [done|]. intros _. rewrite H2, H3, Hn, He. lia.
  - done.
Qed.

Definition measure (σ : preflight) : nat :=
  (exits (work σ) + 2 * Z.to_nat (MAX_SERIALIZATION_NODES + 1 - nodeCount σ))%nat.

Lemma walk_ends h f : ∀ σ, (measure σ < f)%nat → nodeCount σ <= MAX_SERIALIZATION_NODES →
  (walk h f σ).1 ≠ Throw OutOfFuel.
Proof.
  induction f as [|f IH]; intros [w a b k n cs sn] Hm Hn; [lia|].
  destruct w as [|i w]; [done|]. rewrite walk_turn. cbn [nodeCount] in Hn.
  destruct i as [it|l]; cbn [turn].
  - pose proof (visit_progress h it (Preflight w a b k n cs sn)) as Hv. unfold wp in Hv.
    destruct (visit h it _) as [[[]|e] τ]; cbn [fst snd] in Hv.
    + destruct Hv as (_ & Hv). destruct (Hv eq_refl) as (H1 & H2 & H3).
      apply IH; [|done]. unfold measure in *. cbn [work nodeCount exits List.filter is_exit] in *.
      unfold exits in *. cbn [List.filter is_exit] in Hm. lia.
    + destruct Hv as [Hv _]. intros [= ->]. done.
  - unfold modify. apply IH; [|done]. unfold measure, exits in *.
    cbn [set_ancestors work nodeCount List.filter is_exit length] in *. lia.
Qed.

Lemma walk_more h f : ∀ σ g, (walk h f σ).1 ≠ Throw OutOfFuel → walk h (f + g) σ = walk h f σ.
Proof.
  induction f as [|f IH]; intros [w a b k n cs sn] g Hf; [done|]. cbn [Nat.add].
  destruct w as [|i w]; [done|]. rewrite !walk_turn in *.
  destruct (turn h i _) as [[[]|e] τ]; [|done]. by apply IH.
Qed.

(** * The whole preflight *)

Definition start (v : value) : preflight := Preflight [WValue (Item v None 0)] [] 0 0 0 [] None.
Definition depth_budget : nat := Z.to_nat (MAX_SERIALIZATION_DEPTH + 1).

Lemma walk_fuel_enough h v g : (walk h walk_fuel (start v)).1 ≠ Throw OutOfFuel ∧
  walk h (walk_fuel + g) (start v) = walk h walk_fuel (start v).
Proof.
  assert ((walk h walk_fuel (start v)).1 ≠ Throw OutOfFuel) as H.
  { apply walk_ends; [|done]. unfold measure, walk_fuel, start. cbn [work nodeCount].
    unfold MAX_SERIALIZATION_NODES, exits. cbn [List.filter is_exit length]. lia. }
  split; [done|]. by apply walk_more.
Qed.

(** [preflightJson] succeeds exactly on the values that unfold within the
    limits, with an exact byte count and a faithful copy. *)
Lemma preflight_exact h v : heap_ok h → value_ok v →
  match unfold h depth_budget v with
  | Some (j, k) =>
      if decide (fits 0 0 0 j k) then ∃ sv p, preflightJson h v = (Ok (Some sv), p) ∧
        byteCount p = bytes j ∧ read_clone (clones p) depth_budget sv = Some j
      else (preflightJson h v).1 = Throw InvalidJson
  | None => (preflightJson h v).1 = Throw InvalidJson
  end.
Proof.
  intros Hh Hv.
  pose proof (visits_all h depth_budget Hh v Hv None 0 [] [] 0 0 0 [] None eq_refl
    ltac:(set_solver) I ltac:(done) ltac:(done) ltac:(done)) as Hvis. cbn zeta in Hvis.
  fold (start v) in Hvis.
  assert (Hfail : fails h (start v) → (preflightJson h v).1 = Throw InvalidJson).
  { intros [n Hn]. specialize (Hn walk_fuel). unfold preflightJson. fold (start v).
    destruct (walk_fuel_enough h v n) as [_ Hw]. rewrite Nat.add_comm, Hw in Hn.
    unfold bind. destruct (walk h walk_fuel (start v)) as [r τ]. simpl in Hn. by subst. }
  destruct (unfold h depth_budget v) as [[j k]|]; [|by apply Hfail].
  destruct Hvis as [Hok Hbad]. case_decide as Hf; [|by apply Hfail, Hbad].
  destruct (Hok Hf) as (sv & new & [n Hn] & Hr). specialize (Hn (S walk_fuel)).
  cbn [assign_clones assign_snapshot app] in Hn.
  destruct (walk_fuel_enough h v (S n)) as [_ Hw].
  replace (walk_fuel + S n)%nat with (n + S walk_fuel)%nat in Hw by lia. rewrite Hn in Hw.
  eexists sv, _. unfold preflightJson. fold (start v). unfold bind. rewrite <-Hw.
  split; [reflexivity|]. split; [done|]. apply Hr. by intros i c.
Qed.

Lemma fits_limits j k : fits 0 0 0 j k ↔
  bytes j <= MAX_SECURE_JSON_BYTES ∧ k <= MAX_SERIALIZATION_KEYS ∧ nodes j <= MAX_SERIALIZATION_NODES.
Proof. unfold fits. lia. Qed.

(** ** A concrete value: an array that is held twice, and one that holds itself *)

Definition data (v : value) : property := Property true (Some v).
Definition sample_heap : heap := λ l,
  match l with
  | O => Object false true 0 [(KString (js "name"), data (VString [0x22; 0xE9; 0xD83D; 0xDE00]));
           (KString (js "list"), data (VRef 1)); (KString (js "again"), data (VRef 1));
           (KSymbol 0, Property false None)]
  | 1%nat => Object true false 2 [(KString (js "0"), data (VNumber NNegZero));
           (KString (js "1"), data (VNumber (NReal 25 (-1))));
           (KString (js "length"), Property false (Some (VNumber (NInt 2))))]
  | _ => Object true false 1 [(KString (js "0"), data (VRef l))]
  end.
Definition sample_tree : json :=
  JObj [(js "name", JStr [0x22; 0xE9; 0xD83D; 0xDE00]);
        (js "list", JArr [JNum 0; JReal 25 (-1)]); (js "again", JArr [JNum 0; JReal 25 (-1)])].

Lemma sample_heap_ok : heap_ok sample_heap.
Proof.
  intros [|[|l]]; unfold object_ok; cbn -[js]; (split; [lia|]); split;
    repeat (apply NoDup_cons; split); try apply NoDup_nil_2;
    repeat (apply Forall_cons; split); try apply Forall_nil_2;
    cbn; unfold units_ok, unit_ok, real_ok; try (repeat constructor; lia);
    try (intros Hx; repeat (apply elem_of_cons in Hx as [[=]|Hx]); by apply elem_of_nil in Hx).
  split; [repeat constructor; lia|]. split; [done|lia].
Qed.

Example sample_unfold : unfold sample_heap depth_budget (VRef 0) = Some (sample_tree, 10) ∧
  unfold sample_heap depth_budget (VRef 2) = None.
Proof. split; vm_compute; reflexivity. Qed.

(** C30: serializing an object graph is equivalent to unfolding it into a tree,
    checking the limits and printing the tree: the worklist of
    [preflightJson], with its copies, its counts and its cycle check, accepts
    exactly the values that unfold to at most 256 levels, 100000 nodes,
    100000 own keys and 1 MiB of UTF-8, its count is the exact size of the
    bytes written, the copy reads back as the tree, and a value inside itself
    is refused.  The walk always ends within its fuel. *)
Theorem serialize_exact h v : heap_ok h → value_ok v →
  serializeJson h v =
    match unfold h depth_budget v with
    | Some (j, k) =>
        if decide (bytes j <= MAX_SECURE_JSON_BYTES ∧ k <= MAX_SERIALIZATION_KEYS ∧
                   nodes j <= MAX_SERIALIZATION_NODES)
        then Some (utf8_encode (stringify j)) else None
    | None => None
    end ∧
  (∀ b, serializeJson h v = Some b → byteCount (preflightJson h v).2 = Z.of_nat (length b)) ∧
  (tc (child h) v v → serializeJson h v = None) ∧
  (preflightJson h v).1 ≠ Throw OutOfFuel.
Proof.
  intros Hh Hv. pose proof (preflight_exact h v Hh Hv) as Hp.
  assert (serializeJson h v =
    match unfold h depth_budget v with
    | Some (j, k) => if decide (fits 0 0 0 j k) then Some (utf8_encode (stringify j)) else None
    | None => None
    end ∧
    ∀ b, serializeJson h v = Some b → byteCount (preflightJson h v).2 = Z.of_nat (length b)) as [Heq Hc].
  { unfold serializeJson. destruct (unfold h depth_budget v) as [[j k]|].
    - case_decide as Hf.
      + destruct Hp as (sv & p & -> & Hb & Hr). fold depth_budget. rewrite Hr.
        cbn [mbind option_bind snd]. rewrite utf8_encode_length. fold (bytes j).
        rewrite (proj2 (Z.ltb_ge _ _)) by apply Hf. split; [done|]. intros b [= <-].
        by rewrite utf8_encode_length.
      + destruct (preflightJson h v) as [[?|?] p]; [done|]. by split.
    - destruct (preflightJson h v) as [[?|?] p]; [done|]. by split. }
  split_and!.
  - rewrite Heq. destruct (unfold h depth_budget v) as [[j k]|]; [|done].
    apply decide_ext, fits_limits.
  - done.
  - intros Hcyc. rewrite Heq. destruct (unfold h depth_budget v) as [[j k]|] eqn:E; [|done].
    by apply unfold_acyclic in E.
  - unfold preflightJson, bind. fold (start v).
    pose proof (proj1 (walk_fuel_enough h v 0)) as Hw.
    destruct (walk h walk_fuel (start v)) as [[[]|e] τ]; [done|]. intros [= ->]. by apply Hw.
Qed.

Theorem serialize_exact_witness :
  serializeJson sample_heap (VRef 0) = Some (utf8_encode (stringify sample_tree)) ∧
  serializeJson sample_heap (VRef 2) = None.
Proof.
  destruct (serialize_exact sample_heap (VRef 0) sample_heap_ok I) as [-> _].
  destruct (serialize_exact sample_heap (VRef 2) sample_heap_ok I) as [-> _].
  split; vm_compute; reflexivity.
Defined.
