(* ===== verification/SecureFile.v ===== *)
(** [SecureJsonFileService] of [secure-json-file.ts] on the file system of
    [Fs]: [read], [replace] and [syncParent], with every failure that the
    environment chooses.

    The local variables of [replace] that its [catch] block reads are part of
    the state.  [close().catch(() => undefined)] is [attempt_call].  The
    loops take fuel: each turn of [readBounded] and [writeAll] moves at least
    one byte, so a fuel beyond the number of bytes never runs out
    ([read_loop_fuel], [write_loop_fuel]). *)
From S2P Require Import Prelude SafeString Json JsonText Fs SecureJson.
Open Scope Z_scope.

(** * [node:path], posix *)

Fixpoint drop_slashes (s : jsstr) : jsstr :=
  match s with
  | c :: s' => if c =? 47 then drop_slashes s' else s
  | [] => []
  end.
(** Up to the next slash, and the rest from it on. *)
Fixpoint until_slash (s : jsstr) : jsstr * jsstr :=
  match s with
  | c :: s' => if c =? 47 then ([], s) else let '(a, b) := until_slash s' in (c :: a, b)
  | [] => ([], [])
  end.

Definition isAbsolute (path : jsstr) : bool :=
  match path with c :: _ => c =? 47 | [] => false end.
(** The last component, trailing slashes ignored. *)
Definition basename (path : jsstr) : jsstr :=
  reverse (until_slash (drop_slashes (reverse path))).1.
(** What precedes the slash before the last component. *)
Definition dirname (path : jsstr) : jsstr :=
  match (until_slash (drop_slashes (reverse path))).2 with
  | [] | [_] => if isAbsolute path then [47] else [46]
  | _ :: rest =>
      if isAbsolute path && (length rest =? 1)%nat then [47; 47] else reverse rest
  end.

Fixpoint split_slash (s cur : jsstr) : list jsstr :=
  match s with
  | [] => [reverse cur]
  | c :: s' => if c =? 47 then reverse cur :: split_slash s' [] else split_slash s' (c :: cur)
  end.
(** The components of an absolute path, [.] and [..] resolved. *)
Fixpoint resolve_segments (segs acc : list jsstr) : list jsstr :=
  match segs with
  | [] => reverse acc
  | s :: segs =>
      if bool_decide (s = []) || bool_decide (s = [46]) then resolve_segments segs acc
      else if bool_decide (s = [46; 46]) then resolve_segments segs (tail acc)
      else resolve_segments segs (s :: acc)
  end.
(** [join(dir, name)] of an absolute [dir] and a [name] without a trailing slash. *)
Definition path_join (dir name : jsstr) : jsstr :=
  47 :: join [47] (resolve_segments (split_slash (dir ++ 47 :: name) []) []).

(** * State and errors *)

(** [SecurityValidationError], another error of this module, an error of the
    file system, the [SecureJsonFileError] that the methods throw. *)
Inductive serr := FsErr (c : errcode) | SecurityValidation | Invalid | SecureJsonFileError | NoFuel.

Record sstate := SState {
  fs_world : world;
  tempPath : jsstr;
  temp : option fhandle;
  ownsTemp : bool;
}.
Definition set_world (w : world) (s : sstate) : sstate := SState w (tempPath s) (temp s) (ownsTemp s).
Definition set_tempPath p (s : sstate) : sstate := SState (fs_world s) p (temp s) (ownsTemp s).
Definition set_temp h (s : sstate) : sstate := SState (fs_world s) (tempPath s) h (ownsTemp s).
Definition set_ownsTemp b (s : sstate) : sstate := SState (fs_world s) (tempPath s) (temp s) b.

Abbreviation F A := (M sstate serr A).
Abbreviation fsop f := (f fs_world set_world FsErr).

Inductive ReplaceResult := not_committed | committed | committed_durability_uncertain.

Section service.
(** [processUid] owns the files that the process creates; [runtimeUid] is the
    option, which defaults to it. *)
Variables (runtimeUid processUid : Z).

Definition validatePath (path : jsstr) : F unit :=
  throw_if (negb (isAbsolute path) || bool_decide (basename path = [])) Invalid.

Definition target_ok (st : fstat) : bool :=
  bool_decide (st_kind st = KFile) && (st_uid st =? runtimeUid) && (Z.land (st_mode st) 0xE7F =? 0).
Definition validateTargetStat (st : fstat) : F unit :=
  throw_if (negb (target_ok st)) SecurityValidation.

Definition validateTempStat (st : fstat) : F unit :=
  throw_if (negb (bool_decide (st_kind st = KFile) && (st_uid st =? runtimeUid) &&
                  (Z.land (st_mode st) 0xFFF =? 0x180))) Invalid.

Definition parent_valid (st : fstat) : bool :=
  bool_decide (st_kind st = KDirectory) && (st_uid st =? runtimeUid) && (Z.land (st_mode st) 0x12 =? 0).

Definition openValidatedParent (path : jsstr) : F fhandle :=
  let! handle := fsop open_directory (dirname path) in
  catch
    (let! st := fsop handle_stat handle in
     do! throw_if (negb (parent_valid st)) Invalid in
     ret handle)
    (λ e, do! attempt_call (fsop handle_close handle) in throw e).

Definition validateAndCloseParent (path : jsstr) : F unit :=
  let! r := attempt (openValidatedParent path) in
  match r with
  | Throw _ => throw Invalid
  | Ok parent =>
      let! c := attempt (fsop handle_close parent) in
      throw_if (negb (is_ok c)) Invalid
  end.

Definition validateExistingTarget (path : jsstr) : F unit :=
  let! r := attempt (fsop open_read path) in
  match r with
  | Throw (FsErr ENOENT) => ret tt
  | Throw (FsErr ELOOP) => throw SecurityValidation
  | Throw e => throw e
  | Ok handle =>
      let! failure := attempt (let! st := fsop handle_stat handle in validateTargetStat st) in
      let! closed := attempt (fsop handle_close handle) in
      match failure, closed with
      | Throw e, _ => throw e
      | Ok _, Throw e => throw e
      | Ok _, Ok _ => ret tt
      end
  end.

(** The loop of [readBounded]: the bytes read so far, in a buffer of [size]. *)
Fixpoint read_loop (fuel : nat) (handle : fhandle) (size : Z) (buffer : list Z) : F (list Z) :=
  let offset := Z.of_nat (length buffer) in
  match fuel with
  | O => throw NoFuel
  | S f =>
      if offset <? size then
        let! '(bytesRead, bytes) := fsop handle_read handle offset (size - offset) in
        if bytesRead =? 0 then ret buffer
        else
          do! throw_if ((bytesRead <? 0) || (size - offset <? bytesRead)) Invalid in
          read_loop f handle size (buffer ++ bytes)
      else ret buffer
  end.
Definition readBounded (handle : fhandle) (maximumBytes : Z) : F (list Z) :=
  let! buffer := read_loop (Z.to_nat maximumBytes + 2) handle (maximumBytes + 1) [] in
  do! throw_if (maximumBytes <? Z.of_nat (length buffer)) Invalid in
  ret buffer.

(** The loop of [writeAll], on the bytes that are left. *)
Fixpoint write_loop (fuel : nat) (handle : fhandle) (bytes : list Z) : F unit :=
  match fuel with
  | O => throw NoFuel
  | S f =>
      match bytes with
      | [] => ret tt
      | _ =>
          let! bytesWritten := fsop handle_write handle bytes in
          do! throw_if ((bytesWritten <=? 0) || (Z.of_nat (length bytes) <? bytesWritten)) Invalid in
          write_loop f handle (drop (Z.to_nat bytesWritten) bytes)
      end
  end.
Definition writeAll (handle : fhandle) (bytes : list Z) : F unit :=
  write_loop (S (length bytes)) handle bytes.

(** The value of the text of a file. *)
Definition decode_file (bytes : list Z) : option json :=
  text ← utf8_decode bytes; json_parse text.

(** What [read] does with an open file. *)
Definition read_handle (handle : fhandle) (maximumBytes : Z) : F json :=
  let! value := attempt
    (let! st := fsop handle_stat handle in
     do! validateTargetStat st in
     do! throw_if (maximumBytes <? st_size st) Invalid in
     let! bytes := readBounded handle maximumBytes in
     of_option (decode_file bytes) Invalid) in
  let! closed := attempt (fsop handle_close handle) in
  match value, closed with
  | Ok v, Ok _ => ret v
  | _, _ => throw Invalid
  end.

(** [None] is [undefined]. *)
Definition read (path : jsstr) (maximumBytes : Z) : F (option json) :=
  catch
    (do! validatePath path in
     do! throw_if ((maximumBytes <? 1) || (MAX_SECURE_JSON_BYTES <? maximumBytes)) Invalid in
     do! validateAndCloseParent path in
     let! r := attempt (fsop open_read path) in
     match r with
     | Throw (FsErr ENOENT) => ret None
     | Throw e => throw e
     | Ok handle => let! v := read_handle handle maximumBytes in ret (Some v)
     end)
    (λ _, throw SecureJsonFileError).

(** One name per attempt, until one is free. *)
Fixpoint open_temp (attempts : nat) (path : jsstr) : F unit :=
  match attempts with
  | O => ret tt
  | S a =>
      let! name := randomUUID fs_world set_world in
      let p := path_join (dirname path) ([46] ++ basename path ++ js ".secure-json-" ++ name ++ js ".tmp") in
      do! modify (set_tempPath p) in
      let! r := attempt (fsop open_exclusive processUid 0x180 p) in
      match r with
      | Ok handle => do! modify (set_temp (Some handle)) in modify (set_ownsTemp true)
      | Throw (FsErr EEXIST) => open_temp a path
      | Throw e => throw e
      end
  end.

(** What the [try] block of [replace] does with its temporary file. *)
Definition write_temp (handle : fhandle) (bytes : list Z) : F unit :=
  do! fsop handle_chmod handle 0x180 in
  let! st := fsop handle_stat handle in
  do! validateTempStat st in
  do! writeAll handle bytes in
  do! fsop handle_sync handle in
  fsop handle_close handle.

(** The [try] block of [replace]. *)
Definition commit (path : jsstr) (bytes : list Z) : F unit :=
  do! open_temp TEMP_OPEN_ATTEMPTS path in
  let! t := gets temp in
  match t with
  | None => throw Invalid
  | Some handle =>
      do! write_temp handle bytes in
      do! modify (set_temp None) in
      do! validateExistingTarget path in
      let! p := gets tempPath in
      do! fsop rename p path in
      modify (set_ownsTemp false)
  end.

(** Its [catch] block. *)
Definition cleanup (parent : fhandle) (error : serr) : F ReplaceResult :=
  let! t := gets temp in
  let! c1 := attempt (match t with Some handle => fsop handle_close handle | None => ret tt end) in
  let! owned := gets ownsTemp in
  let! p := gets tempPath in
  let! c2 := attempt (if owned : bool then fsop unlink p else ret tt) in
  let! c3 := attempt (fsop handle_close parent) in
  if match error with SecurityValidation => true | _ => false end ||
     negb (is_ok c1 && is_ok c2 && is_ok c3)
  then throw SecureJsonFileError else ret not_committed.

Definition settle (parent : fhandle) : F ReplaceResult :=
  let! synced := attempt (fsop handle_sync parent) in
  let! closed := attempt (fsop handle_close parent) in
  ret (if is_ok synced && is_ok closed then committed else committed_durability_uncertain).

(** The parent, once it and the target are validated. *)
Definition open_for_replace (path : jsstr) : F fhandle :=
  catch
    (let! parent := openValidatedParent path in
     catch (do! validateExistingTarget path in ret parent)
       (λ e, do! attempt_call (fsop handle_close parent) in throw e))
    (λ _, throw SecureJsonFileError).

Definition replace (path : jsstr) (h : heap) (value : value) (mode : Z) : F ReplaceResult :=
  let! bytes := catch
    (do! validatePath path in
     do! throw_if (negb (mode =? 0x180)) Invalid in
     of_option (serializeJson h value) Invalid)
    (λ _, throw SecureJsonFileError) in
  let! parent := open_for_replace path in
  do! modify (λ s, SState (fs_world s) [] None false) in
  let! r := attempt (commit path bytes) in
  match r with
  | Throw error => cleanup parent error
  | Ok _ => settle parent
  end.

Definition syncParent (path : jsstr) : F bool :=
  let! r := attempt (do! validatePath path in openValidatedParent path) in
  match r with
  | Throw _ => ret false
  | Ok parent =>
      let! synced := attempt (fsop handle_sync parent) in
      let! closed := attempt (fsop handle_close parent) in
      ret (is_ok synced && is_ok closed)
  end.
End service.

(** [createSecureJsonFile]: the uid that the service runs with. *)
Definition createSecureJsonFile (option_uid process_uid : option Z) : res serr Z :=
  match (match option_uid with Some u => Some u | None => process_uid end) with
  | Some u => if u <? 0 then Throw SecureJsonFileError else Ok u
  | None => Throw SecureJsonFileError
  end.
