(* ===== verification/SecureFileFacts.v ===== *)
(** The owner-only JSON files of [SecureFile]: [replace] is atomic under every
    failure of the file system, [read] answers what the file holds or fails,
    and together they implement a register of JSON values. *)
From S2P Require Import Prelude JsMap SafeString Json JsonText SecureJson JsonTree Preflight Fs SecureFile.
Open Scope Z_scope.

(** * Paths *)

Definition no_slash (s : jsstr) : Prop := 47 ∉ s.

Lemma until_slash_app x r : no_slash x → until_slash (x ++ 47 :: r) = (x, 47 :: r).
Proof.
  unfold no_slash. induction x as [|c x IH]; intros Hx; [done|].
  apply not_elem_of_cons in Hx as [Hc Hx]. cbn [app until_slash].
  rewrite (proj2 (Z.eqb_neq c 47)) by congruence. by rewrite IH.
Qed.
Lemma until_slash_split s : (until_slash s).1 ++ (until_slash s).2 = s ∧ no_slash (until_slash s).1.
Proof.
  unfold no_slash. induction s as [|c s [IH1 IH2]]; [split; [done|set_solver]|].
  cbn [until_slash]. destruct (c =? 47) eqn:E; breflect; [split; [done|set_solver]|].
  destruct (until_slash s) as [a b]. cbn [fst snd] in *. split; [cbn; by f_equal|].
  apply not_elem_of_cons. split; congruence.
Qed.
Lemma drop_slashes_length s : (length (drop_slashes s) <= length s)%nat.
Proof. induction s as [|c s IH]; simpl; [done|]. case_match; simpl; lia. Qed.

Lemma basename_no_slash p : no_slash (basename p).
Proof.
  unfold basename, no_slash. rewrite elem_of_reverse. apply until_slash_split.
Qed.
Lemma basename_app pre x : no_slash x → x ≠ [] → basename (pre ++ 47 :: x) = x.
Proof.
  intros Hx Hn. unfold basename. rewrite reverse_app, reverse_cons, <-(assoc_L (++)). cbn [app].
  assert (Hr : no_slash (reverse x)) by (unfold no_slash; by rewrite elem_of_reverse).
  assert (drop_slashes (reverse x ++ 47 :: reverse pre) = reverse x ++ 47 :: reverse pre) as ->.
  { destruct (reverse x) as [|c y] eqn:E.
    - apply (f_equal length) in E. rewrite length_reverse in E. by destruct x.
    - cbn. apply not_elem_of_cons in Hr as [Hc _]. by rewrite (proj2 (Z.eqb_neq c 47)) by congruence. }
  rewrite until_slash_app by done. apply reverse_involutive.
Qed.

Lemma split_slash_app d x cur : split_slash (d ++ 47 :: x) cur = split_slash d cur ++ split_slash x [].
Proof.
  revert cur. induction d as [|c d IH]; intros cur; [done|]. cbn [app split_slash].
  case_match; [|apply IH]. by rewrite IH.
Qed.
Lemma split_slash_plain x cur : no_slash x → split_slash x cur = [reverse cur ++ x].
Proof.
  unfold no_slash. revert cur. induction x as [|c x IH]; intros cur Hx; [by rewrite app_nil_r|].
  apply not_elem_of_cons in Hx as [Hc Hx]. cbn [split_slash].
  rewrite (proj2 (Z.eqb_neq c 47)) by congruence. rewrite IH by done.
  by rewrite reverse_cons, <-(assoc_L (++)).
Qed.
Lemma resolve_last segs x : x ≠ [] → x ≠ [46] → x ≠ [46; 46] → ∀ acc,
  ∃ l, resolve_segments (segs ++ [x]) acc = l ++ [x].
Proof.
  intros H1 H2 H3. induction segs as [|s segs IH]; intros acc; cbn [app resolve_segments].
  - rewrite !bool_decide_eq_false_2 by done. cbn [orb]. exists (reverse acc). by rewrite reverse_cons.
  - by repeat case_match.
Qed.
Lemma join_last sep l x : ∃ pre, sep ++ join sep (l ++ [x]) = pre ++ sep ++ x.
Proof.
  induction l as [|y l [pre IH]]; [by exists []|]. cbn [app].
  rewrite join_cons by by destruct l. rewrite IH. exists (sep ++ y ++ pre).
  by rewrite <-!(assoc_L (++)).
Qed.
Lemma basename_join d x : no_slash x → x ≠ [] → x ≠ [46] → x ≠ [46; 46] →
  basename (path_join d x) = x.
Proof.
  intros Hs H1 H2 H3. unfold path_join. rewrite split_slash_app, (split_slash_plain x), reverse_nil by done.
  cbn [app]. destruct (resolve_last (split_slash d []) x H1 H2 H3 []) as [l ->].
  destruct (join_last [47] l x) as [pre Hp]. cbn [app] in Hp. rewrite Hp.
  by apply basename_app.
Qed.

Definition temp_path (path name : jsstr) : jsstr :=
  path_join (dirname path) ([46] ++ basename path ++ js ".secure-json-" ++ name ++ js ".tmp").

Lemma plain_literal (s : jsstr) : bool_decide (47 ∈ s) = false → 47 ∉ s.
Proof. apply bool_decide_eq_false_1. Qed.

Lemma temp_path_ne path name : no_slash name → temp_path path name ≠ path.
Proof.
  intros Hn Heq. apply (f_equal basename) in Heq. unfold temp_path in Heq.
  rewrite basename_join in Heq.
  - apply (f_equal length) in Heq. rewrite !length_app in Heq. simpl length in Heq. lia.
  - unfold no_slash in *. rewrite !not_elem_of_app. split_and!; try done.
    + by apply plain_literal.
    + apply basename_no_slash.
    + by apply plain_literal.
    + by apply plain_literal.
  - done.
  - intros E. apply (f_equal length) in E. rewrite !length_app in E.
    change (length (js ".secure-json-")) with 13%nat in E. simpl length in E. lia.
  - intros E. apply (f_equal length) in E. rewrite !length_app in E.
    change (length (js ".secure-json-")) with 13%nat in E. simpl length in E. lia.
Qed.

Lemma dirname_ne path : isAbsolute path = true → basename path ≠ [] → dirname path ≠ path.
Proof.
  intros Ha Hb Heq. assert (length (dirname path) < length path)%nat as Hl; [|rewrite Heq in Hl; lia].
  clear Heq. unfold basename in Hb. unfold dirname. rewrite Ha. cbn [andb].
  pose proof (until_slash_split (drop_slashes (reverse path))) as [Hs Hn].
  pose proof (drop_slashes_length (reverse path)) as Hd. rewrite length_reverse in Hd.
  destruct (until_slash (drop_slashes (reverse path))) as [b r]. cbn [fst snd] in *.
  rewrite <-Hs, length_app in Hd.
  assert (0 < length b)%nat by (destruct b; [by destruct Hb|simpl; lia]).
  destruct r as [|c [|c' r]].
  - assert (2 <= length path)%nat; [|simpl; lia].
    destruct path as [|x [|y path]]; [done| |simpl; lia]. cbn in Ha. apply Z.eqb_eq in Ha. subst.
    cbn in Hs. destruct b; [simpl in *; lia|done].
  - simpl in *. lia.
  - case_match; rewrite ?length_reverse; simpl in *; lia.
Qed.

(** * Calls *)

Definition disk (s : sstate) : gmap jsstr node := nodes (fs_world s).
Definition fenv (s : sstate) : environment := env (fs_world s).
Definition locals (s : sstate) : jsstr * option fhandle * bool := (tempPath s, temp s, ownsTemp s).

(** No call fails. *)
Definition calm (s : sstate) : Prop := ∀ t, fails (fenv s) t = None.
(** A read or write moves at least one byte when it can. *)
Definition steady (s : sstate) : Prop := ∀ t, 0 < chunk (fenv s) t.

(** Only ticks pass. *)
Definition quiet (s s' : sstate) : Prop :=
  disk s' = disk s ∧ fenv s' = fenv s ∧ locals s' = locals s.
#[export] Instance quiet_preorder : PreOrder quiet.
Proof. split; [done|]. intros ??? (?&?&?) (?&?&?). split_and!; congruence. Qed.
Lemma quiet_calm s s' : quiet s s' → calm s → calm s'.
Proof. unfold calm. intros (_ & -> & _). done. Qed.
Lemma quiet_steady s s' : quiet s s' → steady s → steady s'.
Proof. unfold steady. intros (_ & -> & _). done. Qed.

Definition to_serr {A} (r : res errcode A) : res serr A :=
  match r with Ok a => Ok a | Throw c => Throw (FsErr c) end.

(** What a call that changes no file returns: the answer for this disk, or,
    unless the environment is calm, an error of its own. *)
Definition answers {A} (s : sstate) (f : nat → world → res errcode A * world) (r : res serr A) : Prop :=
  (∃ t w, nodes w = disk s ∧ env w = fenv s ∧ r = to_serr (f t w).1) ∨
  ¬ calm s ∧ ∃ c t, r = Throw (FsErr c) ∧ fails (fenv s) t = Some c.

Lemma secure_wp_fs_quiet {A} (f : nat → world → res errcode A * world) (Q : res serr A → sstate → Prop) s :
  (∀ t w, nodes (f t w).2 = nodes w ∧ env (f t w).2 = env w) →
  (∀ r s', quiet s s' → answers s f r → Q r s') →
  wp (fsop fs_call keep f) Q s.
Proof.
  intros Hf HQ. unfold wp, fs_call.
  destruct (fails (env (fs_world s)) (tick (fs_world s))) as [c|] eqn:Ef.
  - apply HQ; [done|]. right. split; [intros Hc; unfold calm, fenv in Hc; congruence|]. by eexists _, _.
  - specialize (Hf (tick (fs_world s)) (advance (fs_world s))).
    assert (answers s f (to_serr (f (tick (fs_world s)) (advance (fs_world s))).1)) as Ha
      by (left; by exists (tick (fs_world s)), (advance (fs_world s))).
    destruct (f _ _) as [[a|e] w]; destruct Hf as [Hn He]; simpl in *; by apply HQ.
Qed.

(** A call that may change files. *)
Lemma secure_wp_fs_change {A} on_fail (f : nat → world → res errcode A * world)
    (Q : res serr A → sstate → Prop) s :
  (∀ c t w, quiet s (set_world w s) → Q (Throw (FsErr c)) (set_world (on_fail t w) s)) →
  (∀ t w, quiet s (set_world w s) → Q (to_serr (f t w).1) (set_world (f t w).2 s)) →
  wp (fsop fs_call on_fail f) Q s.
Proof.
  intros H1 H2. unfold wp, fs_call. destruct (fails _ _); [by apply H1|].
  specialize (H2 (tick (fs_world s)) (advance (fs_world s)) ltac:(done)).
  by destruct (f _ _) as [[a|e] w].
Qed.

Ltac quiet_call :=
  apply secure_wp_fs_quiet; [intros ? ?; by repeat case_match|];
  intros ? ? ? [(? & ? & Hdisk & Henv & ->)|(? & ? & ? & -> & ?)];
  rewrite ?Hdisk, ?Henv.

Lemma wp_close h (Q : res serr unit → sstate → Prop) s :
  (∀ r s', quiet s s' → (calm s → r = Ok tt) → (∀ e, r = Throw e → ∃ c, e = FsErr c) → Q r s') →
  wp (fsop handle_close h) Q s.
Proof. intros HQ. unfold handle_close. quiet_call; simpl; apply HQ; naive_solver. Qed.
Lemma wp_sync h (Q : res serr unit → sstate → Prop) s :
  (∀ r s', quiet s s' → (calm s → r = Ok tt) → (∀ e, r = Throw e → ∃ c, e = FsErr c) → Q r s') →
  wp (fsop handle_sync h) Q s.
Proof. intros HQ. unfold handle_sync. quiet_call; simpl; apply HQ; naive_solver. Qed.

Lemma wp_stat h (Q : res serr fstat → sstate → Prop) s :
  (∀ st n s', quiet s s' → disk s !! hpath h = Some n → st = stat_of n → Q (Ok st) s') →
  (∀ c s', quiet s s' → (calm s → disk s !! hpath h = None) → Q (Throw (FsErr c)) s') →
  wp (fsop handle_stat h) Q s.
Proof.
  intros H1 H2. unfold handle_stat. quiet_call.
  - destruct (disk s !! hpath h) as [n|] eqn:E; simpl; [by eapply H1|by apply H2].
  - by apply H2.
Qed.

Lemma wp_open_directory p (Q : res serr fhandle → sstate → Prop) s :
  (∀ n s', quiet s s' → disk s !! p = Some n → nkind n = KDirectory → Q (Ok (Handle p)) s') →
  (∀ c s', quiet s s' → (calm s → ∀ n, disk s !! p = Some n → nkind n ≠ KDirectory) →
     Q (Throw (FsErr c)) s') →
  wp (fsop open_directory p) Q s.
Proof.
  intros H1 H2. unfold open_directory. quiet_call.
  - destruct (disk s !! p) as [n|] eqn:E; simpl; [destruct (nkind n) eqn:K; simpl|].
    all: first [by eapply H1|apply H2; [done|congruence]].
  - by apply H2.
Qed.

Lemma secure_wp_open_read p (Q : res serr fhandle → sstate → Prop) s :
  (∀ n s', quiet s s' → disk s !! p = Some n → nkind n ≠ KOther → Q (Ok (Handle p)) s') →
  (∀ s', quiet s s' → (disk s !! p = None ∨ ∃ t, fails (fenv s) t = Some ENOENT) →
     Q (Throw (FsErr ENOENT)) s') →
  (∀ c s', quiet s s' → c ≠ ENOENT →
     (calm s → ∃ n, disk s !! p = Some n ∧ nkind n = KOther) → Q (Throw (FsErr c)) s') →
  wp (fsop open_read p) Q s.
Proof.
  intros H1 H2 H3. unfold open_read. quiet_call.
  - destruct (disk s !! p) as [n|] eqn:E; simpl; [case_decide as K; simpl|].
    + apply H3; [done..|]. intros _. by exists n.
    + by eapply H1.
    + apply H2; [done|by left].
  - destruct (decide (x = ENOENT)) as [->|Hx].
    + apply H2; [done|right; by eexists].
    + by apply H3.
Qed.

Lemma secure_wp_handle_read h pos len (Q : res serr (Z * list Z) → sstate → Prop) s :
  steady s → 0 < len →
  (∀ n s' k, quiet s s' → disk s !! hpath h = Some n →
     0 <= k <= len → (k = 0 → drop (Z.to_nat pos) (content n) = []) →
     (Z.to_nat k <= length (drop (Z.to_nat pos) (content n)))%nat →
     Q (Ok (k, take (Z.to_nat k) (drop (Z.to_nat pos) (content n)))) s') →
  (∀ c s', quiet s s' → (calm s → disk s !! hpath h = None) → Q (Throw (FsErr c)) s') →
  wp (fsop handle_read h pos len) Q s.
Proof.
  intros Hst Hlen H1 H2. unfold handle_read. quiet_call; [|by apply H2].
  destruct (disk s !! hpath h) as [n|] eqn:E; [|by apply H2]. cbn [to_serr fst].
  set (rest := drop (Z.to_nat pos) (content n)).
  specialize (Hst x). assert (0 <= reported (chunk (fenv s) x) len (Z.of_nat (length rest)) <= len ∧
    (reported (chunk (fenv s) x) len (Z.of_nat (length rest)) = 0 → rest = []) ∧
    (Z.to_nat (reported (chunk (fenv s) x) len (Z.of_nat (length rest))) <= length rest)%nat)
    as (Hk & Hk0 & Hkl).
  { unfold reported. zdecide. split_and!; [lia|lia| |lia].
    intros Hm. destruct rest; [done|]. simpl length in Hm. lia. }
  by apply H1.
Qed.

(** * Validation *)

Section service.
Variables (runtimeUid processUid : Z).

Definition target_fine (n : node) : Prop := target_ok runtimeUid (stat_of n) = true.
(** The parent directory passes the checks. *)
Definition parent_fine (s : sstate) (path : jsstr) : Prop :=
  ∃ n, disk s !! dirname path = Some n ∧ parent_valid runtimeUid (stat_of n) = true.
(** A missing file is reported only for a missing file. *)
Definition honest (s : sstate) : Prop := ∀ t, fails (fenv s) t ≠ Some ENOENT.
Lemma quiet_honest s s' : quiet s s' → honest s → honest s'.
Proof. unfold honest. intros (_ & -> & _). done. Qed.
Lemma calm_honest s : calm s → honest s.
Proof. intros H t. by rewrite H. Qed.

Lemma wp_openValidatedParent path s :
  wp (openValidatedParent runtimeUid path) (λ r s', quiet s s' ∧
    match r with Ok _ => parent_fine s path | Throw _ => calm s → ¬ parent_fine s path end) s.
Proof.
  unfold openValidatedParent. apply wp_bind, wp_open_directory.
  - intros n s1 Hq Hn Hk. apply wp_catch, wp_bind, wp_stat.
    + intros st n' s2 Hq2 Hn' ->. cbn [hpath] in Hn'.
      assert (n' = n) as -> by (rewrite (proj1 Hq) in Hn'; congruence).
      apply wp_bind, wp_throw_if; intros Hv; breflect.
      * apply wp_bind, wp_catch, wp_close. intros r s3 Hq3 _ _.
        assert (quiet s s3) by (by repeat (etrans; [eassumption|])).
        assert (calm s → ¬ parent_fine s path) by (intros _ (n' & ? & ?); congruence).
        by destruct r; wp_go.
      * wp_go. split; [by etrans|]. by exists n.
    + intros c s2 Hq2 Hc. apply wp_bind, wp_catch, wp_close. intros r s3 Hq3 _ _.
      assert (quiet s s3) by (by repeat (etrans; [eassumption|])).
      assert (calm s → ¬ parent_fine s path).
      { intros Hcalm. apply (quiet_calm _ _ Hq) in Hcalm. specialize (Hc Hcalm).
        cbn [hpath] in Hc. rewrite (proj1 Hq) in Hc. congruence. }
      by destruct r; wp_go.
  - intros c s1 Hq Hc. split; [done|]. intros Hcalm (n & Hn & Hv). apply (Hc Hcalm n Hn).
    unfold parent_valid in Hv. by breflect.
Qed.

Lemma wp_validateAndCloseParent path s :
  wp (validateAndCloseParent runtimeUid path) (λ r s', quiet s s' ∧
    match r with Ok _ => parent_fine s path | Throw _ => calm s → ¬ parent_fine s path end) s.
Proof.
  unfold validateAndCloseParent. apply wp_bind, wp_attempt.
  eapply wp_mono; [apply wp_openValidatedParent|]. intros [hd|e] s1 [Hq Hp]; [|by wp_go].
  apply wp_bind, wp_attempt, wp_close. intros r s2 Hq2 Hc _. apply wp_throw_if; intros Hr; breflect.
  - split; [by etrans|]. intros Hcalm. rewrite Hc in Hr by (by eapply quiet_calm). done.
  - split; [by etrans|done].
Qed.

Lemma wp_validateTargetStat st (Q : res serr unit → sstate → Prop) s :
  (target_ok runtimeUid st = true → Q (Ok tt) s) →
  (target_ok runtimeUid st = false → Q (Throw SecurityValidation) s) →
  wp (validateTargetStat runtimeUid st) Q s.
Proof. intros H1 H2. unfold validateTargetStat. wp_go; breflect; auto. Qed.

Lemma wp_validateExistingTarget path s :
  wp (validateExistingTarget runtimeUid path) (λ r s', quiet s s' ∧
    match r with
    | Ok _ => honest s → ∀ n, disk s !! path = Some n → target_fine n
    | Throw _ => calm s → ∃ n, disk s !! path = Some n ∧ ¬ target_fine n
    end) s.
Proof.
  unfold validateExistingTarget. apply wp_bind, wp_attempt, secure_wp_open_read.
  - intros n s1 Hq Hn Hk. apply wp_bind, wp_attempt, wp_bind, wp_stat.
    + intros st n' s2 Hq2 Hn' ->. cbn [hpath] in Hn'.
      assert (n' = n) as -> by (rewrite (proj1 Hq) in Hn'; congruence).
      apply wp_validateTargetStat; intros Ht; apply wp_bind, wp_attempt, wp_close; intros r s3 Hq3 Hc _;
        assert (quiet s s3) as Hq' by (by repeat (etrans; [eassumption|])).
      * destruct r as [[]|e]; wp_go; split; try done.
        -- intros _ n0 Hn0. by simplify_eq.
        -- intros Hcalm. by specialize (Hc ltac:(eauto using quiet_calm)).
      * wp_go. split; [done|]. intros _. exists n. split; [done|]. unfold target_fine. by rewrite Ht.
    + intros c s2 Hq2 Hc. apply wp_bind, wp_attempt, wp_close. intros r s3 Hq3 _ _. wp_go.
      split; [by repeat (etrans; [eassumption|])|]. intros Hcalm.
      specialize (Hc ltac:(eauto using quiet_calm)). cbn [hpath] in Hc.
      rewrite (proj1 Hq) in Hc. congruence.
  - intros s1 Hq He. wp_go. split; [done|]. intros Hh n Hn.
    destruct He as [He|[t He]]; [congruence|by destruct (Hh t)].
  - intros c s1 Hq Hne Hc.
    assert (calm s → ∃ n, disk s !! path = Some n ∧ ¬ target_fine n).
    { intros Hcalm. destruct (Hc Hcalm) as (n & Hn & Hk). exists n. split; [done|].
      unfold target_fine, target_ok, stat_of. cbn [st_kind]. rewrite Hk.
      by rewrite bool_decide_eq_false_2. }
    destruct c; try done; wp_go; by split.
Qed.

(** * [read] *)

Lemma secure_wp_read_loop n hd size : ∀ fuel buffer s, steady s → disk s !! hpath hd = Some n →
  buffer = take (length buffer) (content n) → 0 <= size → Z.of_nat (length buffer) <= size →
  (Z.to_nat size < fuel + length buffer)%nat →
  wp (read_loop fuel hd size buffer) (λ r s', quiet s s' ∧
    match r with
    | Ok b => b = take (Z.to_nat size) (content n)
    | Throw e => e ≠ NoFuel ∧ ¬ calm s
    end) s.
Proof.
  induction fuel as [|fuel IH]; intros buffer s Hst Hn Hb Hs Hl Hf; [lia|].
  cbn [read_loop]. destruct (_ <? size) eqn:E; breflect.
  2: { wp_go. split; [done|]. rewrite Hb at 1. f_equal. lia. }
  apply wp_bind, secure_wp_handle_read; [done|lia| |].
  2: { intros c s' Hq Hc. split; [done|]. split; [done|]. intros Hcalm. specialize (Hc Hcalm). congruence. }
  intros n' s1 k Hq Hn' Hk Hk0 Hkl. assert (n' = n) as -> by congruence.
  rewrite Nat2Z.id in *. destruct (k =? 0) eqn:Ek; breflect.
  - wp_go. split; [done|]. specialize (Hk0 Ek). rewrite Hb at 1.
    assert (length (content n) <= length buffer)%nat as Hle.
    { apply (f_equal length) in Hk0. rewrite length_drop in Hk0. simpl in Hk0. lia. }
    by rewrite !take_ge by lia.
  - apply wp_bind, wp_throw_if; intros Hm; [apply orb_true_iff in Hm as [?|?]; breflect; lia|].
    assert (length (take (Z.to_nat k) (drop (length buffer) (content n))) = Z.to_nat k) as Hlt.
    { rewrite length_take. lia. }
    eapply wp_mono; [apply IH|].
    + by eapply quiet_steady.
    + by rewrite (proj1 Hq).
    + rewrite length_app, Hlt, Hb at 1. apply take_take_drop.
    + done.
    + rewrite length_app, Hlt. lia.
    + rewrite length_app, Hlt. lia.
    + intros r s2 [Hq2 Hr]. split; [by etrans|]. destruct r; [done|].
      split; [apply Hr|]. intros Hc. apply Hr. by eapply quiet_calm.
Qed.

Lemma wp_readBounded n hd max s : steady s → disk s !! hpath hd = Some n → 0 <= max →
  wp (readBounded hd max) (λ r s', quiet s s' ∧
    match r with
    | Ok b => b = content n ∧ Z.of_nat (length b) <= max
    | Throw _ => calm s → max < Z.of_nat (length (content n))
    end) s.
Proof.
  intros Hst Hn Hm. unfold readBounded. apply wp_bind.
  eapply wp_mono; [apply (secure_wp_read_loop n); try done; simpl; lia|].
  intros [b|e] s1 [Hq Hr]; [|split; [done|]; by intros ?%(proj2 Hr)].
  apply wp_bind, wp_throw_if; intros Hlt; breflect; subst b.
  - split; [done|]. intros _. rewrite length_take in Hlt. lia.
  - wp_go. split; [done|]. rewrite length_take in *. rewrite take_ge by lia. split; [done|lia].
Qed.

(** The file can be read: it passes the checks and holds JSON. *)
Definition readable (n : node) (max : Z) (j : json) : Prop :=
  target_fine n ∧ Z.of_nat (length (content n)) <= max ∧ decode_file (content n) = Some j.

Lemma wp_read_handle n path max s : steady s → disk s !! path = Some n → 0 <= max →
  wp (read_handle runtimeUid (Handle path) max) (λ r s', quiet s s' ∧
    match r with
    | Ok j => readable n max j
    | Throw _ => calm s → ∀ j, ¬ readable n max j
    end) s.
Proof.
  intros Hst Hn Hm. unfold read_handle. apply wp_bind, wp_attempt.
  apply wp_mono with (λ r s', quiet s s' ∧
    match r with Ok j => readable n max j | Throw _ => calm s → ∀ j, ¬ readable n max j end).
  - apply wp_bind, wp_stat; cbn [hpath].
    2: { intros c s1 Hq Hc. split; [done|]. intros Hcalm. specialize (Hc Hcalm). congruence. }
    intros st n' s1 Hq Hn' ->. assert (n' = n) as -> by congruence.
    apply wp_bind, wp_validateTargetStat; intros Ht.
    2: { split; [done|]. intros _ j (Hf & _). unfold target_fine in Hf. congruence. }
    apply wp_bind, wp_throw_if; unfold stat_of; cbn [st_size]; intros Hs; breflect.
    { split; [done|]. intros _ j (_ & Hl & _). lia. }
    apply wp_bind. eapply wp_mono; [apply (wp_readBounded n); [by eapply quiet_steady|by rewrite (proj1 Hq)|done]|].
    intros [b|e] s2 [Hq2 Hr]; [destruct Hr as [-> Hl]|].
    + apply wp_of_option.
      * intros j Hj. split; [by etrans|]. by split_and!.
      * intros Hj. split; [by etrans|]. intros _ j (_ & _ & Hj'). congruence.
    + split; [by etrans|]. intros Hcalm j (_ & Hl & _).
      specialize (Hr ltac:(by eapply quiet_calm)). lia.
  - intros r s1 [Hq Hr]. apply wp_bind, wp_attempt, wp_close. intros c s2 Hq2 Hc _.
    destruct r as [j|e]; [destruct c as [[]|e]|]; wp_go; (split; [by etrans|]); try done.
    intros Hcalm. by specialize (Hc ltac:(by eapply quiet_calm)).
Qed.

Definition valid_path (path : jsstr) : bool :=
  isAbsolute path && negb (bool_decide (basename path = [])).
Definition valid_maximum (max : Z) : bool := (1 <=? max) && (max <=? MAX_SECURE_JSON_BYTES).

(** [read] leaves the files alone and answers what the file holds; without
    failures it fails exactly when the path, the limit, the parent or the file
    are not acceptable. *)
Lemma wp_read path max s : steady s →
  wp (read runtimeUid path max) (λ r s', quiet s s' ∧
    match r with
    | Ok (Some j) => ∃ n, disk s !! path = Some n ∧ readable n max j
    | Ok None => honest s → disk s !! path = None
    | Throw e => e = SecureJsonFileError ∧ (calm s → ¬ (valid_path path = true ∧
        valid_maximum max = true ∧ parent_fine s path ∧
        match disk s !! path with Some n => ∃ j, readable n max j | None => True end))
    end) s.
Proof.
  intros Hst. unfold read, validatePath. apply wp_catch, wp_bind, wp_throw_if.
  { intros Hp. wp_go. split; [done|]. split; [done|]. intros _ (Hv & _).
    unfold valid_path in Hv. apply andb_true_iff in Hv as [Ha Hb]. rewrite Ha in Hp.
    cbn [negb orb] in Hp. by rewrite Hp in Hb. }
  intros Hp. apply wp_bind, wp_throw_if.
  { intros Hm. wp_go. split; [done|]. split; [done|]. intros _ (_ & Hv & _).
    unfold valid_maximum in Hv. breflect. apply orb_true_iff in Hm as [?|?]; breflect; lia. }
  intros Hm. breflect. apply wp_bind.
  eapply wp_mono; [apply wp_validateAndCloseParent|]. intros [[]|e] s1 [Hq Hpar].
  2: { wp_go. split; [done|]. split; [done|]. intros Hcalm (_ & _ & Hf & _). by apply Hpar. }
  apply wp_bind, wp_attempt, secure_wp_open_read.
  - intros n s2 Hq2 Hn Hk. apply wp_bind.
    eapply wp_mono; [apply (wp_read_handle n);
      [by repeat (eapply quiet_steady; [eassumption|])|by rewrite (proj1 Hq2)|lia]|].
    rewrite (proj1 Hq) in Hn.
    intros [j|e'] s3 [Hq3 Hr]; wp_go; (split; [by repeat (etrans; [eassumption|])|]).
    + by exists n.
    + split; [done|]. intros Hcalm (_ & _ & _ & Hf). rewrite Hn in Hf. destruct Hf as [j Hj].
      by apply (Hr ltac:(eauto using quiet_calm) j).
  - intros s2 Hq2 He. wp_go. split; [by etrans|]. intros Hh.
    destruct He as [He|[t He]]; [by rewrite (proj1 Hq) in He|].
    apply (quiet_honest _ _ Hq) in Hh. by destruct (Hh t).
  - intros c s2 Hq2 Hne Hc.
    assert (quiet s s2 ∧ SecureJsonFileError = SecureJsonFileError ∧ (calm s → ¬ (valid_path path = true ∧
        valid_maximum max = true ∧ parent_fine s path ∧
        match disk s !! path with Some n => ∃ j, readable n max j | None => True end))) as Hfin.
    { split; [by etrans|]. split; [done|]. intros Hcalm (_ & _ & _ & Hf).
      destruct (Hc ltac:(by eapply quiet_calm)) as (n & Hn & Hk).
      rewrite (proj1 Hq) in Hn. rewrite Hn in Hf. destruct Hf as (j & Hf & _).
      unfold target_fine, target_ok, stat_of in Hf. cbn [st_kind] in Hf. by rewrite Hk in Hf. }
    destruct c; try done; wp_go; exact Hfin.
Qed.
(** * [replace] *)

(** Only the file at [p] changes, from the disk [d]. *)
Definition holds (d : gmap jsstr node) (p : jsstr) (n : node) (s : sstate) : Prop :=
  disk s = <[p := n]> d.

Lemma set_content_holds d p n f w : nodes w = <[p := n]> d →
  nodes (set_content p f w) = <[p := Node (nkind n) (uid n) (mode n) (f (content n))]> d.
Proof.
  intros H. unfold set_content, set_nodes. cbn [nodes]. rewrite H.
  apply map_eq. intros q. rewrite lookup_alter. case_decide as E.
  - subst. by rewrite !lookup_insert_eq.
  - by rewrite !lookup_insert_ne.
Qed.

Lemma wp_write_loop d p hd : hpath hd = p → ∀ fuel bytes n s, holds d p n s →
  (length bytes < fuel)%nat →
  wp (write_loop fuel hd bytes) (λ r s', fenv s' = fenv s ∧ locals s' = locals s ∧
    ∃ c, holds d p (Node (nkind n) (uid n) (mode n) c) s' ∧
    match r with
    | Ok _ => c = content n ++ bytes
    | Throw e => e ≠ NoFuel
    end) s.
Proof.
  intros Hp. induction fuel as [|fuel IH]; intros bytes n s Hh Hf; [lia|].
  cbn [write_loop]. destruct bytes as [|x bytes].
  { wp_go. split_and!; [done..|]. exists (content n). rewrite app_nil_r. by destruct n. }
  set (data := x :: bytes) in *. apply wp_bind. unfold handle_write.
  apply secure_wp_fs_change.
  - intros c t w (Hd & He & Hl). split_and!; [done..|]. eexists. split; [|done].
    unfold holds, disk. cbn [fs_world set_world]. rewrite Hp. apply set_content_holds.
    etrans; [exact Hd|exact Hh].
  - intros t w (Hd & He & Hl). cbn [to_serr fst snd].
    set (k := reported _ _ _). set (g := if _ && _ then _ else _).
    assert (Hh' : holds d p (Node (nkind n) (uid n) (mode n) (content n ++ g))
      (set_world (set_content p (λ c, c ++ g) w) s)).
    { unfold holds, disk. cbn [fs_world set_world]. apply set_content_holds.
      etrans; [exact Hd|exact Hh]. }
    rewrite <-Hp in Hh'. apply wp_bind, wp_throw_if; intros Hk.
    + split_and!; [done..|]. eexists. split; [by rewrite <-Hp|done].
    + breflect. subst g. rewrite (proj2 (andb_true_iff _ _)) in Hh' |- * by
        (split; [apply Z.ltb_lt|apply Z.leb_le]; lia).
      eapply wp_mono; [eapply IH; [by rewrite <-Hp|rewrite length_drop; lia]|].
      intros r s' (He' & Hl' & c & Hc & Hr). cbn [nkind uid mode content] in *.
      split_and!; [by etrans|by etrans|]. exists c. split; [done|].
      destruct r; [|done]. rewrite Hr, <-(assoc_L (++)). by rewrite take_drop.
Qed.

(** No temporary file exists, or the one that [replace] owns. *)
Definition no_temp (d : gmap jsstr node) (s : sstate) : Prop :=
  ownsTemp s = false ∧ temp s = None ∧ disk s = d.
Definition has_temp (d : gmap jsstr node) (path : jsstr) (s : sstate) : Prop :=
  ownsTemp s = true ∧ tempPath s ≠ path ∧ d !! tempPath s = None ∧ ∃ n, holds d (tempPath s) n s.

Definition plain_names (s : sstate) : Prop := ∀ t, no_slash (uuid (fenv s) t).

Lemma secure_wp_open_temp path a : ∀ s d, plain_names s → no_temp d s →
  wp (open_temp processUid a path) (λ r s', fenv s' = fenv s ∧
    (no_temp d s' ∨
     r = Ok tt ∧ ∃ hd, temp s' = Some hd ∧ hpath hd = tempPath s' ∧ ownsTemp s' = true ∧
       tempPath s' ≠ path ∧ d !! tempPath s' = None ∧
       holds d (tempPath s') (Node KFile processUid 0x180 []) s')) s.
Proof.
  induction a as [|a IH]; intros s d Hu (Ho & Ht & Hd); cbn [open_temp]; [wp_go; by split; [|left]|].
  apply wp_bind. unfold wp at 1, randomUUID. cbn [fst snd].
  set (name := uuid _ _). set (s1 := set_world (advance (fs_world s)) s).
  assert (Hname : no_slash name) by apply Hu.
  cbn zeta. fold (temp_path path name). apply wp_bind, wp_modify.
  set (p := temp_path path name). set (s2 := set_tempPath p s1).
  apply wp_bind, wp_attempt. unfold open_exclusive. apply secure_wp_fs_change.
  - intros c t w (Hdw & Hew & Hlw).
    assert (no_temp d (set_world (keep t w) s2)) as Hnt.
    { split_and!; [done..|]. etrans; [exact Hdw|exact Hd]. }
    destruct c; try (wp_go; split; [exact Hew|by left]).
    eapply wp_mono; [eapply IH; [|exact Hnt]|].
    + unfold plain_names. intros t'. change (fenv (set_world (keep t w) s2)) with (env w).
      rewrite (Hew : env w = _). apply Hu.
    + intros r s' [He Hr]. split; [etrans; [exact He|exact Hew]|exact Hr].
  - intros t w (Hdw & Hew & Hlw). assert (nodes w = d) as Hn by (etrans; [exact Hdw|exact Hd]).
    rewrite Hn. destruct (d !! p) as [n|] eqn:Ep; cbn [to_serr fst snd].
    + eapply wp_mono; [eapply IH|].
      * unfold plain_names. intros t'. change (fenv (set_world w s2)) with (env w).
        rewrite (Hew : env w = _). apply Hu.
      * by split_and!.
      * intros r s' [He Hr]. split; [etrans; [exact He|exact Hew]|exact Hr].
    + wp_go. split; [exact Hew|]. right. split; [done|]. exists (Handle p).
      split_and!; try done; by apply temp_path_ne.
Qed.

Lemma wp_write_temp d p hd bytes s : hpath hd = p →
  holds d p (Node KFile processUid 0x180 []) s →
  wp (write_temp runtimeUid hd bytes) (λ r s', fenv s' = fenv s ∧ locals s' = locals s ∧
    ∃ n, holds d p n s' ∧
    (r = Ok tt → n = Node KFile processUid 0x180 bytes ∧ processUid = runtimeUid)) s.
Proof.
  intros Hp Hh. unfold write_temp. apply wp_bind. unfold handle_chmod. apply secure_wp_fs_change.
  { intros c t w (Hd & He & Hl). split_and!; [done..|]. eexists. split; [|done].
    unfold holds, keep. etrans; [exact Hd|exact Hh]. }
  intros t w (Hd & He & Hl). cbn [to_serr fst snd].
  set (s1 := set_world _ s). set (n1 := Node KFile processUid 0x180 []).
  assert (Hh1 : holds d p n1 s1).
  { unfold holds, disk, s1. cbn [fs_world set_world set_nodes nodes].
    assert (nodes w = <[p := n1]> d) as -> by (etrans; [exact Hd|exact Hh]). rewrite Hp.
    apply map_eq. intros q. rewrite lookup_alter. case_decide as E.
    - subst q. by rewrite !lookup_insert_eq.
    - by rewrite !lookup_insert_ne. }
  assert (Heq1 : fenv s1 = fenv s ∧ locals s1 = locals s) by (split; [exact He|exact Hl]).
  clearbody s1. clear Hd He Hl w.
  assert (Hend : ∀ s2 (r : res serr unit), quiet s1 s2 → r ≠ Ok tt →
    fenv s2 = fenv s ∧ locals s2 = locals s ∧ ∃ n, holds d p n s2 ∧
    (r = Ok tt → n = Node KFile processUid 0x180 bytes ∧ processUid = runtimeUid)).
  { intros s2 r (Hd2 & He2 & Hl2) Hr. split_and!; [by rewrite He2; apply Heq1|by rewrite Hl2; apply Heq1|].
    exists n1. split; [unfold holds in *; congruence|done]. }
  apply wp_bind, wp_stat; [|intros c s2 Hq _; by apply Hend].
  intros st n s2 Hq Hn ->. rewrite Hp in Hn. unfold holds in Hh1.
  assert (n = n1) as -> by (rewrite Hh1, lookup_insert_eq in Hn; congruence).
  apply wp_bind. unfold validateTempStat. apply wp_throw_if; intros Hv; [by apply Hend|].
  assert (processUid = runtimeUid) as Huid.
  { unfold stat_of in Hv. cbn [st_kind st_uid] in Hv. breflect. done. }
  apply wp_bind. unfold writeAll.
  eapply wp_mono; [eapply (wp_write_loop d p hd Hp _ _ n1); [unfold holds; by rewrite (proj1 Hq)|lia]|].
  intros r s3 (He3 & Hl3 & c & Hc & Hr). destruct Hq as (_ & He2 & Hl2).
  assert (Heq3 : fenv s3 = fenv s ∧ locals s3 = locals s).
  { split; [rewrite He3, He2|rewrite Hl3, Hl2]; apply Heq1. }
  assert (Hend3 : ∀ s4 (r : res serr unit), quiet s3 s4 → r = Ok tt ∧ c = bytes ∨ r ≠ Ok tt →
    fenv s4 = fenv s ∧ locals s4 = locals s ∧ ∃ n, holds d p n s4 ∧
    (r = Ok tt → n = Node KFile processUid 0x180 bytes ∧ processUid = runtimeUid)).
  { intros s4 r' (Hd4 & He4 & Hl4) Hr'. split_and!; [by rewrite He4; apply Heq3|by rewrite Hl4; apply Heq3|].
    eexists. split; [unfold holds in *; etrans; [exact Hd4|exact Hc]|]. intros Hok.
    destruct Hr' as [[_ ->]|?]; [by split|done]. }
  destruct r as [[]|e]; [|apply Hend3; [done|by right]].
  cbn [content n1 app] in Hr. apply wp_bind, wp_sync. intros r s4 Hq4 _ _.
  destruct r as [[]|e]; [|apply Hend3; [done|by right]].
  apply wp_close. intros r s5 Hq5 _ _. apply Hend3; [by etrans|].
  destruct r as [[]|e]; [by left|by right].
Qed.

(** The [try] block of [replace] commits the bytes to the target, or leaves at
    most its temporary file behind. *)
Lemma secure_wp_commit path bytes s d : plain_names s → no_temp d s →
  wp (commit runtimeUid processUid path bytes) (λ r s', fenv s' = fenv s ∧
    match r with
    | Ok _ => disk s' = <[path := Node KFile processUid 0x180 bytes]> d ∧
              processUid = runtimeUid ∧ (honest s → ∀ n, d !! path = Some n → target_fine n)
    | Throw _ => no_temp d s' ∨ has_temp d path s'
    end) s.
Proof.
  intros Hu Hnt. unfold commit. apply wp_bind.
  eapply wp_mono; [by apply (secure_wp_open_temp path _ s d)|]. intros r s1 [He1 Hr].
  destruct r as [[]|e].
  2: { destruct Hr as [Hr|(? & _)]; [|done]. split; [done|by left]. }
  destruct Hr as [Hr|(_ & hd & Ht & Hhd & Ho & Hne & Hd & Hh)].
  { destruct (Hr) as (_ & Ht & _). apply wp_bind, wp_gets. rewrite Ht.
    apply wp_throw. split; [done|by left]. }
  apply wp_bind, wp_gets. rewrite Ht. apply wp_bind.
  eapply wp_mono; [by apply (wp_write_temp d _ hd bytes s1 Hhd)|].
  intros r s2 (He2 & Hl2 & n & Hh2 & Hok). injection Hl2 as Hp2 Ht2 Ho2.
  assert (Hleft : ∀ s3, disk s3 = disk s2 → tempPath s3 = tempPath s1 → ownsTemp s3 = true →
    has_temp d path s3).
  { intros s3 Hd3 Hp3 Ho3. unfold has_temp, holds. rewrite Hp3, Hd3. split_and!; [done..|by exists n]. }
  destruct r as [[]|e]; [|split; [congruence|right; apply Hleft; congruence]].
  destruct (Hok eq_refl) as [-> Huid]. apply wp_bind, wp_modify, wp_bind.
  eapply wp_mono; [apply wp_validateExistingTarget|].
  intros r s4 ((Hd4 & He4 & Hl4) & Hv). injection Hl4 as Hp4 Ht4 Ho4.
  change (disk (set_temp None s2)) with (disk s2) in Hd4, Hv.
  change (fenv (set_temp None s2)) with (fenv s2) in He4.
  destruct r as [[]|e]; [|split; [congruence|right; apply Hleft; congruence]].
  apply wp_bind, wp_gets, wp_bind. rewrite Hp4, Hp2. unfold rename. apply secure_wp_fs_change.
  { intros c t w (Hdw & Hew & Hlw). split; [etrans; [exact Hew|congruence]|].
    right. apply Hleft; [etrans; [exact Hdw|congruence]|cbn; congruence|cbn; congruence]. }
  intros t w (Hdw & Hew & Hlw).
  assert (nodes w = <[tempPath s1 := Node KFile processUid 0x180 bytes]> d) as Hn.
  { etrans; [exact Hdw|]. rewrite Hd4. exact Hh2. }
  rewrite Hn, lookup_insert_eq. cbn [to_serr fst snd]. wp_go.
  split; [etrans; [exact Hew|congruence]|]. split_and!; [|done|].
  - unfold disk. cbn [fs_world set_ownsTemp set_world set_nodes nodes].
    by rewrite delete_insert_id.
  - intros Hh0 m Hm. apply Hv; [unfold honest; change (fenv (set_temp None s2)) with (fenv s2); congruence|].
    by rewrite Hh2, lookup_insert_ne.
Qed.

Definition leftover (d : gmap jsstr node) (path : jsstr) (s : sstate) : Prop :=
  ∃ t n, t ≠ path ∧ d !! t = None ∧ disk s = <[t := n]> d.

Lemma wp_cleanup d path parent e s : no_temp d s ∨ has_temp d path s →
  wp (cleanup parent e) (λ r s', fenv s' = fenv s ∧
    match r with
    | Ok x => x = not_committed ∧ disk s' = d
    | Throw e => e = SecureJsonFileError ∧ (disk s' = d ∨ leftover d path s')
    end) s.
Proof.
  intros Hs. unfold cleanup. apply wp_bind, wp_gets, wp_bind, wp_attempt.
  apply wp_mono with (λ r s', quiet s s'); [destruct (temp s); [by apply wp_close|by wp_go]|].
  intros c1 s1 Hq1. apply wp_bind, wp_gets, wp_bind, wp_gets, wp_bind, wp_attempt.
  destruct Hq1 as (Hd1 & He1 & Hl1). injection Hl1 as Hp1 Ht1 Ho1. rewrite Ho1, Hp1.
  apply wp_mono with (λ c2 s2, fenv s2 = fenv s ∧
    (disk s2 = d ∨ c2 ≠ Ok tt ∧ leftover d path s2)).
  - destruct Hs as [(-> & _ & Hd)|(-> & Hne & Hnone & n & Hh)].
    + wp_go. split; [done|left; congruence].
    + unfold unlink. apply secure_wp_fs_change.
      * intros c t w (Hdw & Hew & _). split; [etrans; [exact Hew|done]|]. right. split; [done|].
        exists (tempPath s), n. split_and!; [done..|]. etrans; [exact Hdw|]. rewrite Hd1. exact Hh.
      * intros t w (Hdw & Hew & _).
        assert (nodes w = <[tempPath s := n]> d) as Hn by (etrans; [exact Hdw|]; rewrite Hd1; exact Hh).
        rewrite Hn, lookup_insert_eq. cbn [to_serr fst snd]. split; [etrans; [exact Hew|done]|]. left.
        unfold disk. cbn [fs_world set_world set_nodes nodes]. by rewrite delete_insert_id.
  - intros c2 s2 [He2 Hd2]. apply wp_bind, wp_attempt, wp_close. intros c3 s3 (Hd3 & He3 & _) _ _.
    assert (disk s3 = d ∨ c2 ≠ Ok tt ∧ leftover d path s3) as Hd3'.
    { unfold leftover. rewrite Hd3. exact Hd2. }
    apply wp_if; intros Hb; wp_go; (split; [congruence|]).
    + split; [done|]. destruct Hd3' as [?|[_ ?]]; auto.
    + split; [done|]. destruct Hd3' as [?|[Hc2 _]]; [done|]. breflect.
      by destruct c2 as [[]|?].
Qed.

Lemma wp_settle parent s :
  wp (settle parent) (λ r s', quiet s s' ∧
    (r = Ok committed ∨ r = Ok committed_durability_uncertain)) s.
Proof.
  unfold settle. apply wp_bind, wp_attempt, wp_sync. intros a s1 Hq _ _.
  apply wp_bind, wp_attempt, wp_close. intros b s2 Hq2 _ _. wp_go.
  split; [by etrans|]. destruct (_ && _); auto.
Qed.

(** What [replace] leaves behind: the serialized value in the target, nothing,
    or, with an error, at most a temporary file. *)
Lemma wp_replace path h v mode s : plain_names s →
  wp (replace runtimeUid processUid path h v mode) (λ r s', fenv s' = fenv s ∧
    match r with
    | Ok not_committed => disk s' = disk s
    | Ok _ => ∃ b, serializeJson h v = Some b ∧ mode = 0x180 ∧ valid_path path = true ∧
                disk s' = <[path := Node KFile processUid 0x180 b]> (disk s) ∧
                processUid = runtimeUid ∧ parent_fine s path ∧
                (honest s → ∀ n, disk s !! path = Some n → target_fine n)
    | Throw e => e = SecureJsonFileError ∧ (disk s' = disk s ∨ leftover (disk s) path s')
    end) s.
Proof.
  intros Hu. unfold replace, validatePath. apply wp_bind, wp_catch, wp_bind, wp_throw_if.
  { intros _. wp_go. split; [done|]. split; [done|]. by left. }
  intros Hp. apply wp_bind, wp_throw_if; [intros _; wp_go; split; [done|]; split; [done|]; by left|].
  intros Hm. apply wp_of_option; [|intros _; wp_go; split; [done|]; split; [done|]; by left].
  intros b Hb. apply wp_bind. unfold open_for_replace. apply wp_catch, wp_bind.
  eapply wp_mono; [apply wp_openValidatedParent|]. intros [parent|e] s1 [Hq Hpar].
  2: { wp_go. split; [apply Hq|]. split; [done|]. left. apply Hq. }
  apply wp_catch, wp_bind. eapply wp_mono; [apply wp_validateExistingTarget|].
  intros [[]|e] s2 [Hq2 _].
  2: { apply wp_bind, wp_catch, wp_close. intros r s3 Hq3 _ _.
       assert (quiet s s3) as (Hd & He & _) by (by repeat (etrans; [eassumption|])).
       destruct r as [[]|]; wp_go; (split; [done|]); split; try done; by left. }
  apply wp_ret. cbn beta iota. apply wp_bind, wp_modify, wp_bind, wp_attempt.
  assert (quiet s s2) as (Hd2 & He2 & _) by by etrans.
  set (s3 := SState (fs_world s2) [] None false).
  assert (Hs3 : no_temp (disk s) s3) by (by split_and!).
  eapply wp_mono; [apply (secure_wp_commit path b s3 (disk s)); [|exact Hs3]|].
  { unfold plain_names. change (fenv s3) with (fenv s2). by rewrite He2. }
  change (fenv s3) with (fenv s2). intros r s4 [He4 Hr]. destruct r as [[]|e].
  - destruct Hr as (Hd4 & Huid & Hval). eapply wp_mono; [apply wp_settle|].
    intros r s5 ((Hd5 & He5 & _) & Hr5).
    assert (fenv s5 = fenv s ∧ ∃ b, serializeJson h v = Some b ∧ mode = 0x180 ∧
      valid_path path = true ∧ disk s5 = <[path := Node KFile processUid 0x180 b]> (disk s) ∧
      processUid = runtimeUid ∧ parent_fine s path ∧
      (honest s → ∀ n, disk s !! path = Some n → target_fine n)) as [He Hex].
    { split; [congruence|]. exists b. breflect. split_and!; try done; [| |].
      - unfold valid_path. apply andb_true_iff. split; [done|]. by rewrite bool_decide_eq_false_2.
      - by rewrite Hd5.
      - intros Hh. apply Hval. unfold honest. change (fenv s3) with (fenv s2). by rewrite He2. }
    by destruct Hr5 as [-> | ->].
  - eapply wp_mono; [apply (wp_cleanup (disk s) path parent e s4 Hr)|].
    intros r s5 [He5 Hr5]. split; [congruence|]. destruct r as [x|e']; [|done].
    by destruct Hr5 as [-> ->].
Qed.


(** * The register *)

(** The value that a file holds, if it holds one. *)
Definition stored (s : sstate) (path : jsstr) : option json :=
  n ← disk s !! path; decode_file (content n).

Lemma committed_readable h v b j k : heap_ok h → value_ok v →
  unfold h depth_budget v = Some (j, k) → json_ok j → serializeJson h v = Some b →
  decode_file b = Some j ∧ Z.of_nat (length b) = bytes j ∧ bytes j <= MAX_SECURE_JSON_BYTES.
Proof.
  intros Hh Hv Hu Hj Hs. pose proof (preflight_exact h v Hh Hv) as Hp. rewrite Hu in Hp.
  unfold serializeJson in Hs. case_decide as Hf.
  - destruct Hp as (sv & p & Hp & _ & Hr). rewrite Hp in Hs. fold depth_budget in Hs.
    rewrite Hr in Hs. cbn [mbind option_bind] in Hs.
    destruct (MAX_SECURE_JSON_BYTES <? _); [done|]. injection Hs as <-. split_and!.
    + unfold decode_file. rewrite utf8_decode_stringify by done. cbn [mbind option_bind].
      by apply json_parse_stringify.
    + apply utf8_encode_length.
    + apply Hf.
  - destruct (preflightJson h v) as [[?|?] ?]; done.
Qed.
End service.

(** ** A concrete file system *)

Definition sample_env (fail : nat → option errcode) : environment :=
  {| fails := fail; chunk := λ _, 7; garbage := λ _, [0]; uuid := λ _, js "a1";
     now_iso := λ _, [] |}.
Definition sample_dir : gmap jsstr node := {[ js "/data" := Node KDirectory 1000 0x1C0 [] ]}.
Definition sample_state (fail : nat → option errcode) : sstate :=
  SState (World sample_dir 0 (sample_env fail)) [] None false.
Definition sample_path : jsstr := js "/data/c.json".

Example sample_replace :
  (replace 1000 1000 sample_path sample_heap (VRef 0) 0x180 (sample_state (λ _, None))).1 = Ok committed ∧
  (replace 1000 1000 sample_path sample_heap (VRef 0) 0x180
     (sample_state (λ t, if (t =? 9)%nat then Some EIO else None))).1 = Ok not_committed ∧
  (read 1000 sample_path 100
     (replace 1000 1000 sample_path sample_heap (VRef 0) 0x180 (sample_state (λ _, None))).2).1 =
  Ok (Some sample_tree).
Proof. split_and!; vm_compute; reflexivity. Qed.

Lemma sample_plain fail : plain_names (sample_state fail).
Proof. intros t. unfold no_slash. by apply plain_literal. Qed.

(** C31: [replace] is atomic under every failure of the file system: it reports
    success only when the target holds exactly the serialized value, owned by
    the runtime user with mode 0600, next to otherwise untouched files, and
    only below a parent directory that passed the checks and over a target
    that did; it reports [not_committed] only when nothing changed; it throws
    only [SecureJsonFileError], and then nothing but a left-over temporary
    file next to the unchanged target can have appeared. *)
Theorem replace_atomic runtimeUid processUid path h v mode s : plain_names s →
  let '(r, s') := replace runtimeUid processUid path h v mode s in
  match r with
  | Ok not_committed => disk s' = disk s
  | Ok _ => ∃ b, serializeJson h v = Some b ∧ mode = 0x180 ∧ valid_path path = true ∧
              disk s' = <[path := Node KFile processUid 0x180 b]> (disk s) ∧
              processUid = runtimeUid ∧ parent_fine runtimeUid s path ∧
              (honest s → ∀ n, disk s !! path = Some n → target_fine runtimeUid n)
  | Throw e => e = SecureJsonFileError ∧ (disk s' = disk s ∨ leftover (disk s) path s')
  end.
Proof.
  intros Hu. pose proof (wp_replace runtimeUid processUid path h v mode s Hu) as Hw.
  unfold wp in Hw. destruct (replace _ _ _ _ _ _ _) as [r s']. apply Hw.
Qed.

Theorem replace_atomic_witness :
  plain_names (sample_state (λ _, None)) ∧
  ∃ b, serializeJson sample_heap (VRef 0) = Some b ∧
    disk (replace 1000 1000 sample_path sample_heap (VRef 0) 0x180 (sample_state (λ _, None))).2 =
    <[sample_path := Node KFile 1000 0x180 b]> sample_dir.
Proof.
  split; [apply sample_plain|].
  pose proof (replace_atomic 1000 1000 sample_path sample_heap (VRef 0) 0x180
    (sample_state (λ _, None)) (sample_plain _)) as H.
  pose proof (proj1 sample_replace) as Hr.
  destruct (replace 1000 1000 sample_path sample_heap (VRef 0) 0x180 (sample_state (λ _, None)))
    as [r s']. cbn [fst snd] in *. subst r. destruct H as (b & Hb & _ & _ & Hd & _). by exists b.
Defined.

Lemma bytes_pos j : json_ok j → 1 <= bytes j.
Proof.
  intros Hj. destruct (stringify_start j Hj) as (c & t & Hs & _). unfold bytes. rewrite Hs.
  unfold utf8ByteLength. destruct (code_points (c :: t)) as [|x l] eqn:E.
  - cbn [code_points] in E. by repeat case_match.
  - cbn [foldr]. pose proof (utf8_width_pos x).
    assert (0 <= foldr (λ c n, utf8_width c + n) 0 l); [|lia].
    clear. induction l as [|y l IH]; cbn [foldr]; [done|]. pose proof (utf8_width_pos y). lia.
Qed.

(** C32: [replace] and [read] refine a register of JSON values: a reported
    success sets it to the value that the object stood for, any other outcome
    leaves it, and a read of the file afterwards, in any process and whatever
    fails, answers that value or throws; with no failure and a sufficient
    limit it answers the value.  [read] never changes a file. *)
Theorem secure_file_register runtimeUid processUid path h v j k s :
  heap_ok h → value_ok v → unfold h depth_budget v = Some (j, k) → json_ok j → plain_names s →
  let '(r, s1) := replace runtimeUid processUid path h v 0x180 s in
  match r with
  | Ok not_committed | Throw _ => stored s1 path = stored s path
  | Ok _ => stored s1 path = Some j ∧
      ∀ s2 max, disk s2 = disk s1 → steady s2 → honest s2 →
      let '(r2, s3) := read runtimeUid path max s2 in
      disk s3 = disk s2 ∧
      (r2 = Ok (Some j) ∨ r2 = Throw SecureJsonFileError) ∧
      (calm s2 → bytes j <= max <= MAX_SECURE_JSON_BYTES → r2 = Ok (Some j))
  end.
Proof.
  intros Hh Hv Hu Hj Hn. pose proof (wp_replace runtimeUid processUid path h v 0x180 s Hn) as Hw.
  unfold wp in Hw. destruct (replace _ _ _ _ _ _ _) as [r s1]. cbn [fst snd] in Hw.
  destruct Hw as [_ Hw].
  assert (Hread : (∃ b, serializeJson h v = Some b ∧ 0x180 = 0x180 ∧ valid_path path = true ∧
      disk s1 = <[path := Node KFile processUid 0x180 b]> (disk s) ∧
      processUid = runtimeUid ∧ parent_fine runtimeUid s path ∧
      (honest s → ∀ n, disk s !! path = Some n → target_fine runtimeUid n)) →
    stored s1 path = Some j ∧ ∀ s2 max, disk s2 = disk s1 → steady s2 → honest s2 →
      let '(r2, s3) := read runtimeUid path max s2 in
      disk s3 = disk s2 ∧ (r2 = Ok (Some j) ∨ r2 = Throw SecureJsonFileError) ∧
      (calm s2 → bytes j <= max <= MAX_SECURE_JSON_BYTES → r2 = Ok (Some j))).
  { intros (b & Hb & _ & Hpath & Hd & -> & (pn & Hpn & Hpv) & _).
    destruct (committed_readable h v b j k Hh Hv Hu Hj Hb) as (Hdec & Hlen & Hlim).
    split; [unfold stored; by rewrite Hd, lookup_insert_eq|].
    intros s2 max Hd2 Hst Hho. pose proof (wp_read runtimeUid path max s2 Hst) as Hr.
    unfold wp in Hr. destruct (read runtimeUid path max s2) as [r2 s3].
    destruct Hr as [(Hd3 & _) Hr]. cbn [fst snd] in *.
    assert (Hfile : disk s2 !! path = Some (Node KFile runtimeUid 0x180 b))
      by by rewrite Hd2, Hd, lookup_insert_eq.
    split; [done|]. destruct r2 as [[j'|]|e].
    - destruct Hr as (n & Hn' & _ & _ & Hdec'). rewrite Hfile in Hn'. simplify_eq.
      cbn [content] in Hdec'. rewrite Hdec in Hdec'. simplify_eq. split; [by left|done].
    - specialize (Hr Hho). congruence.
    - destruct Hr as [-> Hr]. split; [by right|]. intros Hcalm [Hm1 Hm2].
      destruct (Hr Hcalm). split; [done|]. split.
      { unfold valid_maximum. apply andb_true_iff. rewrite !Z.leb_le. split; [|done].
        pose proof (bytes_pos j Hj). lia. }
      split.
      { exists pn. split; [|done]. rewrite Hd2, Hd. rewrite lookup_insert_ne; [done|].
        unfold valid_path in Hpath. apply andb_true_iff in Hpath as [Ha Hbn].
        apply not_eq_sym, dirname_ne; [done|]. intros E. by rewrite E in Hbn. }
      rewrite Hfile. exists j. split_and!; [|cbn [content]; lia|done].
      unfold target_fine, target_ok, stat_of. cbn [st_kind st_uid st_mode nkind uid mode].
      rewrite Z.eqb_refl. done. }
  destruct r as [[]|e]; [unfold stored; by rewrite Hw|by apply Hread|by apply Hread|].
  destruct Hw as [_ [Hw|(t & n & Ht & _ & Hw)]]; unfold stored; rewrite Hw; [done|].
  by rewrite lookup_insert_ne.
Qed.

Theorem secure_file_register_witness :
  json_ok sample_tree ∧
  (read 1000 sample_path 100
     (replace 1000 1000 sample_path sample_heap (VRef 0) 0x180 (sample_state (λ _, None))).2).1 =
  Ok (Some sample_tree).
Proof.
  assert (json_ok sample_tree) as Hj.
  { cbn. unfold real_ok, units_ok, unit_ok. repeat (constructor || lia || done || set_solver). }
  split; [exact Hj|].
  pose proof (secure_file_register 1000 1000 sample_path sample_heap (VRef 0) sample_tree 10
    (sample_state (λ _, None)) sample_heap_ok I (proj1 sample_unfold) Hj (sample_plain _)) as H.
  pose proof (proj1 sample_replace) as Hr.
  assert (Hs1 : fenv (replace 1000 1000 sample_path sample_heap (VRef 0) 0x180
    (sample_state (λ _, None))).2 = sample_env (λ _, None)) by (vm_compute; reflexivity).
  destruct (replace 1000 1000 sample_path sample_heap (VRef 0) 0x180 (sample_state (λ _, None)))
    as [r s1]. cbn [fst snd] in *. subst r. destruct H as [_ H].
  assert (steady s1 ∧ honest s1 ∧ calm s1) as (H1 & H2 & H3).
  { unfold steady, honest, calm. rewrite Hs1. by split_and!. }
  specialize (H s1 100 eq_refl H1 H2). destruct (read 1000 sample_path 100 s1) as [r2 s3].
  destruct H as (_ & _ & H). apply H; [done|]. vm_compute. split; discriminate.
Defined.
