(* ===== verification/JsonRegister.v ===== *)
(** What the stores rely on in [SecureJsonFile]: the interface [JsonRegister],
    a cell with one JSON value per path that survives the process, and the
    proof that [SecureFile] implements it over the failing file system.

    A store hands over an object without arrays; [alloc] lays such a value out
    as fresh objects, as [structuredClone] does. *)
From S2P Require Import Prelude JsMap SafeString Json JsonText SecureJson JsonTree Preflight.
From S2P Require Import Fs SecureFile SecureFileFacts.
Open Scope Z_scope.

(** * The interface *)

Class JsonRegister (W : Type) := {
  file_read : jsstr → W → res unit (option json) * W;
  file_replace : jsstr → json → W → res unit ReplaceResult * W;
  file_sync : jsstr → W → res unit bool * W;
  (** the value that the file at a path holds *)
  file_value : W → jsstr → option json;
}.
(** [fits] is what can be written. *)
Class JsonRegisterLaws (W : Type) `{JsonRegister W} (fits : json → Prop) : Prop := {
  file_read_law : ∀ path w, let '(r, w') := file_read path w in
    (∀ p, file_value w' p = file_value w p) ∧
    match r with
    | Ok v => file_value w path = v
    | Throw _ => True
    end;
  file_replace_law : ∀ path j w, fits j → let '(r, w') := file_replace path j w in
    match r with
    | Ok committed | Ok committed_durability_uncertain =>
        file_value w' path = Some j ∧ ∀ p, p ≠ path → file_value w' p = file_value w p
    | _ => file_value w' path = file_value w path
    end;
  file_sync_law : ∀ path w, let '(r, w') := file_sync path w in
    ∀ p, file_value w' p = file_value w p;
}.

(** * Objects of their own *)

Definition empty_object : object := Object false true 0 [].
Definition heap_of (os : list object) : heap := λ l, nth l os empty_object.

(** The value, and the objects that it needs, from the address [n] on. *)
Fixpoint alloc (j : json) (n : nat) : value * list object :=
  match j with
  | JNull => (VNull, [])
  | JBool b => (VBool b, [])
  | JNum z => (VNumber (NInt z), [])
  | JReal m e => (VNumber (NReal m e), [])
  | JStr s => (VString s, [])
  | JArr _ => (VOther, [])
  | JObj fs =>
      let '(ps, os) := (fix go fs n := match fs with
        | [] => ([], [])
        | (k, v) :: fs =>
            let '(x, o1) := alloc v n in
            let '(ps, o2) := go fs (n + length o1)%nat in
            ((KString k, Property true (Some x)) :: ps, o1 ++ o2)
        end) fs (S n) in
      (VRef n, Object false true 0 ps :: os)
  end.
Definition alloc_fields : list (jsstr * json) → nat → list (key * property) * list object :=
  fix go fs n := match fs with
    | [] => ([], [])
    | (k, v) :: fs =>
        let '(x, o1) := alloc v n in
        let '(ps, o2) := go fs (n + length o1)%nat in
        ((KString k, Property true (Some x)) :: ps, o1 ++ o2)
    end.

(** Without arrays, and no deeper than [d]. *)
Fixpoint flat (d : nat) (j : json) : Prop :=
  match d, j with
  | _, (JNull | JBool _ | JNum _ | JReal _ _ | JStr _) => (0 < d)%nat
  | S d, JObj fs => foldr (λ p P, flat d p.2 ∧ P) True fs
  | _, _ => False
  end.

Lemma alloc_obj fs n : alloc (JObj fs) n =
  let '(ps, os) := alloc_fields fs (S n) in (VRef n, Object false true 0 ps :: os).
Proof. done. Qed.

Definition agrees (h : heap) (n : nat) (os : list object) : Prop :=
  ∀ i o, os !! i = Some o → h (n + i)%nat = o.
Lemma agrees_app h n a b : agrees h n (a ++ b) → agrees h n a ∧ agrees h (n + length a) b.
Proof.
  intros H. split; intros i o Hi.
  - apply H. by apply lookup_app_l_Some.
  - rewrite <-Nat.add_assoc. apply H. by rewrite lookup_app_r, Nat.add_comm, Nat.add_sub by lia.
Qed.

(** A laid out value unfolds to itself. *)
Lemma unfold_alloc j : ∀ n h d, agrees h n (alloc j n).2 → flat d j →
  ∃ k, JsonTree.unfold h d (alloc j n).1 = Some (j, k).
Proof.
  induction j as [|b|z|m e|s|l _|fs IH] using json_induction; intros n h [|d] Hh Hf;
    try (cbn in Hf; lia); try (by eexists); try done.
  rewrite alloc_obj in Hh |- *. destruct (alloc_fields fs (S n)) as [ps os] eqn:Hps.
  cbn [fst snd] in *. cbn [JsonTree.unfold].
  assert (h n = Object false true 0 ps) as Ho by (rewrite <-(Nat.add_0_r n); by apply Hh).
  rewrite Ho. cbn [is_array].
  assert (agrees h (S n) os) as Hos.
  { intros i o Hi. replace (S n + i)%nat with (n + S i)%nat by lia. by apply Hh. }
  assert (∃ vs ks, entries ps = Some (zip fs.*1 vs) ∧ length vs = length fs ∧
    mapM (JsonTree.unfold h d) vs = Some (zip fs.*2 ks) ∧ length ks = length fs) as
    (vs & ks & He & Hl & Hm & Hlk).
  { clear Hh Ho. revert ps os Hps Hos. generalize (S n). cbn [flat] in Hf.
    induction IH as [|[k v] fs Hv _ IHfs]; intros n' ps os Hps Hos.
    - injection Hps as <- <-. by exists [], [].
    - cbn [alloc_fields] in Hps. fold alloc_fields in Hps. cbn in Hf. destruct Hf as [Hfv Hf].
      destruct (alloc v n') as [x o1] eqn:Hx. destruct (alloc_fields fs _) as [ps' o2] eqn:Hps'.
      injection Hps as <- <-. apply agrees_app in Hos as [H1 H2].
      destruct (IHfs Hf _ _ _ Hps' H2) as (vs & ks & He & Hl & Hm & Hlk).
      cbn [snd] in Hv. destruct (Hv n' h d) as [kk Hkk]; [by rewrite Hx|done|]. rewrite Hx in Hkk. cbn [fst] in Hkk.
      exists (x :: vs), (kk :: ks). cbn. rewrite He, Hkk. cbn. rewrite Hm. cbn. by rewrite Hl, Hlk. }
  unfold object_values. cbn [plain own]. rewrite He. cbn [mbind option_bind].
  rewrite snd_zip, fst_zip by (rewrite length_fmap; lia). rewrite Hm. cbn [mbind option_bind].
  rewrite fst_zip by (rewrite length_fmap; lia). rewrite zip_fst_snd. by eexists.
Qed.

(** It is well-formed when the value is. *)
Lemma alloc_ok j : ∀ n, json_ok j → value_ok (alloc j n).1 ∧ Forall object_ok (alloc j n).2.
Proof.
  induction j as [|b|z|m e|s|l _|fs IH] using json_induction; intros n Hj;
    try (split; [done|constructor]).
  - split; [|constructor]. cbn in *. etrans; [exact Hj|]. by apply Z.pow_lt_mono_r.
  - rewrite alloc_obj. destruct (alloc_fields fs (S n)) as [ps os] eqn:Hps. cbn [fst snd].
    apply json_ok_obj in Hj as [Hnd Hj]. split; [done|].
    assert (ps.*1 = KString <$> fs.*1 ∧ Forall object_ok os ∧
      Forall (λ p : key * property, match p.1 with KString k => units_ok k | _ => True end ∧
        match pvalue p.2 with Some v => value_ok v | None => True end) ps) as (Hk & Hos & Hp).
    { clear Hnd. revert ps os Hps. generalize (S n).
      induction IH as [|[k v] fs Hv _ IHfs]; intros n' ps os Hps.
      - injection Hps as <- <-. split_and!; [done|constructor..].
      - cbn [alloc_fields] in Hps. fold alloc_fields in Hps.
        destruct (alloc v n') as [x o1] eqn:Hx. destruct (alloc_fields fs _) as [ps' o2] eqn:Hps'.
        injection Hps as <- <-. apply Forall_cons in Hj as [[Hk Hjv] Hj].
        destruct (IHfs Hj _ _ _ Hps') as (H1 & H2 & H3). destruct (Hv n' Hjv) as [Hvx Hvo]. cbn [snd] in Hvx, Hvo.
        rewrite Hx in Hvx, Hvo. split_and!; [by cbn; rewrite H1|by apply Forall_app|by constructor]. }
    constructor; [|done]. split; [done|]. split; [|done]. cbn [own]. rewrite Hk.
    by apply NoDup_fmap_2; [intros ? ? [=]|].
Qed.
Lemma heap_of_ok os : Forall object_ok os → heap_ok (heap_of os).
Proof.
  intros H l. unfold heap_of. destruct (nth_in_or_default l os empty_object) as [Hin| ->].
  - apply list_elem_of_In in Hin. exact (proj1 (Forall_forall _ _) H _ Hin).
  - split; [done|]. split; constructor.
Qed.
Lemma heap_of_agrees os : agrees (heap_of os) 0 os.
Proof.
  intros i o Hi. cbn. unfold heap_of. by apply nth_lookup_Some.
Qed.

(** * [SecureFile] implements it *)

(** The values that the stores write. *)
Definition writable (j : json) : Prop := json_ok j ∧ flat depth_budget j.

Section implementation.
(** One user runs the service; reads and writes make progress, and no call
    reports a file as missing that exists. *)
Variables (uid : Z) (e : environment).
Hypothesis e_steady : ∀ t, 0 < chunk e t.
Hypothesis e_honest : ∀ t, fails e t ≠ Some ENOENT.
Hypothesis e_plain : ∀ t, no_slash (uuid e t).

Record file_world := FileWorld { files : sstate; files_env : fenv files = e }.

Lemma read_env path max (w : file_world) :
  fenv (read uid path max (files w)).2 = e.
Proof.
  destruct w as [s Hs]. assert (steady s) as Hst by (intros t; cbn; by rewrite Hs).
  pose proof (wp_read uid path max s Hst) as [(_ & He & _) _]. cbn. congruence.
Qed.
Lemma replace_env path h v (w : file_world) :
  fenv (replace uid uid path h v 0x180 (files w)).2 = e.
Proof.
  destruct w as [s Hs]. assert (plain_names s) as Hp by (intros t; cbn; by rewrite Hs).
  pose proof (wp_replace uid uid path h v 0x180 s Hp) as [He _]. cbn. congruence.
Qed.
Lemma wp_syncParent path s : wp (syncParent uid path) (λ _ s', quiet s s') s.
Proof.
  unfold syncParent, validatePath. apply wp_bind, wp_attempt, wp_bind, wp_throw_if; intros _; [by wp_go|].
  eapply wp_mono; [apply wp_openValidatedParent|]. intros [hd|er] s1 [Hq _]; [|by wp_go].
  apply wp_bind, wp_attempt, wp_sync. intros r s2 Hq2 _ _. apply wp_bind, wp_attempt, wp_close.
  intros r' s3 Hq3 _ _. wp_go. by repeat (etrans; [eassumption|]).
Qed.
Lemma sync_env path (w : file_world) : fenv (syncParent uid path (files w)).2 = e.
Proof.
  destruct w as [s Hs]. destruct (wp_syncParent path s) as (_ & He & _). cbn. congruence.
Qed.

Definition forget_error {A} (r : res serr A) : res unit A :=
  match r with Ok a => Ok a | Throw _ => Throw tt end.
#[export] Instance secure_files : JsonRegister file_world := {|
  file_read path w := (forget_error (read uid path MAX_SECURE_JSON_BYTES (files w)).1,
    FileWorld (read uid path MAX_SECURE_JSON_BYTES (files w)).2 (read_env _ _ w));
  file_replace path j w := let '(v, os) := alloc j 0 in
    (forget_error (replace uid uid path (heap_of os) v 0x180 (files w)).1,
     FileWorld (replace uid uid path (heap_of os) v 0x180 (files w)).2 (replace_env _ _ _ w));
  file_sync path w := (forget_error (syncParent uid path (files w)).1,
    FileWorld (syncParent uid path (files w)).2 (sync_env _ w));
  file_value w path := stored (files w) path;
|}.

#[export] Instance secure_files_laws : JsonRegisterLaws file_world writable.
Proof.
  split.
  - intros path [s Hs]. cbn [file_read secure_files files].
    assert (steady s) as Hst by (intros t; by rewrite Hs).
    pose proof (wp_read uid path MAX_SECURE_JSON_BYTES s Hst) as H. unfold wp in H.
    destruct H as [(Hd & _) H]. cbn [file_value secure_files files]. split.
    { intros p. unfold stored. by rewrite Hd. }
    destruct (read uid path MAX_SECURE_JSON_BYTES s).1 as [[j|]|er]; cbn [forget_error]; [| |done].
    + destruct H as (n & Hn & _ & _ & Hj). unfold stored. by rewrite Hn.
    + unfold stored. rewrite H; [done|]. intros t. by rewrite Hs.
  - intros path j [s Hs] [Hj Hf]. cbn [file_replace secure_files].
    destruct (alloc j 0) as [v os] eqn:Ha. cbn [files].
    destruct (alloc_ok j 0 Hj) as [Hv Hos]. rewrite Ha in Hv, Hos. cbn [fst snd] in *.
    destruct (unfold_alloc j 0 (heap_of os) depth_budget) as [k Hk];
      [rewrite Ha; apply heap_of_agrees|done|]. rewrite Ha in Hk. cbn [fst] in Hk.
    assert (plain_names s) as Hp by (intros t; by rewrite Hs).
    pose proof (wp_replace uid uid path (heap_of os) v 0x180 s Hp) as [_ H].
    assert (∀ s', (∃ b, serializeJson (heap_of os) v = Some b ∧
      disk s' = <[path := Node KFile uid 0x180 b]> (disk s)) →
      stored s' path = Some j ∧ ∀ p, p ≠ path → stored s' p = stored s p) as Hgo.
    { intros s' (b & Hb & Hd). unfold stored. rewrite Hd, lookup_insert_eq.
      destruct (committed_readable (heap_of os) v b j k (heap_of_ok os Hos) Hv Hk Hj Hb) as (Hdec & _).
      split; [done|]. intros p Hne. by rewrite lookup_insert_ne. }
    destruct (replace uid uid path (heap_of os) v 0x180 s).1 as [[]|er]; cbn [forget_error file_value secure_files files].
    + unfold stored. by rewrite H.
    + apply Hgo. destruct H as (b & Hb & _ & _ & Hd & _). by exists b.
    + apply Hgo. destruct H as (b & Hb & _ & _ & Hd & _). by exists b.
    + destruct H as [_ [Hd|(t & n & Ht & _ & Hd)]]; unfold stored; rewrite Hd; [done|].
      by rewrite lookup_insert_ne.
  - intros path [s Hs]. cbn [file_sync secure_files file_value files]. intros p.
    destruct (wp_syncParent path s) as (Hd & _). unfold stored. by rewrite Hd.
Qed.
End implementation.

(** A concrete file system on which no call fails. *)
Lemma sample_steady t : 0 < Fs.chunk (sample_env (λ _, None)) t.
Proof. cbn. lia. Qed.
Lemma sample_uuid t : no_slash (Fs.uuid (sample_env (λ _, None)) t).
Proof. apply (sample_plain (λ _, None)). Qed.
Definition sample_files : JsonRegister (file_world (sample_env (λ _, None))) :=
  secure_files 1000 _ sample_steady sample_uuid.
Definition sample_world : file_world (sample_env (λ _, None)) :=
  FileWorld _ (sample_state (λ _, None)) eq_refl.
