(* ===== verification/Double.v ===== *)
(** IEEE 754 double precision, as far as the program computes with fractions,
    on the executable specification of the Standard Library: the double
    nearest to a decimal, [Math.round] and comparisons. *)
From Stdlib Require Import Floats.SpecFloat.
From S2P Require Import Prelude Json.
Open Scope Z_scope.

(** A finite number, by the shortest decimal [m * 10 ^ e] that denotes it. *)
Record num := Num { mantissa : Z; exponent : Z }.
#[export] Instance num_eq_dec : EqDecision num.
Proof. solve_decision. Defined.

Definition as_number (v : json) : option num :=
  match v with
  | JNum z => Some (Num z 0)
  | JReal m e => Some (Num m e)
  | _ => None
  end.
Definition num_json (n : num) : json :=
  if exponent n =? 0 then JNum (mantissa n) else JReal (mantissa n) (exponent n).

(** The double nearest to [m * 10 ^ e], ties to even. *)
Definition to_double (n : num) : spec_float :=
  if 0 <=? exponent n then binary_normalize 53 1024 (mantissa n * 10 ^ exponent n) 0 false
  else
    let d := S754_finite false (Z.to_pos (10 ^ (- exponent n))) 0 in
    match mantissa n with
    | Z0 => S754_zero false
    | Zpos p => SFdiv 53 1024 (S754_finite false p 0) d
    | Zneg p => SFdiv 53 1024 (S754_finite true p 0) d
    end.

Definition double_sub : spec_float → spec_float → spec_float := SFsub 53 1024.
Definition double_div : spec_float → spec_float → spec_float := SFdiv 53 1024.

(** [Math.round]: the nearest integer, ties towards positive infinity. *)
Definition math_round (x : spec_float) : spec_float :=
  match x with
  | S754_finite s p e =>
      if 0 <=? e then x
      else
        let m := if s then Zneg p else Zpos p in
        binary_normalize 53 1024 ((2 * m + 2 ^ (- e)) / 2 ^ (1 - e)) 0 s
  | _ => x
  end.

Definition num_leb (a b : num) : bool := SFleb (to_double a) (to_double b).
Definition num_ltb (a b : num) : bool := SFltb (to_double a) (to_double b).

Lemma as_number_json v n : as_number v = Some n → (match v with JReal _ e => e ≠ 0 | _ => True end) →
  num_json n = v.
Proof.
  destruct v; try done; cbn; intros [= <-] He; unfold num_json; cbn; [done|].
  by rewrite (proj2 (Z.eqb_neq _ _) He).
Qed.
Lemma as_number_num_json n : as_number (num_json n) = Some n.
Proof. unfold num_json. destruct n as [m e]. cbn. by destruct (Z.eqb_spec e 0) as [->|]. Qed.
