(* ===== verification/Settings.v ===== *)
(** [packages/shared/src/settings.ts]: the workspace settings, their limits and
    their parsers.

    A schema is a function from JSON values; zod's issues are not
    distinguished, and [None] is a throw.  A palette is the list of its colours
    in the order of [terminalPaletteKeys].  The results are immutable, so that
    [structuredClone] and [deepFreeze] leave no trace. *)
From Stdlib Require Import Floats.SpecFloat.
From S2P Require Import Prelude JsMap SafeString Json Double.
Open Scope Z_scope.

(** * Enumerations *)

(** [z.enum([...])] *)
Class ZodEnum (A : Type) := { options : list A; name : A → jsstr }.
Definition enum_schema {A} `{ZodEnum A} (v : json) : option A :=
  s ← as_string v;
  snd <$> list_find (λ a, name a = s) options.

Inductive FontFamily :=
| jetbrains_mono_nerd | system_monospace | dejavu_sans_mono | noto_sans_mono | liberation_mono | courier.
Inductive Theme :=
| dark | light | ubuntu | midnight_electric | aurora_night | carbon_violet | custom.
Inductive CursorStyle := block | underline | bar.
Inductive BellBehavior := bell_none | bell_visual | bell_sound.
Inductive ReconnectBehavior := automatic | manual.
Inductive ShortcutMode := shortcuts_default | shortcuts_disabled.
#[export] Instance font_eq_dec : EqDecision FontFamily.
Proof. solve_decision. Defined.
#[export] Instance theme_eq_dec : EqDecision Theme.
Proof. solve_decision. Defined.
#[export] Instance cursor_eq_dec : EqDecision CursorStyle.
Proof. solve_decision. Defined.
#[export] Instance bell_eq_dec : EqDecision BellBehavior.
Proof. solve_decision. Defined.
#[export] Instance reconnect_eq_dec : EqDecision ReconnectBehavior.
Proof. solve_decision. Defined.
#[export] Instance shortcut_eq_dec : EqDecision ShortcutMode.
Proof. solve_decision. Defined.

Definition font_name (f : FontFamily) : jsstr :=
  match f with
  | jetbrains_mono_nerd => js "jetbrains-mono-nerd"
  | system_monospace => js "system-monospace"
  | dejavu_sans_mono => js "dejavu-sans-mono"
  | noto_sans_mono => js "noto-sans-mono"
  | liberation_mono => js "liberation-mono"
  | courier => js "courier"
  end.
Definition theme_name (t : Theme) : jsstr :=
  match t with
  | dark => js "dark"
  | light => js "light"
  | ubuntu => js "ubuntu"
  | midnight_electric => js "midnight-electric"
  | aurora_night => js "aurora-night"
  | carbon_violet => js "carbon-violet"
  | custom => js "custom"
  end.
Definition cursor_name (c : CursorStyle) : jsstr :=
  match c with block => js "block" | underline => js "underline" | bar => js "bar" end.
Definition bell_name (b : BellBehavior) : jsstr :=
  match b with bell_none => js "none" | bell_visual => js "visual" | bell_sound => js "sound" end.
Definition reconnect_name (r : ReconnectBehavior) : jsstr :=
  match r with automatic => js "automatic" | manual => js "manual" end.
Definition shortcut_name (m : ShortcutMode) : jsstr :=
  match m with shortcuts_default => js "default" | shortcuts_disabled => js "disabled" end.

#[export] Instance fontFamilySchema : ZodEnum FontFamily :=
  {| options := [jetbrains_mono_nerd; system_monospace; dejavu_sans_mono; noto_sans_mono; liberation_mono; courier];
     name := font_name |}.
#[export] Instance themeSchema : ZodEnum Theme :=
  {| options := [dark; light; ubuntu; midnight_electric; aurora_night; carbon_violet; custom];
     name := theme_name |}.
#[export] Instance cursorStyleSchema : ZodEnum CursorStyle :=
  {| options := [block; underline; bar]; name := cursor_name |}.
#[export] Instance bellBehaviorSchema : ZodEnum BellBehavior :=
  {| options := [bell_none; bell_visual; bell_sound]; name := bell_name |}.
#[export] Instance reconnectBehaviorSchema : ZodEnum ReconnectBehavior :=
  {| options := [automatic; manual]; name := reconnect_name |}.
#[export] Instance workspaceShortcutModeSchema : ZodEnum ShortcutMode :=
  {| options := [shortcuts_default; shortcuts_disabled]; name := shortcut_name |}.

(** * Palettes *)

Definition terminalPaletteKeys : list jsstr := js <$>
  ["background"; "foreground"; "cursor"; "cursorAccent"; "selectionBackground"; "black"; "red";
   "green"; "yellow"; "blue"; "magenta"; "cyan"; "white"; "brightBlack"; "brightRed";
   "brightGreen"; "brightYellow"; "brightBlue"; "brightMagenta"; "brightCyan"; "brightWhite"]%string.

Definition MIDNIGHT_ELECTRIC_TERMINAL_PALETTE : list jsstr := js <$>
  ["#101827"; "#DCE8FF"; "#82B1FF"; "#101827"; "#294A82"; "#152238"; "#FF7B8B";
   "#74D99F"; "#F6CB6C"; "#82B1FF"; "#D8A0FF"; "#76D7EA"; "#DCE8FF"; "#4A5D80"; "#FF9EAA";
   "#99E9B6"; "#FFDA91"; "#A8C8FF"; "#EDB9FF"; "#A8E8F5"; "#FFFFFF"]%string.

Definition is_hex (c : Z) : bool :=
  ((48 <=? c) && (c <=? 57)) || ((65 <=? c) && (c <=? 70)) || ((97 <=? c) && (c <=? 102)).
(** [/^#[0-9A-Fa-f]{6}$/] *)
Definition terminalColor (s : jsstr) : bool :=
  match s with 35 :: digits => (length digits =? 6)%nat && forallb is_hex digits | _ => false end.
Definition color_field (fs : list (jsstr * json)) (k : jsstr) : option jsstr :=
  v ← field k fs; s ← as_string v; if terminalColor s then Some s else None.
Definition customTerminalPaletteSchema (v : json) : option (list jsstr) :=
  fs ← strict_object terminalPaletteKeys v;
  mapM (color_field fs) terminalPaletteKeys.
Definition palette_json (p : list jsstr) : json := JObj (zip terminalPaletteKeys (JStr <$> p)).

(** * Numbers *)

Definition isStepAligned (value minimum step : num) : bool :=
  let steps := double_div (double_sub (to_double value) (to_double minimum)) (to_double step) in
  SFltb (SFabs (double_sub steps (math_round steps))) (to_double (Num 1 (-9))).

(** [z.number().int().min(lo).max(hi)] *)
Definition int_schema (lo hi : Z) (v : json) : option Z :=
  n ← as_int v; if (lo <=? n) && (n <=? hi) then Some n else None.
Definition steppedNumber (minimum maximum step : num) (v : json) : option num :=
  n ← as_number v;
  if num_leb minimum n && num_leb n maximum && isStepAligned n minimum step then Some n else None.
Definition as_bool (v : json) : option bool := match v with JBool b => Some b | _ => None end.

(** * The settings *)

Record WorkspaceSettings := {
  fontFamily : FontFamily;
  fontSize : Z;
  lineHeight : num;
  letterSpacing : Z;
  scrollback : Z;
  theme : Theme;
  cursorStyle : CursorStyle;
  cursorBlink : bool;
  bellBehavior : BellBehavior;
  reconnectBehavior : ReconnectBehavior;
  automaticTabCreation : bool;
  workspaceShortcuts : ShortcutMode;
  defaultShell : jsstr;
  tmuxHistoryLimit : Z;
  staleSessionCleanupHours : Z;
  customTerminalPalette : list jsstr;
}.
#[export] Instance settings_eq_dec : EqDecision WorkspaceSettings.
Proof. solve_decision. Defined.

Definition with_palette (p : list jsstr) (s : WorkspaceSettings) : WorkspaceSettings :=
  {| fontFamily := fontFamily s; fontSize := fontSize s; lineHeight := lineHeight s;
     letterSpacing := letterSpacing s; scrollback := scrollback s; theme := theme s;
     cursorStyle := cursorStyle s; cursorBlink := cursorBlink s; bellBehavior := bellBehavior s;
     reconnectBehavior := reconnectBehavior s; automaticTabCreation := automaticTabCreation s;
     workspaceShortcuts := workspaceShortcuts s; defaultShell := defaultShell s;
     tmuxHistoryLimit := tmuxHistoryLimit s; staleSessionCleanupHours := staleSessionCleanupHours s;
     customTerminalPalette := p |}.

(** The properties of the document, without the palette and with it. *)
Definition legacy_keys : list jsstr := js <$>
  ["version"; "fontFamily"; "fontSize"; "lineHeight"; "letterSpacing"; "scrollback"; "theme";
   "cursorStyle"; "cursorBlink"; "bellBehavior"; "reconnectBehavior"; "automaticTabCreation";
   "workspaceShortcuts"; "defaultShell"; "tmuxHistoryLimit"; "staleSessionCleanupHours"]%string.
Definition palette_key : jsstr := js "customTerminalPalette".
Definition settings_keys : list jsstr := legacy_keys ++ [palette_key].

Definition version_schema (v : json) : option unit :=
  n ← as_int v; if n =? 1 then Some tt else None.
(** A property checked by a schema. *)
Definition prop {A} (fs : list (jsstr * json)) (k : string) (schema : json → option A) : option A :=
  field (js k) fs ≫= schema.

Section parsers.
Context `{Platform}.

Definition shell_options : SafeNormalizedStringOptions :=
  {| maxUtf8Bytes := Some 4096; opt_trim := false; allowJoinControls := false |}.
Definition absoluteShellSchema (v : json) : option jsstr :=
  s ← as_string v;
  value ← safeNormalizedString shell_options s;
  if bool_decide (head value = Some 47) then Some value else None.

(** The properties that both schemas check in the same way. *)
Definition shape (fs : list (jsstr * json)) (fontSchema : json → option FontFamily)
    (themeSchema : json → option Theme) (paletteSchema : option (list jsstr)) : option WorkspaceSettings :=
  _ ← prop fs "version" version_schema;
  fontFamily ← prop fs "fontFamily" fontSchema;
  fontSize ← prop fs "fontSize" (int_schema 8 32);
  lineHeight ← prop fs "lineHeight" (steppedNumber (Num 1 0) (Num 2 0) (Num 5 (-2)));
  letterSpacing ← prop fs "letterSpacing" (int_schema 0 4);
  scrollback ← prop fs "scrollback" (int_schema 0 100000);
  theme ← prop fs "theme" themeSchema;
  cursorStyle ← prop fs "cursorStyle" enum_schema;
  cursorBlink ← prop fs "cursorBlink" as_bool;
  bellBehavior ← prop fs "bellBehavior" enum_schema;
  reconnectBehavior ← prop fs "reconnectBehavior" enum_schema;
  automaticTabCreation ← prop fs "automaticTabCreation" as_bool;
  workspaceShortcuts ← prop fs "workspaceShortcuts" enum_schema;
  defaultShell ← prop fs "defaultShell" absoluteShellSchema;
  tmuxHistoryLimit ← prop fs "tmuxHistoryLimit" (int_schema 0 1000000);
  staleSessionCleanupHours ← prop fs "staleSessionCleanupHours" (int_schema 0 8760);
  customTerminalPalette ← paletteSchema;
  Some {| fontFamily := fontFamily; fontSize := fontSize; lineHeight := lineHeight;
          letterSpacing := letterSpacing; scrollback := scrollback; theme := theme;
          cursorStyle := cursorStyle; cursorBlink := cursorBlink; bellBehavior := bellBehavior;
          reconnectBehavior := reconnectBehavior; automaticTabCreation := automaticTabCreation;
          workspaceShortcuts := workspaceShortcuts; defaultShell := defaultShell;
          tmuxHistoryLimit := tmuxHistoryLimit; staleSessionCleanupHours := staleSessionCleanupHours;
          customTerminalPalette := customTerminalPalette |}.

Definition workspaceSettingsSchema (v : json) : option WorkspaceSettings :=
  fs ← strict_object settings_keys v;
  shape fs enum_schema enum_schema (prop fs "customTerminalPalette" customTerminalPaletteSchema).

Definition legacyFontSchema (v : json) : option FontFamily :=
  f ← enum_schema v;
  if bool_decide (f ∈ [jetbrains_mono_nerd; system_monospace]) then Some f else None.
Definition legacyThemeSchema (v : json) : option Theme :=
  t ← enum_schema v;
  if bool_decide (t ∈ [dark; light; ubuntu]) then Some t else None.
Definition legacyWorkspaceSettingsMissingCustomTerminalPaletteSchema (v : json) : bool :=
  bool_decide (is_Some (
    fs ← strict_object legacy_keys v;
    shape fs legacyFontSchema legacyThemeSchema (Some []))).

Definition isLegacyWorkspaceSettingsMissingCustomTerminalPalette (v : json) : bool :=
  match v with
  | JObj _ => legacyWorkspaceSettingsMissingCustomTerminalPaletteSchema v
  | _ => false
  end.
Definition normalizeLegacyPalette (v : json) : json :=
  if isLegacyWorkspaceSettingsMissingCustomTerminalPalette v then
    match v with
    | JObj fs => JObj (jm_set palette_key (palette_json MIDNIGHT_ELECTRIC_TERMINAL_PALETTE) fs)
    | _ => v
    end
  else v.
(** [background] is the first colour and [cursorAccent] the fourth. *)
Definition normalizeCursorAccent (s : WorkspaceSettings) : WorkspaceSettings :=
  if negb (bool_decide (theme s = custom)) then with_palette MIDNIGHT_ELECTRIC_TERMINAL_PALETTE s
  else
    with_palette (<[3%nat := default [] (customTerminalPalette s !! 0%nat)]> (customTerminalPalette s)) s.

(** * Limits *)

Record NumericSettingLimit := { limit_min : num; limit_max : num; limit_step : num }.

Definition numericSettingLimitSchema (v : json) : option NumericSettingLimit :=
  fs ← strict_object (js <$> ["min"; "max"; "step"]%string) v;
  min ← prop fs "min" as_number;
  max ← prop fs "max" as_number;
  step ← prop fs "step" as_number;
  if num_ltb (Num 0 0) step && num_leb min max
  then Some {| limit_min := min; limit_max := max; limit_step := step |} else None.
Definition is_integer (n : num) : bool := exponent n =? 0.
Definition boundedLimit (minimum maximum quantum : num) (integers : bool) (v : json)
    : option NumericSettingLimit :=
  l ← numericSettingLimitSchema v;
  if num_ltb (limit_min l) minimum || num_ltb maximum (limit_max l) ||
     (integers && negb (forallb is_integer [limit_min l; limit_max l; limit_step l])) ||
     negb (isStepAligned (limit_min l) minimum quantum) ||
     negb (isStepAligned (limit_max l) minimum quantum) ||
     negb (isStepAligned (limit_step l) (Num 0 0) quantum)
  then None else Some l.
Definition uniqueOptions {A} `{EqDecision A} (schema : json → option A) (v : json) : option (list A) :=
  l ← as_array v;
  values ← mapM schema l;
  if (1 <=? length values)%nat && bool_decide (NoDup values) then Some values else None.

Record WorkspaceSettingsLimits := {
  fontFamilies : list FontFamily;
  l_fontSize : NumericSettingLimit;
  l_lineHeight : NumericSettingLimit;
  l_letterSpacing : NumericSettingLimit;
  l_scrollback : NumericSettingLimit;
  themes : list Theme;
  cursorStyles : list CursorStyle;
  bellBehaviors : list BellBehavior;
  reconnectBehaviors : list ReconnectBehavior;
  workspaceShortcutModes : list ShortcutMode;
  l_tmuxHistoryLimit : NumericSettingLimit;
  l_staleSessionCleanupHours : NumericSettingLimit;
}.
Definition limits_keys : list jsstr := js <$>
  ["fontFamilies"; "fontSize"; "lineHeight"; "letterSpacing"; "scrollback"; "themes"; "cursorStyles";
   "bellBehaviors"; "reconnectBehaviors"; "workspaceShortcutModes"; "tmuxHistoryLimit";
   "staleSessionCleanupHours"]%string.
Definition workspaceSettingsLimitsSchema (v : json) : option WorkspaceSettingsLimits :=
  fs ← strict_object limits_keys v;
  fonts ← prop fs "fontFamilies" (uniqueOptions enum_schema);
  size ← prop fs "fontSize" (boundedLimit (Num 8 0) (Num 32 0) (Num 1 0) true);
  height ← prop fs "lineHeight" (boundedLimit (Num 1 0) (Num 2 0) (Num 5 (-2)) false);
  spacing ← prop fs "letterSpacing" (boundedLimit (Num 0 0) (Num 4 0) (Num 1 0) true);
  scroll ← prop fs "scrollback" (boundedLimit (Num 0 0) (Num 100000 0) (Num 1 0) true);
  ths ← prop fs "themes" (uniqueOptions enum_schema);
  cursors ← prop fs "cursorStyles" (uniqueOptions enum_schema);
  bells ← prop fs "bellBehaviors" (uniqueOptions enum_schema);
  reconnects ← prop fs "reconnectBehaviors" (uniqueOptions enum_schema);
  modes ← prop fs "workspaceShortcutModes" (uniqueOptions enum_schema);
  history ← prop fs "tmuxHistoryLimit" (boundedLimit (Num 0 0) (Num 1000000 0) (Num 1 0) true);
  hours ← prop fs "staleSessionCleanupHours" (boundedLimit (Num 0 0) (Num 8760 0) (Num 1 0) true);
  Some {| fontFamilies := fonts; l_fontSize := size; l_lineHeight := height; l_letterSpacing := spacing;
          l_scrollback := scroll; themes := ths; cursorStyles := cursors; bellBehaviors := bells;
          reconnectBehaviors := reconnects; workspaceShortcutModes := modes;
          l_tmuxHistoryLimit := history; l_staleSessionCleanupHours := hours |}.

Record WorkspaceSettingsConstraints := { limits : WorkspaceSettingsLimits; allowedShells : list jsstr }.
Definition workspaceSettingsConstraintsSchema (v : json) : option WorkspaceSettingsConstraints :=
  fs ← strict_object (js <$> ["limits"; "allowedShells"]%string) v;
  l ← prop fs "limits" workspaceSettingsLimitsSchema;
  shells ← prop fs "allowedShells" (uniqueOptions absoluteShellSchema);
  Some {| limits := l; allowedShells := shells |}.

Definition assertNumeric (value : num) (l : NumericSettingLimit) : bool :=
  negb (num_ltb value (limit_min l) || num_ltb (limit_max l) value ||
        negb (isStepAligned value (limit_min l) (limit_step l))).
Definition assertOption {A} `{EqDecision A} (value : A) (l : list A) : bool := bool_decide (value ∈ l).

Definition assertWithinDeployment (s : WorkspaceSettings) (c : WorkspaceSettingsConstraints) : bool :=
  let l := limits c in
  assertOption (fontFamily s) (fontFamilies l) &&
  assertNumeric (Num (fontSize s) 0) (l_fontSize l) &&
  assertNumeric (lineHeight s) (l_lineHeight l) &&
  assertNumeric (Num (letterSpacing s) 0) (l_letterSpacing l) &&
  assertNumeric (Num (scrollback s) 0) (l_scrollback l) &&
  assertOption (theme s) (themes l) &&
  assertOption (cursorStyle s) (cursorStyles l) &&
  assertOption (bellBehavior s) (bellBehaviors l) &&
  assertOption (reconnectBehavior s) (reconnectBehaviors l) &&
  assertOption (workspaceShortcuts s) (workspaceShortcutModes l) &&
  assertNumeric (Num (tmuxHistoryLimit s) 0) (l_tmuxHistoryLimit l) &&
  assertNumeric (Num (staleSessionCleanupHours s) 0) (l_staleSessionCleanupHours l) &&
  assertOption (defaultShell s) (allowedShells c).

(** * The parsers *)

Definition within (s : WorkspaceSettings) (constraints : option json) : bool :=
  match constraints with
  | None => true
  | Some v =>
      match workspaceSettingsConstraintsSchema v with
      | Some c => assertWithinDeployment s c
      | None => false
      end
  end.

Definition parseWorkspaceSettings (v : json) (constraints : option json) : option WorkspaceSettings :=
  parsed ← workspaceSettingsSchema (normalizeLegacyPalette v);
  let s := normalizeCursorAccent parsed in
  if within s constraints then Some s else None.

Definition workspaceSettingsMutationSchema (v : json) : option WorkspaceSettings :=
  fs ← strict_object [js "settings"] v;
  prop fs "settings" workspaceSettingsSchema.
Definition parseWorkspaceSettingsMutation (v : json) (constraints : option json)
    : option WorkspaceSettings :=
  parsed ← workspaceSettingsMutationSchema v;
  let s := normalizeCursorAccent parsed in
  if within s constraints then Some s else None.

Record SettingsResponse := {
  r_settings : WorkspaceSettings;
  r_limits : WorkspaceSettingsLimits;
  r_allowedShells : list jsstr;
}.
Definition workspaceSettingsResponseSchema (v : json) : option SettingsResponse :=
  fs ← strict_object (js <$> ["settings"; "limits"; "allowedShells"]%string) v;
  s ← prop fs "settings" workspaceSettingsSchema;
  l ← prop fs "limits" workspaceSettingsLimitsSchema;
  shells ← prop fs "allowedShells" (uniqueOptions absoluteShellSchema);
  Some {| r_settings := s; r_limits := l; r_allowedShells := shells |}.
Definition parseWorkspaceSettingsResponse (v : json) : option SettingsResponse :=
  parsed ← workspaceSettingsResponseSchema v;
  let s := normalizeCursorAccent (r_settings parsed) in
  if assertWithinDeployment s {| limits := r_limits parsed; allowedShells := r_allowedShells parsed |}
  then Some {| r_settings := s; r_limits := r_limits parsed; r_allowedShells := r_allowedShells parsed |}
  else None.
End parsers.

(** The document that is stored and sent, in the order of the schema. *)
Definition legacy_fields (s : WorkspaceSettings) : list (jsstr * json) := zip legacy_keys
  [JNum 1; JStr (name (fontFamily s)); JNum (fontSize s); num_json (lineHeight s);
   JNum (letterSpacing s); JNum (scrollback s); JStr (name (theme s)); JStr (name (cursorStyle s));
   JBool (cursorBlink s); JStr (name (bellBehavior s)); JStr (name (reconnectBehavior s));
   JBool (automaticTabCreation s); JStr (name (workspaceShortcuts s)); JStr (defaultShell s);
   JNum (tmuxHistoryLimit s); JNum (staleSessionCleanupHours s)].
Definition settings_json (s : WorkspaceSettings) : json :=
  JObj (legacy_fields s ++ [(palette_key, palette_json (customTerminalPalette s))]).
