(* ===== verification/SettingsFacts.v ===== *)
(** The settings document in its canonical form: what the parsers accept is
    well-formed, and printing it and parsing it again gives the same settings;
    legacy documents are upgraded. *)
From S2P Require Import Prelude JsMap SafeString Json JsonText Protocol Double Settings.
Open Scope Z_scope.

(** Unicode normalisation is idempotent, keeps code units code units, and
    introduces no control, format or separator character. *)
Class NormalForm `{Platform} : Prop := {
  nfc_idempotent : ∀ s, nfc (nfc s) = nfc s;
  nfc_safe : ∀ o s, forallb (safe_character o) (code_points s) = true →
    forallb (safe_character o) (code_points (nfc s)) = true;
  nfc_units : ∀ s, units_ok s → units_ok (nfc s);
}.

(** A schema accepts what is printed for its options. *)
Class EnumLaws A `{ZodEnum A} : Prop := {
  enum_print : ∀ a : A, enum_schema (JStr (name a)) = Some a;
  enum_units : ∀ a : A, units_ok (name a);
}.
#[export] Instance font_laws : EnumLaws FontFamily.
Proof. split; [intros []; vm_compute; reflexivity|intros []; apply units_ok_literal; vm_compute; reflexivity]. Qed.
#[export] Instance theme_laws : EnumLaws Theme.
Proof. split; [intros []; vm_compute; reflexivity|intros []; apply units_ok_literal; vm_compute; reflexivity]. Qed.
#[export] Instance cursor_laws : EnumLaws CursorStyle.
Proof. split; [intros []; vm_compute; reflexivity|intros []; apply units_ok_literal; vm_compute; reflexivity]. Qed.
#[export] Instance bell_laws : EnumLaws BellBehavior.
Proof. split; [intros []; vm_compute; reflexivity|intros []; apply units_ok_literal; vm_compute; reflexivity]. Qed.
#[export] Instance reconnect_laws : EnumLaws ReconnectBehavior.
Proof. split; [intros []; vm_compute; reflexivity|intros []; apply units_ok_literal; vm_compute; reflexivity]. Qed.
#[export] Instance shortcut_laws : EnumLaws ShortcutMode.
Proof. split; [intros []; vm_compute; reflexivity|intros []; apply units_ok_literal; vm_compute; reflexivity]. Qed.

(** ** Objects built from parallel lists *)

Lemma field_zip ks vs i k v : NoDup ks → ks !! i = Some k → vs !! i = Some v →
  field k (zip ks vs) = Some v.
Proof.
  revert vs i. induction ks as [|k0 ks IH]; intros [|v0 vs] [|i] Hnd Hk Hv; try done; simplify_eq/=.
  - by rewrite decide_True.
  - apply NoDup_cons in Hnd as [Hn Hnd]. rewrite decide_False; [by eapply IH|].
    intros ->. apply Hn. by eapply list_elem_of_lookup_2.
Qed.
Lemma field_app k fs gs : field k (fs ++ gs) = match field k fs with Some v => Some v | None => field k gs end.
Proof. induction fs as [|[k' v] fs IH]; [done|]. cbn. by case_decide. Qed.
Lemma strict_zip keys ks vs rest : Forall (λ k, k ∈ keys) ks →
  Forall (λ p : jsstr * json, p.1 ∈ keys) rest →
  strict_object keys (JObj (zip ks vs ++ rest)) = Some (zip ks vs ++ rest).
Proof.
  intros Hks Hr. cbn. replace (forallb _ _) with true; [done|]. symmetry.
  apply forallb_forall. intros [k v] Hin%list_elem_of_In. apply bool_decide_eq_true. cbn.
  apply elem_of_app in Hin as [Hin|Hin].
  - apply elem_of_zip_l in Hin. exact (proj1 (Forall_forall _ _) Hks _ Hin).
  - exact (proj1 (Forall_forall _ _) Hr _ Hin).
Qed.

(** ** Palettes *)

Definition palette_ok (p : list jsstr) : Prop :=
  length p = length terminalPaletteKeys ∧ Forall (λ c, terminalColor c = true) p.
Lemma palette_keys_NoDup : NoDup terminalPaletteKeys.
Proof. by apply NoDup_keys. Qed.
Lemma color_field_ok fs k c : color_field fs k = Some c → terminalColor c = true.
Proof.
  unfold color_field. intros (v & _ & (s & _ & H)%bind_Some)%bind_Some. by case_match; simplify_eq.
Qed.
Lemma customTerminalPaletteSchema_ok v p : customTerminalPaletteSchema v = Some p → palette_ok p.
Proof.
  unfold customTerminalPaletteSchema. intros (fs & _ & H)%bind_Some.
  apply mapM_Some_1 in H. split; [by apply Forall2_length in H|].
  apply Forall_lookup. intros i c Hc. eapply Forall2_lookup_r in H as (k & _ & Hk); [|done].
  by eapply color_field_ok.
Qed.
Lemma customTerminalPaletteSchema_json p : palette_ok p →
  customTerminalPaletteSchema (palette_json p) = Some p.
Proof.
  intros [Hl Hc]. unfold customTerminalPaletteSchema, palette_json.
  rewrite <-(app_nil_r (zip _ _)), (strict_zip _ _ _ []), app_nil_r by
    first [by apply Forall_forall|constructor].
  cbn [mbind option_bind]. apply mapM_Some_2, Forall2_same_length_lookup_2; [done|].
  intros i k c Hk Hp. unfold color_field.
  rewrite (field_zip _ _ i k (JStr c) palette_keys_NoDup Hk) by (rewrite list_lookup_fmap; by rewrite Hp).
  cbn. by rewrite (proj1 (Forall_lookup _ _) Hc i c Hp).
Qed.
Lemma color_units c : terminalColor c = true → units_ok c.
Proof.
  unfold terminalColor. destruct c as [|[|p|] s]; try done.
  do 6 (destruct p as [p|p|]; try done). intros [_ Hf]%andb_true_iff.
  constructor; [by split|]. apply Forall_forall. intros x Hx%list_elem_of_In.
  eapply forallb_forall in Hf; [|done]. unfold is_hex in Hf. unfold unit_ok.
  repeat (apply orb_true_iff in Hf as [Hf|Hf]); breflect; lia.
Qed.
Lemma palette_json_ok p : palette_ok p → json_ok (palette_json p).
Proof.
  intros [Hl Hc]. apply json_ok_obj. split.
  - rewrite fst_zip by (rewrite length_fmap; lia). apply palette_keys_NoDup.
  - apply Forall_forall. intros [k v] Hin. split.
    + apply elem_of_zip_l in Hin. revert k Hin. apply Forall_forall.
      repeat first [apply Forall_cons_2; [by apply units_ok_literal|]|apply Forall_nil_2].
    + apply elem_of_zip_r, list_elem_of_fmap in Hin as (c & -> & Hin). apply color_units.
      exact (proj1 (Forall_forall _ _) Hc _ Hin).
Qed.

Section settings.
Context `{Platform}.

(** * Valid settings *)

Definition line_height_schema : json → option num := steppedNumber (Num 1 0) (Num 2 0) (Num 5 (-2)).

(** What the schema checks besides the palette. *)
Definition base_ok (s : WorkspaceSettings) : Prop :=
  8 <= fontSize s <= 32 ∧ line_height_schema (num_json (lineHeight s)) = Some (lineHeight s) ∧
  0 <= letterSpacing s <= 4 ∧ 0 <= scrollback s <= 100000 ∧
  absoluteShellSchema (JStr (defaultShell s)) = Some (defaultShell s) ∧
  0 <= tmuxHistoryLimit s <= 1000000 ∧ 0 <= staleSessionCleanupHours s <= 8760.
Definition settings_ok (s : WorkspaceSettings) : Prop := base_ok s ∧ palette_ok (customTerminalPalette s).
(** The palette is the one that the theme determines. *)
Definition canonical (s : WorkspaceSettings) : Prop :=
  if decide (theme s = custom)
  then customTerminalPalette s !! 3%nat = customTerminalPalette s !! 0%nat
  else customTerminalPalette s = MIDNIGHT_ELECTRIC_TERMINAL_PALETTE.

Lemma prop_Some {A} fs k (schema : json → option A) a : prop fs k schema = Some a →
  ∃ v, field (js k) fs = Some v ∧ schema v = Some a.
Proof. apply bind_Some. Qed.
Lemma int_schema_Some lo hi v n : int_schema lo hi v = Some n → lo <= n <= hi.
Proof. unfold int_schema. intros (z & _ & Hz)%bind_Some. case_match; simplify_eq. by breflect. Qed.
Lemma int_schema_json lo hi n : lo <= n <= hi → int_schema lo hi (JNum n) = Some n.
Proof. intros [? ?]. unfold int_schema. cbn. by rewrite !(proj2 (Z.leb_le _ _)). Qed.
Lemma stepped_json lo hi step v n : steppedNumber lo hi step v = Some n →
  as_number v = Some n ∧ steppedNumber lo hi step (num_json n) = Some n.
Proof.
  unfold steppedNumber. intros (n' & Hn & Hc)%bind_Some. case_match eqn:Hok; simplify_eq.
  split; [done|]. rewrite as_number_num_json. cbn. by rewrite Hok.
Qed.

Lemma field_json_ok fs k v : json_ok (JObj fs) → field k fs = Some v → json_ok v.
Proof.
  intros [_ Hf]%json_ok_obj. induction Hf as [|[k' v'] fs [_ Hv] _ IH]; [done|]. cbn.
  case_decide; [by intros [= <-]|done].
Qed.
Lemma number_json_ok v n : json_ok v → as_number v = Some n → json_ok (num_json n).
Proof.
  destruct v as [| |z|m e| | |]; try done; intros Hok [= <-]; [done|]. unfold num_json. cbn.
  destruct Hok as (? & ? & ?). rewrite (proj2 (Z.eqb_neq _ _)) by lia. done.
Qed.

Section shell.
Context `{!NormalForm}.
Lemma safeNormalized_again o s d : opt_trim o = false → safeNormalizedString o s = Some d →
  safeNormalizedString o d = Some d.
Proof.
  unfold safeNormalizedString. intros -> . destruct (forallb _ (code_points s)) eqn:Hf; cbn [negb]; [|done].
  destruct (negb _) eqn:Hl; [done|]. intros Hd.
  assert (d = nfc s) as -> by (destruct (maxUtf8Bytes o); [case_match|]; congruence).
  by rewrite nfc_safe, nfc_idempotent, Hl.
Qed.
Lemma shell_again v d : absoluteShellSchema v = Some d → absoluteShellSchema (JStr d) = Some d.
Proof.
  unfold absoluteShellSchema. intros (s & _ & (x & Hx & Hd)%bind_Some)%bind_Some.
  case_bool_decide as Hh; [|done]. injection Hd as ->. cbn [as_string mbind option_bind].
  rewrite (safeNormalized_again _ s d) by done. cbn. by rewrite bool_decide_eq_true_2.
Qed.
Lemma shell_units v d : json_ok v → absoluteShellSchema v = Some d → units_ok d.
Proof.
  intros Hv. unfold absoluteShellSchema. intros (s & Hs & (x & Hx & Hd)%bind_Some)%bind_Some.
  case_bool_decide; [|done]. injection Hd as ->. apply safeNormalizedString_safe in Hx as [_ ->].
  apply nfc_units. destruct v; try done. by injection Hs as ->.
Qed.
End shell.

(** ** What [shape] checks *)

Lemma shape_Some `{!NormalForm} fs f t p s : shape fs f t p = Some s → base_ok s ∧
  p = Some (customTerminalPalette s) ∧
  (∃ v, f v = Some (fontFamily s)) ∧ (∃ v, t v = Some (theme s)) ∧
  (json_ok (JObj fs) → units_ok (defaultShell s) ∧ json_ok (num_json (lineHeight s))).
Proof.
  unfold shape. intros (_ & _ & Hs)%bind_Some.
  repeat (apply bind_Some in Hs as (? & ? & Hs)). injection Hs as <-.
  repeat match goal with Hp : prop fs _ _ = Some _ |- _ => apply prop_Some in Hp as (? & ? & ?) end.
  repeat match goal with Hi : int_schema _ _ _ = Some _ |- _ => apply int_schema_Some in Hi end.
  match goal with Hl : steppedNumber _ _ _ _ = Some _ |- _ => apply stepped_json in Hl as [Hn Hl] end.
  match goal with Hd : absoluteShellSchema ?v = Some _ |- _ => rename Hd into Hsh end.
  unfold base_ok. cbn [fontFamily fontSize lineHeight letterSpacing scrollback theme defaultShell tmuxHistoryLimit
    staleSessionCleanupHours customTerminalPalette].
  split; [|split_and!; [done|by eexists|by eexists|]].
  - repeat apply conj; try done; first [lia|by eapply shell_again].
  - intros Hok. split.
    + eapply shell_units; [|exact Hsh]. by eapply field_json_ok.
    + eapply number_json_ok; [|exact Hn]. by eapply field_json_ok.
Qed.

(** ** What [shape] makes of a printed document *)

Lemma shape_json s rest f t p : base_ok s → f (JStr (name (fontFamily s))) = Some (fontFamily s) →
  t (JStr (name (theme s))) = Some (theme s) →
  shape (legacy_fields s ++ rest) f t (Some p) = Some (with_palette p s).
Proof.
  intros (H1 & H2 & H3 & H4 & H5 & H6 & H7) Hf Ht. unfold shape.
  change (prop _ "version" version_schema) with (Some tt).
  change (prop _ "fontFamily" f) with (f (JStr (name (fontFamily s)))).
  change (prop _ "fontSize" (int_schema 8 32)) with (int_schema 8 32 (JNum (fontSize s))).
  change (prop _ "lineHeight" (steppedNumber (Num 1 0) (Num 2 0) (Num 5 (-2)))) with (line_height_schema (num_json (lineHeight s))).
  change (prop _ "letterSpacing" (int_schema 0 4)) with (int_schema 0 4 (JNum (letterSpacing s))).
  change (prop _ "scrollback" (int_schema 0 100000)) with (int_schema 0 100000 (JNum (scrollback s))).
  change (prop _ "theme" t) with (t (JStr (name (theme s)))).
  change (prop _ "cursorStyle" (@enum_schema CursorStyle _)) with (@enum_schema CursorStyle _ (JStr (name (cursorStyle s)))).
  change (prop _ "cursorBlink" as_bool) with (Some (cursorBlink s)).
  change (prop _ "bellBehavior" (@enum_schema BellBehavior _)) with (@enum_schema BellBehavior _ (JStr (name (bellBehavior s)))).
  change (prop _ "reconnectBehavior" (@enum_schema ReconnectBehavior _)) with (@enum_schema ReconnectBehavior _ (JStr (name (reconnectBehavior s)))).
  change (prop _ "automaticTabCreation" as_bool) with (Some (automaticTabCreation s)).
  change (prop _ "workspaceShortcuts" (@enum_schema ShortcutMode _)) with (@enum_schema ShortcutMode _ (JStr (name (workspaceShortcuts s)))).
  change (prop _ "defaultShell" absoluteShellSchema) with (absoluteShellSchema (JStr (defaultShell s))).
  change (prop _ "tmuxHistoryLimit" (int_schema 0 1000000)) with (int_schema 0 1000000 (JNum (tmuxHistoryLimit s))).
  change (prop _ "staleSessionCleanupHours" (int_schema 0 8760)) with (int_schema 0 8760 (JNum (staleSessionCleanupHours s))).
  rewrite Hf, Ht, H2, H5, !int_schema_json, !enum_print by done. done.
Qed.

(** * The whole document *)

Context `{!NormalForm}.

Lemma with_palette_same s : with_palette (customTerminalPalette s) s = s.
Proof. by destruct s. Qed.
Lemma with_palette_base p s : base_ok s → base_ok (with_palette p s).
Proof. done. Qed.

Lemma workspaceSettingsSchema_ok v s : workspaceSettingsSchema v = Some s → settings_ok s ∧
  (json_ok v → units_ok (defaultShell s) ∧ json_ok (num_json (lineHeight s))).
Proof.
  unfold workspaceSettingsSchema. intros (fs & Hfs & Hs)%bind_Some.
  apply shape_Some in Hs as (Hb & (w & _ & Hp)%prop_Some & _ & _ & Hu).
  apply customTerminalPaletteSchema_ok in Hp. split; [done|]. intros Hv. apply Hu.
  destruct v; try done. cbn in Hfs. by case_match; simplify_eq.
Qed.
Lemma legacy_keys_in s : Forall (λ p : jsstr * json, p.1 ∈ legacy_keys) (legacy_fields s).
Proof. apply Forall_forall. intros [k v] Hin. by apply elem_of_zip_l in Hin. Qed.
Lemma workspaceSettingsSchema_json s : settings_ok s → workspaceSettingsSchema (settings_json s) = Some s.
Proof.
  intros [Hb Hp]. unfold workspaceSettingsSchema, settings_json, legacy_fields. rewrite strict_zip.
  - cbn [mbind option_bind]. fold (legacy_fields s).
    change (prop _ "customTerminalPalette" customTerminalPaletteSchema) with
      (customTerminalPaletteSchema (palette_json (customTerminalPalette s))).
    rewrite customTerminalPaletteSchema_json, shape_json by (try apply enum_print; done).
    by rewrite with_palette_same.
  - apply Forall_forall. intros k Hk. apply elem_of_app. by left.
  - constructor; [|constructor]. apply elem_of_app. right. by apply list_elem_of_singleton.
Qed.
Lemma settings_json_not_legacy s :
  isLegacyWorkspaceSettingsMissingCustomTerminalPalette (settings_json s) = false.
Proof.
  unfold settings_json. cbn [isLegacyWorkspaceSettingsMissingCustomTerminalPalette].
  unfold legacyWorkspaceSettingsMissingCustomTerminalPaletteSchema. apply bool_decide_eq_false.
  replace (strict_object legacy_keys _) with (@None (list (jsstr * json))); [by intros [? ?]|].
  unfold strict_object. replace (forallb _ _) with false; [done|]. symmetry. apply not_true_iff_false.
  intros Hf. rewrite forallb_forall in Hf.
  specialize (Hf (palette_key, palette_json (customTerminalPalette s))).
  rewrite <-list_elem_of_In in Hf. cbn [fst] in Hf.
  assert (bool_decide (palette_key ∈ legacy_keys) = false) as Hno by (vm_compute; reflexivity).
  rewrite Hno in Hf. specialize (Hf ltac:(apply elem_of_app; right; by apply list_elem_of_singleton)).
  done.
Qed.

(** Settings that the legacy format could hold. *)
Definition legacy_options (s : WorkspaceSettings) : Prop :=
  fontFamily s ∈ [jetbrains_mono_nerd; system_monospace] ∧ theme s ∈ [dark; light; ubuntu].
Lemma legacy_not_custom s : legacy_options s → theme s ≠ custom.
Proof.
  intros [_ H1] E. rewrite E in H1. revert H1. apply (bool_decide_eq_false_1 _).
  vm_compute. reflexivity.
Qed.
Lemma legacy_detected s : base_ok s → legacy_options s →
  isLegacyWorkspaceSettingsMissingCustomTerminalPalette (JObj (legacy_fields s)) = true.
Proof.
  intros Hb [Hf Ht]. cbn [isLegacyWorkspaceSettingsMissingCustomTerminalPalette].
  unfold legacyWorkspaceSettingsMissingCustomTerminalPaletteSchema. apply bool_decide_eq_true.
  unfold legacy_fields. rewrite <-(app_nil_r (zip legacy_keys _)), strict_zip;
    [|by apply Forall_forall|constructor]. cbn [mbind option_bind]. fold (legacy_fields s).
  rewrite (shape_json s []); [by eexists|done| |].
  - unfold legacyFontSchema. rewrite enum_print. cbn. by rewrite bool_decide_eq_true_2.
  - unfold legacyThemeSchema. rewrite enum_print. cbn. by rewrite bool_decide_eq_true_2.
Qed.
Lemma legacy_Some v : isLegacyWorkspaceSettingsMissingCustomTerminalPalette v = true →
  ∃ fs s, v = JObj fs ∧ Forall (λ p : jsstr * json, p.1 ∈ legacy_keys) fs ∧
    shape fs legacyFontSchema legacyThemeSchema (Some []) = Some s ∧ legacy_options s.
Proof.
  destruct v as [| | | | | |fs]; try done. cbn [isLegacyWorkspaceSettingsMissingCustomTerminalPalette].
  unfold legacyWorkspaceSettingsMissingCustomTerminalPaletteSchema. intros Hl%bool_decide_eq_true.
  destruct Hl as [s (fs' & Hfs & Hs)%bind_Some]. cbn in Hfs. case_match eqn:Hall; simplify_eq.
  exists fs', s. split_and!; [done| |done|].
  - apply Forall_forall. intros p Hp%list_elem_of_In. eapply forallb_forall in Hall; [|done].
    by apply bool_decide_eq_true in Hall.
  - apply shape_Some in Hs as (_ & _ & (vf & Hf) & (vt & Ht) & _).
    unfold legacyFontSchema in Hf. unfold legacyThemeSchema in Ht.
    apply bind_Some in Hf as (f & _ & Hf). apply bind_Some in Ht as (t & _ & Ht).
    case_bool_decide; [|done]. case_bool_decide; [|done]. by simplify_eq.
Qed.

(** ** The palette that the theme determines *)

Lemma midnight_ok : palette_ok MIDNIGHT_ELECTRIC_TERMINAL_PALETTE.
Proof. split; [done|]. apply Forall_forall. intros c Hc%list_elem_of_In.
  revert c Hc. apply forallb_forall. vm_compute. reflexivity. Qed.
Lemma palette_background p : palette_ok p → ∃ c, p !! 0%nat = Some c ∧ terminalColor c = true ∧
  (3 < length p)%nat.
Proof.
  intros [Hl Hc]. destruct (lookup_lt_is_Some_2 p 0) as [c Hp]; [rewrite Hl; cbn; lia|].
  exists c. split_and!; [done|by eapply (proj1 (Forall_lookup _ _)) in Hc|rewrite Hl; cbn; lia].
Qed.
Lemma normalizeCursorAccent_ok s : settings_ok s →
  settings_ok (normalizeCursorAccent s) ∧ canonical (normalizeCursorAccent s).
Proof.
  intros [Hb Hp]. unfold normalizeCursorAccent, canonical. case_bool_decide as Ht; cbn [negb].
  - cbn [theme with_palette customTerminalPalette]. rewrite decide_True by done.
    destruct (palette_background _ Hp) as (c & Hc & Hok & Hlen). rewrite Hc. cbn [default].
    split; [split; [done|]|].
    + destruct Hp as [Hl Hf]. split; cbn; [by rewrite length_insert|]. by apply Forall_insert.
    + by rewrite list_lookup_insert_eq, list_lookup_insert_ne.
  - cbn [theme with_palette customTerminalPalette]. rewrite decide_False by done.
    split; [split; [done|apply midnight_ok]|done].
Qed.
Lemma normalizeCursorAccent_canonical s : settings_ok s → canonical s → normalizeCursorAccent s = s.
Proof.
  intros [Hb Hp]. unfold normalizeCursorAccent, canonical. case_decide as Ht.
  - rewrite bool_decide_eq_true_2 by done. cbn [negb]. intros Hc.
    destruct (palette_background _ Hp) as (c & Hc0 & _). rewrite Hc0 in Hc |- *. cbn [default].
    rewrite list_insert_id by done. apply with_palette_same.
  - rewrite bool_decide_eq_false_2 by done. cbn [negb]. intros <-. apply with_palette_same.
Qed.

(** * The parsers *)

Lemma parse_ok v c s : parseWorkspaceSettings v c = Some s →
  settings_ok s ∧ canonical s ∧ within s c = true.
Proof.
  unfold parseWorkspaceSettings. intros (s0 & Hs0 & Hw)%bind_Some. cbn zeta in Hw.
  case_match eqn:Hc; simplify_eq. apply workspaceSettingsSchema_ok in Hs0 as [Hs0 _].
  destruct (normalizeCursorAccent_ok _ Hs0). done.
Qed.
Lemma parse_json s c : settings_ok s → canonical s → within s c = true →
  parseWorkspaceSettings (settings_json s) c = Some s.
Proof.
  intros Hok Hc Hw. unfold parseWorkspaceSettings, normalizeLegacyPalette.
  rewrite settings_json_not_legacy, workspaceSettingsSchema_json by done. cbn [mbind option_bind].
  cbn zeta. by rewrite normalizeCursorAccent_canonical, Hw.
Qed.

(** ** Legacy documents *)

Lemma shape_mono fs fs' f f' t t' p p' s :
  (∀ k, k ≠ palette_key → field k fs' = field k fs) →
  (∀ v a, f v = Some a → f' v = Some a) → (∀ v a, t v = Some a → t' v = Some a) →
  shape fs f t (Some p) = Some s → shape fs' f' t' (Some p') = Some (with_palette p' s).
Proof.
  intros Hf Hf' Ht' Hs. unfold shape in *. apply bind_Some in Hs as ([] & Hver & Hs).
  repeat (apply bind_Some in Hs as (? & ? & Hs)). injection Hs as <-.
  repeat match goal with
  | E : prop fs ?k ?sch = Some ?x |- context [prop fs' ?k ?sch'] =>
      let E' := fresh in
      assert (prop fs' k sch' = Some x) as E' by
        (unfold prop in *; rewrite Hf by discriminate; apply bind_Some in E as (? & -> & ?);
         cbn [mbind option_bind]; first [done|by apply Hf'|by apply Ht']);
      rewrite E'; clear E'; cbn [mbind option_bind]
  end.
  done.
Qed.
Lemma legacy_schemas : (∀ v a, legacyFontSchema v = Some a → enum_schema v = Some a) ∧
  (∀ v a, legacyThemeSchema v = Some a → enum_schema v = Some a).
Proof.
  split; intros v a; unfold legacyFontSchema, legacyThemeSchema; intros (x & Hx & Ha)%bind_Some;
    case_bool_decide; by simplify_eq.
Qed.
(** A legacy document is parsed as the settings it holds, with the default
    palette. *)
Lemma legacy_parse v c : isLegacyWorkspaceSettingsMissingCustomTerminalPalette v = true →
  ∃ s, legacy_options s ∧ theme s ≠ custom ∧
    customTerminalPalette s = MIDNIGHT_ELECTRIC_TERMINAL_PALETTE ∧
    parseWorkspaceSettings v c = if within s c then Some s else None.
Proof.
  intros Hl. destruct (legacy_Some v Hl) as (fs & s & -> & Hks & Hs & [Hfo Hth]).
  set (p := MIDNIGHT_ELECTRIC_TERMINAL_PALETTE). exists (with_palette p s).
  pose proof (legacy_not_custom s (conj Hfo Hth)) as Hne.
  split_and!; [done..|]. unfold parseWorkspaceSettings, normalizeLegacyPalette. rewrite Hl. fold p.
  assert (workspaceSettingsSchema (JObj (jm_set palette_key (palette_json p) fs)) =
    Some (with_palette p s)) as ->.
  { unfold workspaceSettingsSchema. assert (palette_key ∉ fs.*1) as Hno.
    { intros (q & Hq & Hin)%list_elem_of_fmap. eapply (proj1 (Forall_forall _ _)) in Hks; [|exact Hin].
      rewrite <-Hq in Hks. revert Hks. apply (bool_decide_eq_false_1 _). vm_compute. reflexivity. }
    rewrite jm_set_absent by by apply jm_get_None. unfold strict_object.
    replace (forallb _ _) with true; [cbn [mbind option_bind]|].
    - assert (prop (fs ++ [(palette_key, palette_json p)]) "customTerminalPalette"
        customTerminalPaletteSchema = Some p) as ->.
      { unfold prop. rewrite field_app. change (js "customTerminalPalette") with palette_key.
        assert (field palette_key fs = None) as ->.
        { revert Hno. clear. induction fs as [|[k v] fs IH]; [done|]. cbn.
          intros [Hk Hn]%not_elem_of_cons. rewrite decide_False by done. by apply IH. }
        change (field palette_key _) with (Some (palette_json p)). cbn [mbind option_bind].
        by rewrite customTerminalPaletteSchema_json by apply midnight_ok. }
      eapply shape_mono; [|apply legacy_schemas..|exact Hs]. intros k Hk. rewrite field_app.
      destruct (field k fs); [done|]. cbn. by rewrite decide_False.
    - symmetry. apply forallb_forall. intros q Hq%list_elem_of_In. apply bool_decide_eq_true.
      apply elem_of_app in Hq as [Hq|Hq].
      + apply elem_of_app. left. exact (proj1 (Forall_forall _ _) Hks q Hq).
      + apply list_elem_of_singleton in Hq as ->. apply elem_of_app. right. by apply list_elem_of_singleton. }
  cbn [mbind option_bind]. cbn zeta. unfold normalizeCursorAccent.
  rewrite bool_decide_eq_false_2 by done. done.
Qed.
Lemma legacy_json s c : settings_ok s → canonical s → legacy_options s → within s c = true →
  parseWorkspaceSettings (JObj (legacy_fields s)) c = Some s.
Proof.
  intros Hok Hc Hl Hw. pose proof (legacy_detected s (proj1 Hok) Hl) as Hd.
  unfold parseWorkspaceSettings, normalizeLegacyPalette. rewrite Hd.
  pose proof (legacy_not_custom s Hl) as Hne.
  unfold canonical in Hc. rewrite decide_False in Hc by done.
  rewrite jm_set_absent.
  - rewrite <-Hc. change (JObj _) with (settings_json s). rewrite workspaceSettingsSchema_json by done.
    cbn [mbind option_bind]. cbn zeta. rewrite normalizeCursorAccent_canonical; [by rewrite Hw|done|].
    unfold canonical. by rewrite decide_False.
  - apply jm_get_None. change ((legacy_fields s).*1) with legacy_keys.
    apply (bool_decide_eq_false_1 _). vm_compute. reflexivity.
Qed.

Lemma settings_json_ok s : settings_ok s → units_ok (defaultShell s) →
  json_ok (num_json (lineHeight s)) → json_ok (settings_json s).
Proof.
  intros [(? & ? & ? & ? & ? & ? & ?) Hp] Hsh Hln. apply json_ok_obj. split.
  - change (NoDup settings_keys). by apply NoDup_keys.
  - unfold legacy_fields, legacy_keys. cbn [zip_with fmap list_fmap app].
    repeat first [apply Forall_cons_2; [split; cbn [fst snd];
      [apply units_ok_literal; vm_compute; reflexivity|]|]|apply Forall_nil_2];
      cbn [json_ok]; try done; try apply enum_units; try lia.
    by apply palette_json_ok.
Qed.

Lemma normalized_json_ok v : json_ok v → json_ok (normalizeLegacyPalette v).
Proof.
  intros Hv. unfold normalizeLegacyPalette. case_match; [|done]. destruct v as [| | | | | |fs]; try done.
  apply json_ok_obj in Hv as [Hnd Hf]. apply json_ok_obj. split; [by apply jm_set_wf|].
  apply Forall_forall. intros [k v] Hin.
  assert (NoDup (jm_set palette_key (palette_json MIDNIGHT_ELECTRIC_TERMINAL_PALETTE) fs).*1) as Hnd'
    by by apply jm_set_wf.
  apply (jm_elem_get _ _ _ Hnd') in Hin. rewrite jm_get_set in Hin. case_decide.
  - simplify_eq. split; [by apply units_ok_literal|]. apply palette_json_ok, midnight_ok.
  - apply jm_get_elem in Hin. exact (proj1 (Forall_forall _ _) Hf _ Hin).
Qed.
End settings.

(** In double precision, with its rounding and tolerance, the line heights
    with two decimals that the schema accepts are the multiples of 0.05. *)
Lemma line_heights k : 0 <= k <= 100 →
  is_Some (line_height_schema (make_number (100 + k) (-2))) ↔ k mod 5 = 0.
Proof.
  intros Hk. assert (forallb (λ k, Bool.eqb (bool_decide (is_Some (line_height_schema (make_number (100 + k) (-2)))))
    (k mod 5 =? 0)) (seqZ 0 101) = true) as Hall by (vm_compute; reflexivity).
  rewrite forallb_forall in Hall. specialize (Hall k). rewrite <-list_elem_of_In, elem_of_seqZ in Hall.
  specialize (Hall ltac:(lia)). apply Bool.eqb_prop in Hall. split; intros H.
  - apply Z.eqb_eq. rewrite <-Hall. by apply bool_decide_eq_true.
  - apply (proj1 (bool_decide_eq_true _)). rewrite Hall. by apply Z.eqb_eq.
Qed.


Definition ascii_platform : Platform := {| nfc := λ s, s; iso_datetime := λ _, true |}.
Definition sample_settings : WorkspaceSettings :=
  {| fontFamily := jetbrains_mono_nerd; fontSize := 14; lineHeight := Num 12 (-1);
     letterSpacing := 0; scrollback := 10000; theme := ubuntu; cursorStyle := block;
     cursorBlink := true; bellBehavior := bell_none; reconnectBehavior := automatic;
     automaticTabCreation := true; workspaceShortcuts := shortcuts_default;
     defaultShell := js "/bin/bash"; tmuxHistoryLimit := 50000; staleSessionCleanupHours := 0;
     customTerminalPalette := MIDNIGHT_ELECTRIC_TERMINAL_PALETTE |}.
(** A deployment that offers two fonts and one shell. *)
Definition sample_limit (lo hi step : json) : json :=
  JObj [(js "min", lo); (js "max", hi); (js "step", step)].
Definition sample_constraints : json :=
  let names (l : list string) := JArr (JStr ∘ js <$> l) in
  JObj [(js "limits", JObj
    [(js "fontFamilies", names ["jetbrains-mono-nerd"; "courier"]%string);
     (js "fontSize", sample_limit (JNum 10) (JNum 20) (JNum 2));
     (js "lineHeight", sample_limit (JNum 1) (JReal 15 (-1)) (JReal 1 (-1)));
     (js "letterSpacing", sample_limit (JNum 0) (JNum 2) (JNum 1));
     (js "scrollback", sample_limit (JNum 0) (JNum 20000) (JNum 1000));
     (js "themes", names ["ubuntu"; "custom"]%string);
     (js "cursorStyles", names ["block"]%string);
     (js "bellBehaviors", names ["none"]%string);
     (js "reconnectBehaviors", names ["automatic"; "manual"]%string);
     (js "workspaceShortcutModes", names ["default"]%string);
     (js "tmuxHistoryLimit", sample_limit (JNum 0) (JNum 100000) (JNum 1));
     (js "staleSessionCleanupHours", sample_limit (JNum 0) (JNum 24) (JNum 1))]);
   (js "allowedShells", names ["/bin/bash"; "/bin/sh"]%string)].

Example sample_rejected : let _ := ascii_platform in
  parseWorkspaceSettings (settings_json (with_palette [] sample_settings)) None = None ∧
  parseWorkspaceSettings (JObj (legacy_fields sample_settings ++ [(js "x", JNull)])) None = None.
Proof. split; vm_compute; reflexivity. Qed.

