(* ===== verification/SettingsStore.v ===== *)
(** [apps/server/src/settings-store.ts] and [session-runtime-settings.ts]: the
    stored workspace settings and what a session is started with.

    A store is a state machine over the calls of its methods and the
    settlements of the promises of the secure file, which is any
    [JsonRegister].  [enqueue] chains an operation behind the tail: [jobs] are
    the operations that have not started, and [active] is the one that has,
    with the call that it awaits.  A call of a method is numbered; [settled]
    says how its promise settled.  Listeners and the durability listener are
    recorded in [observed] when they are called; what they throw is contained,
    and what they call is a later event, since a loop runs over a copy of the
    set. *)
From S2P Require Import Prelude JsMap SafeString Json SecureFile JsonRegister Settings.
Open Scope Z_scope.

Definition SETTINGS_FILENAME : jsstr := js "settings.json".
Definition MAX_LISTENERS : nat := 64.

Inductive job := Initialize | ReplaceWith (next : WorkspaceSettings) | RetryDurability.
Inductive outcome := Initialized | Replaced (r : ReplaceResult) | Retried (synced : bool) | Failed.
Inductive observation := Notified (listener : nat) (s : WorkspaceSettings) | DurabilityDegraded.

(** What the active operation awaits. *)
Inductive waiting :=
| AwaitRead
| AwaitInitial (parsed : WorkspaceSettings)   (** [replace] in [initialize] *)
| AwaitReplace (next : WorkspaceSettings)
| AwaitSync.

Record SettingsStoreOptions := {
  dataDir : jsstr;
  defaults : json;
  constraints : json;
  has_durability_listener : bool;
}.

Section store.
Context `{Platform} {W : Type} `{JsonRegister W}.
Variable o : SettingsStoreOptions.

Record store := Store {
  world : W;
  current : option WorkspaceSettings;
  ready : bool;
  initializeAttempted : bool;
  listeners : list nat;
  registrations : nat;
  jobs : list (nat * job);
  active : option (nat * waiting);
  calls : nat;
  settled : list (nat * outcome);
  observed : list observation;
}.

(** The constructor; the path is relative to no directory but its own. *)
Definition settingsPath : jsstr := path_join (dataDir o) SETTINGS_FILENAME.
Definition construct (w : W) : option store :=
  if isAbsolute (dataDir o) then Some (Store w None false false [] 0 [] None 0 [] []) else None.

Definition parse (v : json) : option WorkspaceSettings := parseWorkspaceSettings v (Some (constraints o)).

(** ** Updates *)

Definition set_world (w : W) (s : store) : store :=
  Store w (current s) (ready s) (initializeAttempted s) (listeners s) (registrations s) (jobs s)
    (active s) (calls s) (settled s) (observed s).
Definition set_active (a : option (nat * waiting)) (s : store) : store :=
  Store (world s) (current s) (ready s) (initializeAttempted s) (listeners s) (registrations s) (jobs s)
    a (calls s) (settled s) (observed s).
Definition set_jobs (l : list (nat * job)) (s : store) : store :=
  Store (world s) (current s) (ready s) (initializeAttempted s) (listeners s) (registrations s) l
    (active s) (calls s) (settled s) (observed s).
Definition set_ready (b : bool) (s : store) : store :=
  Store (world s) (current s) b (initializeAttempted s) (listeners s) (registrations s) (jobs s)
    (active s) (calls s) (settled s) (observed s).
Definition attempt_initialize (s : store) : store :=
  Store (world s) (current s) (ready s) true (listeners s) (registrations s) (jobs s)
    (active s) (calls s) (settled s) (observed s).
Definition observe (l : list observation) (s : store) : store :=
  Store (world s) (current s) (ready s) (initializeAttempted s) (listeners s) (registrations s) (jobs s)
    (active s) (calls s) (settled s) (observed s ++ l).
(** The promise of call [i] settles, and the active operation ends. *)
Definition settle (i : nat) (r : outcome) (s : store) : store :=
  Store (world s) (current s) (ready s) (initializeAttempted s) (listeners s) (registrations s) (jobs s)
    None (calls s) (settled s ++ [(i, r)]) (observed s).
(** A call that rejects at once. *)
Definition reject_call (s : store) : store :=
  Store (world s) (current s) (ready s) (initializeAttempted s) (listeners s) (registrations s) (jobs s)
    (active s) (S (calls s)) (settled s ++ [(calls s, Failed)]) (observed s).
Definition enqueue (j : job) (s : store) : store :=
  Store (world s) (current s) (ready s) (initializeAttempted s) (listeners s) (registrations s)
    (jobs s ++ [(calls s, j)]) (active s) (S (calls s)) (settled s) (observed s).
(** [this.current = next; this.ready = result.state === 'committed'] *)
Definition set_current (next : WorkspaceSettings) (committed : bool) (s : store) : store :=
  Store (world s) (Some next) committed (initializeAttempted s) (listeners s) (registrations s) (jobs s)
    (active s) (calls s) (settled s) (observed s).

Definition emitDurabilityEvent (s : store) : store :=
  if has_durability_listener o then observe [DurabilityDegraded] s else s.
Definition notify (next : WorkspaceSettings) (s : store) : store :=
  observe ((λ l, Notified l next) <$> listeners s) s.
Definition is_committed (r : ReplaceResult) : bool :=
  match r with committed => true | _ => false end.
(** The common end of a replacement that was committed. *)
Definition commit (next : WorkspaceSettings) (r : ReplaceResult) (s : store) : store :=
  let s := set_current next (is_committed r) s in
  if is_committed r then s else emitDurabilityEvent s.

(** ** The methods *)

Definition initialize (s : store) : store := enqueue Initialize s.
Definition snapshot (s : store) : option WorkspaceSettings := current s.
Definition replace (candidate : json) (s : store) : store :=
  match current s with
  | None => reject_call s
  | Some _ =>
      match parse candidate with
      | None => reject_call s
      | Some next => enqueue (ReplaceWith next) s
      end
  end.
Definition durabilityReady (s : store) : option bool :=
  match current s with None => None | Some _ => Some (ready s) end.
Definition retryDurability (s : store) : store :=
  match current s with None => reject_call s | Some _ => enqueue RetryDurability s end.
(** [None]: it throws. *)
Definition subscribe (s : store) : option store :=
  if (MAX_LISTENERS <=? length (listeners s))%nat then None
  else Some (Store (world s) (current s) (ready s) (initializeAttempted s)
    (listeners s ++ [registrations s]) (S (registrations s)) (jobs s) (active s) (calls s)
    (settled s) (observed s)).
Definition unsubscribe (l : nat) (s : store) : store :=
  Store (world s) (current s) (ready s) (initializeAttempted s) (js_remove l (listeners s))
    (registrations s) (jobs s) (active s) (calls s) (settled s) (observed s).

(** ** The operations *)

(** The next operation starts and runs to its first await. *)
Definition start_job (s : store) : option store :=
  match active s, jobs s with
  | None, (i, j) :: rest =>
      let s := set_jobs rest s in
      Some
        (match j with
         | Initialize =>
             if initializeAttempted s then settle i Failed s
             else set_active (Some (i, AwaitRead)) (attempt_initialize s)
         | ReplaceWith next =>
             match current s with
             | None => settle i Failed s
             | Some _ => set_active (Some (i, AwaitReplace next)) s
             end
         | RetryDurability =>
             match current s with
             | None => settle i Failed s
             | Some _ =>
                 if ready s then settle i (Retried true) s
                 else set_active (Some (i, AwaitSync)) s
             end
         end)
  | _, _ => None
  end.

(** [initialize] after the read. *)
Definition initialize_read (i : nat) (r : res unit (option json)) (s : store) : store :=
  match r with
  | Throw _ => settle i Failed s
  | Ok (Some persisted) =>
      match parse persisted with
      | None => settle i Failed s
      | Some parsed =>
          if isLegacyWorkspaceSettingsMissingCustomTerminalPalette persisted
          then set_active (Some (i, AwaitInitial parsed)) s
          else settle i Initialized (set_current parsed true s)
      end
  | Ok None =>
      match parse (defaults o) with
      | None => settle i Failed s
      | Some initial => set_active (Some (i, AwaitInitial initial)) s
      end
  end.

(** The call that the active operation awaits settles. *)
Definition complete (s : store) : option store :=
  match active s with
  | None => None
  | Some (i, AwaitRead) =>
      let '(r, w) := file_read settingsPath (world s) in
      Some (initialize_read i r (set_world w s))
  | Some (i, AwaitInitial parsed) =>
      let '(r, w) := file_replace settingsPath (settings_json parsed) (world s) in
      let s := set_world w s in
      Some match r with
           | Throw _ | Ok not_committed => settle i Failed s
           | Ok r => settle i Initialized (commit parsed r s)
           end
  | Some (i, AwaitReplace next) =>
      let '(r, w) := file_replace settingsPath (settings_json next) (world s) in
      let s := set_world w s in
      Some match r with
           | Throw _ => settle i Failed s
           | Ok not_committed => settle i (Replaced not_committed) s
           | Ok r => settle i (Replaced r) (notify next (commit next r s))
           end
  | Some (i, AwaitSync) =>
      let '(r, w) := file_sync settingsPath (world s) in
      let synced := match r with Ok b => b | Throw _ => false end in
      let s := set_world w s in
      Some (settle i (Retried synced) (if synced then set_ready true s else s))
  end.

Inductive store_event :=
| CallInitialize
| CallReplace (candidate : json)
| CallRetry
| Subscribe
| Unsubscribe (l : nat)
| Start
| Complete.
Definition store_step (e : store_event) (s : store) : option store :=
  match e with
  | CallInitialize => Some (initialize s)
  | CallReplace candidate => Some (replace candidate s)
  | CallRetry => Some (retryDurability s)
  | Subscribe => subscribe s
  | Unsubscribe l => Some (unsubscribe l s)
  | Start => start_job s
  | Complete => complete s
  end.
Definition store_steps (s s' : store) : Prop := rtc (λ s1 s2, ∃ e, store_step e s1 = Some s2) s s'.
End store.
Arguments store W : clear implicits.

(** * [StoredSessionRuntimeSettingsProvider] *)

Record SessionRuntimeSettings := { shell : jsstr; historyLimit : Z }.

(** [None] of the snapshot is a throw of the store. *)
Definition runtime_current `{Platform} (snapshot : option WorkspaceSettings) (constraints : json)
    (verifiedShells : list jsstr) : option SessionRuntimeSettings :=
  stored ← snapshot;
  settings ← parseWorkspaceSettings (settings_json stored) (Some constraints);
  if bool_decide (defaultShell settings ∈ verifiedShells)
  then Some {| shell := defaultShell settings; historyLimit := tmuxHistoryLimit settings |}
  else None.
