(* ===== verification/SettingsStoreFacts.v ===== *)
(** What the settings store promises over any [JsonRegister]: the settings in
    memory are always the ones in the file, replacements are all or nothing,
    and every call settles. *)
From S2P Require Import Prelude JsMap SafeString Json JsonText Protocol SecureFile SecureFileFacts JsonRegister.
From S2P Require Import Double Settings SettingsFacts SettingsStore.
Open Scope Z_scope.

Lemma flat_number d n : flat (S d) (num_json n).
Proof. unfold num_json. case_match; cbn; lia. Qed.
Lemma flat_strings d ks vs : foldr (λ (p : jsstr * json) P, flat (S d) p.2 ∧ P) True (zip ks (JStr <$> vs)).
Proof.
  revert ks. induction vs as [|v vs IH]; intros [|k ks]; try done. split; [cbn; lia|apply IH].
Qed.
Lemma settings_flat d s : flat (S (S (S d))) (settings_json s).
Proof.
  change (foldr (λ (p : jsstr * json) P, flat (S (S d)) p.2 ∧ P) True
    (legacy_fields s ++ [(palette_key, palette_json (customTerminalPalette s))])).
  unfold legacy_fields, legacy_keys. cbn [zip_with fmap list_fmap app foldr snd].
  repeat match goal with
  | |- _ ∧ _ => split
  | |- flat _ (num_json _) => apply flat_number
  | |- flat _ (palette_json _) => apply flat_strings
  | |- True => exact I
  | |- flat (S ?n) _ => exact (Nat.lt_0_succ n)
  end.
Qed.

Section facts.
Context `{Platform, !NormalForm} {W : Type} `{JsonRegister W, !JsonRegisterLaws W writable}.
Variable o : SettingsStoreOptions.
Implicit Types s : store W.

Definition path : jsstr := settingsPath o.
Definition file s : option json := file_value (world s) path.

(** Settings that the store admits. *)
Definition admitted (x : WorkspaceSettings) : Prop :=
  settings_ok x ∧ canonical x ∧ within x (Some (constraints o)) = true ∧ json_ok (settings_json x).

Lemma parse_admitted v x : json_ok v → parse o v = Some x → admitted x.
Proof.
  intros Hv Hp. unfold parse in Hp. pose proof (parse_ok v _ x Hp) as (? & ? & ?).
  split_and!; [done..|]. unfold parseWorkspaceSettings in Hp. apply bind_Some in Hp as (y & Hy & Hw).
  cbn zeta in Hw. case_match; [|done]. injection Hw as <-.
  apply workspaceSettingsSchema_ok in Hy as [_ Hu]. destruct Hu; [by apply normalized_json_ok|].
  apply settings_json_ok; [done|..]; unfold normalizeCursorAccent; by case_match.
Qed.
Lemma admitted_parse x : admitted x → parse o (settings_json x) = Some x.
Proof. intros (? & ? & ? & _). by apply parse_json. Qed.
Lemma admitted_writable x : admitted x → writable (settings_json x).
Proof.
  intros (_ & _ & _ & Hj). split; [done|].
  replace Preflight.depth_budget with (S (S (S 254))) by (vm_compute; reflexivity). apply settings_flat.
Qed.

(** The file holds these settings, in a current document. *)
Definition holds (v : option json) (x : WorkspaceSettings) : Prop := ∃ j, v = Some j ∧
  parse o j = Some x ∧ isLegacyWorkspaceSettingsMissingCustomTerminalPalette j = false.
Lemma holds_written x : admitted x → holds (Some (settings_json x)) x.
Proof.
  intros Hx. exists (settings_json x). split_and!; [done|by apply admitted_parse|].
  apply settings_json_not_legacy.
Qed.

Definition job_ok (j : job) : Prop := match j with ReplaceWith x => admitted x | _ => True end.
Definition waiting_ok s (a : waiting) : Prop :=
  match a with
  | AwaitRead => current s = None ∧ initializeAttempted s = true
  | AwaitInitial x => current s = None ∧ initializeAttempted s = true ∧ admitted x
  | AwaitReplace x => current s ≠ None ∧ admitted x
  | AwaitSync => current s ≠ None
  end.
Definition ids s : list nat :=
  (settled s).*1 ++ match active s with Some a => [a.1] | None => [] end ++ (jobs s).*1.

Record store_ok (v0 : option json) s : Prop := {
  st_current : match current s with
    | Some x => admitted x ∧ holds (file s) x ∧ initializeAttempted s = true
    | None => file s = v0
    end;
  st_file : ∀ j, file s = Some j → json_ok j;
  st_jobs : ∀ i j, (i, j) ∈ jobs s → job_ok j;
  st_active : ∀ i a, active s = Some (i, a) → waiting_ok s a;
  st_ids : ids s ≡ₚ seq 0 (calls s);
}.

Definition event_ok (e : store_event) : Prop :=
  match e with CallReplace c => json_ok c | _ => True end.

Lemma ids_new l n : l ≡ₚ seq 0 n → l ++ [n] ≡ₚ seq 0 (S n).
Proof. intros Hl. rewrite seq_S. by rewrite Hl. Qed.

Lemma enqueue_ok v0 j s : store_ok v0 s → job_ok j → store_ok v0 (enqueue j s).
Proof.
  intros [] Hj. split; try done.
  - intros i j'. cbn. intros [?|Hin]%elem_of_app; [by eapply st_jobs0|].
    apply list_elem_of_singleton in Hin. by simplify_eq.
  - unfold ids. cbn. rewrite fmap_app. cbn. rewrite !(assoc_L (++)). apply ids_new.
    rewrite <-!(assoc_L (++)). done.
Qed.
Lemma reject_ok v0 s : store_ok v0 s → store_ok v0 (reject_call s).
Proof.
  intros []. split; try done. unfold ids. cbn. rewrite fmap_app. cbn.
  etrans; [|by apply ids_new]. unfold ids. rewrite <-!(assoc_L (++)). f_equiv.
  by rewrite (comm (++) [_]), <-(assoc_L (++)).
Qed.

(** The active operation moves on, or ends. *)
Lemma ids_settle i r s a : active s = Some (i, a) → ids (settle i r s) ≡ₚ ids s.
Proof. intros Ha. unfold ids. rewrite Ha. cbn. rewrite fmap_app, <-(assoc_L (++)). done. Qed.
Lemma ids_start i j rest s : active s = None → jobs s = (i, j) :: rest →
  (∀ r, ids (settle i r (set_jobs rest s)) ≡ₚ ids s) ∧
  (∀ a, ids (set_active (Some (i, a)) (set_jobs rest s)) ≡ₚ ids s).
Proof.
  intros Ha Hj. unfold ids. rewrite Ha, Hj. cbn. split; [|done]. intros r.
  by rewrite fmap_app, <-(assoc_L (++)).
Qed.

Lemma store_start_ok v0 s s' : store_ok v0 s → start_job s = Some s' → store_ok v0 s' ∧
  current s' = current s ∧ ready s' = ready s ∧ observed s' = observed s ∧ world s' = world s ∧
  calls s' = calls s.
Proof.
  intros [] Hs. unfold start_job in Hs. destruct (active s) as [|] eqn:Ha; [done|].
  destruct (jobs s) as [|[i j] rest] eqn:Hj; [done|]. injection Hs as <-.
  destruct (ids_start i j rest s Ha Hj) as [Hset Hact].
  assert (∀ i' j', (i', j') ∈ rest → job_ok j') as Hrest.
  { intros i' j' Hin. apply (st_jobs0 i'). apply elem_of_cons. by right. }
  assert (∀ r, store_ok v0 (settle i r (set_jobs rest s))) as Hsettle.
  { intros r. split; try done. by etrans; [apply Hset|]. }
  assert (∀ a, waiting_ok s a → store_ok v0 (set_active (Some (i, a)) (set_jobs rest s))) as Hwait.
  { intros a Hw. split; try done; [|by etrans; [apply Hact|]]. cbn. by intros ? ? [= <- <-]. }
  destruct j as [|next|].
  - cbn [initializeAttempted set_jobs]. destruct (initializeAttempted s) eqn:Hat; [by split|].
    assert (current s = None) as Hnone.
    { destruct (current s); [|done]. destruct st_current0 as (_ & _ & ?). congruence. }
    split; [|done]. split; try done.
    + cbn. rewrite Hnone in st_current0 |- *. done.
    + cbn. by intros ? ? [= <- <-].
    + by etrans; [apply (Hact AwaitRead)|].
  - cbn [current set_jobs]. destruct (current s) as [x|] eqn:Hc; [|by split].
    split; [|done]. apply Hwait. cbn. rewrite Hc. split; [done|].
    apply (st_jobs0 i (ReplaceWith next)). by left.
  - cbn [current set_jobs ready]. destruct (current s) as [x|] eqn:Hc; [|by split].
    destruct (ready s) eqn:Hr; [by split|]. split; [|done]. apply Hwait. cbn. by rewrite Hc.
Qed.

(** A state in which the active operation settled, with new contents. *)
Lemma settled_ok v0 s s1 i a r : store_ok v0 s → active s = Some (i, a) →
  jobs s1 = jobs s → SettingsStore.settled s1 = SettingsStore.settled s → active s1 = active s →
  calls s1 = calls s →
  (match current s1 with
   | Some x => admitted x ∧ holds (file s1) x ∧ initializeAttempted s1 = true
   | None => file s1 = v0
   end) → (∀ j, file s1 = Some j → json_ok j) → store_ok v0 (settle i r s1).
Proof.
  intros [] Ha Hj Hs Hac Hc Hcur Hf. split; try done.
  - cbn. by rewrite Hj.
  - etrans; [by apply (ids_settle i r s1 a); rewrite Hac|]. unfold ids. rewrite Hs, Hac, Hj.
    cbn [calls settle]. rewrite Hc. done.
Qed.

(** What the settled call of the file did. *)
Lemma replaced_file x s : admitted x →
  let '(r, w) := file_replace path (settings_json x) (world s) in
  match r with
  | Ok committed | Ok committed_durability_uncertain => file_value w path = Some (settings_json x)
  | _ => file_value w path = file s
  end.
Proof.
  intros Hx. pose proof (file_replace_law path (settings_json x) (world s) (admitted_writable x Hx)) as Hr.
  destruct (file_replace _ _ _) as [[[]|] w]; naive_solver.
Qed.
Lemma commit_fields x r s : let s' := commit o x r s in
  world s' = world s ∧ current s' = Some x ∧ ready s' = is_committed r ∧
  initializeAttempted s' = initializeAttempted s ∧ listeners s' = listeners s ∧ jobs s' = jobs s ∧
  active s' = active s ∧ calls s' = calls s ∧ SettingsStore.settled s' = SettingsStore.settled s ∧
  observed s' = observed s ++
    (if negb (is_committed r) && has_durability_listener o then [DurabilityDegraded] else []).
Proof.
  cbn. unfold commit, emitDurabilityEvent. destruct (is_committed r), (has_durability_listener o);
    cbn; by rewrite ?app_nil_r.
Qed.

Lemma initial_ok v0 s i x : store_ok v0 s → active s = Some (i, AwaitInitial x) →
  ∃ s', complete o s = Some s' ∧ store_ok v0 s' ∧ observed s' = observed s ++
    (if bool_decide (current s' = None) then []
     else if negb (ready s') && has_durability_listener o then [DurabilityDegraded] else []).
Proof.
  intros Hok Ha. destruct (st_active _ _ Hok i _ Ha) as (Hnone & Hat & Hx).
  pose proof (st_current _ _ Hok) as Hcur. rewrite Hnone in Hcur.
  unfold complete. rewrite Ha. pose proof (replaced_file x s Hx) as Hr.
  change (file_replace (settingsPath o)) with (file_replace path).
  destruct (file_replace path (settings_json x) (world s)) as [r w] eqn:Hw.
  set (s1 := set_world w s).
  assert (∀ r', file_value w path = file s → store_ok v0 (settle i r' s1)) as Hfail.
  { intros r' Hf. eapply settled_ok; [exact Hok|done..| |].
    - change (current s1) with (current s). rewrite Hnone.
      change (file s1) with (file_value w path). by rewrite Hf.
    - change (file s1) with (file_value w path). rewrite Hf. apply Hok. }
  assert (∀ c, file_value w path = Some (settings_json x) →
    store_ok v0 (settle i Initialized (commit o x c s1))) as Hdone.
  { intros c Hf. destruct (commit_fields x c s1) as (E1 & E2 & E3 & E4 & E5 & E6 & E7 & E8 & E9 & E10).
    assert (file (commit o x c s1) = Some (settings_json x)) as Hfile
      by (unfold file; rewrite E1; exact Hf).
    eapply settled_ok; [exact Hok|exact Ha|done..| |].
    - rewrite E2, Hfile, E4. split_and!; [done|by apply holds_written|done].
    - rewrite Hfile. intros j [= <-]. apply Hx. }
  assert (bool_decide (current s1 = None) = true) as Hn by by apply bool_decide_eq_true.
  destruct r as [[]|]; eexists; (split; [done|]); split; try by apply Hfail; try by apply Hdone.
  all: try (cbn [current settle observed]; rewrite Hn; by rewrite app_nil_r).
  all: try by apply Hdone.
  all: cbn [current settle observed ready].
  - destruct (commit_fields x committed s1) as (_ & E2 & E3 & _ & _ & _ & _ & _ & _ & E10).
    by rewrite E10, E2, E3, bool_decide_eq_false_2.
  - destruct (commit_fields x committed_durability_uncertain s1)
      as (_ & E2 & E3 & _ & _ & _ & _ & _ & _ & E10).
    by rewrite E10, E2, E3, bool_decide_eq_false_2.
Qed.

(** A replacement is all or nothing, and observed exactly when it happened. *)
Definition replaced (next : WorkspaceSettings) (i : nat) s s' : Prop := ∃ r,
  SettingsStore.settled s' = SettingsStore.settled s ++ [(i, r)] ∧
  match r with
  | Replaced ((committed | committed_durability_uncertain) as c) =>
      current s' = Some next ∧ ready s' = is_committed c ∧
      file s' = Some (settings_json next) ∧
      observed s' = observed s ++
        (if negb (ready s') && has_durability_listener o then [DurabilityDegraded] else []) ++
        ((λ l, Notified l next) <$> listeners s)
  | Replaced not_committed | Failed =>
      current s' = current s ∧ ready s' = ready s ∧ file s' = file s ∧ observed s' = observed s
  | _ => False
  end.
Lemma store_replace_ok v0 s i x : store_ok v0 s → active s = Some (i, AwaitReplace x) →
  ∃ s', complete o s = Some s' ∧ store_ok v0 s' ∧ replaced x i s s'.
Proof.
  intros Hok Ha. destruct (st_active _ _ Hok i _ Ha) as (Hsome & Hx).
  pose proof (st_current _ _ Hok) as Hcur.
  unfold complete. rewrite Ha. pose proof (replaced_file x s Hx) as Hr.
  change (file_replace (settingsPath o)) with (file_replace path).
  destruct (file_replace path (settings_json x) (world s)) as [r w] eqn:Hw.
  set (s1 := set_world w s).
  assert (∀ r', file_value w path = file s → store_ok v0 (settle i r' s1)) as Hfail.
  { intros r' Hf. eapply settled_ok; [exact Hok|exact Ha|done..| |].
    - change (current s1) with (current s). change (file s1) with (file_value w path). by rewrite Hf.
    - change (file s1) with (file_value w path). rewrite Hf. apply Hok. }
  assert (∀ c, c ≠ not_committed → file_value w path = Some (settings_json x) →
    let s' := settle i (Replaced c) (notify x (commit o x c s1)) in
    store_ok v0 s' ∧ replaced x i s s') as Hdone.
  { intros c Hc Hf. destruct (commit_fields x c s1) as (E1 & E2 & E3 & E4 & E5 & E6 & E7 & E8 & E9 & E10).
    set (s2 := notify x (commit o x c s1)).
    assert (file s2 = Some (settings_json x)) as Hfile
      by (unfold file; change (world s2) with (world (commit o x c s1)); rewrite E1; exact Hf).
    split.
    - eapply settled_ok; [exact Hok|exact Ha|done..| |].
      + change (current s2) with (current (commit o x c s1)). rewrite E2, Hfile.
        change (initializeAttempted s2) with (initializeAttempted (commit o x c s1)). rewrite E4.
        split_and!; [done|by apply holds_written|]. change (initializeAttempted s1) with (initializeAttempted s).
        by destruct (current s); [destruct Hcur as (_ & _ & ?)|].
      + rewrite Hfile. intros j [= <-]. apply Hx.
    - exists (Replaced c). split; [cbn; by rewrite E9|].
      assert (observed s2 = observed s ++
        (if negb (ready s2) && has_durability_listener o then [DurabilityDegraded] else []) ++
        ((λ l, Notified l x) <$> listeners s)) as Hobs.
      { change (observed s2) with (observed (commit o x c s1) ++
          ((λ l, Notified l x) <$> listeners (commit o x c s1))).
        change (ready s2) with (ready (commit o x c s1)).
        by rewrite E10, E5, E3, <-(assoc_L (++)). }
      by destruct c; split_and!. }
  destruct r as [[]|]; eexists; (split; [done|]); try by apply Hdone.
  - split; [by apply Hfail|]. by exists (Replaced not_committed).
  - split; [by apply Hfail|]. by exists Failed.
Qed.

(** The other completions. *)
Lemma read_ok v0 s i : store_ok v0 s → active s = Some (i, AwaitRead) → json_ok (defaults o) →
  ∃ s', complete o s = Some s' ∧ store_ok v0 s' ∧ observed s' = observed s ∧
    (∀ x, holds (file s) x → current s' = Some x ∧ ready s' = true ∧
       SettingsStore.settled s' = SettingsStore.settled s ++ [(i, Initialized)] ∨
       current s' = None ∧ SettingsStore.settled s' = SettingsStore.settled s ++ [(i, Failed)]).
Proof.
  intros Hok Ha Hdef. destruct (st_active _ _ Hok i _ Ha) as (Hnone & Hat).
  pose proof (st_current _ _ Hok) as Hcur. rewrite Hnone in Hcur.
  unfold complete. rewrite Ha. change (file_read (settingsPath o)) with (file_read path).
  pose proof (file_read_law path (world s)) as Hl. destruct (file_read path (world s)) as [r w].
  destruct Hl as [Hw Hr]. set (s1 := set_world w s).
  assert (file s1 = file s) as Hfile by apply Hw.
  assert (store_ok v0 (settle i Failed s1)) as Hfail.
  { eapply settled_ok; [exact Hok|exact Ha|done..| |].
    - change (current s1) with (current s). by rewrite Hnone, Hfile.
    - rewrite Hfile. apply Hok. }
  assert (∀ x, admitted x → store_ok v0 (set_active (Some (i, AwaitInitial x)) s1)) as Hwait.
  { intros x Hx. destruct Hok. split; try done.
    - change (current (set_active _ s1)) with (current s).
      change (file (set_active _ s1)) with (file s1). by rewrite Hnone, Hfile.
    - change (file (set_active _ s1)) with (file s1). by rewrite Hfile.
    - cbn. by intros ? ? [= <- <-].
    - unfold ids in *. cbn. rewrite Ha in st_ids0. done. }
  eexists. split; [done|]. unfold initialize_read. destruct r as [[j|]|].
  - assert (file s = Some j) as Hj by exact Hr.
    destruct (parse o j) as [x|] eqn:Hp; [destruct (isLegacyWorkspaceSettingsMissingCustomTerminalPalette j) eqn:Hleg|].
    + split; [apply Hwait; eapply (parse_admitted j); [by apply (st_file _ _ Hok)|done]|]. split; [done|].
      intros y (j' & Hj' & _ & Hno). congruence.
    + split.
      * eapply settled_ok; [exact Hok|exact Ha|done..| |].
        -- change (file (set_current x true s1)) with (file s1). cbn. rewrite Hfile.
           split_and!; [eapply (parse_admitted j); [by apply (st_file _ _ Hok)|done]|by exists j|done].
        -- change (file (set_current x true s1)) with (file s1). rewrite Hfile. apply Hok.
      * split; [done|]. intros y (j' & Hj' & Hy & _). left. split_and!; [|done..]. cbn. congruence.
    + split; [done|]. split; [done|]. intros y _. by right.
  - assert (file s = None) as Hj by exact Hr. destruct (parse o (defaults o)) as [x|] eqn:Hp.
    + split; [apply Hwait; by eapply parse_admitted|]. split; [done|].
      intros y (j' & Hj' & _). congruence.
    + split; [done|]. split; [done|]. intros y (j' & Hj' & _). congruence.
  - split; [done|]. split; [done|]. intros y _. by right.
Qed.
Lemma sync_ok v0 s i : store_ok v0 s → active s = Some (i, AwaitSync) →
  ∃ s' b, complete o s = Some s' ∧ store_ok v0 s' ∧ observed s' = observed s ∧ current s' = current s ∧
    file s' = file s ∧ ready s' = b || ready s ∧
    SettingsStore.settled s' = SettingsStore.settled s ++ [(i, Retried b)].
Proof.
  intros Hok Ha. pose proof (st_current _ _ Hok) as Hcur. unfold complete. rewrite Ha.
  change (file_sync (settingsPath o)) with (file_sync path).
  pose proof (file_sync_law path (world s)) as Hl. destruct (file_sync path (world s)) as [r w].
  set (b := match r with Ok b => b | Throw _ => false end). eexists _, b. split; [done|].
  set (s1 := if b then _ else _).
  assert (file s1 = file s ∧ current s1 = current s ∧ jobs s1 = jobs s ∧ active s1 = active s ∧
    calls s1 = calls s ∧ SettingsStore.settled s1 = SettingsStore.settled s ∧
    initializeAttempted s1 = initializeAttempted s ∧ observed s1 = observed s ∧
    ready s1 = b || ready s) as (E1 & E2 & E3 & E4 & E5 & E6 & E7 & E8 & E9).
  { subst s1. destruct b; split_and!; try done; apply Hl. }
  split; [|split_and!; try done; cbn; by rewrite E6].
  eapply settled_ok; [exact Hok|exact Ha|done..| |].
  - by rewrite E2, E1, E7.
  - rewrite E1. apply Hok.
Qed.

Lemma store_step_ok v0 e s s' : json_ok (defaults o) → event_ok e → store_ok v0 s →
  store_step o e s = Some s' → store_ok v0 s'.
Proof.
  intros Hdef He Hok. destruct e; cbn [store_step].
  - intros [= <-]. by apply enqueue_ok.
  - intros [= <-]. unfold replace. destruct (current s); [|by apply reject_ok].
    destruct (parse o candidate) as [x|] eqn:Hp; [|by apply reject_ok].
    apply enqueue_ok; [done|]. by eapply parse_admitted.
  - intros [= <-]. unfold retryDurability. destruct (current s); [by apply enqueue_ok|by apply reject_ok].
  - unfold subscribe. case_match; [done|]. intros [= <-]. destruct Hok. by split.
  - intros [= <-]. destruct Hok. by split.
  - intros Hs. by destruct (store_start_ok v0 s s' Hok Hs).
  - intros Hs. destruct (active s) as [[i []]|] eqn:Ha; [| | | |by unfold complete in Hs; rewrite Ha in Hs].
    + destruct (read_ok _ _ _ Hok Ha Hdef) as (s1 & Hs1 & ? & _). congruence.
    + destruct (initial_ok _ _ _ _ Hok Ha) as (s1 & Hs1 & ? & _). congruence.
    + destruct (store_replace_ok _ _ _ _ Hok Ha) as (s1 & Hs1 & ? & _). congruence.
    + destruct (sync_ok _ _ _ Hok Ha) as (s1 & b & Hs1 & ? & _). congruence.
Qed.

(** * Progress *)

Definition waiting_weight (a : waiting) : nat := match a with AwaitRead => 2 | _ => 1 end.
Definition pending s : nat :=
  (3 * length (jobs s) + match active s with Some (_, a) => waiting_weight a | None => 0 end)%nat.

Lemma start_pending s s' : start_job s = Some s' → (pending s' < pending s)%nat.
Proof.
  unfold start_job, pending. destruct (active s); [done|]. destruct (jobs s) as [|[i j] rest]; [done|].
  intros [= <-]. destruct j; repeat case_match; simplify_eq/=; lia.
Qed.
Lemma complete_pending s s' : complete o s = Some s' → (pending s' < pending s)%nat.
Proof.
  unfold complete, pending. destruct (active s) as [[i []]|] eqn:Ha; [| | | |done].
  - destruct (file_read _ _) as [r w]. intros [= <-]. unfold initialize_read.
    repeat case_match; simplify_eq/=; lia.
  - destruct (file_replace _ _ _) as [r w]. intros [= <-].
    destruct r as [[]|]; cbn [jobs active settle set_world waiting_weight];
      try match goal with |- context [commit o ?x ?c ?t] => destruct (commit_fields x c t)
        as (_ & _ & _ & _ & _ & E & _) end; rewrite ?E; cbn; lia.
  - destruct (file_replace _ _ _) as [r w]. intros [= <-].
    destruct r as [[]|]; cbn [jobs active settle set_world waiting_weight notify observe];
      try match goal with |- context [commit o ?x ?c ?t] => destruct (commit_fields x c t)
        as (_ & _ & _ & _ & _ & E & _) end; rewrite ?E; cbn; lia.
  - destruct (file_sync _ _) as [r w]. intros [= <-].
    destruct r as [[]|]; cbn; lia.
Qed.
Lemma pending_progress s : (0 < pending s)%nat →
  ∃ e s', (e = Start ∨ e = Complete) ∧ store_step o e s = Some s'.
Proof.
  unfold pending. destruct (active s) as [[i a]|] eqn:Ha; intros Hp.
  - exists Complete. destruct (complete o s) as [s'|] eqn:Hc; [by exists s'; auto|].
    unfold complete in Hc. rewrite Ha in Hc. destruct a; repeat case_match; done.
  - exists Start. destruct (jobs s) as [|[i j] rest] eqn:Hj; [cbn in Hp; lia|].
    cbn [store_step]. unfold start_job. rewrite Ha, Hj. eexists. split; [by left|done].
Qed.
End facts.

(** The runs of a store whose callers pass JSON values. *)
Definition store_run `{Platform} {W} `{JsonRegister W} (o : SettingsStoreOptions) : store W → store W → Prop :=
  rtc (λ s1 s2, ∃ e, event_ok e ∧ store_step o e s1 = Some s2).
Lemma store_run_ok `{NormalForm} {W} `{JsonRegisterLaws W writable} o v0 s s' : json_ok (defaults o) →
  store_run o s s' → store_ok o v0 s → store_ok o v0 s'.
Proof.
  intros Hd. induction 1 as [|s1 s2 s3 [e [He Hs]] _ IH]; [done|]. intros Hok.
  apply IH. by eapply store_step_ok.
Qed.


(** ** A concrete store on the failing file system *)

Definition store_play `{Platform} {W} `{JsonRegister W} (o : SettingsStoreOptions) (es : list store_event)
    (s : store W) : option (store W) := foldl (λ s e, s ≫= store_step o e) (Some s) es.
Lemma store_play_run `{Platform} {W} `{JsonRegister W} o es : ∀ s s' : store W, Forall event_ok es →
  store_play o es s = Some s' → store_run o s s'.
Proof.
  unfold store_play. induction es as [|e es IH]; intros s s' He Hp.
  - injection Hp as <-. constructor.
  - apply Forall_cons in He as [He Hes]. cbn in Hp. destruct (store_step o e s) as [s1|] eqn:Hs.
    + eapply rtc_l; [by exists e|by apply IH].
    + exfalso. clear -Hp. induction es as [|e' es IH]; [done|by apply IH].
Qed.

Definition sample_store_options : SettingsStoreOptions :=
  {| dataDir := js "/data"; defaults := settings_json sample_settings; constraints := sample_constraints;
     has_durability_listener := true |}.
Definition sample_events : list store_event :=
  [CallInitialize; Subscribe; Start; Complete; Complete; CallReplace (settings_json sample_settings); Start].
Definition sample_start : store (file_world (sample_env (λ _, None))) :=
  Store sample_world None false false [] 0 [] None 0 [] [].
Definition sample_run : option (store (file_world (sample_env (λ _, None)))) :=
  @store_play ascii_platform _ sample_files sample_store_options sample_events sample_start.
Lemma sample_run_ok : ∃ s, sample_run = Some s ∧ current s = Some sample_settings ∧
  active s = Some (1%nat, AwaitReplace sample_settings).
Proof.
  destruct sample_run as [s|] eqn:Hs.
  - exists s. split; [done|].
    assert (match sample_run with
      | Some s => current s = Some sample_settings ∧ active s = Some (1%nat, AwaitReplace sample_settings)
      | None => False end) as Hr by (vm_compute; split; reflexivity).
    by rewrite Hs in Hr.
  - exfalso. assert (match sample_run with Some _ => True | None => False end) as Hr
      by (vm_compute; exact I). by rewrite Hs in Hr.
Qed.

