(* ===== verification/Generations.v ===== *)
(** Cleanup generations: the bounded tables of [ActivityTracker] and
    [WebSocketAuthIndex] that give each tab a number which grows whenever the
    tab changes.

    Both tables hold at most 64 tabs and fall back to an eviction generation
    for the others.  [GenerationTable] is what the cleanup code relies on: an
    equal number before and after means that the tab has not changed. *)
From S2P Require Import Prelude JsMap.
Open Scope Z_scope.

Definition MAX_CLEANUP_GENERATIONS : Z := 64.

Class GenerationTable (T : Type) := {
  gt_visible : T → jsstr → Z;
  gt_advance : jsstr → T → T;
  gt_tracked : T → Z;
  gt_ok : T → Prop;
  gt_advance_ok : ∀ t id, gt_ok t → gt_ok (gt_advance id t);
  gt_advanced : ∀ t id, gt_ok t → gt_visible t id < gt_visible (gt_advance id t) id;
  gt_monotone : ∀ t id id', gt_ok t → gt_visible t id ≤ gt_visible (gt_advance id' t) id;
  gt_bounded : ∀ t, gt_ok t → gt_tracked t ≤ MAX_CLEANUP_GENERATIONS;
  gt_nonneg : ∀ t id, gt_ok t → 0 ≤ gt_visible t id;
}.

Section table.
Context `{GenerationTable T}.
Implicit Types (t : T) (id : jsstr) (ids : list jsstr).

Definition gt_advance_all ids t : T := foldl (λ t id, gt_advance id t) t ids.

Lemma gt_advance_all_ok ids t : gt_ok t → gt_ok (gt_advance_all ids t).
Proof.
  revert t. induction ids as [|id ids IH]; intros t Ht; [done|].
  apply IH. by apply gt_advance_ok.
Qed.

Lemma gt_advance_all_monotone ids t id :
  gt_ok t → gt_visible t id ≤ gt_visible (gt_advance_all ids t) id.
Proof.
  revert t. induction ids as [|id' ids IH]; intros t Ht; [done|]. simpl.
  pose proof (gt_monotone t id id' Ht).
  pose proof (IH (gt_advance id' t) (gt_advance_ok t id' Ht)).
  unfold gt_advance_all in *. simpl. lia.
Qed.

Lemma gt_advance_all_advanced ids t id :
  gt_ok t → id ∈ ids → gt_visible t id < gt_visible (gt_advance_all ids t) id.
Proof.
  revert t. induction ids as [|id' ids IH]; intros t Ht Hin; [by apply not_elem_of_nil in Hin|].
  apply elem_of_cons in Hin as [<-|Hin].
  - pose proof (gt_advanced t id Ht).
    pose proof (gt_advance_all_monotone ids (gt_advance id t) id (gt_advance_ok t id Ht)).
    unfold gt_advance_all in *. simpl. lia.
  - pose proof (gt_monotone t id id' Ht).
    pose proof (IH (gt_advance id' t) (gt_advance_ok t id' Ht) Hin).
    unfold gt_advance_all in *. simpl. lia.
Qed.
End table.

(** * [ActivityTracker]'s table: numbers come from one clock *)

Record clock_table := ClockTable {
  cleanupClock : Z;
  clock_eviction : Z;
  clock_generations : list (jsstr * Z);
}.

Definition empty_clock_table : clock_table := ClockTable 0 0 [].

(** [ActivityTracker.advanceCleanupGeneration] *)
Definition clock_advance (id : jsstr) (t : clock_table) : clock_table :=
  let clock := cleanupClock t + 1 in
  let gens := jm_set id clock (jm_delete id (clock_generations t)) in
  if Z.of_nat (length gens) <=? MAX_CLEANUP_GENERATIONS
  then ClockTable clock (clock_eviction t) gens
  else match gens with
       | [] => ClockTable clock clock gens
       | (oldest, _) :: _ => ClockTable clock clock (jm_delete oldest gens)
       end.

Definition clock_visible (t : clock_table) (id : jsstr) : Z :=
  default (clock_eviction t) (jm_get id (clock_generations t)).

Definition clock_ok (t : clock_table) : Prop :=
  jm_wf (clock_generations t) ∧ 0 <= clock_eviction t <= cleanupClock t ∧
  Z.of_nat (length (clock_generations t)) <= MAX_CLEANUP_GENERATIONS ∧
  ∀ id g, jm_get id (clock_generations t) = Some g → 0 <= g <= cleanupClock t.

(** * [WebSocketAuthIndex]'s table: numbers count from the tab's own *)

Record count_table := CountTable {
  count_eviction : Z;
  count_generations : list (jsstr * Z);
}.

Definition empty_count_table : count_table := CountTable 0 [].

Definition count_visible (t : count_table) (id : jsstr) : Z :=
  default (count_eviction t) (jm_get id (count_generations t)).

(** [WebSocketAuthIndex.#advanceCleanupGeneration] *)
Definition count_advance (id : jsstr) (t : count_table) : count_table :=
  let generation := count_visible t id + 1 in
  let gens := jm_set id generation (jm_delete id (count_generations t)) in
  if Z.of_nat (length gens) <=? MAX_CLEANUP_GENERATIONS
  then CountTable (count_eviction t) gens
  else match gens with
       | [] => CountTable (count_eviction t) gens
       | (oldest, g) :: _ =>
           CountTable (Z.max (count_eviction t + 1) g) (jm_delete oldest gens)
       end.

Definition count_ok (t : count_table) : Prop :=
  jm_wf (count_generations t) ∧ 0 <= count_eviction t ∧
  Z.of_nat (length (count_generations t)) <= MAX_CLEANUP_GENERATIONS ∧
  ∀ id g, jm_get id (count_generations t) = Some g → 0 <= g.

(** * Re-inserting a key at the end of a bounded table *)

Section reinsert.
Implicit Types (m : list (jsstr * Z)) (id : jsstr) (g : Z).

Lemma reinsert_app id g m : jm_set id g (jm_delete id m) = jm_delete id m ++ [(id, g)].
Proof. apply jm_set_absent. apply jm_get_delete_eq. Qed.

Lemma reinsert_get id id' g m :
  jm_get id' (jm_set id g (jm_delete id m)) =
  if decide (id' = id) then Some g else jm_get id' m.
Proof.
  rewrite jm_get_set. case_decide; [done|]. by rewrite jm_get_delete_ne.
Qed.

(** What the eviction of the oldest entry leaves. *)
Lemma reinsert_evict id g m :
  jm_wf m → (64 < Z.of_nat (length (jm_set id g (jm_delete id m)))) →
  Z.of_nat (length m) <= 64 →
  ∃ oldest g' rest,
    jm_set id g (jm_delete id m) = (oldest, g') :: rest ∧ oldest ≠ id ∧
    jm_get oldest m = Some g' ∧
    Z.of_nat (length (jm_delete oldest (jm_set id g (jm_delete id m)))) <= 64.
Proof.
  intros Hwf Hlong Hlen. pose proof (jm_delete_wf id m Hwf) as Hwfd.
  pose proof (jm_length_delete_le id m) as Hd.
  rewrite reinsert_app in *. rewrite length_app in Hlong. simpl in Hlong.
  destruct (jm_delete id m) as [|[k g'] rest] eqn:Hdel; [simpl in Hlong; lia|].
  exists k, g', (rest ++ [(id, g)]).
  assert (jm_get k (jm_delete id m) = Some g') as Hget.
  { rewrite Hdel. simpl. by rewrite decide_True. }
  assert (k ≠ id) as Hne.
  { intros ->. by rewrite jm_get_delete_eq in Hget. }
  split_and!; [done|done|by rewrite jm_get_delete_ne in Hget|].
  assert (jm_wf (((k, g') :: rest) ++ [(id, g)])) as Hwf2.
  { rewrite <-Hdel, <-reinsert_app. by apply jm_set_wf, jm_delete_wf. }
  pose proof (jm_length_delete k (((k, g') :: rest) ++ [(id, g)]) Hwf2) as Hl.
  simpl in *. rewrite length_app in *. simpl in *.
  rewrite decide_True in Hl by done. specialize (Hl ltac:(by eexists)). lia.
Qed.
End reinsert.

(** * The two instances *)

Ltac table_cases :=
  rewrite ?reinsert_get; repeat case_decide; simplify_eq; simpl; try lia.

(** The generations of the table after an advance, before any eviction. *)
Lemma clock_advance_cases id t :
  clock_ok t →
  (clock_advance id t = ClockTable (cleanupClock t + 1) (clock_eviction t)
     (jm_set id (cleanupClock t + 1) (jm_delete id (clock_generations t))) ∧
   Z.of_nat (length (clock_generations (clock_advance id t))) <= 64) ∨
  ∃ oldest g', oldest ≠ id ∧ jm_get oldest (clock_generations t) = Some g' ∧
    clock_advance id t = ClockTable (cleanupClock t + 1) (cleanupClock t + 1)
      (jm_delete oldest (jm_set id (cleanupClock t + 1)
         (jm_delete id (clock_generations t)))) ∧
    Z.of_nat (length (clock_generations (clock_advance id t))) <= 64.
Proof.
  intros (Hwf & _ & Hlen & _). unfold clock_advance.
  case (Z.leb_spec _ MAX_CLEANUP_GENERATIONS); intros Hl; [by left|].
  destruct (reinsert_evict id (cleanupClock t + 1) _ Hwf Hl Hlen)
    as (oldest & g' & rest & Heq & Hne & Hg & Hb).
  right. exists oldest, g'. rewrite Heq in *. by split_and!.
Qed.

Lemma count_advance_cases id t :
  count_ok t →
  (count_advance id t = CountTable (count_eviction t)
     (jm_set id (count_visible t id + 1) (jm_delete id (count_generations t))) ∧
   Z.of_nat (length (count_generations (count_advance id t))) <= 64) ∨
  ∃ oldest g', oldest ≠ id ∧ jm_get oldest (count_generations t) = Some g' ∧
    count_advance id t = CountTable (Z.max (count_eviction t + 1) g')
      (jm_delete oldest (jm_set id (count_visible t id + 1)
         (jm_delete id (count_generations t)))) ∧
    Z.of_nat (length (count_generations (count_advance id t))) <= 64.
Proof.
  intros (Hwf & _ & Hlen & _). unfold count_advance.
  case (Z.leb_spec _ MAX_CLEANUP_GENERATIONS); intros Hl; [by left|].
  destruct (reinsert_evict id (count_visible t id + 1) _ Hwf Hl Hlen)
    as (oldest & g' & rest & Heq & Hne & Hg & Hb).
  right. exists oldest, g'. rewrite Heq in *. by split_and!.
Qed.

Lemma reinsert_wf (id : jsstr) (g : Z) (m : list (jsstr * Z)) : jm_wf m → jm_wf (jm_set id g (jm_delete id m)).
Proof. intros. by apply jm_set_wf, jm_delete_wf. Qed.
#[export] Hint Resolve reinsert_wf : jsmap.

Section instances.
Implicit Types (id : jsstr).

Lemma clock_visible_bound t id : clock_ok t → 0 <= clock_visible t id <= cleanupClock t.
Proof.
  intros (_ & He & _ & Hg). unfold clock_visible.
  destruct (jm_get id _) eqn:Hget; simpl; [by eapply Hg|lia].
Qed.

Lemma count_visible_nonneg t id : count_ok t → 0 <= count_visible t id.
Proof.
  intros (_ & He & _ & Hg). unfold count_visible.
  destruct (jm_get id _) eqn:Hget; simpl; [by eapply Hg|lia].
Qed.

Lemma clock_advance_visible t id id' :
  clock_ok t →
  clock_visible (clock_advance id t) id' = cleanupClock t + 1 ∨
  (id' ≠ id ∧ clock_visible (clock_advance id t) id' = clock_visible t id').
Proof.
  intros Hok. destruct (clock_advance_cases id t Hok)
    as [[-> _]|(oldest & g' & Hne & Hg & -> & _)]; unfold clock_visible; simpl;
    rewrite ?jm_get_delete, ?reinsert_get; repeat case_decide; simplify_eq; simpl; auto.
  destruct (jm_get id' _); simpl; auto.
Qed.

Lemma clock_advance_ok t id : clock_ok t → clock_ok (clock_advance id t).
Proof.
  intros Hok. pose proof Hok as (Hwf & He & Hlen & Hg).
  destruct (clock_advance_cases id t Hok)
    as [[Heq Hl]|(oldest & g' & Hne & _ & Heq & Hl)]; rewrite Heq in *;
    (split_and!; simpl in *; [eauto with jsmap|lia|lia|done|]);
    intros id' g; rewrite ?jm_get_delete, ?reinsert_get;
    repeat case_decide; intros; simplify_eq; try lia;
    match goal with H : jm_get _ _ = Some _ |- _ => apply Hg in H end; lia.
Qed.

Lemma count_advance_ok t id : count_ok t → count_ok (count_advance id t).
Proof.
  intros Hok. pose proof Hok as (Hwf & He & Hlen & Hg).
  pose proof (count_visible_nonneg t id Hok).
  destruct (count_advance_cases id t Hok)
    as [[Heq Hl]|(oldest & g' & Hne & Ho & Heq & Hl)]; rewrite Heq in *;
    (split_and!; simpl in *; [eauto with jsmap|lia|done|]);
    intros id' g; rewrite ?jm_get_delete, ?reinsert_get;
    repeat case_decide; intros; simplify_eq; try lia; by eapply Hg.
Qed.

#[export] Program Instance clock_table_generations : GenerationTable clock_table := {|
  gt_visible := clock_visible;
  gt_advance := clock_advance;
  gt_tracked := λ t, Z.of_nat (length (clock_generations t));
  gt_ok := clock_ok;
|}.
Next Obligation. intros. by apply clock_advance_ok. Qed.
Next Obligation.
  intros t id Hok. pose proof (clock_visible_bound t id Hok).
  destruct (clock_advance_visible t id id Hok) as [->|[? _]]; [lia|done].
Qed.
Next Obligation.
  intros t id id' Hok. pose proof (clock_visible_bound t id Hok).
  destruct (clock_advance_visible t id' id Hok) as [->|[_ ->]]; lia.
Qed.
Next Obligation. by intros t (_ & _ & ? & _). Qed.
Next Obligation. intros t id Hok. by apply clock_visible_bound. Qed.

#[export] Program Instance count_table_generations : GenerationTable count_table := {|
  gt_visible := count_visible;
  gt_advance := count_advance;
  gt_tracked := λ t, Z.of_nat (length (count_generations t));
  gt_ok := count_ok;
|}.
Next Obligation. intros. by apply count_advance_ok. Qed.
Next Obligation.
  intros t id Hok. destruct (count_advance_cases id t Hok)
    as [[-> _]|(oldest & g' & Hne & _ & -> & _)]; unfold count_visible; simpl;
    rewrite ?jm_get_delete, ?reinsert_get; repeat case_decide; simplify_eq; simpl; lia.
Qed.
Next Obligation.
  intros t id id' Hok. destruct (count_advance_cases id' t Hok)
    as [[-> _]|(oldest & g' & Hne & Ho & -> & _)];
    unfold count_visible; simpl; rewrite ?jm_get_delete, ?reinsert_get;
    repeat case_decide; simplify_eq; rewrite ?Ho; simpl; try lia;
    destruct (jm_get id (count_generations t)); simpl; lia.
Qed.
Next Obligation. by intros t (_ & _ & ? & _). Qed.
Next Obligation. intros t id Hok. by apply count_visible_nonneg. Qed.

Lemma empty_clock_ok : clock_ok empty_clock_table.
Proof. split_and!; simpl; [by apply NoDup_nil|lia|lia|done|done]. Qed.
Lemma empty_count_ok : count_ok empty_count_table.
Proof. split_and!; simpl; [by apply NoDup_nil|lia|done|done]. Qed.
End instances.
