(* ===== verification/ActivityTracker.v ===== *)
(** [apps/server/src/activity-tracker.ts]: the class [ActivityTracker].

    The tracker is a state machine over the events of the event loop: a mark,
    the interval timer, the outcome of [store.flushActivity], the [finally]
    microtask after it, and the steps of [shutdown].  The calls of [mark] and
    of the store's promise may interleave in any order. *)
From S2P Require Import Prelude JsMap Generations.
Open Scope Z_scope.

(** The interval flush of [startFlush]: the ids handed to the store, and
    whether the store's promise has settled. *)
Record flush := Flush { flush_ids : list jsstr; flush_settled : bool }.

Inductive shutdown_phase :=
| Sh_none                       (** [shutdown] has not been called *)
| Sh_waiting                    (** [await this.inFlight] *)
| Sh_flushing (ids : list jsstr)  (** the last [flushActivity] *)
| Sh_done (ok : bool).          (** the shutdown promise is settled *)

Record tracker := Tracker {
  dirtyIds : list jsstr;
  flushingIds : list jsstr;
  timer : bool;
  inFlight : option flush;
  shutdownPromise : shutdown_phase;
  accepting : bool;
  table : clock_table;
}.

Definition new_tracker : tracker :=
  Tracker [] [] false None Sh_none true empty_clock_table.

Definition is_nil {A} (l : list A) : bool := match l with [] => true | _ => false end.
Definition is_none {A} (o : option A) : bool := match o with None => true | _ => false end.

(** [schedule]: arms the timer. *)
Definition schedule (s : tracker) : tracker :=
  if negb (accepting s) || timer s || negb (is_none (inFlight s)) || is_nil (dirtyIds s)
  then s
  else Tracker (dirtyIds s) (flushingIds s) true (inFlight s) (shutdownPromise s)
         (accepting s) (table s).

Definition mark (id : jsstr) (s : tracker) : tracker :=
  if negb (accepting s) then s
  else schedule (Tracker (js_add id (dirtyIds s)) (flushingIds s) (timer s) (inFlight s)
                   (shutdownPromise s) (accepting s) (clock_advance id (table s))).

(** [takeDirtySnapshot], then the ids are [flushingIds] and their generations
    advance; [k] records the flush that was begun. *)
Definition begin_flush (s : tracker) : tracker :=
  Tracker [] (js_add_all (dirtyIds s) (flushingIds s)) (timer s) (inFlight s)
    (shutdownPromise s) (accepting s) (gt_advance_all (dirtyIds s) (table s)).

Definition set_inFlight (f : option flush) (s : tracker) : tracker :=
  Tracker (dirtyIds s) (flushingIds s) (timer s) f (shutdownPromise s)
    (accepting s) (table s).
Definition set_timer (b : bool) (s : tracker) : tracker :=
  Tracker (dirtyIds s) (flushingIds s) b (inFlight s) (shutdownPromise s)
    (accepting s) (table s).
Definition set_shutdown (p : shutdown_phase) (s : tracker) : tracker :=
  Tracker (dirtyIds s) (flushingIds s) (timer s) (inFlight s) p (accepting s) (table s).
Definition stop_accepting (s : tracker) : tracker :=
  Tracker (dirtyIds s) (flushingIds s) (timer s) (inFlight s) (shutdownPromise s)
    false (table s).

Definition startFlush (s : tracker) : tracker :=
  if negb (is_none (inFlight s)) || is_nil (dirtyIds s) then s
  else set_inFlight (Some (Flush (dirtyIds s) false)) (begin_flush s).

(** The [catch] branches: the ids are dirty again. *)
Definition mark_dirty (ids : list jsstr) (s : tracker) : tracker :=
  Tracker (js_add_all ids (dirtyIds s)) (flushingIds s) (timer s) (inFlight s)
    (shutdownPromise s) (accepting s) (table s).

(** The [finally] branches up to the generations. *)
Definition end_flush (ids : list jsstr) (s : tracker) : tracker :=
  Tracker (dirtyIds s) (js_remove_all ids (flushingIds s)) (timer s) (inFlight s)
    (shutdownPromise s) (accepting s) (gt_advance_all ids (table s)).

Definition cancelTimer (s : tracker) : tracker := set_timer false s.

(** The rest of [finishShutdown] once no interval flush is in flight. *)
Definition shutdown_flush (s : tracker) : tracker :=
  if is_nil (dirtyIds s) then set_shutdown (Sh_done true) s
  else set_shutdown (Sh_flushing (dirtyIds s)) (begin_flush s).

Definition shutdown (s : tracker) : tracker :=
  match shutdownPromise s with
  | Sh_none =>
      let s := cancelTimer (stop_accepting s) in
      match inFlight s with
      | Some _ => set_shutdown Sh_waiting s
      | None => shutdown_flush s
      end
  | _ => s
  end.

Record cleanup_snapshot := CleanupSnapshot { generation : Z; pending : bool }.

Definition cleanupSnapshot (s : tracker) (id : jsstr) : cleanup_snapshot :=
  CleanupSnapshot (clock_visible (table s) id)
    (bool_decide (id ∈ dirtyIds s) || bool_decide (id ∈ flushingIds s)).

Definition cleanupTrackingCount (s : tracker) : Z :=
  Z.of_nat (length (clock_generations (table s))).

(** * Events *)

Inductive event :=
| Mark (id : jsstr)
| Timer_fires
| Store_settles (ok : bool)     (** the promise of the interval flush *)
| Flush_finally                 (** its [finally] callback *)
| Shutdown
| Shutdown_resumes              (** [await this.inFlight] returns *)
| Shutdown_settles (ok : bool). (** the promise of the last flush *)

(** What an event does, when it can occur. *)
Definition step (e : event) (s : tracker) : option tracker :=
  match e with
  | Mark id => Some (mark id s)
  | Timer_fires => if timer s then Some (startFlush (set_timer false s)) else None
  | Store_settles ok =>
      match inFlight s with
      | Some (Flush ids false) =>
          let s := set_inFlight (Some (Flush ids true)) s in
          Some (if ok then s else mark_dirty ids s)
      | _ => None
      end
  | Flush_finally =>
      match inFlight s with
      | Some (Flush ids true) =>
          Some (schedule (set_inFlight None (end_flush ids s)))
      | _ => None
      end
  | Shutdown => Some (shutdown s)
  | Shutdown_resumes =>
      match shutdownPromise s, inFlight s with
      | Sh_waiting, None => Some (shutdown_flush s)
      | _, _ => None
      end
  | Shutdown_settles ok =>
      match shutdownPromise s with
      | Sh_flushing ids =>
          let s := if ok then s else mark_dirty ids s in
          Some (set_shutdown (Sh_done ok) (end_flush ids s))
      | _ => None
      end
  end.

Fixpoint exec (es : list event) (s : tracker) : option tracker :=
  match es with
  | [] => Some s
  | e :: es => s' ← step e s; exec es s'
  end.

(** * The ledger

    Ghost bookkeeping of a run: when each tab was last marked, and when the
    last successful flush that contained it was handed to the store. *)

Record ledger := Ledger {
  time : nat;
  marked : gmap jsstr nat;
  called : nat;   (** when the flush under way was handed to the store *)
  saved : gmap jsstr nat;
}.
Definition new_ledger : ledger := Ledger 1 ∅ 0 ∅.

Definition save_all (ids : list jsstr) (t : nat) (m : gmap jsstr nat) : gmap jsstr nat :=
  foldl (λ m id, <[id := t]> m) m ids.

(** The ids that a store call holds and has not yet answered for. *)
Definition outstanding (s : tracker) : list jsstr :=
  match inFlight s, shutdownPromise s with
  | Some (Flush ids false), _ => ids
  | _, Sh_flushing ids => ids
  | _, _ => []
  end.

Definition account (e : event) (s : tracker) (l : ledger) : ledger :=
  let t := S (time l) in
  match e with
  | Mark id =>
      Ledger t (if accepting s then <[id := time l]> (marked l) else marked l)
        (called l) (saved l)
  | Store_settles true | Shutdown_settles true =>
      Ledger t (marked l) (called l) (save_all (outstanding s) (called l) (saved l))
  | Timer_fires | Shutdown | Shutdown_resumes =>
      Ledger t (marked l) (if is_nil (outstanding s) then time l else called l) (saved l)
  | _ => Ledger t (marked l) (called l) (saved l)
  end.

Fixpoint run (es : list event) (s : tracker) (l : ledger) : option (tracker * ledger) :=
  match es with
  | [] => Some (s, l)
  | e :: es => s' ← step e s; run es s' (account e s l)
  end.

(** [id] was marked and no later flush has saved it. *)
Definition unsaved (l : ledger) (id : jsstr) : Prop :=
  ∃ m, marked l !! id = Some m ∧ ∀ v, saved l !! id = Some v → (v <= m)%nat.

Lemma save_all_lookup ids t m id :
  save_all ids t m !! id = if decide (id ∈ ids) then Some t else m !! id.
Proof.
  revert m. induction ids as [|x ids IH]; intros m; [done|].
  simpl. rewrite IH. destruct (decide (id ∈ ids)) as [Hin|Hin].
  - rewrite decide_True by by right. done.
  - destruct (decide (x = id)) as [->|Hne].
    + rewrite lookup_insert_eq, decide_True by left. done.
    + rewrite lookup_insert_ne by done. rewrite decide_False; [done|]. set_solver.
Qed.

(** * The invariant of a run *)

Definition phase_ok (s : tracker) : Prop :=
  match shutdownPromise s with
  | Sh_none => accepting s = true
  | Sh_waiting => accepting s = false ∧ timer s = false
  | Sh_flushing ids =>
      accepting s = false ∧ timer s = false ∧ inFlight s = None ∧ dirtyIds s = []
  | Sh_done ok =>
      accepting s = false ∧ timer s = false ∧ inFlight s = None ∧
      (ok = true → dirtyIds s = [])
  end.

(** Where the mark of [id] at time [m] is. *)
Definition mark_kept (s : tracker) (l : ledger) (id : jsstr) (m : nat) : Prop :=
  id ∈ dirtyIds s ∨ (id ∈ outstanding s ∧ (m < called l)%nat) ∨
  ∃ v, saved l !! id = Some v ∧ (m < v)%nat.

Record run_ok (s : tracker) (l : ledger) : Prop := {
  ok_table : clock_ok (table s);
  ok_phase : phase_ok s;
  ok_outstanding : ∀ id, id ∈ outstanding s → id ∈ flushingIds s;
  ok_time : ∀ id m, marked l !! id = Some m → (m < time l)%nat;
  ok_kept : ∀ id m, marked l !! id = Some m → mark_kept s l id m;
  ok_sent : ∀ id m, id ∈ outstanding s → marked l !! id = Some m →
    id ∈ dirtyIds s ∨ (m < called l)%nat;
}.

Lemma new_run_ok : run_ok new_tracker new_ledger.
Proof.
  split; simpl; try done; try apply empty_clock_ok; set_solver.
Qed.

Lemma schedule_fields s :
  dirtyIds (schedule s) = dirtyIds s ∧ flushingIds (schedule s) = flushingIds s ∧
  inFlight (schedule s) = inFlight s ∧ shutdownPromise (schedule s) = shutdownPromise s ∧
  accepting (schedule s) = accepting s ∧ table (schedule s) = table s ∧
  outstanding (schedule s) = outstanding s ∧
  (accepting s = false → timer (schedule s) = timer s).
Proof.
  unfold schedule. destruct (accepting s) eqn:Ha; simpl; [|by rewrite ?Ha].
  by case_match; rewrite ?Ha.
Qed.

(** Only the timer differs, which the invariant reads after a shutdown. *)
Lemma schedule_ok s l : run_ok s l → run_ok (schedule s) l.
Proof.
  destruct (schedule_fields s) as (Hd & Hf & Hi & Hs & Ha & Ht & Ho & Htm).
  intros [H1 H2 H3 H4 H5 H6]. split; try by rewrite ?Ht, ?Ho, ?Hf, ?Hd; auto.
  - unfold phase_ok in *. rewrite Hs, Ha, Hi, Hd.
    destruct (shutdownPromise s); [done|..]; rewrite Htm by tauto; tauto.
  - intros id m Hm. destruct (H5 id m Hm) as [?|[?|?]];
      [left|right; left|right; right]; by rewrite ?Hd, ?Ho.
Qed.

Lemma clock_advance_all_ok ids t : clock_ok t → clock_ok (gt_advance_all ids t).
Proof. exact (gt_advance_all_ok (T:=clock_table) ids t). Qed.

(** A new call of the store with the dirty ids, none being outstanding. *)
Lemma begin_flush_ok s l s' :
  run_ok s l → dirtyIds s' = [] →
  outstanding s' = dirtyIds s → table s' = gt_advance_all (dirtyIds s) (table s) →
  flushingIds s' = js_add_all (dirtyIds s) (flushingIds s) → phase_ok s' →
  is_nil (outstanding s) = true →
  run_ok s' (Ledger (S (time l)) (marked l) (time l) (saved l)).
Proof.
  intros [H1 H2 H3 H4 H5 H6] Hd Ho Ht Hf Hp Hnil.
  assert (outstanding s = []) as Hno by by destruct (outstanding s).
  split; simpl; [|done|..].
  - rewrite Ht. by apply clock_advance_all_ok.
  - intros id. rewrite Ho, Hf. intros Hin. apply elem_of_js_add_all. by left.
  - intros id m Hm. specialize (H4 id m Hm). lia.
  - intros id m Hm. specialize (H4 id m Hm).
    destruct (H5 id m Hm) as [?|[[Hin _]|?]].
    + right. left. by rewrite Ho.
    + rewrite Hno in Hin. set_solver.
    + right. by right.
  - intros id m _ Hm. right. by apply H4 in Hm.
Qed.

(** An event that sends nothing and moves no id out of the tracker. *)
Lemma frame_ok s l s' l' :
  run_ok s l → phase_ok s' → clock_ok (table s') →
  (∀ id, id ∈ dirtyIds s → id ∈ dirtyIds s') → outstanding s' = outstanding s →
  (∀ id, id ∈ outstanding s → id ∈ flushingIds s') →
  marked l' = marked l → saved l' = saved l → (time l <= time l')%nat →
  (called l' = called l ∨ outstanding s = []) →
  run_ok s' l'.
Proof.
  intros [H1 H2 H3 H4 H5 H6] Hp Ht Hd Ho Hf Hm Hs Htm Hc. split; try done.
  - rewrite Ho. auto.
  - intros id m. rewrite Hm. intros Hl. specialize (H4 id m Hl). lia.
  - intros id m. rewrite Hm. intros Hl. unfold mark_kept. rewrite Ho, Hs.
    destruct (H5 id m Hl) as [?|[[Hin ?]|?]]; [auto| |auto].
    destruct Hc as [->|Hn]; [auto|]. rewrite Hn in Hin. set_solver.
  - intros id m Hin. rewrite Hm, Ho in *. intros Hl.
    destruct (H6 id m Hin Hl) as [?|?]; [auto|].
    destruct Hc as [->|Hn]; [auto|]. rewrite Hn in Hin. set_solver.
Qed.

(** The store's answer: the outstanding ids are saved or dirty again. *)
Lemma settle_ok s l s' (ok : bool) :
  run_ok s l → phase_ok s' → clock_ok (table s') → outstanding s' = [] →
  (∀ id, id ∈ dirtyIds s → id ∈ dirtyIds s') →
  (ok = false → ∀ id, id ∈ outstanding s → id ∈ dirtyIds s') →
  run_ok s' (Ledger (S (time l)) (marked l) (called l)
    (if ok then save_all (outstanding s) (called l) (saved l) else saved l)).
Proof.
  intros [H1 H2 H3 H4 H5 H6] Hp Ht Ho Hd Hf. split; simpl; try done.
  - rewrite Ho. set_solver.
  - intros id m Hm. specialize (H4 id m Hm). lia.
  - intros id m Hm. unfold mark_kept. simpl.
    destruct (H5 id m Hm) as [?|[[Hin Hlt]|(v & Hv & Hlt)]]; [auto| |].
    + destruct ok; [|left; by apply Hf]. right. right. exists (called l).
      by rewrite save_all_lookup, decide_True.
    + destruct ok; [|right; right; by exists v].
      destruct (decide (id ∈ outstanding s)) as [Hin|Hin].
      * destruct (H6 id m Hin Hm) as [?|?]; [by left; apply Hd|].
        right. right. exists (called l). by rewrite save_all_lookup, decide_True.
      * right. right. exists v. by rewrite save_all_lookup, decide_False.
  - rewrite Ho. set_solver.
Qed.

Lemma outstanding_nil s :
  (∀ ids, inFlight s ≠ Some (Flush ids false)) →
  (∀ ids, shutdownPromise s ≠ Sh_flushing ids) → outstanding s = [].
Proof.
  intros H1 H2. unfold outstanding.
  destruct (inFlight s) as [[ids [|]]|] eqn:Hf; [|by destruct (H1 ids)|];
    destruct (shutdownPromise s) as [| |ids'|] eqn:Hp; try done; by destruct (H2 ids').
Qed.

Lemma mark_ok s l id : run_ok s l → run_ok (mark id s) (account (Mark id) s l).
Proof.
  intros Hok. pose proof Hok as [H1 H2 H3 H4 H5 H6]. unfold mark, account.
  destruct (accepting s) eqn:Ha; simpl.
  - apply schedule_ok. split; simpl.
    + by apply clock_advance_ok.
    + unfold phase_ok in *. simpl. destruct (shutdownPromise s); intuition congruence.
    + done.
    + intros id' m [[-> <-]|[? Hm]]%lookup_insert_Some; [lia|].
      specialize (H4 _ _ Hm). lia.
    + intros id' m [[-> <-]|[? Hm]]%lookup_insert_Some.
      * left. simpl. apply elem_of_js_add. by left.
      * destruct (H5 _ _ Hm) as [?|?]; [|by right].
        left. simpl. apply elem_of_js_add. by right.
    + intros id' m Hin [[-> <-]|[? Hm]]%lookup_insert_Some.
      * left. apply elem_of_js_add. by left.
      * destruct (H6 _ _ Hin Hm); [|by right].
        left. apply elem_of_js_add. by right.
  - eapply frame_ok; [exact Hok|done..| |by left]. simpl. lia.
Qed.

Lemma startFlush_ok s l :
  run_ok s l → shutdownPromise s = Sh_none →
  run_ok (startFlush s) (account Timer_fires s l).
Proof.
  intros Hok Hns. pose proof Hok as [H1 H2 H3 H4 H5 H6]. unfold startFlush, account.
  destruct (inFlight s) as [f|] eqn:Hf; simpl.
  - eapply frame_ok; [exact Hok|done..|simpl; lia|]. simpl.
    destruct (outstanding s); simpl; auto.
  - assert (outstanding s = []) as Hno by (apply outstanding_nil; congruence).
    destruct (dirtyIds s) as [|d ds] eqn:Hd; simpl.
    + eapply frame_ok; [exact Hok|try done..|]; [simpl; lia|by right].
    + rewrite Hno. apply (begin_flush_ok s l); simpl; rewrite ?Hd, ?Hno; try done.
      unfold phase_ok in *. simpl in *. by rewrite Hns in *.
Qed.

Lemma shutdown_flush_ok s l :
  run_ok s l → inFlight s = None → accepting s = false → timer s = false →
  (∀ ids, shutdownPromise s ≠ Sh_flushing ids) →
  run_ok (shutdown_flush s) (account Shutdown s l).
Proof.
  intros Hok Hf Ha Ht Hns. pose proof Hok as [H1 H2 H3 H4 H5 H6].
  assert (outstanding s = []) as Hno by (apply outstanding_nil; congruence).
  unfold shutdown_flush, account. destruct (dirtyIds s) as [|d ds] eqn:Hd; simpl.
  - eapply frame_ok; [exact Hok|try done..|]; simpl; rewrite ?Hd, ?Hno; try done.
    + unfold outstanding. simpl. by rewrite Hf.
    + simpl. lia.
    + by right.
  - rewrite Hno. apply (begin_flush_ok s l); simpl; rewrite ?Hd, ?Hno; try done.
    unfold outstanding. simpl. by rewrite Hf.
Qed.

Lemma no_shutdown_flush s l f :
  run_ok s l → inFlight s = Some f → ∀ ids, shutdownPromise s ≠ Sh_flushing ids.
Proof.
  intros [_ H2 _ _ _ _] Hf ids Hs. unfold phase_ok in H2. rewrite Hs in H2.
  destruct H2 as (_&_&?&_). congruence.
Qed.

Lemma flush_finally_ok s l ids :
  run_ok s l → inFlight s = Some (Flush ids true) →
  run_ok (schedule (set_inFlight None (end_flush ids s))) (account Flush_finally s l).
Proof.
  intros Hok Hf. pose proof Hok as [H1 H2 H3 H4 H5 H6].
  pose proof (no_shutdown_flush s l _ Hok Hf) as Hns.
  assert (outstanding s = []) as Hno by (apply outstanding_nil; congruence).
  apply schedule_ok. eapply frame_ok; [exact Hok|..]; simpl; try done.
  - unfold phase_ok in *. simpl. destruct (shutdownPromise s); intuition congruence.
  - by apply clock_advance_all_ok.
  - rewrite Hno. by apply outstanding_nil.
  - rewrite Hno. set_solver.
  - lia.
  - by left.
Qed.

Lemma store_settles_ok s l ids (ok : bool) :
  run_ok s l → inFlight s = Some (Flush ids false) →
  run_ok (let s' := set_inFlight (Some (Flush ids true)) s in
          if ok then s' else mark_dirty ids s') (account (Store_settles ok) s l).
Proof.
  intros Hok Hf. pose proof Hok as [H1 H2 H3 H4 H5 H6].
  pose proof (no_shutdown_flush s l _ Hok Hf) as Hns.
  pose proof (settle_ok s l (let s' := set_inFlight (Some (Flush ids true)) s in
          if ok then s' else mark_dirty ids s') ok Hok) as Hs.
  assert (outstanding s = ids) as Ho by by unfold outstanding; rewrite Hf.
  destruct ok; (apply Hs; clear Hs; simpl; try done).
  all: try (unfold phase_ok in *; simpl; destruct (shutdownPromise s); intuition congruence).
  all: try (apply outstanding_nil; simpl; congruence).
  - intros id Hin. apply elem_of_js_add_all. by right.
  - intros _ id Hin. apply elem_of_js_add_all. left. by rewrite <-Ho.
Qed.

Lemma shutdown_settles_ok s l ids (ok : bool) :
  run_ok s l → shutdownPromise s = Sh_flushing ids →
  run_ok (set_shutdown (Sh_done ok) (end_flush ids (if ok then s else mark_dirty ids s)))
    (account (Shutdown_settles ok) s l).
Proof.
  intros Hok Hp. pose proof Hok as [H1 H2 H3 H4 H5 H6].
  unfold phase_ok in H2. rewrite Hp in H2. destruct H2 as (Ha & Ht & Hf & Hd).
  pose proof (settle_ok s l (set_shutdown (Sh_done ok)
    (end_flush ids (if ok then s else mark_dirty ids s))) ok Hok) as Hs.
  assert (outstanding s = ids) as Ho by by unfold outstanding; rewrite Hf, Hp.
  destruct ok; (apply Hs; clear Hs; simpl; rewrite ?Hd; try done).
  all: try (apply clock_advance_all_ok; done).
  all: try (apply outstanding_nil; simpl; congruence).
  - set_solver.
  - intros _ id Hin. apply elem_of_js_add_all. left. by rewrite <-Ho.
Qed.

Lemma shutdown_event_ok s l : run_ok s l → run_ok (shutdown s) (account Shutdown s l).
Proof.
  intros Hok. pose proof Hok as [H1 H2 H3 H4 H5 H6].
  assert (run_ok s (account Shutdown s l)) as Hskip.
  { eapply frame_ok; [exact Hok|done..|simpl; lia|]. simpl.
    destruct (outstanding s); simpl; auto. }
  unfold shutdown. destruct (shutdownPromise s) eqn:Hp; [|done..].
  assert (run_ok (set_shutdown Sh_waiting (cancelTimer (stop_accepting s))) l) as Hw.
  { eapply frame_ok; [exact Hok|done..| |done|done|done|done|by left].
    unfold outstanding. simpl. by rewrite Hp. }
  simpl. destruct (inFlight s) as [f|] eqn:Hf.
  - eapply frame_ok; [exact Hskip|done..| |done|done|done|done|by left].
    unfold outstanding. simpl. by rewrite Hp.
  - pose proof (shutdown_flush_ok _ l Hw) as Hs. unfold shutdown_flush in *. simpl in *.
    assert (outstanding s = []) as Hno by (apply outstanding_nil; congruence).
    rewrite Hno. unfold outstanding in Hs. simpl in Hs. rewrite Hf in Hs.
    destruct (dirtyIds s); by apply Hs.
Qed.

Lemma timer_fires_ok s l :
  run_ok s l → timer s = true →
  run_ok (startFlush (set_timer false s)) (account Timer_fires s l).
Proof.
  intros Hok Ht. pose proof Hok as [H1 H2 H3 H4 H5 H6].
  assert (shutdownPromise s = Sh_none) as Hn.
  { unfold phase_ok in H2. destruct (shutdownPromise s); intuition congruence. }
  apply (startFlush_ok (set_timer false s) l); [|done].
  eapply frame_ok; [exact Hok|try done..|by left].
  unfold phase_ok in *. simpl. by rewrite Hn in *.
Qed.

(** Every event keeps the invariant. *)
Lemma step_ok e s l s' : run_ok s l → step e s = Some s' → run_ok s' (account e s l).
Proof.
  intros Hok. destruct e as [id| |ok| | | |ok]; simpl.
  - intros [= <-]. by apply mark_ok.
  - destruct (timer s) eqn:Ht; [|done]. intros [= <-]. by apply timer_fires_ok.
  - destruct (inFlight s) as [[ids [|]]|] eqn:Hf; try done. intros [= <-].
    pose proof (store_settles_ok s l ids ok Hok Hf) as Hs. by destruct ok.
  - destruct (inFlight s) as [[ids [|]]|] eqn:Hf; try done. intros [= <-].
    by apply (flush_finally_ok s l).
  - intros [= <-]. by apply shutdown_event_ok.
  - destruct (shutdownPromise s) eqn:Hp; try done.
    destruct (inFlight s) eqn:Hf; [done|]. intros [= <-].
    pose proof Hok as [_ H2 _ _ _ _]. unfold phase_ok in H2. rewrite Hp in H2.
    destruct H2 as [Ha Ht]. apply shutdown_flush_ok; [done..|]. congruence.
  - destruct (shutdownPromise s) eqn:Hp; try done. intros [= <-].
    pose proof (shutdown_settles_ok s l ids ok Hok Hp) as Hs. by destruct ok.
Qed.

Lemma run_inv es s l s' l' :
  run_ok s l → run es s l = Some (s', l') → run_ok s' l'.
Proof.
  revert s l. induction es as [|e es IH]; intros s l Hok; simpl.
  - by intros [= <- <-].
  - destruct (step e s) as [s1|] eqn:Hs; simpl; [|done].
    apply IH. by eapply step_ok.
Qed.

Lemma mark_kept_unsaved s l id m :
  mark_kept s l id m → (∀ v, saved l !! id = Some v → (v <= m)%nat) →
  id ∈ dirtyIds s ∨ id ∈ outstanding s.
Proof.
  intros [?|[[? _]|(v & Hv & Hlt)]] Hs; [auto..|].
  specialize (Hs v Hv). lia.
Qed.

(** * Generations along a run *)

Definition visible (s : tracker) (id : jsstr) : Z := generation (cleanupSnapshot s id).
Definition is_pending (s : tracker) (id : jsstr) : bool := pending (cleanupSnapshot s id).

Lemma is_pending_true s id :
  is_pending s id = true ↔ id ∈ dirtyIds s ∨ id ∈ flushingIds s.
Proof.
  unfold is_pending, cleanupSnapshot. simpl.
  by rewrite orb_true_iff, !bool_decide_eq_true.
Qed.

Lemma is_pending_ext s s' id :
  (id ∈ dirtyIds s ∨ id ∈ flushingIds s ↔ id ∈ dirtyIds s' ∨ id ∈ flushingIds s') →
  is_pending s id = is_pending s' id.
Proof. intros Hiff. apply eq_true_iff_eq. by rewrite !is_pending_true. Qed.

(** How an event moves the generation of [id]: it stays, with the same pending
    flag and no accepted mark, or it grows. *)
Definition unchanged_or_grows (e : event) s s' (id : jsstr) : Prop :=
  (visible s' id = visible s id ∧ is_pending s' id = is_pending s id ∧
   (e = Mark id → accepting s = false)) ∨
  visible s id < visible s' id.

Lemma schedule_visible s id : visible (schedule s) id = visible s id.
Proof.
  destruct (schedule_fields s) as (_&_&_&_&_&Ht&_).
  unfold visible, cleanupSnapshot. simpl. by rewrite Ht.
Qed.
Lemma schedule_pending s id : is_pending (schedule s) id = is_pending s id.
Proof.
  destruct (schedule_fields s) as (Hd&Hf&_).
  apply is_pending_ext. by rewrite Hd, Hf.
Qed.

Lemma advance_all_visible ids t id :
  clock_ok t →
  (id ∉ ids ∧ clock_visible t id = clock_visible (gt_advance_all ids t) id) ∨
  clock_visible t id < clock_visible (gt_advance_all ids t) id.
Proof.
  intros Hok. destruct (decide (id ∈ ids)) as [Hin|Hin].
  - right. exact (gt_advance_all_advanced (T:=clock_table) ids t id Hok Hin).
  - pose proof (gt_advance_all_monotone (T:=clock_table) ids t id Hok) as Hm.
    simpl in Hm. destruct (Z.eq_dec (clock_visible t id)
      (clock_visible (gt_advance_all ids t) id)); [left; done|right; lia].
Qed.

Lemma begin_flush_visible s id :
  clock_ok (table s) →
  (visible (begin_flush s) id = visible s id ∧
   is_pending (begin_flush s) id = is_pending s id) ∨
  visible s id < visible (begin_flush s) id.
Proof.
  intros Hok. destruct (advance_all_visible (dirtyIds s) _ id Hok) as [[Hn Hv]|Hv];
    [left|by right]. split; [done|].
  apply is_pending_ext. simpl. rewrite elem_of_js_add_all. set_solver.
Qed.

Lemma end_flush_visible ids s id :
  clock_ok (table s) →
  (visible (end_flush ids s) id = visible s id ∧
   is_pending (end_flush ids s) id = is_pending s id) ∨
  visible s id < visible (end_flush ids s) id.
Proof.
  intros Hok. destruct (advance_all_visible ids _ id Hok) as [[Hn Hv]|Hv];
    [left|by right]. split; [done|].
  apply is_pending_ext. simpl. rewrite elem_of_js_remove_all. tauto.
Qed.

Lemma mark_dirty_pending ids s id :
  (∀ x, x ∈ ids → x ∈ flushingIds s) → is_pending (mark_dirty ids s) id = is_pending s id.
Proof.
  intros Hin. apply is_pending_ext. simpl. rewrite elem_of_js_add_all.
  specialize (Hin id). tauto.
Qed.

Lemma mark_visible id s id' :
  clock_ok (table s) → unchanged_or_grows (Mark id) s (mark id s) id'.
Proof.
  intros Hok. unfold unchanged_or_grows, mark. destruct (accepting s) eqn:Ha; simpl;
    [|left; split_and!; [done|done|by intros _]].
  rewrite schedule_visible, schedule_pending. unfold visible, cleanupSnapshot. simpl.
  destruct (decide (id' = id)) as [->|Hne].
  - right. exact (gt_advanced (T:=clock_table) _ id Hok).
  - pose proof (gt_monotone (T:=clock_table) _ id' id Hok) as Hm. simpl in Hm.
    destruct (Z.eq_dec (clock_visible (clock_advance id (table s)) id')
      (clock_visible (table s) id')) as [Heq|]; [|right; lia].
    left. split_and!; [done| |congruence].
    apply is_pending_ext. simpl. rewrite elem_of_js_add. tauto.
Qed.

Lemma shutdown_flush_visible s id :
  clock_ok (table s) → (visible (shutdown_flush s) id = visible s id ∧
   is_pending (shutdown_flush s) id = is_pending s id) ∨
  visible s id < visible (shutdown_flush s) id.
Proof.
  intros Hok. unfold shutdown_flush. destruct (is_nil _); [by left|].
  apply (begin_flush_visible s id Hok).
Qed.

Lemma step_visible e s l s' id :
  run_ok s l → step e s = Some s' → unchanged_or_grows e s s' id.
Proof.
  intros [H1 H2 H3 _ _ _]. destruct e as [id'| |ok| | | |ok]; simpl.
  - intros [= <-]. by apply mark_visible.
  - destruct (timer s); [|done]. intros [= <-]. unfold startFlush. simpl.
    destruct (_ || _); [by left|].
    destruct (begin_flush_visible s id H1) as [[? ?]|?]; [left|right]; done.
  - destruct (inFlight s) as [[ids [|]]|] eqn:Hf; try done. intros [= <-].
    left. destruct ok; [done|]. split_and!; [done| |done].
    apply (mark_dirty_pending ids (set_inFlight (Some (Flush ids true)) s)).
    intros x Hx. apply H3. unfold outstanding. by rewrite Hf.
  - destruct (inFlight s) as [[ids [|]]|] eqn:Hf; try done. intros [= <-].
    unfold unchanged_or_grows. rewrite schedule_visible, schedule_pending.
    destruct (end_flush_visible ids s id H1) as [[? ?]|?]; [left|right]; done.
  - intros [= <-]. unfold shutdown. destruct (shutdownPromise s); [|by left..].
    simpl. destruct (inFlight s); [by left|].
    destruct (shutdown_flush_visible (cancelTimer (stop_accepting s)) id H1)
      as [[? ?]|?]; [left|right]; done.
  - destruct (shutdownPromise s), (inFlight s); try done. intros [= <-].
    destruct (shutdown_flush_visible s id H1) as [[? ?]|?]; [left|right]; done.
  - destruct (shutdownPromise s) eqn:Hp; try done. intros [= <-].
    assert (inFlight s = None) as Hf.
    { unfold phase_ok in H2. rewrite Hp in H2. tauto. }
    assert (is_pending (if ok then s else mark_dirty ids s) id = is_pending s id) as Hpe.
    { destruct ok; [done|]. apply mark_dirty_pending.
      intros x Hx. apply H3. unfold outstanding. by rewrite Hf, Hp. }
    destruct (end_flush_visible ids (if ok then s else mark_dirty ids s) id)
      as [[Hv Hq]|Hv]; [by destruct ok|left|right].
    + unfold visible, is_pending in *. simpl in *. rewrite Hv, Hq, Hpe. by destruct ok.
    + unfold visible in *. simpl in *. by destruct ok.
Qed.

Lemma run_visible es s l s' l' id :
  run_ok s l → run es s l = Some (s', l') →
  visible s id <= visible s' id ∧
  (visible s id = visible s' id →
   is_pending s' id = is_pending s id ∧ marked l' !! id = marked l !! id).
Proof.
  revert s l. induction es as [|e es IH]; intros s l Hok; simpl.
  - intros [= <- <-]. split; [lia|done].
  - destruct (step e s) as [s1|] eqn:Hs; simpl; [|done]. intros Hrun.
    pose proof (step_visible e s l s1 id Hok Hs) as Hv.
    destruct (IH s1 _ (step_ok _ _ _ _ Hok Hs) Hrun) as [Hle Heq].
    unfold unchanged_or_grows in Hv.
    split; [destruct Hv as [(?&_)|?]; lia|]. intros Hsame.
    destruct Hv as [(Hv1 & Hv2 & Hacc)|?]; [|lia].
    destruct Heq as [Hp Hm]; [lia|]. split; [congruence|]. rewrite Hm.
    destruct e as [id'| |[]| | | |[]]; try done. simpl.
    destruct (accepting s) eqn:Ha; [|done].
    rewrite lookup_insert_ne; [done|]. intros ->. by specialize (Hacc eq_refl).
Qed.

(** * Theorems *)

(** C17: however marks, timer callbacks, store outcomes and [shutdown] are
    interleaved, an accepted mark is never dropped: as long as no flush sent
    after it has succeeded, [cleanupSnapshot] reports the tab as pending; and
    once the shutdown promise is fulfilled every accepted mark has been
    saved. *)
Theorem activity_never_lost (es : list event) (s : tracker) (l : ledger) :
  run es new_tracker new_ledger = Some (s, l) →
  (∀ id, unsaved l id → pending (cleanupSnapshot s id) = true) ∧
  (shutdownPromise s = Sh_done true → ∀ id, ¬ unsaved l id).
Proof.
  intros Hrun. pose proof (run_inv _ _ _ _ _ new_run_ok Hrun) as Hok.
  assert (∀ id, unsaved l id → id ∈ dirtyIds s ∨ id ∈ outstanding s) as Hwhere.
  { intros id (m & Hm & Hs). eapply mark_kept_unsaved; [|exact Hs].
    by apply (ok_kept _ _ Hok). }
  split.
  - intros id Hu. apply is_pending_true.
    destruct (Hwhere id Hu); [auto|]. right. by apply (ok_outstanding _ _ Hok).
  - intros Hd id Hu. pose proof (ok_phase _ _ Hok) as Hp. unfold phase_ok in Hp.
    rewrite Hd in Hp. destruct Hp as (_ & _ & Hf & Hnil).
    destruct (Hwhere id Hu) as [Hin|Hin].
    + rewrite Hnil in Hin by done. set_solver.
    + unfold outstanding in Hin. rewrite Hf, Hd in Hin. set_solver.
Qed.

(** The cleanup generation of a tab is a faithful change detector: it never
    decreases, and when it is equal before and after any interleaving of
    events, no mark of the tab was accepted in between and its pending flag is
    the same. The table behind it never holds more than 64 tabs. *)
Theorem activity_generation_detects (es1 es2 : list event) (s1 s2 : tracker)
    (l1 l2 : ledger) (id : jsstr) :
  run es1 new_tracker new_ledger = Some (s1, l1) → run es2 s1 l1 = Some (s2, l2) →
  generation (cleanupSnapshot s1 id) <= generation (cleanupSnapshot s2 id) ∧
  (generation (cleanupSnapshot s1 id) = generation (cleanupSnapshot s2 id) →
   pending (cleanupSnapshot s2 id) = pending (cleanupSnapshot s1 id) ∧
   marked l2 !! id = marked l1 !! id) ∧
  cleanupTrackingCount s2 <= MAX_CLEANUP_GENERATIONS.
Proof.
  intros H1 H2. pose proof (run_inv _ _ _ _ _ new_run_ok H1) as Hok1.
  pose proof (run_inv _ _ _ _ _ Hok1 H2) as Hok2.
  destruct (run_visible es2 s1 l1 s2 l2 id Hok1 H2) as [Hle Heq].
  split_and!; [exact Hle|exact Heq|].
  exact (gt_bounded (T:=clock_table) _ (ok_table _ _ Hok2)).
Qed.

(** The events left to a tracker that is shutting down. *)
Definition shutdown_event (e : event) : bool :=
  match e with
  | Store_settles _ | Flush_finally | Shutdown_resumes | Shutdown_settles _ => true
  | _ => false
  end.

Definition shutdown_rank (s : tracker) : nat :=
  match shutdownPromise s, inFlight s with
  | Sh_none, _ => 5
  | Sh_waiting, Some (Flush _ false) => 4
  | Sh_waiting, Some (Flush _ true) => 3
  | Sh_waiting, None => 2
  | Sh_flushing _, _ => 1
  | Sh_done _, _ => 0
  end.

(** [shutdown] terminates: after it is called, as long as its promise is
    not settled one of the remaining events can occur whatever the store
    answers, and each of them brings the tracker strictly closer to the end;
    marks and late timers no longer change anything. *)
Theorem shutdown_terminates (es : list event) (s : tracker) (l : ledger) :
  run es new_tracker new_ledger = Some (s, l) → shutdownPromise s ≠ Sh_none →
  (∀ e s', step e s = Some s' →
     if shutdown_event e then (shutdown_rank s' < shutdown_rank s)%nat else s' = s) ∧
  ((0 < shutdown_rank s)%nat → ∀ ok : bool, ∃ e s',
     e ∈ [Store_settles ok; Flush_finally; Shutdown_resumes; Shutdown_settles ok] ∧
     step e s = Some s').
Proof.
  intros Hrun Hn. pose proof (ok_phase _ _ (run_inv _ _ _ _ _ new_run_ok Hrun)) as Hp.
  unfold phase_ok in Hp.
  assert (accepting s = false ∧ timer s = false) as [Ha Ht].
  { destruct (shutdownPromise s); tauto. }
  unfold shutdown_rank. split.
  - intros e s' Hs. destruct e as [id| |ok| | | |ok]; simpl in *.
    + unfold mark in Hs. rewrite Ha in Hs. simpl in Hs. congruence.
    + by rewrite Ht in Hs.
    + destruct (inFlight s) as [[ids [|]]|] eqn:Hf; try done. injection Hs as <-.
      destruct (shutdownPromise s) eqn:Hph; destruct ok; simpl; rewrite ?Hph; try done;
        try lia; naive_solver.
    + destruct (inFlight s) as [[ids [|]]|] eqn:Hf; try done. injection Hs as <-.
      destruct (schedule_fields (set_inFlight None (end_flush ids s)))
        as (_ & _ & -> & -> & _).
      simpl. destruct (shutdownPromise s) eqn:Hph; try done; try lia; naive_solver.
    + unfold shutdown in Hs. destruct (shutdownPromise s); [done|congruence..].
    + destruct (shutdownPromise s), (inFlight s); try done. injection Hs as <-.
      unfold shutdown_flush. destruct (is_nil _); simpl; lia.
    + destruct (shutdownPromise s); try done. injection Hs as <-. simpl. lia.
  - intros Hr ok. destruct (shutdownPromise s) eqn:Hph; [done| |..|simpl in Hr; lia].
    + destruct (inFlight s) as [[ids [|]]|] eqn:Hf.
      * exists Flush_finally. simpl. rewrite Hf. eexists. split; [set_solver|done].
      * exists (Store_settles ok). simpl. rewrite Hf. eexists. split; [set_solver|done].
      * exists Shutdown_resumes. simpl. rewrite Hf, Hph. eexists. split; [set_solver|done].
    + exists (Shutdown_settles ok). simpl. rewrite Hph. eexists. split; [set_solver|done].
Qed.

(** * Concrete runs *)

Definition sample_run : list event :=
  [Mark (js "a"); Timer_fires; Mark (js "b"); Store_settles false; Flush_finally].
Definition sample_end : list event := [Shutdown; Shutdown_settles true].
Definition run_state (es : list event) : tracker * ledger :=
  default (new_tracker, new_ledger) (run es new_tracker new_ledger).

Lemma run_sample :
  run sample_run new_tracker new_ledger =
  Some ((run_state sample_run).1, (run_state sample_run).2).
Proof. vm_compute. reflexivity. Qed.

Lemma activity_never_lost_witness :
  unsaved (run_state sample_run).2 (js "a") ∧
  pending (cleanupSnapshot (run_state sample_run).1 (js "a")) = true.
Proof.
  assert (unsaved (run_state sample_run).2 (js "a")) as Hu.
  { exists 1%nat. split; [vm_compute; reflexivity|]. intros v Hv. vm_compute in Hv. discriminate. }
  split; [exact Hu|].
  exact (proj1 (activity_never_lost sample_run _ _ run_sample) (js "a") Hu).
Defined.

Lemma activity_generation_detects_witness :
  visible (run_state sample_run).1 (js "c") = visible (run_state sample_run).1 (js "c") ∧
  cleanupTrackingCount (run_state sample_run).1 <= MAX_CLEANUP_GENERATIONS.
Proof.
  split; [reflexivity|].
  exact (proj2 (proj2 (activity_generation_detects sample_run [] _ _ _ _ (js "c")
    run_sample eq_refl))).
Defined.

Lemma shutdown_terminates_witness :
  let s := (run_state (sample_run ++ [Shutdown])).1 in
  shutdownPromise s = Sh_flushing [js "b"; js "a"] ∧
  ∃ e s', e ∈ [Store_settles true; Flush_finally; Shutdown_resumes; Shutdown_settles true] ∧
    step e s = Some s'.
Proof.
  split; [vm_compute; reflexivity|].
  refine (proj2 (shutdown_terminates (sample_run ++ [Shutdown])
    (run_state (sample_run ++ [Shutdown])).1 (run_state (sample_run ++ [Shutdown])).2
    _ _) _ true).
  - vm_compute. reflexivity.
  - vm_compute. discriminate.
  - vm_compute. lia.
Defined.
