(* ===== verification/WsAuthIndex.v ===== *)
(** [apps/server/src/websocket-auth-index.ts]: the class [WebSocketAuthIndex].

    The index is run against a [handler] for the sockets and the auth source.
    Revocations reach it re-entrantly, from [auth.sweepExpired] and from a
    negative [auth.isActive]; they may unregister sockets ([reentrant]).
    Socket listeners fire from the event loop, never inside a call. *)
From S2P Require Import Prelude JsMap Tabs Generations.
Open Scope Z_scope.

Record ApplicationSessionAuthority := {
  applicationSessionId : jsstr;
  auth_generation : Z;
  expiresAt : Z;
}.
#[export] Instance authority_eq_dec : EqDecision ApplicationSessionAuthority.
Proof. solve_decision. Defined.

(** A socket object, by identity. *)
Abbreviation socket_id := nat.

(** The disposables of [onClose] and [onError]. *)
Inductive listener := Close_listener | Error_listener.
#[export] Instance listener_eq_dec : EqDecision listener.
Proof. solve_decision. Defined.

Record Registration := {
  authority : ApplicationSessionAuthority;
  terminalTabId : jsstr;
  reg_socket : socket_id;
  disposables : list listener;
}.
#[export] Instance registration_eq_dec : EqDecision Registration.
Proof. solve_decision. Defined.

Definition session_of (r : Registration) : jsstr := applicationSessionId (authority r).

Record IndexOptions := { maxApplicationSessions : Z; maxSockets : Z }.

Definition HARD_MAX_APPLICATION_SESSIONS : Z := 256.
Definition HARD_MAX_SOCKETS : Z := 1024.
Definition MAX_RUNTIME_SNAPSHOTS : nat := 20.

(** The constructor's capacity check. *)
Definition valid_capacity (o : IndexOptions) : bool :=
  (1 <=? maxApplicationSessions o) &&
  (maxApplicationSessions o <=? HARD_MAX_APPLICATION_SESSIONS) &&
  (1 <=? maxSockets o) && (maxSockets o <=? HARD_MAX_SOCKETS).

Record index := Index {
  bySession : list (jsstr * list Registration);
  bySocket : list (socket_id * Registration);
  tabCounts : list (jsstr * Z);
  disposed : bool;
  generations : count_table;
}.

Definition new_index : index := Index [] [] [] false empty_count_table.

(** The calls that leave the index. *)
Inductive ev :=
| ReadyState (s : socket_id)      (** [socket.readyState === socket.OPEN] *)
| CloseSocket (s : socket_id) (code : Z)
| TerminateSocket (s : socket_id)
| OnClose (s : socket_id)
| OnError (s : socket_id)
| Dispose (s : socket_id) (l : listener)
| IsActive (a : ApplicationSessionAuthority)
| SweepAuth
| Unsubscribe.

Definition resp (e : ev) : Type :=
  match e with ReadyState _ | IsActive _ => bool | _ => unit end.

(** * Updates of the maps *)

(** [registration] enters the three maps. *)
Definition register_index (r : Registration) (c : index) : index :=
  let id := session_of r in
  let tab := terminalTabId r in
  Index (jm_set id (default [] (jm_get id (bySession c)) ++ [r]) (bySession c))
    (jm_set (reg_socket r) r (bySocket c))
    (jm_set tab (default 0 (jm_get tab (tabCounts c)) + 1) (tabCounts c))
    (disposed c) (count_advance tab (generations c)).

(** [if (session.size === 0) this.#bySession.delete(id)] *)
Definition prune_session (id : jsstr) (m : list (jsstr * list Registration))
    : list (jsstr * list Registration) :=
  match jm_get id m with Some [] => jm_delete id m | _ => m end.

(** The part of [unregister] before the listeners are disposed. *)
Definition unregister_index (s : socket_id) (c : index) : index :=
  match jm_get s (bySocket c) with
  | None => c
  | Some r =>
      let id := session_of r in
      let tab := terminalTabId r in
      let sessions :=
        match jm_get id (bySession c) with
        | None => bySession c
        | Some rs =>
            prune_session id (jm_set id (filter (λ r', r' ≠ r) rs) (bySession c))
        end in
      let count := default 1 (jm_get tab (tabCounts c)) - 1 in
      Index sessions (jm_delete s (bySocket c))
        (if count =? 0 then jm_delete tab (tabCounts c)
         else jm_set tab count (tabCounts c))
        (disposed c) (count_advance tab (generations c))
  end.

Definition set_bySession (m : list (jsstr * list Registration)) (c : index) : index :=
  Index m (bySocket c) (tabCounts c) (disposed c) (generations c).
Definition set_disposed (c : index) : index :=
  Index (bySession c) (bySocket c) (tabCounts c) true (generations c).

Section index.
Context {W : Type} (h : @handler index W ev unit resp) (o : IndexOptions).
Abbreviation IM := (M (sys index W ev) unit).

Definition ask (e : ev) : IM (resp e) := call resp h e.
(** [#isActive] *)
Definition is_active (a : ApplicationSessionAuthority) : IM bool :=
  catch (ask (IsActive a)) (λ _, ret false).

Definition disposeAll (s : socket_id) (ls : list listener) : IM unit :=
  each ls (λ l, attempt_call (ask (Dispose s l))).

Definition unregister (s : socket_id) : IM unit :=
  let! r := own (λ c, jm_get s (bySocket c)) in
  match r with
  | None => ret tt
  | Some reg => do! set_own (unregister_index s) in disposeAll s (disposables reg)
  end.

Definition secureAuthenticationClosure (s : socket_id) : IM bool :=
  let! open := ask (ReadyState s) in
  if negb open then ret true
  else
    do! attempt_call (ask (CloseSocket s AUTHENTICATION_REQUIRED)) in
    let! open2 := ask (ReadyState s) in
    if negb open2 then ret true
    else
      do! attempt_call (ask (TerminateSocket s)) in
      let! open3 := ask (ReadyState s) in
      ret (negb open3).

Definition closeAuthenticationRequired (s : socket_id) : IM bool :=
  let! secured := secureAuthenticationClosure s in
  if secured then do! unregister s in ret true else ret false.

Definition close_each (ss : list socket_id) : IM unit :=
  each ss (λ s, let! _b := closeAuthenticationRequired s in ret tt).

Definition closeSession (id : jsstr) : IM unit :=
  let! rs := own (λ c, default [] (jm_get id (bySession c))) in
  close_each (reg_socket <$> rs).

(** The failure branches of [registerIfActive]. *)
Definition abandon (r : Registration) : IM bool :=
  do! disposeAll (reg_socket r) (disposables r) in
  do! set_own (λ c, set_bySession (prune_session (session_of r) (bySession c)) c) in
  ret false.

(** The guards of [registerIfActive] that only read the index. *)
Definition refuses (s : socket_id) (c : index) : bool :=
  jm_has s (bySocket c) || (maxSockets o <=? Z.of_nat (length (bySocket c))).

(** The session slot of [a], or [None] when it cannot be had. *)
Definition session_slot (a : ApplicationSessionAuthority) (c : index) : option index :=
  match jm_get (applicationSessionId a) (bySession c) with
  | None =>
      if maxApplicationSessions o <=? Z.of_nat (length (bySession c)) then None
      else Some (set_bySession (jm_set (applicationSessionId a) [] (bySession c)) c)
  | Some rs =>
      match rs with
      | existing :: _ =>
          if auth_generation (authority existing) =? auth_generation a then Some c
          else None
      | [] => None  (* [existing?.authority.generation] is undefined *)
      end
  end.

Definition registerIfActive (a : ApplicationSessionAuthority) (tab : jsstr)
    (s : socket_id) : IM bool :=
  let! d := own disposed in
  if d then ret false else
  let! open := ask (ReadyState s) in
  if negb open then ret false else
  let! c := own id in
  if refuses s c then ret false else
  let! act := is_active a in
  if negb act then ret false else
  let! c1 := own (session_slot a) in
  match c1 with
  | None => ret false
  | Some c' =>
      do! set_own (λ _, c') in
      let reg ls := {| authority := a; terminalTabId := tab; reg_socket := s;
                       disposables := ls |} in
      let! listening := catch
        (do! ask (OnClose s) in do! ask (OnError s) in ret true) (λ _, ret false) in
      (* [push] has not run when one of its arguments throws *)
      if negb listening then abandon (reg []) else
      let r := reg [Close_listener; Error_listener] in
      let! open2 := ask (ReadyState s) in
      if negb open2 then abandon r else
      let! act2 := is_active a in
      if negb act2 then abandon r else
      do! set_own (register_index r) in ret true
  end.

Definition isActive (a : ApplicationSessionAuthority) : IM bool :=
  let! d := own disposed in
  if d then ret false else is_active a.

Definition sweepExpired : IM unit :=
  do! attempt_call (ask SweepAuth) in
  let! rs := own (λ c, (bySocket c).*2) in
  each rs (λ r,
    let! act := is_active (authority r) in
    if act then ret tt
    else let! _b := closeAuthenticationRequired (reg_socket r) in ret tt).

Definition dispose : IM unit :=
  let! d := own disposed in
  if d then ret tt
  else
    do! set_own set_disposed in
    do! attempt_call (ask Unsubscribe) in
    let! ss := own (λ c, (bySocket c).*1) in
    close_each ss.
End index.

(** ** Queries *)

Definition connectedCount (c : index) : Z := Z.of_nat (length (bySocket c)).
Definition countForTab (tab : jsstr) (c : index) : Z := default 0 (jm_get tab (tabCounts c)).
Definition entries (c : index) : list (jsstr * Z) := take MAX_RUNTIME_SNAPSHOTS (tabCounts c).
Record socket_snapshot := SocketSnapshot { sock_generation : Z; sock_count : Z }.
Definition cleanupSnapshot (tab : jsstr) (c : index) : socket_snapshot :=
  SocketSnapshot (count_visible (generations c) tab) (countForTab tab c).
Definition cleanupTrackingCount (c : index) : Z :=
  Z.of_nat (length (count_generations (generations c))).

(** * Consistency of the maps *)

Definition tab_count (tab : jsstr) (m : list (socket_id * Registration)) : Z :=
  Z.of_nat (length (filter (λ p, terminalTabId p.2 = tab) m)).

(** [gap] tells which sessions may be empty while a registration is under
    way. *)
Record index_ok (o : IndexOptions) (gap : jsstr → Prop) (c : index) : Prop := {
  ok_sockets : jm_wf (bySocket c);
  ok_keys : ∀ s r, jm_get s (bySocket c) = Some r → reg_socket r = s;
  ok_sessions : jm_wf (bySession c);
  ok_members : ∀ id rs, jm_get id (bySession c) = Some rs →
    NoDup rs ∧ ∀ r, r ∈ rs ↔ jm_get (reg_socket r) (bySocket c) = Some r ∧ session_of r = id;
  ok_listed : ∀ s r, jm_get s (bySocket c) = Some r →
    is_Some (jm_get (session_of r) (bySession c));
  ok_nonempty : ∀ id, jm_get id (bySession c) = Some [] → gap id;
  ok_one_generation : ∀ s s' r r', jm_get s (bySocket c) = Some r →
    jm_get s' (bySocket c) = Some r' → session_of r = session_of r' →
    auth_generation (authority r) = auth_generation (authority r');
  ok_counts : jm_wf (tabCounts c);
  ok_count : ∀ tab, countForTab tab c = tab_count tab (bySocket c);
  ok_positive : ∀ tab n, jm_get tab (tabCounts c) = Some n → 0 < n;
  ok_max_sockets : Z.of_nat (length (bySocket c)) <= maxSockets o;
  ok_max_sessions : Z.of_nat (length (bySession c)) <= maxApplicationSessions o;
  ok_generations : count_ok (generations c);
}.

Definition no_gap : jsstr → Prop := λ _, False.

Section counts.
Implicit Types (m : list (socket_id * Registration)).

Lemma tab_count_set_absent tab s r m :
  jm_get s m = None →
  tab_count tab (jm_set s r m) = tab_count tab m + (if decide (terminalTabId r = tab) then 1 else 0).
Proof.
  intros Hn. unfold tab_count. rewrite jm_set_absent, filter_app, length_app by done.
  destruct (decide (terminalTabId r = tab)).
  - rewrite (filter_cons_True _ (s, r)) by done. simpl. lia.
  - rewrite (filter_cons_False _ (s, r)) by done. simpl. lia.
Qed.

Lemma tab_count_delete tab s r m :
  jm_wf m → jm_get s m = Some r →
  tab_count tab (jm_delete s m) + (if decide (terminalTabId r = tab) then 1 else 0) = tab_count tab m.
Proof.
  unfold jm_wf, tab_count. induction m as [|[s0 r0] m IH]; simpl; [done|].
  intros [Hn Hnd]%NoDup_cons. destruct (decide (s = s0)) as [->|Hne].
  - intros [= ->]. rewrite jm_delete_cons_eq, jm_delete_absent by by apply jm_get_None.
    destruct (decide (terminalTabId r = tab)).
    + rewrite (filter_cons_True _ (s0, r)) by done. simpl. lia.
    + rewrite (filter_cons_False _ (s0, r)) by done. lia.
  - intros Hg. rewrite jm_delete_cons_ne by congruence. specialize (IH Hnd Hg).
    destruct (decide (terminalTabId r0 = tab)).
    + rewrite !(filter_cons_True _ (s0, r0)) by done. simpl. lia.
    + rewrite !(filter_cons_False _ (s0, r0)) by done. lia.
Qed.

Lemma tab_count_nonneg tab m : 0 <= tab_count tab m.
Proof. unfold tab_count. lia. Qed.
End counts.

Lemma prune_get id id' rs (m : list (jsstr * list Registration)) :
  jm_get id' (prune_session id (jm_set id rs m)) =
  if decide (id' = id) then match rs with [] => None | _ => Some rs end
  else jm_get id' m.
Proof.
  unfold prune_session. rewrite jm_get_set_eq.
  destruct rs; rewrite ?jm_get_delete, jm_get_set; by repeat case_decide.
Qed.
Lemma prune_wf id m : jm_wf m → jm_wf (prune_session id m).
Proof. unfold prune_session. intros. repeat case_match; eauto with jsmap. Qed.
Lemma prune_length id m : (length (prune_session id m) <= length m)%nat.
Proof. unfold prune_session. repeat case_match; try done. apply jm_length_delete_le. Qed.
#[export] Hint Resolve prune_wf : jsmap.

(** The lookups after an [unregister]. *)
Section unregister_facts.
Context (o : IndexOptions) (gap : jsstr → Prop).
Implicit Types (c : index) (s : socket_id) (r : Registration).

Lemma unregister_index_absent s c : jm_get s (bySocket c) = None → unregister_index s c = c.
Proof. intros Hn. unfold unregister_index. by rewrite Hn. Qed.

Lemma unregister_bySocket s c : bySocket (unregister_index s c) = jm_delete s (bySocket c).
Proof.
  unfold unregister_index. destruct (jm_get s (bySocket c)) eqn:Hg; [done|].
  by rewrite jm_delete_absent.
Qed.

Lemma unregister_session s c r id :
  index_ok o gap c → jm_get s (bySocket c) = Some r →
  jm_get id (bySession (unregister_index s c)) =
  if decide (id = session_of r)
  then match filter (λ r', r' ≠ r) (default [] (jm_get id (bySession c))) with
       | [] => None | rs => Some rs end
  else jm_get id (bySession c).
Proof.
  intros Hok Hg. unfold unregister_index. rewrite Hg. simpl.
  destruct (ok_listed _ _ _ Hok s r Hg) as [rs Hrs]. rewrite Hrs, prune_get.
  case_decide as Hid; [|done]. subst id. rewrite Hrs. simpl. by destruct (filter _ rs).
Qed.

Lemma unregister_members s c r id rs :
  index_ok o gap c → jm_get s (bySocket c) = Some r →
  jm_get id (bySession (unregister_index s c)) = Some rs →
  NoDup rs ∧ ∀ r', r' ∈ rs ↔
    jm_get (reg_socket r') (jm_delete s (bySocket c)) = Some r' ∧ session_of r' = id.
Proof.
  intros Hok Hg. rewrite (unregister_session s c r id Hok Hg).
  pose proof (ok_keys _ _ _ Hok s r Hg) as Hs.
  case_decide as Hid.
  - destruct (ok_listed _ _ _ Hok s r Hg) as [rs0 Hrs0]. subst id. rewrite Hrs0. simpl.
    intros Hf. assert (rs = filter (λ r', r' ≠ r) rs0) as -> by (by case_match; simplify_eq).
    destruct (ok_members _ _ _ Hok _ _ Hrs0) as [Hnd Hin].
    split; [by apply NoDup_filter|]. intros r'. rewrite list_elem_of_filter, Hin.
    rewrite jm_get_delete. case_decide as Heq.
    + split; [|by intros [? _]]. intros (Hne & Hr' & _). subst s. congruence.
    + split; [tauto|]. intros [? ?]. split; [|done]. congruence.
  - intros Hrs. destruct (ok_members _ _ _ Hok _ _ Hrs) as [Hnd Hin].
    split; [done|]. intros r'. rewrite Hin, jm_get_delete.
    case_decide as Heq; [|done]. split; [|by intros [? _]].
    intros [Hr' Hid']. subst s. congruence.
Qed.

Lemma unregister_counts s c r tab :
  index_ok o gap c → jm_get s (bySocket c) = Some r →
  countForTab tab (unregister_index s c) = tab_count tab (jm_delete s (bySocket c)) ∧
  jm_wf (tabCounts (unregister_index s c)) ∧
  (∀ n, jm_get tab (tabCounts (unregister_index s c)) = Some n → 0 < n).
Proof.
  intros Hok Hg.
  pose proof (tab_count_delete (terminalTabId r) s r _ (ok_sockets _ _ _ Hok) Hg) as Hr.
  rewrite decide_True in Hr by done.
  pose proof (tab_count_delete tab s r _ (ok_sockets _ _ _ Hok) Hg) as Ht.
  pose proof (ok_count _ _ _ Hok tab) as Hc.
  pose proof (ok_count _ _ _ Hok (terminalTabId r)) as Hcr.
  pose proof (tab_count_nonneg (terminalTabId r) (jm_delete s (bySocket c))).
  unfold unregister_index, countForTab in *. rewrite Hg. simpl.
  destruct (jm_get (terminalTabId r) (tabCounts c)) as [n|] eqn:Hn; simpl in Hcr; [|lia].
  simpl. destruct (Z.eqb_spec (n - 1) 0).
  - rewrite jm_get_delete. split_and!; [|eauto using ok_counts with jsmap|].
    + repeat case_decide; simplify_eq; simpl; lia.
    + intros n'. destruct (decide (tab = _)); [done|]. by apply (ok_positive _ _ _ Hok).
  - rewrite jm_get_set. split_and!; [|eauto using ok_counts with jsmap|].
    + repeat case_decide; simplify_eq; simpl; lia.
    + intros n'. destruct (decide (tab = _)); [|by apply (ok_positive _ _ _ Hok)].
      intros [= <-]. pose proof (ok_positive _ _ _ Hok _ _ Hn). lia.
Qed.

Lemma unregister_index_ok s c : index_ok o gap c → index_ok o gap (unregister_index s c).
Proof.
  intros Hok. destruct (jm_get s (bySocket c)) as [r|] eqn:Hg;
    [|by rewrite unregister_index_absent].
  assert (∀ s' r', jm_get s' (jm_delete s (bySocket c)) = Some r' →
    s' ≠ s ∧ jm_get s' (bySocket c) = Some r') as Hdel.
  { intros s' r'. rewrite jm_get_delete. by case_decide. }
  split; rewrite ?unregister_bySocket.
  - by apply jm_delete_wf, (ok_sockets _ _ _ Hok).
  - intros s' r' [_ ?]%Hdel. by apply (ok_keys _ _ _ Hok).
  - unfold unregister_index. rewrite Hg. simpl.
    pose proof (ok_sessions _ _ _ Hok). case_match; eauto with jsmap.
  - intros id rs Hrs. by eapply unregister_members.
  - intros s' r' [Hne Hr']%Hdel. rewrite (unregister_session s c r _ Hok Hg).
    destruct (ok_listed _ _ _ Hok _ _ Hr') as [rs Hrs].
    case_decide as Heq; [|by eexists]. rewrite Hrs. simpl.
    destruct (ok_members _ _ _ Hok _ _ Hrs) as [_ Hin].
    assert (r' ∈ filter (λ x, x ≠ r) rs) as Hf.
    { apply list_elem_of_filter. split.
      - intros ->. apply Hne. by rewrite <-(ok_keys _ _ _ Hok _ _ Hg), <-(ok_keys _ _ _ Hok _ _ Hr').
      - apply Hin. split; [|done]. by rewrite (ok_keys _ _ _ Hok _ _ Hr'). }
    destruct (filter _ rs); [set_solver|by eexists].
  - intros id. rewrite (unregister_session s c r _ Hok Hg).
    case_decide; [by case_match|apply (ok_nonempty _ _ _ Hok)].
  - intros s1 s2 r1 r2 [_ H1]%Hdel [_ H2]%Hdel. by eapply (ok_one_generation _ _ _ Hok).
  - by eapply (unregister_counts s c r (terminalTabId r)).
  - intros tab. by eapply unregister_counts.
  - intros tab. by eapply unregister_counts.
  - pose proof (jm_length_delete_le s (bySocket c)).
    pose proof (ok_max_sockets _ _ _ Hok). lia.
  - pose proof (ok_max_sessions _ _ _ Hok) as Hm. unfold unregister_index. rewrite Hg. simpl.
    destruct (ok_listed _ _ _ Hok s r Hg) as [rs Hrs]. rewrite Hrs.
    pose proof (prune_length (session_of r)
      (jm_set (session_of r) (filter (λ r', r' ≠ r) rs) (bySession c))) as Hp.
    rewrite jm_length_set, decide_True in Hp by (apply jm_get_is_Some; by eexists). lia.
  - unfold unregister_index. rewrite Hg. apply count_advance_ok, (ok_generations _ _ _ Hok).
Qed.

Definition unregister_all (ss : list socket_id) c : index :=
  foldl (λ c s, unregister_index s c) c ss.

Lemma unregister_all_ok ss c : index_ok o gap c → index_ok o gap (unregister_all ss c).
Proof.
  revert c. induction ss as [|s ss IH]; intros c Hok; [done|].
  apply IH. by apply unregister_index_ok.
Qed.

Lemma unregister_all_get ss c s :
  jm_get s (bySocket (unregister_all ss c)) =
  if decide (s ∈ ss) then None else jm_get s (bySocket c).
Proof.
  revert c. induction ss as [|s' ss IH]; intros c; [done|]. simpl.
  unfold unregister_all in *. simpl. rewrite IH, unregister_bySocket, jm_get_delete.
  repeat case_decide; set_solver.
Qed.
End unregister_facts.

(** * Registration *)

Section register_facts.
Context (o : IndexOptions).
Implicit Types (c : index) (s : socket_id) (r : Registration).

(** What the guards of [registerIfActive] establish before the maps are
    updated. *)
Record registrable c r : Prop := {
  reg_fresh : jm_get (reg_socket r) (bySocket c) = None;
  reg_room : Z.of_nat (length (bySocket c)) < maxSockets o;
  reg_listed : is_Some (jm_get (session_of r) (bySession c));
  reg_same_generation : ∀ s' r', jm_get s' (bySocket c) = Some r' →
    session_of r' = session_of r →
    auth_generation (authority r') = auth_generation (authority r);
}.

Definition at_session (id : jsstr) : jsstr → Prop := λ id', id' = id.

Lemma register_members c r id rs :
  index_ok o (at_session (session_of r)) c → registrable c r →
  jm_get id (bySession (register_index r c)) = Some rs →
  NoDup rs ∧ rs ≠ [] ∧ ∀ r', r' ∈ rs ↔
    jm_get (reg_socket r') (jm_set (reg_socket r) r (bySocket c)) = Some r' ∧ session_of r' = id.
Proof.
  intros Hok Hreg. simpl. rewrite jm_get_set. destruct (reg_listed _ _ Hreg) as [rs0 Hrs0].
  assert (∀ r' id', r' ≠ r → (jm_get (reg_socket r') (bySocket c) = Some r' ∧ session_of r' = id' ↔
    jm_get (reg_socket r') (jm_set (reg_socket r) r (bySocket c)) = Some r' ∧ session_of r' = id'))
    as Hother.
  { intros r' id' Hne. rewrite jm_get_set. destruct (decide _) as [Heq|]; [|done].
    rewrite Heq, (reg_fresh _ _ Hreg). naive_solver. }
  case_decide as Hid.
  - subst id. rewrite Hrs0. simpl. intros [= <-].
    destruct (ok_members _ _ _ Hok _ _ Hrs0) as [Hnd Hin].
    assert (r ∉ rs0) as Hr by (intros [Hb _]%Hin; by rewrite (reg_fresh _ _ Hreg) in Hb).
    split_and!; [|by destruct rs0|].
    + apply NoDup_app. split_and!; [done|set_solver|apply NoDup_singleton].
    + intros r'. rewrite elem_of_app, list_elem_of_singleton.
      destruct (decide (r' = r)) as [->|Hne].
      * rewrite jm_get_set_eq. tauto.
      * rewrite Hin, (Hother r' _ Hne). tauto.
  - intros Hrs. destruct (ok_members _ _ _ Hok _ _ Hrs) as [Hnd Hin].
    split_and!; [done| |].
    + intros ->. by apply (ok_nonempty _ _ _ Hok) in Hrs.
    + intros r'. rewrite Hin. destruct (decide (r' = r)) as [->|Hne].
      * rewrite jm_get_set_eq, (reg_fresh _ _ Hreg). naive_solver.
      * by apply Hother.
Qed.

Lemma register_counts c r tab gap :
  index_ok o gap c → jm_get (reg_socket r) (bySocket c) = None →
  countForTab tab (register_index r c) =
    tab_count tab (jm_set (reg_socket r) r (bySocket c)) ∧
  (∀ n, jm_get tab (tabCounts (register_index r c)) = Some n → 0 < n).
Proof.
  intros Hok Hn. rewrite tab_count_set_absent by done.
  pose proof (ok_count _ _ _ Hok tab) as Hc.
  pose proof (ok_count _ _ _ Hok (terminalTabId r)) as Hcr.
  pose proof (tab_count_nonneg (terminalTabId r) (bySocket c)).
  pose proof (ok_positive _ _ _ Hok tab) as Hp.
  unfold countForTab in *. simpl. rewrite jm_get_set.
  destruct (decide (tab = terminalTabId r)) as [->|Hne].
  - rewrite decide_True by done. simpl. split; [lia|]. intros n [= <-]. lia.
  - rewrite decide_False by congruence. split; [lia|done].
Qed.

Lemma register_index_ok c r :
  index_ok o (at_session (session_of r)) c → registrable c r →
  index_ok o no_gap (register_index r c).
Proof.
  intros Hok Hreg.
  assert (∀ s' r', jm_get s' (bySocket (register_index r c)) = Some r' →
    (s' = reg_socket r ∧ r' = r) ∨ jm_get s' (bySocket c) = Some r') as Hget.
  { intros s' r'. simpl. rewrite jm_get_set. case_decide; naive_solver. }
  split.
  - apply jm_set_wf, (ok_sockets _ _ _ Hok).
  - intros s' r' [[-> ->]|?]%Hget; [done|]. by apply (ok_keys _ _ _ Hok).
  - apply jm_set_wf, (ok_sessions _ _ _ Hok).
  - intros id rs Hrs. destruct (register_members c r id rs Hok Hreg Hrs) as (?&_&?). done.
  - intros s' r' Hr'. simpl. rewrite jm_get_set. case_decide as Hid; [by eexists|].
    apply Hget in Hr' as [[-> ->]|?]; [done|]. by eapply (ok_listed _ _ _ Hok).
  - intros id Hnil. by destruct (register_members c r id [] Hok Hreg Hnil) as (_&?&_).
  - pose proof (reg_same_generation _ _ Hreg) as Hs.
    intros s1 s2 r1 r2 [[-> ->]|H1]%Hget [[-> ->]|H2]%Hget Heq; [done|..].
    + symmetry. by eapply Hs.
    + by eapply Hs.
    + by eapply (ok_one_generation _ _ _ Hok).
  - apply jm_set_wf, (ok_counts _ _ _ Hok).
  - intros tab. by apply (register_counts c r tab _ Hok (reg_fresh _ _ Hreg)).
  - intros tab. by apply (register_counts c r tab _ Hok (reg_fresh _ _ Hreg)).
  - simpl. rewrite jm_length_set. pose proof (reg_room _ _ Hreg).
    pose proof (reg_fresh _ _ Hreg) as Hf. apply jm_get_None in Hf.
    rewrite decide_False by done. lia.
  - simpl. rewrite jm_length_set. rewrite decide_True; [apply (ok_max_sessions _ _ _ Hok)|].
    apply jm_get_is_Some, (reg_listed _ _ Hreg).
  - apply count_advance_ok, (ok_generations _ _ _ Hok).
Qed.

(** Only the session map differs. *)
Definition same_sockets c c' : Prop :=
  bySocket c' = bySocket c ∧ tabCounts c' = tabCounts c ∧
  disposed c' = disposed c ∧ generations c' = generations c.

#[export] Instance same_sockets_equivalence : Equivalence same_sockets.
Proof.
  unfold same_sockets. split; [done| |]; hnf; naive_solver congruence.
Qed.

Lemma unregister_same_sockets s c c' :
  same_sockets c c' → same_sockets (unregister_index s c) (unregister_index s c').
Proof.
  intros (Hb & Ht & Hd & Hg). unfold unregister_index. rewrite Hb.
  destruct (jm_get s (bySocket c)); [|done].
  unfold same_sockets. simpl. by rewrite Ht, Hd, Hg.
Qed.
Lemma unregister_all_same_sockets ss c c' :
  same_sockets c c' → same_sockets (unregister_all ss c) (unregister_all ss c').
Proof.
  revert c c'. induction ss as [|s ss IH]; intros c c' Hs; [done|].
  apply IH. by apply unregister_same_sockets.
Qed.

Lemma session_slot_ok a c c' :
  index_ok o no_gap c → session_slot o a c = Some c' →
  index_ok o (at_session (applicationSessionId a)) c' ∧ same_sockets c c' ∧
  is_Some (jm_get (applicationSessionId a) (bySession c')) ∧
  ∀ s r, jm_get s (bySocket c) = Some r → session_of r = applicationSessionId a →
    auth_generation (authority r) = auth_generation a.
Proof.
  intros Hok. unfold session_slot.
  destruct (jm_get (applicationSessionId a) (bySession c)) as [[|e rs]|] eqn:Hg.
  - done.
  - destruct (Z.eqb_spec (auth_generation (authority e)) (auth_generation a)) as [Heq|]; [|done].
    intros [= <-]. split_and!; [|done|by eexists|].
    + destruct Hok. split; try done. intros id Hn. by apply ok_nonempty0 in Hn.
    + intros s r Hr Hid. rewrite <-Heq.
      destruct (ok_members _ _ _ Hok _ _ Hg) as [_ Hin].
      assert (e ∈ e :: rs) as [He Hide]%Hin by left.
      eapply (ok_one_generation _ _ _ Hok); [done|done|congruence].
  - case (Z.leb_spec _ _); intros Hlt; [done|]. intros [= <-].
    assert (∀ s r, jm_get s (bySocket c) = Some r → session_of r ≠ applicationSessionId a) as Hno.
    { intros s r Hr Hid. destruct (ok_listed _ _ _ Hok s r Hr) as [rs Hrs]. congruence. }
    split_and!; [|done|simpl; by rewrite jm_get_set_eq; eexists|intros s r Hr Hid; by destruct (Hno s r Hr Hid)].
    destruct Hok. split; try done; simpl.
    + by apply jm_set_wf.
    + intros id rs. rewrite jm_get_set. case_decide as Hid; [|apply ok_members0].
      intros [= <-]. split; [by apply NoDup_nil|]. intros r. split; [set_solver|].
      intros [Hr ?]. destruct (Hno _ _ Hr). congruence.
    + intros s r Hr. rewrite jm_get_set. case_decide; [by eexists|]. by eapply ok_listed0.
    + intros id. rewrite jm_get_set. case_decide; [done|]. intros Hn. by apply ok_nonempty0 in Hn.
    + rewrite jm_length_set. case_decide; lia.
Qed.

(** Pruning the slot of an abandoned registration. *)
Lemma prune_ok id c :
  index_ok o (at_session id) c →
  index_ok o no_gap (set_bySession (prune_session id (bySession c)) c).
Proof.
  intros Hok. assert (∀ id', jm_get id' (prune_session id (bySession c)) =
    match jm_get id' (bySession c) with Some [] => if decide (id' = id) then None else Some []
    | x => x end) as Hget.
  { intros id'. unfold prune_session. destruct (jm_get id (bySession c)) as [[|e rs]|] eqn:Hg;
      rewrite ?jm_get_delete; destruct (decide (id' = id)) as [->|]; rewrite ?Hg; try done;
      by destruct (jm_get id' (bySession c)) as [[|]|]. }
  destruct Hok. split; try done; simpl.
  - by apply prune_wf.
  - intros id' rs. rewrite Hget. intros Hrs. apply ok_members0.
    by repeat case_match; simplify_eq.
  - intros s r Hr. rewrite Hget. destruct (ok_listed0 _ _ Hr) as [[|e rs] Hrs]; rewrite Hrs; [|by eexists].
    destruct (ok_members0 _ _ Hrs) as [_ Hin].
    assert (r ∈ []) as Habs by (apply Hin; split; [by rewrite (ok_keys0 _ _ Hr)|done]).
    set_solver.
  - intros id'. rewrite Hget. destruct (jm_get id' (bySession c)) as [[|e rs]|] eqn:Hn; try done.
    case_decide as Hid; [done|]. by apply ok_nonempty0 in Hn.
  - pose proof (prune_length id (bySession c)). lia.
Qed.
End register_facts.

(** * The environment

    What the sockets and the auth source may do to the index while they are
    called: nothing, except that a revocation unregisters sockets from inside
    [sweepExpired] or a negative [isActive].  Reading [readyState] does not
    throw. *)

Definition quiet_answer (e : ev) : res unit (resp e) → Prop :=
  match e with
  | IsActive _ => λ r, r = Ok true
  | SweepAuth => λ _, False
  | _ => λ _, True
  end.

Class SocketEnv {W} (h : @handler index W ev unit resp) : Prop := {
  env_reentrant : ∀ e c w r c' w', h e c w = (r, (c', w')) →
    ∃ ss, c' = unregister_all ss c ∧ (quiet_answer e r → ss = []);
  env_readable : ∀ s c w, ∃ b, (h (ReadyState s) c w).1 = Ok b;
}.

Section rules.
Context {W : Type} (h : @handler index W ev unit resp) `{!SocketEnv h} (o : IndexOptions).
Implicit Types (s : sys index W ev).

Definition revoked s s' : Prop := ∃ ss, comp s' = unregister_all ss (comp s).

#[export] Instance revoked_preorder : PreOrder revoked.
Proof.
  split; [intros s; by exists []|]. intros s1 s2 s3 [ss1 H1] [ss2 H2].
  exists (ss1 ++ ss2). rewrite H2, H1. unfold unregister_all. by rewrite foldl_app.
Qed.

Lemma revoked_same s s' : comp s' = comp s → revoked s s'.
Proof. exists []. done. Qed.

Lemma wp_ask e (Q : res unit (resp e) → sys index W ev → Prop) s :
  (∀ r s', revoked s s' → (quiet_answer e r → comp s' = comp s) →
     (∀ k, e = ReadyState k → is_ok r = true) → Q r s') →
  wp (ask h e) Q s.
Proof.
  intros HQ. apply wp_call. intros r c w Hh.
  destruct (env_reentrant _ _ _ _ _ _ Hh) as (ss & Hc & Hn). apply HQ.
  - by exists ss.
  - intros Ha. by rewrite Hn in Hc.
  - intros k ->. destruct (env_readable k (comp s) (world s)) as [b Hb].
    rewrite Hh in Hb. simpl in Hb. by rewrite Hb.
Qed.

Lemma wp_ready k (Q : res unit bool → sys index W ev → Prop) s :
  (∀ b s', comp s' = comp s → Q (Ok b) s') → wp (ask h (ReadyState k)) Q s.
Proof.
  intros HQ. apply (wp_ask (ReadyState k)). intros r s' _ Hq Hok.
  specialize (Hok k eq_refl). destruct r as [b|]; [|done]. apply HQ. by apply Hq.
Qed.

(** A call without a result whose failure is ignored. *)
Lemma wp_attempt_ask (m : M (sys index W ev) unit unit) Q s :
  wp m (λ _ s', comp s' = comp s) s →
  (∀ s', comp s' = comp s → Q (Ok tt) s') → wp (attempt_call m) Q s.
Proof.
  intros Hm HQ. unfold attempt_call. apply wp_catch. eapply wp_mono; [exact Hm|].
  intros [[]|e'] s' ?; [by apply HQ|by wp_step; apply HQ].
Qed.

(** The last call answered that [a] is active. *)
Definition confirmed (a : ApplicationSessionAuthority) (s' : sys index W ev) : Prop :=
  last (log s') = Some (IsActive a, true) ∧
  ∃ c w c', h (IsActive a) c w = (Ok true, (c', world s')).

Lemma wp_is_active a (Q : res unit bool → sys index W ev → Prop) s :
  (∀ b s', revoked s s' → (b = true → comp s' = comp s ∧ confirmed a s') → Q (Ok b) s') →
  wp (is_active h a) Q s.
Proof.
  intros HQ. unfold is_active, ask. apply wp_catch. apply (wp_call resp h (IsActive a)). intros r c w Hh.
  destruct (env_reentrant _ _ _ _ _ _ Hh) as (ss & Hc & Hn).
  assert (revoked s (Sys c w (log s ++ [(IsActive a, is_ok r)]))) as Hrev by by exists ss.
  destruct r as [b|e].
  - apply HQ; [done|]. intros ->. split; [by rewrite Hn in Hc|].
    split; [simpl; by rewrite last_snoc|]. by eexists _, _, _.
  - wp_step. by apply HQ.
Qed.

Lemma wp_disposeAll k ls s :
  wp (disposeAll h k ls) (λ r s', r = Ok tt ∧ comp s' = comp s) s.
Proof.
  unfold disposeAll. revert s. induction ls as [|l ls IH]; intros s; simpl; [by wp_step|].
  wp_step. apply wp_attempt_ask.
  - apply (wp_ask (Dispose k l)). intros r s' _ Hq _. by apply Hq.
  - intros s1 H1. eapply wp_mono; [apply IH|]. intros r s2 [-> H2]. split; [done|]. congruence.
Qed.

Lemma wp_unregister k s :
  wp (unregister h k) (λ r s', r = Ok tt ∧ comp s' = unregister_index k (comp s)) s.
Proof.
  unfold unregister. wp_step. apply wp_own.
  destruct (jm_get k (bySocket (comp s))) as [r|] eqn:Hg.
  - wp_step. apply wp_set_own. eapply wp_mono; [apply wp_disposeAll|].
    by intros r' s' [-> ->].
  - wp_step. split; [done|]. by rewrite unregister_index_absent.
Qed.

Lemma wp_secure k s :
  wp (secureAuthenticationClosure h k) (λ r s', is_ok r = true ∧ comp s' = comp s) s.
Proof.
  unfold secureAuthenticationClosure.
  wp_step. apply wp_ready. intros b s1 H1. wp_step; [by wp_step|].
  wp_step. apply wp_attempt_ask.
  { apply (wp_ask (CloseSocket k _)). intros r s' _ Hq _. by apply Hq. }
  intros s2 H2. wp_step. apply wp_ready. intros b2 s3 H3. wp_step; [wp_step; split; [done|congruence]|].
  wp_step. apply wp_attempt_ask.
  { apply (wp_ask (TerminateSocket k)). intros r s' _ Hq _. by apply Hq. }
  intros s4 H4. wp_step. apply wp_ready. intros b3 s5 H5. wp_step. split; [done|congruence].
Qed.

Lemma wp_closeAuthenticationRequired k s :
  wp (closeAuthenticationRequired h k)
     (λ r s', ∃ b : bool, r = Ok b ∧
        comp s' = if b then unregister_index k (comp s) else comp s) s.
Proof.
  unfold closeAuthenticationRequired. wp_step. eapply wp_mono; [apply wp_secure|].
  intros [[|]|e] s1 [Hok H1]; [| |done].
  - wp_step. eapply wp_mono; [apply wp_unregister|]. intros r s2 [-> H2].
    wp_step. exists true. by rewrite H2, H1.
  - wp_step. by exists false.
Qed.

Lemma close_revoked k s s' (b : bool) :
  comp s' = (if b then unregister_index k (comp s) else comp s) → revoked s s'.
Proof. destruct b; [by exists [k]|by exists []]. Qed.

Lemma wp_close_ignoring k s :
  wp (let! _b := closeAuthenticationRequired h k in ret tt)
     (λ r s', r = Ok tt ∧ revoked s s') s.
Proof.
  wp_step. eapply wp_mono; [apply wp_closeAuthenticationRequired|].
  intros r s1 (b & -> & H1). wp_step. split; [done|]. by eapply close_revoked.
Qed.

Lemma wp_close_each ks s :
  wp (close_each h ks) (λ r s', r = Ok tt ∧ revoked s s') s.
Proof. apply (wp_each revoked). intros k s'. apply wp_close_ignoring. Qed.

Lemma wp_closeSession id s :
  wp (closeSession h id) (λ r s', r = Ok tt ∧ revoked s s') s.
Proof. unfold closeSession. wp_step. apply wp_own. apply wp_close_each. Qed.

Lemma wp_sweepExpired s :
  wp (sweepExpired h) (λ r s', r = Ok tt ∧ revoked s s') s.
Proof.
  unfold sweepExpired. wp_step. unfold attempt_call. apply wp_catch.
  apply (wp_ask SweepAuth). intros r0 s1 H1 _ _.
  assert (∀ s1, revoked s s1 → wp (let! rs := own (λ c, (bySocket c).*2) in
    each rs (λ r, let! act := is_active h (authority r) in
      if act then ret tt
      else let! _b := closeAuthenticationRequired h (reg_socket r) in ret tt))
    (λ r s', r = Ok tt ∧ revoked s s') s1) as Hbody.
  { intros s2 H2. wp_step. apply wp_own. eapply wp_mono; [apply (wp_each revoked)|].
    - intros r s3. wp_step. apply wp_is_active. intros [|] s4 H4 _; [by wp_step|].
      eapply wp_mono; [apply wp_close_ignoring|]. intros r' s5 [-> H5]. split; [done|]. by etrans.
    - intros r s3 [-> H3]. split; [done|]. by etrans. }
  destruct r0 as [[]|e]; [by apply Hbody|]. wp_step. by apply Hbody.
Qed.

Lemma wp_dispose s :
  wp (dispose h) (λ r s', r = Ok tt ∧
    (disposed (comp s) = true ∧ comp s' = comp s ∨
     ∃ ss, comp s' = unregister_all ss (set_disposed (comp s)))) s.
Proof.
  unfold dispose. wp_step. apply wp_own. wp_step; [wp_step; by auto|].
  wp_step. apply wp_set_own. wp_step. apply wp_attempt_ask.
  { apply (wp_ask Unsubscribe). intros r s' _ Hq _. by apply Hq. }
  intros s1 H1. wp_step. apply wp_own. eapply wp_mono; [apply wp_close_each|].
  intros r s2 [-> [ss H2]]. split; [done|]. right. exists ss. by rewrite H2, H1.
Qed.
End rules.

Section registration.
Context {W : Type} (h : @handler index W ev unit resp) `{!SocketEnv h} (o : IndexOptions).
Implicit Types (s : sys index W ev).

Definition registration_of (a : ApplicationSessionAuthority) (tab : jsstr) (k : socket_id)
    : Registration :=
  {| authority := a; terminalTabId := tab; reg_socket := k;
     disposables := [Close_listener; Error_listener] |}.

Definition register_post a tab k s (r : res unit bool) s' : Prop :=
  match r with
  | Ok true => ∃ c1,
      disposed (comp s) = false ∧ refuses o k (comp s) = false ∧
      session_slot o a (comp s) = Some c1 ∧
      comp s' = register_index (registration_of a tab k) c1 ∧ confirmed h a s'
  | Ok false => (∃ ss, same_sockets (unregister_all ss (comp s)) (comp s')) ∧
      index_ok o no_gap (comp s')
  | Throw _ => False
  end.

Lemma refused_post a tab k s s' :
  index_ok o no_gap (comp s) → revoked s s' → register_post a tab k s (Ok false) s'.
Proof.
  intros Hok [ss Hs]. split; [by exists ss; rewrite Hs|]. rewrite Hs. by apply unregister_all_ok.
Qed.

(** Leaving [registerIfActive] after the slot was taken. *)
Lemma wp_abandon r c1 a tab k s0 s :
  session_of r = applicationSessionId a → index_ok o no_gap (comp s0) →
  session_slot o a (comp s0) = Some c1 →
  (∃ ss, comp s = unregister_all ss c1) →
  wp (abandon h r) (register_post a tab k s0) s.
Proof.
  intros Hr Hok Hslot [ss Hs]. destruct (session_slot_ok o a _ _ Hok Hslot) as (Hok1 & Hsame & _).
  unfold abandon. wp_step. eapply wp_mono; [by apply wp_disposeAll|]. intros r' s1 [-> H1].
  wp_step. apply wp_set_own. wp_step. rewrite H1, Hs, Hr. split.
  - exists ss. simpl. etrans; [by apply unregister_all_same_sockets|]. done.
  - apply prune_ok. by apply unregister_all_ok.
Qed.

Lemma wp_registerIfActive a tab k s :
  index_ok o no_gap (comp s) → wp (registerIfActive h o a tab k) (register_post a tab k s) s.
Proof.
  intros Hok. unfold registerIfActive.
  assert (∀ s', comp s' = comp s → register_post a tab k s (Ok false) s') as Hsame.
  { intros s' Hs. by apply refused_post, revoked_same. }
  wp_step. apply wp_own. wp_step; [by wp_step; apply Hsame|].
  wp_step. apply wp_ready; [done|]. intros b s1 K1. wp_step; [by wp_step; apply Hsame|].
  wp_step. apply wp_own. wp_step; [by wp_step; apply Hsame|].
  wp_step. apply wp_is_active; [done|]. intros b2 s2 K2 Hb2. destruct b2; simpl;
    [|wp_step; apply refused_post; [done|]; etrans; [by apply revoked_same|done]].
  destruct (Hb2 eq_refl) as [K2' _]. wp_step. apply wp_own. rewrite K2', K1.
  destruct (session_slot o a (comp s)) as [c1|] eqn:Hslot; [|wp_step; apply Hsame; congruence].
  wp_step. apply wp_set_own. wp_step. wp_step. wp_step.
  assert (∀ s3, comp s3 = c1 → ∃ ss, comp s3 = unregister_all ss c1) as Hat
    by (intros s3 ?; by exists []).
  apply (wp_ask _ (OnClose k)). intros r3 s3 _ Hq3 _. specialize (Hq3 I). simpl in Hq3.
  destruct r3 as [[]|e3]; [|wp_step; simpl; eapply wp_abandon; eauto].
  wp_step. apply (wp_ask _ (OnError k)). intros r4 s4 _ Hq4 _. specialize (Hq4 I).
  destruct r4 as [[]|e4]; [|wp_step; simpl; eapply wp_abandon; eauto; apply Hat; congruence].
  wp_step. simpl. wp_step. apply wp_ready; [done|]. intros b5 s5 K5. destruct b5; simpl;
    [|eapply wp_abandon; eauto; apply Hat; congruence].
  wp_step. apply wp_is_active; [done|]. intros b6 s6 K6 Hb6. destruct b6; simpl.
  - destruct (Hb6 eq_refl) as [K6' Hconf]. wp_step. apply wp_set_own. wp_step.
    exists c1. unfold id in *. split_and!; [congruence..|done| |exact Hconf].
    simpl. f_equal. congruence.
  - destruct K6 as [ss Hss]. eapply wp_abandon; eauto.
    exists ss. rewrite Hss. f_equal. congruence.
Qed.
End registration.

(** * Theorems *)

Inductive op :=
| Op_register (a : ApplicationSessionAuthority) (tab : jsstr) (s : socket_id)
| Op_unregister (s : socket_id)       (** also the socket's own listeners *)
| Op_closeSession (id : jsstr)        (** also the revocation listener *)
| Op_closeAuthenticationRequired (s : socket_id)
| Op_sweepExpired
| Op_dispose.

Section theorems.
Context {W : Type} (h : @handler index W ev unit resp) (o : IndexOptions).
Implicit Types (s : sys index W ev).

Definition run_op (p : op) s : sys index W ev :=
  match p with
  | Op_register a tab k => (registerIfActive h o a tab k s).2
  | Op_unregister k => (unregister h k s).2
  | Op_closeSession id => (closeSession h id s).2
  | Op_closeAuthenticationRequired k => (closeAuthenticationRequired h k s).2
  | Op_sweepExpired => (sweepExpired h s).2
  | Op_dispose => (dispose h s).2
  end.

Definition run_ops (ps : list op) s : sys index W ev := foldl (λ s p, run_op p s) s ps.

Lemma revoked_ok s s' :
  index_ok o no_gap (comp s) → revoked s s' → index_ok o no_gap (comp s').
Proof. intros Hok [ss ->]. by apply unregister_all_ok. Qed.

Lemma set_disposed_ok c : index_ok o no_gap c → index_ok o no_gap (set_disposed c).
Proof. intros []. by split. Qed.

Lemma run_op_ok `{!SocketEnv h} p s :
  index_ok o no_gap (comp s) → index_ok o no_gap (comp (run_op p s)).
Proof.
  intros Hok. destruct p as [a tab k|k|id|k| |]; simpl.
  - pose proof (wp_run _ _ _ (wp_registerIfActive h o a tab k s Hok)) as Hp.
    destruct (registerIfActive h o a tab k s) as [[[|]|e] s']; simpl in *; [|by apply Hp|done].
    destruct Hp as (c1 & Hd & Hr & Hslot & -> & _).
    destruct (session_slot_ok o a _ _ Hok Hslot) as (Hok1 & (Hb & _) & Hl & Hg).
    apply register_index_ok; [done|]. unfold refuses in Hr. breflect.
    split; simpl; rewrite ?Hb; try done.
    unfold jm_has in *. by destruct (jm_get k (bySocket (comp s))).
  - destruct (wp_run _ _ _ (wp_unregister h k s)) as [_ ->]. by apply unregister_index_ok.
  - eapply revoked_ok; [done|]. apply (wp_run _ _ _ (wp_closeSession h id s)).
  - destruct (wp_run _ _ _ (wp_closeAuthenticationRequired h k s)) as (b & _ & Hs).
    eapply revoked_ok; [done|]. by eapply close_revoked.
  - eapply revoked_ok; [done|]. apply (wp_run _ _ _ (wp_sweepExpired h s)).
  - destruct (wp_run _ _ _ (wp_dispose h s)) as [_ [[_ ->]|[ss ->]]]; [done|].
    by apply unregister_all_ok, set_disposed_ok.
Qed.

Lemma new_index_ok : valid_capacity o = true → index_ok o no_gap new_index.
Proof.
  unfold valid_capacity. intros Hv. breflect.
  split; simpl; try done; try apply NoDup_nil; try apply empty_count_ok; try done; try lia.
Qed.

Lemma run_ops_ok `{!SocketEnv h} ps s :
  index_ok o no_gap (comp s) → index_ok o no_gap (comp (run_ops ps s)).
Proof.
  revert s. induction ps as [|p ps IH]; intros s Hok; [done|].
  apply IH. by apply run_op_ok.
Qed.

(** C19: whatever operations run, in any order and with revocations arriving
    inside them, the three maps of the index agree: a socket is listed once,
    under exactly the session of its authority; no session is listed without a
    socket; the sockets of a session share one generation; each tab's count is
    the number of its sockets; and neither capacity is exceeded. *)
Theorem auth_index_consistent `{!SocketEnv h} (ps : list op) (w : W) :
  valid_capacity o = true →
  let c := comp (run_ops ps (Sys new_index w [])) in
  (∀ id rs, jm_get id (bySession c) = Some rs → rs ≠ [] ∧ NoDup rs ∧
     ∀ r, r ∈ rs ↔ jm_get (reg_socket r) (bySocket c) = Some r ∧ session_of r = id) ∧
  (∀ k r, jm_get k (bySocket c) = Some r → reg_socket r = k ∧
     is_Some (jm_get (session_of r) (bySession c))) ∧
  (∀ k k' r r', jm_get k (bySocket c) = Some r → jm_get k' (bySocket c) = Some r' →
     session_of r = session_of r' →
     auth_generation (authority r) = auth_generation (authority r')) ∧
  (∀ tab, countForTab tab c = tab_count tab (bySocket c)) ∧
  connectedCount c <= maxSockets o ∧
  Z.of_nat (length (bySession c)) <= maxApplicationSessions o ∧
  cleanupTrackingCount c <= MAX_CLEANUP_GENERATIONS.
Proof.
  intros Hv c. assert (index_ok o no_gap c) as Hok.
  { apply run_ops_ok. by apply new_index_ok. }
  split_and!.
  - intros id rs Hrs. split; [|by apply (ok_members _ _ _ Hok)].
    intros ->. by apply (ok_nonempty _ _ _ Hok) in Hrs.
  - intros k r Hr. split; [by apply (ok_keys _ _ _ Hok)|by eapply (ok_listed _ _ _ Hok)].
  - apply (ok_one_generation _ _ _ Hok).
  - apply (ok_count _ _ _ Hok).
  - apply (ok_max_sockets _ _ _ Hok).
  - apply (ok_max_sessions _ _ _ Hok).
  - exact (gt_bounded (T:=count_table) _ (ok_generations _ _ _ Hok)).
Qed.

(** [registerIfActive] answers true only if the guards held and its last
    act before entering the maps was a positive [isActive] of that very
    authority; it then adds exactly this socket, one to the tab's count, and
    moves the tab's cleanup generation. Otherwise the index holds nothing new:
    it differs at most by the sockets that revocations removed meanwhile. *)
Theorem register_only_active `{!SocketEnv h} a tab k s :
  index_ok o no_gap (comp s) →
  let (r, s') := registerIfActive h o a tab k s in
  match r with
  | Ok true => let c := comp s in let c' := comp s' in
      disposed c = false ∧ jm_get k (bySocket c) = None ∧
      confirmed h a s' ∧
      bySocket c' = bySocket c ++ [(k, registration_of a tab k)] ∧
      countForTab tab c' = countForTab tab c + 1 ∧
      sock_generation (cleanupSnapshot tab c) < sock_generation (cleanupSnapshot tab c')
  | Ok false => ∃ ss, same_sockets (unregister_all ss (comp s)) (comp s')
  | Throw _ => False
  end.
Proof.
  intros Hok. pose proof (wp_run _ _ _ (wp_registerIfActive h o a tab k s Hok)) as Hp.
  destruct (registerIfActive h o a tab k s) as [[[|]|e] s']; simpl in *; [|by apply Hp|done].
  destruct Hp as (c1 & Hd & Hr & Hslot & -> & Hc).
  destruct (session_slot_ok o a _ _ Hok Hslot) as (Hok1 & (Hb & Ht & _ & Hg) & _).
  unfold refuses, jm_has in Hr. breflect.
  destruct (jm_get k (bySocket (comp s))) eqn:Hk; [done|]. simpl.
  split_and!; try done.
  - rewrite Hb. by apply jm_set_absent.
  - unfold countForTab. simpl. by rewrite jm_get_set_eq, Ht.
  - rewrite Hg. exact (gt_advanced (T:=count_table) _ tab (ok_generations _ _ _ Hok)).
Qed.
End theorems.

(** ** The cleanup generation *)

(** [c] and [c'] have the same sockets for [tab]. *)
Definition same_tab (tab : jsstr) (c c' : index) : Prop :=
  ∀ k r, terminalTabId r = tab →
    (jm_get k (bySocket c') = Some r ↔ jm_get k (bySocket c) = Some r).

Definition visible (tab : jsstr) (c : index) : Z := sock_generation (cleanupSnapshot tab c).

(** A change of the index moves the generation of every tab it concerns. *)
Definition detected (tab : jsstr) (c c' : index) : Prop :=
  visible tab c <= visible tab c' ∧ (visible tab c = visible tab c' → same_tab tab c c').

Section detection.
Context (tab : jsstr).

Lemma detected_refl c : detected tab c c.
Proof. split; [lia|done]. Qed.
Lemma detected_trans c1 c2 c3 :
  detected tab c1 c2 → detected tab c2 c3 → detected tab c1 c3.
Proof.
  intros [H1 H2] [H3 H4]. split; [lia|]. intros Heq k r Hr.
  rewrite (H4 ltac:(lia) k r Hr). by apply H2; [lia|].
Qed.
#[export] Instance detected_preorder : PreOrder (detected tab).
Proof. split; [exact detected_refl|exact detected_trans]. Qed.

(** An update that advances the generation of [t] and changes only a socket
    of [t]. *)
Lemma detected_advance t c c' :
  count_ok (generations c) → generations c' = count_advance t (generations c) →
  (tab ≠ t → same_tab tab c c') → detected tab c c'.
Proof.
  intros Hok Hg Hsame. unfold detected, visible, cleanupSnapshot. simpl. rewrite Hg.
  split; [exact (gt_monotone (T:=count_table) _ tab t Hok)|]. intros Heq. apply Hsame.
  intros ->. pose proof (gt_advanced (T:=count_table) _ t Hok) as Hlt. simpl in Hlt. lia.
Qed.

Lemma unregister_detected s c :
  jm_wf (bySocket c) → count_ok (generations c) → detected tab c (unregister_index s c).
Proof.
  intros Hwf Hok. destruct (jm_get s (bySocket c)) as [r|] eqn:Hg;
    [|by rewrite unregister_index_absent].
  eapply (detected_advance (terminalTabId r)); [done|unfold unregister_index; by rewrite Hg|].
  intros Hne k r' Hr'. rewrite unregister_bySocket, jm_get_delete.
  case_decide as Hk; [|done]. subst. rewrite Hg. naive_solver.
Qed.

Lemma unregister_all_detected o gap ss c :
  index_ok o gap c → detected tab c (unregister_all ss c).
Proof.
  revert c. induction ss as [|s ss IH]; intros c Hok; [done|].
  etrans; [|apply IH; by apply unregister_index_ok].
  apply unregister_detected; [apply (ok_sockets _ _ _ Hok)|apply (ok_generations _ _ _ Hok)].
Qed.

Lemma same_sockets_detected c c' d : same_sockets c' d → detected tab c c' → detected tab c d.
Proof.
  intros (Hb & _ & _ & Hg) [H1 H2].
  unfold detected, visible, cleanupSnapshot, same_tab in *. simpl in *.
  by rewrite Hg, Hb.
Qed.
End detection.

Section detection_theorem.
Context {W : Type} (h : @handler index W ev unit resp) `{!SocketEnv h} (o : IndexOptions).
Implicit Types (s : sys index W ev).

Lemma revoked_detected tab s s' :
  index_ok o no_gap (comp s) → revoked s s' → detected tab (comp s) (comp s').
Proof. intros Hok [ss ->]. by eapply unregister_all_detected. Qed.

Lemma run_op_detected tab p s :
  index_ok o no_gap (comp s) → detected tab (comp s) (comp (run_op h o p s)).
Proof.
  intros Hok. destruct p as [a t k|k|id|k| |]; simpl.
  - pose proof (wp_run _ _ _ (wp_registerIfActive h o a t k s Hok)) as Hp.
    destruct (registerIfActive h o a t k s) as [[[|]|e] s']; simpl in *; [| |done].
    + destruct Hp as (c1 & _ & Hr & Hslot & -> & _).
      destruct (session_slot_ok o a _ _ Hok Hslot) as (Hok1 & Hsame & _).
      etrans; [by eapply (same_sockets_detected tab _ (comp s)); [exact Hsame|]|].
      eapply (detected_advance tab t); [apply (ok_generations _ _ _ Hok1)|done|].
      intros Hne k' r' Hr'. simpl. rewrite jm_get_set. case_decide as Hk; [|done].
      subst k'. destruct Hsame as (-> & _). unfold refuses, jm_has in Hr. breflect.
      destruct (jm_get k (bySocket (comp s))); [done|].
      split; [|done]. intros [= <-]. by destruct Hne.
    + destruct Hp as [[ss Hs] _]. eapply same_sockets_detected; [exact Hs|].
      by eapply unregister_all_detected.
  - destruct (wp_run _ _ _ (wp_unregister h k s)) as [_ ->].
    apply unregister_detected; [apply (ok_sockets _ _ _ Hok)|apply (ok_generations _ _ _ Hok)].
  - apply revoked_detected; [done|]. apply (wp_run _ _ _ (wp_closeSession h id s)).
  - destruct (wp_run _ _ _ (wp_closeAuthenticationRequired h k s)) as (b & _ & Hs).
    apply revoked_detected; [done|]. by eapply close_revoked.
  - apply revoked_detected; [done|]. apply (wp_run _ _ _ (wp_sweepExpired h s)).
  - destruct (wp_run _ _ _ (wp_dispose h s)) as [_ [[_ ->]|[ss ->]]]; [done|].
    eapply (unregister_all_detected tab o no_gap ss (set_disposed (comp s))).
    by apply set_disposed_ok.
Qed.

Lemma run_ops_detected tab ps s :
  index_ok o no_gap (comp s) → detected tab (comp s) (comp (run_ops h o ps s)).
Proof.
  revert s. induction ps as [|p ps IH]; intros s Hok; [done|].
  etrans; [by apply run_op_detected|]. apply IH. by apply run_op_ok.
Qed.

(** The cleanup generation of a tab never decreases, and if it is equal
    before and after any sequence of operations then the tab has exactly the
    same registered sockets. *)
Theorem socket_generation_detects (ps : list op) (tab : jsstr) s :
  index_ok o no_gap (comp s) →
  let c := comp s in let c' := comp (run_ops h o ps s) in
  sock_generation (cleanupSnapshot tab c) <= sock_generation (cleanupSnapshot tab c') ∧
  (sock_generation (cleanupSnapshot tab c) = sock_generation (cleanupSnapshot tab c') →
   ∀ k r, terminalTabId r = tab →
     (jm_get k (bySocket c') = Some r ↔ jm_get k (bySocket c) = Some r)).
Proof.
  intros Hok. exact (run_ops_detected tab ps s Hok).
Qed.
End detection_theorem.

(** ** Sockets that obey [terminate] *)

Class ObedientEnv {W} (h : @handler index W ev unit resp) : Prop := {
  env_obeys : ∀ k c w r c' w', h (TerminateSocket k) c w = (r, (c', w')) →
    (h (ReadyState k) c' w').1 = Ok false;
}.

Section obedient.
Context {W : Type} (h : @handler index W ev unit resp) `{!SocketEnv h, !ObedientEnv h}
  (o : IndexOptions).
Implicit Types (s : sys index W ev).

(** [terminate] followed by the read of [readyState]. *)
Lemma wp_terminate k s :
  wp (do! attempt_call (ask h (TerminateSocket k)) in
      let! open3 := ask h (ReadyState k) in ret (negb open3))
     (λ r s', r = Ok true ∧ comp s' = comp s) s.
Proof.
  wp_step. unfold attempt_call. apply wp_catch.
  apply (wp_call resp h (TerminateSocket k)). intros r c w Hh.
  destruct (env_reentrant _ _ _ _ _ _ Hh) as (ss & Hc & Hn). rewrite (Hn I) in Hc.
  pose proof (env_obeys _ _ _ _ _ _ Hh) as Hclosed.
  assert (wp (let! open3 := ask h (ReadyState k) in ret (negb open3))
    (λ r s', r = Ok true ∧ comp s' = comp s) (Sys c w (log s ++ [(TerminateSocket k, is_ok r)]))) as Hread.
  { wp_step. apply (wp_call resp h (ReadyState k)). intros r2 c2 w2 Hh2. simpl in Hh2.
    rewrite Hh2 in Hclosed. simpl in Hclosed. subst r2. wp_step. split; [done|].
    destruct (env_reentrant (ReadyState k) _ _ _ _ _ Hh2) as (ss2 & -> & Hn2). by rewrite (Hn2 I), Hc. }
  destruct r as [[]|e]; [exact Hread|]. wp_step. exact Hread.
Qed.

Lemma wp_secure_obedient k s :
  wp (secureAuthenticationClosure h k) (λ r s', r = Ok true ∧ comp s' = comp s) s.
Proof.
  unfold secureAuthenticationClosure.
  wp_step. apply wp_ready; [done|]. intros b s1 E1. wp_step; [by wp_step|].
  wp_step. apply wp_attempt_ask.
  { apply (wp_ask _ (CloseSocket k _)). intros r s' _ Hq _. by apply Hq. }
  intros s2 E2. wp_step. apply wp_ready; [done|]. intros b2 s3 E3.
  wp_step; [wp_step; split; [done|congruence]|].
  eapply wp_mono; [apply wp_terminate|]. intros r s4 [-> E4]. split; [done|congruence].
Qed.

Lemma wp_close_each_obedient ks s :
  wp (close_each h ks) (λ r s', r = Ok tt ∧ comp s' = unregister_all ks (comp s)) s.
Proof.
  unfold close_each. revert s. induction ks as [|k ks IH]; intros s; simpl; [by wp_step|].
  wp_step. wp_step. unfold closeAuthenticationRequired. wp_step.
  eapply wp_mono; [apply wp_secure_obedient|]. intros r s1 [-> E1]. wp_step.
  eapply wp_mono; [by apply wp_unregister|]. intros r s2 [-> E2]. wp_go.
  eapply wp_mono; [apply IH|]. intros r s3 [-> E3]. split; [done|]. by rewrite E3, E2, E1.
Qed.

(** [closeSession], which runs when the session is revoked, leaves no
    socket of that session registered and touches no socket of another
    session, for sockets that are not open once [terminate] has been
    called. *)
Theorem close_session_complete (id : jsstr) s :
  index_ok o no_gap (comp s) →
  let c := comp s in let c' := comp (closeSession h id s).2 in
  (∀ k r, jm_get k (bySocket c') = Some r ↔
     jm_get k (bySocket c) = Some r ∧ session_of r ≠ id) ∧
  jm_get id (bySession c') = None ∧ index_ok o no_gap c'.
Proof.
  intros Hok c c'. subst c.
  assert (c' = unregister_all (reg_socket <$> default [] (jm_get id (bySession (comp s)))) (comp s)) as Hc'.
  { unfold c', closeSession. apply (wp_run _ _ _ (wp_close_each_obedient _ s)). }
  assert (index_ok o no_gap c') as Hok' by (rewrite Hc'; by apply unregister_all_ok).
  assert (∀ k r, jm_get k (bySocket c') = Some r ↔
     jm_get k (bySocket (comp s)) = Some r ∧ session_of r ≠ id) as Hget.
  { intros k r. rewrite Hc', unregister_all_get.
    assert (∀ r, jm_get k (bySocket (comp s)) = Some r →
      k ∈ reg_socket <$> default [] (jm_get id (bySession (comp s))) ↔ session_of r = id) as Hin.
    { intros r1 Hr1. rewrite list_elem_of_fmap. destruct (jm_get id (bySession (comp s))) as [rs|] eqn:Hrs; simpl.
      - destruct (ok_members _ _ _ Hok _ _ Hrs) as [_ Hm]. split.
        + intros (r2 & Hk2 & [Hr2 Hid2]%Hm). rewrite <-Hk2 in Hr2.
          assert (Some r1 = Some r2) as [= ->]; [|done]. by rewrite <-Hr1, <-Hr2.
        + intros <-. exists r1. pose proof (ok_keys _ _ _ Hok _ _ Hr1) as <-. rewrite Hm. done.
      - split; [by intros (? & _ & ?%not_elem_of_nil)|]. intros <-.
        destruct (ok_listed _ _ _ Hok _ _ Hr1) as [rs' Hrs']. by rewrite Hrs in Hrs'. }
    case_decide as Hk.
    - split; [done|]. intros [Hr Hne]. by apply (Hin r Hr) in Hk.
    - split; [|tauto]. intros Hr. split; [done|]. by intros ?%(Hin r Hr). }
  split_and!; [exact Hget| |done].
  destruct (jm_get id (bySession c')) as [[|r rs]|] eqn:Hrs; [|exfalso|done].
  - by apply (ok_nonempty _ _ _ Hok') in Hrs.
  - destruct (ok_members _ _ _ Hok' _ _ Hrs) as [_ Hm].
    assert (r ∈ r :: rs) as [Hr Hid]%Hm by left. by apply Hget in Hr as [_ Hne].
Qed.
End obedient.

(** * Concrete sockets *)

(** The world: the sockets that are closed and the revoked sessions. *)
Record sample_world := SampleWorld { closed : list socket_id; revoked_ids : list jsstr }.

(** [close] is ignored, [terminate] is obeyed. *)
Definition sample_handler : @handler index sample_world ev unit resp := λ e c w,
  match e return res unit (resp e) * (index * sample_world) with
  | ReadyState k => (Ok (bool_decide (k ∉ closed w)), (c, w))
  | TerminateSocket k => (Ok tt, (c, SampleWorld (k :: closed w) (revoked_ids w)))
  | IsActive a => (Ok (bool_decide (applicationSessionId a ∉ revoked_ids w)), (c, w))
  | CloseSocket _ _ | OnClose _ | OnError _ | Dispose _ _ | SweepAuth | Unsubscribe =>
      (Ok tt, (c, w))
  end.

#[export] Instance sample_env : SocketEnv sample_handler.
Proof.
  split.
  - intros e c w r c' w' Hh. exists []. split; [|done]. by destruct e; simplify_eq/=.
  - intros k c w. by eexists.
Defined.
#[export] Instance sample_obedient : ObedientEnv sample_handler.
Proof.
  split. intros k c w r c' w' [= <- <- <-]. simpl. f_equal. apply bool_decide_eq_false.
  intros Hn. apply Hn. left.
Defined.

Definition sample_index_options : IndexOptions :=
  {| maxApplicationSessions := 4; maxSockets := 4 |}.
Definition sample_authority (id : string) : ApplicationSessionAuthority :=
  {| applicationSessionId := js id; auth_generation := 1; expiresAt := 1000 |}.
Definition sample_ops : list op :=
  [Op_register (sample_authority "x") (js "t") 1; Op_register (sample_authority "x") (js "t") 2;
   Op_register (sample_authority "y") (js "u") 3; Op_unregister 2].
Definition sample_start : sys index sample_world ev := Sys new_index (SampleWorld [] []) [].

Lemma sample_index_ok :
  index_ok sample_index_options no_gap
    (comp (run_ops sample_handler sample_index_options sample_ops sample_start)).
Proof. apply run_ops_ok; [exact _|]. by apply new_index_ok. Qed.

Lemma auth_index_consistent_witness :
  let c := comp (run_ops sample_handler sample_index_options sample_ops sample_start) in
  connectedCount c = 2 ∧ countForTab (js "t") c = tab_count (js "t") (bySocket c).
Proof.
  split; [vm_compute; reflexivity|].
  exact (proj1 (proj2 (proj2 (proj2 (auth_index_consistent sample_handler
    sample_index_options sample_ops (SampleWorld [] []) eq_refl)))) (js "t")).
Defined.

Lemma register_only_active_witness :
  ∃ s', registerIfActive sample_handler sample_index_options (sample_authority "x") (js "t") 1
    sample_start = (Ok true, s') ∧ confirmed sample_handler (sample_authority "x") s'.
Proof.
  eexists. split; [vm_compute; reflexivity|].
  exact (proj1 (proj2 (proj2 (register_only_active sample_handler sample_index_options
    (sample_authority "x") (js "t") 1 sample_start (new_index_ok sample_index_options eq_refl))))).
Defined.

Lemma socket_generation_detects_witness :
  sock_generation (cleanupSnapshot (js "u") (comp sample_start)) <=
  sock_generation (cleanupSnapshot (js "u")
    (comp (run_ops sample_handler sample_index_options sample_ops sample_start))).
Proof.
  exact (proj1 (socket_generation_detects sample_handler sample_index_options sample_ops
    (js "u") sample_start (new_index_ok sample_index_options eq_refl))).
Defined.

Lemma close_session_complete_witness :
  let s := run_ops sample_handler sample_index_options sample_ops sample_start in
  jm_get (js "x") (bySession (comp s)) ≠ None ∧
  jm_get (js "x") (bySession (comp (closeSession sample_handler (js "x") s).2)) = None.
Proof.
  split; [vm_compute; discriminate|].
  exact (proj1 (proj2 (close_session_complete sample_handler sample_index_options (js "x") _
    sample_index_ok))).
Defined.
