(* ===== verification/Eligibility.v ===== *)
(** [apps/server/src/cleanup-eligibility.ts]: whether a terminal session may be
    cleaned up.

    The reader samples the tab store, the activity tracker, the socket index
    and the bridge registry, asks the runtime whether the session exists, and
    samples again.  Only the runtime call is asynchronous: while it is awaited
    the other components evolve.  [CleanupSource] is what the reader is
    promised by the tracker and by the index. *)
From S2P Require Import Prelude Tabs Generations ActivityTracker WsAuthIndex.
Open Scope Z_scope.

Inductive CleanupSkipReason :=
| disabled | invalid | tab_absent | inactive | session_absent | connected
| bridged | activity_pending | recent_activity | invalid_timestamp
| dependency_error | changed.
#[export] Instance CleanupSkipReason_eq_dec : EqDecision CleanupSkipReason.
Proof. solve_decision. Defined.

Record EligibilityGeneration := Gen { structure : Z; activity_gen : Z; sockets_gen : Z }.

Record EligibilitySnapshot := Snapshot {
  snap_id : jsstr;
  snap_thresholdMs : Z;
  snap_cutoffMs : Z;
  eligible : bool;
  reason : option CleanupSkipReason;
  snap_generation : EligibilityGeneration;
}.

Record EligibilityRequest := Request { req_id : jsstr; thresholdMs : Z; cutoffMs : Z }.

Definition MAX_TABS : Z := 20.
Definition MAX_SOCKETS : Z := 1024.
Definition MAX_THRESHOLD_MS : Z := 8760 * 60 * 60 * 1000.

(** * Timestamps *)

Definition digit (c : Z) : option Z :=
  if (48 <=? c) && (c <=? 57) then Some (c - 48) else None.

(** [n] decimal digits, as a number, and the rest. *)
Fixpoint take_digits (n : nat) (acc : Z) (s : jsstr) : option (Z * jsstr) :=
  match n, s with
  | O, _ => Some (acc, s)
  | S n', c :: s' => d ← digit c; take_digits n' (acc * 10 + d) s'
  | S _, [] => None
  end.

Definition take_char (c : Z) (s : jsstr) : option jsstr :=
  match s with c' :: s' => if c' =? c then Some s' else None | [] => None end.

(** The digits of [(\d{1,9})]. *)
Fixpoint span_digits (fuel : nat) (s : jsstr) : list Z * jsstr :=
  match fuel, s with
  | S f, c :: s' =>
      match digit c with
      | Some d => let '(ds, r) := span_digits f s' in (d :: ds, r)
      | None => ([], s)
      end
  | _, _ => ([], s)
  end.

Definition take_fraction (s : jsstr) : option (list Z * jsstr) :=
  match s with
  | 46 :: s' =>
      let '(ds, r) := span_digits 9 s' in
      match ds with [] => None | _ => Some (ds, r) end
  | _ => Some ([], s)
  end.

Record utc_fields := Utc {
  year : Z; month : Z; day : Z; hour : Z; minute : Z; second : Z; fraction : list Z;
}.

(** [UTC_TIMESTAMP_PATTERN.exec(value)] *)
Definition match_utc (s : jsstr) : option utc_fields :=
  '(y, s) ← take_digits 4 0 s; s ← take_char 45 s;
  '(mo, s) ← take_digits 2 0 s; s ← take_char 45 s;
  '(d, s) ← take_digits 2 0 s; s ← take_char 84 s;
  '(h, s) ← take_digits 2 0 s; s ← take_char 58 s;
  '(mi, s) ← take_digits 2 0 s; s ← take_char 58 s;
  '(se, s) ← take_digits 2 0 s;
  '(f, s) ← take_fraction s; s ← take_char 90 s;
  match s with [] => Some (Utc y mo d h mi se f) | _ => None end.

Definition leap_year (y : Z) : bool :=
  (y mod 4 =? 0) && (negb (y mod 100 =? 0) || (y mod 400 =? 0)).

Definition daysInMonth (y m : Z) : Z :=
  if m =? 2 then (if leap_year y then 29 else 28)
  else if (m =? 4) || (m =? 6) || (m =? 9) || (m =? 11) then 30 else 31.

(** [Number(`${fraction}000`.slice(0, 3))] *)
Definition milliseconds_of (f : list Z) : Z :=
  foldl (λ acc d, acc * 10 + d) 0 (take 3 (f ++ [0; 0; 0])).

(** The days from 1970-01-01 to the first day of a year, as ECMAScript's
    [DayFromYear]. *)
Definition day_from_year (y : Z) : Z :=
  365 * (y - 1970) + (y - 1969) / 4 - (y - 1901) / 100 + (y - 1601) / 400.

Definition days_before_month (y m : Z) : Z :=
  foldr (λ k acc, daysInMonth y (Z.of_nat k) + acc) 0 (seq 1 (Z.to_nat (m - 1))).

(** [setUTCFullYear] and [setUTCHours] on the epoch. *)
Definition utc_ms (u : utc_fields) : Z :=
  ((day_from_year (year u) + days_before_month (year u) (month u) + (day u - 1)) * 24
   + hour u) * 3600000 + minute u * 60000 + second u * 1000 + milliseconds_of (fraction u).

Definition valid_utc (u : utc_fields) : bool :=
  (1 <=? month u) && (month u <=? 12) && (1 <=? day u) &&
  (day u <=? daysInMonth (year u) (month u)) &&
  (hour u <=? 23) && (minute u <=? 59) && (second u <=? 59).

Definition parseUtcTimestamp (value : jsstr) : option Z :=
  u ← match_utc value; if valid_utc u then Some (utc_ms u) else None.

(** * The reader *)

(** What a component that is sampled for cleanup promises: [cs_generation]
    detects every change of a tab. *)
Class CleanupSource (S V : Type) := {
  cs_generation : S → jsstr → Z;
  cs_view : S → jsstr → V;
  cs_ok : S → Prop;
  cs_evolves : S → S → Prop;
  cs_quiet : jsstr → S → S → Prop;
  cs_evolves_ok : ∀ s s', cs_ok s → cs_evolves s s' → cs_ok s';
  cs_monotone : ∀ s s' id, cs_ok s → cs_evolves s s' →
    cs_generation s id <= cs_generation s' id;
  cs_detects : ∀ s s' id, cs_ok s → cs_evolves s s' →
    cs_generation s id = cs_generation s' id → cs_quiet id s s';
}.

Record SynchronousState := Sync {
  sync_structure : Z;
  sync_desiredState : DesiredState;
  sync_createdAt : option jsstr;
  sync_lastActivityAt : option jsstr;
  sync_activity_generation : Z;
  sync_pending : bool;
  sync_socket_generation : Z;
  sync_count : Z;
  sync_bridged : bool;
}.

Definition validGeneration (value : Z) : bool := is_safe_integer value && (0 <=? value).

Definition validRequest (r : EligibilityRequest) : bool :=
  isSessionId (req_id r) && is_safe_integer (thresholdMs r) && (0 <=? thresholdMs r) &&
  (thresholdMs r <=? MAX_THRESHOLD_MS) && is_safe_integer (cutoffMs r).

Definition sameState (l r : SynchronousState) : bool :=
  (sync_structure l =? sync_structure r) &&
  bool_decide (sync_desiredState l = sync_desiredState r) &&
  bool_decide (sync_createdAt l = sync_createdAt r) &&
  bool_decide (sync_lastActivityAt l = sync_lastActivityAt r) &&
  (sync_activity_generation l =? sync_activity_generation r) &&
  bool_decide (sync_pending l = sync_pending r) &&
  (sync_socket_generation l =? sync_socket_generation r) &&
  (sync_count l =? sync_count r) &&
  bool_decide (sync_bridged l = sync_bridged r).

Definition result (r : EligibilityRequest) (e : bool) (why : option CleanupSkipReason)
    (s : option SynchronousState) : EligibilitySnapshot :=
  {| snap_id := if isSessionId (req_id r) then req_id r else [];
     snap_thresholdMs :=
       if is_safe_integer (thresholdMs r) && (0 <=? thresholdMs r) then thresholdMs r else 0;
     snap_cutoffMs := if is_safe_integer (cutoffMs r) then cutoffMs r else 0;
     eligible := e; reason := why;
     snap_generation := {|
       structure := from_option sync_structure 0 s;
       activity_gen := from_option sync_activity_generation 0 s;
       sockets_gen := from_option sync_socket_generation 0 s |} |}.

(** The checks after the second capture, in the order of the code. *)
Definition verdict (r : EligibilityRequest) (exists_ : bool) (after : SynchronousState)
    : option CleanupSkipReason :=
  if negb (bool_decide (sync_desiredState after = active)) then Some inactive
  else if negb exists_ then Some session_absent
  else if 0 <? sync_count after then Some connected
  else if sync_bridged after then Some bridged
  else if sync_pending after then Some activity_pending
  else
    let value := match sync_lastActivityAt after with
                 | Some v => Some v | None => sync_createdAt after end in
    match value with
    | None => Some invalid_timestamp
    | Some v =>
        match parseUtcTimestamp v with
        | None => Some invalid_timestamp
        | Some timestamp =>
            if cutoffMs r <=? timestamp then Some recent_activity else None
        end
    end.

Section reader.
Context {A B : Type} `{CleanupSource A bool} `{CleanupSource B Z}.

(** The components that the reader samples. *)
Record cleanup_world := CleanupWorld {
  cw_tabs : option PersistedTabsDocument;  (** [None]: the store throws *)
  cw_activity : A;
  cw_sockets : B;
  cw_bridges : gset jsstr;
}.

Abbreviation EM := (M cleanup_world unit).

(** [runtime.exists], which lets the other components run. *)
Context (runtime_exists : jsstr → EM bool).

Definition capture (id : jsstr) : EM (option SynchronousState) :=
  let! t := gets cw_tabs in
  let! d := of_option t tt in
  do! throw_if (negb (is_safe_integer (structureRevision d)) ||
                (structureRevision d <? 0) ||
                (MAX_TABS <? Z.of_nat (length (tabs d)))) tt in
  let matches := filter (λ t, tab_id t = id) (tabs d) in
  do! throw_if (1 <? length matches)%nat tt in
  match matches with
  | [] => ret None
  | tab :: _ =>
      let! w := get in
      let ag := cs_generation (cw_activity w) id in
      let sg := cs_generation (cw_sockets w) id in
      let count := cs_view (cw_sockets w) id in
      do! throw_if (negb (validGeneration ag) || negb (validGeneration sg) ||
                    negb (is_safe_integer count) || (count <? 0) ||
                    (MAX_SOCKETS <? count)) tt in
      ret (Some {| sync_structure := structureRevision d;
                   sync_desiredState := desiredState tab;
                   sync_createdAt := Some (createdAt tab);
                   sync_lastActivityAt := Some (lastActivityAt tab);
                   sync_activity_generation := ag;
                   sync_pending := cs_view (cw_activity w) id;
                   sync_socket_generation := sg;
                   sync_count := count;
                   sync_bridged := bool_decide (id ∈ cw_bridges w) |})
  end.

Definition read (r : EligibilityRequest) : EM EligibilitySnapshot :=
  if negb (validRequest r) then ret (result r false (Some invalid) None)
  else if thresholdMs r =? 0 then ret (result r false (Some disabled) None)
  else
    let! b := attempt (capture (req_id r)) in
    match b with
    | Throw _ => ret (result r false (Some dependency_error) None)
    | Ok None => ret (result r false (Some tab_absent) None)
    | Ok (Some before) =>
        let! x := attempt (runtime_exists (req_id r)) in
        match x with
        | Throw _ => ret (result r false (Some dependency_error) (Some before))
        | Ok exists_ =>
            let! a := attempt (capture (req_id r)) in
            match a with
            | Throw _ => ret (result r false (Some dependency_error) (Some before))
            | Ok None => ret (result r false (Some changed) (Some before))
            | Ok (Some after) =>
                if negb (sameState before after)
                then ret (result r false (Some changed) (Some after))
                else
                  let why := verdict r exists_ after in
                  ret (result r (bool_decide (why = None)) why (Some after))
            end
        end
    end.
End reader.
Arguments cleanup_world : clear implicits.

Definition sameEligibilityGeneration (l r : EligibilitySnapshot) : bool :=
  bool_decide (snap_id l = snap_id r) &&
  (snap_thresholdMs l =? snap_thresholdMs r) && (snap_cutoffMs l =? snap_cutoffMs r) &&
  (structure (snap_generation l) =? structure (snap_generation r)) &&
  (activity_gen (snap_generation l) =? activity_gen (snap_generation r)) &&
  (sockets_gen (snap_generation l) =? sockets_gen (snap_generation r)).

(** * The tracker and the index are cleanup sources *)

#[export] Program Instance tracker_source : CleanupSource tracker bool := {|
  cs_generation s id := generation (ActivityTracker.cleanupSnapshot s id);
  cs_view s id := pending (ActivityTracker.cleanupSnapshot s id);
  cs_ok s := ∃ l, run_ok s l;
  cs_evolves s s' := ∃ es, exec es s = Some s';
  (* on every run between the two states no mark of the tab is accepted *)
  cs_quiet id s s' := ∀ es l l', run_ok s l → run es s l = Some (s', l') →
    marked l' !! id = marked l !! id ∧
    pending (ActivityTracker.cleanupSnapshot s' id) =
    pending (ActivityTracker.cleanupSnapshot s id);
|}.
Lemma exec_run es s l s' : exec es s = Some s' → ∃ l', run es s l = Some (s', l').
Proof.
  revert s l. induction es as [|e es IH]; intros s l; simpl; [intros [= <-]; by eexists|].
  destruct (step e s) as [s1|]; simpl; [apply IH|done].
Qed.
Next Obligation.
  intros s s' [l Hok] [es Hes]. destruct (exec_run es s l s' Hes) as [l' Hrun].
  exists l'. by eapply run_inv.
Qed.
Next Obligation.
  intros s s' id [l Hok] [es Hes]. destruct (exec_run es s l s' Hes) as [l' Hrun].
  by apply (run_visible es s l s' l' id Hok Hrun).
Qed.
Next Obligation.
  intros s s' id _ _ Heq es l l' Hok Hrun. simpl in *.
  destruct (run_visible es s l s' l' id Hok Hrun) as [_ Hv].
  by destruct (Hv Heq) as [Hp Hm].
Qed.

Definition index_evolves (c c' : index) : Prop :=
  ∃ (o : IndexOptions) (W : Type) (h : handler resp) (w : W) (lg : list (ev * bool))
    (ps : list WsAuthIndex.op),
    SocketEnv h ∧ index_ok o no_gap c ∧ c' = comp (run_ops h o ps (Sys c w lg)).

#[export] Program Instance index_source : CleanupSource index Z := {|
  cs_generation c id := sock_generation (WsAuthIndex.cleanupSnapshot id c);
  cs_view c id := sock_count (WsAuthIndex.cleanupSnapshot id c);
  cs_ok c := ∃ o, index_ok o no_gap c;
  cs_evolves := index_evolves;
  cs_quiet id c c' := same_tab id c c';
|}.
Next Obligation.
  intros c c' _ (o & W & h & w & lg & ps & Henv & Hok & ->). exists o.
  by apply run_ops_ok.
Qed.
Next Obligation.
  intros c c' id _ (o & W & h & w & lg & ps & Henv & Hok & ->).
  exact (proj1 (run_ops_detected h o id ps (Sys c w lg) Hok)).
Qed.
Next Obligation.
  intros c c' id _ (o & W & h & w & lg & ps & Henv & Hok & ->) Heq.
  exact (proj2 (run_ops_detected h o id ps (Sys c w lg) Hok) Heq).
Qed.

(** * What a positive verdict means *)

Section facts.
Context {A B : Type} `{HA : CleanupSource A bool} `{HB : CleanupSource B Z}.
Context (runtime_exists : jsstr → M (cleanup_world A B) unit bool).
Implicit Types (w : cleanup_world A B) (id : jsstr).

(** What a capture says about the world in which it was made. *)
Definition captured id w (s : SynchronousState) : Prop :=
  ∃ d tab, cw_tabs w = Some d ∧ tab ∈ tabs d ∧ tab_id tab = id ∧
    (∀ t, t ∈ tabs d → tab_id t = id → t = tab) ∧
    sync_structure s = structureRevision d ∧ sync_desiredState s = desiredState tab ∧
    sync_createdAt s = Some (createdAt tab) ∧
    sync_lastActivityAt s = Some (lastActivityAt tab) ∧
    sync_activity_generation s = cs_generation (cw_activity w) id ∧
    sync_pending s = cs_view (cw_activity w) id ∧
    sync_socket_generation s = cs_generation (cw_sockets w) id ∧
    sync_count s = cs_view (cw_sockets w) id ∧ 0 <= sync_count s ∧
    sync_bridged s = bool_decide (id ∈ cw_bridges w) ∧
    validGeneration (sync_structure s) = true ∧
    validGeneration (sync_activity_generation s) = true ∧
    validGeneration (sync_socket_generation s) = true.

Lemma wp_capture id w :
  wp (capture id) (λ r w', w' = w ∧ match r with Ok (Some s) => captured id w s | _ => True end) w.
Proof.
  unfold capture. wp_go; try done.
  match goal with H : (1 <? _)%nat = false |- _ => rename H into Hone end.
  apply Nat.ltb_ge in Hone.
  destruct (filter (λ t, tab_id t = id) (tabs a)) as [|tab rest] eqn:Hf; wp_go; [done..|].
  split; [done|]. breflect.
  assert (∀ t, t ∈ tab :: rest ↔ tab_id t = id ∧ t ∈ tabs a) as Hin.
  { intros t. by rewrite <-Hf, list_elem_of_filter. }
  assert (rest = []) as -> by (destruct rest; [done|simpl in Hone; lia]).
  destruct (proj1 (Hin tab)) as [Hid Ht]; [by left|].
  exists a, tab. unfold validGeneration in *. simpl. split_and!; try done.
  - intros t Htt Htid. assert (t ∈ [tab]) as Hs by (apply (proj2 (Hin t)); done).
    by apply list_elem_of_singleton in Hs.
  - by apply andb_true_iff; split; [|apply Z.leb_le].
Qed.

(** The runtime call lets the sources evolve. *)
Definition evolves w w' : Prop :=
  cs_evolves (cw_activity w) (cw_activity w') ∧ cs_evolves (cw_sockets w) (cw_sockets w').

Lemma wp_read_cases r w (Q : res unit EligibilitySnapshot → cleanup_world A B → Prop) :
  (∀ why s w', (s = None ∨ ∃ s0 w0, s = Some s0 ∧ captured (req_id r) w0 s0) →
     Q (Ok (result r false (Some why) s)) w') →
  (∀ before after exists_ w', validRequest r = true → thresholdMs r ≠ 0 →
     captured (req_id r) w before → runtime_exists (req_id r) w = (Ok exists_, w') →
     captured (req_id r) w' after → sameState before after = true →
     verdict r exists_ after = None → Q (Ok (result r true None (Some after))) w') →
  wp (read runtime_exists r) Q w.
Proof.
  intros Hno Hyes. unfold read. wp_step; [wp_step; apply Hno; by left|].
  wp_step; [wp_step; apply Hno; by left|]. breflect.
  wp_step. wp_step. eapply wp_mono; [apply wp_capture|]. intros [[before|]|e] w1 [-> Hb]; cbn beta iota;
    [|wp_step; apply Hno; by left..].
  wp_step. wp_step. unfold wp at 1. destruct (runtime_exists (req_id r) w) as [[ex|e] w2] eqn:Hx;
    simpl; [|wp_step; apply Hno; right; by eexists _, _].
  wp_step. wp_step. eapply wp_mono; [apply wp_capture|]. intros [[after|]|e] w3 [-> Ha]; cbn beta iota;
    [|wp_step; apply Hno; right; by eexists _, _..].
  wp_step; [wp_step; apply Hno; right; by eexists _, _|]. breflect. wp_step.
  destruct (verdict r ex after) as [why|] eqn:Hv.
  - apply Hno. right. by eexists _, _.
  - by eapply Hyes.
Qed.

Lemma sameState_spec l r : sameState l r = true →
  sync_activity_generation l = sync_activity_generation r ∧
  sync_socket_generation l = sync_socket_generation r.
Proof. unfold sameState. intros Hs. breflect. done. Qed.

Lemma verdict_None r ex after :
  verdict r ex after = None →
  sync_desiredState after = active ∧ ex = true ∧ sync_count after <= 0 ∧
  sync_bridged after = false ∧ sync_pending after = false ∧
  ∃ v t, match sync_lastActivityAt after with Some v => Some v | None => sync_createdAt after end
    = Some v ∧ parseUtcTimestamp v = Some t ∧ t < cutoffMs r.
Proof.
  unfold verdict. intros Hv.
  destruct (bool_decide (sync_desiredState after = active)) eqn:Ha; [|done].
  destruct ex; [|done]. simpl in Hv.
  destruct (0 <? sync_count after) eqn:Hc; [done|].
  destruct (sync_bridged after); [done|]. destruct (sync_pending after); [done|].
  destruct (match sync_lastActivityAt after with Some v => Some v | None => _ end) as [v|]; [|done].
  destruct (parseUtcTimestamp v) as [t|] eqn:Ht; [|done].
  destruct (cutoffMs r <=? t) eqn:Hl; [done|]. breflect. split_and!; try done. by exists v, t.
Qed.

(** The terminal is stale in [w'], and nothing touched it since [w]. *)
Definition truly_stale (r : EligibilityRequest) w w' : Prop :=
  (∃ d tab t, cw_tabs w' = Some d ∧ tab ∈ tabs d ∧ tab_id tab = req_id r ∧
     desiredState tab = active ∧
     parseUtcTimestamp (lastActivityAt tab) = Some t ∧ t < cutoffMs r) ∧
  cs_view (cw_activity w') (req_id r) = false ∧
  cs_view (cw_sockets w') (req_id r) = 0 ∧
  req_id r ∉ cw_bridges w' ∧
  cs_quiet (req_id r) (cw_activity w) (cw_activity w') ∧
  cs_quiet (req_id r) (cw_sockets w) (cw_sockets w').

(** C23: when [read] answers eligible, the terminal really is stale at that
    moment: the request is valid and cleanup enabled, the tab is recorded
    active, its session exists, no socket and no bridge is attached, no
    activity is pending, its last activity is before the cutoff, and from the
    first sample to the answer no activity was accepted and no socket came or
    went. [read] never throws. *)
Theorem eligible_sound r w :
  cs_ok (cw_activity w) → cs_ok (cw_sockets w) →
  (∀ id, evolves w (runtime_exists id w).2) →
  let (res_, w') := read runtime_exists r w in
  ∃ snap, res_ = Ok snap ∧
    (eligible snap = true →
     validRequest r = true ∧ 0 < thresholdMs r ∧ reason snap = None ∧
     runtime_exists (req_id r) w = (Ok true, w') ∧ truly_stale r w w').
Proof.
  intros HokA HokB Hev.
  set (P := λ (res_ : res unit EligibilitySnapshot) w', ∃ snap, res_ = Ok snap ∧ (eligible snap = true →
     validRequest r = true ∧ 0 < thresholdMs r ∧ reason snap = None ∧
     runtime_exists (req_id r) w = (Ok true, w') ∧ truly_stale r w w')).
  assert (wp (read runtime_exists r) P w) as Hw;
    [|unfold wp in Hw; by destruct (read runtime_exists r w)].
  apply wp_read_cases; [intros why s w' _; by eexists|].
  intros before after ex w' Hv Ht Hb Hx Ha Hsame Hver. eexists. split; [done|]. intros _.
  destruct (verdict_None _ _ _ Hver) as (Hact & -> & Hc & Hbr & Hp & v & t & Hval & Hparse & Hlt).
  destruct (sameState_spec _ _ Hsame) as [Hga Hgb].
  specialize (Hev (req_id r)). rewrite Hx in Hev. destruct Hev as [HeA HeB].
  destruct Hb as (d0 & t0 & _ & _ & _ & _ & _ & _ & _ & _ & Hga0 & _ & Hgb0 & _).
  destruct Ha as (d & tab & Hd & Hin & Hid & _ & _ & Hds & _ & Hla & Hga1 & Hp1 & Hgb1 & Hc1 & Hpos & Hbr1 & _).
  rewrite Hla in Hval. injection Hval as <-.
  assert (0 < thresholdMs r) as Hthr by (unfold validRequest in Hv; breflect; lia).
  rewrite Hbr in Hbr1. symmetry in Hbr1. apply bool_decide_eq_false in Hbr1. simpl in *.
  split_and!; try done. unfold truly_stale. split_and!; [|congruence|lia|done|..].
  - exists d, tab, t. split_and!; try done. congruence.
  - apply cs_detects; [done..|congruence].
  - apply cs_detects; [done..|congruence].
Qed.
End facts.

(** * Timestamps *)

(** A date with its time of day, as the pattern prints it. *)
Fixpoint print_digits (n : nat) (z : Z) : jsstr :=
  match n with
  | O => []
  | S n' => print_digits n' (z / 10) ++ [48 + z mod 10]
  end.

Definition print_utc (u : utc_fields) : jsstr :=
  print_digits 4 (year u) ++ [45] ++ print_digits 2 (month u) ++ [45] ++
  print_digits 2 (day u) ++ [84] ++ print_digits 2 (hour u) ++ [58] ++
  print_digits 2 (minute u) ++ [58] ++ print_digits 2 (second u) ++
  match fraction u with [] => [] | ds => [46] ++ ((λ d, 48 + d) <$> ds) end ++ [90].

Definition is_digit (d : Z) : Prop := 0 <= d <= 9.

(** A date of the years 0 to 9999. *)
Definition proper_utc (u : utc_fields) : Prop :=
  valid_utc u = true ∧ 0 <= year u <= 9999 ∧ 0 <= hour u ∧ 0 <= minute u ∧
  0 <= second u ∧ (length (fraction u) <= 9)%nat ∧ Forall is_digit (fraction u).

Lemma digit_char d : is_digit d → digit (48 + d) = Some d.
Proof.
  unfold is_digit, digit. intros.
  rewrite (proj2 (Z.leb_le 48 (48 + d))), (proj2 (Z.leb_le (48 + d) 57)) by lia.
  simpl. f_equal. lia.
Qed.

Lemma take_digits_app n m acc s t a :
  take_digits n acc s = Some (a, t) → take_digits (n + m) acc s = take_digits m a t.
Proof.
  revert acc s. induction n as [|n IH]; intros acc s; simpl; [by intros [= <- <-]|].
  destruct s as [|c s]; [done|]. destruct (digit c) as [d|]; simpl; [apply IH|done].
Qed.

Lemma take_print_digits n acc z s :
  0 <= z < 10 ^ Z.of_nat n →
  take_digits n acc (print_digits n z ++ s) = Some (acc * 10 ^ Z.of_nat n + z, s).
Proof.
  revert z s. induction n as [|n IH]; intros z s Hz.
  - simpl in *. f_equal. f_equal. lia.
  - rewrite Nat2Z.inj_succ, Z.pow_succ_r in * by lia. simpl print_digits.
    rewrite <-app_assoc. replace (S n) with (n + 1)%nat by lia.
    assert (0 <= z / 10 < 10 ^ Z.of_nat n) as Hq.
    { split; [apply Z.div_pos; lia|]. apply Z.div_lt_upper_bound; lia. }
    rewrite (take_digits_app n 1 acc _ _ _ (IH _ _ Hq)).
    pose proof (Z.mod_pos_bound z 10 ltac:(lia)) as Hm.
    change (take_digits 1 ?a ([?c] ++ s)) with (d ← digit c; Some (a * 10 + d, s)).
    rewrite digit_char by (unfold is_digit; lia). simpl. f_equal. f_equal.
    pose proof (Z.div_mod z 10). lia.
Qed.

Lemma take_char_eq c s : take_char c (c :: s) = Some s.
Proof. simpl. by rewrite Z.eqb_refl. Qed.

Lemma span_print ds fuel s :
  Forall is_digit ds → (length ds <= fuel)%nat →
  span_digits fuel (((λ d, 48 + d) <$> ds) ++ 90 :: s) = (ds, 90 :: s).
Proof.
  revert fuel. induction ds as [|d ds IH]; intros fuel Hds Hl; [by destruct fuel|].
  apply Forall_cons in Hds as [Hd Hds]. destruct fuel as [|fuel]; simpl in Hl; [lia|].
  rewrite fmap_cons. simpl. rewrite digit_char by done. rewrite IH; [done|done|lia].
Qed.

Lemma take_fraction_print u :
  (length (fraction u) <= 9)%nat → Forall is_digit (fraction u) →
  take_fraction (match fraction u with [] => [] | ds => [46] ++ ((λ d, 48 + d) <$> ds) end ++ [90])
  = Some (fraction u, [90]).
Proof.
  intros Hl Hd. destruct (fraction u) as [|d ds] eqn:Hf; [done|].
  rewrite <-Hf in *. simpl app at 1. unfold take_fraction. cbn [app].
  rewrite (span_print (fraction u) 9 []); [by rewrite Hf|done..].
Qed.

Lemma days_bound y m : 28 <= daysInMonth y m <= 31.
Proof. unfold daysInMonth. repeat case_match; lia. Qed.

Lemma proper_bounds u : proper_utc u →
  0 <= year u < 10 ^ Z.of_nat 4 ∧ 0 <= month u < 10 ^ Z.of_nat 2 ∧
  0 <= day u < 10 ^ Z.of_nat 2 ∧ 0 <= hour u < 10 ^ Z.of_nat 2 ∧
  0 <= minute u < 10 ^ Z.of_nat 2 ∧ 0 <= second u < 10 ^ Z.of_nat 2.
Proof.
  intros (Hv & Hy & Hh & Hm & Hs & _). unfold valid_utc in Hv. breflect.
  pose proof (days_bound (year u) (month u)). simpl. lia.
Qed.

Lemma match_print u : proper_utc u → match_utc (print_utc u) = Some u.
Proof.
  intros Hp. pose proof (proper_bounds u Hp) as (Hy & Hmo & Hd & Hh & Hmi & Hs).
  destruct Hp as (_ & _ & _ & _ & _ & Hl & Hf). unfold match_utc, print_utc.
  assert (∀ a b : Z, 0 * a + b = b) as H0 by lia.
  rewrite take_print_digits by done. rewrite H0. cbn [mbind option_bind].
  do 5 (cbn [app]; rewrite take_char_eq; cbn [mbind option_bind];
        rewrite take_print_digits by done; rewrite H0; cbn [mbind option_bind]).
  rewrite take_fraction_print by done. simpl. by destruct u.
Qed.

Lemma day_from_year_succ y :
  day_from_year (y + 1) = day_from_year y + (if leap_year y then 366 else 365).
Proof.
  unfold day_from_year, leap_year.
  destruct (Z.eqb_spec (y mod 4) 0); destruct (Z.eqb_spec (y mod 100) 0);
    destruct (Z.eqb_spec (y mod 400) 0); simpl;
    Z.to_euclidean_division_equations; lia.
Qed.

Lemma days_of_year y : days_before_month y 13 = if leap_year y then 366 else 365.
Proof. unfold days_before_month, daysInMonth. simpl. destruct (leap_year y); lia. Qed.

Lemma days_before_month_succ y m :
  1 <= m → days_before_month y (m + 1) = days_before_month y m + daysInMonth y m.
Proof.
  intros Hm. unfold days_before_month.
  replace (Z.to_nat (m + 1 - 1)) with (Z.to_nat (m - 1) + 1)%nat by lia.
  rewrite seq_app, foldr_app. simpl.
  replace (Z.of_nat (S (Z.to_nat (m - 1)))) with m by lia.
  generalize (seq 1 (Z.to_nat (m - 1))). intros l.
  induction l as [|k l IH]; simpl; lia.
Qed.

Lemma day_from_year_mono y y' :
  y < y' → day_from_year y + (if leap_year y then 366 else 365) <= day_from_year y'.
Proof.
  intros Hlt. rewrite <-day_from_year_succ. assert (0 <= y' - (y + 1)) as Hd by lia.
  replace y' with (y + 1 + (y' - (y + 1))) by lia. revert Hd. generalize (y' - (y + 1)).
  intros n Hn. revert n Hn. apply natlike_ind; [by rewrite Z.add_0_r|].
  intros n Hn IH. rewrite <-Z.add_1_r, Z.add_assoc, (day_from_year_succ (y + 1 + n)).
  case_match; lia.
Qed.

Lemma days_before_month_mono y m m' :
  1 <= m → m < m' → days_before_month y m + daysInMonth y m <= days_before_month y m'.
Proof.
  intros Hm Hlt. rewrite <-days_before_month_succ by done. assert (0 <= m' - (m + 1)) as Hd by lia.
  replace m' with (m + 1 + (m' - (m + 1))) by lia. revert Hd. generalize (m' - (m + 1)).
  intros n Hn. revert n Hn. apply natlike_ind; [by rewrite Z.add_0_r|].
  intros n Hn IH. rewrite <-Z.add_1_r, Z.add_assoc, (days_before_month_succ y (m + 1 + n)) by lia.
  pose proof (days_bound y (m + 1 + n)). lia.
Qed.

Definition ordinal_day (u : utc_fields) : Z :=
  day_from_year (year u) + days_before_month (year u) (month u) + (day u - 1).

Lemma days_in_year u : proper_utc u →
  0 <= days_before_month (year u) (month u) ∧
  days_before_month (year u) (month u) + daysInMonth (year u) (month u) <=
    (if leap_year (year u) then 366 else 365).
Proof.
  intros (Hv & _). unfold valid_utc in Hv. breflect. rewrite <-days_of_year. split.
  - destruct (Z.eq_dec (month u) 1) as [->|]; [done|].
    pose proof (days_before_month_mono (year u) 1 (month u)). pose proof (days_bound (year u) 1).
    change (days_before_month (year u) 1) with 0 in *. lia.
  - apply days_before_month_mono; lia.
Qed.

Lemma milliseconds_bound f : Forall is_digit f → 0 <= milliseconds_of f <= 999.
Proof.
  intros Hf. unfold milliseconds_of.
  assert (Forall is_digit (f ++ [0; 0; 0])) as Hall.
  { apply Forall_app. split; [done|]. repeat constructor; unfold is_digit; lia. }
  destruct f as [|a [|b [|c f]]]; simpl; repeat (apply Forall_cons in Hall as [? Hall]);
    simpl; unfold is_digit in *; lia.
Qed.

Fixpoint lex_lt (l r : list Z) : Prop :=
  match l, r with
  | a :: l', b :: r' => a < b ∨ (a = b ∧ lex_lt l' r')
  | _, _ => False
  end.

Definition utc_key (u : utc_fields) : list Z :=
  [year u; month u; day u; hour u; minute u; second u; milliseconds_of (fraction u)].

(** every date that the pattern can print is parsed to its instant, and
    instants are ordered as the dates are read: a chronologically earlier date
    gives a smaller number, so the comparison with the cutoff is the
    comparison of the dates. *)
Theorem parse_utc_faithful (u v : utc_fields) :
  proper_utc u → proper_utc v →
  parseUtcTimestamp (print_utc u) = Some (utc_ms u) ∧
  (lex_lt (utc_key u) (utc_key v) → utc_ms u < utc_ms v).
Proof.
  intros Hu Hv. split.
  { unfold parseUtcTimestamp. rewrite match_print by done. simpl. by destruct Hu as (-> & _). }
  pose proof (days_in_year u Hu) as [Hd1 Hd2]. pose proof (days_in_year v Hv) as [Hd3 Hd4].
  destruct Hu as (Huv & _ & Hh & Hm & Hs & _ & Hfu). destruct Hv as (Hvv & _ & Hh' & Hm' & Hs' & _ & Hfv).
  apply milliseconds_bound in Hfu, Hfv. unfold valid_utc in *. breflect. intros Hlex.
  assert (ordinal_day u < ordinal_day v ∨ (ordinal_day u = ordinal_day v ∧
    lex_lt [hour u; minute u; second u; milliseconds_of (fraction u)]
           [hour v; minute v; second v; milliseconds_of (fraction v)])) as Hcase.
  { unfold ordinal_day. simpl in Hlex. destruct Hlex as [Hy|[Hy [Hmo|[Hmo [Hda|[Hda Hrest]]]]]].
    - pose proof (day_from_year_mono _ _ Hy). left. lia.
    - rewrite Hy in *. pose proof (days_before_month_mono (year v) (month u) (month v) ltac:(lia) Hmo). left. lia.
    - rewrite Hy, Hmo in *. left. lia.
    - rewrite Hy, Hmo, Hda in *. right. done. }
  change (utc_ms u) with ((ordinal_day u * 24 + hour u) * 3600000 + minute u * 60000 +
    second u * 1000 + milliseconds_of (fraction u)).
  change (utc_ms v) with ((ordinal_day v * 24 + hour v) * 3600000 + minute v * 60000 +
    second v * 1000 + milliseconds_of (fraction v)).
  simpl in Hcase. lia.
Qed.

(** * Concrete instances *)

Definition sample_utc (d : Z) : utc_fields := Utc 2026 2 d 23 59 59 [9; 9].

Lemma sample_utc_proper d : 1 <= d <= 28 → proper_utc (sample_utc d).
Proof.
  intros Hd. unfold proper_utc, valid_utc, sample_utc. simpl.
  rewrite (proj2 (Z.leb_le 1 d)) by lia.
  change (daysInMonth 2026 2) with 28. rewrite (proj2 (Z.leb_le d 28)) by lia.
  split_and!; try done; try lia. repeat constructor; unfold is_digit; lia.
Qed.

Lemma parse_utc_faithful_witness :
  parseUtcTimestamp (js "2026-02-28T23:59:59.99Z") = Some 1772323199990 ∧
  utc_ms (sample_utc 1) < utc_ms (sample_utc 28).
Proof.
  pose proof (sample_utc_proper 28 ltac:(lia)) as H28.
  pose proof (sample_utc_proper 1 ltac:(lia)) as H1. split.
  - exact (proj1 (parse_utc_faithful _ _ H28 H28)).
  - apply (parse_utc_faithful _ _ H1 H28). simpl. lia.
Defined.

(** A tracker and an index that have been idle, and a running session. *)
Definition sample_cleanup_world : cleanup_world tracker index :=
  CleanupWorld
    (Some {| structureRevision := 1;
             tabs := [{| tab_id := js "11111111-1111-4111-8111-111111111111";
                         displayName := js "Terminal 1"; position := 0;
                         createdAt := js "2026-01-01T00:00:00.000Z";
                         lastActivityAt := js "2026-01-02T00:00:00.000Z";
                         desiredState := active |}] |})
    new_tracker new_index ∅.
Definition sample_request : EligibilityRequest :=
  {| req_id := js "11111111-1111-4111-8111-111111111111";
     thresholdMs := 3600000; cutoffMs := 1772323199990 |}.
(** The runtime answers at once. *)
Definition sample_exists (id : jsstr) : M (cleanup_world tracker index) unit bool := ret true.

Lemma sample_evolves id :
  evolves sample_cleanup_world (sample_exists id sample_cleanup_world).2.
Proof.
  split; [by exists []|].
  exists sample_index_options, sample_world, sample_handler, (SampleWorld [] []), [], [].
  split_and!; [exact _|by apply new_index_ok|done].
Qed.

Lemma eligible_sound_witness :
  ∃ snap, read sample_exists sample_request sample_cleanup_world =
      (Ok snap, sample_cleanup_world) ∧ eligible snap = true ∧
    truly_stale sample_request sample_cleanup_world sample_cleanup_world.
Proof.
  assert (cs_ok (CleanupSource := tracker_source) (cw_activity sample_cleanup_world)) as HA
    by (exists new_ledger; exact new_run_ok).
  assert (cs_ok (CleanupSource := index_source) (cw_sockets sample_cleanup_world)) as HB
    by (exists sample_index_options; exact (new_index_ok sample_index_options eq_refl)).
  destruct (eligible_sound sample_exists sample_request sample_cleanup_world HA HB
    sample_evolves) as (snap & Hsnap & Hstale).
  exists snap. injection Hsnap as <-. split; [reflexivity|].
  split; [vm_compute; reflexivity|]. apply Hstale. vm_compute. reflexivity.
Defined.
