(* ===== verification/IsoDate.v ===== *)
(** [Date.prototype.toISOString] as a string, and the check that a string is
    one ([new Date(value).toISOString() === value]). *)
From S2P Require Import Prelude Eligibility.
Open Scope Z_scope.

(** * From an instant to its date *)

Definition MS_PER_DAY : Z := 86400000.

(** The estimate is off by at most one year. *)
Definition year_of_day (d : Z) : Z :=
  let y := 400 * d / 146097 + 1970 in
  if d <? day_from_year y then y - 1
  else if day_from_year (y + 1) <=? d then y + 1 else y.

Fixpoint month_of (y : Z) (fuel : nat) (m d : Z) : Z * Z :=
  match fuel with
  | O => (m, d)
  | S f => if d <? daysInMonth y m then (m, d) else month_of y f (m + 1) (d - daysInMonth y m)
  end.

Definition utc_of_ms (ms : Z) : utc_fields :=
  let d := ms / MS_PER_DAY in
  let t := ms mod MS_PER_DAY in
  let y := year_of_day d in
  let '(m, k) := month_of y 11 1 (d - day_from_year y) in
  Utc y m (k + 1) (t / 3600000) (t / 60000 mod 60) (t / 1000 mod 60)
    [t mod 1000 / 100; t mod 1000 / 10 mod 10; t mod 10].

Lemma year_of_day_ok d : day_from_year (year_of_day d) <= d < day_from_year (year_of_day d + 1).
Proof.
  unfold year_of_day. set (y := 400 * d / 146097 + 1970).
  assert (day_from_year (y - 1) <= d < day_from_year (y + 2)) as H.
  { subst y. unfold day_from_year. Z.to_euclidean_division_equations; lia. }
  destruct (Z.ltb_spec d (day_from_year y)) as [?|?].
  - replace (y - 1 + 1) with y by lia. lia.
  - destruct (Z.leb_spec (day_from_year (y + 1)) d) as [?|?]; [|lia].
    replace (y + 1 + 1) with (y + 2) by lia. lia.
Qed.

Lemma month_of_ok y fuel : ∀ m d, 1 <= m → m + Z.of_nat fuel <= 12 → 0 <= d →
  d < days_before_month y 13 - days_before_month y m →
  m + Z.of_nat fuel = 12 →
  let '(m', k) := month_of y fuel m d in
  m <= m' <= 12 ∧ 0 <= k < daysInMonth y m' ∧ days_before_month y m' + k = days_before_month y m + d.
Proof.
  induction fuel as [|f IH]; intros m d Hm _ Hd Hlt Hf; cbn [month_of].
  - assert (m = 12) as -> by lia. split_and!; try lia.
    pose proof (days_before_month_succ y 12 ltac:(lia)) as E. change (12 + 1) with 13 in E. lia.
  - destruct (Z.ltb_spec d (daysInMonth y m)) as [?|?]; [lia|].
    specialize (IH (m + 1) (d - daysInMonth y m)). rewrite days_before_month_succ in IH by lia.
    destruct (month_of y f (m + 1) (d - daysInMonth y m)) as [m' k].
    destruct IH as (? & ? & ?); lia.
Qed.

(** The fields of an instant, and the instant of its fields. *)
Lemma utc_of_ms_ok ms : let u := utc_of_ms ms in
  utc_ms u = ms ∧ valid_utc u = true ∧ 0 <= hour u ∧ 0 <= minute u ∧ 0 <= second u ∧
  length (fraction u) = 3%nat ∧ Forall is_digit (fraction u) ∧ year u = year_of_day (ms / MS_PER_DAY).
Proof.
  unfold utc_of_ms. set (d := ms / MS_PER_DAY). set (t := ms mod MS_PER_DAY). set (y := year_of_day d).
  pose proof (year_of_day_ok d) as Hy. fold y in Hy. rewrite day_from_year_succ, <-days_of_year in Hy.
  pose proof (month_of_ok y 11 1 (d - day_from_year y)) as Hm.
  change (days_before_month y 1) with 0 in Hm.
  destruct (month_of y 11 1 (d - day_from_year y)) as [m k].
  destruct Hm as (Hm & Hk & Hd); [lia..|].
  assert (0 <= t < MS_PER_DAY) as Ht by (apply Z.mod_pos_bound; done).
  assert (ms = MS_PER_DAY * d + t) as Hms by (apply Z.div_mod; done).
  clearbody d t y. unfold MS_PER_DAY in *. cbn zeta. split_and!.
  - unfold utc_ms, milliseconds_of. cbn [year month day hour minute second fraction take app foldl].
    Z.to_euclidean_division_equations; lia.
  - unfold valid_utc. cbn [year month day hour minute second fraction].
    rewrite !andb_true_iff, !Z.leb_le. Z.to_euclidean_division_equations; lia.
  - cbn. apply Z.div_pos; lia.
  - cbn. by apply Z.mod_pos_bound.
  - cbn. by apply Z.mod_pos_bound.
  - done.
  - cbn. repeat constructor; unfold is_digit; Z.to_euclidean_division_equations; lia.
  - done.
Qed.

(** * Printing and parsing *)

Definition print_year (y : Z) : jsstr :=
  if (0 <=? y) && (y <=? 9999) then print_digits 4 y
  else (if y <? 0 then 45 else 43) :: print_digits 6 (Z.abs y).
(** [-MM-DDTHH:mm:ss.sssZ] *)
Definition print_rest (u : utc_fields) : jsstr :=
  [45] ++ print_digits 2 (month u) ++ [45] ++
  print_digits 2 (day u) ++ [84] ++ print_digits 2 (hour u) ++ [58] ++
  print_digits 2 (minute u) ++ [58] ++ print_digits 2 (second u) ++
  match fraction u with [] => [] | ds => [46] ++ ((λ d, 48 + d) <$> ds) end ++ [90].
(** [new Date(ms).toISOString()] for a valid date *)
Definition iso_string (ms : Z) : jsstr :=
  print_year (year (utc_of_ms ms)) ++ print_rest (utc_of_ms ms).

Definition take_year (s : jsstr) : option (Z * jsstr) :=
  match s with
  | [] => None
  | c :: r =>
      if c =? 43 then take_digits 6 0 r
      else if c =? 45 then '(y, r) ← take_digits 6 0 r; Some (- y, r)
      else take_digits 4 0 s
  end.
Definition match_iso (s : jsstr) : option utc_fields :=
  '(y, s) ← take_year s; s ← take_char 45 s;
  '(mo, s) ← take_digits 2 0 s; s ← take_char 45 s;
  '(d, s) ← take_digits 2 0 s; s ← take_char 84 s;
  '(h, s) ← take_digits 2 0 s; s ← take_char 58 s;
  '(mi, s) ← take_digits 2 0 s; s ← take_char 58 s;
  '(se, s) ← take_digits 2 0 s;
  '(f, s) ← take_fraction s; s ← take_char 90 s;
  match s with [] => Some (Utc y mo d h mi se f) | _ => None end.
(** The instant of a string that [toISOString] prints. *)
Definition iso_ms (s : jsstr) : option Z :=
  u ← match_iso s;
  if (- MAX_DATE <=? utc_ms u) && (utc_ms u <=? MAX_DATE) && bool_decide (iso_string (utc_ms u) = s)
  then Some (utc_ms u) else None.

Lemma year_range ms : - MAX_DATE <= ms <= MAX_DATE →
  -271821 <= year_of_day (ms / MS_PER_DAY) <= 275760.
Proof.
  intros H. assert (-100000000 <= ms / MS_PER_DAY <= 100000000) as Hd.
  { unfold MAX_DATE, MS_PER_DAY in *. Z.to_euclidean_division_equations; lia. }
  pose proof (year_of_day_ok (ms / MS_PER_DAY)) as [H1 H2]. unfold day_from_year in *.
  Z.to_euclidean_division_equations; lia.
Qed.
Lemma take_print_year y s : -1000000 < y < 1000000 → take_year (print_year y ++ s) = Some (y, s).
Proof.
  intros Hy. unfold print_year. destruct (_ && _) eqn:E.
  - apply andb_true_iff in E as [E1%Z.leb_le E2%Z.leb_le].
    assert (∃ c r, print_digits 4 y ++ s = c :: r ∧ 48 <= c) as (c & r & Hc & Hr).
    { cbn -[Z.div Z.modulo]. eexists _, _. split; [done|]. Z.to_euclidean_division_equations; lia. }
    assert (take_digits 4 0 (print_digits 4 y ++ s) = Some (y, s)) as Ht
      by (rewrite take_print_digits by (simpl; lia); done).
    rewrite Hc in Ht |- *. unfold take_year.
    rewrite (proj2 (Z.eqb_neq c 43)), (proj2 (Z.eqb_neq c 45)) by lia. exact Ht.
  - apply andb_false_iff in E. rewrite !Z.leb_gt in E.
    cbn [app]. destruct (Z.ltb_spec y 0); cbn [take_year Z.eqb Pos.eqb];
      rewrite take_print_digits by (simpl; lia); cbn [mbind option_bind]; do 2 f_equal; lia.
Qed.
Lemma match_iso_string ms : - MAX_DATE <= ms <= MAX_DATE → match_iso (iso_string ms) = Some (utc_of_ms ms).
Proof.
  intros Hr. pose proof (year_range ms Hr) as Hy.
  destruct (utc_of_ms_ok ms) as (_ & Hv & Hh & Hm & Hs & Hl & Hf & Hyr). rewrite <-Hyr in Hy.
  unfold match_iso, iso_string. rewrite take_print_year by lia. cbn [mbind option_bind].
  set (u := utc_of_ms ms) in *. clearbody u. unfold valid_utc in Hv. breflect.
  pose proof (days_bound (year u) (month u)).
  assert (∀ a b : Z, 0 * a + b = b) as Hz by lia. unfold print_rest.
  cbn [app]. rewrite take_char_eq; cbn [mbind option_bind]; rewrite take_print_digits by (simpl; lia);
    rewrite Hz; cbn [mbind option_bind].
  do 4 (cbn [app]; rewrite take_char_eq; cbn [mbind option_bind];
        rewrite take_print_digits by (simpl; lia); rewrite Hz; cbn [mbind option_bind]).
  rewrite take_fraction_print by (lia || done). simpl. by destruct u.
Qed.

(** Exactly the strings that [toISOString] prints pass, with their instant. *)
Lemma iso_ms_spec s ms : iso_ms s = Some ms ↔ - MAX_DATE <= ms <= MAX_DATE ∧ s = iso_string ms.
Proof.
  unfold iso_ms. split.
  - intros (u & Hu & Hs)%bind_Some. case_match eqn:E; [|done]. injection Hs as <-.
    rewrite !andb_true_iff, !Z.leb_le, bool_decide_eq_true in E. by destruct E as [? ->].
  - intros [Hr ->]. rewrite match_iso_string by done. cbn [mbind option_bind].
    pose proof (utc_of_ms_ok ms) as (-> & _).
    rewrite bool_decide_true by done. rewrite !(proj2 (Z.leb_le _ _)) by lia. done.
Qed.
Lemma iso_ms_string ms : - MAX_DATE <= ms <= MAX_DATE → iso_ms (iso_string ms) = Some ms.
Proof. intros. by apply iso_ms_spec. Qed.
Lemma iso_string_inj a b : - MAX_DATE <= a <= MAX_DATE → - MAX_DATE <= b <= MAX_DATE →
  iso_string a = iso_string b → a = b.
Proof. intros Ha Hb E. apply iso_ms_string in Ha, Hb. congruence. Qed.

Example iso_samples :
  iso_string 0 = js "1970-01-01T00:00:00.000Z" ∧
  iso_string 1700000000123 = js "2023-11-14T22:13:20.123Z" ∧
  iso_string (-62198755200000) = js "-000001-01-01T00:00:00.000Z" ∧
  iso_string MAX_DATE = js "+275760-09-13T00:00:00.000Z" ∧
  iso_ms (js "2024-02-30T00:00:00.000Z") = None ∧ iso_ms (js "2024-02-29T00:00:00Z") = None.
Proof. split_and!; vm_compute; reflexivity. Qed.
