(* ===== verification/PromiseQueue.v ===== *)
(** A chain of asynchronous operations
    ([this.tail = this.tail.then(operation, operation)]): the operations that
    have not started, the one that has with what it awaits, and how the promise
    of every call settled. *)
From S2P Require Import Prelude.

Section queue.
Context {J A O : Type}.

Record queue := Queue {
  jobs : list (nat * J);
  active : option (nat * A);
  calls : nat;
  settled : list (nat * O);
}.

Definition empty_queue : queue := Queue [] None 0 [].
(** A call that queues an operation, and one that settles at once. *)
Definition enqueue (j : J) (q : queue) : queue :=
  Queue (jobs q ++ [(calls q, j)]) (active q) (S (calls q)) (settled q).
Definition settle_call (r : O) (q : queue) : queue :=
  Queue (jobs q) (active q) (S (calls q)) (settled q ++ [(calls q, r)]).
(** The next operation, when none is active. *)
Definition next_job (q : queue) : option (nat * J * queue) :=
  match active q, jobs q with
  | None, (i, j) :: rest => Some (i, j, Queue rest None (calls q) (settled q))
  | _, _ => None
  end.
Definition await (i : nat) (a : A) (q : queue) : queue :=
  Queue (jobs q) (Some (i, a)) (calls q) (settled q).
(** The operation of call [i] ends. *)
Definition settle (i : nat) (r : O) (q : queue) : queue :=
  Queue (jobs q) None (calls q) (settled q ++ [(i, r)]).

Definition ids (q : queue) : list nat :=
  (settled q).*1 ++ match active q with Some a => [a.1] | None => [] end ++ (jobs q).*1.
(** Every call is queued, active or settled, once. *)
Definition queue_ok (q : queue) : Prop := ids q ≡ₚ seq 0 (calls q).

Lemma empty_queue_ok : queue_ok empty_queue.
Proof. unfold queue_ok, ids. cbn. done. Qed.
Lemma enqueue_queue_ok j q : queue_ok q → queue_ok (enqueue j q).
Proof.
  unfold queue_ok, ids. cbn [enqueue jobs active calls settled]. intros Hq. rewrite fmap_app, seq_S.
  rewrite <-Hq, <-!(assoc_L (++)). done.
Qed.
Lemma settle_call_queue_ok r q : queue_ok q → queue_ok (settle_call r q).
Proof.
  unfold queue_ok, ids. cbn [settle_call jobs active calls settled]. intros Hq.
  rewrite fmap_app, seq_S, <-Hq, <-!(assoc_L (++)). apply Permutation_app_head. cbn. by rewrite Permutation_cons_append, <-!(assoc_L (++)).
Qed.
Lemma next_job_Some q i j q' : next_job q = Some (i, j, q') →
  active q = None ∧ jobs q = (i, j) :: jobs q' ∧ active q' = None ∧ calls q' = calls q ∧ settled q' = settled q.
Proof. unfold next_job. repeat case_match; intros [= <- <- <-]; simplify_eq/=; done. Qed.
Lemma next_job_ids q i j q' : next_job q = Some (i, j, q') → queue_ok q →
  (∀ a, queue_ok (await i a q')) ∧ (∀ r, queue_ok (settle i r q')).
Proof.
  intros Hn Hq. apply next_job_Some in Hn as (Ha & Hj & Ha' & Hc & Hs).
  unfold queue_ok, ids in *. cbn [await settle jobs active calls settled]. rewrite Ha, Hj in Hq. rewrite Hc, Hs.
  split; [done|]. intros r. by rewrite fmap_app, <-(assoc_L (++)).
Qed.
Lemma active_ids q i a : active q = Some (i, a) → queue_ok q →
  (∀ a', queue_ok (await i a' q)) ∧ (∀ r, queue_ok (settle i r q)).
Proof.
  intros Ha Hq. unfold queue_ok, ids in *. cbn [await settle jobs active calls settled]. rewrite Ha in Hq. split; [done|].
  intros r. by rewrite fmap_app, <-(assoc_L (++)).
Qed.
(** No call settles twice. *)
Lemma queue_ok_settled q : queue_ok q → NoDup (settled q).*1.
Proof.
  intros Hq. assert (NoDup (ids q)) as Hn by (unfold queue_ok in Hq; rewrite Hq; apply NoDup_seq). by apply NoDup_app in Hn as [? _].
Qed.

(** ** Progress: an operation settles after at most [bound] awaits *)

Variable weight : A → nat.
Definition pending (bound : nat) (q : queue) : nat :=
  (S bound * length (jobs q) + match active q with Some (_, a) => weight a | None => 0 end)%nat.
Lemma next_pending bound q i j q' : next_job q = Some (i, j, q') →
  (∀ r, (pending bound (settle i r q') < pending bound q)%nat) ∧
  (∀ a, (weight a ≤ bound)%nat → (pending bound (await i a q') < pending bound q)%nat).
Proof.
  intros (Ha & Hj & _)%next_job_Some. unfold pending. cbn -[Nat.mul]. rewrite Ha, Hj. cbn [length]. split; intros; lia.
Qed.
Lemma active_pending bound q i a : active q = Some (i, a) → (0 < weight a)%nat →
  (∀ r, (pending bound (settle i r q) < pending bound q)%nat) ∧
  (∀ a', (weight a' < weight a)%nat → (pending bound (await i a' q) < pending bound q)%nat).
Proof. intros Ha Hw. unfold pending. cbn -[Nat.mul]. rewrite Ha. split; intros; lia. Qed.
End queue.
Arguments queue : clear implicits.
