(* ===== verification/CredentialStore.v ===== *)
(** [apps/server/src/credential-store.ts]: the user name and the password hash.

    A store is a state machine over the calls of its methods and the
    settlements of the promises that its operations await: the secure file's,
    which is any [JsonRegister], and those of the password hasher, which is
    bcrypt.  What the hasher and the clock answer is part of the event.  The
    closure of an operation keeps its arguments, so what it awaits is recorded
    with the password. *)
From S2P Require Import Prelude SafeString Json SecureFile JsonRegister Double Settings IsoDate.
From S2P Require Import PromiseQueue.
Open Scope Z_scope.

Definition AUTH_FILENAME : jsstr := js "auth.json".
Definition MAX_PASSWORD_BYTES : Z := 72.
Definition MIN_PASSWORD_BYTES : Z := 12.

Record CredentialRecord := {
  record_username : jsstr;
  passwordHash : jsstr;
  passwordChangedAt : jsstr;
}.

(** * Validation *)

Definition hasControlCharacter (value : jsstr) : bool :=
  existsb (λ c, (c <=? 0x1F) || (c =? 0x7F)) (code_points value).
Definition normalizeUsername `{Platform} (username : jsstr) : option jsstr :=
  let normalized := nfc username in
  if bool_decide (normalized = []) || negb (bool_decide (normalized = username)) ||
     (256 <? utf8ByteLength normalized) || hasControlCharacter normalized
  then None else Some normalized.
Definition isValidPassword (password : jsstr) : bool :=
  negb (bool_decide (0 ∈ password)) &&
  (MIN_PASSWORD_BYTES <=? utf8ByteLength password) && (utf8ByteLength password <=? MAX_PASSWORD_BYTES).
Definition validateCost (cost : num) : bool :=
  is_integer cost && negb (num_ltb cost (Num 10 0)) && negb (num_ltb (Num 15 0) cost).

(** [[./A-Za-z0-9]] *)
Definition bcrypt_char (c : Z) : bool :=
  (c =? 46) || (c =? 47) || ((65 <=? c) && (c <=? 90)) || ((97 <=? c) && (c <=? 122)) ||
  ((48 <=? c) && (c <=? 57)).
(** [BCRYPT_PATTERN.exec(hash)], and the number of its group *)
Definition bcryptCost (hash : jsstr) : option num :=
  match hash with
  | d1 :: v :: m :: d2 :: t :: u :: d3 :: rest =>
      if bool_decide ([d1; v; d2; d3] = js "$2$$") && ((m =? 97) || (m =? 98)) &&
         (t =? 49) && (48 <=? u) && (u <=? 53) && (length rest =? 53)%nat && forallb bcrypt_char rest
      then Some (Num (10 + (u - 48)) 0) else None
  | _ => None
  end.
Definition validateTimestamp (value : jsstr) : bool := bool_decide (is_Some (iso_ms value)).
Definition makeRecord (username hash changedAt : jsstr) : option CredentialRecord :=
  _ ← bcryptCost hash;
  if validateTimestamp changedAt
  then Some {| record_username := username; passwordHash := hash; passwordChangedAt := changedAt |}
  else None.
Definition record_keys : list jsstr :=
  js <$> ["version"; "username"; "passwordHash"; "passwordChangedAt"]%string.
Definition parseRecord `{Platform} (value : json) : option CredentialRecord :=
  match value with
  | JObj fs =>
      if (length fs =? 4)%nat && forallb (λ k, bool_decide (is_Some (field k fs))) record_keys &&
         match field (js "version") fs with Some (JNum z) => z =? 1 | _ => false end
      then
        username ← field (js "username") fs ≫= as_string;
        normalized ← normalizeUsername username;
        hash ← field (js "passwordHash") fs ≫= as_string;
        changedAt ← field (js "passwordChangedAt") fs ≫= as_string;
        if bool_decide (normalized = username) then makeRecord username hash changedAt else None
      else None
  | _ => None
  end.
(** What is written to the file. *)
Definition record_json (r : CredentialRecord) : json :=
  JObj (zip record_keys [JNum 1; JStr (record_username r); JStr (passwordHash r); JStr (passwordChangedAt r)]).
(** The clock's answer; [None] is an exception or an invalid date. *)
Definition currentTimestamp (clock : option Z) : option jsstr :=
  ms ← clock; if (- MAX_DATE <=? ms) && (ms <=? MAX_DATE) then Some (iso_string ms) else None.

(** * The store *)

Inductive job :=
| InitializeLocal (username : jsstr) (cost : num)
| Enroll (password : jsstr)
| Verify (username password : jsstr)
| ReplacePassword (newPassword : jsstr).
Inductive outcome :=
| Initialized
| Enrolled (durable : bool)         (** [outcome: 'enrolled'] and its persistence *)
| Already_initialized
| Enroll_not_committed
| Verified (b : bool)
| Replaced (r : ReplaceResult)
| Failed.

(** [enrolling] is the username for [enroll], and the prior record's for
    [replacePassword]. *)
Inductive purpose := Enrolling | Replacing (prior : CredentialRecord).
Inductive waiting :=
| AwaitRead (username : jsstr) (cost : num)
| AwaitHash (p : purpose) (password : jsstr)
| AwaitReplace (p : purpose) (password : jsstr) (next : CredentialRecord)
| AwaitCompare (username password : jsstr) (record : CredentialRecord).

(** How the awaited call settles: as the file decides, or as bcrypt does, with
    what the clock answers after a hash. *)
Inductive reply :=
| FromFile
| FromHash (hash : option jsstr) (clock : option Z)
| FromCompare (matches : option bool).

Section store.
Context `{Platform} {W : Type} `{JsonRegister W}.
Variable dataDir : jsstr.

Record cstore := CStore {
  world : W;
  current : option CredentialRecord;
  username : jsstr;
  cost : num;
  initializeAttempted : bool;
  initializationComplete : bool;
  operations : queue job waiting outcome;
}.

Definition authPath : jsstr := path_join dataDir AUTH_FILENAME.
Definition construct (w : W) : option cstore :=
  if isAbsolute dataDir then Some (CStore w None [] (Num 0 0) false false empty_queue) else None.

Definition set_operations (q : queue job waiting outcome) (s : cstore) : cstore :=
  CStore (world s) (current s) (username s) (cost s) (initializeAttempted s) (initializationComplete s) q.
Definition set_world (w : W) (s : cstore) : cstore :=
  CStore w (current s) (username s) (cost s) (initializeAttempted s) (initializationComplete s) (operations s).
Definition set_current (r : CredentialRecord) (s : cstore) : cstore :=
  CStore (world s) (Some r) (username s) (cost s) (initializeAttempted s) (initializationComplete s) (operations s).
Definition attempt_initialize (s : cstore) : cstore :=
  CStore (world s) (current s) (username s) (cost s) true (initializationComplete s) (operations s).
Definition finish_initialize (u : jsstr) (c : num) (s : cstore) : cstore :=
  CStore (world s) (current s) u c (initializeAttempted s) true (operations s).
Definition on_queue (f : queue job waiting outcome → queue job waiting outcome) (s : cstore) : cstore :=
  set_operations (f (operations s)) s.

(** ** The methods *)

Definition initializeLocal (u : jsstr) (c : num) (s : cstore) : cstore :=
  on_queue (enqueue (InitializeLocal u c)) s.
Definition isInitialized (s : cstore) : option bool :=
  if initializationComplete s then Some (bool_decide (is_Some (current s))) else None.
Definition enroll (password : jsstr) (s : cstore) : cstore :=
  if initializationComplete s then on_queue (enqueue (Enroll password)) s
  else on_queue (settle_call Failed) s.
Definition verify (u password : jsstr) (s : cstore) : cstore :=
  match current s with
  | None => on_queue (settle_call Failed) s
  | Some _ =>
      if isValidPassword password then on_queue (enqueue (Verify u password)) s
      else on_queue (settle_call (Verified false)) s
  end.
Definition replacePassword (newPassword : jsstr) (s : cstore) : cstore :=
  match current s with
  | None => on_queue (settle_call Failed) s
  | Some _ =>
      if isValidPassword newPassword then on_queue (enqueue (ReplacePassword newPassword)) s
      else on_queue (settle_call Failed) s
  end.

(** ** The operations *)

(** The next operation runs to its first await. *)
Definition start_job (s : cstore) : option cstore :=
  '(i, j, q) ← next_job (operations s);
  Some match j with
  | InitializeLocal u c =>
      if initializeAttempted s then set_operations (settle i Failed q) s
      else
        let s := attempt_initialize s in
        match normalizeUsername u with
        | Some normalized =>
            if validateCost c then set_operations (await i (AwaitRead normalized c) q) s
            else set_operations (settle i Failed q) s
        | None => set_operations (settle i Failed q) s
        end
  | Enroll password =>
      if negb (initializationComplete s) then set_operations (settle i Failed q) s
      else match current s with
      | Some _ => set_operations (settle i Already_initialized q) s
      | None =>
          if isValidPassword password then set_operations (await i (AwaitHash Enrolling password) q) s
          else set_operations (settle i Failed q) s
      end
  | Verify u password =>
      match current s with
      | None => set_operations (settle i Failed q) s
      | Some record => set_operations (await i (AwaitCompare u password record) q) s
      end
  | ReplacePassword newPassword =>
      match current s with
      | None => set_operations (settle i Failed q) s
      | Some prior => set_operations (await i (AwaitHash (Replacing prior) newPassword) q) s
      end
  end.

(** [initializeLocal] after the read. *)
Definition initialize_read (i : nat) (u : jsstr) (c : num) (r : res unit (option json)) (s : cstore) : cstore :=
  match r with
  | Throw _ => on_queue (settle i Failed) s
  | Ok (Some persisted) =>
      match parseRecord persisted with
      | None => on_queue (settle i Failed) s
      | Some record =>
          if bool_decide (record_username record = u)
          then on_queue (settle i Initialized) (finish_initialize u c (set_current record s))
          else on_queue (settle i Failed) s
      end
  | Ok None => on_queue (settle i Initialized) (finish_initialize u c s)
  end.

Definition purpose_username (p : purpose) (s : cstore) : jsstr :=
  match p with Enrolling => username s | Replacing prior => record_username prior end.
(** After the hash: the cost is compared, and the record made with the time. *)
Definition hashed (i : nat) (p : purpose) (password : jsstr) (hash : option jsstr) (clock : option Z)
    (s : cstore) : cstore :=
  match (h ← hash; c ← bcryptCost h;
         if bool_decide (c = cost s)
         then t ← currentTimestamp clock; makeRecord (purpose_username p s) h t
         else None) with
  | Some next => on_queue (await i (AwaitReplace p password next)) s
  | None => on_queue (settle i Failed) s
  end.
(** After the write. *)
Definition replaced (i : nat) (p : purpose) (next : CredentialRecord) (r : res unit ReplaceResult)
    (s : cstore) : cstore :=
  match r, p with
  | Throw _, _ => on_queue (settle i Failed) s
  | Ok not_committed, Enrolling => on_queue (settle i Enroll_not_committed) s
  | Ok not_committed, Replacing _ => on_queue (settle i (Replaced not_committed)) s
  | Ok c, Enrolling =>
      on_queue (settle i (Enrolled match c with committed => true | _ => false end)) (set_current next s)
  | Ok c, Replacing _ => on_queue (settle i (Replaced c)) (set_current next s)
  end.

Definition complete (r : reply) (s : cstore) : option cstore :=
  match active (operations s), r with
  | Some (i, AwaitRead u c), FromFile =>
      let '(r, w) := file_read authPath (world s) in
      Some (initialize_read i u c r (set_world w s))
  | Some (i, AwaitHash p password), FromHash hash clock => Some (hashed i p password hash clock s)
  | Some (i, AwaitReplace p _ next), FromFile =>
      let '(r, w) := file_replace authPath (record_json next) (world s) in
      Some (replaced i p next r (set_world w s))
  | Some (i, AwaitCompare u _ record), FromCompare matches =>
      Some (on_queue (settle i match matches with
        | Some m => Verified (m && bool_decide (u = record_username record))
        | None => Failed
        end) s)
  | _, _ => None
  end.

Inductive event :=
| CallInitializeLocal (u : jsstr) (c : num)
| CallEnroll (password : jsstr)
| CallVerify (u password : jsstr)
| CallReplacePassword (newPassword : jsstr)
| Start
| Complete (r : reply).
Definition cstore_step (e : event) (s : cstore) : option cstore :=
  match e with
  | CallInitializeLocal u c => Some (initializeLocal u c s)
  | CallEnroll password => Some (enroll password s)
  | CallVerify u password => Some (verify u password s)
  | CallReplacePassword newPassword => Some (replacePassword newPassword s)
  | Start => start_job s
  | Complete r => complete r s
  end.
End store.
Arguments cstore W : clear implicits.
