(* ===== verification/CredentialFacts.v ===== *)
(** What the credential store promises over any [JsonRegister] and bcrypt. *)
From S2P Require Import Prelude SafeString Json JsonText Protocol SecureFile SecureFileFacts JsonRegister.
From S2P Require Import Double Settings SettingsFacts IsoDate Eligibility PromiseQueue CredentialStore.
Open Scope Z_scope.

(** * Records and their text *)

Ltac units := repeat (constructor; [unfold unit_ok; lia|]); constructor.
Lemma units_ok_app a b : units_ok a → units_ok b → units_ok (a ++ b).
Proof. intros Ha Hb. by apply Forall_app. Qed.
Lemma print_digits_units n z : units_ok (print_digits n z).
Proof.
  revert z. induction n as [|n IH]; intros z; [constructor|]. apply units_ok_app; [apply IH|].
  pose proof (Z.mod_pos_bound z 10 ltac:(lia)). units.
Qed.
Lemma iso_string_units ms : units_ok (iso_string ms).
Proof.
  destruct (utc_of_ms_ok ms) as (_ & _ & _ & _ & _ & _ & Hf & _).
  assert (units_ok ((λ d, 48 + d) <$> fraction (utc_of_ms ms))) as Hu.
  { apply Forall_fmap. eapply Forall_impl; [exact Hf|]. unfold is_digit, unit_ok. cbn. lia. }
  unfold iso_string, print_year, print_rest. apply units_ok_app.
  - case_match; [apply print_digits_units|]. constructor; [case_match; unfold unit_ok; lia|apply print_digits_units].
  - repeat (apply units_ok_app; [first [apply print_digits_units|units]|]).
    apply units_ok_app; [|units].
    case_match; [constructor|]. by apply units_ok_app; [units|].
Qed.
Lemma validateTimestamp_units v : validateTimestamp v = true → units_ok v.
Proof.
  unfold validateTimestamp. intros [ms [_ ->]%iso_ms_spec]%bool_decide_eq_true. apply iso_string_units.
Qed.
Lemma bcrypt_units h c : bcryptCost h = Some c → units_ok h ∧ validateCost c = true.
Proof.
  destruct h as [|d1 [|v [|m [|d2 [|t [|u [|d3 rest]]]]]]]; try done. unfold bcryptCost.
  destruct (_ && _) eqn:E; [|done]. intros [= <-].
  rewrite !andb_true_iff, orb_true_iff, bool_decide_eq_true, !Z.eqb_eq, !Z.leb_le in E.
  destruct E as ((((((E & Hm) & Ht) & Hu) & Hu') & _) & Hr). vm_compute in E. injection E as -> -> -> ->. split.
  - repeat (constructor; [unfold unit_ok; lia|]). apply Is_true_eq_left, forallb_True in Hr.
    eapply Forall_impl; [exact Hr|]. intros c Hc%Is_true_eq_true. unfold bcrypt_char in Hc.
    rewrite !orb_true_iff, !andb_true_iff, !Z.leb_le, !Z.eqb_eq in Hc. unfold unit_ok. lia.
  - assert (u = 48 ∨ u = 49 ∨ u = 50 ∨ u = 51 ∨ u = 52 ∨ u = 53) as Hcases by lia.
    by destruct Hcases as [->|[->|[->|[->|[->| ->]]]]].
Qed.

Definition record_ok `{Platform} (r : CredentialRecord) : Prop :=
  normalizeUsername (record_username r) = Some (record_username r) ∧ units_ok (record_username r) ∧
  is_Some (bcryptCost (passwordHash r)) ∧ validateTimestamp (passwordChangedAt r) = true.

Lemma makeRecord_Some u h t r : makeRecord u h t = Some r →
  r = {| record_username := u; passwordHash := h; passwordChangedAt := t |} ∧
  is_Some (bcryptCost h) ∧ validateTimestamp t = true.
Proof.
  unfold makeRecord. intros (c & Hc & Hr)%bind_Some. case_match; [|done]. injection Hr as <-.
  split_and!; [done|by exists c|done].
Qed.
Lemma makeRecord_ok `{Platform} r : record_ok r →
  makeRecord (record_username r) (passwordHash r) (passwordChangedAt r) = Some r.
Proof. intros (_ & _ & [c Hc] & Ht). unfold makeRecord. rewrite Hc, Ht. by destruct r. Qed.

Lemma parseRecord_ok `{Platform} v r : json_ok v → parseRecord v = Some r → record_ok r.
Proof.
  intros Hv. destruct v as [| | | | | |fs]; try done. unfold parseRecord. case_match; [|done].
  intros (u & (vu & Hu & Hus)%bind_Some & (n & Hn & (h & _ & (t & _ & Hr)%bind_Some)%bind_Some)%bind_Some)%bind_Some.
  case_bool_decide as E; [|done]. subst n. apply makeRecord_Some in Hr as (-> & ? & ?).
  split_and!; try done. apply (field_json_ok fs _ _ Hv) in Hu. by destruct vu; simplify_eq/=.
Qed.
Lemma parseRecord_json `{Platform} r : record_ok r → parseRecord (record_json r) = Some r.
Proof.
  intros Hr. pose proof (makeRecord_ok r Hr) as Hm. destruct Hr as (Hu & _).
  unfold parseRecord, record_json. match goal with |- (if ?b then _ else _) = _ => assert (b = true) as -> by (vm_compute; reflexivity) end.
  change (field (js "username") _ ≫= as_string) with (Some (record_username r)).
  change (field (js "passwordHash") _ ≫= as_string) with (Some (passwordHash r)).
  change (field (js "passwordChangedAt") _ ≫= as_string) with (Some (passwordChangedAt r)).
  cbn [mbind option_bind]. rewrite Hu. cbn [mbind option_bind]. by rewrite bool_decide_true.
Qed.
Lemma record_writable `{Platform} r : record_ok r → writable (record_json r).
Proof.
  intros (_ & Hu & [c Hc] & Ht). apply bcrypt_units in Hc as [Hh _]. apply validateTimestamp_units in Ht.
  split.
  - apply json_ok_obj. split; [by apply NoDup_keys|].
    repeat (constructor; [split; [apply units_ok_literal; vm_compute; reflexivity|cbn; done || lia]|]). constructor.
  - replace Preflight.depth_budget with (S (S 255)) by (vm_compute; reflexivity). cbn. lia.
Qed.

(** * The store *)

Section facts.
Context `{Platform} {W : Type} `{JsonRegister W, !JsonRegisterLaws W writable}.
Variable dataDir : jsstr.
(** [bcrypt.compare] *)
Variable matches : jsstr → jsstr → bool.
Implicit Types s : cstore W.

Definition auth_file s : option json := file_value (world s) (authPath dataDir).
Definition recorded (v : option json) (r : CredentialRecord) : Prop := ∃ j, v = Some j ∧ parseRecord j = Some r.

Definition job_ok (j : job) : Prop :=
  match j with
  | InitializeLocal u _ => units_ok u
  | Verify _ p | ReplacePassword p => isValidPassword p = true
  | Enroll _ => True
  end.
Definition purpose_ok s (p : purpose) : Prop :=
  initializationComplete s = true ∧
  match p with Enrolling => current s = None | Replacing r => current s = Some r end.
(** A record for this password, as the store makes it. *)
Definition made_for s (password : jsstr) (r : CredentialRecord) : Prop :=
  record_ok r ∧ record_username r = username s ∧ bcryptCost (passwordHash r) = Some (cost s) ∧
  matches password (passwordHash r) = true.
Definition waiting_ok s (a : waiting) : Prop :=
  match a with
  | AwaitRead u c => current s = None ∧ initializeAttempted s = true ∧ initializationComplete s = false ∧
      normalizeUsername u = Some u ∧ units_ok u ∧ validateCost c = true
  | AwaitHash p pw => purpose_ok s p ∧ isValidPassword pw = true
  | AwaitReplace p pw next => purpose_ok s p ∧ isValidPassword pw = true ∧ made_for s pw next
  | AwaitCompare _ pw r => current s = Some r ∧ isValidPassword pw = true
  end.
Record cstore_ok (v0 : option json) s : Prop := {
  ck_current : match current s with
    | Some r => record_ok r ∧ recorded (auth_file s) r ∧ record_username r = username s ∧
        initializationComplete s = true
    | None => auth_file s = v0
    end;
  ck_complete : initializationComplete s = true → initializeAttempted s = true ∧
    normalizeUsername (username s) = Some (username s) ∧ units_ok (username s) ∧ validateCost (cost s) = true;
  ck_file : ∀ j, auth_file s = Some j → json_ok j;
  ck_jobs : ∀ i j, (i, j) ∈ jobs (operations s) → job_ok j;
  ck_active : ∀ i a, active (operations s) = Some (i, a) → waiting_ok s a;
  ck_queue : queue_ok (operations s);
}.

(** What the callers pass, and what bcrypt answers: a hash that matches its
    password, and the comparison. *)
Definition event_ok s (e : event) : Prop :=
  match e with
  | CallInitializeLocal u _ => units_ok u
  | Complete (FromHash (Some h) _) =>
      match active (operations s) with
      | Some (_, AwaitHash _ pw) => matches pw h = true
      | _ => True
      end
  | Complete (FromCompare (Some m)) =>
      match active (operations s) with
      | Some (_, AwaitCompare _ pw r) => m = matches pw (passwordHash r)
      | _ => True
      end
  | _ => True
  end.

Lemma operations_ok v0 s q : cstore_ok v0 s → queue_ok q →
  (∀ i j, (i, j) ∈ jobs q → job_ok j) → (∀ i a, active q = Some (i, a) → waiting_ok s a) →
  cstore_ok v0 (set_operations q s).
Proof. intros [] ???. by split. Qed.
Lemma cred_enqueue_ok v0 s j : cstore_ok v0 s → job_ok j → cstore_ok v0 (on_queue (enqueue j) s).
Proof.
  intros Hok Hj. apply operations_ok; [done|apply enqueue_queue_ok, Hok| |apply Hok].
  cbn. intros i j' [?|Hin%list_elem_of_singleton]%elem_of_app; [by eapply ck_jobs|by simplify_eq].
Qed.
Lemma settle_call_ok v0 s r : cstore_ok v0 s → cstore_ok v0 (on_queue (settle_call r) s).
Proof. intros Hok. by apply operations_ok; [|apply settle_call_queue_ok, Hok|apply Hok..]. Qed.
(** The active operation ends, or awaits the next call. *)
Lemma cred_finish_ok v0 s s' i a r : cstore_ok v0 s → active (operations s) = Some (i, a) →
  operations s' = operations s →
  match current s' with
  | Some r => record_ok r ∧ recorded (auth_file s') r ∧ record_username r = username s' ∧
      initializationComplete s' = true
  | None => auth_file s' = v0
  end →
  (initializationComplete s' = true → initializeAttempted s' = true ∧
    normalizeUsername (username s') = Some (username s') ∧ units_ok (username s') ∧ validateCost (cost s') = true) →
  (∀ j, auth_file s' = Some j → json_ok j) → cstore_ok v0 (on_queue (settle i r) s').
Proof.
  intros Hok Ha Hs ???. unfold on_queue. rewrite Hs. split; try done; cbn.
  - apply Hok.
  - by apply (active_ids _ _ _ Ha), Hok.
Qed.
Lemma end_ok v0 s i a r : cstore_ok v0 s → active (operations s) = Some (i, a) →
  cstore_ok v0 (on_queue (settle i r) s).
Proof. intros Hok Ha. by eapply cred_finish_ok; [exact Hok|exact Ha|done|apply Hok..]. Qed.
Lemma cred_await_ok v0 s i a a' : cstore_ok v0 s → active (operations s) = Some (i, a) → waiting_ok s a' →
  cstore_ok v0 (on_queue (await i a') s).
Proof.
  intros Hok Ha Hw. apply operations_ok; [done|by apply (active_ids _ _ _ Ha), Hok|apply Hok|].
  cbn. intros ? ? [= <- <-]. done.
Qed.

Lemma cred_start_ok v0 s s' : cstore_ok v0 s → start_job s = Some s' → cstore_ok v0 s' ∧
  current s' = current s ∧ username s' = username s ∧ world s' = world s.
Proof.
  intros Hok. unfold start_job. intros (((i & j) & q) & Hn & [= <-])%bind_Some.
  destruct (next_job_ids _ _ _ _ Hn (ck_queue _ _ Hok)) as [Hqa Hqs].
  pose proof (next_job_Some _ _ _ _ Hn) as (Ha & Hj & Ha' & _ & _).
  assert (∀ i' j', (i', j') ∈ jobs q → job_ok j') as Hjobs.
  { intros i' j' Hin. apply (ck_jobs _ _ Hok i'). rewrite Hj. by apply list_elem_of_further. }
  assert (∀ s r, cstore_ok v0 s → cstore_ok v0 (set_operations (settle i r q) s)) as Hend
    by (intros; by apply operations_ok).
  assert (∀ s a, cstore_ok v0 s → waiting_ok s a → cstore_ok v0 (set_operations (await i a q) s)) as Hawait.
  { intros. apply operations_ok; [done..|]. intros ? ? [= <- <-]. done. }
  assert (job_ok j) as Hjob by (apply (ck_jobs _ _ Hok i); rewrite Hj; apply list_elem_of_here).
  pose proof (ck_current _ _ Hok) as Hcur. destruct j as [u c|pw|u pw|pw].
  - destruct (initializeAttempted s) eqn:Hat; [by split; [apply Hend|]|].
    assert (initializationComplete s = false) as Hic.
    { destruct (initializationComplete s) eqn:E; [|done]. apply (ck_complete _ _ Hok) in E as [? _]. congruence. }
    assert (current s = None) as Hcn.
    { destruct (current s); [|done]. destruct Hcur as (_ & _ & _ & ?). congruence. }
    assert (cstore_ok v0 (attempt_initialize s)) as Hok'.
    { split; cbn; [apply Hok|congruence|apply Hok|apply Hok|congruence|apply Hok]. }
    destruct (normalizeUsername u) as [n|] eqn:Hu; [|by split; [apply Hend|]].
    assert (n = u ∧ normalizeUsername u = Some u) as [-> Hu'].
    { unfold normalizeUsername in Hu |- *. case_match eqn:E; [done|]. injection Hu as <-.
      rewrite !orb_false_iff, negb_false_iff, bool_decide_eq_true in E. by destruct E as (((_ & ->) & _) & _). }
    destruct (validateCost c) eqn:Hc; (split; [|done]); [apply Hawait; [done|by split_and!]|by apply Hend].
  - destruct (initializationComplete s) eqn:Hic; cbn [negb]; [|by split; [apply Hend|]].
    destruct (current s) eqn:Hc; [by split; [apply Hend|]|].
    destruct (isValidPassword pw) eqn:Hv; (split; [|done]); [apply Hawait|by apply Hend]; done.
  - destruct (current s) eqn:Hc; (split; [|done]); [apply Hawait|by apply Hend]; done.
  - destruct (current s) eqn:Hc; (split; [|done]); [apply Hawait|by apply Hend]; try done.
    split; [|done]. split; [apply Hcur|done].
Qed.

Lemma auth_read_ok v0 s i u c : cstore_ok v0 s → active (operations s) = Some (i, AwaitRead u c) →
  ∃ s' r, complete dataDir FromFile s = Some s' ∧ cstore_ok v0 s' ∧ auth_file s' = auth_file s ∧
    settled (operations s') = settled (operations s) ++ [(i, r)] ∧
    match r with
    | Initialized => initializationComplete s' = true ∧ username s' = u ∧
        match current s' with Some r0 => recorded (auth_file s) r0 | None => auth_file s = None end
    | Failed => current s' = None ∧ initializationComplete s' = false
    | _ => False
    end.
Proof.
  intros Hok Ha. destruct (ck_active _ _ Hok _ _ Ha) as (Hc & Hat & Hic & Hu & Huu & Hcost).
  pose proof (ck_current _ _ Hok) as Hcur. rewrite Hc in Hcur.
  unfold complete. rewrite Ha. pose proof (file_read_law (authPath dataDir) (world s)) as Hl.
  destruct (file_read (authPath dataDir) (world s)) as [r w] eqn:Hr. destruct Hl as [Hw Hl].
  assert (auth_file (set_world w s) = auth_file s) as Hf by apply Hw.
  assert (∀ r, cstore_ok v0 (on_queue (settle i r) (set_world w s))) as Hfail.
  { intros r'. eapply cred_finish_ok; [exact Hok|exact Ha|done|..]; cbn.
    - rewrite Hc. by rewrite Hf.
    - by rewrite Hic.
    - intros j. rewrite Hf. apply Hok. }
  unfold initialize_read. destruct r as [[j|]|].
  - assert (auth_file s = Some j) as Hj by done.
    destruct (parseRecord j) as [r0|] eqn:Hp; [|by eexists _, Failed; split_and!].
    case_bool_decide as Hun; [|by eexists _, Failed; split_and!].
    eexists _, Initialized. split_and!; [done| |done..|by exists j].
    eapply cred_finish_ok; [exact Hok|exact Ha|done|..]; cbn.
    + split_and!; [eapply (parseRecord_ok j); [by apply (ck_file _ _ Hok)|done]|exists j|..]; try done.
      by change (auth_file (set_world w s) = Some j ∧ parseRecord j = Some r0); rewrite Hf.
    + done.
    + change (∀ j, auth_file (set_world w s) = Some j → json_ok j). rewrite Hf. apply Hok.
  - assert (auth_file s = None) as Hj by done.
    eexists _, Initialized. split_and!; [done| |done..|cbn; by rewrite Hc].
    eapply cred_finish_ok; [exact Hok|exact Ha|done|..]; cbn.
    + rewrite Hc. change (auth_file (set_world w s) = v0). congruence.
    + done.
    + change (∀ j, auth_file (set_world w s) = Some j → json_ok j). rewrite Hf. apply Hok.
  - by eexists _, Failed; split_and!.
Qed.

Lemma auth_hash_ok v0 s i p pw h clock s' : cstore_ok v0 s → active (operations s) = Some (i, AwaitHash p pw) →
  event_ok s (Complete (FromHash h clock)) → complete dataDir (FromHash h clock) s = Some s' →
  cstore_ok v0 s' ∧ current s' = current s ∧ username s' = username s ∧ world s' = world s ∧
  (settled (operations s') = settled (operations s) ∨
   settled (operations s') = settled (operations s) ++ [(i, Failed)]).
Proof.
  intros Hok Ha He. destruct (ck_active _ _ Hok _ _ Ha) as (Hp & Hpw).
  unfold complete. rewrite Ha. intros [= <-]. unfold hashed.
  destruct (_ ≫= _) as [next|] eqn:Hn; (split; [|split_and!; auto]); [|by eapply end_ok].
  apply bind_Some in Hn as (h' & -> & (c & Hc & Hn)%bind_Some). case_bool_decide as Hcc; [|done]. subst c.
  apply bind_Some in Hn as (t & Ht & (-> & Hb & Hv)%makeRecord_Some).
  destruct Hp as [Hic Hp]. pose proof (ck_complete _ _ Hok Hic) as (Hat & Hu & Huu & Hcost).
  pose proof (ck_current _ _ Hok) as Hcur.
  assert (purpose_username p s = username s) as Hpu.
  { destruct p as [|r]; [done|]. rewrite Hp in Hcur. apply Hcur. }
  eapply cred_await_ok; [done..|]. split; [done|]. split; [done|]. rewrite Hpu. split; [by split_and!|].
  split_and!; try done. cbn in He. by rewrite Ha in He.
Qed.

(** The write is all or nothing. *)
Definition written s s' i (p : purpose) (pw : jsstr) (next : CredentialRecord) : Prop := ∃ r,
  settled (operations s') = settled (operations s) ++ [(i, r)] ∧ username s' = username s ∧ cost s' = cost s ∧
  match r, p with
  | Enrolled _, Enrolling | Replaced (committed | committed_durability_uncertain), Replacing _ =>
      current s' = Some next ∧ auth_file s' = Some (record_json next)
  | Enroll_not_committed, Enrolling | Replaced not_committed, Replacing _ | Failed, _ =>
      current s' = current s ∧ auth_file s' = auth_file s
  | _, _ => False
  end.
Lemma auth_replace_ok v0 s i p pw next : cstore_ok v0 s →
  active (operations s) = Some (i, AwaitReplace p pw next) →
  ∃ s', complete dataDir FromFile s = Some s' ∧ cstore_ok v0 s' ∧ written s s' i p pw next.
Proof.
  intros Hok Ha. destruct (ck_active _ _ Hok _ _ Ha) as ((Hic & Hp) & Hpw & Hr & Hu & Hcost & Hm).
  pose proof (ck_complete _ _ Hok Hic) as Hcomplete.
  unfold complete. rewrite Ha.
  pose proof (file_replace_law (authPath dataDir) (record_json next) (world s) (record_writable next Hr)) as Hl.
  destruct (file_replace _ _ _) as [r w] eqn:Hw.
  assert (file_value w (authPath dataDir) = auth_file s → ∀ r',
    cstore_ok v0 (on_queue (settle i r') (set_world w s))) as Hfail.
  { intros Hf r'. change (auth_file (set_world w s) = auth_file s) in Hf.
    eapply cred_finish_ok; [exact Hok|exact Ha|done|..].
    - rewrite Hf. apply Hok.
    - done.
    - rewrite Hf. apply Hok. }
  assert (file_value w (authPath dataDir) = Some (record_json next) → ∀ r',
    cstore_ok v0 (on_queue (settle i r') (set_current next (set_world w s)))) as Hdone.
  { intros Hf r'. change (auth_file (set_current next (set_world w s)) = Some (record_json next)) in Hf.
    eapply cred_finish_ok; [exact Hok|exact Ha|done|..].
    - cbn [current set_current]. split_and!; try done. exists (record_json next).
      split; [done|by apply parseRecord_json].
    - done.
    - rewrite Hf. intros j [= <-]. by apply record_writable. }
  eexists. split; [done|]. unfold replaced.
  destruct r as [[]|]; destruct p; cbn in Hl;
    (split; [first [apply Hdone, Hl|apply Hfail, Hl]|eexists; split_and!; [done..|]; cbn; naive_solver]).
Qed.

Lemma auth_compare_ok v0 s i u pw r m s' : cstore_ok v0 s →
  active (operations s) = Some (i, AwaitCompare u pw r) →
  event_ok s (Complete (FromCompare m)) → complete dataDir (FromCompare m) s = Some s' →
  cstore_ok v0 s' ∧ current s' = current s ∧ username s' = username s ∧ world s' = world s ∧
  settled (operations s') = settled (operations s) ++ [(i, match m with
    | Some _ => Verified (matches pw (passwordHash r) && bool_decide (u = username s)) | None => Failed end)].
Proof.
  intros Hok Ha He. destruct (ck_active _ _ Hok _ _ Ha) as (Hc & Hpw).
  pose proof (ck_current _ _ Hok) as Hcur. rewrite Hc in Hcur. destruct Hcur as (_ & _ & Hu & _).
  unfold complete. rewrite Ha, Hu. intros [= <-]. cbn in He. rewrite Ha in He.
  split; [by eapply end_ok|]. by destruct m; subst; split_and!.
Qed.

Lemma cstore_step_ok v0 s e s' : cstore_ok v0 s → event_ok s e → cstore_step dataDir e s = Some s' → cstore_ok v0 s'.
Proof.
  intros Hok He. destruct e as [u c|pw|u pw|pw| |r]; cbn [cstore_step].
  - intros [= <-]. by apply cred_enqueue_ok.
  - intros [= <-]. unfold enroll. case_match; [by apply cred_enqueue_ok|by apply settle_call_ok].
  - intros [= <-]. unfold verify. case_match; [|by apply settle_call_ok].
    case_match; [by apply cred_enqueue_ok|by apply settle_call_ok].
  - intros [= <-]. unfold replacePassword. case_match; [|by apply settle_call_ok].
    case_match; [by apply cred_enqueue_ok|by apply settle_call_ok].
  - intros Hs. by apply (cred_start_ok v0 s s').
  - intros Hs. destruct (active (operations s)) as [[i a]|] eqn:Ha; [|by unfold complete in Hs; rewrite Ha in Hs].
    destruct a as [u c|p pw|p pw next|u pw rec]; destruct r as [|h clock|m];
      try (by unfold complete in Hs; rewrite Ha in Hs).
    + destruct (auth_read_ok _ _ _ _ _ Hok Ha) as (s1 & r & Hs1 & ? & _). congruence.
    + by eapply auth_hash_ok.
    + destruct (auth_replace_ok _ _ _ _ _ _ Hok Ha) as (s1 & Hs1 & ? & _). congruence.
    + by eapply auth_compare_ok.
Qed.

(** ** Who changes what *)

(** The calls that settled in a step. *)
Definition settles s s' (i : nat) (r : outcome) : Prop :=
  settled (operations s') = settled (operations s) ++ [(i, r)].
Lemma verified_only v0 s e s' i : cstore_ok v0 s → event_ok s e → cstore_step dataDir e s = Some s' →
  (i, Verified true) ∈ settled (operations s') → (i, Verified true) ∈ settled (operations s) ∨
  ∃ pw r, active (operations s) = Some (i, AwaitCompare (username s) pw r) ∧ current s = Some r ∧
    matches pw (passwordHash r) = true ∧ isValidPassword pw = true.
Proof.
  intros Hok He Hs Hin.
  assert (∀ r, r ≠ Verified true → settled (operations s') = settled (operations s) ∨
    (∃ k, settled (operations s') = settled (operations s) ++ [(k, r)]) → (i, Verified true) ∈ settled (operations s)) as Hno.
  { intros r Hr [E|[k E]]; rewrite E in Hin; [done|]. apply elem_of_app in Hin as [?|Hin%list_elem_of_singleton]; [done|].
    simplify_eq. }
  destruct e as [u c|pw|u pw|pw| |r]; cbn [cstore_step] in Hs.
  - injection Hs as <-. by left.
  - injection Hs as <-. left. revert Hno Hin. unfold enroll. case_match; [done|].
    intros Hno _. apply (Hno Failed); [done|right]. by exists (calls (operations s)).
  - injection Hs as <-. left. revert Hno Hin. unfold verify. case_match; [case_match; [done|]|];
      intros Hno _; [apply (Hno (Verified false))|apply (Hno Failed)]; try done; right; by exists (calls (operations s)).
  - injection Hs as <-. left. revert Hno Hin. unfold replacePassword. case_match; [case_match; [done|]|];
      intros Hno _; apply (Hno Failed); try done; right; by exists (calls (operations s)).
  - left. revert Hs. unfold start_job. intros (((k & j) & q) & Hn & [= <-])%bind_Some.
    apply next_job_Some in Hn as (_ & _ & _ & _ & Hq). revert Hin. clear Hno.
    repeat case_match; cbn; rewrite ?Hq; try done;
      intros [?|Hin%list_elem_of_singleton]%elem_of_app; by simplify_eq.
  - destruct (active (operations s)) as [[k a]|] eqn:Ha; [|by unfold complete in Hs; rewrite Ha in Hs].
    destruct a as [u c|p pw|p pw next|u pw rec]; destruct r as [|h clock|m];
      try (by unfold complete in Hs; rewrite Ha in Hs).
    + destruct (auth_read_ok _ _ _ _ _ Hok Ha) as (s1 & r & Hs1 & _ & _ & Hset & Hr).
      assert (s1 = s') as -> by congruence. left. apply (Hno r); [by intros ->|right; by exists k].
    + destruct (auth_hash_ok _ _ _ _ _ _ _ _ Hok Ha He Hs) as (_ & _ & _ & _ & Hset).
      left. apply (Hno Failed); [done|]. destruct Hset; [by left|right; by exists k].
    + destruct (auth_replace_ok _ _ _ _ _ _ Hok Ha) as (s1 & Hs1 & _ & r & Hset & _ & _ & Hr).
      assert (s1 = s') as -> by congruence. left. apply (Hno r); [by intros ->|right; by exists k].
    + destruct (auth_compare_ok _ _ _ _ _ _ _ _ Hok Ha He Hs) as (_ & _ & _ & _ & Hset).
      rewrite Hset in Hin. apply elem_of_app in Hin as [?|Hin%list_elem_of_singleton]; [by left|right].
      destruct m; [|done]. injection Hin as <- Hm. symmetry in Hm. apply andb_true_iff in Hm as [Hm ->%bool_decide_eq_true].
      destruct (ck_active _ _ Hok _ _ Ha) as [Hc Hpw]. by exists pw, rec.
Qed.

(** The record changes only when it is read, enrolled or replaced, is never
    lost, and keeps its user name. *)
Lemma current_only v0 s e s' : cstore_ok v0 s → event_ok s e → cstore_step dataDir e s = Some s' →
  current s' = current s ∨
  (∃ i u c, active (operations s) = Some (i, AwaitRead u c) ∧ current s = None) ∨
  ∃ i p pw next, active (operations s) = Some (i, AwaitReplace p pw next) ∧ current s' = Some next ∧
    made_for s pw next ∧ username s' = username s.
Proof.
  intros Hok He Hs. destruct e as [u c|pw|u pw|pw| |r]; cbn [cstore_step] in Hs.
  1-4: left; injection Hs as <-; unfold enroll, verify, replacePassword; repeat case_match; done.
  - left. by apply (cred_start_ok v0 s s').
  - destruct (active (operations s)) as [[k a]|] eqn:Ha; [|by unfold complete in Hs; rewrite Ha in Hs].
    destruct a as [u c|p pw|p pw next|u pw rec]; destruct r as [|h clock|m];
      try (by unfold complete in Hs; rewrite Ha in Hs).
    + right; left. exists k, u, c. split; [done|]. by apply (ck_active _ _ Hok _ _ Ha).
    + left. by eapply auth_hash_ok.
    + destruct (auth_replace_ok _ _ _ _ _ _ Hok Ha) as (s1 & Hs1 & _ & r & _ & Hu & _ & Hr).
      assert (s1 = s') as -> by congruence. destruct (ck_active _ _ Hok _ _ Ha) as (_ & _ & Hm).
      assert (current s' = current s ∨ current s' = Some next) as [?|?] by (destruct r as [| | | | |[]|]; destruct p; naive_solver).
      * by left.
      * right; right. by exists k, p, pw, next.
    + left. by eapply auth_compare_ok.
Qed.

(** ** Progress *)

Definition weight (a : waiting) : nat :=
  match a with AwaitHash _ _ => 2 | _ => 1 end.
Definition remaining s : nat := pending weight 2 (operations s).
Lemma start_remaining s s' : start_job s = Some s' → (remaining s' < remaining s)%nat.
Proof.
  unfold start_job. intros (((i & j) & q) & Hn & [= <-])%bind_Some.
  destruct (next_pending weight 2 _ _ _ _ Hn) as [H1 H2]. unfold remaining.
  repeat case_match; first [apply H1|apply H2; cbn; lia].
Qed.
Lemma complete_remaining s r s' : complete dataDir r s = Some s' → (remaining s' < remaining s)%nat.
Proof.
  unfold complete. destruct (active (operations s)) as [[i a]|] eqn:Ha; [|done].
  destruct (active_pending weight 2 _ _ _ Ha) as [H1 H2]; [destruct a; cbn; lia|]. unfold remaining.
  destruct a, r; try done.
  - destruct (file_read _ _) as [r w]. intros [= <-]. unfold initialize_read. repeat case_match; apply H1.
  - intros [= <-]. unfold hashed. case_match; [apply H2; cbn; lia|apply H1].
  - destruct (file_replace _ _ _) as [r w]. intros [= <-]. unfold replaced. repeat case_match; apply H1.
  - intros [= <-]. apply H1.
Qed.
(** While calls are pending an operation can start, or awaits the file, or
    awaits bcrypt, and then takes any answer. *)
Lemma remaining_progress s : (0 < remaining s)%nat →
  (∃ s', start_job s = Some s') ∨ (∃ s', complete dataDir FromFile s = Some s') ∨
  (∀ h clock, ∃ s', complete dataDir (FromHash h clock) s = Some s') ∨
  (∀ m, ∃ s', complete dataDir (FromCompare m) s = Some s').
Proof.
  unfold remaining, pending, complete, start_job, next_job. destruct (active (operations s)) as [[i a]|].
  - intros _. right. destruct a.
    + left. destruct (file_read _ _). by eexists.
    + right; left. intros. by eexists.
    + left. destruct (file_replace _ _ _). by eexists.
    + right; right. intros. by eexists.
  - destruct (jobs (operations s)) as [|[i j] l]; [cbn; lia|]. intros _. left. by eexists.
Qed.
End facts.

(** The runs of a store over a bcrypt that answers [matches]. *)
Definition auth_run `{Platform} {W} `{JsonRegister W} dataDir matches : cstore W → cstore W → Prop :=
  rtc (λ s1 s2, ∃ e, event_ok matches s1 e ∧ cstore_step dataDir e s1 = Some s2).
Lemma auth_run_ok `{Platform} {W} `{JsonRegisterLaws W writable} dataDir matches v0 s s' :
  auth_run dataDir matches s s' → cstore_ok dataDir matches v0 s → cstore_ok dataDir matches v0 s'.
Proof. induction 1 as [|s1 s2 s3 [e [He Hs]] _ IH]; [done|]. intros Hok. apply IH. by eapply cstore_step_ok. Qed.
Lemma construct_ok `{Platform} {W} `{JsonRegister W} dataDir matches w (s : cstore W) :
  (∀ j, file_value w (authPath dataDir) = Some j → json_ok j) → construct dataDir w = Some s →
  cstore_ok dataDir matches (file_value w (authPath dataDir)) s ∧
  s = CStore w None [] (Num 0 0) false false empty_queue.
Proof.
  intros Hw. unfold construct. destruct (isAbsolute _); [|done]. intros [= <-]. split; [|done].
  split; try done; [|apply empty_queue_ok]. intros i j Hin. by apply elem_of_nil in Hin.
Qed.

(** C38: the credential store over any implementation of the file's interface
    and any password hash function, for every interleaving.  A verification
    answers true exactly when the password matches the hash in memory and the
    name is the configured one; memory holds what the file holds, a valid
    record of that name, and the file is untouched while there is none.  The
    record is only ever set by a read, an enrolment or a replacement whose
    password it matches, at the configured cost, and is never lost; each write
    is all or nothing.  Every call settles once, after finitely many steps, and
    a store opened later on the file has the same record, or none when the name
    differs or the read fails. *)
Theorem credential_store_sound `{Platform} {W} `{JsonRegisterLaws W writable}
    (dataDir : jsstr) (matches : jsstr → jsstr → bool) (w0 : W) (s0 s : cstore W) :
  (∀ j, file_value w0 (authPath dataDir) = Some j → json_ok j) → construct dataDir w0 = Some s0 →
  auth_run dataDir matches s0 s →
  match current s with
  | Some r => parseRecord (record_json r) = Some r ∧ record_username r = username s ∧
      recorded (auth_file dataDir s) r ∧ isInitialized s = Some true
  | None => auth_file dataDir s = file_value w0 (authPath dataDir)
  end ∧
  (∀ i u pw r m s', active (operations s) = Some (i, AwaitCompare u pw r) →
     event_ok matches s (Complete (FromCompare (Some m))) → complete dataDir (FromCompare (Some m)) s = Some s' →
     current s = Some r ∧
     settles s s' i (Verified (matches pw (passwordHash r) && bool_decide (u = username s)))) ∧
  (∀ e s', event_ok matches s e → cstore_step dataDir e s = Some s' →
     (∀ i, (i, Verified true) ∈ settled (operations s') → (i, Verified true) ∈ settled (operations s) ∨
        ∃ pw r, active (operations s) = Some (i, AwaitCompare (username s) pw r) ∧ current s = Some r ∧
          matches pw (passwordHash r) = true ∧ isValidPassword pw = true) ∧
     (current s' = current s ∨
      (∃ i u c, active (operations s) = Some (i, AwaitRead u c) ∧ current s = None) ∨
      ∃ i p pw next, active (operations s) = Some (i, AwaitReplace p pw next) ∧ current s' = Some next ∧
        made_for matches s pw next ∧ username s' = username s)) ∧
  (∀ i p pw next, active (operations s) = Some (i, AwaitReplace p pw next) →
     isValidPassword pw = true ∧ made_for matches s pw next ∧
     ∃ s', complete dataDir FromFile s = Some s' ∧ written dataDir s s' i p pw next) ∧
  ids (operations s) ≡ₚ seq 0 (calls (operations s)) ∧
  ((0 < remaining s)%nat →
     (∃ s', start_job s = Some s') ∨ (∃ s', complete dataDir FromFile s = Some s') ∨
     (∀ h clock, ∃ s', complete dataDir (FromHash h clock) s = Some s') ∨
     (∀ m, ∃ s', complete dataDir (FromCompare m) s = Some s')) ∧
  (∀ e s', e = Start ∨ (∃ r, e = Complete r) → cstore_step dataDir e s = Some s' →
     (remaining s' < remaining s)%nat) ∧
  (∀ r u c s1, current s = Some r → normalizeUsername u = Some u → units_ok u → validateCost c = true →
     construct dataDir (world s) = Some s1 →
     ∃ s2 s3 a, start_job (initializeLocal u c s1) = Some s2 ∧ complete dataDir FromFile s2 = Some s3 ∧
       settled (operations s3) = [(0%nat, a)] ∧
       match a with
       | Initialized => u = username s ∧ current s3 = Some r
       | _ => current s3 = None
       end).
Proof.
  intros Hw0 Hs0 Hrun. destruct (construct_ok dataDir matches w0 s0 Hw0 Hs0) as [Hok0 _].
  pose proof (auth_run_ok _ _ _ _ _ Hrun Hok0) as Hok. pose proof (ck_current _ _ _ _ Hok) as Hcur. split_and!.
  - destruct (current s) as [r|] eqn:Hc; [|done]. destruct Hcur as (Hr & Hf & Hu & Hi).
    split_and!; [by apply parseRecord_json|done..|]. unfold isInitialized. rewrite Hi, Hc. done.
  - intros i u pw r m s' Ha He Hs. split; [by apply (ck_active _ _ _ _ Hok _ _ Ha)|].
    by eapply (auth_compare_ok _ _ _ _ _ _ _ _ (Some m)).
  - intros e s' He Hs. split; [intros i; by eapply verified_only|by eapply current_only].
  - intros i p pw next Ha. destruct (ck_active _ _ _ _ Hok _ _ Ha) as (_ & ? & ?).
    destruct (auth_replace_ok _ _ _ _ _ _ _ _ Hok Ha) as (s' & ? & _ & ?). split_and!; [done..|]. by exists s'.
  - apply (ck_queue _ _ _ _ Hok).
  - apply remaining_progress.
  - intros e s' [->|[r ->]]; [apply start_remaining|apply complete_remaining].
  - intros r u c s1 Hr Hu Huu Hc Hs1. rewrite Hr in Hcur. destruct Hcur as (_ & [j [Hj Hp]] & _ & Hi).
    destruct (construct_ok dataDir matches (world s) s1 (ck_file _ _ _ _ Hok) Hs1) as [Hok1 ->].
    set (s1 := CStore _ _ _ _ _ _ _) in *.
    assert (cstore_ok dataDir matches (auth_file dataDir s) (initializeLocal u c s1)) as Hok1' by by apply cred_enqueue_ok.
    destruct (start_job (initializeLocal u c s1)) as [s2|] eqn:Hs2; [|done].
    destruct (cred_start_ok _ _ _ _ _ Hok1' Hs2) as [Hok2 _].
    cbn in Hs2. rewrite Hu, Hc in Hs2. injection Hs2 as <-.
    destruct (auth_read_ok _ _ _ _ _ _ _ Hok2 eq_refl) as (s3 & a & Hs3 & Hok3 & Hf & Hset & Ha).
    eexists _, s3, a. split; [done|]. split; [exact Hs3|]. split; [exact Hset|].
    destruct a; try done; [|by destruct Ha].
    destruct Ha as (_ & Hu3 & Hr3). pose proof (ck_current _ _ _ _ Hok3) as Hcur3.
    destruct (current s3) as [r3|].
    + destruct Hr3 as (j3 & Hj3 & Hp3). change (file_value (world s) (authPath dataDir) = Some j3) in Hj3.
      assert (Some j = Some j3) as [= <-] by (etrans; [symmetry; exact Hj|exact Hj3]).
      assert (r3 = r) as -> by congruence. split; [|done].
      pose proof (ck_current _ _ _ _ Hok) as Hcur. rewrite Hr in Hcur. destruct Hcur as (_ & _ & E & _).
      destruct Hcur3 as (_ & _ & E3 & _). congruence.
    + change (file_value (world s) (authPath dataDir) = None) in Hr3.
      assert (Some j = None) by (etrans; [symmetry; exact Hj|exact Hr3]). done.
Qed.

(** ** A concrete store *)

Definition event_okb (matches : jsstr → jsstr → bool) {W} (s : cstore W) (e : event) : bool :=
  match e with
  | CallInitializeLocal u _ => forallb (λ c, (0 <=? c) && (c <? 65536)) u
  | Complete (FromHash (Some h) _) =>
      match active (operations s) with
      | Some (_, AwaitHash _ pw) => matches pw h
      | _ => true
      end
  | Complete (FromCompare (Some m)) =>
      match active (operations s) with
      | Some (_, AwaitCompare _ pw r) => Bool.eqb m (matches pw (passwordHash r))
      | _ => true
      end
  | _ => true
  end.
Lemma event_okb_ok matches {W} (s : cstore W) e : event_okb matches s e = true → event_ok matches s e.
Proof.
  destruct e as [| | | | |[|[h|]|[m|]]]; try done; cbn; [by apply units_ok_literal|..].
  - destruct (active _) as [[i []]|]; done.
  - destruct (active _) as [[i []]|]; try done. apply eqb_prop.
Qed.
Definition auth_play `{Platform} {W} `{JsonRegister W} dataDir matches (es : list event) (s : cstore W) : option (cstore W) :=
  foldl (λ s e, s ≫= λ s, if event_okb matches s e then cstore_step dataDir e s else None) (Some s) es.
Lemma auth_play_run `{Platform} {W} `{JsonRegister W} dataDir matches es : ∀ s s' : cstore W,
  auth_play dataDir matches es s = Some s' → auth_run dataDir matches s s'.
Proof.
  unfold auth_play. induction es as [|e es IH]; intros s s' Hp.
  - injection Hp as <-. constructor.
  - cbn in Hp. assert (foldl (λ s e, s ≫= λ s : cstore W, if event_okb matches s e then cstore_step dataDir e s else None)
      None es = None) as Hnone by (clear; by induction es).
    destruct (event_okb matches s e) eqn:He; [|congruence].
    destruct (cstore_step dataDir e s) as [s1|] eqn:Hs; [|congruence].
    eapply rtc_l; [|by apply IH]. exists e. split; [by apply event_okb_ok|done].
Qed.

Definition sample_password : jsstr := js "correct horse battery".
Definition sample_hash : jsstr := js "$2b$12$" ++ repeat 65 53.
Definition sample_matches (pw h : jsstr) : bool := bool_decide (pw = sample_password ∧ h = sample_hash).
Definition sample_auth_events : list event :=
  [CallInitializeLocal (js "alice") (Num 12 0); Start; Complete FromFile;
   CallEnroll sample_password; Start; Complete (FromHash (Some sample_hash) (Some 1700000000123)); Complete FromFile;
   CallVerify (js "alice") sample_password; Start].
Definition sample_auth_start : cstore (file_world (sample_env (λ _, None))) :=
  CStore sample_world None [] (Num 0 0) false false empty_queue.
Definition sample_auth : option (cstore (file_world (sample_env (λ _, None)))) :=
  @auth_play ascii_platform _ sample_files (js "/data") sample_matches sample_auth_events sample_auth_start.
Definition sample_record : CredentialRecord :=
  {| record_username := js "alice"; passwordHash := sample_hash; passwordChangedAt := js "2023-11-14T22:13:20.123Z" |}.
Lemma sample_auth_ok : ∃ s, sample_auth = Some s ∧ current s = Some sample_record ∧ username s = js "alice" ∧
  active (operations s) = Some (1%nat + 1, AwaitCompare (js "alice") sample_password sample_record)%nat.
Proof.
  destruct sample_auth as [s|] eqn:Hs.
  - exists s. split; [done|].
    assert (match sample_auth with
      | Some s => current s = Some sample_record ∧ username s = js "alice" ∧
          active (operations s) = Some (2%nat, AwaitCompare (js "alice") sample_password sample_record)
      | None => False end) as Hr by (vm_compute; repeat split; reflexivity).
    by rewrite Hs in Hr.
  - exfalso. assert (match sample_auth with Some _ => True | None => False end) as Hr by (vm_compute; exact I).
    by rewrite Hs in Hr.
Qed.

Theorem credential_store_sound_witness : let _ := ascii_platform in let _ := sample_files in
  ∃ s s' : cstore (file_world (sample_env (λ _, None))), sample_auth = Some s ∧
  complete (js "/data") (FromCompare (Some true)) s = Some s' ∧ settles s s' 2 (Verified true).
Proof.
  intros plat files. destruct sample_auth_ok as (s & Hs & Hc & Hu & Ha).
  pose proof (@credential_store_sound plat _ sample_files
    (secure_files_laws 1000 _ sample_steady (λ _, ltac:(done)) sample_uuid)
    (js "/data") sample_matches sample_world sample_auth_start s) as H.
  destruct H as (_ & H & _).
  - assert (file_value sample_world (authPath (js "/data")) = None) as E by (vm_compute; reflexivity).
    intros j Hv. exfalso. assert (Some j = None) as Hn by exact (eq_trans (eq_sym Hv) E). discriminate Hn.
  - vm_compute. reflexivity.
  - eapply (@auth_play_run plat _ sample_files). exact Hs.
  - destruct (complete (js "/data") (FromCompare (Some true)) s) as [s'|] eqn:Hs';
      [|unfold complete in Hs'; rewrite Ha in Hs'; discriminate Hs'].
    exists s, s'. split; [exact Hs|]. split; [exact Hs'|].
    destruct (H _ _ _ _ true s' Ha) as [_ Hset]; [|exact Hs'|].
    + cbn. rewrite Ha. vm_compute. reflexivity.
    + rewrite Hu in Hset. exact Hset.
Defined.
