(* ===== verification/Tmux.v ===== *)
(** [apps/server/src/tmux.ts] and [pty.ts]: the names of tmux sessions, the
    commands that prepare, probe, kill and list them, and what the terminal
    process of an attached client inherits.

    The command runner and the random source are called through a handler, so
    what tmux does is open; [exec_result] is how [execFile] settles. *)
From S2P Require Import Prelude JsMap SafeString Tabs Json Protocol JsonRegister Settings SettingsFacts SettingsStore.
Open Scope Z_scope.

(** * Commands *)

Record CommandResult := { exitCode : Z; stdout : jsstr; stderr : jsstr }.

(** The callback of [execFile]: no error, an error with a numeric code, or
    another error. *)
Inductive exec_error := ExitCode (code : Z) | OtherError.
Definition exec_result (error : option exec_error) (out err : jsstr) : option CommandResult :=
  match error with
  | None => Some {| exitCode := 0; stdout := out; stderr := err |}
  | Some (ExitCode code) => Some {| exitCode := code; stdout := out; stderr := err |}
  | Some OtherError => None
  end.

Record AttachSpec := {
  executable : jsstr;
  args : list jsstr;
  cwd : jsstr;
  env : list (jsstr * jsstr);
}.
Record TmuxConfig := { tmux_executable : jsstr; homeDir : jsstr }.

Inductive terror := InvalidSession | InvalidRuntimeSettings | TmuxCommandFailed | Foreign.

(** The calls to the runner and to [randomUUID]. *)
Inductive tcall := RunCommand (exe : jsstr) (argv : list jsstr) | RandomUUID.
Definition tresp (c : tcall) : Type := match c with RunCommand _ _ => CommandResult | RandomUUID => jsstr end.

(** * Names *)

Definition BOOTSTRAP_EXECUTABLE : jsstr := js "/usr/bin/sleep".
Definition BOOTSTRAP_DURATION_SECONDS : jsstr := js "2147483647".
Definition undashed (id : jsstr) : jsstr := filter (λ c, c ≠ dash) id.
Definition tmuxSessionName (sessionId : jsstr) : option jsstr :=
  if isSessionId sessionId then Some (js "webterm-tab-" ++ undashed sessionId) else None.
(** [APP_SESSION_NAME.exec(line)], its group *)
Definition app_session_name (line : jsstr) : option jsstr :=
  if match_chars ((Z.eqb <$> js "webterm-tab-") ++ replicate 32 is_lower_hex) line
  then Some (drop 12 line) else None.
Definition dashed (compact : jsstr) : jsstr :=
  join [dash] [take 8 compact; take 4 (drop 8 compact); take 4 (drop 12 compact);
               take 4 (drop 16 compact); drop 20 compact].
Definition session_of_line (line : jsstr) : option jsstr :=
  compact ← app_session_name line;
  if isSessionId (dashed compact) then Some (dashed compact) else None.
(** [split(/\r?\n/u)] *)
Fixpoint split_lines (line s : jsstr) : list jsstr :=
  match s with
  | [] => [line]
  | c :: s' =>
      if c =? 10 then
        (match reverse line with 13 :: l => reverse l | _ => line end) :: split_lines [] s'
      else split_lines (line ++ [c]) s'
  end.

(** * The preparer *)

Section preparer.
Context {W : Type}.
Variable config : TmuxConfig.
Variable h : @handler unit W tcall terror tresp.
Abbreviation T A := (M (sys unit W tcall) terror A).

Definition run (argv : list jsstr) : T CommandResult :=
  catch (call tresp h (RunCommand (tmux_executable config) argv)) (λ _, throw TmuxCommandFailed).

Definition tmuxBuildSessionName : T jsstr :=
  let! buildId := catch (call tresp h RandomUUID) (λ _, throw InvalidSession) in
  do! throw_if (negb (isSessionId buildId)) InvalidSession in
  ret (js "webterm-build-" ++ undashed buildId).

Definition has_session (name : jsstr) : list jsstr := [js "has-session"; js "-t"; name].
Definition exists_session (sessionId : jsstr) : T bool :=
  let! name := of_option (tmuxSessionName sessionId) InvalidSession in
  let! result := run (has_session name) in
  if exitCode result =? 0 then ret true
  else if exitCode result =? 1 then ret false
  else throw TmuxCommandFailed.

Definition kill_session (name : jsstr) : list jsstr := [js "kill-session"; js "-t"; name].
Definition killNamedSession (name : jsstr) : T unit :=
  let! result := run (kill_session name) in
  throw_if (negb (exitCode result =? 0) && negb (exitCode result =? 1)) TmuxCommandFailed.
Definition kill (sessionId : jsstr) : T unit :=
  let! name := of_option (tmuxSessionName sessionId) InvalidSession in
  killNamedSession name.

Definition listActiveSessionIds : T (list jsstr) :=
  let! result := run [js "list-sessions"; js "-F"; js "#{session_name}"] in
  if exitCode result =? 1 then ret []
  else
    do! throw_if (negb (exitCode result =? 0)) TmuxCommandFailed in
    if bool_decide (trim (stdout result) = []) then ret []
    else ret (omap session_of_line (split_lines [] (stdout result))).

Definition attachSpec (sessionId : jsstr) (settings : option SessionRuntimeSettings) : T AttachSpec :=
  match settings with
  | None => throw InvalidRuntimeSettings
  | Some st =>
      let! name := of_option (tmuxSessionName sessionId) InvalidSession in
      ret {| executable := tmux_executable config;
             args := [js "attach-session"; js "-E"; js "-t"; name];
             cwd := homeDir config;
             env := [(js "HOME", homeDir config); (js "SHELL", shell st); (js "TERM", js "xterm-256color")] |}
  end.

Definition semicolon : jsstr := js ";".
(** The commands of the bootstrap, one tmux invocation. *)
Definition creation (buildName name : jsstr) (st : SessionRuntimeSettings) : list jsstr :=
  let windowTarget := buildName ++ js ":" in
  let initialWindowTarget := buildName ++ js ":0" in
  [js "new-session"; js "-d"; js "-s"; buildName; BOOTSTRAP_EXECUTABLE; BOOTSTRAP_DURATION_SECONDS; semicolon] ++
  [js "set-option"; js "-t"; buildName; js "history-limit"; number_to_string (historyLimit st); semicolon] ++
  [js "set-option"; js "-t"; buildName; js "default-shell"; shell st; semicolon] ++
  [js "set-option"; js "-t"; buildName; js "default-command"; []; semicolon] ++
  [js "set-window-option"; js "-t"; initialWindowTarget; js "window-size"; js "manual"; semicolon] ++
  [js "resize-window"; js "-t"; initialWindowTarget; js "-x"; js "80"; js "-y"; js "24"; semicolon] ++
  [js "set-window-option"; js "-t"; initialWindowTarget; js "alternate-screen"; js "off"; semicolon] ++
  [js "split-window"; js "-d"; js "-t"; windowTarget; semicolon] ++
  [js "kill-pane"; js "-t"; windowTarget; semicolon] ++
  [js "rename-session"; js "-t"; buildName; name; semicolon] ++
  [js "set-window-option"; js "-t"; name ++ js ":0"; js "window-size"; js "latest"].

Definition succeed (argv : list jsstr) : T unit :=
  let! result := run argv in
  throw_if (negb (exitCode result =? 0)) Foreign.
Definition alternate_screen_off (name : jsstr) : list jsstr :=
  [js "set-window-option"; js "-t"; name ++ js ":0"; js "alternate-screen"; js "off"].
Definition mouse_on (name : jsstr) : list jsstr := [js "set-option"; js "-t"; name; js "mouse"; js "on"].

Definition create (buildName name : jsstr) (st : SessionRuntimeSettings) : T unit :=
  catch (succeed (creation buildName name st))
    (λ _, do! attempt_call (killNamedSession buildName) in throw TmuxCommandFailed).

Definition prepare (sessionId : jsstr) (settings : option SessionRuntimeSettings) : T AttachSpec :=
  let! name := of_option (tmuxSessionName sessionId) InvalidSession in
  let! st := of_option settings InvalidRuntimeSettings in
  let! buildName := tmuxBuildSessionName in
  let! present := exists_session sessionId in
  do! (if present : bool then ret tt else create buildName name st) in
  do! catch (do! succeed (alternate_screen_off name) in succeed (mouse_on name))
        (λ _, throw TmuxCommandFailed) in
  attachSpec sessionId settings.
End preparer.

(** * The terminal process *)

Definition inheritedKeys : list jsstr :=
  js <$> ["HOME"; "USER"; "LOGNAME"; "PATH"; "LANG"; "TZ"; "TERM"; "SHELL"]%string.
Definition inherits (k : jsstr) : bool :=
  bool_decide (k ∈ inheritedKeys) || bool_decide (take 3 k = js "LC_").
(** The entries of the environment, with their optional values. *)
Definition sanitizePtyEnvironment (environment : list (jsstr * option jsstr)) : list (jsstr * jsstr) :=
  foldl (λ sanitized '(k, v),
    match v with
    | Some v => if inherits k then jm_set k v sanitized else sanitized
    | None => sanitized
    end) [] environment.

Record NativePtyOptions := {
  cols : Z;
  rows : Z;
  pty_name : jsstr;
  pty_cwd : jsstr;
  pty_env : list (jsstr * jsstr);
}.
(** [{...a, ...b}] *)
Definition spread (a b : list (jsstr * jsstr)) : list (jsstr * jsstr) :=
  foldl (λ m '(k, v), jm_set k v m) a b.
(** What the factory passes to the spawner: executable, arguments, options. *)
Definition spawn (environment : list (jsstr * option jsstr)) (spec : AttachSpec)
    (dimensions : option (Z * Z)) : jsstr * list jsstr * NativePtyOptions :=
  let '(c, r) := default (80, 24) dimensions in
  (executable spec, args spec,
   {| cols := c; rows := r; pty_name := js "xterm-256color"; pty_cwd := cwd spec;
      pty_env := spread (sanitizePtyEnvironment environment) (env spec) |}).

(** * Properties

    What the tmux and pty adapters promise: session names and identifiers
    correspond, preparation is a fixed protocol that cleans up after itself,
    and the terminal process inherits what it should and nothing else. *)

(** * Names *)

Lemma match_chars_split ps qs s : match_chars (ps ++ qs) s = true ↔
  ∃ a b, s = a ++ b ∧ match_chars ps a = true ∧ match_chars qs b = true.
Proof.
  revert s. induction ps as [|p ps IH]; intros s; cbn.
  - split; [intros; by exists [], s|by intros ([|] & b & -> & ? & ?)].
  - destruct s as [|c s]; [by split; [|intros ([|] & b & ? & ? & ?)]|].
    rewrite andb_true_iff, IH. split.
    + intros (Hc & a & b & -> & ? & ?). exists (c :: a), b. cbn. by rewrite Hc.
    + intros ([|c' a] & b & E & Ha & ?); [done|]. cbn in Ha. apply andb_true_iff in Ha as [??].
      injection E as -> ->. split; [done|]. by exists a, b.
Qed.
Lemma match_replicate n p s : match_chars (replicate n p) s = true ↔ length s = n ∧ Forall (λ c, p c = true) s.
Proof.
  revert s. induction n as [|n IH]; intros [|c s]; cbn; rewrite ?andb_true_iff, ?IH, ?Forall_cons; naive_solver.
Qed.
Lemma match_literal l s : match_chars (Z.eqb <$> l) s = true ↔ s = l.
Proof.
  revert s. induction l as [|x l IH]; intros [|c s]; cbn; try done.
  rewrite andb_true_iff, Z.eqb_eq, IH. naive_solver.
Qed.
Lemma match_one p s : match_chars [p] s = true ↔ ∃ c, s = [c] ∧ p c = true.
Proof. destruct s as [|c [|d s]]; cbn; rewrite ?andb_true_r, ?andb_false_r; naive_solver. Qed.

Notation hexes := (Forall (λ c, is_lower_hex c = true)).
Lemma char_in_hex cs c : forallb is_lower_hex cs = true → char_in cs c = true → is_lower_hex c = true.
Proof.
  unfold char_in. rewrite bool_decide_eq_true. intros Hf Hc. apply Is_true_eq_left, forallb_True in Hf.
  apply Is_true_eq_true. exact (proj1 (Forall_forall _ _) Hf _ Hc).
Qed.

(** The five groups of an identifier. *)
Definition groups (s a b c d e : jsstr) : Prop :=
  s = a ++ [dash] ++ b ++ [dash] ++ c ++ [dash] ++ d ++ [dash] ++ e ∧
  length a = 8%nat ∧ length b = 4%nat ∧ length c = 4%nat ∧ length d = 4%nat ∧ length e = 12%nat ∧
  hexes a ∧ hexes b ∧ hexes c ∧ hexes d ∧ hexes e.
Lemma isSessionId_groups s : isSessionId s = true → ∃ a b c d e, groups s a b c d e.
Proof.
  unfold isSessionId, TAB_ID_PATTERN.
  intros (a & s1 & -> & Ha & (x1 & s2 & -> & Hx1 & (b & s3 & -> & Hb & (x2 & s4 & -> & Hx2 &
    (c1 & s5 & -> & Hc1 & (c2 & s6 & -> & Hc2 & (x3 & s7 & -> & Hx3 & (d1 & s8 & -> & Hd1 &
    (d2 & s9 & -> & Hd2 & (x4 & e & -> & Hx4 & He)%match_chars_split)%match_chars_split)%match_chars_split
    )%match_chars_split)%match_chars_split)%match_chars_split)%match_chars_split)%match_chars_split)%match_chars_split)%match_chars_split.
  apply (match_literal [dash]) in Hx1, Hx2, Hx3, Hx4. subst.
  apply match_one in Hc1 as (c & -> & Hc1), Hd1 as (d & -> & Hd1).
  apply match_replicate in Ha as [??], Hb as [??], Hc2 as [??], Hd2 as [??], He as [??].
  apply char_in_hex in Hc1, Hd1; [|done..].
  exists a, b, (c :: c2), (d :: d2), e. split; [by rewrite <-?app_assoc; cbn|].
  cbn. split_and!; try done; try lia; by constructor.
Qed.
Lemma hex_undashed s : hexes s → undashed s = s.
Proof.
  induction 1 as [|c s Hc _ IH]; [done|]. unfold undashed. rewrite filter_cons_True; [by f_equal|].
  intros ->. done.
Qed.
Lemma undashed_groups s a b c d e : groups s a b c d e → undashed s = a ++ b ++ c ++ d ++ e.
Proof.
  intros (-> & _ & _ & _ & _ & _ & Ha & Hb & Hc & Hd & He). unfold undashed.
  rewrite !filter_app. change (filter (λ c, c ≠ dash) [dash]) with (@nil Z).
  change (undashed a ++ [] ++ undashed b ++ [] ++ undashed c ++ [] ++ undashed d ++ [] ++ undashed e = a ++ b ++ c ++ d ++ e).
  by rewrite !hex_undashed.
Qed.
Lemma dashed_groups s a b c d e : groups s a b c d e → dashed (a ++ b ++ c ++ d ++ e) = s.
Proof.
  intros (-> & La & Lb & Lc & Ld & Le & _). unfold dashed.
  replace 20%nat with (length a + (length b + (length c + length d)))%nat by lia.
  replace 16%nat with (length a + (length b + length c))%nat by lia.
  replace 12%nat with (length a + length b)%nat by lia.
  rewrite <-La, <-!drop_drop, !drop_app_length, take_app_length, <-Lb, take_app_length.
  rewrite Lb, <-Lc, take_app_length, Lc, <-Ld, take_app_length. done.
Qed.

Lemma groups_hex s a b c d e : groups s a b c d e →
  hexes (a ++ b ++ c ++ d ++ e) ∧ length (a ++ b ++ c ++ d ++ e) = 32%nat.
Proof. intros (_ & ? & ? & ? & ? & ? & ? & ? & ? & ? & ?). rewrite !length_app. split; [by repeat apply Forall_app_2|lia]. Qed.
Lemma undashed_inj id id' : isSessionId id = true → isSessionId id' = true → undashed id = undashed id' → id = id'.
Proof.
  intros (a & b & c & d & e & H)%isSessionId_groups (a' & b' & c' & d' & e' & H')%isSessionId_groups E.
  rewrite (undashed_groups _ _ _ _ _ _ H), (undashed_groups _ _ _ _ _ _ H') in E.
  by rewrite <-(dashed_groups _ _ _ _ _ _ H), <-(dashed_groups _ _ _ _ _ _ H'), E.
Qed.

(** Names and identifiers are in bijection. *)
Lemma session_of_line_spec line id : session_of_line line = Some id ↔ tmuxSessionName id = Some line.
Proof.
  unfold session_of_line, app_session_name, tmuxSessionName. split.
  - intros (k & Hk & Hid)%bind_Some. destruct (match_chars _ line) eqn:Hm; [|done]. injection Hk as <-.
    apply match_chars_split in Hm as (l & k & -> & ->%match_literal & [Hl Hk]%match_replicate).
    rewrite drop_app_length' in Hid by done. destruct (isSessionId (dashed k)) eqn:Hs; [|done].
    injection Hid as <-. rewrite Hs. f_equal. f_equal.
    unfold dashed. cbn [join]. unfold undashed. rewrite !filter_app.
    change (filter (λ c, c ≠ dash) [dash]) with (@nil Z). cbn [app].
    assert (∀ n m, filter (λ c, c ≠ dash) (take n (drop m k)) = take n (drop m k)) as Hf.
    { intros n m. by apply hex_undashed, Forall_take, Forall_drop. }
    pose proof (Hf 8%nat 0%nat) as H0. rewrite drop_0 in H0. rewrite H0, !Hf.
    assert (filter (λ c, c ≠ dash) (drop 20 k) = drop 20 k) as -> by by apply hex_undashed, Forall_drop.
    assert (∀ n m, take n (drop m k) ++ drop (m + n) k = drop m k) as Hj
      by (intros n m; by rewrite <-drop_drop, take_drop).
    pose proof (Hj 4 16)%nat as H1. pose proof (Hj 4 12)%nat as H2. pose proof (Hj 4 8)%nat as H3.
    cbn [Nat.add] in H1, H2, H3. rewrite H1, H2, H3. apply take_drop.
  - destruct (isSessionId id) eqn:Hid; [|done]. intros Hn.
    assert (line = js "webterm-tab-" ++ undashed id) as -> by congruence.
    pose proof Hid as (a & b & c & d & e & Hg)%isSessionId_groups.
    rewrite (undashed_groups _ _ _ _ _ _ Hg). destruct (groups_hex _ _ _ _ _ _ Hg) as [Hh Hl].
    match goal with |- context [match_chars ?p ?l] => assert (match_chars p l = true) as -> end.
    { apply match_chars_split. exists (js "webterm-tab-"), (a ++ b ++ c ++ d ++ e).
      split; [done|]. by rewrite match_literal, match_replicate. }
    cbn [mbind option_bind]. rewrite drop_app_length' by done. by rewrite (dashed_groups _ _ _ _ _ _ Hg), Hid.
Qed.
Lemma tmuxSessionName_inj id id' n : tmuxSessionName id = Some n → tmuxSessionName id' = Some n → id = id'.
Proof. rewrite <-!session_of_line_spec. congruence. Qed.

(** * Lines *)

Definition chomp (line : jsstr) : jsstr := match reverse line with 13 :: l => reverse l | _ => line end.
Lemma split_lines_line line s rest : 10 ∉ s → split_lines line (s ++ 10 :: rest) = chomp (line ++ s) :: split_lines [] rest.
Proof.
  revert line. induction s as [|c s IH]; intros line Hs; cbn.
  - by rewrite app_nil_r.
  - apply not_elem_of_cons in Hs as [Hc Hs]. rewrite (proj2 (Z.eqb_neq c 10)) by congruence.
    rewrite IH by done. by rewrite <-app_assoc.
Qed.
Definition terminated (eol : jsstr) (lines : list jsstr) : jsstr := concat ((λ l, l ++ eol) <$> lines).
Lemma chomp_plain l : 13 ∉ l → chomp l = l ∧ chomp (l ++ [13]) = l.
Proof.
  intros Hl. unfold chomp. split; [|by rewrite reverse_snoc, reverse_involutive].
  destruct (reverse l) as [|c r] eqn:E; [done|]. repeat (case_match; try done). subst.
  exfalso. apply Hl. rewrite <-(reverse_involutive l), E, elem_of_reverse. apply list_elem_of_here.
Qed.
Lemma split_lines_terminated eol lines : eol = [10] ∨ eol = [13; 10] →
  Forall (λ l, 10 ∉ l ∧ 13 ∉ l) lines → split_lines [] (terminated eol lines) = lines ++ [[]].
Proof.
  intros He. induction 1 as [|l lines [Hl Hr] _ IH]; [done|].
  unfold terminated. cbn [fmap list_fmap concat]. destruct He as [-> | ->].
  - rewrite <-app_assoc. cbn [app]. rewrite split_lines_line by done.
    change (concat _) with (terminated [10] lines). rewrite IH. cbn [app]. by rewrite (proj1 (chomp_plain l Hr)).
  - rewrite <-app_assoc. change ([13; 10] ++ ?x) with ([13] ++ 10 :: x). rewrite app_assoc.
    rewrite split_lines_line by (rewrite elem_of_app, list_elem_of_singleton; intros [?|?]; done).
    change (concat _) with (terminated [13; 10] lines). rewrite IH. cbn [app]. by rewrite (proj2 (chomp_plain l Hr)).
Qed.

Lemma list_lines_ids (lines : list jsstr) : omap session_of_line (lines ++ [[]]) = omap session_of_line lines.
Proof. rewrite omap_app. cbn. apply app_nil_r. Qed.
Lemma elem_of_ids (lines : list jsstr) id : id ∈ omap session_of_line lines ↔ ∃ n, tmuxSessionName id = Some n ∧ n ∈ lines.
Proof. rewrite list_elem_of_omap. setoid_rewrite session_of_line_spec. naive_solver. Qed.
Lemma ids_NoDup (lines : list jsstr) : NoDup lines → NoDup (omap session_of_line lines).
Proof.
  induction 1 as [|l lines Hl _ IH]; [constructor|]. cbn. destruct (session_of_line l) as [id|] eqn:Hid; [|done].
  constructor; [|done]. rewrite elem_of_ids. intros (n & Hn & Hin). apply session_of_line_spec in Hid. congruence.
Qed.

(** A name is not blank, so a blank output lists nothing. *)
Lemma blank_no_names eol lines : Forall (λ c, is_js_space c = true) (terminated eol lines) →
  omap session_of_line lines = [].
Proof.
  intros Hb. destruct (omap session_of_line lines) as [|id ids] eqn:E; [done|].
  assert (id ∈ omap session_of_line lines) as Hin by (rewrite E; apply list_elem_of_here).
  apply elem_of_ids in Hin as (n & Hn & Hin). exfalso.
  assert (119 ∈ terminated eol lines) as H119.
  { unfold terminated. rewrite list_elem_of_In, in_concat. exists (n ++ eol).
    rewrite <-!list_elem_of_In. split; [apply list_elem_of_fmap; by exists n|].
    unfold tmuxSessionName in Hn. case_match; [|done]. injection Hn as <-. apply list_elem_of_here. }
  by apply (proj1 (Forall_forall _ _) Hb) in H119.
Qed.
Lemma drop_while_nil f s : drop_while f s = [] ↔ Forall (λ c, f c = true) s.
Proof.
  induction s as [|c s IH]; cbn; [by split; [constructor|]|]. rewrite Forall_cons.
  destruct (f c); naive_solver.
Qed.
Lemma drop_while_head f s c r : drop_while f s = c :: r → f c = false.
Proof.
  induction s as [|x s IH]; [done|]. cbn. destruct (f x) eqn:Ex; [exact IH|]. intros E. injection E as <- _. exact Ex.
Qed.
Lemma trim_blank s : trim s = [] → Forall (λ c, is_js_space c = true) s.
Proof.
  unfold trim. intros E. assert (drop_while is_js_space (reverse (drop_while is_js_space s)) = []) as E1.
  { apply (f_equal reverse) in E. by rewrite reverse_involutive in E. }
  apply drop_while_nil in E1. apply drop_while_nil.
  destruct (drop_while is_js_space s) as [|c r] eqn:Ed; [done|]. exfalso.
  pose proof (drop_while_head _ _ _ _ Ed) as Hc.
  assert (c ∈ reverse (c :: r)) as Hin by (rewrite elem_of_reverse; apply list_elem_of_here).
  apply (proj1 (Forall_forall _ _) E1) in Hin. congruence.
Qed.

(** * The environment of the terminal process *)

Lemma spread_get b : ∀ a k, NoDup b.*1 →
  jm_get k (spread a b) = match jm_get k b with Some v => Some v | None => jm_get k a end.
Proof.
  unfold spread. induction b as [|[k' v'] b IH]; intros a k Hnd; [done|]. cbn.
  apply NoDup_cons in Hnd as [Hn Hnd]. rewrite IH by done. rewrite jm_get_set.
  destruct (decide (k = k')) as [->|]; [|done]. apply jm_get_None in Hn. cbn in Hn. by rewrite Hn.
Qed.
Lemma sanitized_get environment k : NoDup environment.*1 →
  jm_get k (sanitizePtyEnvironment environment) =
  if inherits k then mjoin (jm_get k environment) else None.
Proof.
  intros Hnd. unfold sanitizePtyEnvironment.
  assert (∀ m, jm_get k (foldl (λ sanitized '(k, v), match v with
      | Some v => if inherits k then jm_set k v sanitized else sanitized | None => sanitized end) m environment) =
    match (if inherits k then mjoin (jm_get k environment) else None) with Some v => Some v | None => jm_get k m end) as H;
    [|rewrite H; by destruct (if inherits k then _ else _)].
  induction environment as [|[k' v'] e IH]; intros m; [by destruct (inherits k)|]. cbn [foldl].
  apply NoDup_cons in Hnd as [Hn Hnd]. rewrite IH by done. apply jm_get_None in Hn. cbn in Hn. cbn [jm_get].
  destruct (decide (k = k')) as [->|Hne].
  - rewrite Hn. cbn. destruct v' as [v|]; destruct (inherits k'); cbn; rewrite ?jm_get_set_eq; done.
  - destruct v' as [v|]; [|done]. destruct (inherits k'); [|done]. by rewrite jm_get_set_ne.
Qed.

(** * The protocols *)

Section protocol.
Context {W : Type}.
Variable config : TmuxConfig.
Variable h : @handler unit W tcall terror tresp.
Abbreviation start w := (Sys tt w [] : sys unit W tcall).

Definition issued (argv : list jsstr) (b : bool) : tcall * bool := (RunCommand (tmux_executable config) argv, b).
Definition attach (name : jsstr) (st : SessionRuntimeSettings) : AttachSpec :=
  {| executable := tmux_executable config;
     args := [js "attach-session"; js "-E"; js "-t"; name];
     cwd := homeDir config;
     env := [(js "HOME", homeDir config); (js "SHELL", shell st); (js "TERM", js "xterm-256color")] |}.

(** What [prepare] does for a session name: the commands in order, each with
    whether the runner answered, and the outcome. *)
Inductive prepared (name : jsstr) (st : SessionRuntimeSettings) : list (tcall * bool) → res terror AttachSpec → Prop :=
| no_build_name b : prepared name st [(RandomUUID, b)] (Throw InvalidSession)
| probe_failed b : prepared name st [(RandomUUID, true); issued (has_session name) b] (Throw TmuxCommandFailed)
| creation_failed u b b' : isSessionId u = true → let build := js "webterm-build-" ++ undashed u in
    prepared name st [(RandomUUID, true); issued (has_session name) true;
      issued (creation build name st) b; issued (kill_session build) b'] (Throw TmuxCommandFailed)
| window_failed u created b : isSessionId u = true → let build := js "webterm-build-" ++ undashed u in
    prepared name st ([(RandomUUID, true); issued (has_session name) true] ++
      (if created : bool then [issued (creation build name st) true] else []) ++
      [issued (alternate_screen_off name) b]) (Throw TmuxCommandFailed)
| mouse_failed u created b : isSessionId u = true → let build := js "webterm-build-" ++ undashed u in
    prepared name st ([(RandomUUID, true); issued (has_session name) true] ++
      (if created : bool then [issued (creation build name st) true] else []) ++
      [issued (alternate_screen_off name) true; issued (mouse_on name) b]) (Throw TmuxCommandFailed)
| ready u created : isSessionId u = true → let build := js "webterm-build-" ++ undashed u in
    prepared name st ([(RandomUUID, true); issued (has_session name) true] ++
      (if created : bool then [issued (creation build name st) true] else []) ++
      [issued (alternate_screen_off name) true; issued (mouse_on name) true]) (Ok (attach name st)).

Lemma wp_tmux_run (argv : list jsstr) (Q : res terror CommandResult → sys unit W tcall → Prop) s :
  (∀ r w, Q (Ok r) (Sys tt w (log s ++ [issued argv true]))) →
  (∀ w, Q (Throw TmuxCommandFailed) (Sys tt w (log s ++ [issued argv false]))) →
  wp (run config h argv) Q s.
Proof.
  intros H1 H2. unfold run. wp_step.
  refine (wp_call tresp h (RunCommand _ argv) _ s _). intros r [] w _. destruct r; [apply H1|]. wp_step. apply H2.
Qed.
Lemma wp_attachSpec id name st s Q : tmuxSessionName id = Some name → Q (Ok (attach name st)) s →
  wp (attachSpec config id (Some st)) Q (s : sys unit W tcall).
Proof. intros Hn HQ. unfold attachSpec. rewrite Hn. wp_step. cbn [of_option]. wp_step. wp_step. exact HQ. Qed.

Lemma prepare_ok id settings w : wp (prepare config h id settings) (λ r s,
  match tmuxSessionName id, settings with
  | None, _ => r = Throw InvalidSession ∧ log s = []
  | Some _, None => r = Throw InvalidRuntimeSettings ∧ log s = []
  | Some name, Some st => prepared name st (log s) r
  end) (start w).
Proof.
  unfold prepare. destruct (tmuxSessionName id) as [a|] eqn:H; [|done]. wp_step. cbn [of_option]. wp_step.
  destruct settings as [st|]; cbn [of_option]; wp_step; [|done].
  unfold tmuxBuildSessionName. wp_step. wp_step. wp_step. wp_step.
  refine (wp_call tresp h RandomUUID _ _ _). intros r [] w1 _.
  destruct r as [u|e]; cbn [is_ok] in *; [|wp_go; apply no_build_name].
  wp_step. wp_step; [apply no_build_name|]. assert (isSessionId u = true) as Hu by by apply negb_false_iff. wp_step.
  set (build := js "webterm-build-" ++ undashed u). wp_step. unfold exists_session. rewrite H.
  wp_step. cbn [of_option]. wp_step. wp_step.
  apply wp_tmux_run; [intros probe w2|intros w2; apply (probe_failed _ _ false)].
  assert (∀ created w, wp (do! catch (do! succeed config h (alternate_screen_off a) in succeed config h (mouse_on a))
        (λ _, throw TmuxCommandFailed) in attachSpec config id (Some st)) (λ r s, prepared a st (log s) r)
      (Sys tt w ([(RandomUUID, true); issued (has_session a) true] ++
        (if created : bool then [issued (creation build a st) true] else [])))) as Hrest.
  { intros created w3. wp_step. wp_step. wp_step. unfold succeed. wp_step.
    apply wp_tmux_run; [intros r4 w4|intros w4; wp_step; cbn [log]; rewrite <-app_assoc; by apply (window_failed _ _ u)].
    wp_step; [wp_step; cbn [log]; rewrite <-app_assoc; by apply (window_failed _ _ u)|].
    wp_step. apply wp_tmux_run; cbn [log]; rewrite <-!app_assoc; cbn [app].
    - intros r5 w5. wp_step; [wp_step; by apply (mouse_failed _ _ u)|].
      eapply wp_attachSpec; [done|]. by apply (ready _ _ u).
    - intros w5. wp_step. by apply (mouse_failed _ _ u). }
  wp_step; [wp_step; wp_step; wp_step; apply (Hrest false)|]. wp_step; [|wp_step; apply (probe_failed _ _ true)].
  wp_step. unfold create. wp_step. unfold succeed. wp_step. wp_step.
  assert (∀ b w, wp (do! attempt_call (killNamedSession config h build) in throw (A:=unit) TmuxCommandFailed)
      (λ r s, match r with Ok _ => False | Throw e => prepared a st (log s) (Throw e) end)
      (Sys tt w [(RandomUUID, true); issued (has_session a) true; issued (creation build a st) b])) as Hkill.
  { intros b w3. wp_step. unfold attempt_call. wp_step. unfold killNamedSession. wp_step.
    apply wp_tmux_run; [intros r4 w4; wp_step|intros w4]; repeat wp_step; by apply (creation_failed _ _ u). }
  apply wp_tmux_run; [intros r3 w3; wp_step|intros w3].
  - eapply wp_mono; [apply (Hkill true)|]. by intros [] s3.
  - apply (Hrest true).
  - eapply wp_mono; [apply (Hkill false)|]. by intros [] s3.
Qed.
End protocol.

Lemma build_is_no_name u id : tmuxSessionName id ≠ Some (js "webterm-build-" ++ u).
Proof. unfold tmuxSessionName. by case_match. Qed.
Lemma prepared_kills config name st l r n b : prepared config name st l r →
  issued config (kill_session n) b ∈ l → ∀ id, tmuxSessionName id ≠ Some n.
Proof.
  intros Hp Hin id. assert (∃ u, n = js "webterm-build-" ++ u) as [u ->]; [|apply build_is_no_name].
  destruct Hp as [| |u b1 b2 Hu build|u c b' Hu build|u c b' Hu build|u c Hu build].
  all: rewrite ?elem_of_app, ?elem_of_cons in Hin; try (destruct c; cbn in Hin).
  all: repeat match goal with
    | H : _ ∨ _ |- _ => destruct H as [H|H]
    | H : _ ∈ _ :: _ |- _ => apply elem_of_cons in H
    | H : _ ∈ [] |- _ => by apply elem_of_nil in H
    end.
  all: try discriminate Hin. injection Hin as Hn _. by exists (undashed u).
Qed.

(** Preparing a session runs a fixed protocol of at most five commands: it
    creates a session only after a probe said that there is none, under a fresh
    name that it kills when the creation fails; it never kills the session of a
    tab; and every failure is one of three fixed errors.  The terminal process
    is then the configured tmux, attached to the tab's session, with the home
    directory, shell and terminal of the specification and, of the server's
    environment, the listed variables only. *)
Theorem prepare_protocol {W} (config : TmuxConfig) (h : @handler unit W tcall terror tresp)
    (id : jsstr) (settings : option SessionRuntimeSettings) (w : W)
    (environment : list (jsstr * option jsstr)) (dimensions : option (Z * Z)) :
  NoDup environment.*1 →
  let '(r, s) := prepare config h id settings (Sys tt w []) in
  match tmuxSessionName id, settings with
  | None, _ => r = Throw InvalidSession ∧ log s = []
  | Some _, None => r = Throw InvalidRuntimeSettings ∧ log s = []
  | Some name, Some st => prepared config name st (log s) r
  end ∧
  (∀ n b, issued config (kill_session n) b ∈ log s → ∀ id', tmuxSessionName id' ≠ Some n) ∧
  (∀ spec, r = Ok spec → ∃ name st, tmuxSessionName id = Some name ∧ settings = Some st ∧
     let '(exe, argv, o) := spawn environment spec dimensions in
     exe = tmux_executable config ∧ argv = [js "attach-session"; js "-E"; js "-t"; name] ∧
     pty_cwd o = homeDir config ∧ (cols o, rows o) = default (80, 24) dimensions ∧
     ∀ k, jm_get k (pty_env o) =
       if decide (k = js "HOME") then Some (homeDir config)
       else if decide (k = js "SHELL") then Some (shell st)
       else if decide (k = js "TERM") then Some (js "xterm-256color")
       else if inherits k then mjoin (jm_get k environment) else None).
Proof.
  intros Hnd. pose proof (prepare_ok config h id settings w) as Hp. unfold wp in Hp.
  destruct (prepare config h id settings _) as [r s]. cbn [fst snd] in Hp. split_and!.
  - exact Hp.
  - intros n b Hin. destruct (tmuxSessionName id) as [name|]; [destruct settings as [st|]|].
    + by eapply prepared_kills.
    + destruct Hp as [_ Hl]. rewrite Hl in Hin. by apply elem_of_nil in Hin.
    + destruct Hp as [_ Hl]. rewrite Hl in Hin. by apply elem_of_nil in Hin.
  - intros spec ->. destruct (tmuxSessionName id) as [name|]; [destruct settings as [st|]|]; [|by destruct Hp..].
    exists name, st. split_and!; [done..|]. inversion Hp; subst. unfold spawn.
    destruct (default (80, 24) dimensions) as [c rw] eqn:Hd. split_and!; [done..|].
    intros k. cbn [pty_env attach env]. rewrite spread_get by by apply NoDup_keys. rewrite sanitized_get by done.
    cbn [jm_get]. by repeat case_decide.
Qed.

(** Session names and tab identifiers correspond one to one, and what tmux
    lists is read back exactly: of the listed names, with either line ending,
    the identifiers of precisely the tabs' sessions come out, in order and
    without repetition; foreign sessions are ignored, no server means no
    session, and any other status is an error. *)
Theorem tmux_listing_roundtrip {W} (config : TmuxConfig) (h : @handler unit W tcall terror tresp) (w w' : W)
    (res : CommandResult) (eol : jsstr) (lines : list jsstr) :
  h (RunCommand (tmux_executable config) [js "list-sessions"; js "-F"; js "#{session_name}"]) tt w =
    (Ok res, (tt, w')) →
  eol = [10] ∨ eol = [13; 10] → Forall (λ l, 10 ∉ l ∧ 13 ∉ l) lines → stdout res = terminated eol lines →
  (∀ id, isSessionId id = true → ∃ n, tmuxSessionName id = Some n ∧ session_of_line n = Some id) ∧
  match (listActiveSessionIds config h (Sys tt w [])).1 with
  | Ok ids =>
      (exitCode res = 1 ∧ ids = []) ∨
      exitCode res = 0 ∧ (∀ id, id ∈ ids ↔ ∃ n, tmuxSessionName id = Some n ∧ n ∈ lines) ∧
        omap tmuxSessionName ids `sublist_of` lines ∧ (NoDup lines → NoDup ids)
  | Throw e => e = TmuxCommandFailed ∧ exitCode res ≠ 0 ∧ exitCode res ≠ 1
  end.
Proof.
  intros Hh He Hl Hout. split.
  { intros id Hid. exists (js "webterm-tab-" ++ undashed id).
    assert (tmuxSessionName id = Some (js "webterm-tab-" ++ undashed id)) as Hn by (unfold tmuxSessionName; by rewrite Hid).
    split; [done|]. by apply session_of_line_spec. }
  unfold listActiveSessionIds, run, bind, catch, call. cbn [comp Prelude.world]. rewrite Hh. cbn [is_ok].
  destruct (Z.eqb_spec (exitCode res) 1) as [?|H1]; [by left|].
  destruct (Z.eqb_spec (exitCode res) 0) as [H0|?]; cbn; [|done].
  assert (omap session_of_line (split_lines [] (stdout res)) = omap session_of_line lines) as Hids
    by (rewrite Hout, split_lines_terminated by done; apply list_lines_ids).
  assert ((∀ id, id ∈ omap session_of_line lines ↔ ∃ n, tmuxSessionName id = Some n ∧ n ∈ lines) ∧
    omap tmuxSessionName (omap session_of_line lines) `sublist_of` lines ∧
    (NoDup lines → NoDup (omap session_of_line lines))) as Hspec.
  { split_and!; [intros; apply elem_of_ids| |apply ids_NoDup].
    clear. induction lines as [|l lines IH]; [done|]. cbn.
    destruct (session_of_line l) as [id|] eqn:Hid; [|by apply sublist_cons].
    apply session_of_line_spec in Hid. cbn. rewrite Hid. by apply sublist_skip. }
  case_bool_decide as Ht; cbn; right; (split; [done|]); [|rewrite Hids; exact Hspec].
  apply trim_blank in Ht. rewrite Hout in Ht. apply blank_no_names in Ht. rewrite Ht in Hspec. exact Hspec.
Qed.

(** ** A concrete server *)

Definition sample_uuid_string : jsstr := js "123e4567-e89b-42d3-a456-426614174000".
Definition sample_config : TmuxConfig := {| tmux_executable := js "/usr/bin/tmux"; homeDir := js "/home/u" |}.
Definition sample_listing : jsstr := terminated [13; 10] [js "mine"; js "webterm-tab-123e4567e89b42d3a456426614174000"].
(** Every command succeeds, but no session exists yet. *)
Definition sample_tmux : @handler unit unit tcall terror tresp := λ c _ _,
  match c return Prelude.res terror (tresp c) * (unit * unit) with
  | RunCommand _ argv => (Ok {| exitCode := if bool_decide (head argv = Some (js "has-session")) then 1 else 0;
      stdout := sample_listing; stderr := [] |}, (tt, tt))
  | RandomUUID => (Ok sample_uuid_string, (tt, tt))
  end.
Definition sample_runtime : SessionRuntimeSettings := {| shell := js "/bin/bash"; historyLimit := 5000 |}.
Definition sample_environment : list (jsstr * option jsstr) :=
  [(js "PATH", Some (js "/bin")); (js "SECRET", Some (js "x")); (js "LC_ALL", Some (js "C")); (js "SHELL", Some (js "/bin/zsh"))].

Theorem prepare_protocol_witness :
  NoDup sample_environment.*1 ∧
  ∃ spec, (prepare sample_config sample_tmux sample_uuid_string (Some sample_runtime) (Sys tt tt [])).1 = Ok spec ∧
    jm_get (js "SECRET") (pty_env (spawn sample_environment spec None).2) = None ∧
    jm_get (js "LC_ALL") (pty_env (spawn sample_environment spec None).2) = Some (js "C").
Proof.
  assert (NoDup sample_environment.*1) as Hnd by by apply NoDup_keys.
  split; [exact Hnd|].
  pose proof (prepare_protocol sample_config sample_tmux sample_uuid_string (Some sample_runtime) tt
    sample_environment None Hnd) as H.
  destruct (prepare sample_config sample_tmux sample_uuid_string (Some sample_runtime) (Sys tt tt [])) as [r s] eqn:Hr.
  destruct r as [spec|e]; [|exfalso; vm_compute in Hr; discriminate Hr].
  destruct H as (_ & _ & H). destruct (H spec eq_refl) as (name & st & _ & _ & Hs).
  exists spec. split; [done|]. destruct (spawn sample_environment spec None) as [[exe argv] o].
  destruct Hs as (_ & _ & _ & _ & Hk). split; rewrite Hk; vm_compute; reflexivity.
Defined.
Theorem tmux_listing_roundtrip_witness :
  match (listActiveSessionIds sample_config sample_tmux (Sys tt tt [])).1 with
  | Ok ids => ∀ id, id ∈ ids ↔ ∃ n, tmuxSessionName id = Some n ∧
      n ∈ [js "mine"; js "webterm-tab-123e4567e89b42d3a456426614174000"]
  | Throw _ => False
  end.
Proof.
  pose proof (tmux_listing_roundtrip sample_config sample_tmux tt tt
    {| exitCode := 0; stdout := sample_listing; stderr := [] |} [13; 10]
    [js "mine"; js "webterm-tab-123e4567e89b42d3a456426614174000"] eq_refl (or_intror eq_refl)) as H.
  destruct H as [_ H]; [|reflexivity|].
  - repeat constructor; apply (bool_decide_eq_true_1 _); vm_compute; reflexivity.
  - destruct (listActiveSessionIds sample_config sample_tmux (Sys tt tt [])).1 as [ids|e].
    + destruct H as [[H _]|(_ & H & _)]; [discriminate H|exact H].
    + destruct H as (_ & H & _). exact (H eq_refl).
Defined.
