(* ===== verification/Headers.v ===== *)
(** The request headers as the authentication layer reads them
    ([auth-middleware.ts] and [cloudflare-access.ts]): raw header lists, the
    session cookie, single bounded headers and the JSON media type.

    A raw header list alternates names and values.  Case mapping of strings
    outside of ASCII is an interface, as are the normal forms of [Platform]. *)
From S2P Require Import Prelude SafeString Json JsonTree Tabs Protocol.
Open Scope Z_scope.

Definition ascii_lower (c : Z) : Z := if (65 <=? c) && (c <=? 90) then c + 32 else c.
(** [String.prototype.toLowerCase] *)
Class LowerCase := { to_lower : jsstr → jsstr }.
Class LowerCaseLaws `{LowerCase} : Prop :=
  to_lower_ascii : ∀ s, Forall (λ c, 0 <= c < 128) s → to_lower s = ascii_lower <$> s.

Definition SESSION_COOKIE_NAME : jsstr := js "flanterminal_session".
Definition CSRF_HEADER_NAME : jsstr := js "x-csrf-token".
Definition MAX_COOKIE_HEADER_BYTES : Z := 8 * 1024.
Definition MAX_COOKIE_PAIRS : nat := 32.
Definition MAX_RAW_HEADER_ITEMS : nat := 128.
Definition MAX_RAW_HEADER_FIELDS : nat := 64.
Definition MAX_RAW_HEADER_BYTES : Z := 16 * 1024.
Definition MAX_COOKIE_FIELD_LINES : Z := 8.
Definition MAX_SESSION_COOKIE_BYTES : Z := 256.
Definition MAX_CSRF_BYTES : Z := 512.

(** * Strings *)

(** [s.split(sep)] for one character *)
Fixpoint split_on (sep : Z) (acc s : jsstr) : list jsstr :=
  match s with
  | [] => [acc]
  | c :: s' => if c =? sep then acc :: split_on sep [] s' else split_on sep (acc ++ [c]) s'
  end.
Definition split (sep : Z) (s : jsstr) : list jsstr := split_on sep [] s.
(** [s.indexOf(c)] with the two parts around it *)
Fixpoint cut (sep : Z) (s : jsstr) : option (jsstr * jsstr) :=
  match s with
  | [] => None
  | c :: s' => if c =? sep then Some ([], s') else '(a, b) ← cut sep s'; Some (c :: a, b)
  end.

Definition all_chars (p : Z → bool) (s : jsstr) : bool := negb (bool_decide (s = [])) && forallb p s.
Definition token_char (c : Z) : bool :=
  ((65 <=? c) && (c <=? 90)) || ((97 <=? c) && (c <=? 122)) || ((48 <=? c) && (c <=? 57)) || (c =? 95) || (c =? 45).
Definition sessionTokenPattern : jsstr → bool := all_chars token_char.
Definition visibleAsciiPattern : jsstr → bool := all_chars (λ c, (0x21 <=? c) && (c <=? 0x7E)).
Definition headerAsciiPattern : jsstr → bool := all_chars (λ c, (0x20 <=? c) && (c <=? 0x7E)).
(** [[A-Za-z0-9._-]+] after [charset=], for a string of ASCII characters *)
Definition charsetParameterPattern (s : jsstr) : bool :=
  bool_decide (ascii_lower <$> take 8 s = js "charset=") &&
  all_chars (λ c, token_char c || (c =? 46)) (drop 8 s).

(** * Header lists *)

(** Names with their values; the last name of an odd list has none. *)
Fixpoint header_pairs (raw : list jsstr) : list (jsstr * option jsstr) :=
  match raw with
  | name :: value :: rest => (name, Some value) :: header_pairs rest
  | [name] => [(name, None)]
  | [] => []
  end.

Section headers.
Context `{LowerCase}.

(** The values of the cookie fields, within the limits. *)
Fixpoint cookie_fields (fs : list (jsstr * option jsstr)) (rawHeaderBytes byteCount cookieFieldLines : Z)
    (headers : list jsstr) : option (list jsstr) :=
  match fs with
  | [] => Some headers
  | (_, None) :: _ => None
  | (name, Some value) :: fs =>
      let rawHeaderBytes := rawHeaderBytes + (utf8ByteLength name + utf8ByteLength value) in
      if MAX_RAW_HEADER_BYTES <? rawHeaderBytes then None
      else if negb (bool_decide (to_lower name = js "cookie"))
      then cookie_fields fs rawHeaderBytes byteCount cookieFieldLines headers
      else
        let cookieFieldLines := cookieFieldLines + 1 in
        let bytes := byteCount + utf8ByteLength value in
        if MAX_COOKIE_FIELD_LINES <? cookieFieldLines then None
        else if MAX_COOKIE_HEADER_BYTES <? bytes then None
        else cookie_fields fs rawHeaderBytes bytes cookieFieldLines (headers ++ [value])
  end.
(** The value of a pair that names the session cookie. *)
Definition session_pair (rawPair : jsstr) : option jsstr :=
  '(name, value) ← cut 61 (trim rawPair);
  if bool_decide (name = SESSION_COOKIE_NAME) then Some value else None.
Fixpoint session_pairs (pairs : list jsstr) (pairCount : nat) (sessions : list jsstr) : option (list jsstr) :=
  match pairs with
  | [] => Some sessions
  | rawPair :: pairs =>
      let pairCount := S pairCount in
      if (MAX_COOKIE_PAIRS <? pairCount)%nat then None
      else session_pairs pairs pairCount
        (sessions ++ match session_pair rawPair with Some v => [v] | None => [] end)
  end.
Definition readSessionCookie (rawHeaders : list jsstr) : option jsstr :=
  if negb (Nat.even (length rawHeaders)) || (MAX_RAW_HEADER_ITEMS <? length rawHeaders)%nat ||
     (MAX_RAW_HEADER_FIELDS <? length rawHeaders / 2)%nat
  then None
  else
    headers ← cookie_fields (header_pairs rawHeaders) 0 0 0 [];
    if bool_decide (headers = []) then None
    else
      sessions ← session_pairs (headers ≫= split 59) 0 [];
      match sessions with
      | [session] =>
          if (utf8ByteLength session <=? MAX_SESSION_COOKIE_BYTES) && sessionTokenPattern session
          then Some session else None
      | _ => None
      end.

Fixpoint header_values (wanted : jsstr) (fs : list (jsstr * option jsstr)) (matches : list jsstr)
    : option (list jsstr) :=
  match fs with
  | [] => Some matches
  | (name, value) :: fs =>
      if negb (bool_decide (to_lower name = wanted)) then header_values wanted fs matches
      else match value with
           | None => None
           | Some value => header_values wanted fs (matches ++ [value])
           end
  end.
Definition oneBoundedHeader (rawHeaders : list jsstr) (wanted : jsstr) (maximumBytes : Z)
    (pattern : jsstr → bool) : option jsstr :=
  matches ← header_values wanted (header_pairs rawHeaders) [];
  match matches with
  | [value] => if (utf8ByteLength value <=? maximumBytes) && pattern value then Some value else None
  | _ => None
  end.
Definition hasExactHeader (rawHeaders : list jsstr) (wanted expected : jsstr) : bool :=
  bool_decide (oneBoundedHeader rawHeaders wanted 2048 headerAsciiPattern = Some expected).
Definition hasJsonContentType (rawHeaders : list jsstr) : bool :=
  match oneBoundedHeader rawHeaders (js "content-type") 128 headerAsciiPattern with
  | None => false
  | Some value =>
      match split 59 value with
      | mediaType :: parameters =>
          bool_decide (to_lower (trim mediaType) = js "application/json") &&
          match parameters with
          | [] => true
          | [p] => charsetParameterPattern (trim p)
          | _ => false
          end
      | [] => false
      end
  end.

(** [distinct[name] ??= []] and [push], for a request that has no view of its
    own; a record keeps the order of its keys. *)
Fixpoint push_distinct (name value : jsstr) (d : list (jsstr * list jsstr)) : list (jsstr * list jsstr) :=
  match d with
  | [] => [(name, [value])]
  | (n, vs) :: d => if decide (n = name) then (n, vs ++ [value]) :: d else (n, vs) :: push_distinct name value d
  end.
(** The inherited properties of a record whose names are lower case: there is
    no [push] on them. *)
Definition inherited (name : jsstr) : bool := bool_decide (name ∈ js <$> ["constructor"; "__proto__"]%string).
Fixpoint collect_distinct (fs : list (jsstr * option jsstr)) (d : list (jsstr * list jsstr))
    : option (list (jsstr * list jsstr)) :=
  match fs with
  | [] => Some d
  | (_, None) :: fs => collect_distinct fs d
  | (name, Some value) :: fs =>
      if inherited (to_lower name) then None
      else collect_distinct fs (push_distinct (to_lower name) value d)
  end.
Definition distinctHeaders (headersDistinct : option (list (jsstr * list jsstr))) (rawHeaders : list jsstr)
    : option (list (jsstr * list jsstr)) :=
  match headersDistinct with
  | Some d => Some d
  | None => collect_distinct (header_pairs rawHeaders) []
  end.
End headers.

(** * The cookie that is set *)

Definition invalid_path (basePath : jsstr) : bool :=
  negb (bool_decide (head basePath = Some 47)) || bool_decide (59 ∈ basePath) ||
  existsb (λ c, (c <=? 32) || (c =? 127)) (code_points basePath).
(** [None]: it throws. *)
Definition serializeCookie (value basePath : jsstr) (secure clear : bool) : option jsstr :=
  if invalid_path basePath then None
  else Some (join (js "; ")
    ([SESSION_COOKIE_NAME ++ [61] ++ value; js "Path=" ++ basePath; js "HttpOnly"] ++
     (if secure then [js "Secure"] else []) ++ [js "SameSite=Strict"] ++
     (if clear then [js "Max-Age=0"] else []))).
(** What is appended to the [Set-Cookie] headers. *)
Definition setSessionCookie (value basePath : jsstr) (secure : bool) : option jsstr :=
  if (length value =? 43)%nat && forallb token_char value then serializeCookie value basePath secure false else None.
Definition clearSessionCookie (basePath : jsstr) (secure : bool) : option jsstr :=
  serializeCookie [] basePath secure true.

(** * Properties

    What the session cookie and the single headers promise. *)

(** * Splitting *)

Lemma split_on_cons sep acc c s : c ≠ sep → split_on sep acc (c :: s) = split_on sep (acc ++ [c]) s.
Proof. intros H. cbn. by rewrite (proj2 (Z.eqb_neq c sep)). Qed.
Lemma split_on_app sep acc a s : sep ∉ a → split_on sep acc (a ++ sep :: s) = (acc ++ a) :: split_on sep [] s.
Proof.
  revert acc. induction a as [|c a IH]; intros acc Ha; cbn [app].
  - cbn. by rewrite Z.eqb_refl, app_nil_r.
  - apply not_elem_of_cons in Ha as [Hc Ha]. rewrite split_on_cons by congruence. rewrite IH by done.
    by rewrite <-app_assoc.
Qed.
Lemma split_on_plain sep acc a : sep ∉ a → split_on sep acc a = [acc ++ a].
Proof.
  revert acc. induction a as [|c a IH]; intros acc Ha; [by rewrite app_nil_r|].
  apply not_elem_of_cons in Ha as [Hc Ha]. rewrite split_on_cons by congruence. rewrite IH by done.
  by rewrite <-app_assoc.
Qed.
(** Splitting undoes joining with a separator and a space. *)
Definition spaced (l : list jsstr) : list jsstr :=
  match l with [] => [] | x :: l => x :: ((λ y, 32 :: y) <$> l) end.
Lemma split_join sep l : sep ≠ 32 → l ≠ [] → Forall (λ x, sep ∉ x) l → split sep (join [sep; 32] l) = spaced l.
Proof.
  intros Hsep Hne Hl. destruct l as [|x l]; [done|]. clear Hne. unfold split. revert x Hl.
  assert (∀ acc x l, Forall (λ x, sep ∉ x) (x :: l) →
    split_on sep acc (join [sep; 32] (x :: l)) = (acc ++ x) :: ((λ y, 32 :: y) <$> l)) as H.
  { intros acc x l'. revert acc x. induction l' as [|y l' IH]; intros acc x [Hx Hl]%Forall_cons.
    - by apply split_on_plain.
    - change (join [sep; 32] (x :: y :: l')) with (x ++ sep :: 32 :: join [sep; 32] (y :: l')).
      rewrite split_on_app by done. rewrite split_on_cons by done. by rewrite IH. }
  intros x Hl. apply (H [] x l Hl).
Qed.
Lemma cut_app sep a b : sep ∉ a → cut sep (a ++ sep :: b) = Some (a, b).
Proof.
  induction a as [|c a IH]; cbn; intros Ha; [by rewrite Z.eqb_refl|].
  apply not_elem_of_cons in Ha as [Hc Ha]. rewrite (proj2 (Z.eqb_neq c sep)) by congruence. by rewrite IH.
Qed.

(** * What a cookie header says *)

Section facts.
Context `{LowerCase}.

Definition total_bytes (fs : list (jsstr * option jsstr)) : Z :=
  foldr (λ p n, utf8ByteLength p.1 + match p.2 with Some v => utf8ByteLength v | None => 0 end + n) 0 fs.
Definition cookie_values (fs : list (jsstr * option jsstr)) : list jsstr :=
  omap (λ p, if bool_decide (to_lower p.1 = js "cookie") then p.2 else None) fs.
Definition bytes_of (l : list jsstr) : Z := foldr (λ v n, utf8ByteLength v + n) 0 l.

Lemma total_bytes_nonneg fs : 0 <= total_bytes fs.
Proof.
  induction fs as [|[n v] fs IH]; [done|]. cbn [total_bytes foldr fst snd]. fold (total_bytes fs).
  pose proof (size_nonneg n). destruct v as [v|]; [pose proof (size_nonneg v)|]; lia.
Qed.
Lemma bytes_of_nonneg l : 0 <= bytes_of l.
Proof. induction l as [|v l IH]; [done|]. cbn [bytes_of foldr]. fold (bytes_of l). pose proof (size_nonneg v). lia. Qed.

Lemma cookie_fields_spec fs : ∀ a b c hs out, a <= MAX_RAW_HEADER_BYTES → b <= MAX_COOKIE_HEADER_BYTES →
  c <= MAX_COOKIE_FIELD_LINES →
  cookie_fields fs a b c hs = Some out ↔
  Forall (λ p, is_Some p.2) fs ∧ a + total_bytes fs <= MAX_RAW_HEADER_BYTES ∧
  b + bytes_of (cookie_values fs) <= MAX_COOKIE_HEADER_BYTES ∧
  c + Z.of_nat (length (cookie_values fs)) <= MAX_COOKIE_FIELD_LINES ∧ out = hs ++ cookie_values fs.
Proof.
  induction fs as [|[name [value|]] fs IH]; intros a b c hs out Ha Hb Hc; cbn [cookie_fields].
  - cbn. rewrite app_nil_r, !Z.add_0_r. split; [intros [= <-]; by split_and!|intros (_ & _ & _ & _ & ->); done].
  - pose proof (total_bytes_nonneg fs) as Ht. pose proof (bytes_of_nonneg (cookie_values fs)) as Hbs.
    cbn [total_bytes foldr fst snd]. fold (total_bytes fs). rewrite Forall_cons.
    assert (is_Some (Some value)) as Hs by by eexists.
    destruct (Z.ltb_spec MAX_RAW_HEADER_BYTES (a + (utf8ByteLength name + utf8ByteLength value))) as [?|?];
      [split; [done|intros (_ & ? & _); lia]|].
    unfold cookie_values. cbn [omap list_omap fst snd]. fold (cookie_values fs).
    destruct (bool_decide (to_lower name = js "cookie")); cbn [negb].
    + cbn [bytes_of foldr length]. fold (bytes_of (cookie_values fs)).
      destruct (Z.ltb_spec MAX_COOKIE_FIELD_LINES (c + 1)) as [?|?]; [split; [done|intros (_ & _ & _ & ? & _); lia]|].
      destruct (Z.ltb_spec MAX_COOKIE_HEADER_BYTES (b + utf8ByteLength value)) as [?|?];
        [split; [done|intros (_ & _ & ? & _); lia]|].
      rewrite IH by lia. rewrite <-app_assoc. cbn [app]. split; intros (? & ? & ? & ? & ?); split_and!; try tauto; lia.
    + rewrite IH by lia. split; intros (? & ? & ? & ? & ?); split_and!; try tauto; lia.
  - split; [done|]. intros (Hf & _). apply Forall_cons in Hf as [[v Hv] _]. done.
Qed.
Lemma session_pairs_spec pairs : ∀ n acc out, (n ≤ MAX_COOKIE_PAIRS)%nat →
  session_pairs pairs n acc = Some out ↔
  (n + length pairs ≤ MAX_COOKIE_PAIRS)%nat ∧ out = acc ++ omap session_pair pairs.
Proof.
  induction pairs as [|p pairs IH]; intros n acc out Hn; cbn [session_pairs length].
  - cbn. rewrite app_nil_r, Nat.add_0_r. naive_solver.
  - destruct (Nat.ltb_spec MAX_COOKIE_PAIRS (S n)) as [?|?]; [split; [done|intros [? _]; lia]|].
    rewrite IH by done. cbn. destruct (session_pair p); rewrite <-?app_assoc, ?app_nil_r; cbn;
      (split; (intros [? ->]; (split; [lia|done]))).
Qed.

(** The limits on a request's headers. *)
Definition limits_ok (raw : list jsstr) : Prop :=
  Nat.even (length raw) = true ∧ (length raw ≤ MAX_RAW_HEADER_ITEMS)%nat ∧
  total_bytes (header_pairs raw) <= MAX_RAW_HEADER_BYTES ∧
  bytes_of (cookie_values (header_pairs raw)) <= MAX_COOKIE_HEADER_BYTES ∧
  Z.of_nat (length (cookie_values (header_pairs raw))) <= MAX_COOKIE_FIELD_LINES ∧
  (length (cookie_values (header_pairs raw) ≫= split 59) ≤ MAX_COOKIE_PAIRS)%nat.
Definition session_token (t : jsstr) : Prop :=
  utf8ByteLength t <= MAX_SESSION_COOKIE_BYTES ∧ sessionTokenPattern t = true.

Lemma even_pairs raw : Nat.even (length raw) = true → Forall (λ p, is_Some p.2) (header_pairs raw).
Proof.
  assert (∀ n raw, (length raw ≤ n)%nat → Nat.even (length raw) = true →
    Forall (λ p : jsstr * option jsstr, is_Some p.2) (header_pairs raw)) as Hn; [|by eapply Hn].
  induction n as [|n IH]; intros [|x [|y r]] Hl He; cbn in *; try done; try lia; try constructor; [by eexists|].
  apply IH; [lia|done].
Qed.
Lemma readSessionCookie_spec raw t : readSessionCookie raw = Some t ↔
  limits_ok raw ∧ (cookie_values (header_pairs raw) ≫= split 59) ≫= (λ p, option_list (session_pair p)) = [t] ∧
  session_token t.
Proof.
  assert (∀ l, l ≫= (λ p, option_list (session_pair p)) = omap session_pair l) as Hom.
  { induction l as [|p l IH]; [done|]. cbn. rewrite IH. by destruct (session_pair p). }
  rewrite Hom. unfold readSessionCookie, limits_ok.
  destruct (Nat.even (length raw)) eqn:He; cbn [negb orb]; [|split; [done|intros ((? & _) & _); done]].
  destruct (Nat.ltb_spec MAX_RAW_HEADER_ITEMS (length raw)) as [?|Hl]; cbn [orb]; [split; [done|intros ((_ & ? & _) & _); lia]|].
  destruct (Nat.ltb_spec MAX_RAW_HEADER_FIELDS (length raw / 2)) as [Hd|_].
  { exfalso. assert (length raw / 2 ≤ 64)%nat as Hq by (apply (Nat.Div0.div_le_mono _ 128); done). unfold MAX_RAW_HEADER_FIELDS in Hd. lia. }
  split.
  - intros (hs & Hhs%cookie_fields_spec & Ht)%bind_Some; [|done..]. destruct Hhs as (_ & ? & ? & ? & ->). cbn [app] in *.
    case_bool_decide; [done|]. apply bind_Some in Ht as (ss & [Hp ->]%session_pairs_spec & Ht); [|lia].
    destruct (omap session_pair _) as [|x [|]] eqn:E; try done. cbn [app] in Ht. destruct (_ && _) eqn:Hok; [|done].
    injection Ht as ->. apply andb_true_iff in Hok as [?%Z.leb_le ?]. cbn in Hp. split_and!; done.
  - intros ((_ & _ & Ht & Hb & Hn & Hp) & E & Hs1 & Hs2).
    rewrite (proj2 (cookie_fields_spec _ 0 0 0 [] (cookie_values (header_pairs raw)) ltac:(done) ltac:(done) ltac:(done)))
      by (split_and!; [by apply even_pairs|done..]).
    cbn [mbind option_bind]. rewrite bool_decide_false by (intros E'; by rewrite E' in E).
    rewrite (proj2 (session_pairs_spec _ 0 [] _ ltac:(lia))) by (split; [exact Hp|done]).
    cbn [app mbind option_bind]. by rewrite (proj2 (Z.leb_le _ _) Hs1), Hs2.
Qed.

(** ** The cookie that was set comes back *)

Lemma token_chars t : forallb token_char t = true → Forall (λ c, token_char c = true) t.
Proof. intros Ht%Is_true_eq_left%forallb_True. eapply Forall_impl; [exact Ht|]. intros c Hc. by apply Is_true_eq_true. Qed.
Lemma token_char_range c : token_char c = true → 45 <= c <= 122 ∧ c ≠ 59 ∧ c ≠ 61.
Proof. unfold token_char. rewrite !orb_true_iff, !andb_true_iff, !Z.leb_le, !Z.eqb_eq. lia. Qed.
Lemma token_free t c : forallb token_char t = true → token_char c = false → c ∉ t.
Proof. intros Ht%token_chars Hc Hin. apply (proj1 (Forall_forall _ _) Ht) in Hin. congruence. Qed.
Lemma not_in_app (x : Z) (a b : jsstr) : x ∉ a → x ∉ b → x ∉ a ++ b.
Proof. rewrite elem_of_app. tauto. Qed.

Definition attributes (value basePath : jsstr) (secure clear : bool) : list jsstr :=
  [SESSION_COOKIE_NAME ++ [61] ++ value; js "Path=" ++ basePath; js "HttpOnly"] ++
  (if secure then [js "Secure"] else []) ++ [js "SameSite=Strict"] ++ (if clear then [js "Max-Age=0"] else []).
Lemma no_semicolon (s : jsstr) : bool_decide (59 ∉ s) = true → 59 ∉ s.
Proof. apply bool_decide_eq_true_1. Qed.
Lemma serialize_attributes value basePath secure clear h : forallb token_char value = true →
  serializeCookie value basePath secure clear = Some h → split 59 h = spaced (attributes value basePath secure clear).
Proof.
  unfold serializeCookie. intros Hv. destruct (invalid_path basePath) eqn:Hp; [done|]. intros Hh.
  assert (h = join (js "; ") (attributes value basePath secure clear)) as ->
    by (apply (inj Some); symmetry; exact Hh).
  apply (split_join 59); [done..|]. unfold invalid_path in Hp. breflect.
  repeat constructor; try (by apply no_semicolon).
  - apply not_in_app; [by apply no_semicolon|]. apply not_in_app; [by apply no_semicolon|]. by apply token_free.
  - by apply not_in_app; [apply no_semicolon|].
  - apply Forall_app. split; [destruct secure; repeat constructor; by apply no_semicolon|].
    constructor; [by apply no_semicolon|]. destruct clear; repeat constructor; by apply no_semicolon.
Qed.

Lemma ascii_bytes t : Forall (λ c, 0 <= c < 128) t → utf8ByteLength t = Z.of_nat (length t).
Proof. apply size_ascii. Qed.
Lemma drop_while_head_false f c s : f c = false → drop_while f (c :: s) = c :: s.
Proof. intros E. cbn. by rewrite E. Qed.
Lemma trim_token_pair t : forallb token_char t = true → t ≠ [] →
  session_pair (SESSION_COOKIE_NAME ++ [61] ++ t) = Some t ∧ session_pair (32 :: SESSION_COOKIE_NAME ++ [61] ++ t) = Some t.
Proof.
  intros Ht Hne. assert (trim (SESSION_COOKIE_NAME ++ [61] ++ t) = SESSION_COOKIE_NAME ++ [61] ++ t) as Htr.
  { unfold trim. change (SESSION_COOKIE_NAME ++ [61] ++ t) with (102 :: (drop 1 SESSION_COOKIE_NAME ++ [61] ++ t)).
    rewrite drop_while_head_false by done.
    destruct (reverse (102 :: drop 1 SESSION_COOKIE_NAME ++ [61] ++ t)) as [|c r] eqn:E.
    { apply (f_equal length) in E. rewrite length_reverse in E. done. }
    rewrite drop_while_head_false; [by rewrite <-E, reverse_involutive|].
    assert (c ∈ t) as Hc.
    { destruct t as [|x t' _] using rev_ind; [done|]. rewrite !app_assoc, app_comm_cons, reverse_snoc in E.
      injection E as <- _. apply elem_of_app. right. apply list_elem_of_here. }
    apply token_chars in Ht. apply (proj1 (Forall_forall _ _) Ht) in Hc. apply token_char_range in Hc.
    destruct (is_js_space c) eqn:Es; [|done]. unfold is_js_space, in_ranges in Es. cbn in Es.
    rewrite !orb_true_iff, !andb_true_iff, !Z.leb_le in Es. lia. }
  unfold session_pair.
  assert (cut 61 (SESSION_COOKIE_NAME ++ [61] ++ t) = Some (SESSION_COOKIE_NAME, t)) as Hcut
    by (apply cut_app, (bool_decide_eq_true_1 _); vm_compute; reflexivity).
  split.
  - rewrite Htr, Hcut. cbn [mbind option_bind]. by rewrite bool_decide_true.
  - change (trim (32 :: SESSION_COOKIE_NAME ++ [61] ++ t)) with (trim (SESSION_COOKIE_NAME ++ [61] ++ t)).
    rewrite Htr, Hcut. cbn [mbind option_bind]. by rewrite bool_decide_true.
Qed.

Lemma omap_spaced l : omap session_pair (spaced l) = omap session_pair l.
Proof.
  destruct l as [|x l]; [done|]. cbn. assert (omap session_pair ((λ y, 32 :: y) <$> l) = omap session_pair l) as ->; [|done].
  induction l as [|y l IH]; [done|]. cbn [fmap list_fmap omap list_omap]. rewrite IH.
  by change (session_pair (32 :: y)) with (session_pair y).
Qed.
Lemma header_pairs_app a b : Nat.even (length a) = true → header_pairs (a ++ b) = header_pairs a ++ header_pairs b.
Proof.
  assert (∀ n a, (length a ≤ n)%nat → Nat.even (length a) = true →
    header_pairs (a ++ b) = header_pairs a ++ header_pairs b) as Hn; [|by eapply Hn].
  induction n as [|n IH]; intros [|x [|y r]] Hl He; cbn in *; try done; try lia. f_equal. apply IH; [lia|done].
Qed.
Lemma bind_option_list (l : list jsstr) : l ≫= (λ p, option_list (session_pair p)) = omap session_pair l.
Proof. induction l as [|p l IH]; [done|]. cbn. rewrite IH. by destruct (session_pair p). Qed.

Lemma cookie_comes_back rest name before token after : to_lower name = js "cookie" →
  Nat.even (length rest) = true → cookie_values (header_pairs rest) = [] →
  length token = 43%nat → forallb token_char token = true →
  Forall (λ p, 59 ∉ p ∧ session_pair p = None) (before ++ after) →
  let raw := rest ++ [name; join (js "; ") (before ++ [SESSION_COOKIE_NAME ++ [61] ++ token] ++ after)] in
  limits_ok raw → readSessionCookie raw = Some token.
Proof.
  intros Hn He Hr Hlen Ht Hp raw Hlim. apply readSessionCookie_spec. split; [done|].
  set (l := before ++ [SESSION_COOKIE_NAME ++ [61] ++ token] ++ after) in *.
  assert (token ≠ []) as Hne by (by intros ->).
  assert (cookie_values (header_pairs raw) = [join (js "; ") l]) as ->.
  { subst raw. rewrite header_pairs_app by done. unfold cookie_values in *. rewrite omap_app, Hr. cbn.
    by rewrite bool_decide_true. }
  assert (Forall (λ p, 59 ∉ p) l) as Hl.
  { apply Forall_app in Hp as [Hb Ha]. subst l. apply Forall_app; split; [by eapply Forall_impl; [exact Hb|intros ? []]|].
    apply Forall_app; split; [|by eapply Forall_impl; [exact Ha|intros ? []]]. constructor; [|constructor].
    apply not_in_app; [by apply no_semicolon|]. apply not_in_app; [by apply no_semicolon|]. by apply token_free. }
  assert (l ≠ []) as Hlne by (subst l; intros E; apply app_eq_nil in E as [_ E]; done).
  split.
  - cbn. rewrite app_nil_r. change (js "; ") with [59; 32]. rewrite split_join by done. rewrite bind_option_list, omap_spaced. subst l.
    rewrite !omap_app. assert (∀ ps, Forall (λ p, 59 ∉ p ∧ session_pair p = None) ps → omap session_pair ps = []) as Hnone.
    { induction 1 as [|p ps [_ E] _ IH]; [done|]. cbn. by rewrite E. }
    apply Forall_app in Hp as [Hb Ha]. rewrite (Hnone _ Hb), (Hnone _ Ha). cbn [omap list_omap].
    by rewrite (proj1 (trim_token_pair token Ht Hne)).
  - split.
    + rewrite ascii_bytes; [rewrite Hlen; done|]. apply token_chars in Ht. eapply Forall_impl; [exact Ht|].
      intros c Hc%token_char_range. lia.
    + unfold sessionTokenPattern, all_chars. rewrite bool_decide_false by done. exact Ht.
Qed.
End facts.

(** The session cookie is read from a request exactly when the raw headers
    are within the limits and one single pair of one of the cookie fields names
    it, with a value of token characters; anything ambiguous, oversized or
    malformed is no cookie.  What is set for a token consists of exactly its
    attributes, so neither token nor path can add one, and a browser that sends
    it back among other cookies is recognised. *)
Theorem session_cookie_codec `{LowerCaseLaws} :
  (∀ raw t, readSessionCookie raw = Some t ↔ limits_ok raw ∧
     (cookie_values (header_pairs raw) ≫= split 59) ≫= (λ p, option_list (session_pair p)) = [t] ∧ session_token t) ∧
  (∀ token basePath secure h, setSessionCookie token basePath secure = Some h →
     split 59 h = spaced (attributes token basePath secure false) ∧
     ∀ rest before after, Nat.even (length rest) = true → cookie_values (header_pairs rest) = [] →
       Forall (λ p, 59 ∉ p ∧ session_pair p = None) (before ++ after) →
       let raw := rest ++ [js "Cookie"; join (js "; ") (before ++ [SESSION_COOKIE_NAME ++ [61] ++ token] ++ after)] in
       limits_ok raw → readSessionCookie raw = Some token) ∧
  (∀ basePath secure h, clearSessionCookie basePath secure = Some h →
     split 59 h = spaced (attributes [] basePath secure true)).
Proof.
  split_and!.
  - apply readSessionCookie_spec.
  - intros token basePath secure h Hset. unfold setSessionCookie in Hset.
    destruct (_ && _) eqn:Hok; [|done]. apply andb_true_iff in Hok as [Hl%Nat.eqb_eq Ht].
    split; [by apply serialize_attributes|]. intros rest before after He Hr Hp raw Hlim.
    apply cookie_comes_back; try done. rewrite to_lower_ascii; [done|].
    apply (bool_decide_eq_true_1 _). vm_compute. reflexivity.
  - intros basePath secure h Hset. by apply serialize_attributes.
Qed.

Definition ascii_lower_case : LowerCase := {| to_lower := λ s, ascii_lower <$> s |}.
Definition sample_token : jsstr := repeat 65 43.
Definition sample_raw : list jsstr :=
  [js "Host"; js "x"] ++ [js "Cookie"; join (js "; ") ([js "a=b"] ++ [SESSION_COOKIE_NAME ++ [61] ++ sample_token] ++ [js "c"])].
Theorem session_cookie_codec_witness : let _ := ascii_lower_case in
  is_Some (setSessionCookie sample_token (js "/term") true) ∧ readSessionCookie sample_raw = Some sample_token.
Proof.
  intros lc. assert (@LowerCaseLaws lc) as Hlc by (intros s _; reflexivity).
  destruct (@session_cookie_codec lc Hlc) as (_ & H & _).
  destruct (setSessionCookie sample_token (js "/term") true) as [h|] eqn:Hh; [|exfalso; vm_compute in Hh; discriminate Hh].
  split; [by exists h|]. destruct (H _ _ _ _ Hh) as [_ Hr]. apply Hr.
  - reflexivity.
  - vm_compute. reflexivity.
  - repeat constructor; try (by apply no_semicolon); vm_compute; reflexivity.
  - repeat split; try (vm_compute; reflexivity); apply (bool_decide_eq_true_1 _); vm_compute; reflexivity.
Defined.
