(* ===== verification/Origin.v ===== *)
(** [apps/server/src/origin.ts] and [packages/shared/src/base-path.ts]: which
    requests for a terminal socket are authorised by their origin and path, and
    the base paths that a deployment may have.

    [new URL] is the platform's: an interface that yields the parts of the URL
    that the code reads. *)
From S2P Require Import Prelude SafeString Json JsonText JsonTree Tabs Protocol Headers.
Open Scope Z_scope.

Record URL := {
  protocol : jsstr;
  url_username : jsstr;
  url_password : jsstr;
  hostname : jsstr;
  port : jsstr;
  pathname : jsstr;
  search : jsstr;
  hash : jsstr;
  url_origin : jsstr;
}.
(** [new URL(input)] and [new URL(input, base)]; [None] is a throw. *)
Class UrlParser := { parse_url : jsstr → option jsstr → option URL }.

(** * Origins *)

Record UpgradeAuthorizationOptions := { publicOrigin : jsstr; basePath : jsstr }.
Record UpgradeRequest := {
  origin : option jsstr;
  rawHeaders : option (list jsstr);
  requestUrl : option jsstr;
}.
Inductive UpgradeAuthorization := Allowed (sessionId : jsstr) | Refused (status : Z).

Definition websocketSessionPath (basePath sessionId : jsstr) : jsstr :=
  (if bool_decide (basePath = js "/") then [] else basePath) ++ js "/ws/sessions/" ++ sessionId.

Definition hasAsciiControlOrWhitespace (value : jsstr) : bool :=
  existsb (λ c, (c <=? 0x20) || (c =? 0x7F)) (code_points value).
(** [/^https?:\/\/[^/?#]+$/i] *)
Definition authority_only (s : jsstr) : bool :=
  let rest n := all_chars (λ c, negb (bool_decide (c ∈ js "/?#"))) (drop n s) in
  (bool_decide (ascii_lower <$> take 7 s = js "http://") && rest 7%nat) ||
  (bool_decide (ascii_lower <$> take 8 s = js "https://") && rest 8%nat).
Definition isHttpOrigin (url : URL) : bool :=
  (bool_decide (protocol url = js "http:") || bool_decide (protocol url = js "https:")) &&
  bool_decide (url_username url = []) && bool_decide (url_password url = []) &&
  bool_decide (pathname url = js "/") && bool_decide (search url = []) && bool_decide (hash url = []) &&
  negb (bool_decide (url_origin url = js "null")).
Definition isExactOrigin `{UrlParser} (candidate configured : jsstr) : bool :=
  if bool_decide (candidate = js "null") then false
  else if hasAsciiControlOrWhitespace candidate then false
  else if negb (authority_only candidate) then false
  else match parse_url candidate None, parse_url configured None with
       | Some actual, Some expected =>
           isHttpOrigin actual && isHttpOrigin expected && bool_decide (url_origin actual = url_origin expected)
       | _, _ => false
       end.

Fixpoint raw_origins `{LowerCase} (fs : list (jsstr * option jsstr)) (totalBytes : Z) (origins : list jsstr)
    : option (list jsstr) :=
  match fs with
  | [] => Some origins
  | (_, None) :: _ => None
  | (name, Some value) :: fs =>
      let totalBytes := totalBytes + (utf8ByteLength name + utf8ByteLength value) in
      if 16 * 1024 <? totalBytes then None
      else if negb (bool_decide (to_lower name = js "origin")) then raw_origins fs totalBytes origins
      else if 2048 <? utf8ByteLength value then None
      else raw_origins fs totalBytes (origins ++ [value])
  end.
Definition exactRawOrigin `{LowerCase} (raw : list jsstr) : option jsstr :=
  if negb (Nat.even (length raw)) || (128 <? length raw)%nat then None
  else
    origins ← raw_origins (header_pairs raw) 0 [];
    match origins with [o] => Some o | _ => None end.

(** [s.startsWith(prefix)] *)
Definition starts_with (prefix s : jsstr) : bool := bool_decide (take (length prefix) s = prefix).
Definition authorizeUpgrade `{LowerCase, UrlParser} (request : UpgradeRequest) (options : UpgradeAuthorizationOptions)
    : UpgradeAuthorization :=
  let o := match rawHeaders request with None => origin request | Some raw => exactRawOrigin raw end in
  match o with
  | None => Refused 403
  | Some o =>
      if negb (bool_decide (Some o = origin request)) || negb (isExactOrigin o (publicOrigin options))
      then Refused 403
      else
        let prefix := if bool_decide (basePath options = js "/") then [] else basePath options in
        let routePrefix := prefix ++ js "/ws/sessions/" in
        match requestUrl request with
        | None => Refused 404
        | Some url =>
            if negb (starts_with routePrefix url) then Refused 404
            else
              let sessionId := drop (length routePrefix) url in
              if negb (isSessionId sessionId) ||
                 negb (bool_decide (url = websocketSessionPath (basePath options) sessionId))
              then Refused 404
              else Allowed sessionId
        end
  end.

(** * Base paths *)

Definition baseUrl : jsstr := js "http://base.invalid".
(** [/^[A-Za-z0-9._~-]+$/] *)
Definition safeSegmentPattern : jsstr → bool := all_chars (λ c, token_char c || (c =? 46) || (c =? 126)).
Definition unsafe_segment (segment : jsstr) : bool :=
  bool_decide (segment = []) || bool_decide (segment = js ".") || bool_decide (segment = js "..") ||
  negb (safeSegmentPattern segment).
(** [value.replace(/\/+$/, '')] *)
Definition strip_slashes (value : jsstr) : jsstr := reverse (drop_while (Z.eqb 47) (reverse value)).
Definition normalizeBasePath `{UrlParser} (value : jsstr) : option jsstr :=
  if negb (starts_with (js "/") value) || bool_decide (92 ∈ value) then None
  else
    let normalized := match strip_slashes value with [] => js "/" | n => n end in
    if bool_decide (normalized = js "/")
    then (if bool_decide (value = js "/") then Some normalized else None)
    else if existsb unsafe_segment (drop 1 (split 47 normalized)) then None
    else
      parsed ← parse_url normalized (Some baseUrl);
      base ← parse_url baseUrl None;
      if bool_decide (url_origin parsed = url_origin base) && bool_decide (pathname parsed = normalized) &&
         bool_decide (search parsed = []) && bool_decide (hash parsed = [])
      then Some normalized else None.

(** * Facts *)

Section facts.
Context `{LowerCase, UrlParser}.

Definition origin_values (fs : list (jsstr * option jsstr)) : list jsstr :=
  omap (λ p, if bool_decide (to_lower p.1 = js "origin") then p.2 else None) fs.
Lemma raw_origins_spec fs : ∀ n acc out, n <= 16 * 1024 →
  raw_origins fs n acc = Some out ↔ Forall (λ p, is_Some p.2) fs ∧ n + total_bytes fs <= 16 * 1024 ∧
    Forall (λ v, utf8ByteLength v <= 2048) (origin_values fs) ∧ out = acc ++ origin_values fs.
Proof.
  induction fs as [|[name [value|]] fs IH]; intros n acc out Hn; cbn [raw_origins].
  - cbn. rewrite app_nil_r, Z.add_0_r. split; [intros [= <-]; by split_and!|intros (_ & _ & _ & ->); done].
  - pose proof (total_bytes_nonneg fs) as Ht. cbn [total_bytes foldr fst snd]. fold (total_bytes fs).
    rewrite Forall_cons. assert (is_Some (Some value)) as Hs by by eexists.
    destruct (Z.ltb_spec (16 * 1024) (n + (utf8ByteLength name + utf8ByteLength value))) as [?|?];
      [split; [done|intros (_ & ? & _); lia]|].
    unfold origin_values. cbn [omap list_omap fst snd]. fold (origin_values fs).
    destruct (bool_decide (to_lower name = js "origin")); cbn [negb].
    + rewrite Forall_cons. destruct (Z.ltb_spec 2048 (utf8ByteLength value)) as [?|?];
        [split; [done|intros (_ & _ & [? _] & _); lia]|].
      rewrite IH by lia. rewrite <-app_assoc. cbn [app].
      split; intros (? & ? & ? & ?); split_and!; try tauto; lia.
    + rewrite IH by lia. split; intros (? & ? & ? & ?); split_and!; try tauto; lia.
  - split; [done|]. intros (Hf & _). apply Forall_cons in Hf as [[v Hv] _]. done.
Qed.

(** The raw headers hold one origin, within the limits. *)
Definition one_origin (raw : list jsstr) (o : jsstr) : Prop :=
  Nat.even (length raw) = true ∧ (length raw ≤ 128)%nat ∧ total_bytes (header_pairs raw) <= 16 * 1024 ∧
  origin_values (header_pairs raw) = [o] ∧ utf8ByteLength o <= 2048.
Lemma exactRawOrigin_spec raw o : exactRawOrigin raw = Some o ↔ one_origin raw o.
Proof.
  unfold exactRawOrigin, one_origin. destruct (Nat.even (length raw)) eqn:He; cbn [negb orb]; [|split; [done|intros (? & _); done]].
  destruct (Nat.ltb_spec 128 (length raw)) as [?|?]; [split; [done|intros (_ & ? & _); lia]|]. split.
  - intros (os & (_ & ? & Hf & ->)%raw_origins_spec & Ho)%bind_Some; [|done]. cbn [app] in Ho.
    destruct (origin_values _) as [|x [|]]; try done. injection Ho as ->. apply Forall_cons in Hf as [? _]. done.
  - intros (_ & _ & Ht & Ho & Hb). rewrite (proj2 (raw_origins_spec _ 0 [] [o] ltac:(done))); [done|].
    rewrite Ho. split_and!; [by apply even_pairs|done|by repeat constructor|done].
Qed.

Definition origin_accepted (request : UpgradeRequest) (options : UpgradeAuthorizationOptions) : Prop := ∃ o,
  origin request = Some o ∧ match rawHeaders request with Some raw => one_origin raw o | None => True end ∧
  isExactOrigin o (publicOrigin options) = true.

Lemma starts_with_app p s : starts_with p s = true ↔ ∃ r, s = p ++ r.
Proof.
  unfold starts_with. rewrite bool_decide_eq_true. split.
  - intros E. exists (drop (length p) s). by rewrite <-E at 1; rewrite take_drop.
  - intros [r ->]. by rewrite take_app_length.
Qed.
Lemma websocketSessionPath_inj b s s' : websocketSessionPath b s = websocketSessionPath b s' → s = s'.
Proof. unfold websocketSessionPath. intros E. by apply (inj _), (inj _) in E. Qed.

(** ** Base paths and their segments *)

Definition path_of (segments : list jsstr) : jsstr := concat ((λ x, 47 :: x) <$> segments).
Definition safe_segment (x : jsstr) : Prop := unsafe_segment x = false.
Lemma safe_chars x : safe_segment x → x ≠ [] ∧ Forall (λ c, 45 <= c <= 126 ∧ c ≠ 47 ∧ c ≠ 59 ∧ c ≠ 92) x.
Proof.
  unfold safe_segment, unsafe_segment, safeSegmentPattern, all_chars. rewrite !orb_false_iff, negb_false_iff.
  intros (((? & _) & _) & Hx). apply andb_true_iff in Hx as [_ Hx]. split; [by case_bool_decide|].
  apply Is_true_eq_left, forallb_True in Hx. eapply Forall_impl; [exact Hx|]. intros c Hc%Is_true_eq_true.
  unfold token_char in Hc. rewrite !orb_true_iff, !andb_true_iff, !Z.leb_le, !Z.eqb_eq in Hc. lia.
Qed.
Lemma safe_no_slash x : safe_segment x → 47 ∉ x.
Proof. intros [_ Hx]%safe_chars Hin. apply (proj1 (Forall_forall _ _) Hx) in Hin. lia. Qed.
Lemma split_path segments : Forall safe_segment segments → split 47 (path_of segments) = [] :: segments.
Proof.
  unfold split. intros Hs. assert (∀ acc, 47 ∉ acc → split_on 47 acc (path_of segments) = acc :: segments) as Hg; [|apply Hg; by apply not_elem_of_nil].
  induction Hs as [|x l Hx _ IH]; intros acc Ha.
  - cbn. done.
  - unfold path_of. cbn [fmap list_fmap concat app]. change (concat _) with (path_of l).
    change (47 :: x ++ path_of l) with ([] ++ 47 :: (x ++ path_of l)).
    rewrite split_on_app by by apply not_elem_of_nil. rewrite app_nil_r. f_equal.
    assert (∀ acc y, 47 ∉ y → split_on 47 acc (y ++ path_of l) = split_on 47 (acc ++ y) (path_of l)) as Hy.
    { clear. intros acc y. revert acc. induction y as [|c y IH]; intros acc Hy; [by rewrite app_nil_r|].
      apply not_elem_of_cons in Hy as [? ?]. cbn [app]. rewrite split_on_cons by congruence. rewrite IH by done.
      by rewrite <-app_assoc. }
    apply safe_no_slash in Hx. rewrite Hy by done. cbn [app]. by apply IH.
Qed.
(** Every string that starts with a slash is a path of its segments. *)
Lemma path_split s : starts_with (js "/") s = true → path_of (drop 1 (split 47 s)) = s.
Proof.
  intros [r ->]%starts_with_app. change (js "/" ++ r) with (47 :: r). unfold split. cbn [split_on Z.eqb Pos.eqb drop].
  assert (∀ acc, path_of (split_on 47 acc r) = 47 :: acc ++ r) as Hg; [|apply (Hg [])].
  induction r as [|c r IH]; intros acc; cbn [split_on].
  - cbn. by rewrite app_nil_r.
  - destruct (Z.eqb_spec c 47) as [->|].
    + unfold path_of. cbn [fmap list_fmap concat app]. change (concat _) with (path_of (split_on 47 [] r)). by rewrite IH.
    + rewrite IH. by rewrite <-app_assoc.
Qed.
Lemma strip_path segments n : Forall safe_segment segments → segments ≠ [] →
  strip_slashes (path_of segments ++ repeat 47 n) = path_of segments.
Proof.
  intros Hs Hne. unfold strip_slashes. rewrite reverse_app.
  assert (∀ l, drop_while (Z.eqb 47) (reverse (repeat 47 n) ++ l) = drop_while (Z.eqb 47) l) as Hd.
  { intros l. assert (reverse (repeat 47 n) = repeat 47 n) as ->.
    { induction n as [|n IH]; [done|]. cbn [repeat]. rewrite reverse_cons, IH. symmetry. apply (repeat_cons n 47). }
    induction n as [|n IH]; [done|]. exact IH. }
  rewrite Hd. destruct segments as [|x l _] using rev_ind; [done|]. apply Forall_app in Hs as [_ Hx].
  apply Forall_cons in Hx as [Hx _]. unfold path_of. rewrite fmap_app, concat_app. cbn [fmap list_fmap concat].
  rewrite app_nil_r. pose proof (safe_no_slash _ Hx) as Hns. apply safe_chars in Hx as [Hxn _].
  destruct x as [|c y _] using rev_ind; [done|]. rewrite app_comm_cons, app_assoc, reverse_snoc.
  rewrite drop_while_head_false; [by rewrite reverse_cons, reverse_involutive|].
  apply Z.eqb_neq. intros <-. apply Hns, elem_of_app. right. apply list_elem_of_here.
Qed.
Lemma path_not_root segments : Forall safe_segment segments → segments ≠ [] → path_of segments ≠ js "/" ∧ path_of segments ≠ [].
Proof.
  intros Hs Hne. destruct segments as [|x l]; [done|]. apply Forall_cons in Hs as [[Hx _]%safe_chars _].
  destruct x; [done|]. split; [|done]. intros E. apply (f_equal length) in E.
  change (length (js "/")) with 1%nat in E. cbn in E. lia.
Qed.

Lemma normalizeBasePath_Some v p : normalizeBasePath v = Some p →
  (p = js "/" ∧ v = js "/") ∨ ∃ segments n, segments ≠ [] ∧ Forall safe_segment segments ∧
    p = path_of segments ∧ v = p ++ repeat 47 n.
Proof.
  unfold normalizeBasePath. destruct (_ || _) eqn:Hv; [done|]. apply orb_false_iff in Hv as [Hv _].
  apply negb_false_iff in Hv. case_bool_decide as Hn; [case_bool_decide; [|done]; intros [= <-]; left; by rewrite Hn|].
  destruct (existsb _ _) eqn:He; [done|]. intros (pu & _ & (bu & _ & Hp)%bind_Some)%bind_Some.
  case_match; [|done]. injection Hp as <-. right.
  assert (∀ r, ∃ n, reverse r = reverse (drop_while (Z.eqb 47) r) ++ repeat 47 n) as Hstrip.
  { induction r as [|c r [n IH]]; [by exists 0%nat|]. cbn [drop_while]. destruct (Z.eqb_spec 47 c) as [<-|].
    - exists (S n). rewrite reverse_cons, IH, <-app_assoc. f_equal. symmetry. apply (repeat_cons n 47).
    - exists 0%nat. by rewrite app_nil_r. }
  destruct (Hstrip (reverse v)) as [n Hvn]. rewrite reverse_involutive in Hvn. fold (strip_slashes v) in Hvn.
  destruct (strip_slashes v) as [|c r] eqn:Hs; [done|].
  assert (starts_with (js "/") (c :: r) = true) as Hst.
  { apply starts_with_app in Hv as [r' Hr]. rewrite Hr in Hvn. injection Hvn as <- _. by apply starts_with_app; exists r. }
  pose proof (path_split _ Hst) as Hps. set (segs := drop 1 (split 47 (c :: r))) in *.
  exists segs, n. split_and!.
  - intros E. rewrite E in Hps. done.
  - apply Forall_forall. intros x Hx. unfold safe_segment. destruct (unsafe_segment x) eqn:Eu; [|done].
    assert (existsb unsafe_segment segs = true); [|congruence]. apply existsb_exists. exists x.
    by rewrite <-list_elem_of_In.
  - by rewrite Hps.
  - by rewrite Hvn.
Qed.
Lemma path_chars segments : Forall safe_segment segments →
  Forall (λ c, 33 <= c <= 126 ∧ c ≠ 59 ∧ c ≠ 92) (path_of segments).
Proof.
  induction 1 as [|x l [_ Hx]%safe_chars _ IH]; [constructor|]. unfold path_of. cbn [fmap list_fmap concat].
  apply Forall_app. split; [|exact IH]. constructor; [lia|]. eapply Forall_impl; [exact Hx|]. cbn. lia.
Qed.
Lemma code_points_ascii s : Forall (λ c, 0 <= c < 128) s → code_points s = s.
Proof.
  induction 1 as [|c s Hc _ IH]; [done|]. rewrite code_points_plain; [by rewrite IH|].
  unfold is_high_surrogate. by rewrite (proj2 (Z.leb_gt 0xD800 c)) by lia.
Qed.
Lemma path_cookie segments : segments ≠ [] → Forall safe_segment segments → invalid_path (path_of segments) = false.
Proof.
  intros Hne Hs. pose proof (path_chars _ Hs) as Hc. unfold invalid_path. rewrite !orb_false_iff. split_and!.
  - apply negb_false_iff, bool_decide_eq_true. by destruct segments.
  - apply bool_decide_eq_false. intros Hin. apply (proj1 (Forall_forall _ _) Hc) in Hin. lia.
  - rewrite code_points_ascii by (eapply Forall_impl; [exact Hc|]; cbn; lia).
    destruct (existsb _ _) eqn:E; [|done]. apply existsb_exists in E as (c & Hin & E).
    apply list_elem_of_In in Hin. apply (proj1 (Forall_forall _ _) Hc) in Hin.
    rewrite orb_true_iff, Z.leb_le, Z.eqb_eq in E. lia.
Qed.
Lemma normalize_path segments n p b : segments ≠ [] → Forall safe_segment segments →
  parse_url (path_of segments) (Some baseUrl) = Some p → parse_url baseUrl None = Some b →
  url_origin p = url_origin b → pathname p = path_of segments → search p = [] → hash p = [] →
  normalizeBasePath (path_of segments ++ repeat 47 n) = Some (path_of segments).
Proof.
  intros Hne Hs Hp Hb Ho Hpn Hse Hh. unfold normalizeBasePath.
  assert (starts_with (js "/") (path_of segments ++ repeat 47 n) = true) as ->
    by (destruct segments as [|x l]; [done|]; by apply starts_with_app; eexists).
  assert (bool_decide (92 ∈ path_of segments ++ repeat 47 n) = false) as ->.
  { apply bool_decide_eq_false. intros [Hin|Hin]%elem_of_app.
    - apply (proj1 (Forall_forall _ _) (path_chars _ Hs)) in Hin. lia.
    - apply list_elem_of_In, repeat_spec in Hin. lia. }
  cbn [negb orb]. rewrite strip_path by done. destruct (path_not_root _ Hs Hne) as [Hr Hn].
  destruct (path_of segments) as [|c r] eqn:E; [done|]. rewrite <-E in *. rewrite bool_decide_false by (by rewrite E in *).
  rewrite split_path by done. cbn [drop]. rewrite drop_0.
  assert (existsb unsafe_segment segments = false) as ->.
  { destruct (existsb _ _) eqn:Ex; [|done]. apply existsb_exists in Ex as (x & Hin & Hx).
    apply list_elem_of_In in Hin. apply (proj1 (Forall_forall _ _) Hs) in Hin. unfold safe_segment in Hin. congruence. }
  rewrite Hp, Hb. cbn [mbind option_bind]. by rewrite !bool_decide_true by congruence.
Qed.
End facts.

(** C40: a terminal socket is authorised exactly when the raw headers carry one
    single origin, within their limits, that is the deployment's, and the
    request target is the path of a session identifier below the base path; the
    identifier is then the one in the path.  A wrong origin is always refused
    with 403, whatever the path, and everything else with 404. *)
Theorem upgrade_authorization_exact `{LowerCase, UrlParser} (request : UpgradeRequest)
    (options : UpgradeAuthorizationOptions) :
  (∀ sid, authorizeUpgrade request options = Allowed sid ↔ origin_accepted request options ∧
     isSessionId sid = true ∧ requestUrl request = Some (websocketSessionPath (basePath options) sid)) ∧
  (authorizeUpgrade request options = Refused 403 ↔ ¬ origin_accepted request options) ∧
  (∀ status, authorizeUpgrade request options = Refused status → status = 403 ∨ status = 404) ∧
  (origin_accepted request options → ∃ o a e, origin request = Some o ∧ parse_url o None = Some a ∧
     parse_url (publicOrigin options) None = Some e ∧ url_origin a = url_origin e ∧ isHttpOrigin a = true).
Proof.
  assert (origin_accepted request options ↔ ∃ o,
    match rawHeaders request with None => origin request | Some raw => exactRawOrigin raw end = Some o ∧
    negb (bool_decide (Some o = origin request)) || negb (isExactOrigin o (publicOrigin options)) = false) as Hacc.
  { unfold origin_accepted. split; intros (o & H1 & H2).
    - destruct H2 as [H2 H3]. exists o. rewrite bool_decide_true, H3 by done. split; [|done].
      destruct (rawHeaders request); [by apply exactRawOrigin_spec|done].
    - apply orb_false_iff in H2 as [H2 H3]. apply negb_false_iff in H2, H3. apply bool_decide_eq_true in H2.
      exists o. split_and!; [done| |done]. destruct (rawHeaders request); [by apply exactRawOrigin_spec|done]. }
  assert ((∃ sid, authorizeUpgrade request options = Allowed sid ∧ origin_accepted request options ∧
      isSessionId sid = true ∧ requestUrl request = Some (websocketSessionPath (basePath options) sid)) ∨
    (authorizeUpgrade request options = Refused 403 ∧ ¬ origin_accepted request options) ∨
    (authorizeUpgrade request options = Refused 404 ∧ origin_accepted request options ∧
      ∀ sid, isSessionId sid = true → requestUrl request ≠ Some (websocketSessionPath (basePath options) sid)))
    as Hmain.
  { unfold authorizeUpgrade. destruct (match rawHeaders request with None => _ | Some _ => _ end) as [o|] eqn:Ho; cycle 1.
    { right; left. split; [done|]. rewrite Hacc. intros (? & ? & _). done. }
    destruct (_ || _) eqn:E; [right; left; split; [done|]; rewrite Hacc; intros (o' & ? & ?); simplify_eq; congruence|].
    assert (origin_accepted request options) as Hok by (apply Hacc; by exists o).
    destruct (requestUrl request) as [url|]; [|by right; right; split_and!; [..|by intros]]. cbn zeta.
    set (rp := (if bool_decide (basePath options = js "/") then [] else basePath options) ++ js "/ws/sessions/").
    assert (∀ sid, websocketSessionPath (basePath options) sid = rp ++ sid) as Hw
      by (intros; unfold websocketSessionPath, rp; by rewrite <-app_assoc).
    destruct (starts_with rp url) eqn:Hs; cbn [negb]; cycle 1.
    { right; right. split_and!; [done..|]. intros sid _ [= Hu]. rewrite Hw in Hu. subst url.
      assert (starts_with rp (rp ++ sid) = true) by (apply starts_with_app; by exists sid). congruence. }
    apply starts_with_app in Hs as [r ->]. rewrite drop_app_length.
    rewrite Hw, (bool_decide_true (rp ++ r = rp ++ r)) by done. cbn [negb]. rewrite orb_false_r.
    destruct (isSessionId r) eqn:Hr; cbn [negb]; [left; exists r; by rewrite Hw|].
    right; right. split_and!; [done..|]. intros sid Hsid [= Hu]. rewrite Hw in Hu. apply (inj (app rp)) in Hu. congruence. }
  split_and!.
  - intros sid. destruct Hmain as [(sid' & -> & ? & ? & Hu)|[[-> ?]|(-> & ? & Hno)]].
    + split; [by intros [= <-]|]. intros (_ & _ & Hu'). f_equal. rewrite Hu in Hu'. injection Hu' as Hu'.
      by eapply websocketSessionPath_inj.
    + split; [done|tauto].
    + split; [done|]. intros (_ & Hsid & Hu). by destruct (Hno sid).
  - destruct Hmain as [(sid' & -> & ? & _)|[[-> ?]|(-> & ? & _)]]; split; try done; tauto.
  - intros st. destruct Hmain as [(sid' & -> & _)|[[-> _]|[-> _]]]; [done|..]; intros [= <-]; auto.
  - clear. intros (o & Ho & _ & He). unfold isExactOrigin in He. repeat (case_match; try done). breflect.
    by eexists o, _, _.
Qed.

(** A base path that is accepted is the root or a sequence of safe segments
    without dot segments, only trailing slashes are removed from what was
    configured, normalising again changes nothing, and the path can always be
    the path of the session cookie.  Every such sequence is accepted, given
    that the platform's URL parser keeps paths of safe characters. *)
Theorem base_path_canonical `{UrlParser} :
  (∀ segments, segments ≠ [] → Forall safe_segment segments → ∃ p b,
     parse_url (path_of segments) (Some baseUrl) = Some p ∧ parse_url baseUrl None = Some b ∧
     url_origin p = url_origin b ∧ pathname p = path_of segments ∧ search p = [] ∧ hash p = []) →
  (∀ v p, normalizeBasePath v = Some p →
     ((p = js "/" ∧ v = js "/") ∨ ∃ segments n, segments ≠ [] ∧ Forall safe_segment segments ∧
        p = path_of segments ∧ v = p ++ repeat 47 n) ∧
     normalizeBasePath p = Some p ∧ invalid_path p = false) ∧
  (∀ segments n, segments ≠ [] → Forall safe_segment segments →
     normalizeBasePath (path_of segments ++ repeat 47 n) = Some (path_of segments)).
Proof.
  intros Hurl. split.
  - intros v p Hp. pose proof (normalizeBasePath_Some v p Hp) as Hc. split; [done|].
    destruct Hc as [[-> ->]|(segments & n & Hne & Hs & -> & ->)]; [done|]. split; [|by apply path_cookie].
    destruct (Hurl segments Hne Hs) as (pu & b & ? & ? & ? & ? & ? & ?).
    rewrite <-(app_nil_r (path_of segments)) at 1. change [] with (repeat 47 0). by eapply normalize_path.
  - intros segments n Hne Hs. destruct (Hurl segments Hne Hs) as (pu & b & ? & ? & ? & ? & ? & ?).
    by eapply normalize_path.
Qed.

(** ** A concrete parser and request *)

(** It splits a scheme, an authority and a path. *)
Definition sample_urls : UrlParser := {| parse_url := λ s base,
  let at_origin (o p : jsstr) :=
    {| protocol := js "https:"; url_username := []; url_password := []; hostname := []; port := [];
       pathname := p; search := []; hash := []; url_origin := o |} in
  match base with
  | Some b => Some (at_origin b s)
  | None => Some (at_origin s (js "/"))
  end |}.
Definition sample_upgrade_options : UpgradeAuthorizationOptions :=
  {| publicOrigin := js "https://t.example"; basePath := js "/term" |}.
Definition sample_session : jsstr := js "123e4567-e89b-42d3-a456-426614174000".
Definition sample_upgrade : UpgradeRequest :=
  {| origin := Some (js "https://t.example"); rawHeaders := Some [js "Host"; js "t"; js "Origin"; js "https://t.example"];
     requestUrl := Some (js "/term/ws/sessions/123e4567-e89b-42d3-a456-426614174000") |}.
Example sample_upgrades : let _ := ascii_lower_case in let _ := sample_urls in
  authorizeUpgrade sample_upgrade sample_upgrade_options = Allowed sample_session ∧
  normalizeBasePath (js "/a/b//") = Some (js "/a/b") ∧ normalizeBasePath (js "/a/../b") = None.
Proof. split_and!; vm_compute; reflexivity. Qed.

Theorem base_path_canonical_witness : let _ := sample_urls in
  normalizeBasePath (js "/a/b//") = Some (js "/a/b").
Proof.
  intros u. assert (Forall safe_segment [js "a"; js "b"]) as Hs by (repeat constructor; vm_compute; reflexivity).
  refine (proj2 (@base_path_canonical u _) [js "a"; js "b"] 2%nat _ Hs); [|discriminate].
  intros segments Hne _. eexists _, _. repeat split; reflexivity.
Defined.
