(* ===== verification/KeyedMutex.v ===== *)
(** The class [KeyedMutex] of [apps/server/src/session-manager.ts]: methods of
    one key run one at a time, in the order in which they were called.

    [runExclusive] is three events: the call, which chains a ticket behind the
    tail of the key; the start of the operation, once that tail has settled;
    and the [finally] block.  Tickets are numbered in the order of the calls;
    a tail promise is the ticket that it belongs to, and is settled when that
    ticket has released its gate. *)
From S2P Require Import Prelude.

Inductive phase := Waiting | Running | Released.
#[export] Instance phase_eq_dec : EqDecision phase.
Proof. solve_decision. Defined.

Record ticket := Ticket { key : jsstr; prior : option nat; state : phase }.

Record mutex := Mutex { tails : gmap jsstr nat; tickets : list ticket }.
Definition new_mutex : mutex := Mutex ∅ [].

Definition with_state (p : phase) (t : ticket) : ticket := Ticket (key t) (prior t) p.

(** [prior] is the key's tail; the new tail is the new ticket's. *)
Definition enter (k : jsstr) (m : mutex) : mutex :=
  Mutex (<[k := length (tickets m)]> (tails m))
    (tickets m ++ [Ticket k (tails m !! k) Waiting]).

Definition settled (m : mutex) (p : option nat) : bool :=
  match p with
  | None => true   (* [Promise.resolve()] *)
  | Some i => match tickets m !! i with
              | Some t => bool_decide (state t = Released)
              | None => false
              end
  end.

(** [await prior] returns and the operation starts. *)
Definition start (i : nat) (m : mutex) : option mutex :=
  t ← tickets m !! i;
  if bool_decide (state t = Waiting) && settled m (prior t)
  then Some (Mutex (tails m) (<[i := with_state Running t]> (tickets m)))
  else None.

Definition release (i : nat) (m : mutex) : option mutex :=
  t ← tickets m !! i;
  if bool_decide (state t = Running)
  then Some (Mutex (tails m) (<[i := with_state Released t]> (tickets m)))
  else None.
(** [if (tails.get(key) === tail) tails.delete(key)] *)
Definition forget (i : nat) (m : mutex) : option mutex :=
  t ← tickets m !! i;
  if bool_decide (state t = Released)
  then Some (if decide (tails m !! key t = Some i) then Mutex (delete (key t) (tails m)) (tickets m)
             else m)
  else None.
(** [finally { release(); if (this.tails.get(key) === tail) this.tails.delete(key) }] *)
Definition finish (i : nat) (m : mutex) : option mutex := release i m ≫= forget i.

Inductive mstep : mutex → mutex → Prop :=
| step_enter k m : mstep m (enter k m)
| step_start i m m' : start i m = Some m' → mstep m m'
| step_finish i m m' : finish i m = Some m' → mstep m m'.

(** * The invariant *)

(** Every earlier ticket of the key has released its gate. *)
Definition cleared (ts : list ticket) (k : jsstr) (i : nat) : Prop :=
  ∀ j t, (j < i)%nat → ts !! j = Some t → key t = k → state t = Released.

Record mutex_ok (m : mutex) : Prop := {
  ok_prior : ∀ i t p, tickets m !! i = Some t → prior t = Some p →
    ∃ u, (p < i)%nat ∧ tickets m !! p = Some u ∧ key u = key t ∧
      (state u = Released → cleared (tickets m) (key t) i) ∧
      ∀ j v, (p < j < i)%nat → tickets m !! j = Some v → key v ≠ key t;
  ok_first : ∀ i t, tickets m !! i = Some t → prior t = None → cleared (tickets m) (key t) i;
  ok_started : ∀ i t, tickets m !! i = Some t → state t ≠ Waiting →
    cleared (tickets m) (key t) i;
  ok_tail : ∀ k i, tails m !! k = Some i → ∃ t, tickets m !! i = Some t ∧ key t = k ∧ ∀ j v, (i < j)%nat → tickets m !! j = Some v → key v ≠ k;
  ok_no_tail : ∀ k, tails m !! k = None → cleared (tickets m) k (length (tickets m));
}.
(** A stored tail is not settled. *)
Definition live (m : mutex) : Prop :=
  ∀ k i t, tails m !! k = Some i → tickets m !! i = Some t → state t ≠ Released.

Section proofs.
Implicit Types (m : mutex) (i j : nat) (t u : ticket) (k : jsstr) (ts : list ticket).

Lemma new_mutex_ok : mutex_ok new_mutex.
Proof.
  by split.
Qed.

Lemma cleared_app ts t k i : (i ≤ length ts)%nat → cleared ts k i → cleared (ts ++ [t]) k i.
Proof.
  intros Hi Hc j u Hj Hu. eapply Hc; [done|]. by rewrite lookup_app_l in Hu by lia.
Qed.

(** The tickets of a key whose tail has settled are all settled. *)
Lemma tail_cleared m k i t : mutex_ok m → tails m !! k = Some i → tickets m !! i = Some t →
  state t = Released → cleared (tickets m) k (length (tickets m)).
Proof.
  intros Hok Hi Ht Hr j u _ Hu Hk. destruct (ok_tail _ Hok k i Hi) as (v & Hv & Hkv & Hno).
  assert (v = t) as -> by congruence. destruct (lt_eq_lt_dec j i) as [[Hj| ->]|Hj].
  - eapply (ok_started _ Hok i t); [done|by rewrite Hr|exact Hj|done|congruence].
  - congruence.
  - by destruct (Hno j u).
Qed.

Lemma enter_ok k m : mutex_ok m → mutex_ok (enter k m).
Proof.
  intros Hok. pose proof Hok as [H1 H2 H3 H4 H5].
  pose proof (λ j t, lookup_lt_Some (tickets m) j t) as Hlt.
  assert (∀ i t, (tickets m ++ [Ticket k (tails m !! k) Waiting]) !! i = Some t →
    tickets m !! i = Some t ∨ (i = length (tickets m) ∧ t = Ticket k (tails m !! k) Waiting)) as Hget.
  { intros i t [?|[Hi Ht]]%lookup_app_Some; [by left|right].
    destruct (i - length (tickets m))%nat eqn:Hd; [|done]. simpl in Ht. split; [lia|congruence]. }
  split; simpl.
  - intros i t p [Ht|[-> ->]]%Hget Hp.
    + destruct (H1 i t p Ht Hp) as (u & Hlt' & Hu & Hk & Hc & Hno). exists u.
      pose proof (Hlt _ _ Ht). split_and!; [done|by apply lookup_app_l_Some|done| |].
      * intros Hr. apply cleared_app; [lia|by apply Hc].
      * intros j v Hj Hv. rewrite lookup_app_l in Hv by lia. by eapply Hno.
    + simpl in *. destruct (H4 k p Hp) as (u & Hu & Hk & Hno). exists u.
      pose proof (Hlt _ _ Hu). split_and!; [done|by apply lookup_app_l_Some|done| |].
      * intros Hr. apply cleared_app; [lia|]. by eapply tail_cleared.
      * intros j v Hj Hv. rewrite lookup_app_l in Hv by lia. eapply Hno; [|done]. lia.
  - intros i t [Ht|[-> ->]]%Hget Hp; pose proof Hlt; simpl in *.
    + apply cleared_app; [apply Hlt in Ht; lia|by eapply H2].
    + apply cleared_app; [lia|by apply H5].
  - intros i t [Ht|[-> ->]]%Hget Hs; [|done].
    apply cleared_app; [apply Hlt in Ht; lia|by eapply H3].
  - intros k' i [[<- <-]|[Hne Hk']]%lookup_insert_Some.
    + exists (Ticket k (tails m !! k) Waiting). split_and!; [|done|].
      * by rewrite lookup_app_r, Nat.sub_diag by lia.
      * intros j v Hj [Hv|[-> _]]%Hget; [apply Hlt in Hv|]; lia.
    + destruct (H4 k' i Hk') as (t & Ht & Hk & Hno). exists t.
      split_and!; [by apply lookup_app_l_Some|done|].
      intros j v Hj [Hv|[-> ->]]%Hget; [by eapply Hno|done].
  - intros k' [Hne Hk']%lookup_insert_None. intros j t Hj [Ht|[-> ->]]%Hget Hkt; [|done].
    eapply (H5 k' Hne); [by eapply Hlt|done..].
Qed.

(** Changing the state of one ticket keeps what is cleared, and clears more if
    the ticket is released. *)
Lemma cleared_insert ts i t p k n :
  ts !! i = Some t → (p = Released ∨ state t ≠ Released) →
  cleared ts k n → cleared (<[i := with_state p t]> ts) k n.
Proof.
  intros Hi Hp Hc j u Hj [[-> [<- _]]|[? Hu]]%list_lookup_insert_Some Hk; [|by eapply Hc].
  simpl in *. specialize (Hc j t Hj Hi Hk). by destruct Hp as [->|?].
Qed.

Lemma insert_lookup ts i t p j u :
  ts !! i = Some t → <[i := with_state p t]> ts !! j = Some u →
  ∃ v, ts !! j = Some v ∧ key u = key v ∧ prior u = prior v ∧
    (j = i ∧ v = t ∧ u = with_state p t ∨ j ≠ i ∧ u = v).
Proof.
  intros Hi [[-> [<- _]]|[? Hu]]%list_lookup_insert_Some;
    [exists t|exists u]; naive_solver.
Qed.

Lemma lookup_insert_other ts i t p j v :
  ts !! i = Some t → ts !! j = Some v →
  ∃ u, <[i := with_state p t]> ts !! j = Some u ∧ key u = key v ∧
    (j = i ∧ v = t ∧ u = with_state p t ∨ j ≠ i ∧ u = v).
Proof.
  intros Hi Hj. destruct (decide (j = i)) as [->|Hne].
  - exists (with_state p t). rewrite list_lookup_insert_eq by by eapply lookup_lt_Some.
    naive_solver.
  - exists v. rewrite list_lookup_insert_ne by done. naive_solver.
Qed.

(** The tickets before one whose predecessor has released are cleared. *)
Lemma settled_cleared m i t :
  mutex_ok m → tickets m !! i = Some t → settled m (prior t) = true →
  cleared (tickets m) (key t) i.
Proof.
  intros Hok Ht Hs. destruct (prior t) as [p|] eqn:Hp; [|by eapply ok_first].
  destruct (ok_prior _ Hok i t p Ht Hp) as (u & _ & Hu & _ & Hc & _).
  apply Hc. simpl in Hs. rewrite Hu in Hs. by apply bool_decide_eq_true in Hs.
Qed.

(** What changing one ticket's state preserves; [p] is the new state. *)
Lemma update_prior m i t p j u q :
  mutex_ok m → tickets m !! i = Some t → (p = Released ∨ state t ≠ Released) →
  (p = Released → cleared (tickets m) (key t) i) →
  <[i := with_state p t]> (tickets m) !! j = Some u → prior u = Some q →
  ∃ v, (q < j)%nat ∧ <[i := with_state p t]> (tickets m) !! q = Some v ∧ key v = key u ∧
    (state v = Released → cleared (<[i := with_state p t]> (tickets m)) (key u) j) ∧
    ∀ n w, (q < n < j)%nat → <[i := with_state p t]> (tickets m) !! n = Some w → key w ≠ key u.
Proof.
  intros Hok Ht Hp Hcl Hu Hq.
  destruct (insert_lookup _ _ _ _ _ _ Ht Hu) as (u0 & Hu0 & Hku & Hpu & _).
  rewrite Hpu in Hq. destruct (ok_prior _ Hok j u0 q Hu0 Hq) as (v & Hlt & Hv & Hkv & Hc & Hno).
  destruct (lookup_insert_other _ _ _ p _ _ Ht Hv) as (v' & Hv' & Hkv' & Hcase).
  exists v'. split_and!; [done|done|congruence| |].
  - intros Hr. rewrite Hku. destruct Hcase as [(-> & -> & ->)|[Hne ->]].
    + (* the predecessor is the ticket that changes *)
      simpl in Hr. subst p. intros n w Hn Hw Hkw.
      destruct (insert_lookup _ _ _ _ _ _ Ht Hw) as (w0 & Hw0 & Hkw0 & _ & Hcw).
      destruct Hcw as [(_ & _ & ->)|[Hne2 ->]]; [done|].
      destruct (decide (n < i)%nat) as [Hni|Hni].
      * eapply Hcl; [done|exact Hni|done|congruence].
      * destruct (Hno n w0); [lia|done|congruence].
    + apply cleared_insert; [done|done|]. by apply Hc.
  - intros n w Hn Hw. destruct (insert_lookup _ _ _ _ _ _ Ht Hw) as (w0 & Hw0 & -> & _).
    rewrite Hku. by eapply Hno.
Qed.

Lemma update_first m i t p j u :
  mutex_ok m → tickets m !! i = Some t → (p = Released ∨ state t ≠ Released) →
  <[i := with_state p t]> (tickets m) !! j = Some u → prior u = None →
  cleared (<[i := with_state p t]> (tickets m)) (key u) j.
Proof.
  intros Hok Ht Hp Hu Hq.
  destruct (insert_lookup _ _ _ _ _ _ Ht Hu) as (u0 & Hu0 & -> & Hpu & _).
  apply cleared_insert; [done|done|]. eapply ok_first; [done|done|congruence].
Qed.

Lemma update_started m i t p j u :
  mutex_ok m → tickets m !! i = Some t → (p = Released ∨ state t ≠ Released) →
  cleared (tickets m) (key t) i →
  <[i := with_state p t]> (tickets m) !! j = Some u → state u ≠ Waiting →
  cleared (<[i := with_state p t]> (tickets m)) (key u) j.
Proof.
  intros Hok Ht Hp Hcl Hu Hs.
  destruct (insert_lookup _ _ _ _ _ _ Ht Hu) as (u0 & Hu0 & -> & _ & Hcase).
  apply cleared_insert; [done|done|].
  destruct Hcase as [(-> & -> & _)|[_ ->]]; [done|]. by eapply ok_started.
Qed.

Lemma update_ok m i t p :
  mutex_ok m → tickets m !! i = Some t → (p = Released ∨ state t ≠ Released) →
  cleared (tickets m) (key t) i →
  mutex_ok (Mutex (tails m) (<[i := with_state p t]> (tickets m))).
Proof.
  intros Hok Ht Hp Hcl. split; simpl.
  - intros j u q. by eapply update_prior.
  - intros j u. by eapply update_first.
  - intros j u. by eapply update_started.
  - intros k j Hk. destruct (ok_tail _ Hok k j Hk) as (u & Hu & Hku & Hno).
    destruct (lookup_insert_other _ _ _ p _ _ Ht Hu) as (v & Hv & Hkv & _).
    exists v. split_and!; [done|congruence|].
    intros n w Hn Hw'. destruct (insert_lookup _ _ _ _ _ _ Ht Hw') as (w0 & Hw0 & -> & _).
    by eapply Hno.
  - intros k Hk. rewrite length_insert. apply cleared_insert; [done|done|]. by apply ok_no_tail.
Qed.

Lemma start_Some i m m' : start i m = Some m' ↔ ∃ t, tickets m !! i = Some t ∧
  state t = Waiting ∧ settled m (prior t) = true ∧
  m' = Mutex (tails m) (<[i := with_state Running t]> (tickets m)).
Proof.
  unfold start. split.
  - intros (t & Ht & Hs)%bind_Some. case_match eqn:Hb; [|done]. breflect. naive_solver.
  - intros (t & Ht & Hw & Hs & ->). rewrite Ht. simpl. by rewrite Hw, Hs.
Qed.
Lemma release_Some i m m' : release i m = Some m' ↔ ∃ t, tickets m !! i = Some t ∧
  state t = Running ∧ m' = Mutex (tails m) (<[i := with_state Released t]> (tickets m)).
Proof.
  unfold release. split.
  - intros (t & Ht & Hs)%bind_Some. case_match eqn:Hb; [|done]. breflect. naive_solver.
  - intros (t & Ht & Hw & ->). rewrite Ht. simpl. by rewrite Hw.
Qed.
Lemma forget_Some i m m' : forget i m = Some m' → ∃ t, tickets m !! i = Some t ∧
  state t = Released ∧
  (m' = m ∧ tails m !! key t ≠ Some i ∨
   m' = Mutex (delete (key t) (tails m)) (tickets m) ∧ tails m !! key t = Some i).
Proof.
  unfold forget. intros (t & Ht & Hs)%bind_Some. case_match eqn:Hb; [|done]. breflect.
  case_decide; naive_solver.
Qed.

Lemma start_ok i m m' : mutex_ok m → start i m = Some m' → mutex_ok m'.
Proof.
  intros Hok (t & Ht & Hw & Hs & ->)%start_Some.
  apply update_ok; [done|done|right; congruence|by apply settled_cleared].
Qed.
Lemma release_ok i m m' : mutex_ok m → release i m = Some m' → mutex_ok m'.
Proof.
  intros Hok (t & Ht & Hs & ->)%release_Some.
  apply update_ok; [done|done|by left|]. eapply ok_started; [done|done|congruence].
Qed.
Lemma forget_ok i m m' : mutex_ok m → forget i m = Some m' → mutex_ok m'.
Proof.
  intros Hok (t & Ht & Hs & [[-> _]|[-> Hi]])%forget_Some; [done|].
  pose proof (tail_cleared m (key t) i t Hok Hi Ht Hs) as Hcl.
  destruct Hok as [H1 H2 H3 H4 H5]. split; simpl; try done.
  - intros k j [_ Hk]%lookup_delete_Some. by apply H4.
  - intros k [<-|Hk]%lookup_delete_None; [exact Hcl|by apply H5].
Qed.
Lemma finish_ok i m m' : mutex_ok m → finish i m = Some m' → mutex_ok m'.
Proof.
  intros Hok (m1 & H1 & H2)%bind_Some. eapply forget_ok; [|done]. by eapply release_ok.
Qed.

Lemma enter_live k m : mutex_ok m → live m → live (enter k m).
Proof.
  intros Hok Hl k' i t. cbn [tails tickets enter]. intros [[<- <-]|[Hne Hi]]%lookup_insert_Some.
  - rewrite lookup_app_r, Nat.sub_diag by lia. by intros [= <-].
  - destruct (ok_tail _ Hok k' i Hi) as (u & Hu & _). rewrite lookup_app_l by by eapply lookup_lt_Some.
    by apply (Hl k').
Qed.
Lemma start_live i m m' : live m → start i m = Some m' → live m'.
Proof.
  intros Hl (t & Ht & _ & _ & ->)%start_Some k j u Hj Hu.
  destruct (insert_lookup _ _ _ _ _ _ Ht Hu) as (v & Hv & _ & _ & [(_ & _ & ->)|[_ ->]]); [done|].
  by eapply Hl.
Qed.
Lemma finish_live i m m' : mutex_ok m → live m → finish i m = Some m' → live m'.
Proof.
  intros Hok Hl (m1 & (t & Ht & Hs & ->)%release_Some & (u & Hu & _ & Hm)%forget_Some)%bind_Some.
  cbn [tails tickets] in *. rewrite list_lookup_insert_eq in Hu by by eapply lookup_lt_Some.
  injection Hu as <-. cbn [key with_state] in Hm.
  assert (∀ k j w, tails m !! k = Some j → j ≠ i →
    <[i := with_state Released t]> (tickets m) !! j = Some w → state w ≠ Released) as Hother.
  { intros k j w Hj Hne Hw. rewrite list_lookup_insert_ne in Hw by done. by eapply Hl. }
  destruct Hm as [[-> Hne]|[-> Hi]]; intros k j w Hj Hw; cbn [tails tickets] in *.
  - eapply Hother; [done| |done]. intros ->.
    destruct (ok_tail _ Hok k i Hj) as (v & Hv & <- & _). congruence.
  - apply lookup_delete_Some in Hj as [Hk Hj]. eapply Hother; [done| |done]. intros ->.
    destruct (ok_tail _ Hok k i Hj) as (v & Hv & <- & _). congruence.
Qed.

Lemma msteps_ok m m' : rtc mstep m m' → mutex_ok m → live m → mutex_ok m' ∧ live m'.
Proof.
  induction 1 as [|m1 m2 m3 Hs _ IH]; [done|]. intros Hok Hl. apply IH.
  - destruct Hs; [by apply enter_ok|by eapply start_ok|by eapply finish_ok].
  - destruct Hs; [by apply enter_live|by eapply start_live|by eapply finish_live].
Qed.

(** Two operations of a key never run at once. *)
Lemma running_unique m i j t u : mutex_ok m → tickets m !! i = Some t → tickets m !! j = Some u →
  key t = key u → state t = Running → state u = Running → i = j.
Proof.
  intros Hok Ht Hu Hk Hrt Hru. destruct (lt_eq_lt_dec i j) as [[Hij|?]|Hij]; [|done|].
  - pose proof (ok_started _ Hok j u Hu) as Hc. specialize (Hc ltac:(congruence) i t Hij Ht Hk).
    congruence.
  - pose proof (ok_started _ Hok i t Ht) as Hc. specialize (Hc ltac:(congruence) j u Hij Hu).
    rewrite Hk in Hc. specialize (Hc eq_refl). congruence.
Qed.
(** An operation that is not done waits for one that runs or can start. *)
Lemma mutex_progress m i t : mutex_ok m → tickets m !! i = Some t → state t ≠ Released →
  ∃ j u, tickets m !! j = Some u ∧ key u = key t ∧ (state u = Running ∨ is_Some (start j m)).
Proof.
  intros Hok. revert t. induction (lt_wf i) as [i _ IH]. intros t Ht Hs.
  destruct (decide (state t = Running)) as [Hrun|Hrun]; [by exists i, t; auto|].
  assert (state t = Waiting) as Hw by by destruct (state t).
  destruct (settled m (prior t)) eqn:Hse.
  - exists i, t. split_and!; [done|done|]. right. eexists. by apply start_Some; eauto.
  - destruct (prior t) as [p|] eqn:Hp; [|done].
    destruct (ok_prior _ Hok i t p Ht Hp) as (u & Hlt & Hu & Hku & _).
    simpl in Hse. rewrite Hu in Hse. apply bool_decide_eq_false in Hse.
    destruct (IH p Hlt u Hu Hse) as (j & v & Hv & Hkv & Hc). exists j, v.
    split_and!; [done|congruence|done].
Qed.
End proofs.

(** In every reachable state of the mutex, when an operation of a key runs
    or has finished, every operation called earlier for that key has finished:
    operations of one key never overlap and run in call order. A key is
    forgotten once its operations are done, and while one of them is not,
    some operation of the key is running or can start. *)
Theorem keyed_mutex_exclusive (m : mutex) :
  rtc mstep new_mutex m →
  (∀ i j t u, tickets m !! i = Some t → tickets m !! j = Some u → key t = key u →
     (i < j)%nat → state u ≠ Waiting → state t = Released) ∧
  (∀ k, (∀ i t, tickets m !! i = Some t → key t = k → state t = Released) →
     tails m !! k = None) ∧
  (∀ i t, tickets m !! i = Some t → state t ≠ Released →
     ∃ j u, tickets m !! j = Some u ∧ key u = key t ∧
       (state u = Running ∨ is_Some (start j m))).
Proof.
  intros Hr. destruct (msteps_ok _ _ Hr new_mutex_ok) as [Hok Hlive]; [done|]. split_and!.
  - intros i j t u Ht Hu Hk Hij Hs. by eapply (ok_started _ Hok j u).
  - intros k Hall. destruct (tails m !! k) as [i|] eqn:Hk; [|done].
    destruct (ok_tail _ Hok k i Hk) as (t & Ht & Hkt & _). destruct (Hlive k i t Hk Ht). by eapply Hall.
  - intros i t. by apply mutex_progress.
Qed.

(** Two calls for one key; the first has finished. *)
Definition sample_called : mutex := enter (js "a") (enter (js "a") new_mutex).
Definition sample_running : mutex := default sample_called (start 0 sample_called).
Definition sample_mutex : mutex := default sample_running (finish 0 sample_running).

Lemma keyed_mutex_exclusive_witness :
  rtc mstep new_mutex sample_mutex ∧ tails sample_mutex !! js "a" = Some 1%nat ∧
  ∃ j u, tickets sample_mutex !! j = Some u ∧ key u = js "a" ∧
    (state u = Running ∨ is_Some (start j sample_mutex)).
Proof.
  assert (rtc mstep new_mutex sample_mutex) as Hr.
  { eapply rtc_l; [apply (step_enter (js "a"))|].
    eapply rtc_l; [apply (step_enter (js "a"))|].
    eapply rtc_l; [apply (step_start 0 sample_called sample_running); vm_compute; reflexivity|].
    eapply rtc_l; [apply (step_finish 0 sample_running sample_mutex); vm_compute; reflexivity|].
    apply rtc_refl. }
  split; [exact Hr|]. split; [vm_compute; reflexivity|].
  destruct (keyed_mutex_exclusive sample_mutex Hr) as (_ & _ & Hp).
  apply (Hp 1%nat (Ticket (js "a") (Some 0%nat) Waiting)); [vm_compute; reflexivity|discriminate].
Defined.
