(* ===== verification/BridgeRegistry.v ===== *)
(** [BridgeRegistry] of [apps/server/src/bridge-registry.ts]: which bridge owns
    each session.

    Every method is asynchronous.  A registry is a state machine over the
    calls of its methods and the settlements of the promises it awaits: the
    methods called before a shutdown chain their operation behind the tail of
    their session ([serialize], on the promise chain of [KeyedMutex]); those
    called after it wait for the barrier.  An owner is a number, its identity;
    [owner.close(...)] is recorded when it is called and settles later with
    success or failure; an owner that throws at once settles at once. *)
From stdpp Require Import sorting.
From S2P Require Import Prelude JsMap Tabs KeyedMutex.
Open Scope Z_scope.

Definition MAX_RUNTIME_SNAPSHOTS : nat := 20.

Inductive operation :=
| Replace (owner : nat)
| Remove (owner : nat)
| CloseOwner (code : Z) (reason : jsstr).

(** What the operation of a ticket awaits. *)
Inductive progress :=
| Queued
| AwaitPrior (prior : nat)     (** [await prior.close(...)] *)
| AwaitReject                  (** [await this.closeRejectedOwner(...)] *)
| AwaitClose (owner : nat)     (** [await owner.close(...)] *)
| Settled (ok : bool).

Inductive late_phase := LateWaiting | LateClosing | LateRejected.

(** [closeAll]: not called; awaiting the operations in flight; awaiting the
    owners, with how each settled; settled. *)
Inductive shutdown :=
| NotShutDown
| Draining (inFlight : list nat)
| ClosingOwners (entries : list (jsstr * nat)) (results : list (option bool))
| ShutDown (ok : bool).

Record registry := Registry {
  owners : list (jsstr * nat);
  queue : mutex;
  operations : list (operation * progress);
  lates : list (nat * late_phase);
  phase : shutdown;
  closes : list (nat * Z * jsstr);
}.
Definition new_registry : registry := Registry [] new_mutex [] [] NotShutDown [].

Definition set_owners (f : list (jsstr * nat) → list (jsstr * nat)) (r : registry) : registry :=
  Registry (f (owners r)) (queue r) (operations r) (lates r) (phase r) (closes r).
Definition set_queue (m : mutex) (r : registry) : registry :=
  Registry (owners r) m (operations r) (lates r) (phase r) (closes r).
Definition set_operations (l : list (operation * progress)) (r : registry) : registry :=
  Registry (owners r) (queue r) l (lates r) (phase r) (closes r).
Definition set_lates (l : list (nat * late_phase)) (r : registry) : registry :=
  Registry (owners r) (queue r) (operations r) l (phase r) (closes r).
Definition set_phase (p : shutdown) (r : registry) : registry :=
  Registry (owners r) (queue r) (operations r) (lates r) p (closes r).
(** [owner.close(code, reason)] is called. *)
Definition call_close (o : nat) (code : Z) (reason : jsstr) (r : registry) : registry :=
  Registry (owners r) (queue r) (operations r) (lates r) (phase r) (closes r ++ [(o, code, reason)]).

Definition shuttingDown (r : registry) : bool :=
  match phase r with NotShutDown => false | _ => true end.
Definition get (sessionId : jsstr) (r : registry) : option nat := jm_get sessionId (owners r).
Definition registeredCount (r : registry) : nat := length (owners r).

(** ** The methods, up to their first await *)

Definition serialize (sessionId : jsstr) (o : operation) (r : registry) : registry :=
  set_operations (operations r ++ [(o, Queued)]) (set_queue (enter sessionId (queue r)) r).

Definition replace (sessionId : jsstr) (owner : nat) (r : registry) : registry :=
  if shuttingDown r then set_lates (lates r ++ [(owner, LateWaiting)]) r
  else serialize sessionId (Replace owner) r.
Definition remove (sessionId : jsstr) (owner : nat) (r : registry) : registry :=
  if shuttingDown r then r else serialize sessionId (Remove owner) r.
Definition close (sessionId : jsstr) (code : Z) (reason : jsstr) (r : registry) : registry :=
  if shuttingDown r then r else serialize sessionId (CloseOwner code reason) r.
(** [[...this.operationQueues.values()]]; their order is immaterial. *)
Definition closeAll (r : registry) : registry :=
  if shuttingDown r then r else set_phase (Draining ((map_to_list (tails (queue r))).*2)) r.

(** ** The operations *)

(** The operation of ticket [i] awaits something, or settles. *)
Definition await (i : nat) (o : operation) (p : progress) (r : registry) : registry :=
  set_operations (<[i := (o, p)]> (operations r)) r.
Definition settle (i : nat) (o : operation) (ok : bool) (r : registry) : option registry :=
  m ← release i (queue r); Some (await i o (Settled ok) (set_queue m r)).

(** [if (this.owners.get(sessionId) === prior) this.owners.set(sessionId, owner)] *)
Definition register (sessionId : jsstr) (owner : nat) (prior : option nat) (r : registry) : registry :=
  if decide (get sessionId r = prior) then set_owners (jm_set sessionId owner) r else r.
(** [if (this.owners.get(sessionId) === owner) this.owners.delete(sessionId)] *)
Definition unregister (sessionId : jsstr) (owner : nat) (r : registry) : registry :=
  if decide (get sessionId r = Some owner) then set_owners (jm_delete sessionId) r else r.

(** The operation runs up to its first await. *)
Definition begin (i : nat) (sessionId : jsstr) (o : operation) (r : registry) : option registry :=
  match o with
  | Replace owner =>
      match get sessionId r with
      | Some prior =>
          if decide (prior = owner) then settle i o true (register sessionId owner (Some prior) r)
          else Some (await i o (AwaitPrior prior) (call_close prior 4001 (js "session_replaced") r))
      | None => settle i o true (register sessionId owner None r)
      end
  | Remove owner => settle i o true (unregister sessionId owner r)
  | CloseOwner code reason =>
      match get sessionId r with
      | None => settle i o true r
      | Some owner => Some (await i o (AwaitClose owner) (call_close owner code reason r))
      end
  end.
Definition run_operation (i : nat) (r : registry) : option registry :=
  t ← tickets (queue r) !! i;
  x ← operations r !! i;
  m ← start i (queue r);
  begin i (key t) x.1 (set_queue m r).

(** The [close] that operation [i] awaits settles. *)
Definition close_settled (i : nat) (ok : bool) (r : registry) : option registry :=
  t ← tickets (queue r) !! i;
  x ← operations r !! i;
  match x with
  | (Replace owner, AwaitPrior prior) =>
      if ok then settle i x.1 true (register (key t) owner (Some prior) r)
      else Some (await i x.1 AwaitReject (call_close owner 1011 (js "registration_failed") r))
  | (Replace owner, AwaitReject) => settle i x.1 false r
  | (CloseOwner _ _, AwaitClose owner) =>
      if ok then settle i x.1 true (unregister (key t) owner r) else settle i x.1 false r
  | _ => None
  end.
(** [if (this.operationQueues.get(sessionId) === tail) delete] *)
Definition forget_queue (i : nat) (r : registry) : option registry :=
  m ← forget i (queue r); Some (set_queue m r).

(** ** Shutting down *)

Definition is_released (m : mutex) (i : nat) : bool := settled m (Some i).

(** [Promise.all(inFlight)] settles and every owner is told to close. *)
Definition drained (r : registry) : option registry :=
  match phase r with
  | Draining inFlight =>
      if forallb (is_released (queue r)) inFlight then
        Some (foldl (λ r e, call_close e.2 1001 (js "server_shutdown") r)
          (set_phase (ClosingOwners (owners r) ((λ _, None) <$> owners r)) r) (owners r))
      else None
  | _ => None
  end.
Definition owner_settled (j : nat) (ok : bool) (r : registry) : option registry :=
  match phase r with
  | ClosingOwners entries results =>
      e ← entries !! j;
      x ← results !! j;
      match x with
      | None => Some (set_phase (ClosingOwners entries (<[j := Some ok]> results))
                       (unregister e.1 e.2 r))
      | Some _ => None
      end
  | _ => None
  end.
Definition finish_shutdown (r : registry) : option registry :=
  match phase r with
  | ClosingOwners entries results =>
      if forallb (λ x, match x with Some _ => true | None => false end) results then
        Some (set_phase (ShutDown (forallb (λ x, bool_decide (x = Some true)) results)) r)
      else None
  | _ => None
  end.
(** The barrier settles for a [replace] called during the shutdown. *)
Definition late_start (j : nat) (r : registry) : option registry :=
  match phase r, lates r !! j with
  | ShutDown _, Some (o, LateWaiting) =>
      Some (set_lates (<[j := (o, LateClosing)]> (lates r))
             (call_close o 1001 (js "server_shutdown") r))
  | _, _ => None
  end.
Definition late_settled (j : nat) (r : registry) : option registry :=
  match lates r !! j with
  | Some (o, LateClosing) => Some (set_lates (<[j := (o, LateRejected)]> (lates r)) r)
  | _ => None
  end.

(** ** The machine *)

Inductive registry_event :=
| CallReplace (sessionId : jsstr) (owner : nat)
| CallRemove (sessionId : jsstr) (owner : nat)
| CallClose (sessionId : jsstr) (code : Z) (reason : jsstr)
| CallCloseAll
| Run (i : nat)
| CloseSettled (i : nat) (ok : bool)
| Forget (i : nat)
| Drained
| OwnerSettled (j : nat) (ok : bool)
| FinishShutdown
| LateStart (j : nat)
| LateSettled (j : nat).

Definition registry_step (e : registry_event) (r : registry) : option registry :=
  match e with
  | CallReplace k o => Some (replace k o r)
  | CallRemove k o => Some (remove k o r)
  | CallClose k code reason => Some (close k code reason r)
  | CallCloseAll => Some (closeAll r)
  | Run i => run_operation i r
  | CloseSettled i ok => close_settled i ok r
  | Forget i => forget_queue i r
  | Drained => drained r
  | OwnerSettled j ok => owner_settled j ok r
  | FinishShutdown => finish_shutdown r
  | LateStart j => late_start j r
  | LateSettled j => late_settled j r
  end.
Definition rsteps (r r' : registry) : Prop := rtc (λ r1 r2, ∃ e, registry_step e r1 = Some r2) r r'.

(** ** Snapshots *)

Record snapshot := Snapshot { snapshot_session : jsstr; snapshot_pid : option Z }.

Section snapshots.
(** The property [pid] of an owner: it may throw or not be an integer. *)
Variable owner_pid : nat → res unit (option Z).
Variable localeCompare : jsstr → jsstr → Z.

Definition ownerPid (o : nat) : option Z :=
  match owner_pid o with
  | Ok (Some n) => if 0 <? n then Some n else None
  | _ => None
  end.
Definition locale_order (x y : jsstr * nat) : Prop := localeCompare x.1 y.1 <= 0.
#[export] Instance locale_order_dec : RelDecision locale_order.
Proof. intros x y. unfold locale_order. apply _. Defined.
Definition entries (r : registry) : list snapshot :=
  (λ e, Snapshot e.1 (ownerPid e.2)) <$>
    take MAX_RUNTIME_SNAPSHOTS (merge_sort locale_order (owners r)).

Fixpoint snapshot_loop (r : registry) (seen : list jsstr) (ids : list jsstr) : list snapshot :=
  match ids with
  | [] => []
  | id :: ids =>
      if negb (isSessionId id) || bool_decide (id ∈ seen) then snapshot_loop r seen ids
      else
        match get id r with
        | None => snapshot_loop r (js_add id seen) ids
        | Some o => Snapshot id (ownerPid o) :: snapshot_loop r (js_add id seen) ids
        end
  end.
(** [None]: not an array. *)
Definition snapshotFor (r : registry) (sessionIds : option (list jsstr)) : list snapshot :=
  match sessionIds with
  | None => []
  | Some ids => snapshot_loop r [] (take MAX_RUNTIME_SNAPSHOTS ids)
  end.
End snapshots.
