(* ===== verification/RegistryFacts.v ===== *)
(** The custody of bridges: every owner given to the registry is registered,
    closed or removed, and a shutdown leaves none registered. *)
From S2P Require Import Prelude JsMap Tabs KeyedMutex BridgeRegistry.
Open Scope Z_scope.

Definition closed (o : nat) (r : registry) : Prop := o ∈ (closes r).*1.*1.
(** A [remove] of this owner has settled. *)
Definition removed (k : jsstr) (o : nat) (r : registry) : Prop := ∃ j t,
  tickets (queue r) !! j = Some t ∧ key t = k ∧ operations r !! j = Some (Remove o, Settled true).
Definition held (k : jsstr) (o : nat) (r : registry) : Prop :=
  get k r = Some o ∨ closed o r ∨ removed k o r.

Definition state_of (p : progress) : KeyedMutex.phase :=
  match p with Queued => Waiting | Settled _ => Released | _ => Running end.

(** Where an operation on the session [k] can be. *)
Definition op_ok (r : registry) (k : jsstr) (o : operation) (p : progress) : Prop :=
  match o, p with
  | _, Queued => True
  | Replace o, AwaitPrior q => get k r = Some q ∧ q ≠ o ∧ closed q r
  | Replace o, (AwaitReject | Settled false) => closed o r
  | Replace o, Settled true => held k o r
  | Remove _, Settled b => b = true
  | CloseOwner _ _, AwaitClose q => get k r = Some q ∧ closed q r
  | CloseOwner _ _, Settled _ => True
  | _, _ => False
  end.

Definition all_released (r : registry) : Prop :=
  ∀ i t, tickets (queue r) !! i = Some t → state t = Released.
Definition phase_ok (r : registry) : Prop :=
  match phase r with
  | NotShutDown => True
  | Draining l => (∀ j, j ∈ l → (j < length (tickets (queue r)))%nat) ∧
      ∀ i t, tickets (queue r) !! i = Some t → state t ≠ Released →
        ∃ j u, j ∈ l ∧ tickets (queue r) !! j = Some u ∧ key u = key t ∧ (i ≤ j)%nat
  | ClosingOwners es rs => all_released r ∧ length es = length rs ∧ NoDup es.*1 ∧
      (∀ e, e ∈ es → closed e.2 r) ∧
      (∀ k o, get k r = Some o → ∃ j, es !! j = Some (k, o) ∧ rs !! j = Some None)
  | ShutDown _ => all_released r ∧ owners r = []
  end.
Definition late_ok (r : registry) (o : nat) (p : late_phase) : Prop :=
  shuttingDown r = true ∧ (p ≠ LateWaiting → closed o r ∧ ∃ ok, phase r = ShutDown ok).

Record registry_ok (r : registry) : Prop := {
  ro_mutex : mutex_ok (queue r);
  ro_length : length (operations r) = length (tickets (queue r));
  ro_state : ∀ i t o p, tickets (queue r) !! i = Some t → operations r !! i = Some (o, p) →
    state t = state_of p;
  ro_op : ∀ i t o p, tickets (queue r) !! i = Some t → operations r !! i = Some (o, p) →
    op_ok r (key t) o p;
  ro_owners : jm_wf (owners r);
  ro_phase : phase_ok r;
  ro_lates : ∀ j o p, lates r !! j = Some (o, p) → late_ok r o p;
}.

Lemma op_ok_frame r r' k o p :
  (∀ q, closed q r → closed q r') → (∀ q, removed k q r → removed k q r') →
  (∀ q, get k r = Some q → held k q r') → (state_of p = Running → get k r' = get k r) →
  op_ok r k o p → op_ok r' k o p.
Proof.
  intros Hc Hr Hg Hrun.
  assert (∀ q, held k q r → held k q r') as Hh.
  { intros q [H|[H|H]]; [by apply Hg|right; left|right; right]; auto. }
  destruct o as [o|o|? ?], p as [|q| |q|[]]; cbn [op_ok state_of] in *; try done; auto.
  - intros (? & ? & ?). rewrite Hrun by done. auto.
  - intros (? & ?). rewrite Hrun by done. auto.
Qed.

Lemma new_registry_ok : registry_ok new_registry.
Proof. split; first [done|apply new_mutex_ok|constructor]. Qed.

(** A step of operation [i] from progress [p] to [p']. *)
Lemma operation_step_ok r r' i t o p p' :
  registry_ok r → tickets (queue r) !! i = Some t → operations r !! i = Some (o, p) →
  state t ≠ Released → (∀ j u, tickets (queue r) !! j = Some u → key u = key t →
    j ≠ i → state u ≠ Running) →
  mutex_ok (queue r') →
  tickets (queue r') = <[i := with_state (state_of p') t]> (tickets (queue r)) →
  operations r' = <[i := (o, p')]> (operations r) →
  lates r' = lates r → phase r' = phase r →
  jm_wf (owners r') → (∀ k, k ≠ key t → get k r' = get k r) →
  (∀ q, get (key t) r = Some q → held (key t) q r') →
  (∀ q, closed q r → closed q r') → op_ok r' (key t) o p' →
  registry_ok r'.
Proof.
  intros Hok Ht Hop Hs Hex Hm Htk Hops Hla Hph Hwf Hoth Hheld Hcl Hnew.
  assert (∀ j u, tickets (queue r') !! j = Some u → j = i ∧ u = with_state (state_of p') t ∨
    j ≠ i ∧ tickets (queue r) !! j = Some u) as Hget.
  { intros j u. rewrite Htk. intros [(-> & <- & _)|[? ?]]%list_lookup_insert_Some; auto. }
  assert (∀ j x, operations r' !! j = Some x → j = i ∧ x = (o, p') ∨
    j ≠ i ∧ operations r !! j = Some x) as Hgo.
  { intros j x. rewrite Hops. intros [(-> & <- & _)|[? ?]]%list_lookup_insert_Some; auto. }
  assert (∀ k q, removed k q r → removed k q r') as Hrem.
  { intros k q (j & u & Hu & Hk & Ho). exists j.
    assert (j ≠ i) as Hne.
    { intros ->. pose proof (ro_state _ Hok i u _ _ Hu Ho). cbn in *. congruence. }
    exists u. rewrite Htk, Hops, !list_lookup_insert_ne by done. done. }
  split.
  - done.
  - rewrite Hops, Htk, !length_insert. apply (ro_length _ Hok).
  - intros j u o' q [[-> ->]|[Hne Hu]]%Hget [[? Hq]|[Hne' Hq]]%Hgo; try done; [by simplify_eq|].
    by eapply (ro_state _ Hok).
  - intros j u o' q [[-> ->]|[Hne Hu]]%Hget [[? Hq]|[Hne' Hq]]%Hgo; try done; [by simplify_eq|].
    eapply (op_ok_frame r); [done|apply Hrem| | |by eapply (ro_op _ Hok)].
    + intros x Hx. destruct (decide (key u = key t)) as [Hk|Hk];
        [rewrite Hk in Hx |- *; by apply Hheld|].
      left. by rewrite Hoth.
    + intros Hrun. apply Hoth. intros Hk. apply (Hex j u); [done..|].
      rewrite <-Hrun. by eapply (ro_state _ Hok).
  - done.
  - pose proof (ro_phase _ Hok) as Hp. unfold phase_ok in *. rewrite Hph. destruct (phase r) as [|l|es rs|ok].
    + done.
    + rewrite Htk, length_insert. rewrite <-Htk. destruct Hp as [Hlt Hp]. split; [done|].
      intros j u Hu Hsu. assert (∃ u0, tickets (queue r) !! j = Some u0 ∧ key u0 = key u ∧
        state u0 ≠ Released) as (u0 & Hu0 & Hk0 & Hs0) by (apply Hget in Hu as [[-> ->]|[? ?]]; eauto).
      destruct (Hp j u0 Hu0 Hs0) as (n & v & Hn & Hv & Hkv & Hle). exists n.
      destruct (decide (n = i)) as [->|Hne].
      * exists (with_state (state_of p') t). rewrite Htk, list_lookup_insert_eq by by eapply lookup_lt_Some.
        assert (v = t) as -> by congruence. split_and!; [done|done| |done]. cbn. congruence.
      * exists v. rewrite Htk, list_lookup_insert_ne by done. split_and!; [done|done|congruence|done].
    + destruct Hp as [Hall _]. by destruct Hs; eapply Hall.
    + destruct Hp as [Hall _]. by destruct Hs; eapply Hall.
  - intros j q x Hj. rewrite Hla in Hj. destruct (ro_lates _ Hok j q x Hj) as [H1 H2].
    split; [unfold shuttingDown in *; by rewrite Hph|]. rewrite Hph. naive_solver.
Qed.

Lemma sole_running m m1 i t j u : mutex_ok m1 → tickets m !! i = Some t →
  tickets m1 = <[i := with_state Running t]> (tickets m) →
  tickets m !! j = Some u → key u = key t → j ≠ i → state u ≠ Running.
Proof.
  intros Hm Ht Htk Hu Hk Hne Hs. apply Hne.
  eapply (running_unique m1 j i u (with_state Running t)); [done| | |done..].
  - by rewrite Htk, list_lookup_insert_ne by done.
  - rewrite Htk. apply list_lookup_insert_eq. by eapply lookup_lt_Some.
Qed.

(** From a registry [r] in which operation [i] is about to take a step, to the
    registry [r1] in which it runs. *)
Record running (r r1 : registry) (i : nat) (t : ticket) (o : operation) (p : progress) : Prop := {
  ru_ok : registry_ok r;
  ru_ticket : tickets (queue r) !! i = Some t;
  ru_op : operations r !! i = Some (o, p);
  ru_state : state t ≠ Released;
  ru_mutex : mutex_ok (queue r1);
  ru_tickets : tickets (queue r1) = <[i := with_state Running t]> (tickets (queue r));
  ru_operations : operations r1 = operations r;
  ru_lates : lates r1 = lates r;
  ru_phase : phase r1 = phase r;
  ru_owners : jm_wf (owners r1);
  ru_get : ∀ k, k ≠ key t → get k r1 = get k r;
  ru_closes : ∀ q, closed q r → closed q r1;
}.

Lemma await_ok r r1 i t o p p' : running r r1 i t o p → state_of p' = Running →
  (∀ q, get (key t) r = Some q → held (key t) q (await i o p' r1)) →
  op_ok (await i o p' r1) (key t) o p' → registry_ok (await i o p' r1).
Proof.
  intros [] Hp Hh Ho. eapply (operation_step_ok r _ i t o p p'); try done.
  - intros j u. eapply sole_running; [exact ru_mutex0|done..].
  - by rewrite Hp.
  - cbn. by rewrite ru_operations0.
Qed.

Lemma running_settle r r1 i t o p b : running r r1 i t o p → ∃ r', settle i o b r1 = Some r' ∧
  owners r' = owners r1 ∧ closes r' = closes r1 ∧ phase r' = phase r1 ∧ lates r' = lates r1 ∧
  operations r' = <[i := (o, Settled b)]> (operations r1) ∧
  tickets (queue r') = <[i := with_state Released t]> (tickets (queue r)) ∧
  mutex_ok (queue r').
Proof.
  intros []. unfold settle.
  assert (release i (queue r1) = Some (Mutex (tails (queue r1))
    (<[i := with_state Released t]> (tickets (queue r))))) as Hr.
  { apply release_Some. exists (with_state Running t). split_and!; [|done|].
    - rewrite ru_tickets0. apply list_lookup_insert_eq. by eapply lookup_lt_Some.
    - rewrite ru_tickets0. by rewrite list_insert_insert_eq. }
  rewrite Hr. eexists. split_and!; try done. by eapply release_ok.
Qed.
Lemma registry_settle_ok r r1 r' i t o p b : running r r1 i t o p → settle i o b r1 = Some r' →
  (∀ q, get (key t) r = Some q → get (key t) r1 = Some q ∨ closed q r1 ∨ o = Remove q ∧ b = true) →
  op_ok r' (key t) o (Settled b) → registry_ok r'.
Proof.
  intros Hrun Hs Hh Ho.
  destruct (running_settle _ _ _ _ _ _ b Hrun) as (r2 & Hs2 & Hw & Hc & Hph & Hl & Hop & Htk & Hm).
  assert (r2 = r') as -> by congruence. destruct Hrun.
  assert (∀ q, closed q r1 → closed q r') as Hcl by (unfold closed; by rewrite Hc).
  eapply (operation_step_ok r r' i t o p (Settled b)); try done.
  - intros j u. eapply sole_running; [exact ru_mutex0|done..].
  - by rewrite Hop, ru_operations0.
  - congruence.
  - congruence.
  - by rewrite Hw.
  - intros k Hk. unfold get. rewrite Hw. by apply ru_get0.
  - intros q Hq. destruct (Hh q Hq) as [H|[H|[-> ->]]].
    + left. unfold get. by rewrite Hw.
    + right; left. auto.
    + right; right. exists i, (with_state Released t). rewrite Htk, Hop, ru_operations0.
      split_and!; [|done|]; apply list_lookup_insert_eq; by eapply lookup_lt_Some.
  - auto.
Qed.

(** ** What runs *)

Lemma run_running r i t o p m : registry_ok r → tickets (queue r) !! i = Some t →
  operations r !! i = Some (o, p) → start i (queue r) = Some m → p = Queued ∧
  running r (set_queue m r) i t o p.
Proof.
  intros Hok Ht Ho Hm. pose proof (start_ok _ _ _ (ro_mutex _ Hok) Hm).
  apply start_Some in Hm as (u & Hu & Hw & _ & ->). assert (u = t) as -> by congruence.
  pose proof (ro_state _ Hok i t o p Ht Ho) as Hs. split; [by destruct p; try congruence; cbn in *; congruence|].
  split; try done; [by rewrite Hw|apply Hok].
Qed.
Lemma await_running r i t o p : registry_ok r → tickets (queue r) !! i = Some t →
  operations r !! i = Some (o, p) → state_of p = Running → running r r i t o p.
Proof.
  intros Hok Ht Ho Hp. pose proof (ro_state _ Hok i t o p Ht Ho) as Hs. rewrite Hp in Hs.
  split; try done; [by rewrite Hs|apply Hok| |apply Hok].
  rewrite list_insert_id; [done|]. rewrite Ht. destruct t. cbn in *. by rewrite Hs.
Qed.
Lemma running_close r r1 i t o p q code reason : running r r1 i t o p →
  running r (call_close q code reason r1) i t o p.
Proof.
  intros []. split; try done. intros x Hx. unfold closed in *. cbn.
  rewrite !fmap_app. apply elem_of_app. auto.
Qed.
Lemma closed_call q code reason r : closed q (call_close q code reason r).
Proof.
  unfold closed. cbn. rewrite !fmap_app. apply elem_of_app. right. by apply list_elem_of_singleton.
Qed.
Lemma running_register r r1 i t o p q x : running r r1 i t o p →
  running r (register (key t) q x r1) i t o p.
Proof.
  intros []. unfold register. case_decide; [|by split]. split; try done.
  - by apply jm_set_wf.
  - intros k Hk. unfold get. cbn. rewrite jm_get_set_ne by done. by apply ru_get0.
Qed.
Lemma running_unregister r r1 i t o p q : running r r1 i t o p →
  running r (unregister (key t) q r1) i t o p.
Proof.
  intros []. unfold unregister. case_decide; [|by split]. split; try done.
  - by apply jm_delete_wf.
  - intros k Hk. unfold get. cbn. rewrite jm_get_delete_ne by done. by apply ru_get0.
Qed.
Lemma get_register k q x r : get k r = x → get k (register k q x r) = Some q.
Proof. intros Hx. unfold register. rewrite decide_True by done. apply jm_get_set_eq. Qed.
Lemma get_unregister k q x r : get k r = Some x → get k (unregister k q r) = Some x ∨ x = q.
Proof. unfold unregister. case_decide as H; [|by left]. right. congruence. Qed.

(** * Every step keeps the invariant *)

Lemma settled_held k o r r1 r' i b : settle i o b r1 = Some r' → get k r1 = Some r → get k r' = Some r.
Proof. unfold settle. intros (m & _ & [= <-])%bind_Some. done. Qed.
Lemma settled_closed q o r1 r' i b : settle i o b r1 = Some r' → closed q r1 → closed q r'.
Proof. unfold settle. intros (m & _ & [= <-])%bind_Some. done. Qed.

Lemma register_settles r r1 r' i t q x : running r r1 i t (Replace q) x →
  (∀ y, get (key t) r1 = Some y → y ≠ q → closed y r1) → get (key t) r1 = get (key t) r →
  settle i (Replace q) true (register (key t) q (get (key t) r1) r1) = Some r' → registry_ok r'.
Proof.
  intros Hrun Hcl Hg Hs. pose proof (running_register _ _ _ _ _ _ q (get (key t) r1) Hrun) as Hrun'.
  eapply registry_settle_ok; [exact Hrun'|done| |].
  - intros y Hy. rewrite <-Hg in Hy. destruct (decide (y = q)) as [->|Hne].
    + left. by apply get_register.
    + right; left. unfold register. rewrite decide_True by done. by apply Hcl.
  - left. eapply settled_held; [done|]. by apply get_register.
Qed.
Lemma unregister_settles r r1 r' i t o p q : running r r1 i t o p →
  get (key t) r1 = get (key t) r → closed q r1 ∨ o = Remove q → op_ok r' (key t) o (Settled true) →
  settle i o true (unregister (key t) q r1) = Some r' → registry_ok r'.
Proof.
  intros Hrun Hg Hq Ho Hs. pose proof (running_unregister _ _ _ _ _ _ q Hrun) as Hrun'.
  eapply registry_settle_ok; [exact Hrun'|done| |done].
  intros y Hy. rewrite <-Hg in Hy. destruct (get_unregister _ q _ _ Hy) as [?| ->]; [by left|].
  destruct Hq as [Hq| ->]; [|auto]. right; left. unfold unregister. by case_decide.
Qed.

Lemma begin_ok r r1 r' i t o : running r r1 i t o Queued → get (key t) r1 = get (key t) r →
  begin i (key t) o r1 = Some r' → registry_ok r'.
Proof.
  intros Hrun Hg. destruct o as [q|q|code reason]; cbn [begin].
  - destruct (get (key t) r1) as [prior|] eqn:Hp; [case_decide as Heq|].
    + subst prior. rewrite <-Hp. intros Hs. eapply register_settles; [exact Hrun| | |exact Hs]; congruence.
    + intros [= <-]. eapply await_ok; [by apply running_close|done| |].
      * intros y Hy. left. change (get (key t) r1 = Some y). congruence.
      * cbn. split_and!; [exact Hp|done|apply closed_call].
    + rewrite <-Hp. intros Hs. eapply register_settles; [exact Hrun| | |exact Hs]; congruence.
  - intros Hs. eapply unregister_settles; [exact Hrun|done|by right|done|exact Hs].
  - destruct (get (key t) r1) as [q|] eqn:Hp; intros Hs.
    + injection Hs as <-. eapply await_ok; [by apply running_close|done| |].
      * intros y Hy. left. change (get (key t) r1 = Some y). congruence.
      * cbn. split_and!; [exact Hp|apply closed_call].
    + eapply registry_settle_ok; [exact Hrun|done| |done]. intros y Hy. left. congruence.
Qed.
Lemma run_operation_ok i r r' : registry_ok r → run_operation i r = Some r' → registry_ok r'.
Proof.
  intros Hok (t & Ht & (x & Ho & (m & Hm & Hb)%bind_Some)%bind_Some)%bind_Some.
  destruct x as [o p]. destruct (run_running r i t o p m Hok Ht Ho Hm) as [-> Hrun].
  by eapply begin_ok.
Qed.

Lemma close_settled_ok i ok r r' : registry_ok r → close_settled i ok r = Some r' → registry_ok r'.
Proof.
  intros Hok (t & Ht & (x & Hx & Hs)%bind_Some)%bind_Some.
  destruct x as [o p]. pose proof (ro_op _ Hok i t o p Ht Hx) as Hop.
  destruct o as [q|q|code reason], p as [|prior| |c|b]; try done; cbn [fst op_ok] in *;
    pose proof (await_running r i t _ _ Hok Ht Hx eq_refl) as Hrun.
  - destruct Hop as (Hg & Hne & Hc). destruct ok.
    + rewrite <-Hg in Hs. eapply register_settles; [exact Hrun| |done|exact Hs]. congruence.
    + injection Hs as <-. eapply await_ok; [by apply running_close|done| |apply closed_call].
      intros y Hy. by left.
  - eapply registry_settle_ok; [exact Hrun|done| |by eapply settled_closed]. by left.
  - destruct Hop as (Hg & Hc). destruct ok.
    + eapply unregister_settles; [exact Hrun|done|by left|done|exact Hs].
    + eapply registry_settle_ok; [exact Hrun|done| |done]. by left.
Qed.

(** Steps that leave the operations alone. *)
Lemma registry_frame r r' : registry_ok r → mutex_ok (queue r') →
  tickets (queue r') = tickets (queue r) → operations r' = operations r →
  (∀ q, closed q r → closed q r') → jm_wf (owners r') →
  (∀ k q, get k r = Some q → held k q r') →
  (∀ i t, tickets (queue r) !! i = Some t → state t = Running → get (key t) r' = get (key t) r) →
  phase_ok r' → (∀ j o p, lates r' !! j = Some (o, p) → late_ok r' o p) → registry_ok r'.
Proof.
  intros Hok Hm Htk Hops Hcl Hwf Hh Hrun Hph Hla. split; try done.
  - rewrite Hops, Htk. apply Hok.
  - intros i t o p. rewrite Htk, Hops. apply Hok.
  - intros i t o p. rewrite Htk, Hops. intros Ht Ho. eapply (op_ok_frame r); [done| |by apply Hh| |by eapply ro_op].
    + intros q (j & u & Hu & Hk & Hj). exists j, u. by rewrite Htk, Hops.
    + intros Hs. eapply Hrun; [done|]. rewrite <-Hs. by eapply ro_state.
Qed.
Lemma same_owners r r' : owners r' = owners r → ∀ k q, get k r = Some q → held k q r'.
Proof. intros H k q Hq. left. unfold get. by rewrite H. Qed.

Lemma forget_queue_ok i r r' : registry_ok r → forget_queue i r = Some r' → registry_ok r'.
Proof.
  intros Hok (m & Hm & [= <-])%bind_Some. pose proof (forget_ok _ _ _ (ro_mutex _ Hok) Hm).
  assert (tickets m = tickets (queue r)) as Htk by (apply forget_Some in Hm as (t & _ & _ & [[-> _]|[-> _]]); done).
  eapply (registry_frame r); try done; [apply Hok|by apply same_owners| |apply Hok].
  pose proof (ro_phase _ Hok) as Hp. unfold phase_ok, all_released in *. cbn [phase set_queue queue].
  destruct (phase r); rewrite ?Htk; done.
Qed.

Lemma serialize_ok k o r : registry_ok r → shuttingDown r = false → registry_ok (serialize k o r).
Proof.
  intros Hok Hs. assert (phase r = NotShutDown) as Hph by (unfold shuttingDown in Hs; by destruct (phase r)).
  pose proof (ro_length _ Hok) as Hlen.
  assert (∀ i t x, tickets (queue (serialize k o r)) !! i = Some t → operations (serialize k o r) !! i = Some x →
    tickets (queue r) !! i = Some t ∧ operations r !! i = Some x ∨
    state t = Waiting ∧ x = (o, Queued)) as Hget.
  { intros i t x. cbn. rewrite !lookup_app. destruct (tickets (queue r) !! i) as [u|] eqn:Hu.
    - apply lookup_lt_Some in Hu as Hlt. rewrite <-Hlen in Hlt.
      destruct (lookup_lt_is_Some_2 _ _ Hlt) as [y Hy]. rewrite Hy. intros [= <-] [= <-]. by left.
    - apply lookup_ge_None in Hu as Hge. rewrite <-Hlen in Hge. rewrite (proj2 (lookup_ge_None _ _) Hge), Hlen.
      destruct (i - _)%nat; [|done]. intros [= <-] [= <-]. by right. }
  split.
  - apply enter_ok, Hok.
  - cbn. rewrite !length_app, Hlen. done.
  - intros i t q p Ht Hq. destruct (Hget i t _ Ht Hq) as [[Ht' Hq']|[-> [= -> ->]]]; [|done].
    by eapply ro_state.
  - intros i t q p Ht Hq. destruct (Hget i t _ Ht Hq) as [[Ht' Hq']|[Hw [= -> ->]]]; [|by destruct o].
    eapply (op_ok_frame r); [done| |by apply same_owners|done|by eapply ro_op].
    intros x (j & u & Hu & Hk & Hj). exists j, u. cbn.
    split_and!; [by apply lookup_app_l_Some|done|by apply lookup_app_l_Some].
  - apply Hok.
  - unfold phase_ok. cbn. by rewrite Hph.
  - intros j q p Hj. destruct (ro_lates _ Hok j q p Hj) as [H _]. congruence.
Qed.

Lemma shutting_open r : shuttingDown r = false → phase r = NotShutDown ∧
  (∀ j o p, registry_ok r → lates r !! j = Some (o, p) → False).
Proof.
  unfold shuttingDown. destruct (phase r) eqn:Hp; [|done..]. intros _. split; [done|].
  intros j o p Hok Hj. destruct (ro_lates _ Hok j o p Hj) as [H _]. unfold shuttingDown in H.
  by rewrite Hp in H.
Qed.

Lemma replace_ok k o r : registry_ok r → registry_ok (replace k o r).
Proof.
  intros Hok. unfold replace. destruct (shuttingDown r) eqn:Hs; [|by apply serialize_ok].
  eapply (registry_frame r); try done; try apply Hok; [by apply same_owners|].
  intros j q p. cbn. intros [Hj|[_ Hj]]%lookup_app_Some; [by eapply (ro_lates _ Hok)|].
  destruct (j - _)%nat; [|done]. injection Hj as <- <-. by split.
Qed.
Lemma registry_remove_ok k o r : registry_ok r → registry_ok (remove k o r).
Proof. intros Hok. unfold remove. destruct (shuttingDown r) eqn:Hs; [done|by apply serialize_ok]. Qed.
Lemma close_ok k code reason r : registry_ok r → registry_ok (close k code reason r).
Proof. intros Hok. unfold close. destruct (shuttingDown r) eqn:Hs; [done|by apply serialize_ok]. Qed.

(** The tail of a session is at or after each of its unsettled operations. *)
Lemma unsettled_tail m i t : mutex_ok m → tickets m !! i = Some t → state t ≠ Released →
  ∃ j u, tails m !! key t = Some j ∧ tickets m !! j = Some u ∧ key u = key t ∧ (i ≤ j)%nat.
Proof.
  intros Hok Ht Hs. destruct (tails m !! key t) as [j|] eqn:Hj.
  - destruct (ok_tail _ Hok _ _ Hj) as (u & Hu & Hk & Hno). exists j, u. split_and!; [done..|].
    destruct (decide (i ≤ j)%nat); [done|]. destruct (Hno i t); [lia|done|done].
  - destruct Hs. eapply (ok_no_tail _ Hok _ Hj); [by eapply lookup_lt_Some|done|done].
Qed.
Lemma closeAll_ok r : registry_ok r → registry_ok (closeAll r).
Proof.
  intros Hok. unfold closeAll. destruct (shuttingDown r) eqn:Hs; [done|].
  destruct (shutting_open r Hs) as [_ Hl].
  eapply (registry_frame r); try done; try apply Hok; [by apply same_owners| |].
  - split.
    { intros j ([k j'] & -> & Hj)%list_elem_of_fmap. apply elem_of_map_to_list in Hj.
      destruct (ok_tail _ (ro_mutex _ Hok) _ _ Hj) as (t & Ht & _). by eapply lookup_lt_Some. }
    intros i t Ht Hst. cbn in Ht. destruct (unsettled_tail _ i t (ro_mutex _ Hok) Ht Hst) as (j & u & Hj & Hu & Hk & Hij).
    exists j, u. split_and!; [|done..]. apply list_elem_of_fmap. exists (key t, j). split; [done|].
    by apply elem_of_map_to_list.
  - intros j o p Hj. by destruct (Hl j o p Hok).
Qed.

Lemma all_drained r l : registry_ok r → phase r = Draining l →
  forallb (is_released (queue r)) l = true → all_released r.
Proof.
  intros Hok Hp Hl i t Ht. destruct (decide (state t = Released)) as [|Hs]; [done|].
  pose proof (ro_phase _ Hok) as Hph. unfold phase_ok in Hph. rewrite Hp in Hph.
  destruct Hph as [_ Hph]. destruct (Hph i t Ht Hs) as (j & u & Hj & Hu & Hk & Hle).
  rewrite forallb_forall in Hl. specialize (Hl j). rewrite <-list_elem_of_In in Hl.
  specialize (Hl Hj). unfold is_released, settled in Hl. rewrite Hu in Hl. apply bool_decide_eq_true in Hl.
  destruct (decide (i = j)) as [->|Hne]; [congruence|].
  eapply (ok_started _ (ro_mutex _ Hok) j u Hu) with (j := i); [by rewrite Hl|lia|done|done].
Qed.
Lemma call_closes l r : foldl (λ r e, call_close e.2 1001 (js "server_shutdown") r) r l =
  Registry (owners r) (queue r) (operations r) (lates r) (phase r)
    (closes r ++ ((λ e : jsstr * nat, (e.2, 1001, js "server_shutdown")) <$> l)).
Proof.
  revert r. induction l as [|e l IH]; intros r; cbn [foldl fmap].
  - rewrite app_nil_r. by destruct r.
  - rewrite IH. cbn. by rewrite <-(assoc_L (++)).
Qed.
Lemma drained_ok r r' : registry_ok r → drained r = Some r' → registry_ok r'.
Proof.
  intros Hok. unfold drained. destruct (phase r) as [|l| |] eqn:Hp; try done. case_match eqn:Hl; [|done].
  intros [= <-]. rewrite call_closes. pose proof (all_drained r l Hok Hp Hl) as Hall.
  eapply (registry_frame r); try done; cbn; try apply Hok.
  - intros q Hq. unfold closed in *. cbn. rewrite !fmap_app. apply elem_of_app. by left.
  - by apply same_owners.
  - split_and!; [done|by rewrite length_fmap|apply Hok| |].
    + intros e He. unfold closed. cbn. rewrite !fmap_app. apply elem_of_app. right.
      apply list_elem_of_fmap. exists (e.2, 1001). split; [done|].
      apply list_elem_of_fmap. exists (e.2, 1001, js "server_shutdown"). split; [done|].
      apply list_elem_of_fmap. by exists e.
    + intros k o Hk. apply jm_get_elem, list_elem_of_lookup in Hk as [j Hj]. exists j.
      split; [done|]. rewrite list_lookup_fmap, Hj. done.
  - intros j o p Hj. destruct (ro_lates _ Hok j o p Hj) as [_ H]. split; [done|].
    intros Hne. destruct (H Hne) as [_ [? ?]]. congruence.
Qed.

Lemma owner_settled_ok j ok r r' : registry_ok r → owner_settled j ok r = Some r' → registry_ok r'.
Proof.
  intros Hok. unfold owner_settled. destruct (phase r) as [| |es rs|] eqn:Hp; try done.
  intros ([k o] & He & (x & Hx & Hs)%bind_Some)%bind_Some. destruct x; [done|]. injection Hs as <-.
  pose proof (ro_phase _ Hok) as Hph. unfold phase_ok in Hph. rewrite Hp in Hph.
  destruct Hph as (Hall & Hlen & Hnd & Hcl & Hown). cbn [fst snd].
  assert (closed o r) as Ho by (apply (Hcl (k, o)); by eapply list_elem_of_lookup_2).
  assert (∀ k' o', get k' (unregister k o r) = Some o' → get k' r = Some o' ∧ k' ≠ k) as Hg.
  { intros k' o'. unfold unregister. case_decide as Hk.
    - unfold get. cbn. intros H. destruct (decide (k' = k)) as [->|Hne].
      + by rewrite jm_get_delete_eq in H.
      + by rewrite jm_get_delete_ne in H.
    - intros H. split; [done|]. intros ->. destruct (Hown k o' H) as (n & Hn & _). destruct Hk.
      pose proof (NoDup_lookup es.*1 j n k Hnd) as Heq. rewrite !list_lookup_fmap, He, Hn in Heq.
      specialize (Heq eq_refl eq_refl) as <-. congruence. }
  assert (closes (unregister k o r) = closes r ∧ queue (unregister k o r) = queue r ∧
    operations (unregister k o r) = operations r ∧ lates (unregister k o r) = lates r ∧
    jm_wf (owners (unregister k o r))) as (Hc & Hq & Hops & Hla & Hwf).
  { unfold unregister. case_decide; [|by split_and!; try apply Hok].
    split_and!; [done..|]. apply jm_delete_wf, Hok. }
  eapply (registry_frame r); cbn [queue operations owners set_phase lates]; try congruence; try done.
  - rewrite Hq. apply Hok.
  - intros q. unfold closed. cbn. by rewrite Hc.
  - intros k' q Hk'. destruct (decide (Some q = get k' (unregister k o r))) as [H|H]; [by left|].
    right; left. unfold closed. cbn. rewrite Hc. fold (closed q r).
    destruct (Hown k' q Hk') as (n & Hn & _). apply (Hcl (k', q)). by eapply list_elem_of_lookup_2.
  - intros i t Ht Hs. by rewrite (Hall i t Ht) in Hs.
  - split_and!; [intros i t; cbn; rewrite Hq; apply Hall|by rewrite length_insert|done| |].
    + intros e. unfold closed. cbn. rewrite Hc. apply Hcl.
    + intros k' o' H. destruct (Hg k' o' H) as [H' Hne]. destruct (Hown k' o' H') as (n & Hn & Hr).
      exists n. split; [done|]. rewrite list_lookup_insert_ne; [done|]. intros ->. congruence.
  - intros n q p Hn. rewrite Hla in Hn. destruct (ro_lates _ Hok n q p Hn) as [_ H].
    split; [done|]. intros Hne. destruct (H Hne) as [_ [? ?]]. congruence.
Qed.

Lemma finish_shutdown_ok r r' : registry_ok r → finish_shutdown r = Some r' → registry_ok r'.
Proof.
  intros Hok. unfold finish_shutdown. destruct (phase r) as [| |es rs|] eqn:Hp; try done.
  case_match eqn:Hall; [|done]. intros [= <-].
  pose proof (ro_phase _ Hok) as Hph. unfold phase_ok in Hph. rewrite Hp in Hph.
  destruct Hph as (Hrel & Hlen & Hnd & Hcl & Hown).
  assert (owners r = []) as Hno.
  { destruct (owners r) as [|[k o] l] eqn:Ho; [done|]. destruct (Hown k o) as (j & _ & Hj).
    - unfold get. rewrite Ho. cbn. by rewrite decide_True.
    - rewrite forallb_forall in Hall. specialize (Hall None). rewrite <-list_elem_of_In in Hall.
      by specialize (Hall (list_elem_of_lookup_2 _ _ _ Hj)). }
  eapply (registry_frame r); try done; try apply Hok; [by apply same_owners|].
  intros j o p Hj. destruct (ro_lates _ Hok j o p Hj) as [_ H]. split; [done|].
  intros Hne. destruct (H Hne) as [? _]. split; [done|]. by eexists.
Qed.

Lemma late_start_ok j r r' : registry_ok r → late_start j r = Some r' → registry_ok r'.
Proof.
  intros Hok. unfold late_start. destruct (phase r) as [| | |ok] eqn:Hp; try done.
  destruct (lates r !! j) as [[o []]|] eqn:Hj; try done. intros [= <-].
  assert (∀ q, closed q r → closed q (call_close o 1001 (js "server_shutdown") r)) as Hc.
  { intros q Hq. unfold closed in *. cbn. rewrite !fmap_app. apply elem_of_app. by left. }
  pose proof (ro_phase _ Hok) as Hph. unfold phase_ok in Hph. rewrite Hp in Hph.
  eapply (registry_frame r); try done; try apply Hok; [by apply same_owners|by unfold phase_ok; cbn; rewrite Hp|].
  intros n q p. cbn. intros [(<- & [= <- <-] & _)|[Hne Hn]]%list_lookup_insert_Some.
  - split; [unfold shuttingDown; cbn; by rewrite Hp|]. intros _. split; [apply closed_call|by exists ok].
  - destruct (ro_lates _ Hok n q p Hn) as [? H]. split; [done|]. intros Hp'. destruct (H Hp') as [? ?].
    split; [by apply Hc|done].
Qed.
Lemma late_settled_ok j r r' : registry_ok r → late_settled j r = Some r' → registry_ok r'.
Proof.
  intros Hok. unfold late_settled. destruct (lates r !! j) as [[o []]|] eqn:Hj; try done. intros [= <-].
  eapply (registry_frame r); try done; try apply Hok; [by apply same_owners|].
  intros n q p. cbn. intros [(<- & [= <- <-] & _)|[Hne Hn]]%list_lookup_insert_Some.
  - destruct (ro_lates _ Hok _ _ _ Hj) as [? H]. split; [done|]. intros _. by apply H.
  - by apply (ro_lates _ Hok n q p Hn).
Qed.

Lemma registry_step_ok e r r' : registry_ok r → registry_step e r = Some r' → registry_ok r'.
Proof.
  intros Hok. destruct e; cbn [registry_step];
    try (intros [= <-]; auto using replace_ok, registry_remove_ok, close_ok, closeAll_ok).
  - by apply run_operation_ok.
  - by apply close_settled_ok.
  - by apply forget_queue_ok.
  - by apply drained_ok.
  - by apply owner_settled_ok.
  - by apply finish_shutdown_ok.
  - by apply late_start_ok.
  - by apply late_settled_ok.
Qed.
Lemma rsteps_ok r r' : rsteps r r' → registry_ok r → registry_ok r'.
Proof. induction 1 as [|r1 r2 r3 [e He] _ IH]; [done|]. intros Hok. eapply IH, registry_step_ok, He. done. Qed.

(** * Progress *)

(** Everything but a new call and the cleaning of the queue table. *)
Definition internal (e : registry_event) : bool :=
  match e with
  | CallReplace _ _ | CallRemove _ _ | CallClose _ _ _ | CallCloseAll | Forget _ => false
  | _ => true
  end.
(** Every promise that a method returned has settled. *)
Definition quiescent (r : registry) : Prop :=
  (∀ i o p, operations r !! i = Some (o, p) → ∃ ok, p = Settled ok) ∧
  (∀ j o p, lates r !! j = Some (o, p) → p = LateRejected) ∧
  (phase r = NotShutDown ∨ ∃ ok, phase r = ShutDown ok).

Lemma operation_progress i o p r : registry_ok r → operations r !! i = Some (o, p) →
  (∀ ok, p ≠ Settled ok) → ∃ e r', internal e = true ∧ registry_step e r = Some r'.
Proof.
  intros Hok Ho Hp. assert (is_Some (tickets (queue r) !! i)) as [t Ht].
  { apply lookup_lt_is_Some_2. rewrite <-(ro_length _ Hok). by eapply lookup_lt_Some. }
  pose proof (ro_state _ Hok i t o p Ht Ho) as Hs.
  destruct (mutex_progress _ i t (ro_mutex _ Hok) Ht) as (j & u & Hu & _ & Hj).
  { rewrite Hs. destruct p; try done. by destruct (Hp ok). }
  assert (is_Some (operations r !! j)) as [[o' p'] Ho'].
  { apply lookup_lt_is_Some_2. rewrite (ro_length _ Hok). by eapply lookup_lt_Some. }
  pose proof (ro_state _ Hok j u o' p' Hu Ho') as Hs'. destruct Hj as [Hj|[m Hm]].
  - rewrite Hj in Hs'. pose proof (ro_op _ Hok j u o' p' Hu Ho') as Hop.
    pose proof (await_running r j u o' p' Hok Hu Ho' (eq_sym Hs')) as Hrun.
    assert (is_Some (close_settled j true r)) as [r' Hr']; [|by exists (CloseSettled j true), r'].
    unfold close_settled. rewrite Hu. cbn. rewrite Ho'. cbn.
    destruct o', p'; try done; cbn [fst].
    + by destruct (running_settle _ _ _ _ _ _ true (running_register _ _ _ _ _ _ owner (Some prior) Hrun))
        as (? & -> & _).
    + by destruct (running_settle _ _ _ _ _ _ false Hrun) as (? & -> & _).
    + by destruct (running_settle _ _ _ _ _ _ true (running_unregister _ _ _ _ _ _ owner Hrun))
        as (? & -> & _).
  - destruct (run_running r j u o' p' m Hok Hu Ho' Hm) as [-> Hrun].
    assert (is_Some (run_operation j r)) as [r' Hr']; [|by exists (Run j), r'].
    unfold run_operation. rewrite Hu. cbn. rewrite Ho'. cbn. rewrite Hm. cbn.
    unfold begin. destruct o' as [q|q|code reason].
    + destruct (get _ _) as [prior|]; [case_decide; [|done]|].
      * by destruct (running_settle _ _ _ _ _ _ true (running_register _ _ _ _ _ _ q (Some prior) Hrun))
          as (? & -> & _).
      * by destruct (running_settle _ _ _ _ _ _ true (running_register _ _ _ _ _ _ q None Hrun))
          as (? & -> & _).
    + by destruct (running_settle _ _ _ _ _ _ true (running_unregister _ _ _ _ _ _ q Hrun))
        as (? & -> & _).
    + destruct (get _ _); [done|].
      by destruct (running_settle _ _ _ _ _ _ true Hrun) as (? & -> & _).
Qed.

Definition is_settled (p : progress) : bool := match p with Settled _ => true | _ => false end.
Definition is_rejected (p : late_phase) : bool := match p with LateRejected => true | _ => false end.

Lemma phase_progress r : registry_ok r → (∀ i o p, operations r !! i = Some (o, p) → is_settled p = true) →
  (phase r = NotShutDown ∨ ∃ ok, phase r = ShutDown ok) ∨
  ∃ e r', internal e = true ∧ registry_step e r = Some r'.
Proof.
  intros Hok Hall. pose proof (ro_phase _ Hok) as Hp. unfold phase_ok in Hp.
  destruct (phase r) as [|l|es rs|ok] eqn:Hph; [by auto| | |by eauto]; right.
  - eexists Drained, _. split; [done|]. cbn. unfold drained. rewrite Hph.
    replace (forallb _ l) with true; [done|]. symmetry. apply forallb_forall. intros j Hj.
    apply list_elem_of_In in Hj. destruct Hp as [Hlt _].
    destruct (lookup_lt_is_Some_2 _ _ (Hlt j Hj)) as [t Ht]. unfold is_released, settled. rewrite Ht.
    apply bool_decide_eq_true. apply Hlt in Hj. rewrite <-(ro_length _ Hok) in Hj.
    destruct (lookup_lt_is_Some_2 _ _ Hj) as [[o p] Ho].
    rewrite (ro_state _ Hok j t o p Ht Ho). specialize (Hall j o p Ho). by destruct p.
  - destruct Hp as (_ & Hlen & _).
    destruct (list_find (λ x : option bool, x = None) rs) as [[j x]|] eqn:Hf.
    + apply list_find_Some in Hf as (Hj & -> & _). pose proof (lookup_lt_Some _ _ _ Hj) as Hlt.
      rewrite <-Hlen in Hlt. destruct (lookup_lt_is_Some_2 _ _ Hlt) as [e He].
      eexists (OwnerSettled j true), _. split; [done|]. cbn. unfold owner_settled.
      rewrite Hph. rewrite He. cbn. by rewrite Hj.
    + eexists FinishShutdown, _. split; [done|]. cbn. unfold finish_shutdown. rewrite Hph.
      apply list_find_None in Hf. replace (forallb _ rs) with true; [done|].
      symmetry. apply forallb_forall. intros x Hx. apply list_elem_of_In in Hx.
      rewrite Forall_forall in Hf. specialize (Hf x Hx). by destruct x.
Qed.

Lemma registry_progress r : registry_ok r →
  quiescent r ∨ ∃ e r', internal e = true ∧ registry_step e r = Some r'.
Proof.
  intros Hok.
  destruct (list_find (λ x, is_settled x.2 = false) (operations r)) as [[i [o p]]|] eqn:Ho.
  { apply list_find_Some in Ho as (Ho & Hs & _). right. eapply operation_progress; [done..|].
    intros ok ->. done. }
  assert (∀ i o p, operations r !! i = Some (o, p) → is_settled p = true) as Hall.
  { intros i o p Hi. apply list_find_None in Ho. rewrite Forall_lookup in Ho.
    by apply not_false_is_true, (Ho i _ Hi). }
  destruct (phase_progress r Hok Hall) as [Hph|?]; [|by right].
  destruct (list_find (λ x, is_rejected x.2 = false) (lates r)) as [[j [o p]]|] eqn:Hl.
  - apply list_find_Some in Hl as (Hl & Hs & _). right.
    destruct (ro_lates _ Hok j o p Hl) as [Hsh _].
    destruct Hph as [Hph|[ok Hph]]; [by unfold shuttingDown in Hsh; rewrite Hph in Hsh|].
    destruct p; [|by eexists (LateSettled j), _; split; [done|]; cbn; unfold late_settled; rewrite Hl|done].
    eexists (LateStart j), _. split; [done|]. cbn. unfold late_start. by rewrite Hph, Hl.
  - left. split_and!; [| |done].
    + intros i o p Hi. specialize (Hall i o p Hi). destruct p; try done. by eexists.
    + intros j o p Hj. apply list_find_None in Hl. rewrite Forall_lookup in Hl.
      specialize (Hl j _ Hj). cbn in Hl. by destruct p.
Qed.

(** * Termination *)

Definition weight (p : progress) : nat :=
  match p with Queued => 4 | AwaitPrior _ => 3 | AwaitClose _ => 2 | AwaitReject => 1 | Settled _ => 0 end.
Definition late_weight (p : late_phase) : nat :=
  match p with LateWaiting => 2 | LateClosing => 1 | LateRejected => 0 end.
Definition result_weight (x : option bool) : nat := match x with None => 1 | Some _ => 0 end.
Definition phase_weight (r : registry) : nat :=
  match phase r with
  | NotShutDown | ShutDown _ => 0
  | Draining _ => length (owners r) + 2
  | ClosingOwners _ rs => sum_list_with result_weight rs + 1
  end.
Definition remaining (r : registry) : nat :=
  sum_list_with (λ x, weight x.2) (operations r) + sum_list_with (λ x, late_weight x.2) (lates r) +
  phase_weight r.

Lemma sum_insert {A} (f : A → nat) l i x y : l !! i = Some x →
  (sum_list_with f (<[i := y]> l) + f x = sum_list_with f l + f y)%nat.
Proof.
  revert i. induction l as [|a l IH]; intros [|i] Hi; simplify_eq/=; [lia|].
  specialize (IH i Hi). lia.
Qed.
Lemma remaining_operation r r' i o p p' : operations r !! i = Some (o, p) →
  operations r' = <[i := (o, p')]> (operations r) → lates r' = lates r → phase r' = phase r →
  (weight p' < weight p)%nat →
  (length (owners r') + weight p' < length (owners r) + weight p)%nat →
  (remaining r' < remaining r)%nat.
Proof.
  intros Ho Ho' Hl Hp Hw Hn. unfold remaining, phase_weight. rewrite Ho', Hl, Hp.
  pose proof (sum_insert (λ x, weight x.2) _ i _ (o, p') Ho) as Hs. cbn in Hs.
  destruct (phase r); lia.
Qed.

Lemma settle_fields i o b r r' : settle i o b r = Some r' → owners r' = owners r ∧
  operations r' = <[i := (o, Settled b)]> (operations r) ∧ lates r' = lates r ∧ phase r' = phase r ∧
  closes r' = closes r.
Proof. unfold settle. intros (m & _ & [= <-])%bind_Some. done. Qed.
Lemma register_fields k o x r : operations (register k o x r) = operations r ∧
  lates (register k o x r) = lates r ∧ phase (register k o x r) = phase r ∧
  (length (owners (register k o x r)) ≤ length (owners r) + 1)%nat.
Proof.
  unfold register. case_decide; cbn; split_and!; try done; [|lia]. rewrite jm_length_set.
  case_decide; lia.
Qed.
Lemma unregister_fields k o r : operations (unregister k o r) = operations r ∧
  lates (unregister k o r) = lates r ∧ phase (unregister k o r) = phase r ∧
  (length (owners (unregister k o r)) ≤ length (owners r))%nat.
Proof.
  unfold unregister. case_decide; cbn; split_and!; try done. apply jm_length_delete_le.
Qed.

(** How an operation that settles as a success got its owner registered. *)
Definition installed (e : registry_event) (i : nat) (k : jsstr) (o : operation) (r r' : registry) : Prop :=
  match o with
  | Replace q => get k r' = Some q ∧
      (e = Run i ∧ (get k r = None ∨ get k r = Some q) ∨
       e = CloseSettled i true ∧ ∃ q', q' ≠ q ∧ get k r = Some q' ∧ closed q' r)
  | _ => True
  end.
(** What a step of operation [i] does. *)
Definition effect (e : registry_event) (i : nat) (r r' : registry) : Prop := ∃ t o p p',
  tickets (queue r) !! i = Some t ∧ operations r !! i = Some (o, p) ∧
  operations r' = <[i := (o, p')]> (operations r) ∧ lates r' = lates r ∧ phase r' = phase r ∧
  (weight p' < weight p)%nat ∧
  (length (owners r') + weight p' < length (owners r) + weight p)%nat ∧
  (p' = Settled true → installed e i (key t) o r r').

Lemma run_effect i r r' : registry_ok r → run_operation i r = Some r' → effect (Run i) i r r'.
Proof.
  intros Hok (t & Ht & ([o p] & Ho & (m & Hm & Hb)%bind_Some)%bind_Some)%bind_Some.
  destruct (run_running r i t o p m Hok Ht Ho Hm) as [-> _]. exists t, o, Queued.
  set (r1 := set_queue m r) in *.
  assert (operations r1 = operations r ∧ lates r1 = lates r ∧ phase r1 = phase r ∧
    owners r1 = owners r ∧ get (key t) r1 = get (key t) r) as (Eo & El & Ep & Ew & Eg) by done.
  destruct o as [q|q|code reason]; cbn [begin fst] in Hb.
  - assert (∀ x, get (key t) r1 = x → x = None ∨ x = Some q →
      settle i (Replace q) true (register (key t) q x r1) = Some r' →
      ∃ p', operations r' = <[i:=(Replace q, p')]> (operations r) ∧ lates r' = lates r ∧
        phase r' = phase r ∧ (weight p' < 4)%nat ∧
        (length (owners r') + weight p' < length (owners r) + 4)%nat ∧
        (p' = Settled true → installed (Run i) i (key t) (Replace q) r r')) as Hgo.
    { intros x Hx Hq Hs. pose proof (settled_held (key t) _ q _ _ _ _ Hs (get_register _ q _ _ Hx)) as Hg.
      apply settle_fields in Hs as (Hw & Hop & Hl & Hp & _).
      destruct (register_fields (key t) q x r1) as (Ro & Rl & Rp & Rw).
      exists (Settled true). rewrite Hop, Hl, Hp, Hw, Ro, Rl, Rp. rewrite Ew in Rw.
      split_and!; try done; cbn [weight]; [lia|lia|]. intros _. split; [done|]. left.
      rewrite <-Eg, Hx. done. }
    destruct (get (key t) r1) as [prior|] eqn:Hp; [case_decide as Heq|].
    + destruct (Hgo (Some prior)) as (p' & ?); [done|right; congruence|done|]. by exists p'.
    + injection Hb as <-. exists (AwaitPrior prior). cbn. split_and!; try done; lia.
    + destruct (Hgo None) as (p' & ?); [done|by left|done|]. by exists p'.
  - apply settle_fields in Hb as (Hw & Hop & Hl & Hp & _).
    destruct (unregister_fields (key t) q r1) as (Ro & Rl & Rp & Rw). rewrite Ew in Rw.
    exists (Settled true). rewrite Hop, Hl, Hp, Hw, Ro, Rl, Rp. split_and!; try done; cbn [weight]; lia.
  - destruct (get (key t) r1) as [x|] eqn:Hp.
    + injection Hb as <-. exists (AwaitClose x). cbn. split_and!; try done; lia.
    + apply settle_fields in Hb as (Hw & Hop & Hl & Hph & _).
      exists (Settled true). rewrite Hop, Hl, Hph, Hw. split_and!; try done; cbn [weight]; try lia.
      cbn. lia.
Qed.

Lemma close_effect i ok r r' : registry_ok r → close_settled i ok r = Some r' →
  effect (CloseSettled i ok) i r r'.
Proof.
  intros Hok (t & Ht & ([o p] & Ho & Hs)%bind_Some)%bind_Some.
  pose proof (ro_op _ Hok i t o p Ht Ho) as Hop. exists t, o, p.
  destruct o as [q|q|code reason], p as [|prior| |c|b]; try done; cbn [fst op_ok] in *.
  - destruct Hop as (Hg & Hne & Hc). destruct ok.
    + pose proof (settled_held (key t) _ q _ _ _ _ Hs (get_register _ q _ _ Hg)) as Hg'.
      apply settle_fields in Hs as (Hw & Ho' & Hl & Hp & _).
      destruct (register_fields (key t) q (Some prior) r) as (Ro & Rl & Rp & Rw).
      exists (Settled true). rewrite Ho', Hl, Hp, Hw, Ro, Rl, Rp.
      split_and!; try done; cbn [weight]; [lia|lia|]. intros _. split; [done|]. right.
      split; [done|]. by exists prior.
    + injection Hs as <-. exists AwaitReject. cbn. split_and!; try done; lia.
  - apply settle_fields in Hs as (Hw & Ho' & Hl & Hp & _).
    exists (Settled false). rewrite Ho', Hl, Hp, Hw. split_and!; try done; cbn [weight]; lia.
  - destruct ok.
    + apply settle_fields in Hs as (Hw & Ho' & Hl & Hp & _).
      destruct (unregister_fields (key t) c r) as (Ro & Rl & Rp & Rw).
      exists (Settled true). rewrite Ho', Hl, Hp, Hw, Ro, Rl, Rp. split_and!; try done; cbn [weight]; lia.
    + apply settle_fields in Hs as (Hw & Ho' & Hl & Hp & _).
      exists (Settled false). rewrite Ho', Hl, Hp, Hw. split_and!; try done; cbn [weight]; lia.
Qed.

(** The operation that an event is a step of. *)
Definition operation_events (e : registry_event) : option nat :=
  match e with Run i | CloseSettled i _ => Some i | _ => None end.
Lemma operation_effect e i r r' : operation_events e = Some i → registry_ok r →
  registry_step e r = Some r' → effect e i r r'.
Proof. destruct e; try done; intros [= <-] Hok; [by apply run_effect|by apply close_effect]. Qed.
(** Other events at most append an operation. *)
Lemma operations_grow e r r' : operation_events e = None → registry_step e r = Some r' →
  ∃ l, operations r' = operations r ++ l.
Proof.
  assert (∀ r0, operations r0 = operations r → ∃ l, operations r0 = operations r ++ l) as Hsame.
  { intros r0 ->. exists []. by rewrite app_nil_r. }
  destruct e; try done; cbn [registry_step]; intros _.
  - intros [= <-]. unfold replace. case_match; [by apply Hsame|by eexists].
  - intros [= <-]. unfold remove. case_match; [by apply Hsame|by eexists].
  - intros [= <-]. unfold close. case_match; [by apply Hsame|by eexists].
  - intros [= <-]. apply Hsame. unfold closeAll. by case_match.
  - intros (m & _ & [= <-])%bind_Some. by apply Hsame.
  - unfold drained. case_match; try done. case_match; [|done]. intros [= <-].
    apply Hsame. by rewrite call_closes.
  - unfold owner_settled. case_match; try done.
    intros (e & _ & (x & _ & Hs)%bind_Some)%bind_Some. destruct x; [done|]. injection Hs as <-.
    apply Hsame. apply (unregister_fields e.1 e.2 r).
  - unfold finish_shutdown. intros H. apply Hsame. repeat case_match; naive_solver.
  - unfold late_start. intros H. apply Hsame. repeat case_match; naive_solver.
  - unfold late_settled. intros H. apply Hsame. repeat case_match; naive_solver.
Qed.

Lemma internal_decreases e r r' : registry_ok r → internal e = true → registry_step e r = Some r' →
  (remaining r' < remaining r)%nat.
Proof.
  intros Hok. destruct e as [| | | |i|i ok| | |j ok| |j|j]; try done; intros _; cbn [registry_step].
  - intros (t & o & p & p' & _ & ? & ? & ? & ? & ? & ? & _)%run_effect; [|done].
    by eapply remaining_operation.
  - intros (t & o & p & p' & _ & ? & ? & ? & ? & ? & ? & _)%close_effect; [|done].
    by eapply remaining_operation.
  - unfold drained. destruct (phase r) as [|l| |] eqn:Hp; try done. case_match; [|done].
    intros [= <-]. rewrite call_closes. unfold remaining, phase_weight. rewrite Hp. cbn.
    assert (∀ l : list (jsstr * nat), sum_list_with result_weight ((λ _, None) <$> l) = length l) as ->.
    { intros es. induction es; cbn; [done|]. by rewrite IHes. }
    lia.
  - unfold owner_settled. destruct (phase r) as [| |es rs|] eqn:Hp; try done.
    intros (e & He & (x & Hx & Hs)%bind_Some)%bind_Some. destruct x; [done|]. injection Hs as <-.
    destruct (unregister_fields e.1 e.2 r) as (Ro & Rl & _ & _).
    unfold remaining, phase_weight. cbn. rewrite Ro, Rl, Hp.
    pose proof (sum_insert result_weight rs j None (Some ok) Hx) as Hsum. cbn in Hsum. lia.
  - unfold finish_shutdown. destruct (phase r) as [| |es rs|] eqn:Hp; try done. case_match; [|done].
    intros [= <-]. unfold remaining, phase_weight. cbn. rewrite Hp. lia.
  - unfold late_start. destruct (phase r) as [| | |ok] eqn:Hp; try done.
    destruct (lates r !! j) as [[o []]|] eqn:Hj; try done. intros [= <-].
    unfold remaining, phase_weight. cbn. rewrite Hp.
    pose proof (sum_insert (λ x, late_weight x.2) _ j _ (o, LateClosing) Hj) as Hsum. cbn in Hsum. lia.
  - unfold late_settled. destruct (lates r !! j) as [[o []]|] eqn:Hj; try done. intros [= <-].
    unfold remaining, phase_weight. cbn.
    pose proof (sum_insert (λ x, late_weight x.2) _ j _ (o, LateRejected) Hj) as Hsum. cbn in Hsum.
    destruct (phase r); lia.
Qed.

(** * After the shutdown *)

Lemma shut_down_step e r r' ok : registry_ok r → phase r = ShutDown ok →
  registry_step e r = Some r' → phase r' = ShutDown ok.
Proof.
  intros Hok Hp. assert (∀ e i r', effect e i r r' → False) as Hno.
  { intros e0 i r0 (t & o & p & p' & Ht & Ho & _ & _ & _ & Hw & _).
    pose proof (ro_phase _ Hok) as Hph. unfold phase_ok in Hph. rewrite Hp in Hph.
    destruct Hph as [Hall _]. specialize (Hall i t Ht). rewrite (ro_state _ Hok i t o p Ht Ho) in Hall.
    destruct p; try done. cbn in Hw. lia. }
  destruct e; cbn [registry_step].
  - intros [= <-]. unfold replace, shuttingDown. rewrite Hp. done.
  - intros [= <-]. unfold remove, shuttingDown. by rewrite Hp.
  - intros [= <-]. unfold close, shuttingDown. by rewrite Hp.
  - intros [= <-]. unfold closeAll, shuttingDown. by rewrite Hp.
  - intros H%run_effect; [|done]. by destruct (Hno _ _ _ H).
  - intros H%close_effect; [|done]. by destruct (Hno _ _ _ H).
  - by intros (m & _ & [= <-])%bind_Some.
  - unfold drained. by rewrite Hp.
  - unfold owner_settled. by rewrite Hp.
  - unfold finish_shutdown. by rewrite Hp.
  - unfold late_start. rewrite Hp. destruct (lates r !! j) as [[? []]|]; naive_solver.
  - unfold late_settled. destruct (lates r !! j) as [[? []]|]; naive_solver.
Qed.
Lemma shut_down_steps r r' ok : rsteps r r' → registry_ok r → phase r = ShutDown ok →
  phase r' = ShutDown ok.
Proof.
  induction 1 as [|r1 r2 r3 [e He] _ IH]; [done|]. intros Hok Hp.
  apply IH; [by eapply registry_step_ok|by eapply shut_down_step].
Qed.
(** A shutdown admits no further operation. *)
Lemma shutting_step e r r' : registry_ok r → shuttingDown r = true → registry_step e r = Some r' →
  shuttingDown r' = true ∧ length (operations r') = length (operations r).
Proof.
  intros Hok Hs. assert (∀ e i r', effect e i r r' → shuttingDown r' = true ∧
    length (operations r') = length (operations r)) as Heff.
  { intros e0 i r0 (t & o & p & p' & _ & _ & -> & _ & Hp & _).
    unfold shuttingDown in *. by rewrite Hp, length_insert. }
  destruct e; cbn [registry_step].
  - intros [= <-]. unfold replace. by rewrite Hs.
  - intros [= <-]. unfold remove. by rewrite Hs.
  - intros [= <-]. unfold close. by rewrite Hs.
  - intros [= <-]. unfold closeAll. by rewrite Hs.
  - intros H%run_effect; [|done]. by eapply Heff.
  - intros H%close_effect; [|done]. by eapply Heff.
  - by intros (m & _ & [= <-])%bind_Some.
  - unfold drained. destruct (phase r) eqn:Hp; try done. case_match; [|done].
    intros [= <-]. by rewrite call_closes.
  - unfold owner_settled. destruct (phase r) as [| |es rs|] eqn:Hp; try done.
    intros (e & He & (x & Hx & Hr)%bind_Some)%bind_Some. destruct x; [done|]. injection Hr as <-.
    destruct (unregister_fields e.1 e.2 r) as (Ro & _). split; [done|]. cbn. by rewrite Ro.
  - unfold finish_shutdown. destruct (phase r); try done. case_match; [|done]. by intros [= <-].
  - unfold late_start. destruct (phase r) eqn:Hp; try done.
    destruct (lates r !! j) as [[? []]|]; try done. intros [= <-]. split; [|done].
    unfold shuttingDown. cbn. by rewrite Hp.
  - unfold late_settled. destruct (lates r !! j) as [[? []]|]; try done. by intros [= <-].
Qed.
Lemma shutting_steps r r' : rsteps r r' → registry_ok r → shuttingDown r = true →
  shuttingDown r' = true ∧ length (operations r') = length (operations r).
Proof.
  induction 1 as [|r1 r2 r3 [e He] _ IH]; [done|]. intros Hok Hs.
  destruct (shutting_step e r1 r2 Hok Hs He) as [Hs2 <-].
  apply IH; [by eapply registry_step_ok|done].
Qed.

(** * Snapshots *)

Lemma elem_of_snapshots owner_pid r seen ids x : x ∈ snapshot_loop owner_pid r seen ids ↔
  ∃ id o, x = Snapshot id (ownerPid owner_pid o) ∧ id ∈ ids ∧ isSessionId id = true ∧ id ∉ seen ∧
    get id r = Some o.
Proof.
  revert seen. induction ids as [|id ids IH]; intros seen; cbn [snapshot_loop].
  { split; [by intros ?%elem_of_nil|]. intros (id & o & _ & ?%elem_of_nil & _). done. }
  destruct (negb (isSessionId id) || bool_decide (id ∈ seen)) eqn:Hskip.
  { rewrite IH. setoid_rewrite elem_of_cons. apply orb_true_iff in Hskip.
    split; [naive_solver|]. intros (id' & o & -> & [->|Hid] & Hv & Hs & Hg); [|by exists id', o].
    destruct Hskip as [Hk|Hk]; [by rewrite Hv in Hk|by apply bool_decide_eq_true in Hk]. }
  breflect. assert (∀ id', id' ∉ js_add id seen ↔ id' ≠ id ∧ id' ∉ seen) as Hadd.
  { intros id'. rewrite elem_of_js_add. naive_solver. }
  destruct (get id r) as [o|] eqn:Hg; [rewrite elem_of_cons|]; rewrite IH; setoid_rewrite elem_of_cons;
    setoid_rewrite Hadd.
  - split.
    + intros [->|(id' & o' & ? & ? & ? & [? ?] & ?)]; [exists id, o|exists id', o']; naive_solver.
    + intros (id' & o' & -> & Hid & Hv & Hs & Hg'). destruct (decide (id' = id)) as [->|Hne];
        [left; congruence|right]. exists id', o'. naive_solver.
  - split; [naive_solver|]. intros (id' & o' & -> & Hid & Hv & Hs & Hg').
    exists id', o'. destruct (decide (id' = id)) as [->|Hne]; [congruence|naive_solver].
Qed.
Lemma snapshots_NoDup owner_pid r seen ids :
  NoDup (snapshot_session <$> snapshot_loop owner_pid r seen ids).
Proof.
  revert seen. induction ids as [|id ids IH]; intros seen; cbn [snapshot_loop]; [constructor|].
  repeat case_match; try done. cbn. constructor; [|done].
  intros (x & Hx & Hin)%list_elem_of_fmap. apply elem_of_snapshots in Hin as (id' & o & -> & _ & _ & Hs & _).
  cbn in Hx. subst id'. apply Hs, elem_of_js_add. by left.
Qed.

Lemma reachable_ok r : rsteps new_registry r → registry_ok r.
Proof. intros Hr. eapply rsteps_ok; [done|apply new_registry_ok]. Qed.

(** C35: the registry keeps custody of every owner it was given, in every
    reachable state: the owner of a [replace] that resolved is registered, has
    been told to close, or was removed; the owner of one that rejected has been
    told to close, also when the registry was shutting down; a [replace]
    resolves exactly when its owner has just become the registered one, either
    at once over no other owner or after the close of the prior one succeeded;
    two operations of one session never overlap; and a snapshot of some
    sessions lists once each, in at most twenty entries, exactly the valid and
    registered ones among the first twenty. *)
Theorem registry_custody (r : registry) : rsteps new_registry r →
  (∀ i t o ok, tickets (queue r) !! i = Some t → operations r !! i = Some (Replace o, Settled ok) →
     if ok : bool then get (key t) r = Some o ∨ closed o r ∨ removed (key t) o r else closed o r) ∧
  (∀ j o, lates r !! j = Some (o, LateRejected) → closed o r) ∧
  (∀ e r' i t o p, registry_step e r = Some r' → tickets (queue r) !! i = Some t →
     operations r !! i = Some (Replace o, p) → p ≠ Settled true →
     operations r' !! i = Some (Replace o, Settled true) → get (key t) r' = Some o ∧
       (e = Run i ∧ (get (key t) r = None ∨ get (key t) r = Some o) ∨
        e = CloseSettled i true ∧ ∃ q, q ≠ o ∧ get (key t) r = Some q ∧ closed q r)) ∧
  (∀ i j t u, tickets (queue r) !! i = Some t → tickets (queue r) !! j = Some u → key t = key u →
     state t = Running → state u = Running → i = j) ∧
  (∀ owner_pid ids, let l := snapshotFor owner_pid r (Some ids) in
     NoDup (snapshot_session <$> l) ∧ (∀ x, x ∈ l ↔ ∃ id o, x = Snapshot id (ownerPid owner_pid o) ∧
       id ∈ take MAX_RUNTIME_SNAPSHOTS ids ∧ isSessionId id = true ∧ get id r = Some o)).
Proof.
  intros Hr. pose proof (reachable_ok r Hr) as Hok. split_and!.
  - intros i t o ok Ht Ho. pose proof (ro_op _ Hok i t _ _ Ht Ho) as H. by destruct ok.
  - intros j o Hj. by apply (ro_lates _ Hok j o _ Hj).
  - intros e r' i t o p He Ht Ho Hp Ho'.
    assert (∀ n, effect e n r r' → installed e i (key t) (Replace o) r r') as Hgo.
    { intros n (t' & o' & x & x' & Ht' & Hx & Hx' & _ & _ & _ & _ & Hi).
      destruct (decide (n = i)) as [->|Hne]; [|rewrite Hx', list_lookup_insert_ne in Ho'; congruence].
      rewrite Hx', list_lookup_insert_eq in Ho' by by eapply lookup_lt_Some.
      injection Ho' as -> ->. assert (t' = t) as -> by congruence. by apply Hi. }
    destruct (operation_events e) as [n|] eqn:Hn.
    + apply (Hgo n); by apply (operation_effect e n r).
    + destruct (operations_grow e r r' Hn He) as [l Hl]. rewrite Hl, lookup_app_l in Ho'; [congruence|].
      by eapply lookup_lt_Some.
  - intros i j t u. by apply running_unique, Hok.
  - intros owner_pid ids. split; [apply snapshots_NoDup|]. intros x. cbn [snapshotFor].
    rewrite elem_of_snapshots. split; intros (id & o & ? & ? & ? & H); exists id, o;
      [by destruct H|]. split_and!; try done. apply not_elem_of_nil.
Qed.

(** A shutdown of the registry ends, with nothing registered.  In every
    reachable state either every promise that a method returned has settled, or
    some step other than a new call is possible; every such step brings the
    end nearer, so that finitely many of them settle all promises once the
    owners' own [close] promises settle.  From [closeAll] on no operation is
    admitted; when its promise has settled no owner is registered, every owner
    that was ever registered was told to close or removed, and this stays so
    whatever is called afterwards. *)
Theorem registry_shutdown (r : registry) : rsteps new_registry r →
  (quiescent r ∨ ∃ e r', internal e = true ∧ registry_step e r = Some r') ∧
  (∀ e r', internal e = true → registry_step e r = Some r' → (remaining r' < remaining r)%nat) ∧
  (shuttingDown r = true → ∀ r', rsteps r r' →
     shuttingDown r' = true ∧ length (operations r') = length (operations r)) ∧
  (∀ ok, phase r = ShutDown ok →
     (∀ i t o b, tickets (queue r) !! i = Some t → operations r !! i = Some (Replace o, Settled b) →
        closed o r ∨ removed (key t) o r) ∧
     ∀ r', rsteps r r' → phase r' = ShutDown ok ∧ owners r' = []).
Proof.
  intros Hr. pose proof (reachable_ok r Hr) as Hok. split_and!.
  - by apply registry_progress.
  - intros e r'. by apply internal_decreases.
  - intros Hs r' Hr'. by apply shutting_steps.
  - intros ok Hp. pose proof (ro_phase _ Hok) as Hph. unfold phase_ok in Hph. rewrite Hp in Hph.
    destruct Hph as [_ Hno]. split.
    + intros i t o b Ht Ho. pose proof (ro_op _ Hok i t _ _ Ht Ho) as H. destruct b; cbn in H; [|by left].
      destruct H as [H|H]; [|done]. unfold get in H. by rewrite Hno in H.
    + intros r' Hr'. pose proof (shut_down_steps r r' ok Hr' Hok Hp) as Hp'. split; [done|].
      pose proof (ro_phase _ (rsteps_ok r r' Hr' Hok)) as Hph. unfold phase_ok in Hph.
      rewrite Hp' in Hph. by destruct Hph.
Qed.

(** Two bridges of one session, and a third that comes during the shutdown. *)
Definition run_events (es : list registry_event) (r : registry) : option registry :=
  foldl (λ o e, o ≫= registry_step e) (Some r) es.
Lemma run_events_rsteps es r r' : run_events es r = Some r' → rsteps r r'.
Proof.
  unfold run_events. revert r. induction es as [|e es IH]; intros r; cbn.
  { intros [= ->]. apply rtc_refl. }
  destruct (registry_step e r) as [r1|] eqn:He.
  - intros H. eapply rtc_l; [by exists e|]. by apply IH.
  - intros H. exfalso. revert H. clear. by induction es.
Qed.
Definition sample_id : jsstr := js "0f8fad5b-d9cb-469f-a165-70867728950e".
Definition sample_replaced : list registry_event :=
  [CallReplace sample_id 1; CallReplace sample_id 2; Run 0; Forget 0; Run 1].
Definition sample_events : list registry_event :=
  sample_replaced ++ [CloseSettled 1 true; CallCloseAll; CallReplace sample_id 3; Drained;
    OwnerSettled 0 false; FinishShutdown; LateStart 0; LateSettled 0].
Definition sample_awaiting : registry := default new_registry (run_events sample_replaced new_registry).
Definition sample_registry : registry := default new_registry (run_events sample_events new_registry).

Example sample_closes : closes sample_registry =
  [(1%nat, 4001, js "session_replaced"); (2%nat, 1001, js "server_shutdown");
   (3%nat, 1001, js "server_shutdown")] ∧ phase sample_registry = ShutDown false.
Proof. by vm_compute. Qed.

Theorem registry_custody_witness : rsteps new_registry sample_awaiting ∧
  ∃ r', registry_step (CloseSettled 1 true) sample_awaiting = Some r' ∧ get sample_id r' = Some 2%nat.
Proof.
  assert (rsteps new_registry sample_awaiting) as Hr.
  { apply (run_events_rsteps sample_replaced). vm_compute. reflexivity. }
  split; [exact Hr|]. eexists. split; [vm_compute; reflexivity|].
  refine (proj1 (proj1 (proj2 (proj2 (registry_custody sample_awaiting Hr))) (CloseSettled 1 true) _ 1%nat
    (Ticket sample_id (Some 0%nat) Running) 2%nat (AwaitPrior 1) _ _ _ _ _));
    first [vm_compute; reflexivity|discriminate].
Defined.
Theorem registry_shutdown_witness : rsteps new_registry sample_registry ∧
  ∀ r', rsteps sample_registry r' → owners r' = [].
Proof.
  assert (rsteps new_registry sample_registry) as Hr.
  { apply (run_events_rsteps sample_events). vm_compute. reflexivity. }
  split; [exact Hr|]. intros r' Hr'.
  refine (proj2 (proj2 (proj2 (proj2 (proj2 (registry_shutdown sample_registry Hr))) false _) r' Hr')).
  vm_compute. reflexivity.
Defined.
