(* ===== verification/SessionManager.v ===== *)
(** [apps/server/src/session-manager.ts]: the class [SessionManager].

    Each method is a program over calls to the store, the runtime, the bridge
    registry, the PTY and bridge factories, the activity marker, the settings
    provider and the eligibility reader.  The handler of the calls may change
    the manager's own state too: the methods of other tabs, and [authorize],
    run while a call is awaited.  Methods of one tab exclude each other
    ([KeyedMutex], in the file [KeyedMutex]). *)
From S2P Require Import Prelude SafeString Tabs Protocol Eligibility.
Open Scope Z_scope.

Definition MAX_RUNTIME_SHELL_BYTES : Z := 4096.
Definition MAX_RUNTIME_HISTORY_LIMIT : Z := 1000000.

Record TerminalDimensions := { cols : Z; rows : Z }.
Record SessionRuntimeSettings := { shell : jsstr; historyLimit : Z }.

(** Object identities. *)
Abbreviation socket_ref := nat.
Abbreviation bridge_ref := nat.
Abbreviation pty_ref := nat.

(** A token object; [token_ref] is its identity, its fields are frozen. *)
Record AttachToken := { token_ref : nat; token_session : jsstr; token_generation : Z }.
#[export] Instance AttachToken_eq_dec : EqDecision AttachToken.
Proof. solve_decision. Defined.

Record ConnectRequest := {
  request_session : jsstr;
  request_socket : socket_ref;
  request_dimensions : TerminalDimensions;
}.

Inductive error :=
| invalid_connection
| stale_attach
| tab_not_found
| invalid_session_state
| operation_failed (view : option TabView)
| foreign.   (** an error of a dependency *)

(** Which optional dependencies the manager was given. *)
Record SessionManagerOptions := {
  has_store : bool;
  has_activity : bool;
  preparer_is_controller : bool;
  has_runtimeSettings : bool;
  has_cleanupEligibility : bool;
}.

Definition compatibilityMode (o : SessionManagerOptions) : bool :=
  negb (has_store o) && negb (has_activity o).

Record manager := Manager {
  generations : gmap jsstr Z;
  generationClock : Z;
  issuedTokens : list AttachToken;
}.
Definition new_manager : manager := Manager ∅ 0 [].

Inductive ev :=
| Store_has (id : jsstr)
| Store_snapshot
| Store_setDesiredState (id : jsstr) (d : DesiredState)
| Store_remove (id : jsstr)
| Runtime_exists (id : jsstr)
| Runtime_prepare (id : jsstr) (s : option SessionRuntimeSettings)
| Runtime_kill (id : jsstr)
| Runtime_list
| Registry_get (id : jsstr)
| Registry_entries
| Registry_close (id : jsstr) (code : option (Z * jsstr))
| Registry_replace (id : jsstr) (b : bridge_ref)
| Pty_spawn (id : jsstr) (d : TerminalDimensions)
| Bridge_create (id : jsstr) (s : socket_ref) (p : pty_ref)
| Activity_mark (id : jsstr)
| Settings_current
| Eligibility_read (r : EligibilityRequest).

Definition resp (e : ev) : Type :=
  match e with
  | Store_has _ => bool
  | Store_snapshot => PersistedTabsDocument
  | Runtime_exists _ => bool
  | Runtime_list => list jsstr
  | Registry_get _ => option bridge_ref
  | Registry_entries => list (jsstr * option Z)
  | Pty_spawn _ _ => pty_ref
  | Bridge_create _ _ _ => bridge_ref
  | Settings_current => SessionRuntimeSettings
  | Eligibility_read _ => EligibilitySnapshot
  | _ => unit
  end.

(** * Pure helpers *)

Definition isValidDimensions (d : TerminalDimensions) : bool :=
  (MIN_COLS <=? cols d) && (cols d <=? MAX_COLS) &&
  (MIN_ROWS <=? rows d) && (rows d <=? MAX_ROWS).

Definition findRecord (d : PersistedTabsDocument) (id : jsstr) : option TabRecord :=
  snd <$> list_find (λ t, tab_id t = id) (tabs d).

(** [validCleanupReason] holds of every value of the type. *)
Definition isValidEligibilityCapture (id : jsstr) (s : EligibilitySnapshot) : bool :=
  isSessionId id && bool_decide (snap_id s = id) &&
  is_safe_integer (snap_thresholdMs s) && (0 <=? snap_thresholdMs s) &&
  is_safe_integer (snap_cutoffMs s) &&
  (if eligible s then bool_decide (reason s = None) else negb (bool_decide (reason s = None))) &&
  validGeneration (structure (snap_generation s)) &&
  validGeneration (activity_gen (snap_generation s)) &&
  validGeneration (sockets_gen (snap_generation s)).

Definition viewFromRecord (t : TabRecord) (h : SessionHealth) : TabView :=
  {| view_tab := t; session := h |}.

(** [entries().find(entry => entry.sessionId === id)] *)
Definition find_entry (id : jsstr) (es : list (jsstr * option Z)) : option (option Z) :=
  (λ p, p.2.2) <$> list_find (λ p, p.1 = id) es.

Definition health_of (st : SessionState) (bridge : option (option Z)) : SessionHealth :=
  {| health_state := st; attached := match bridge with Some _ => true | None => false end;
     bridgePid := match bridge with Some p => p | None => None end |}.

Inductive CleanupTerminationResult :=
| Terminated
| Skipped (r : CleanupSkipReason).

(** * Generations *)

Definition nextGeneration (m : manager) : manager :=
  Manager (generations m) (generationClock m + 1) (issuedTokens m).
Definition set_generation (id : jsstr) (m : manager) : manager :=
  Manager (<[id := generationClock m]> (generations m)) (generationClock m) (issuedTokens m).
Definition incrementGeneration (id : jsstr) (m : manager) : manager :=
  set_generation id (nextGeneration m).
Definition ensureGeneration (id : jsstr) (m : manager) : manager :=
  match generations m !! id with Some _ => m | None => incrementGeneration id m end.
Definition deleteGeneration (id : jsstr) (m : manager) : manager :=
  Manager (delete id (generations m)) (generationClock m) (issuedTokens m).
(** A fresh token for the current generation of [id], added to the issued
    ones. *)
Definition issue (id : jsstr) (m : manager) : AttachToken * manager :=
  let m := ensureGeneration id m in
  let t := {| token_ref := length (issuedTokens m); token_session := id;
              token_generation := default 0 (generations m !! id) |} in
  (t, Manager (generations m) (generationClock m) (issuedTokens m ++ [t])).

Section manager.
Context `{Platform} {W : Type} (h : @handler manager W ev error resp)
  (o : SessionManagerOptions).
Abbreviation SM := (M (sys manager W ev) error).

Definition ask (e : ev) : SM (resp e) := call resp h e.

(** ** Guards *)

Definition requirePhaseTwo : SM unit :=
  throw_if (negb (has_store o) || negb (has_activity o) || negb (preparer_is_controller o))
    (operation_failed None).

Definition requireLifecycleTab (id : jsstr) : SM unit :=
  do! requirePhaseTwo in
  do! throw_if (negb (isSessionId id)) tab_not_found in
  let! r := attempt (ask (Store_has id)) in
  match r with
  | Throw _ => throw (operation_failed None)
  | Ok false => throw tab_not_found
  | Ok true => ret tt
  end.

Definition currentRecord (id : jsstr) : SM (option TabRecord) :=
  if negb (has_store o) then ret None
  else
    catch
      (let! b := ask (Store_has id) in
       if negb b then ret None
       else let! d := ask Store_snapshot in ret (findRecord d id))
      (λ _, throw (operation_failed None)).

Definition requireCurrentRecord (id : jsstr) : SM TabRecord :=
  let! r := currentRecord id in of_option r tab_not_found.

Definition isValidRuntimeSettings (s : SessionRuntimeSettings) : bool :=
  bool_decide (head (shell s) = Some 47) && bool_decide (nfc (shell s) = shell s) &&
  (utf8ByteLength (shell s) <=? MAX_RUNTIME_SHELL_BYTES) &&
  negb (existsb (λ c, forbiddenCharacterPattern c || formatControlPattern c)
         (code_points (shell s))) &&
  (0 <=? historyLimit s) && (historyLimit s <=? MAX_RUNTIME_HISTORY_LIMIT).

Definition captureRuntimeSettings : SM SessionRuntimeSettings :=
  catch
    (do! throw_if (negb (has_runtimeSettings o)) foreign in
     let! s := ask Settings_current in
     do! throw_if (negb (isValidRuntimeSettings s)) foreign in
     ret s)
    (λ _, throw (operation_failed None)).

Definition mark (id : jsstr) : SM unit :=
  if has_activity o then catch (ask (Activity_mark id)) (λ _, ret tt) else ret tt.

(** ** Views *)

Definition probeHealth (id : jsstr) : SM SessionHealth :=
  do! requirePhaseTwo in
  let! es := ask Registry_entries in
  let! st := catch
    (let! b := ask (Runtime_exists id) in ret (if b then running else state_stopped))
    (λ _, ret unknown) in
  ret (health_of st (find_entry id es)).

Definition current_view (id : jsstr) : SM TabView :=
  let! t := requireCurrentRecord id in
  let! hl := probeHealth id in
  ret (viewFromRecord t hl).

Definition viewBestEffort (id : jsstr) : SM (option TabView) :=
  catch (let! v := current_view id in ret (Some v)) (λ _, ret None).

(** [throw new OperationFailedError(await this.viewBestEffort(id))] *)
Definition fail_with_view {A} (id : jsstr) : SM A :=
  let! v := viewBestEffort id in throw (operation_failed v).

(** ** Lifecycle *)

(** Runs [m]; any failure becomes [f]'s. *)
Definition guard_call {A} (m : SM A) (f : SM A) : SM A := catch m (λ _, f).

Definition stopRuntime (id : jsstr) (code : Z) (why : jsstr) : SM bool :=
  let! f1 := catch (do! ask (Registry_close id (Some (code, why))) in ret false)
                   (λ _, ret true) in
  let! f2 := catch (do! ask (Runtime_kill id) in ret false) (λ _, ret true) in
  ret (f1 || f2).

(** The stopped tab that needs no work. *)
Definition already_stopped (id : jsstr) (current : TabRecord) : SM bool :=
  if bool_decide (desiredState current = stopped) then
    catch
      (let! e := ask (Runtime_exists id) in
       if e then ret false
       else let! b := ask (Registry_get id) in
            ret (match b with None => true | Some _ => false end))
      (λ _, ret false)
  else ret false.

Definition terminateLocked (id : jsstr) : SM TabView :=
  do! requireLifecycleTab id in
  let! current := requireCurrentRecord id in
  let! idle := already_stopped id current in
  if idle then ret (viewFromRecord current (health_of state_stopped None))
  else
    do! set_own (incrementGeneration id) in
    do! guard_call (ask (Store_setDesiredState id stopped)) (throw (operation_failed None)) in
    do! mark id in
    let! failure := stopRuntime id SESSION_STOPPED (js "session_stopped") in
    if failure then fail_with_view id else current_view id.

Definition terminate (id : jsstr) : SM TabView := terminateLocked id.

Definition terminateIfStale (id : jsstr) (captured : EligibilitySnapshot)
    : SM CleanupTerminationResult :=
  if negb (isValidEligibilityCapture id captured) then ret (Skipped invalid)
  else if negb (eligible captured) then ret (Skipped (default invalid (reason captured)))
  else if negb (has_cleanupEligibility o) then ret (Skipped dependency_error)
  else
    let! r := attempt (ask (Eligibility_read
      {| req_id := id; thresholdMs := snap_thresholdMs captured;
         cutoffMs := snap_cutoffMs captured |})) in
    match r with
    | Throw _ => ret (Skipped dependency_error)
    | Ok fresh =>
        if negb (isValidEligibilityCapture id fresh) then ret (Skipped dependency_error)
        else if negb (eligible fresh) then ret (Skipped (default invalid (reason fresh)))
        else if negb (sameEligibilityGeneration captured fresh) then ret (Skipped changed)
        else do! terminateLocked id in ret Terminated
    end.

Definition recreate (id : jsstr) : SM TabView :=
  do! requireLifecycleTab id in
  let! current := requireCurrentRecord id in
  do! throw_if (negb (bool_decide (desiredState current = stopped))) invalid_session_state in
  let! settings := captureRuntimeSettings in
  let! exists_ := guard_call (ask (Runtime_exists id)) (throw invalid_session_state) in
  do! throw_if exists_ invalid_session_state in
  do! set_own (incrementGeneration id) in
  do! guard_call
        (do! ask (Runtime_prepare id (Some settings)) in
         ask (Store_setDesiredState id active))
        (do! catch (ask (Runtime_kill id)) (λ _, ret tt) in throw (operation_failed None)) in
  do! set_own (incrementGeneration id) in
  do! mark id in
  current_view id.

Definition restart (id : jsstr) : SM TabView :=
  do! requireLifecycleTab id in
  let! settings := captureRuntimeSettings in
  do! set_own (incrementGeneration id) in
  do! guard_call (ask (Store_setDesiredState id stopped)) (throw (operation_failed None)) in
  let! stopFailed := stopRuntime id SESSION_RESTARTING (js "session_restarting") in
  if stopFailed then do! mark id in fail_with_view id
  else
    do! guard_call
          (do! ask (Runtime_prepare id (Some settings)) in
           ask (Store_setDesiredState id active))
          (do! catch (ask (Runtime_kill id)) (λ _, ret tt) in
           do! mark id in fail_with_view id) in
    do! set_own (incrementGeneration id) in
    do! mark id in
    current_view id.

Definition restartBridge (id : jsstr) : SM TabView :=
  do! requireLifecycleTab id in
  do! guard_call (ask (Registry_close id (Some (BRIDGE_RESTART, js "bridge_restart"))))
        (throw (operation_failed None)) in
  do! mark id in
  current_view id.

Definition closeTab (id : jsstr) : SM unit :=
  do! requireLifecycleTab id in
  do! set_own (incrementGeneration id) in
  do! guard_call (ask (Store_setDesiredState id stopped)) (throw (operation_failed None)) in
  do! mark id in
  let! failure := stopRuntime id SESSION_STOPPED (js "session_stopped") in
  if failure then fail_with_view id
  else
    do! guard_call (ask (Store_remove id)) (fail_with_view id) in
    set_own (deleteGeneration id).

Definition view (id : jsstr) : SM TabView :=
  do! requireLifecycleTab id in current_view id.

Record collection_view := CollectionView { view_revision : Z; view_tabs : list TabView }.

(** [new Map(registryEntries...)]: the last entry of a session wins. *)
Definition last_entry (id : jsstr) (es : list (jsstr * option Z)) : option (option Z) :=
  find_entry id (reverse es).

Definition collectionView : SM collection_view :=
  do! requirePhaseTwo in
  let! snapshot := guard_call (ask Store_snapshot) (throw (operation_failed None)) in
  let! es := ask Registry_entries in
  let! active_ := attempt (ask Runtime_list) in
  ret (CollectionView (structureRevision snapshot)
    ((λ t, viewFromRecord t (health_of
        match active_ with
        | Throw _ => unknown
        | Ok ids => if bool_decide (tab_id t ∈ ids) then running else state_stopped
        end (last_entry (tab_id t) es))) <$> tabs snapshot)).

(** ** Attaching *)

Definition authorize (id : jsstr) : SM (option AttachToken) :=
  if negb (has_store o) || negb (isSessionId id) then ret None
  else
    catch
      (let! b := ask (Store_has id) in
       if negb b then ret None
       else
         let! d := ask Store_snapshot in
         match findRecord d id with
         | Some r =>
             if bool_decide (desiredState r = active) then
               let! t := own (λ m, (issue id m).1) in
               do! set_own (λ m, (issue id m).2) in
               ret (Some t)
             else ret None
         | None => ret None
         end)
      (λ _, ret None).

(** [attach]; a [SessionManagerError] keeps its code. *)
Definition attach (id : jsstr) (socket : socket_ref) (dims : TerminalDimensions)
    (markActivity : bool) (settings : option SessionRuntimeSettings) : SM bridge_ref :=
  catch
    (do! ask (Runtime_prepare id settings) in
     do! ask (Registry_close id None) in
     let! pty := ask (Pty_spawn id dims) in
     let! bridge := ask (Bridge_create id socket pty) in
     do! ask (Registry_replace id bridge) in
     do! (if markActivity then mark id else ret tt) in
     ret bridge)
    (λ e, match e with foreign => throw (operation_failed None) | _ => throw e end).

Definition isIssuedToken (t : AttachToken) : SM bool :=
  own (λ m, bool_decide (t ∈ issuedTokens m)).

(** [connect(token, socket, dimensions)] *)
Definition connect (token : AttachToken) (socket : socket_ref) (dims : TerminalDimensions)
    : SM bridge_ref :=
  let! issued := isIssuedToken token in
  if negb (isValidDimensions dims) then throw invalid_connection
  else if negb issued then throw stale_attach
  else
    let id := token_session token in
    do! requirePhaseTwo in
    let! record := currentRecord id in
    let! current := own (λ m, generations m !! id) in
    do! throw_if (match record with
                  | None => true
                  | Some r => negb (bool_decide (desiredState r = active)) ||
                              negb (bool_decide (Some (token_generation token) = current))
                  end) stale_attach in
    let! settings := captureRuntimeSettings in
    attach id socket dims true (Some settings).

(** [connect(request)], the calls without a socket argument. *)
Definition connect_request (value : AttachToken + ConnectRequest) : SM bridge_ref :=
  match value with
  | inl _ => throw invalid_connection   (* a token has no socket *)
  | inr r =>
      if negb (compatibilityMode o) ||
         negb (isSessionId (request_session r) && isValidDimensions (request_dimensions r))
      then throw invalid_connection
      else attach (request_session r) (request_socket r) (request_dimensions r) false None
  end.
End manager.
