(* ===== verification/SessionFacts.v ===== *)
(** Theorems about [SessionManager]: which calls each method makes, in which
    order and with which outcome, and that attach tokens die with the
    lifecycle operations of their tab. *)
From S2P Require Import Prelude SafeString Tabs Eligibility SessionManager.
Open Scope Z_scope.

(** * Generations and tokens *)

(** What the methods do to the manager's own state. *)
Inductive mstep : manager → manager → Prop :=
| mstep_increment id m : mstep m (incrementGeneration id m)
| mstep_issue id m : mstep m (issue id m).2
| mstep_delete id m : mstep m (deleteGeneration id m).

(** Generations and tokens are numbers that the clock has given. *)
Record manager_ok (m : manager) : Prop := {
  ok_clock : ∀ id g, generations m !! id = Some g → g <= generationClock m;
  ok_tokens : ∀ t, t ∈ issuedTokens m → token_generation t <= generationClock m;
  ok_refs : ∀ t, t ∈ issuedTokens m → (token_ref t < length (issuedTokens m))%nat;
}.

(** The token can never be accepted again. *)
Definition dead (t : AttachToken) (m : manager) : Prop :=
  token_generation t <= generationClock m ∧
  generations m !! token_session t ≠ Some (token_generation t).

Section tokens.
Implicit Types (m : manager) (t : AttachToken) (id : jsstr).

Lemma new_manager_ok : manager_ok new_manager.
Proof. split; simpl; [intros id g; by rewrite lookup_empty|set_solver..]. Qed.

Lemma increment_lookup id m id' :
  generations (incrementGeneration id m) !! id' =
  if decide (id' = id) then Some (generationClock m + 1) else generations m !! id'.
Proof.
  unfold incrementGeneration, set_generation, nextGeneration. simpl.
  case_decide; [subst; by rewrite lookup_insert_eq|by rewrite lookup_insert_ne].
Qed.

Lemma increment_ok id m : manager_ok m → manager_ok (incrementGeneration id m).
Proof.
  intros [H1 H2 H3]. split.
  - intros id' g. rewrite increment_lookup. simpl.
    case_decide; [intros [= <-]; lia|intros Hg; specialize (H1 _ _ Hg); lia].
  - intros t Ht. simpl. specialize (H2 t Ht). lia.
  - exact H3.
Qed.

Lemma ensure_ok id m : manager_ok m → manager_ok (ensureGeneration id m).
Proof. unfold ensureGeneration. case_match; [done|apply increment_ok]. Qed.

Lemma issue_ok id m : manager_ok m → manager_ok (issue id m).2.
Proof.
  intros Hok. pose proof (ensure_ok id m Hok) as [H1 H2 H3]. unfold issue. simpl.
  split; simpl; [done| |].
  - intros t [Ht|Ht%list_elem_of_singleton]%elem_of_app; [by apply H2|]. subst t. simpl.
    destruct (generations (ensureGeneration id m) !! id) as [g|] eqn:Hg; simpl; [by eapply H1|].
    exfalso. revert Hg. unfold ensureGeneration. case_match; [congruence|].
    rewrite increment_lookup. by case_decide.
  - rewrite length_app. simpl. intros t [Ht|Ht%list_elem_of_singleton]%elem_of_app;
      [specialize (H3 t Ht)|subst t; simpl]; lia.
Qed.

Lemma mstep_ok m m' : mstep m m' → manager_ok m → manager_ok m'.
Proof.
  intros []; [apply increment_ok|apply issue_ok|].
  intros [H1 H2 H3]. split; simpl; [|done..].
  intros id' g. rewrite lookup_delete_Some. intros [_ ?]. by eapply H1.
Qed.

Lemma increment_dead id m t : dead t m → dead t (incrementGeneration id m).
Proof.
  intros [H1 H2]. split; [simpl; lia|]. rewrite increment_lookup.
  case_decide; [|done]. intros [=]. lia.
Qed.

Lemma mstep_dead m m' t : mstep m m' → dead t m → dead t m'.
Proof.
  intros [] Hd; [by apply increment_dead| |].
  - assert (dead t (ensureGeneration id m0)) as []; [|by split].
    unfold ensureGeneration. case_match; [done|by apply increment_dead].
  - destruct Hd as [H1 H2]. split; [done|]. simpl.
    intros [_ ?]%lookup_delete_Some. done.
Qed.

Lemma manager_msteps_ok m m' : rtc mstep m m' → manager_ok m → manager_ok m'.
Proof. induction 1; eauto using mstep_ok. Qed.
Lemma msteps_dead m m' t : rtc mstep m m' → dead t m → dead t m'.
Proof. induction 1; eauto using mstep_dead. Qed.

(** A token is never issued twice, and stays issued. *)
Lemma msteps_issued m m' t : rtc mstep m m' → t ∈ issuedTokens m → t ∈ issuedTokens m'.
Proof.
  induction 1 as [|m1 m2 m3 Hs _ IH]; [done|]. intros Ht. apply IH.
  destruct Hs; simpl; [done| |done].
  rewrite elem_of_app. left. unfold ensureGeneration. by case_match.
Qed.

(** The generation of [id] was incremented on the way. *)
Definition bumped id m m' : Prop :=
  ∃ m1, rtc mstep m m1 ∧ rtc mstep (incrementGeneration id m1) m'.

Lemma bumped_dead id m m' t :
  manager_ok m → bumped id m m' → t ∈ issuedTokens m → token_session t = id → dead t m'.
Proof.
  intros Hok (m1 & H1 & H2) Ht Hid. eapply msteps_dead; [exact H2|].
  pose proof (ok_tokens _ (manager_msteps_ok _ _ H1 Hok) t (msteps_issued _ _ _ H1 Ht)) as Hle.
  split; [simpl; lia|]. rewrite Hid, increment_lookup, decide_True by done. intros [=]. lia.
Qed.
End tokens.

(** * The calls of a run *)

(** The calls that change something. *)
Definition effect (e : ev) : bool :=
  match e with
  | Store_setDesiredState _ _ | Store_remove _ | Runtime_prepare _ _ | Runtime_kill _
  | Registry_close _ _ | Registry_replace _ _ | Pty_spawn _ _ | Bridge_create _ _ _
  | Activity_mark _ => true
  | _ => false
  end.

Definition effects (l : list (ev * bool)) : list (ev * bool) :=
  List.filter (λ p, effect p.1) l.

(** Other methods that run while a call is awaited do to the manager's state
    what methods do. *)
Class ManagerEnv {W} (h : @handler manager W ev error resp) : Prop := {
  env_interference : ∀ e c w r c' w', h e c w = (r, (c', w')) → rtc mstep c c';
}.

Section rules.
Context `{Platform} {W : Type} (h : @handler manager W ev error resp) `{!ManagerEnv h}
  (o : SessionManagerOptions).
Abbreviation SM := (M (sys manager W ev) error).
Implicit Types (s : sys manager W ev) (id : jsstr) (X Y : list (ev * bool)).

(** From [s] to [s'] the effectful calls [X] were made. *)
Definition steps s X s' : Prop :=
  effects (log s') = effects (log s) ++ X ∧ rtc mstep (comp s) (comp s').

Lemma steps_refl s : steps s [] s.
Proof. split; [by rewrite app_nil_r|done]. Qed.
Lemma steps_trans s1 X s2 Y s3 : steps s1 X s2 → steps s2 Y s3 → steps s1 (X ++ Y) s3.
Proof. intros [H1 H2] [H3 H4]. split; [by rewrite H3, H1, app_assoc|by etrans]. Qed.
Lemma steps_silent s1 X s2 s3 : steps s1 X s2 → steps s2 [] s3 → steps s1 X s3.
Proof. intros Ha Hb. rewrite <-(app_nil_r X). by eapply steps_trans. Qed.

Lemma wp_ask_manager e (Q : res error (resp e) → sys manager W ev → Prop) s :
  (∀ r s', steps s (if effect e then [(e, is_ok r)] else []) s' → Q r s') →
  wp (ask h e) Q s.
Proof.
  intros HQ. apply wp_call. intros r c w Hh. apply HQ. split; simpl.
  - unfold effects. rewrite List.filter_app. simpl. by destruct (effect e).
  - by eapply env_interference.
Qed.

Lemma steps_own f s : mstep (comp s) (f (comp s)) →
  steps s [] (Sys (f (comp s)) (world s) (log s)).
Proof. intros Hs. split; [by rewrite app_nil_r|]. by apply rtc_once. Qed.

(** ** Programs without effects *)

Definition silent {A} (m : SM A) : Prop := ∀ s, steps s [] (m s).2.

Lemma wp_silent {A} (m : SM A) (Q : res error A → sys manager W ev → Prop) s :
  silent m → (∀ r s', steps s [] s' → Q r s') → wp m Q s.
Proof. intros Hm HQ. apply HQ, Hm. Qed.

Lemma silent_ret {A} (a : A) : silent (ret a).
Proof. intros s. apply steps_refl. Qed.
Lemma silent_throw {A} e : silent (throw e : SM A).
Proof. intros s. apply steps_refl. Qed.
Lemma silent_throw_if b e : silent (throw_if b e).
Proof. destruct b; [apply silent_throw|apply silent_ret]. Qed.
Lemma silent_of_option {A} (x : option A) e : silent (of_option x e).
Proof. destruct x; [apply silent_ret|apply silent_throw]. Qed.
Lemma silent_bind {A B} (m : SM A) (k : A → SM B) :
  silent m → (∀ a, silent (k a)) → silent (bind m k).
Proof.
  intros Hm Hk s. specialize (Hm s). unfold bind.
  destruct (m s) as [[a|e] s1]; simpl in *; [|done].
  eapply steps_silent; [exact Hm|apply Hk].
Qed.
Lemma silent_catch {A} (m : SM A) k :
  silent m → (∀ e, silent (k e)) → silent (catch m k).
Proof.
  intros Hm Hk s. specialize (Hm s). unfold catch.
  destruct (m s) as [[a|e] s1]; simpl in *; [done|].
  eapply steps_silent; [exact Hm|apply Hk].
Qed.
Lemma silent_attempt {A} (m : SM A) : silent m → silent (attempt m).
Proof. intros Hm s. specialize (Hm s). unfold attempt. by destruct (m s). Qed.
Lemma silent_ask e : effect e = false → silent (ask h e).
Proof.
  intros He s. apply (wp_run (ask h e) (λ _ s', steps s [] s')). apply wp_ask_manager.
  intros r s'. by rewrite He.
Qed.
Lemma silent_own {A} (f : manager → A) : silent (own f).
Proof. intros s. apply steps_refl. Qed.

Ltac silent_step :=
  match goal with
  | |- ∀ _, silent _ => intros ?
  | |- silent (bind _ _) => apply silent_bind
  | |- silent (catch _ _) => apply silent_catch
  | |- silent (guard_call _ _) => apply silent_catch
  | |- silent (attempt _) => apply silent_attempt
  | |- silent (ret _) => apply silent_ret
  | |- silent (throw _) => apply silent_throw
  | |- silent (throw_if _ _) => apply silent_throw_if
  | |- silent (of_option _ _) => apply silent_of_option
  | |- silent (ask _ _) => by apply silent_ask
  | |- silent (own _) => apply silent_own
  | |- silent (if _ then _ else _) => case_match
  | |- silent (match _ with _ => _ end) => case_match
  | |- _ => solve [eauto with silent]
  end.
Ltac silent_go := repeat silent_step.

Lemma silent_requirePhaseTwo : silent (requirePhaseTwo (W:=W) o).
Proof. unfold requirePhaseTwo. silent_go. Qed.
Hint Resolve silent_requirePhaseTwo : silent.
Lemma silent_requireLifecycleTab id : silent (requireLifecycleTab h o id).
Proof. unfold requireLifecycleTab. silent_go. Qed.
Lemma silent_currentRecord id : silent (currentRecord h o id).
Proof. unfold currentRecord. silent_go. Qed.
Hint Resolve silent_currentRecord : silent.
Lemma silent_requireCurrentRecord id : silent (requireCurrentRecord h o id).
Proof. unfold requireCurrentRecord. silent_go. Qed.
Lemma silent_captureRuntimeSettings : silent (captureRuntimeSettings h o).
Proof. unfold captureRuntimeSettings. silent_go. Qed.
Hint Resolve silent_requireCurrentRecord : silent.
Lemma silent_probeHealth id : silent (probeHealth h o id).
Proof. unfold probeHealth. silent_go. Qed.
Hint Resolve silent_probeHealth : silent.
Lemma silent_current_view id : silent (current_view h o id).
Proof. unfold current_view. silent_go. Qed.
Hint Resolve silent_current_view : silent.
Lemma silent_fail_with_view {A} id : silent (fail_with_view (A:=A) h o id).
Proof. unfold fail_with_view, viewBestEffort. silent_go. Qed.
Lemma silent_already_stopped id t : silent (already_stopped h id t).
Proof. unfold already_stopped. silent_go. Qed.
End rules.
#[export] Hint Resolve silent_requirePhaseTwo silent_requireLifecycleTab silent_currentRecord
  silent_requireCurrentRecord silent_captureRuntimeSettings silent_probeHealth
  silent_current_view silent_fail_with_view silent_already_stopped : silent.

(** Chains the [steps] facts of the context. *)
Ltac steps_chain :=
  lazymatch goal with
  | |- steps ?a _ ?a => apply steps_refl
  | H : steps ?a _ ?b |- steps ?a _ ?c =>
      first [exact H | eapply steps_trans; [exact H|clear H; steps_chain]]
  end.

(** * The protocol of each method

    [P id ok X]: the effectful calls [X], each with its outcome, that a run
    which returns ([ok = true]) or throws ([ok = false]) may make. *)

Definition stop_calls (id : jsstr) (code : Z) (why : jsstr) (a b : bool) : list (ev * bool) :=
  [(Registry_close id (Some (code, why)), a); (Runtime_kill id, b)].

Inductive terminate_trace (id : jsstr) : bool → list (ev * bool) → Prop :=
| terminate_none ok : terminate_trace id ok []
| terminate_persist : terminate_trace id false [(Store_setDesiredState id stopped, false)]
| terminate_stop ok m a b : (ok = true → a = true ∧ b = true) →
    terminate_trace id ok ([(Store_setDesiredState id stopped, true); (Activity_mark id, m)] ++
      stop_calls id SESSION_STOPPED (js "session_stopped") a b).

Inductive restart_trace (id : jsstr) : bool → list (ev * bool) → Prop :=
| restart_none : restart_trace id false []
| restart_persist : restart_trace id false [(Store_setDesiredState id stopped, false)]
| restart_stop a b m : a && b = false → restart_trace id false
    ([(Store_setDesiredState id stopped, true)] ++
     stop_calls id SESSION_RESTARTING (js "session_restarting") a b ++ [(Activity_mark id, m)])
| restart_prepare st k m : restart_trace id false
    ([(Store_setDesiredState id stopped, true)] ++
     stop_calls id SESSION_RESTARTING (js "session_restarting") true true ++
     [(Runtime_prepare id (Some st), false); (Runtime_kill id, k); (Activity_mark id, m)])
| restart_activate st k m : restart_trace id false
    ([(Store_setDesiredState id stopped, true)] ++
     stop_calls id SESSION_RESTARTING (js "session_restarting") true true ++
     [(Runtime_prepare id (Some st), true); (Store_setDesiredState id active, false);
      (Runtime_kill id, k); (Activity_mark id, m)])
| restart_done ok st m : restart_trace id ok
    ([(Store_setDesiredState id stopped, true)] ++
     stop_calls id SESSION_RESTARTING (js "session_restarting") true true ++
     [(Runtime_prepare id (Some st), true); (Store_setDesiredState id active, true);
      (Activity_mark id, m)]).

Inductive recreate_trace (id : jsstr) : bool → list (ev * bool) → Prop :=
| recreate_none : recreate_trace id false []
| recreate_prepare st k : recreate_trace id false
    [(Runtime_prepare id (Some st), false); (Runtime_kill id, k)]
| recreate_activate st k : recreate_trace id false
    [(Runtime_prepare id (Some st), true); (Store_setDesiredState id active, false);
     (Runtime_kill id, k)]
| recreate_done ok st m : recreate_trace id ok
    [(Runtime_prepare id (Some st), true); (Store_setDesiredState id active, true);
     (Activity_mark id, m)].

Inductive close_trace (id : jsstr) : bool → list (ev * bool) → Prop :=
| close_none : close_trace id false []
| close_persist : close_trace id false [(Store_setDesiredState id stopped, false)]
| close_stop m a b : a && b = false → close_trace id false
    ([(Store_setDesiredState id stopped, true); (Activity_mark id, m)] ++
     stop_calls id SESSION_STOPPED (js "session_stopped") a b)
| close_remove ok m : close_trace id ok
    ([(Store_setDesiredState id stopped, true); (Activity_mark id, m)] ++
     stop_calls id SESSION_STOPPED (js "session_stopped") true true ++
     [(Store_remove id, ok)]).

Section protocols.
Context `{Platform} {W : Type} (h : @handler manager W ev error resp) `{!ManagerEnv h}
  (o : SessionManagerOptions).
Implicit Types (s : sys manager W ev) (id : jsstr) (X Y : list (ev * bool)).

(** The post-condition that the lifecycle methods share. *)
Definition follows {A} (P : bool → list (ev * bool) → Prop) id s
    (r : res error A) s' : Prop :=
  ∃ X, steps s X s' ∧ P (is_ok r) X ∧ (X ≠ [] → bumped id (comp s) (comp s')).

Lemma follows_silent {A} P id s (r : res error A) s' :
  steps s [] s' → P (is_ok r) [] → follows P id s r s'.
Proof. intros Hs Hp. by exists []. Qed.

Lemma wp_increment id (Q : res error unit → sys manager W ev → Prop) s :
  (∀ s', steps s [] s' → comp s' = incrementGeneration id (comp s) → Q (Ok tt) s') →
  wp (set_own (incrementGeneration id)) Q s.
Proof.
  intros HQ. apply wp_set_own. apply HQ; [|done]. apply steps_own. constructor.
Qed.

Lemma bumped_between id s X s1 s2 Y s3 :
  steps s X s1 → comp s2 = incrementGeneration id (comp s1) → steps s2 Y s3 →
  bumped id (comp s) (comp s3).
Proof. intros [_ H1] H2 [_ H3]. exists (comp s1). by rewrite <-H2. Qed.

(** After the increment of the generation, at [s1], every end is bumped. *)
Lemma follows_bumped {A} (P : bool → list (ev * bool) → Prop) id s s0 s1 X s' (r : res error A) :
  steps s [] s0 → comp s1 = incrementGeneration id (comp s0) → steps s0 [] s1 →
  steps s1 X s' → P (is_ok r) X → follows P id s r s'.
Proof.
  intros H0 Hi H1 Hs Hp. exists X. split_and!; [|done|].
  - eapply (steps_trans s [] s0 X); [done|]. by eapply (steps_trans s0 [] s1 X).
  - intros _. by eapply bumped_between.
Qed.

Lemma wp_mark id (Q : res error unit → sys manager W ev → Prop) s :
  has_activity o = true →
  (∀ b s', steps s [(Activity_mark id, b)] s' → Q (Ok tt) s') → wp (mark h o id) Q s.
Proof.
  intros Ha HQ. unfold mark. rewrite Ha. wp_step. apply (wp_ask_manager h (Activity_mark id)).
  intros r s1 Hs. cbn [effect] in Hs. destruct r as [[]|e]; [by eapply HQ|].
  wp_step. by eapply HQ.
Qed.

Lemma wp_kill_ignored id (Q : res error unit → sys manager W ev → Prop) s :
  (∀ b s', steps s [(Runtime_kill id, b)] s' → Q (Ok tt) s') →
  wp (catch (ask h (Runtime_kill id)) (λ _, ret tt)) Q s.
Proof.
  intros HQ. wp_step. apply (wp_ask_manager h (Runtime_kill id)).
  intros r s1 Hs. cbn [effect] in Hs. destruct r as [[]|e]; [by eapply HQ|].
  wp_step. by eapply HQ.
Qed.

Lemma wp_stopRuntime id code why (Q : res error bool → sys manager W ev → Prop) s :
  (∀ a b s', steps s (stop_calls id code why a b) s' → Q (Ok (negb (a && b))) s') →
  wp (stopRuntime h id code why) Q s.
Proof.
  intros HQ. unfold stopRuntime.
  do 3 wp_step. apply (wp_ask_manager h (Registry_close id (Some (code, why)))).
  intros r1 s1 H1. cbn [effect] in H1.
  assert (∀ f s2, steps s1 [] s2 → wp
    (let! f2 := catch (do! ask h (Runtime_kill id) in ret false) (λ _, ret true) in ret (f || f2))
    (λ r s', ∃ b, steps s1 [(Runtime_kill id, b)] s' ∧ r = Ok (f || negb b)) s2) as Hkill.
  { intros f s2 H2. do 3 wp_step. apply (wp_ask_manager h (Runtime_kill id)).
    intros r2 s3 H3. cbn [effect] in H3.
    destruct r2 as [[]|e]; wp_go; [exists true|exists false];
      (split; [by eapply (steps_trans s1 [] s2)|done]). }
  destruct r1 as [[]|e]; wp_step.
  - eapply wp_mono; [apply (Hkill false s1), steps_refl|]. intros r s' (b & Hs & ->).
    apply (HQ true b). exact (steps_trans s [_] s1 [_] s' H1 Hs).
  - eapply wp_mono; [apply (Hkill true s1), steps_refl|]. intros r s' (b & Hs & ->).
    apply (HQ false b). exact (steps_trans s [_] s1 [_] s' H1 Hs).
Qed.

(** The guards establish that every dependency is present. *)
Lemma wp_requireLifecycleTab id (Q : res error unit → sys manager W ev → Prop) s :
  (∀ e s', steps s [] s' → Q (Throw e) s') →
  (∀ s', steps s [] s' → has_store o = true → has_activity o = true →
     isSessionId id = true → Q (Ok tt) s') →
  wp (requireLifecycleTab h o id) Q s.
Proof.
  intros Hno Hyes. unfold requireLifecycleTab, requirePhaseTwo.
  wp_step. wp_step; [by apply Hno, steps_refl|]. breflect.
  wp_step. wp_step; [by apply Hno, steps_refl|]. breflect.
  wp_step. wp_step. apply (wp_ask_manager h (Store_has id)). intros r s1 Hs. cbn [effect] in Hs.
  destruct r as [[|]|e]; wp_go; auto.
Qed.

(** A guarded call: it succeeds, or it fails and [f] runs. *)
Lemma wp_guard_ask e (f : M (sys manager W ev) error (resp e)) Q s :
  effect e = true →
  (∀ a s', steps s [(e, true)] s' → Q (Ok a) s') →
  (∀ s', steps s [(e, false)] s' → wp f Q s') → wp (guard_call (ask h e) f) Q s.
Proof.
  intros He Hyes Hno. unfold guard_call. wp_step. apply (wp_ask_manager h e).
  intros r s' Hs. rewrite He in Hs. destruct r; [by apply Hyes|by apply Hno].
Qed.

(** [prepare] then [setDesiredState(id, 'active')], or the recovery [f]. *)
Lemma wp_guard_activate id st (f : M (sys manager W ev) error unit) Q s :
  (∀ s', steps s [(Runtime_prepare id st, true); (Store_setDesiredState id active, true)] s' →
     Q (Ok tt) s') →
  (∀ s', steps s [(Runtime_prepare id st, false)] s' → wp f Q s') →
  (∀ s', steps s [(Runtime_prepare id st, true); (Store_setDesiredState id active, false)] s' →
     wp f Q s') →
  wp (guard_call (do! ask h (Runtime_prepare id st) in
                  ask h (Store_setDesiredState id active)) f) Q s.
Proof.
  intros Hyes Hno1 Hno2. unfold guard_call. do 2 wp_step.
  apply (wp_ask_manager h (Runtime_prepare id st)). intros r1 s1 H1. cbn [effect] in H1.
  destruct r1 as [[]|e]; [|by apply Hno1].
  apply (wp_ask_manager h (Store_setDesiredState id active)). intros r2 s2 H2. cbn [effect] in H2.
  destruct r2 as [[]|e]; [apply Hyes|apply Hno2]; exact (steps_trans s [_] s1 [_] s2 H1 H2).
Qed.

Lemma wp_fail_with_view {A} id (Q : res error A → sys manager W ev → Prop) s :
  (∀ e s', steps s [] s' → Q (Throw e) s') → wp (fail_with_view h o id) Q s.
Proof.
  intros HQ. unfold fail_with_view, viewBestEffort. wp_step. wp_step. wp_step.
  apply wp_silent; [apply silent_current_view; exact _|].
  intros [v|e] s1 Hs; wp_go; by apply HQ.
Qed.

Lemma wp_terminateLocked id s :
  wp (terminateLocked h o id) (follows (terminate_trace id) id s) s.
Proof.
  unfold terminateLocked. wp_step. apply wp_requireLifecycleTab.
  { intros e s1 H1. apply follows_silent; [done|constructor]. }
  intros s1 H1 _ Ha _. wp_step. apply wp_silent; [apply silent_requireCurrentRecord; exact _|].
  intros r2 s2 H2. assert (steps s [] s2) as E2 by by eapply steps_silent.
  destruct r2 as [t|e]; [|apply follows_silent; [done|constructor]].
  wp_step. apply wp_silent; [apply silent_already_stopped; exact _|].
  intros r3 s3 H3. assert (steps s [] s3) as E3 by by eapply steps_silent.
  destruct r3 as [[|]|e]; [wp_step; apply follows_silent; [done|constructor]| |apply follows_silent; [done|constructor]].
  wp_step. apply wp_increment. intros s4 H4 Hinc.
  wp_step. apply (wp_guard_ask (Store_setDesiredState id stopped)); [done| |].
  2:{ intros s5 H5. wp_step. eapply follows_bumped; [exact E3|exact Hinc|done|exact H5|constructor]. }
  intros [] s5 H5. wp_step. apply wp_mark; [done|]. intros m s6 H6.
  wp_step. apply wp_stopRuntime. intros a b s7 H7.
  assert (steps s4 ([(Store_setDesiredState id stopped, true); (Activity_mark id, m)] ++
     stop_calls id SESSION_STOPPED (js "session_stopped") a b) s7) as E7.
  { exact (steps_trans s4 [_] s5 _ s7 H5 (steps_trans s5 [_] s6 _ s7 H6 H7)). }
  wp_step.
  - apply wp_fail_with_view. intros e s8 H8.
    eapply follows_bumped; [exact E3|exact Hinc|done| |by apply terminate_stop].
    by eapply steps_silent.
  - apply wp_silent; [apply silent_current_view; exact _|]. intros r8 s8 H8.
    eapply follows_bumped; [exact E3|exact Hinc|done|by eapply steps_silent|].
    apply terminate_stop. intros _. by apply negb_false_iff, andb_true_iff in H0.
Qed.

Lemma wp_restart id s : wp (restart h o id) (follows (restart_trace id) id s) s.
Proof.
  unfold restart. wp_step. apply wp_requireLifecycleTab.
  { intros e s1 H1. apply follows_silent; [done|constructor]. }
  intros s1 H1 _ Ha _. wp_step. apply wp_silent; [apply silent_captureRuntimeSettings; exact _|].
  intros r2 s2 H2. assert (steps s [] s2) as E2 by by eapply steps_silent.
  destruct r2 as [st|e]; [|apply follows_silent; [done|constructor]].
  wp_step. apply wp_increment. intros s3 H3 Hinc.
  wp_step. apply (wp_guard_ask (Store_setDesiredState id stopped)); [done| |].
  2:{ intros s5 H5. wp_step. eapply follows_bumped; [exact E2|exact Hinc|done|exact H5|constructor]. }
  intros [] s5 H5. wp_step. apply wp_stopRuntime. intros a b s6 H6.
  assert (steps s3 ([(Store_setDesiredState id stopped, true)] ++
    stop_calls id SESSION_RESTARTING (js "session_restarting") a b) s6) as E6
    by by eapply steps_trans.
  destruct (a && b) eqn:Hab; simpl.
  - apply andb_true_iff in Hab as [-> ->]. wp_step. apply wp_guard_activate.
    + intros s7 H7. wp_step. apply wp_set_own. wp_step. apply wp_mark; [done|]. intros m s9 H9.
      apply wp_silent; [apply silent_current_view; exact _|]. intros r s10 H10.
      eapply follows_bumped; [exact E2|exact Hinc|done| |apply restart_done].
      eapply steps_silent; [|exact H10].
      exact (steps_trans s3 _ s7 _ s9 (steps_trans s3 _ s6 _ s7 E6 H7)
        (steps_trans s7 [] _ _ s9 (steps_own _ s7 (mstep_increment id _)) H9)).
    + intros s7 H7. wp_step. apply wp_kill_ignored. intros k s8 H8. wp_step.
      apply wp_mark; [done|]. intros m s9 H9. apply wp_fail_with_view. intros e s10 H10.
      eapply follows_bumped; [exact E2|exact Hinc|done| |apply restart_prepare].
      eapply steps_silent; [|exact H10].
      exact (steps_trans s3 _ s6 _ s9 E6 (steps_trans s6 [_] s7 _ s9 H7
        (steps_trans s7 [_] s8 [_] s9 H8 H9))).
    + intros s7 H7. wp_step. apply wp_kill_ignored. intros k s8 H8. wp_step.
      apply wp_mark; [done|]. intros m s9 H9. apply wp_fail_with_view. intros e s10 H10.
      eapply follows_bumped; [exact E2|exact Hinc|done| |apply restart_activate].
      eapply steps_silent; [|exact H10].
      exact (steps_trans s3 _ s6 _ s9 E6 (steps_trans s6 [_; _] s7 _ s9 H7
        (steps_trans s7 [_] s8 [_] s9 H8 H9))).
  - wp_step. apply wp_mark; [done|]. intros m s7 H7. apply wp_fail_with_view. intros e s8 H8.
    eapply follows_bumped; [exact E2|exact Hinc|done| |by apply restart_stop].
    eapply steps_silent; [|exact H8]. rewrite app_assoc. by eapply steps_trans.
Qed.

Lemma wp_recreate id s : wp (recreate h o id) (follows (recreate_trace id) id s) s.
Proof.
  unfold recreate. wp_step. apply wp_requireLifecycleTab.
  { intros e s1 K1. apply follows_silent; [done|constructor]. }
  intros s1 K1 _ Ha _. wp_step. apply wp_silent; [apply silent_requireCurrentRecord; exact _|].
  intros r2 s2 K2. assert (steps s [] s2) as E2 by by eapply steps_silent.
  destruct r2 as [t|e]; [|apply follows_silent; [done|constructor]].
  wp_step. wp_step; [apply follows_silent; [done|constructor]|].
  wp_step. apply wp_silent; [apply silent_captureRuntimeSettings; exact _|].
  intros r3 s3 K3. assert (steps s [] s3) as E3 by by eapply steps_silent.
  destruct r3 as [st|e]; [|apply follows_silent; [done|constructor]].
  wp_step. apply wp_silent.
  { unfold guard_call. apply silent_catch; [by apply silent_ask|]. intros. apply silent_throw. }
  intros r4 s4 K4. assert (steps s [] s4) as E4 by by eapply steps_silent.
  destruct r4 as [ex|e]; [|apply follows_silent; [done|constructor]].
  wp_step. wp_step; [apply follows_silent; [done|constructor]|].
  wp_step. apply wp_increment. intros s5 K5 Hinc. wp_step. apply wp_guard_activate.
  - intros s7 K7. wp_step. apply wp_set_own. wp_step. apply wp_mark; [done|]. intros m s9 K9.
    apply wp_silent; [apply silent_current_view; exact _|]. intros r s10 K10.
    eapply follows_bumped; [exact E4|exact Hinc|done| |apply recreate_done].
    eapply steps_silent; [|exact K10].
    exact (steps_trans s5 [_; _] s7 _ s9 K7
      (steps_trans s7 [] _ _ s9 (steps_own _ s7 (mstep_increment id _)) K9)).
  - intros s7 K7. wp_step. apply wp_kill_ignored. intros k s8 K8. wp_step.
    eapply follows_bumped; [exact E4|exact Hinc|done| |apply recreate_prepare].
    exact (steps_trans s5 [_] s7 [_] s8 K7 K8).
  - intros s7 K7. wp_step. apply wp_kill_ignored. intros k s8 K8. wp_step.
    eapply follows_bumped; [exact E4|exact Hinc|done| |apply recreate_activate].
    exact (steps_trans s5 [_; _] s7 [_] s8 K7 K8).
Qed.

Lemma wp_closeTab id s : wp (closeTab h o id) (follows (close_trace id) id s) s.
Proof.
  unfold closeTab. wp_step. apply wp_requireLifecycleTab.
  { intros e s1 H1. apply follows_silent; [done|constructor]. }
  intros s1 H1 _ Ha _. wp_step. apply wp_increment. intros s3 H3 Hinc.
  wp_step. apply (wp_guard_ask (Store_setDesiredState id stopped)); [done| |].
  2:{ intros s5 H5. wp_step. eapply follows_bumped; [exact H1|exact Hinc|done|exact H5|constructor]. }
  intros [] s5 H5. wp_step. apply wp_mark; [done|]. intros m s6 H6.
  wp_step. apply wp_stopRuntime. intros a b s7 H7.
  assert (steps s3 ([(Store_setDesiredState id stopped, true); (Activity_mark id, m)] ++
     stop_calls id SESSION_STOPPED (js "session_stopped") a b) s7) as E7.
  { exact (steps_trans s3 [_] s5 _ s7 H5 (steps_trans s5 [_] s6 _ s7 H6 H7)). }
  destruct (a && b) eqn:Hab; simpl.
  - apply andb_true_iff in Hab as [-> ->]. wp_step.
    apply (wp_guard_ask (Store_remove id)); [done| |].
    + intros [] s8 H8. apply wp_set_own.
      eapply follows_bumped; [exact H1|exact Hinc|done| |apply (close_remove id true m)].
      eapply steps_silent; [exact (steps_trans s3 _ s7 [_] s8 E7 H8)|].
      apply steps_own. constructor.
    + intros s8 H8. apply wp_fail_with_view. intros e s9 H9.
      eapply follows_bumped; [exact H1|exact Hinc|done| |apply (close_remove id false m)].
      eapply steps_silent; [exact (steps_trans s3 _ s7 [_] s8 E7 H8)|done].
  - apply wp_fail_with_view. intros e s8 H8.
    eapply follows_bumped; [exact H1|exact Hinc|done| |by apply close_stop].
    by eapply steps_silent.
Qed.

(** ** Attaching *)

Definition prepare_call id st ok : ev * bool := (Runtime_prepare id st, ok).

Inductive attach_trace (id : jsstr) (socket : socket_ref) (dims : TerminalDimensions)
    (st : option SessionRuntimeSettings) : bool → list (ev * bool) → Prop :=
| attach_none : attach_trace id socket dims st false []
| attach_prepare : attach_trace id socket dims st false [(Runtime_prepare id st, false)]
| attach_close : attach_trace id socket dims st false
    [(Runtime_prepare id st, true); (Registry_close id None, false)]
| attach_spawn : attach_trace id socket dims st false
    [(Runtime_prepare id st, true); (Registry_close id None, true); (Pty_spawn id dims, false)]
| attach_create p : attach_trace id socket dims st false
    [(Runtime_prepare id st, true); (Registry_close id None, true); (Pty_spawn id dims, true);
     (Bridge_create id socket p, false)]
| attach_replace p b : attach_trace id socket dims st false
    [(Runtime_prepare id st, true); (Registry_close id None, true); (Pty_spawn id dims, true);
     (Bridge_create id socket p, true); (Registry_replace id b, false)]
| attach_done p b m : attach_trace id socket dims st true
    [(Runtime_prepare id st, true); (Registry_close id None, true); (Pty_spawn id dims, true);
     (Bridge_create id socket p, true); (Registry_replace id b, true); (Activity_mark id, m)].

Lemma wp_rethrow {A} (e : error) (Q : res error A → sys manager W ev → Prop) s :
  (∀ e', Q (Throw e') s) →
  wp (match e with foreign => throw (operation_failed None) | _ => throw e end) Q s.
Proof. intros HQ. destruct e; wp_step; apply HQ. Qed.

Lemma wp_attach id socket dims st s :
  has_activity o = true →
  wp (attach h o id socket dims true st)
     (λ r s', ∃ X, steps s X s' ∧ attach_trace id socket dims st (is_ok r) X) s.
Proof.
  intros Ha. unfold attach. do 2 wp_step. apply (wp_ask_manager h (Runtime_prepare id st)).
  intros r1 s1 H1. cbn [effect] in H1.
  destruct r1 as [[]|e]; [|apply wp_rethrow; intros; eexists; split; [exact H1|constructor]].
  wp_step. apply (wp_ask_manager h (Registry_close id None)). intros r2 s2 H2. cbn [effect] in H2.
  pose proof (steps_trans s [_] s1 [_] s2 H1 H2) as E2.
  destruct r2 as [[]|e]; [|apply wp_rethrow; intros; eexists; split; [exact E2|constructor]].
  wp_step. apply (wp_ask_manager h (Pty_spawn id dims)). intros r3 s3 H3. cbn [effect] in H3.
  pose proof (steps_trans s [_; _] s2 [_] s3 E2 H3) as E3.
  destruct r3 as [p|e]; [|apply wp_rethrow; intros; eexists; split; [exact E3|constructor]].
  wp_step. apply (wp_ask_manager h (Bridge_create id socket p)). intros r4 s4 H4. cbn [effect] in H4.
  pose proof (steps_trans s [_; _; _] s3 [_] s4 E3 H4) as E4.
  destruct r4 as [b|e]; [|apply wp_rethrow; intros; eexists; split; [exact E4|constructor]].
  wp_step. apply (wp_ask_manager h (Registry_replace id b)). intros r5 s5 H5. cbn [effect] in H5.
  pose proof (steps_trans s [_; _; _; _] s4 [_] s5 E4 H5) as E5.
  destruct r5 as [[]|e]; [|apply wp_rethrow; intros; eexists; split; [exact E5|constructor]].
  wp_step. apply wp_mark; [done|]. intros m s6 H6. wp_step.
  eexists. split; [exact (steps_trans s [_; _; _; _; _] s5 [_] s6 E5 H6)|constructor].
Qed.

(** The guards of [connect]: what holds when [attach] is reached. *)
Definition admitted (t : AttachToken) dims s s' : Prop :=
  isValidDimensions dims = true ∧ t ∈ issuedTokens (comp s) ∧
  ∃ s1, steps s [] s1 ∧ steps s1 [] s' ∧
    generations (comp s1) !! token_session t = Some (token_generation t).

Lemma wp_connect t socket dims s (Q : res error bridge_ref → sys manager W ev → Prop) :
  (∀ e s', steps s [] s' → Q (Throw e) s') →
  (∀ st s', steps s [] s' → has_activity o = true → admitted t dims s s' →
     wp (attach h o (token_session t) socket dims true (Some st)) Q s') →
  wp (connect h o t socket dims) Q s.
Proof.
  intros Hno Hyes. unfold connect, isIssuedToken, requirePhaseTwo.
  wp_step. apply wp_own. wp_step; [wp_step; apply Hno, steps_refl|].
  wp_step; [wp_step; apply Hno, steps_refl|]. breflect.
  wp_step. wp_step; [apply Hno, steps_refl|]. breflect.
  wp_step. apply wp_silent; [apply silent_currentRecord; exact _|]. intros r1 s1 E1.
  destruct r1 as [rec|e]; [|by apply Hno].
  wp_step. apply wp_own. wp_step. wp_step; [by apply Hno|].
  wp_step. apply wp_silent; [apply silent_captureRuntimeSettings; exact _|]. intros r2 s2 E2.
  pose proof (steps_silent _ _ _ _ E1 E2) as E3.
  destruct r2 as [st|e]; [|by apply Hno]. apply Hyes; [done..|].
  split_and!; [done|done|]. exists s1. split_and!; [done|done|].
  destruct rec as [r|]; [|done]. breflect. congruence.
Qed.

(** ** [terminateIfStale] *)

(** The reader was asked again, for the same request, and confirmed. *)
Definition reconfirmed id (captured : EligibilitySnapshot) : Prop :=
  isValidEligibilityCapture id captured = true ∧ eligible captured = true ∧
  ∃ c w c' w' fresh,
    h (Eligibility_read {| req_id := id; thresholdMs := snap_thresholdMs captured;
                           cutoffMs := snap_cutoffMs captured |}) c w = (Ok fresh, (c', w')) ∧
    isValidEligibilityCapture id fresh = true ∧ eligible fresh = true ∧
    sameEligibilityGeneration captured fresh = true.

Lemma wp_terminateIfStale id captured s :
  wp (terminateIfStale h o id captured)
     (λ r s', ∃ X, steps s X s' ∧
        match r with
        | Ok (Skipped _) => X = []
        | Ok Terminated => reconfirmed id captured ∧ terminate_trace id true X
        | Throw _ => reconfirmed id captured ∧ terminate_trace id false X
        end) s.
Proof.
  unfold terminateIfStale.
  assert (∀ s', steps s [] s' → ∃ X, steps s X s' ∧ X = []) as Hskip by (intros s' Hs; by exists []).
  wp_step; [wp_step; apply Hskip, steps_refl|].
  wp_step; [wp_step; apply Hskip, steps_refl|].
  wp_step; [wp_step; apply Hskip, steps_refl|]. breflect.
  wp_step. wp_step. unfold ask. set (rd := Eligibility_read _).
  apply (wp_call resp h rd). intros r c w Hh. fold rd.
  assert (steps s [] (Sys c w (log s ++ [(rd, is_ok r)]))) as E1.
  { split; [cbn [log]; unfold effects; by rewrite List.filter_app|]. by eapply env_interference. }
  destruct r as [fresh|e]; [|wp_step; by apply Hskip].
  wp_step; [wp_step; by apply Hskip|]. wp_step; [wp_step; by apply Hskip|].
  wp_step; [wp_step; by apply Hskip|]. breflect.
  assert (reconfirmed id captured) as Hre by (split_and!; [done..|]; by eexists _, _, _, _, _).
  wp_step. eapply wp_mono; [apply wp_terminateLocked|]. intros r s2 (X & HX & Ht & _).
  destruct r as [v|e]; [wp_step|]; exists X;
    (split; [exact (steps_trans s [] _ X s2 E1 HX)|done]).
Qed.
End protocols.

(** * Theorems *)

(** The methods that end the life of the tokens of a tab. *)
Inductive lifecycle := L_terminate | L_recreate | L_restart | L_closeTab.

Section theorems.
Context `{Platform} {W : Type} (h : @handler manager W ev error resp)
  (o : SessionManagerOptions).
Implicit Types (s : sys manager W ev) (id : jsstr) (X : list (ev * bool)).

Definition run_lifecycle (l : lifecycle) id s : sys manager W ev :=
  match l with
  | L_terminate => (terminate h o id s).2
  | L_recreate => (recreate h o id s).2
  | L_restart => (restart h o id s).2
  | L_closeTab => (closeTab h o id s).2
  end.

Lemma lifecycle_bumped `{!ManagerEnv h} l id s :
  effects (log (run_lifecycle l id s)) ≠ effects (log s) →
  bumped id (comp s) (comp (run_lifecycle l id s)).
Proof.
  assert (∀ A (P : bool → list (ev * bool) → Prop) (m : M (sys manager W ev) error A),
    wp m (follows P id s) s → effects (log (m s).2) ≠ effects (log s) →
    bumped id (comp s) (comp (m s).2)) as Hgen.
  { intros A P m (X & [HX _] & _ & Hb)%wp_run Hne. apply Hb. intros ->.
    by rewrite app_nil_r in HX. }
  destruct l; simpl; eapply Hgen;
    [apply wp_terminateLocked|apply wp_recreate|apply wp_restart|apply wp_closeTab]; exact _.
Qed.

(** C1: once [terminate], [recreate], [restart] or [closeTab] has touched
    anything of a tab, every attach token issued for it before is dead: at any
    later time, whatever other methods have run in between, [connect] with it
    throws and makes no call that changes anything. *)
Theorem tokens_die `{!ManagerEnv h} (l : lifecycle) id (t : AttachToken) socket dims s s' :
  manager_ok (comp s) → t ∈ issuedTokens (comp s) → token_session t = id →
  effects (log (run_lifecycle l id s)) ≠ effects (log s) →
  rtc mstep (comp (run_lifecycle l id s)) (comp s') →
  is_ok (connect h o t socket dims s').1 = false ∧
  effects (log (connect h o t socket dims s').2) = effects (log s').
Proof.
  intros Hok Ht Hid Hne Hlater.
  assert (dead t (comp s')) as Hdead.
  { eapply msteps_dead; [exact Hlater|].
    eapply bumped_dead; [exact Hok|by apply lifecycle_bumped|done|done]. }
  apply (wp_run (connect h o t socket dims)
    (λ r s2, is_ok r = false ∧ effects (log s2) = effects (log s'))).
  apply wp_connect; [done| |].
  - intros e s2 [Hs _]. split; [done|]. by rewrite Hs, app_nil_r.
  - intros st s2 _ _ (_ & _ & s1 & [_ H1] & _ & Hg).
    destruct (msteps_dead _ _ t H1 Hdead) as [_ Hd]. by destruct Hd.
Qed.

(** C25: [connect] attaches only for valid dimensions and a token that the
    manager issued and whose generation is current when it is checked; it then
    prepares the session, closes the bridge in place, spawns the PTY, creates
    the bridge and registers it, in this order and stopping at the first
    failure. *)
Theorem connect_guarded `{!ManagerEnv h} (t : AttachToken) socket dims s :
  let (r, s') := connect h o t socket dims s in
  ∃ X, steps s X s' ∧
    (X ≠ [] → isValidDimensions dims = true ∧ t ∈ issuedTokens (comp s) ∧
       ∃ s1, steps s [] s1 ∧
         generations (comp s1) !! token_session t = Some (token_generation t)) ∧
    ∃ st, attach_trace (token_session t) socket dims (Some st) (is_ok r) X.
Proof.
  set (Q := λ (r : res error bridge_ref) s', ∃ X, steps s X s' ∧
    (X ≠ [] → isValidDimensions dims = true ∧ t ∈ issuedTokens (comp s) ∧
       ∃ s1, steps s [] s1 ∧
         generations (comp s1) !! token_session t = Some (token_generation t)) ∧
    ∃ st, attach_trace (token_session t) socket dims (Some st) (is_ok r) X).
  assert (wp (connect h o t socket dims) Q s) as Hw;
    [|unfold wp in Hw; by destruct (connect h o t socket dims s)].
  apply wp_connect; [done| |].
  - intros e s' Hs. exists []. split_and!; [done|done|].
    exists {| shell := []; historyLimit := 0 |}. constructor.
  - intros st s1 H1 Ha (Hd & Ht & s2 & H2 & _ & Hg).
    eapply wp_mono; [by apply wp_attach|]. intros r s' (X & HX & Htr).
    exists X. split_and!; [exact (steps_trans s [] s1 X s' H1 HX)| |by exists st].
    intros _. split_and!; [done|done|by exists s2].
Qed.

(** C21: [terminate] persists the stopped state before anything else, then
    closes the bridge and kills the runtime, both even if one fails; it
    returns only if both succeeded or there was nothing to do, and a failed
    write leaves bridge and runtime alone. [closeTab] does the same and
    removes the tab only after both succeeded. *)
Theorem stop_protocols `{!ManagerEnv h} id s :
  (let (r, s') := terminate h o id s in
   ∃ X, steps s X s' ∧ terminate_trace id (is_ok r) X) ∧
  (let (r, s') := closeTab h o id s in
   ∃ X, steps s X s' ∧ close_trace id (is_ok r) X).
Proof.
  pose proof (wp_run _ _ _ (wp_terminateLocked h o id s)) as (X & HX & Ht & _).
  pose proof (wp_run _ _ _ (wp_closeTab h o id s)) as (Y & HY & Hc & _).
  unfold terminate. destruct (terminateLocked h o id s), (closeTab h o id s).
  split; by eexists.
Qed.

(** [restart] records the tab stopped, stops bridge and runtime, prepares
    a new session and only then records it active; when preparing or recording
    fails the half-made session is killed, and the tab stays stopped.
    [recreate] prepares and records in the same order with the same
    recovery. *)
Theorem start_protocols `{!ManagerEnv h} id s :
  (let (r, s') := restart h o id s in
   ∃ X, steps s X s' ∧ restart_trace id (is_ok r) X) ∧
  (let (r, s') := recreate h o id s in
   ∃ X, steps s X s' ∧ recreate_trace id (is_ok r) X).
Proof.
  pose proof (wp_run _ _ _ (wp_restart h o id s)) as (X & HX & Ht & _).
  pose proof (wp_run _ _ _ (wp_recreate h o id s)) as (Y & HY & Hc & _).
  destruct (restart h o id s), (recreate h o id s). split; by eexists.
Qed.

(** C22: [terminateIfStale] stops a session only if the captured verdict was
    eligible and a fresh read for the same request, inside the tab's lock,
    is eligible with the same generations; a skip changes nothing. *)
Theorem terminate_only_reconfirmed `{!ManagerEnv h} id (captured : EligibilitySnapshot) s :
  let (r, s') := terminateIfStale h o id captured s in
  ∃ X, steps s X s' ∧
    match r with
    | Ok (Skipped _) => X = []
    | Ok Terminated => reconfirmed h id captured ∧ terminate_trace id true X
    | Throw _ => reconfirmed h id captured ∧ terminate_trace id false X
    end.
Proof.
  pose proof (wp_run _ _ _ (wp_terminateIfStale h o id captured s)) as Hw.
  by destruct (terminateIfStale h o id captured s).
Qed.
End theorems.

(** * A concrete system: one tab, a runtime that obeys *)

Record sample_world := SampleWorld { sample_state : DesiredState; sample_alive : bool }.

Definition sample_id : jsstr := js "11111111-1111-4111-8111-111111111111".
Definition sample_tab (d : DesiredState) : TabRecord :=
  {| tab_id := sample_id; displayName := js "Terminal 1"; position := 0;
     createdAt := js "2026-01-01T00:00:00.000Z";
     lastActivityAt := js "2026-01-01T00:00:00.000Z"; desiredState := d |}.
Definition sample_snapshot : EligibilitySnapshot :=
  {| snap_id := sample_id; snap_thresholdMs := 1; snap_cutoffMs := 1; eligible := true;
     reason := None; snap_generation := Gen 1 1 1 |}.

Definition sample_handler : @handler manager sample_world ev error resp := λ e c w,
  match e return res error (resp e) * (manager * sample_world) with
  | Store_has id => (Ok (bool_decide (id = sample_id)), (c, w))
  | Store_snapshot =>
      (Ok {| structureRevision := 1; tabs := [sample_tab (sample_state w)] |}, (c, w))
  | Store_setDesiredState _ d => (Ok tt, (c, SampleWorld d (sample_alive w)))
  | Runtime_exists _ => (Ok (sample_alive w), (c, w))
  | Runtime_prepare _ _ => (Ok tt, (c, SampleWorld (sample_state w) true))
  | Runtime_kill _ => (Ok tt, (c, SampleWorld (sample_state w) false))
  | Runtime_list => (Ok [], (c, w))
  | Registry_get _ => (Ok None, (c, w))
  | Registry_entries => (Ok [], (c, w))
  | Pty_spawn _ _ => (Ok 0%nat, (c, w))
  | Bridge_create _ _ _ => (Ok 0%nat, (c, w))
  | Settings_current =>
      (Ok {| shell := js "/bin/sh"; historyLimit := 1000 |}, (c, w))
  | Eligibility_read _ => (Ok sample_snapshot, (c, w))
  | Store_remove _ | Registry_close _ _ | Registry_replace _ _ | Activity_mark _ =>
      (Ok tt, (c, w))
  end.

#[export] Instance sample_env : ManagerEnv sample_handler.
Proof. split. intros e c w r c' w' Hh. destruct e; simplify_eq/=; done. Defined.

#[export] Instance sample_platform : Platform :=
  {| nfc := λ s, s; iso_datetime := λ _, true |}.
Definition sample_options : SessionManagerOptions :=
  {| has_store := true; has_activity := true; preparer_is_controller := true;
     has_runtimeSettings := true; has_cleanupEligibility := true |}.
Definition sample_dims : TerminalDimensions := {| cols := 80; rows := 24 |}.
Definition sample_token : AttachToken :=
  {| token_ref := 0; token_session := sample_id; token_generation := 1 |}.
(** After one [authorize] of the tab. *)
Definition sample_start : sys manager sample_world ev :=
  Sys (issue sample_id new_manager).2 (SampleWorld active true) [].

Lemma sample_start_ok : manager_ok (comp sample_start).
Proof. apply issue_ok, new_manager_ok. Qed.

Lemma tokens_die_witness :
  is_ok (connect sample_handler sample_options sample_token 0 sample_dims sample_start).1 = true ∧
  is_ok (connect sample_handler sample_options sample_token 0 sample_dims
    (run_lifecycle sample_handler sample_options L_restart sample_id sample_start)).1 = false.
Proof.
  split; [vm_compute; reflexivity|].
  refine (proj1 (tokens_die sample_handler sample_options L_restart sample_id sample_token 0
    sample_dims sample_start _ sample_start_ok _ eq_refl _ _)).
  - left.
  - vm_compute. discriminate.
  - constructor.
Defined.

Lemma connect_guarded_witness :
  ∃ X, steps sample_start X
      (connect sample_handler sample_options sample_token 0 sample_dims sample_start).2 ∧
    length X = 6%nat.
Proof.
  assert (length (effects (log (connect sample_handler sample_options sample_token 0
    sample_dims sample_start).2)) = 6%nat) as Hlen by (vm_compute; reflexivity).
  pose proof (connect_guarded sample_handler sample_options sample_token 0 sample_dims
    sample_start) as Hc.
  revert Hlen Hc. generalize (connect sample_handler sample_options sample_token 0
    sample_dims sample_start). intros [r s'] Hlen (X & HX & _). exists X.
  split; [exact HX|]. destruct HX as [HX _]. simpl in HX, Hlen. rewrite HX in Hlen. exact Hlen.
Defined.

Lemma stop_protocols_witness :
  let r := terminate sample_handler sample_options sample_id sample_start in
  is_ok r.1 = true ∧
  ∃ X, steps sample_start X r.2 ∧ terminate_trace sample_id (is_ok r.1) X.
Proof.
  split; [vm_compute; reflexivity|].
  destruct (stop_protocols sample_handler sample_options sample_id sample_start) as [Hs _].
  revert Hs. generalize (terminate sample_handler sample_options sample_id sample_start).
  intros [r s'] Hs. exact Hs.
Defined.

Lemma start_protocols_witness :
  let r := restart sample_handler sample_options sample_id sample_start in
  is_ok r.1 = true ∧
  ∃ X, steps sample_start X r.2 ∧ restart_trace sample_id (is_ok r.1) X.
Proof.
  split; [vm_compute; reflexivity|].
  destruct (start_protocols sample_handler sample_options sample_id sample_start) as [Hs _].
  revert Hs. generalize (restart sample_handler sample_options sample_id sample_start).
  intros [r s'] Hs. exact Hs.
Defined.

Lemma terminate_only_reconfirmed_witness :
  let r := terminateIfStale sample_handler sample_options sample_id sample_snapshot sample_start in
  r.1 = Ok Terminated ∧ reconfirmed sample_handler sample_id sample_snapshot.
Proof.
  assert ((terminateIfStale sample_handler sample_options sample_id sample_snapshot
    sample_start).1 = Ok Terminated) as Hr by (vm_compute; reflexivity).
  split; [exact Hr|].
  pose proof (terminate_only_reconfirmed sample_handler sample_options sample_id sample_snapshot
    sample_start) as Hs.
  revert Hr Hs. generalize (terminateIfStale sample_handler sample_options sample_id
    sample_snapshot sample_start). intros [r s'] Hr. simpl in Hr. subst r.
  intros (X & _ & Hre & _). exact Hre.
Defined.
