(* ===== verification/StaleCleaner.v ===== *)
(** [apps/server/src/stale-session-cleaner.ts]: the class
    [StaleSessionCleaner].

    The cleaner is a state machine over the events of the event loop: a call
    of [runNow], a timer callback, the settling of the promise of
    [eligibility.read] or [sessions.terminateIfStale] that a run awaits, the
    [finishRun] callback and [shutdown].  What the settings, the tab list, the
    clock and the scheduler answer during an event is the event's [inputs].
    Those calls are synchronous and do not call the cleaner back. *)
From S2P Require Import Prelude Tabs Eligibility SessionManager.
Open Scope Z_scope.

Definition HOUR_MS : Z := 60 * 60 * 1000.
Definition MAX_THRESHOLD_HOURS : Z := 8760.
Definition MAX_SESSIONS : Z := 20.

Record StaleSessionCleanerOptions := { maxSessions : Z; intervalMs : Z }.

(** A JavaScript number: its value when it is an integer. *)
Abbreviation number := (option Z).

Inductive CleanupDependencyFailure := settings_unavailable | tabs_unavailable.
Inductive CleanupThreshold := Available (hours : Z) | Unavailable.

Record CleanupResult := {
  res_disabled : bool;
  res_examined : Z;
  res_terminated : Z;
  res_skipped : Z;
  res_failed : Z;
  res_startedAt : Z;    (** the instant of the ISO string *)
  res_finishedAt : Z;
}.

(** The local variables of the loop of [execute]. *)
Record loop := Loop {
  startedMs : Z;
  loop_thresholdMs : Z;
  loop_cutoffMs : Z;
  rest : list jsstr;       (** the tabs after the current one *)
  examined : Z;
  terminated : Z;
  skipped : Z;
  failed : Z;
}.

(** Where an operation is; [None] is a rejected promise. *)
Inductive progress :=
| Reading (id : jsstr) (l : loop)
| Terminating (id : jsstr) (snapshot : EligibilitySnapshot) (l : loop)
| Settled (r : option CleanupResult).

(** What was done for an operation, in order. *)
Inductive outcome := O_terminated | O_skipped | O_failed.
Inductive entry :=
| Read (op : nat) (r : EligibilityRequest)
| Terminate (op : nat) (id : jsstr) (snapshot : EligibilitySnapshot)
| Count (op : nat) (oc : outcome).

(** A registration whose [handle] was set. *)
Record TimerRegistration := { reg_id : nat; cancelling : bool }.

Record cleaner := Cleaner {
  timer : option TimerRegistration;
  inFlight : option nat;
  inFlightThresholdHours : option Z;
  inFlightDependencyFailure : option CleanupDependencyFailure;
  lastResult : option CleanupResult;
  lastDependencyFailure : option CleanupDependencyFailure;
  shutdownPromise : option (option nat);   (** the operation it follows *)
  shuttingDown : bool;
  operations : gmap nat progress;   (** those whose callback has not run *)
  next_op : nat;
  next_reg : nat;
  trace : list entry;
}.

(** What the dependencies answer during an event. *)
Record inputs := {
  in_settings : option number;     (** [None]: [snapshot()] throws *)
  in_now : number;                 (** the first reading of the clock *)
  in_end : number;                 (** the second *)
  in_tabs : option (list jsstr);   (** [None]: [snapshot()] throws *)
  in_set : bool;                   (** [setTimeout] returns *)
  in_clear : bool;                 (** [clearTimeout] returns *)
}.

Definition valid_configuration (o : StaleSessionCleanerOptions) : bool :=
  (1 <=? maxSessions o) && (maxSessions o <=? MAX_SESSIONS) &&
  is_safe_integer (intervalMs o) && (1 <=? intervalMs o).

Definition thresholdSnapshot (v : option number) : CleanupThreshold :=
  match v with
  | Some (Some value) =>
      if (0 <=? value) && (value <=? MAX_THRESHOLD_HOURS) then Available value else Unavailable
  | _ => Unavailable
  end.

Definition validNow (value : number) : Z :=
  match value with
  | Some z => if is_safe_integer z then z else 0
  | None => 0
  end.

(** The private method [result]; [None] when it throws. *)
Definition result (disabled : bool) (examined terminated skipped failed startedAt : Z)
    (now : number) : option CleanupResult :=
  finishedAt ← toISOString (validNow now);
  Some {| res_disabled := disabled; res_examined := examined; res_terminated := terminated;
          res_skipped := skipped; res_failed := failed; res_startedAt := startedAt;
          res_finishedAt := finishedAt |}.

(** * Updates of the fields *)

Definition set_timer (t : option TimerRegistration) (s : cleaner) : cleaner :=
  Cleaner t (inFlight s) (inFlightThresholdHours s) (inFlightDependencyFailure s)
    (lastResult s) (lastDependencyFailure s) (shutdownPromise s) (shuttingDown s)
    (operations s) (next_op s) (next_reg s) (trace s).
Definition set_run (op : option nat) (h : option Z) (f : option CleanupDependencyFailure)
    (s : cleaner) : cleaner :=
  Cleaner (timer s) op h f
    (lastResult s) (lastDependencyFailure s) (shutdownPromise s) (shuttingDown s)
    (operations s) (next_op s) (next_reg s) (trace s).
Definition set_last (r : option CleanupResult) (f : option CleanupDependencyFailure)
    (s : cleaner) : cleaner :=
  Cleaner (timer s) (inFlight s) (inFlightThresholdHours s) (inFlightDependencyFailure s)
    r f (shutdownPromise s) (shuttingDown s)
    (operations s) (next_op s) (next_reg s) (trace s).
Definition set_shutdown (p : option nat) (s : cleaner) : cleaner :=
  Cleaner (timer s) (inFlight s) (inFlightThresholdHours s) (inFlightDependencyFailure s)
    (lastResult s) (lastDependencyFailure s) (Some p) true
    (operations s) (next_op s) (next_reg s) (trace s).
Definition set_operations (ops : gmap nat progress) (tr : list entry) (s : cleaner) : cleaner :=
  Cleaner (timer s) (inFlight s) (inFlightThresholdHours s) (inFlightDependencyFailure s)
    (lastResult s) (lastDependencyFailure s) (shutdownPromise s) (shuttingDown s)
    ops (next_op s) (next_reg s) tr.

(** * Timer *)

Definition schedule (i : inputs) (s : cleaner) : cleaner :=
  if shuttingDown s then s
  else match timer s with
       | Some _ => s
       | None =>
           Cleaner (if in_set i then Some {| reg_id := next_reg s; cancelling := false |} else None)
             (inFlight s) (inFlightThresholdHours s) (inFlightDependencyFailure s)
             (lastResult s) (lastDependencyFailure s) (shutdownPromise s) (shuttingDown s)
             (operations s) (next_op s) (S (next_reg s)) (trace s)
       end.

Definition cancelTimer (i : inputs) (s : cleaner) : cleaner :=
  match timer s with
  | None => s
  | Some r =>
      if in_clear i then set_timer None s
      else set_timer (Some {| reg_id := reg_id r; cancelling := false |}) s
  end.

(** * Runs *)

Section cleaner.
Context (o : StaleSessionCleanerOptions).

(** The head of the loop: the next tab is read, or the result is made.  The
    entries are what is done at once. *)
Definition next_tab (op : nat) (now : number) (l : loop) : progress * list entry :=
  match rest l with
  | [] => (Settled (result false (examined l) (terminated l) (skipped l) (failed l)
                      (startedMs l) now), [])
  | id :: ids =>
      (Reading id (Loop (startedMs l) (loop_thresholdMs l) (loop_cutoffMs l) ids
                     (examined l + 1) (terminated l) (skipped l) (failed l)),
       [Read op (Request id (loop_thresholdMs l) (loop_cutoffMs l))])
  end.

Definition count (oc : outcome) (l : loop) : loop :=
  Loop (startedMs l) (loop_thresholdMs l) (loop_cutoffMs l) (rest l) (examined l)
    (terminated l + match oc with O_terminated => 1 | _ => 0 end)
    (skipped l + match oc with O_skipped => 1 | _ => 0 end)
    (failed l + match oc with O_failed => 1 | _ => 0 end).

(** The end of an iteration. *)
Definition counted (op : nat) (now : number) (oc : outcome) (l : loop) : progress * list entry :=
  let '(p, tr) := next_tab op now (count oc l) in (p, Count op oc :: tr).

(** [execute] up to its first [await]; also whether the tabs failed. *)
Definition execute (i : inputs) (op : nat) (t : CleanupThreshold)
    : progress * list entry * bool :=
  let startedMs := validNow (in_now i) in
  match toISOString startedMs with
  | None => (Settled None, [], false)
  | Some startedAt =>
      match t with
      | Unavailable => (Settled (result false 0 0 0 1 startedAt (in_end i)), [], false)
      | Available thresholdHours =>
          if thresholdHours =? 0
          then (Settled (result true 0 0 0 0 startedAt (in_end i)), [], false)
          else
            let thresholdMs := thresholdHours * HOUR_MS in
            let cutoffMs := startedMs - thresholdMs in
            match in_tabs i with
            | None => (Settled (result false 0 0 0 1 startedAt (in_end i)), [], true)
            | Some tabs =>
                (next_tab op (in_end i)
                  (Loop startedMs thresholdMs cutoffMs (take (Z.to_nat (maxSessions o)) tabs)
                     0 0 0 0), false)
            end
      end
  end.

Definition startRun (i : inputs) (t : CleanupThreshold) (s : cleaner) : nat * cleaner :=
  match inFlight s with
  | Some op => (op, s)
  | None =>
      let s := cancelTimer i s in
      let op := next_op s in
      let '(p, tr, tabs_failed) := execute i op t in
      (op, Cleaner (timer s) (Some op)
             (match t with Available h => Some h | Unavailable => None end)
             (if tabs_failed then Some tabs_unavailable
              else match t with Available _ => None | Unavailable => Some settings_unavailable end)
             (lastResult s) (lastDependencyFailure s) (shutdownPromise s) (shuttingDown s)
             (<[op := p]> (operations s)) (S op) (next_reg s) (trace s ++ tr))
  end.

Inductive run_answer :=
| Cleanup_unavailable       (** rejected *)
| Cleanup_disabled          (** rejected with [CleanupDisabledError] *)
| Operation (op : nat).     (** the promise of the operation *)

Definition runNow (i : inputs) (s : cleaner) : run_answer * cleaner :=
  if shuttingDown s then (Cleanup_unavailable, s)
  else match inFlight s with
       | Some op =>
           (if bool_decide (inFlightThresholdHours s = Some 0) &&
               match inFlightDependencyFailure s with None => true | _ => false end
            then Cleanup_disabled else Operation op, s)
       | None =>
           match thresholdSnapshot (in_settings i) with
           | Available 0 => (Cleanup_disabled, s)
           | t => let '(op, s) := startRun i t s in (Operation op, s)
           end
       end.

Definition fireTimer (i : inputs) (reg : nat) (s : cleaner) : cleaner :=
  match timer s with
  | Some r =>
      if (reg_id r =? reg)%nat then
        let s := set_timer None s in
        if cancelling r || shuttingDown s then s
        else (startRun i (thresholdSnapshot (in_settings i)) s).2
      else s
  | None => s
  end.

(** The callback of the operation's promise. *)
Definition finishRun (i : inputs) (op : nat) (r : option CleanupResult) (s : cleaner) : cleaner :=
  if bool_decide (inFlight s = Some op) then
    let s := match r with
             | Some _ => set_last r (inFlightDependencyFailure s) s
             | None => s
             end in
    schedule i (set_run None None None s)
  else s.

Definition shutdown (i : inputs) (s : cleaner) : cleaner :=
  match shutdownPromise s with
  | Some _ => s
  | None => cancelTimer i (set_shutdown (inFlight s) s)
  end.

Definition waitForIdle (s : cleaner) : option (nat + CleanupResult) :=
  match inFlight s with
  | Some op => Some (inl op)
  | None => inr <$> lastResult s
  end.

Record CleanupStatus := {
  enabled : bool;
  running : bool;
  lastRunAt : option Z;
  dependencyFailure : option CleanupDependencyFailure;
}.

Definition status (i : inputs) (s : cleaner) : CleanupStatus :=
  let threshold := thresholdSnapshot (in_settings i) in
  let is_running := match inFlight s with Some _ => true | None => false end in
  {| enabled := match threshold with Available h => 0 <? h | Unavailable => false end;
     running := is_running;
     lastRunAt := res_startedAt <$> lastResult s;
     dependencyFailure :=
       match threshold with
       | Available _ =>
           if is_running then inFlightDependencyFailure s else lastDependencyFailure s
       | Unavailable => Some settings_unavailable
       end |}.

Definition new_cleaner (i : inputs) : cleaner :=
  schedule i (Cleaner None None None None None None None false ∅ 0 0 []).

(** * Events *)

Inductive event :=
| Run_now
| Timer_fires (reg : nat)
| Read_settles (op : nat) (r : option EligibilitySnapshot)        (** [None]: rejects *)
| Terminate_settles (op : nat) (r : option CleanupTerminationResult)
| Finished (op : nat)
| Shutdown.

(** The body of the loop when [eligibility.read] settles. *)
Definition on_read (op : nat) (now : number) (id : jsstr) (l : loop)
    (r : option EligibilitySnapshot) : progress * list entry :=
  match r with
  | None => counted op now O_failed l
  | Some snapshot =>
      if eligible snapshot then (Terminating id snapshot l, [Terminate op id snapshot])
      else counted op now O_skipped l
  end.

(** The body of the loop when [terminateIfStale] settles; every value of its
    type is ['terminated'] or starts with ['skipped:']. *)
Definition on_terminate (op : nat) (now : number) (l : loop)
    (r : option CleanupTerminationResult) : progress * list entry :=
  match r with
  | None => counted op now O_failed l
  | Some Terminated => counted op now O_terminated l
  | Some (Skipped _) => counted op now O_skipped l
  end.

Definition put (op : nat) (r : progress * list entry) (s : cleaner) : cleaner :=
  set_operations (<[op := r.1]> (operations s)) (trace s ++ r.2) s.

Definition step (i : inputs) (e : event) (s : cleaner) : option cleaner :=
  match e with
  | Run_now => Some (runNow i s).2
  | Timer_fires reg => Some (fireTimer i reg s)
  | Read_settles op r =>
      match operations s !! op with
      | Some (Reading id l) => Some (put op (on_read op (in_end i) id l r) s)
      | _ => None
      end
  | Terminate_settles op r =>
      match operations s !! op with
      | Some (Terminating _ _ l) => Some (put op (on_terminate op (in_end i) l r) s)
      | _ => None
      end
  | Finished op =>
      match operations s !! op with
      | Some (Settled r) =>
          Some (finishRun i op r (set_operations (delete op (operations s)) (trace s) s))
      | _ => None
      end
  | Shutdown => Some (shutdown i s)
  end.

Fixpoint exec (es : list (inputs * event)) (s : cleaner) : option cleaner :=
  match es with
  | [] => Some s
  | (i, e) :: es => s' ← step i e s; exec es s'
  end.
End cleaner.

(** * Single flight *)

(** The entries of an operation. *)
Definition entry_op (e : entry) : nat :=
  match e with Read op _ | Terminate op _ _ | Count op _ => op end.
Definition entries_of (op : nat) (tr : list entry) : list entry :=
  List.filter (λ e, (entry_op e =? op)%nat) tr.

Record cleaner_ok (s : cleaner) : Prop := {
  ok_single : ∀ op p, operations s !! op = Some p → inFlight s = Some op;
  ok_running : ∀ op, inFlight s = Some op → is_Some (operations s !! op);
  ok_old : ∀ op, inFlight s = Some op → (op < next_op s)%nat;
  ok_trace : ∀ e, e ∈ trace s → (entry_op e < next_op s)%nat;
  ok_timer : ∀ r, timer s = Some r → cancelling r = false ∧ (reg_id r < next_reg s)%nat;
  ok_shutdown : shuttingDown s = true ↔ is_Some (shutdownPromise s);
}.

Section flight.
Context (o : StaleSessionCleanerOptions).

Lemma entries_of_app op t1 t2 : entries_of op (t1 ++ t2) = entries_of op t1 ++ entries_of op t2.
Proof. apply List.filter_app. Qed.

Lemma entries_of_all op tr : Forall (λ e, entry_op e = op) tr → entries_of op tr = tr.
Proof.
  induction 1 as [|e tr He _ IH]; [done|]. unfold entries_of in *. simpl.
  by rewrite He, Nat.eqb_refl, IH.
Qed.
Lemma entries_of_none op tr : Forall (λ e, entry_op e ≠ op) tr → entries_of op tr = [].
Proof.
  induction 1 as [|e tr He _ IH]; [done|]. unfold entries_of in *. simpl.
  apply Nat.eqb_neq in He. by rewrite He.
Qed.

Lemma next_tab_entries op now l : Forall (λ e, entry_op e = op) (next_tab op now l).2.
Proof. unfold next_tab. destruct (rest l); repeat constructor. Qed.
Lemma counted_entries op now oc l : Forall (λ e, entry_op e = op) (counted op now oc l).2.
Proof.
  unfold counted. pose proof (next_tab_entries op now (count oc l)).
  destruct (next_tab _ _ _) as [p tr]. by constructor.
Qed.
Lemma on_read_entries op now id l r : Forall (λ e, entry_op e = op) (on_read op now id l r).2.
Proof.
  destruct r as [sn|]; simpl; [destruct (eligible sn)|]; try apply counted_entries.
  repeat constructor.
Qed.
Lemma on_terminate_entries op now l r :
  Forall (λ e, entry_op e = op) (on_terminate op now l r).2.
Proof. destruct r as [[]|]; apply counted_entries. Qed.
Lemma execute_entries i op t : Forall (λ e, entry_op e = op) (execute o i op t).1.2.
Proof.
  unfold execute. destruct (toISOString _); [|constructor].
  destruct t as [h|]; [|constructor]. destruct (h =? 0); [constructor|].
  destruct (in_tabs i); [apply next_tab_entries|constructor].
Qed.

Lemma cleaner_schedule_ok i s : cleaner_ok s → cleaner_ok (schedule i s).
Proof.
  intros Hok. unfold schedule. destruct (shuttingDown s) eqn:Hs; [done|].
  destruct (timer s) eqn:Ht; [done|]. destruct Hok as [H1 H2 H3 H4 H5 H6].
  split; simpl; try done; [|by rewrite <-Hs].
  intros r. destruct (in_set i); [|done]. intros [= <-]. simpl. split; [done|lia].
Qed.
Lemma cancel_ok i s : cleaner_ok s → cleaner_ok (cancelTimer i s).
Proof.
  intros Hok. unfold cancelTimer. destruct (timer s) as [r|] eqn:Ht; [|done].
  destruct Hok as [H1 H2 H3 H4 H5 H6]. apply H5 in Ht as [_ Ht].
  destruct (in_clear i); split; simpl; try done; by intros ? [= <-].
Qed.
Lemma cancel_fields i s :
  inFlight (cancelTimer i s) = inFlight s ∧ next_op (cancelTimer i s) = next_op s ∧
  operations (cancelTimer i s) = operations s ∧ trace (cancelTimer i s) = trace s ∧
  next_reg (cancelTimer i s) = next_reg s ∧
  shutdownPromise (cancelTimer i s) = shutdownPromise s ∧
  shuttingDown (cancelTimer i s) = shuttingDown s.
Proof. unfold cancelTimer. repeat case_match; done. Qed.

Lemma startRun_ok i t s : cleaner_ok s → cleaner_ok (startRun o i t s).2.
Proof.
  intros Hok. unfold startRun. destruct (inFlight s) as [op|] eqn:Hi; [done|].
  pose proof (cancel_ok i s Hok) as [H1 H2 H3 H4 H5 H6].
  destruct (cancel_fields i s) as (E1 & E2 & E3 & E4 & E5 & E6 & E7).
  pose proof (execute_entries i (next_op (cancelTimer i s)) t) as Hx.
  destruct (execute o i _ t) as [[p tr] b]. simpl in Hx |- *. split; simpl; try done.
  - intros op' p' [[<- _]|[_ Hl]]%lookup_insert_Some; [done|]. apply H1 in Hl. congruence.
  - intros op' [= <-]. rewrite lookup_insert_eq. by eexists.
  - intros op' [= <-]. lia.
  - intros e [He|He]%elem_of_app; [specialize (H4 e He); lia|].
    rewrite Forall_forall in Hx. rewrite (Hx e He). lia.
Qed.

Lemma cleaner_put_ok op r s :
  is_Some (operations s !! op) → Forall (λ e, entry_op e = op) r.2 →
  cleaner_ok s → cleaner_ok (put op r s).
Proof.
  intros [p Hp] Hr [H1 H2 H3 H4 H5 H6]. pose proof (H1 _ _ Hp) as Hi.
  split; simpl; try done.
  - intros op' p' [[<- _]|[_ Hl]]%lookup_insert_Some; [done|by eapply H1].
  - intros op' Ho. rewrite Hi in Ho. injection Ho as <-. rewrite lookup_insert_eq. by eexists.
  - intros e [He|He]%elem_of_app; [by apply H4|].
    rewrite Forall_forall in Hr. rewrite (Hr e He). by apply H3.
Qed.

Lemma cleaner_finish_ok i op r s :
  operations s !! op = Some (Settled r) → cleaner_ok s →
  cleaner_ok (finishRun i op r (set_operations (delete op (operations s)) (trace s) s)).
Proof.
  intros Hp [H1 H2 H3 H4 H5 H6]. pose proof (H1 _ _ Hp) as Hi.
  unfold finishRun. simpl. rewrite bool_decide_true by done. apply cleaner_schedule_ok.
  assert (∀ op' p', delete op (operations s) !! op' = Some p' → None = Some op') as Hnone.
  { intros op' p' [Hne Hl]%lookup_delete_Some. apply H1 in Hl. congruence. }
  destruct r; split; simpl; done.
Qed.

Lemma cleaner_step_ok i e s s' : step o i e s = Some s' → cleaner_ok s → cleaner_ok s'.
Proof.
  destruct e as [|reg|op r|op r|op|]; simpl.
  - intros [= <-] Hok. unfold runNow. destruct (shuttingDown s); [done|].
    destruct (inFlight s); [done|].
    pose proof (startRun_ok i (thresholdSnapshot (in_settings i)) s Hok) as Hs.
    destruct (thresholdSnapshot (in_settings i)) as [[|h|h]|]; [done|..];
      by destruct (startRun _ _ _ _).
  - intros [= <-] Hok. unfold fireTimer. destruct (timer s) as [r|] eqn:Ht; [|done].
    destruct (reg_id r =? reg)%nat; [|done].
    assert (cleaner_ok (set_timer None s)) by (destruct Hok; by split).
    case_match; [done|by apply startRun_ok].
  - destruct (operations s !! op) as [[id l| |]|] eqn:Hp; try done. intros [= <-].
    apply cleaner_put_ok; [by eexists|apply on_read_entries].
  - destruct (operations s !! op) as [[| id sn l|]|] eqn:Hp; try done. intros [= <-].
    apply cleaner_put_ok; [by eexists|apply on_terminate_entries].
  - destruct (operations s !! op) as [[| |r]|] eqn:Hp; try done. intros [= <-].
    by apply cleaner_finish_ok.
  - intros [= <-] Hok. unfold shutdown. destruct (shutdownPromise s) eqn:Hs; [done|].
    apply cancel_ok. destruct Hok. split; simpl; try done.
Qed.

Lemma exec_ok es s s' : exec o es s = Some s' → cleaner_ok s → cleaner_ok s'.
Proof.
  revert s. induction es as [|[i e] es IH]; intros s; simpl; [by intros [= <-]|].
  destruct (step o i e s) as [s1|] eqn:Hs; simpl; [|done].
  intros H1 H2. by eapply IH, cleaner_step_ok.
Qed.
Lemma new_cleaner_ok i : cleaner_ok (new_cleaner i).
Proof. apply cleaner_schedule_ok. split; simpl; try done; set_solver. Qed.

(** ** After a shutdown *)

Lemma schedule_op i s :
  next_op (schedule i s) = next_op s ∧ inFlight (schedule i s) = inFlight s ∧
  operations (schedule i s) = operations s ∧ trace (schedule i s) = trace s ∧
  shuttingDown (schedule i s) = shuttingDown s ∧
  shutdownPromise (schedule i s) = shutdownPromise s.
Proof. unfold schedule. repeat case_match; done. Qed.

Definition closed (n : nat) (p : option (option nat)) (s : cleaner) : Prop :=
  shuttingDown s = true ∧ next_op s = n ∧ shutdownPromise s = p.

Lemma step_closed i e s s' n p :
  step o i e s = Some s' → cleaner_ok s → closed n p s → closed n p s'.
Proof.
  intros Hs Hok (H1 & H2 & H3). unfold closed.
  destruct e as [|reg|op r|op r|op|]; simpl in Hs.
  - injection Hs as <-. unfold runNow. by rewrite H1.
  - injection Hs as <-. unfold fireTimer. destruct (timer s) as [r|]; [|done].
    destruct (reg_id r =? reg)%nat; [|done]. simpl. by rewrite H1, orb_true_r.
  - destruct (operations s !! op) as [[]|]; try done. by injection Hs as <-.
  - destruct (operations s !! op) as [[]|]; try done. by injection Hs as <-.
  - destruct (operations s !! op) as [[| |r]|]; try done. injection Hs as <-.
    unfold finishRun. case_bool_decide; [|done].
    set (s1 := set_run _ _ _ _). destruct (schedule_op i s1) as (-> & _ & _ & _ & -> & ->).
    by destruct r.
  - injection Hs as <-. unfold shutdown.
    apply (ok_shutdown _ Hok) in H1 as Hsome. destruct Hsome as [x Hx]. by rewrite Hx.
Qed.

Lemma exec_closed es s s' n p :
  exec o es s = Some s' → cleaner_ok s → closed n p s → closed n p s'.
Proof.
  revert s. induction es as [|[i e] es IH]; intros s; simpl; [by intros [= <-]|].
  destruct (step o i e s) as [s1|] eqn:Hs; simpl; [|done]. intros H1 H2 H3.
  eapply IH; [done|by eapply cleaner_step_ok|by eapply step_closed].
Qed.

Lemma shutdown_fields i s : shutdownPromise s = None →
  closed (next_op s) (Some (inFlight s)) (shutdown i s).
Proof.
  intros Hs. unfold shutdown, closed. rewrite Hs.
  destruct (cancel_fields i (set_shutdown (inFlight s) s)) as (_ & -> & _ & _ & _ & -> & ->).
  done.
Qed.
End flight.

(** In every run of the cleaner, whatever its dependencies answer and
    however its timers fire, at most one operation exists at a time and it is
    the one in flight; after [shutdown] no further operation begins, and the
    operation that the shutdown waits for is gone once none is in flight. *)
Theorem cleaner_single_flight (o : StaleSessionCleanerOptions) i0 es s :
  exec o es (new_cleaner i0) = Some s →
  (∀ op1 p1 op2 p2, operations s !! op1 = Some p1 → operations s !! op2 = Some p2 → op1 = op2) ∧
  (∀ op, inFlight s = Some op ↔ is_Some (operations s !! op)) ∧
  ∀ i es' s', shuttingDown s = false → exec o es' (shutdown i s) = Some s' →
    next_op s' = next_op s ∧ shutdownPromise s' = Some (inFlight s) ∧
    (∀ i', runNow o i' s' = (Cleanup_unavailable, s')) ∧
    (inFlight s' = None → operations s' = ∅).
Proof.
  intros Hx. pose proof (exec_ok o _ _ _ Hx (new_cleaner_ok i0)) as Hok.
  split_and!.
  - intros op1 p1 op2 p2 H1 H2.
    apply (ok_single _ Hok) in H1, H2. congruence.
  - intros op. split; [apply (ok_running _ Hok)|]. intros [p Hp]. by eapply ok_single.
  - intros i es' s' Hno Hx'.
    assert (shutdownPromise s = None) as Hp.
    { destruct (shutdownPromise s) eqn:Hp; [|done].
      pose proof (proj2 (ok_shutdown _ Hok)) as Hd. rewrite Hp, Hno in Hd.
      discriminate Hd. by eexists. }
    pose proof (cleaner_step_ok o i Shutdown s _ eq_refl Hok) as Hok1.
    destruct (exec_closed o _ _ _ _ _ Hx' Hok1 (shutdown_fields i s Hp)) as (Hd & Hn & Hpr).
    split_and!; [done|done| |].
    + intros i'. unfold runNow. by rewrite Hd.
    + intros Hi. apply map_empty. intros op. apply eq_None_not_Some. intros [q Hq].
      apply (ok_single _ (exec_ok o _ _ _ Hx' Hok1)) in Hq. congruence.
Qed.

(** * The account of a run *)

(** How one tab was treated: it was read, and terminated only when the read
    found it eligible. *)
Inductive examination (op : nat) (q : jsstr → EligibilityRequest) (id : jsstr) :
    outcome → list entry → Prop :=
| Ex_read oc : oc ≠ O_terminated → examination op q id oc [Read op (q id); Count op oc]
| Ex_terminate snapshot oc : eligible snapshot = true →
    examination op q id oc [Read op (q id); Terminate op id snapshot; Count op oc].

Inductive examinations (op : nat) (q : jsstr → EligibilityRequest) :
    list (jsstr * outcome) → list entry → Prop :=
| Exs_nil : examinations op q [] []
| Exs_snoc ds tr id oc e : examinations op q ds tr → examination op q id oc e →
    examinations op q (ds ++ [(id, oc)]) (tr ++ e).

#[export] Instance outcome_eq_dec : EqDecision outcome.
Proof. solve_decision. Defined.

Definition tally (oc : outcome) (ds : list (jsstr * outcome)) : Z :=
  Z.of_nat (length (filter (λ d, d.2 = oc) ds)).

Lemma tally_app oc d1 d2 : tally oc (d1 ++ d2) = tally oc d1 + tally oc d2.
Proof. unfold tally. rewrite filter_app, length_app. lia. Qed.

Lemma tally_total ds :
  Z.of_nat (length ds) = tally O_terminated ds + tally O_skipped ds + tally O_failed ds.
Proof.
  induction ds as [|[id oc] ds IH]; [done|]. unfold tally in *. rewrite !filter_cons.
  destruct oc; simpl; repeat case_decide; try done; simpl; lia.
Qed.

Section account.
Context (o : StaleSessionCleanerOptions) (op : nat) (q : jsstr → EligibilityRequest)
  (ids : list jsstr) (started : Z).

Definition counts_ok (ds : list (jsstr * outcome)) (l : loop) : Prop :=
  startedMs l = started ∧ terminated l = tally O_terminated ds ∧
  skipped l = tally O_skipped ds ∧ failed l = tally O_failed ds ∧
  (∀ id, Request id (loop_thresholdMs l) (loop_cutoffMs l) = q id).

(** What is known of the operation while it runs over [ids]. *)
Definition account_ok (p : progress) (tr : list entry) : Prop :=
  match p with
  | Reading id l =>
      ∃ ds pre, ds.*1 ++ id :: rest l = ids ∧ examinations op q ds pre ∧
        tr = pre ++ [Read op (q id)] ∧ examined l = Z.of_nat (length ds) + 1 ∧
        counts_ok ds l
  | Terminating id snapshot l =>
      ∃ ds pre, ds.*1 ++ id :: rest l = ids ∧ examinations op q ds pre ∧
        tr = pre ++ [Read op (q id); Terminate op id snapshot] ∧
        eligible snapshot = true ∧ examined l = Z.of_nat (length ds) + 1 ∧ counts_ok ds l
  | Settled None => True
  | Settled (Some r) =>
      ∃ ds, ds.*1 = ids ∧ examinations op q ds tr ∧ res_disabled r = false ∧
        res_startedAt r = started ∧ res_examined r = Z.of_nat (length ds) ∧
        res_terminated r = tally O_terminated ds ∧ res_skipped r = tally O_skipped ds ∧
        res_failed r = tally O_failed ds
  end.

Lemma next_tab_account now l ds tr :
  ds.*1 ++ rest l = ids → examinations op q ds tr →
  examined l = Z.of_nat (length ds) → counts_ok ds l →
  account_ok (next_tab op now l).1 (tr ++ (next_tab op now l).2).
Proof.
  intros Hids Htr Hex Hc. pose proof Hc as (Hs & Ht & Hk & Hf & Hq). unfold next_tab.
  destruct (rest l) as [|id ids'] eqn:Hr; simpl.
  - unfold result. destruct (toISOString (validNow now)); simpl; [|done].
    exists ds. rewrite app_nil_r in *. done.
  - exists ds, tr. rewrite Hq. simpl. split_and!; try done. lia.
Qed.

Lemma counted_account now oc l ds pre e id :
  ds.*1 ++ id :: rest l = ids → examinations op q ds pre →
  examined l = Z.of_nat (length ds) + 1 → counts_ok ds l →
  examination op q id oc (e ++ [Count op oc]) →
  account_ok (counted op now oc l).1 ((pre ++ e) ++ (counted op now oc l).2).
Proof.
  intros Hids Hpre Hex (Hs & Ht & Hk & Hf & Hq) He. unfold counted.
  pose proof (next_tab_account now (count oc l) (ds ++ [(id, oc)]) (pre ++ e ++ [Count op oc]))
    as Hnext.
  destruct (next_tab op now (count oc l)) as [p tr]. simpl in *.
  rewrite <-!app_assoc in Hnext. rewrite <-app_assoc. apply Hnext.
  - rewrite fmap_app, <-app_assoc. done.
  - rewrite app_assoc, <-(app_assoc pre). by constructor.
  - rewrite length_app. simpl. lia.
  - unfold counts_ok. simpl. rewrite !tally_app, Ht, Hk, Hf. unfold tally at 2 4 6.
    by destruct oc; rewrite !filter_cons; repeat case_decide; simpl.
Qed.

Lemma on_read_account now id l r tr :
  account_ok (Reading id l) tr →
  account_ok (on_read op now id l r).1 (tr ++ (on_read op now id l r).2).
Proof.
  intros (ds & pre & Hids & Hpre & -> & Hex & Hc).
  destruct r as [sn|]; simpl; [destruct (eligible sn) eqn:He|].
  - simpl. exists ds, pre. by rewrite <-app_assoc.
  - apply (counted_account now _ l ds pre _ id); try done. by constructor.
  - apply (counted_account now _ l ds pre _ id); try done. by constructor.
Qed.

Lemma on_terminate_account now id sn l r tr :
  account_ok (Terminating id sn l) tr →
  account_ok (on_terminate op now l r).1 (tr ++ (on_terminate op now l r).2).
Proof.
  intros (ds & pre & Hids & Hpre & -> & He & Hex & Hc).
  destruct r as [[|why]|]; simpl; apply (counted_account now _ l ds pre _ id); try done;
    by constructor.
Qed.

(** The operation, while it exists, keeps its account. *)
Definition tracked (s : cleaner) : Prop :=
  (op < next_op s)%nat ∧
  ∀ p, operations s !! op = Some p → account_ok p (entries_of op (trace s)).

Lemma put_tracked op' r s :
  Forall (λ e, entry_op e = op') r.2 → tracked s →
  (op' = op → account_ok r.1 (entries_of op (trace s) ++ r.2)) →
  tracked (put op' r s).
Proof.
  intros Hr [Hlt Hs] Ha. split; [done|]. simpl. intros p. rewrite entries_of_app.
  intros [[-> <-]|[Hne Hl]]%lookup_insert_Some.
  - rewrite (entries_of_all op r.2) by done. by apply Ha.
  - rewrite (entries_of_none op r.2), app_nil_r; [by apply Hs|].
    eapply Forall_impl; [exact Hr|]. by intros e ->.
Qed.

Lemma same_tracked s s' :
  (next_op s <= next_op s')%nat → operations s' !! op = operations s !! op →
  entries_of op (trace s') = entries_of op (trace s) → tracked s → tracked s'.
Proof. intros H1 H2 H3 [H4 H5]. split; [lia|]. rewrite H2, H3. done. Qed.

Lemma startRun_tracked i t s : tracked s → tracked (startRun o i t s).2.
Proof.
  intros Hs. unfold startRun. destruct (inFlight s); [done|].
  destruct (cancel_fields i s) as (E1 & E2 & E3 & E4 & _).
  pose proof (execute_entries o i (next_op (cancelTimer i s)) t) as Hx.
  destruct (execute o i _ t) as [[p tr] b]. simpl in Hx |- *.
  pose proof Hs as [Hlt _]. eapply same_tracked; [..|exact Hs]; simpl.
  - lia.
  - rewrite lookup_insert_ne by lia. by rewrite E3.
  - rewrite entries_of_app, E4, (entries_of_none op tr), app_nil_r; [done|].
    eapply Forall_impl; [exact Hx|]. intros e ->. lia.
Qed.

Lemma step_tracked i e s s' : step o i e s = Some s' → tracked s → tracked s'.
Proof.
  destruct e as [|reg|op' r|op' r|op'|]; simpl.
  - intros [= <-] Hs. unfold runNow. destruct (shuttingDown s); [done|].
    destruct (inFlight s); [done|].
    pose proof (startRun_tracked i (thresholdSnapshot (in_settings i)) s Hs) as Ht.
    destruct (thresholdSnapshot (in_settings i)) as [[|h|h]|]; [done|..];
      by destruct (startRun _ _ _ _).
  - intros [= <-] Hs. unfold fireTimer. destruct (timer s) as [r|]; [|done].
    destruct (reg_id r =? reg)%nat; [|done].
    case_match; [done|by apply startRun_tracked].
  - destruct (operations s !! op') as [[id l| |]|] eqn:Hp; try done. intros [= <-] Hs.
    apply put_tracked; [apply on_read_entries|done|]. intros ->.
    by apply on_read_account, Hs.
  - destruct (operations s !! op') as [[|id sn l|]|] eqn:Hp; try done. intros [= <-] Hs.
    apply put_tracked; [apply on_terminate_entries|done|]. intros ->.
    by eapply on_terminate_account, Hs.
  - destruct (operations s !! op') as [[| |r]|] eqn:Hp; try done. intros [= <-] Hs.
    assert (tracked (set_operations (delete op' (operations s)) (trace s) s)) as Hs1.
    { destruct Hs as [H1 H2]. split; [done|]. simpl. intros p [_ Hl]%lookup_delete_Some.
      by apply H2. }
    unfold finishRun. case_bool_decide; [|done].
    eapply same_tracked; [..|exact Hs1];
      set (s1 := set_run _ _ _ _);
      destruct (schedule_op i s1) as (E1 & _ & E2 & E3 & _);
      rewrite ?E1, ?E2, ?E3; by destruct r.
  - intros [= <-] Hs. unfold shutdown. destruct (shutdownPromise s); [done|].
    destruct (cancel_fields i (set_shutdown (inFlight s) s)) as (_ & E1 & E2 & E3 & _).
    eapply same_tracked; [..|exact Hs]; by rewrite ?E1, ?E2, ?E3.
Qed.

Lemma exec_tracked es s s' : exec o es s = Some s' → tracked s → tracked s'.
Proof.
  revert s. induction es as [|[i e] es IH]; intros s; simpl; [by intros [= <-]|].
  destruct (step o i e s) as [s1|] eqn:Hs; simpl; [|done]. intros H1 H2.
  by eapply IH, step_tracked.
Qed.
End account.

Lemma thresholdSnapshot_bounds v h :
  thresholdSnapshot v = Available h → 0 <= h <= MAX_THRESHOLD_HOURS.
Proof.
  unfold thresholdSnapshot. destruct v as [[z|]|]; try done.
  destruct (_ && _) eqn:Hb; [|done]. intros [= ->]. breflect. lia.
Qed.

(** The requests of a run pass the check of the eligibility reader. *)
Lemma run_request_valid id h t :
  isSessionId id = true → 0 <= h <= MAX_THRESHOLD_HOURS → is_Some (toISOString t) →
  validRequest (Request id (h * HOUR_MS) (t - h * HOUR_MS)) = true.
Proof.
  unfold toISOString. intros Hid Hh [t' Ht]. destruct (_ && _) eqn:Hb; [|done]. breflect.
  unfold validRequest, is_safe_integer, MAX_THRESHOLD_MS, MAX_THRESHOLD_HOURS, HOUR_MS,
    MAX_SAFE_INTEGER, MAX_DATE in *. cbn [req_id thresholdMs cutoffMs]. rewrite Hid.
  rewrite !andb_true_iff, !Z.leb_le. lia.
Qed.


(** * Liveness *)

(** How far an operation is from its end. *)
Definition remaining (p : progress) : nat :=
  match p with
  | Reading _ l => 2 * length (rest l) + 3
  | Terminating _ _ l => 2 * length (rest l) + 2
  | Settled _ => 1
  end.
Definition distance (s : cleaner) : nat :=
  match inFlight s with
  | Some op => from_option remaining 0%nat (operations s !! op)
  | None => 0%nat
  end.

(** The event settles something that a run waits for. *)
Definition settles (e : event) : bool :=
  match e with Read_settles _ _ | Terminate_settles _ _ | Finished _ => true | _ => false end.

Definition armed (s : cleaner) : Prop :=
  shuttingDown s = false → is_Some (inFlight s) ∨ is_Some (timer s).

Lemma counted_remaining op now oc l :
  (remaining (counted op now oc l).1 <= 2 * length (rest l) + 1)%nat.
Proof.
  unfold counted, next_tab. simpl. destruct (rest l) eqn:Hr; simpl; rewrite ?Hr; simpl; lia.
Qed.

Lemma on_read_remaining op now id l r :
  (remaining (on_read op now id l r).1 < remaining (Reading id l))%nat.
Proof.
  destruct r as [sn|]; simpl; [destruct (eligible sn)|]; simpl; try lia;
    (eapply Nat.le_lt_trans; [apply counted_remaining|lia]).
Qed.
Lemma on_terminate_remaining op now id sn l r :
  (remaining (on_terminate op now l r).1 < remaining (Terminating id sn l))%nat.
Proof.
  destruct r as [[]|]; simpl; (eapply Nat.le_lt_trans; [apply counted_remaining|lia]).
Qed.

Section liveness.
Context (o : StaleSessionCleanerOptions).

Lemma settles_closer i e s s' :
  cleaner_ok s → settles e = true → step o i e s = Some s' → (distance s' < distance s)%nat.
Proof.
  intros Hok He Hs. destruct e as [|reg|op r|op r|op|]; try done; simpl in Hs.
  - destruct (operations s !! op) as [[id l| |]|] eqn:Hp; try done. injection Hs as <-.
    unfold distance. simpl. rewrite (ok_single _ Hok _ _ Hp), Hp, lookup_insert_eq.
    apply on_read_remaining.
  - destruct (operations s !! op) as [[|id sn l|]|] eqn:Hp; try done. injection Hs as <-.
    unfold distance. simpl. rewrite (ok_single _ Hok _ _ Hp), Hp, lookup_insert_eq.
    apply on_terminate_remaining.
  - destruct (operations s !! op) as [[| |r]|] eqn:Hp; try done. injection Hs as <-.
    unfold finishRun, distance. simpl. rewrite (ok_single _ Hok _ _ Hp), Hp.
    rewrite bool_decide_true by done. set (s1 := set_run _ _ _ _).
    destruct (schedule_op i s1) as (_ & -> & _). simpl. lia.
Qed.

(** Calls and timers that happen meanwhile do not delay a run. *)
Lemma others_wait i e s s' op :
  settles e = false → inFlight s = Some op → step o i e s = Some s' → distance s' = distance s.
Proof.
  intros He Hi Hs. destruct e as [|reg|? ?|? ?|?|]; try done; simpl in Hs; injection Hs as <-.
  - unfold runNow. rewrite Hi. by destruct (shuttingDown s).
  - unfold fireTimer, startRun. destruct (timer s) as [r|]; [|done].
    destruct (reg_id r =? reg)%nat; [|done]. simpl. rewrite Hi. by destruct (_ || _).
  - unfold shutdown. destruct (shutdownPromise s); [done|].
    destruct (cancel_fields i (set_shutdown (inFlight s) s)) as (E1 & _ & E2 & _).
    unfold distance. by rewrite E1, E2.
Qed.

Lemma schedule_armed i s : in_set i = true → armed (schedule i s).
Proof.
  intros Hs Hd. unfold schedule in *. destruct (shuttingDown s) eqn:Hsd; [congruence|].
  destruct (timer s) eqn:Ht; simpl; right; [rewrite Ht|rewrite Hs]; by eexists.
Qed.

Lemma step_armed i e s s' :
  in_set i = true → cleaner_ok s → step o i e s = Some s' → armed s → armed s'.
Proof.
  intros Hset Hok Hs Ha.
  assert (∀ t s, armed s ∨ inFlight s = None → armed (startRun o i t s).2) as Hrun.
  { intros t s1 [Ha1|Hi] _; unfold startRun; left.
    - destruct (inFlight s1) eqn:Hi; simpl; [rewrite Hi; by eexists|].
      destruct (execute _ _ _ _) as [[? ?] ?]. by eexists.
    - rewrite Hi. destruct (execute _ _ _ _) as [[? ?] ?]. by eexists. }
  destruct e as [|reg|op r|op r|op|]; simpl in Hs.
  - injection Hs as <-. unfold runNow. destruct (shuttingDown s); [done|].
    destruct (inFlight s) eqn:Hi; [done|].
    pose proof (Hrun (thresholdSnapshot (in_settings i)) s (or_intror Hi)) as Ht.
    destruct (thresholdSnapshot (in_settings i)) as [[|h|h]|]; [done|..];
      by destruct (startRun _ _ _ _).
  - injection Hs as <-. unfold fireTimer. destruct (timer s) as [r|] eqn:Ht; [|done].
    destruct (reg_id r =? reg)%nat; [|done].
    rewrite (proj1 (ok_timer _ Hok _ Ht)). simpl.
    destruct (shuttingDown s) eqn:Hd; [unfold armed; simpl; congruence|].
    apply Hrun. simpl. destruct (inFlight s) eqn:Hi; [left|by right].
    intros _. left. simpl. rewrite Hi. by eexists.
  - destruct (operations s !! op) as [[]|]; try done. by injection Hs as <-.
  - destruct (operations s !! op) as [[]|]; try done. by injection Hs as <-.
  - destruct (operations s !! op) as [[| |r]|] eqn:Hp; try done. injection Hs as <-.
    unfold finishRun. simpl. rewrite bool_decide_true by by eapply ok_single.
    by apply schedule_armed.
  - injection Hs as <-. unfold shutdown.
    destruct (shutdownPromise s) eqn:Hsd; [done|].
    destruct (cancel_fields i (set_shutdown (inFlight s) s)) as (_ & _ & _ & _ & _ & _ & E).
    unfold armed. rewrite E. done.
Qed.

Lemma exec_armed es s s' :
  Forall (λ p, in_set p.1 = true) es → cleaner_ok s → exec o es s = Some s' →
  armed s → armed s'.
Proof.
  intros Hall. revert s. induction Hall as [|[i e] es Hi _ IH]; intros s Hok; simpl;
    [by intros [= <-]|].
  destruct (step o i e s) as [s1|] eqn:Hs; simpl; [|done]. intros H1 H2.
  eapply IH; [by eapply cleaner_step_ok|done|by eapply step_armed].
Qed.
End liveness.

(** With a scheduler that works, the cleaner never falls asleep: until it
    is shut down an operation is in flight or the timer is armed.  While an
    operation is in flight an event that settles it is possible, every such
    event brings its end strictly closer, and no other event delays it. *)
Theorem cleaner_keeps_running (o : StaleSessionCleanerOptions) i0 es s :
  in_set i0 = true → Forall (λ p, in_set p.1 = true) es →
  exec o es (new_cleaner i0) = Some s →
  (shuttingDown s = false → is_Some (inFlight s) ∨ is_Some (timer s)) ∧
  ∀ op, inFlight s = Some op →
    (∀ i, ∃ e s', settles e = true ∧ step o i e s = Some s') ∧
    ∀ i e s', step o i e s = Some s' →
      if settles e then (distance s' < distance s)%nat else distance s' = distance s.
Proof.
  intros Hi0 Hall Hx. pose proof (exec_ok o _ _ _ Hx (new_cleaner_ok i0)) as Hok. split.
  - eapply exec_armed; [done|apply (new_cleaner_ok i0)|done|by apply schedule_armed].
  - intros op Hi. split.
    + intros i. destruct (ok_running _ Hok _ Hi) as [[id l|id sn l|r] Hp].
      * exists (Read_settles op None). simpl. rewrite Hp. eauto.
      * exists (Terminate_settles op None). simpl. rewrite Hp. eauto.
      * exists (Finished op). simpl. rewrite Hp. eauto.
    + intros i e s' Hs. destruct (settles e) eqn:He; [by eapply settles_closer|].
      by eapply others_wait.
Qed.

(** * Sample run: two of three tabs, one of them stale *)

Definition sample_options : StaleSessionCleanerOptions :=
  {| maxSessions := 2; intervalMs := 60000 |}.
Definition sample_inputs : inputs :=
  {| in_settings := Some (Some 24); in_now := Some 1767225600000; in_end := Some 1767225601000;
     in_tabs := Some [js "a"; js "b"; js "c"]; in_set := true; in_clear := true |}.
Definition sample_snapshot (id : jsstr) (e : bool) : EligibilitySnapshot :=
  Snapshot id 0 0 e (if e then None else Some connected) (Gen 0 0 0).
Definition sample_events : list (inputs * event) :=
  (λ e, (sample_inputs, e)) <$>
  [Read_settles 0 (Some (sample_snapshot (js "a") true)); Terminate_settles 0 (Some Terminated);
   Read_settles 0 (Some (sample_snapshot (js "b") false))].
Definition sample_run : option cleaner :=
  exec sample_options sample_events
    (startRun sample_options sample_inputs (Available 24) (new_cleaner sample_inputs)).2.
Definition sample_end : cleaner := default (new_cleaner sample_inputs) sample_run.
Definition sample_result : CleanupResult :=
  {| res_disabled := false; res_examined := 2; res_terminated := 1; res_skipped := 1;
     res_failed := 0; res_startedAt := 1767225600000; res_finishedAt := 1767225601000 |}.

Lemma cleaner_single_flight_witness :
  exec sample_options [(sample_inputs, Timer_fires 0)] (new_cleaner sample_inputs) =
    Some (fireTimer sample_options sample_inputs 0 (new_cleaner sample_inputs)) ∧
  inFlight (fireTimer sample_options sample_inputs 0 (new_cleaner sample_inputs)) = Some 0%nat ∧
  ∀ op1 p1 op2 p2,
    operations (fireTimer sample_options sample_inputs 0 (new_cleaner sample_inputs)) !! op1
      = Some p1 →
    operations (fireTimer sample_options sample_inputs 0 (new_cleaner sample_inputs)) !! op2
      = Some p2 → op1 = op2.
Proof.
  split; [done|]. split; [done|].
  destruct (cleaner_single_flight sample_options sample_inputs
              [(sample_inputs, Timer_fires 0)] _ eq_refl) as [H _]. exact H.
Defined.


Lemma cleaner_keeps_running_witness :
  is_Some (inFlight sample_end) ∧
  ∃ s', step sample_options sample_inputs (Finished 0) sample_end = Some s' ∧
    (distance s' < distance sample_end)%nat.
Proof.
  destruct (cleaner_keeps_running sample_options sample_inputs
    ((sample_inputs, Timer_fires 0) :: sample_events) sample_end)
    as [_ H]; [done|by repeat constructor|by vm_compute|].
  split; [by vm_compute; eexists|].
  destruct (H 0%nat) as [_ Hstep]; [by vm_compute|].
  destruct (step sample_options sample_inputs (Finished 0) sample_end) as [s'|] eqn:Hs.
  - exists s'. split; [done|]. exact (Hstep _ _ _ Hs).
  - exfalso. revert Hs. by vm_compute.
Defined.
