(* ===== verification/Csrf.v ===== *)
(** [apps/server/src/csrf-service.ts]: the class [CsrfService], and the
    base64url text of random bytes that it shares with the authentication
    service.

    The random bytes, the SHA-256 digest and the constant-time comparison are
    Node's crypto library: parameters.  The [WeakMap] from record objects to
    digests is a finite map from object identities; an entry is collected only
    when nothing can ask for it any more. *)
From S2P Require Import Prelude.
Open Scope Z_scope.

(** * [Buffer.from(bytes).toString('base64url')] *)

Definition base64url_char (n : Z) : Z :=
  if n <? 26 then 65 + n
  else if n <? 52 then 97 + (n - 26)
  else if n <? 62 then 48 + (n - 52)
  else if n =? 62 then 45 else 95.

Fixpoint base64url (bytes : list Z) : jsstr :=
  match bytes with
  | [] => []
  | [a] => base64url_char <$> [a / 4; a mod 4 * 16]
  | [a; b] => base64url_char <$> [a / 4; a mod 4 * 16 + b / 16; b mod 16 * 4]
  | a :: b :: c :: bytes =>
      (base64url_char <$> [a / 4; a mod 4 * 16 + b / 16; b mod 16 * 4 + c / 64; c mod 64]) ++
      base64url bytes
  end.

(** [[A-Za-z0-9_-]] *)
Definition is_base64url (c : Z) : bool :=
  ((65 <=? c) && (c <=? 90)) || ((97 <=? c) && (c <=? 122)) || ((48 <=? c) && (c <=? 57)) ||
  (c =? 95) || (c =? 45).

(** [/^[A-Za-z0-9_-]{43}$/]; without the [m] flag [$] is the end only. *)
Definition TOKEN_PATTERN (s : jsstr) : bool :=
  (length s =? 43)%nat && forallb is_base64url s.

Definition is_byte (b : Z) : Prop := 0 <= b < 256.

(** [{ token, record }], the record by its identity. *)
Record CsrfIssue := { csrf_token : jsstr; csrf_record : nat }.

Record csrf_state := { records : gmap nat (list Z); next_record : nat }.

Inductive csrf_error := Csrf_failed.

Section csrf.
Context (sha256 : jsstr → list Z) (compare : list Z → list Z → bool).

(** [bytes] is what [randomBytes(32)] returned. *)
Definition create (bytes : list Z) : M csrf_state csrf_error CsrfIssue :=
  do! throw_if (negb (length bytes =? 32)%nat) Csrf_failed in
  let token := base64url bytes in
  let! s := get in
  let record := next_record s in
  do! modify (λ s, {| records := <[record := sha256 token]> (records s);
                      next_record := S record |}) in
  ret {| csrf_token := token; csrf_record := record |}.

Definition verify (record : nat) (supplied : option jsstr) (s : csrf_state) : bool :=
  match supplied with
  | None => false
  | Some supplied =>
      if (512 <? Z.of_nat (length supplied)) || negb (TOKEN_PATTERN supplied) then false
      else match records s !! record with
           | None => false
           | Some expected => compare expected (sha256 supplied)
           end
  end.
End csrf.

(** * Base64url *)

(** The inverse of [base64url_char]. *)
Definition base64url_value (c : Z) : Z :=
  if (65 <=? c) && (c <=? 90) then c - 65
  else if (97 <=? c) && (c <=? 122) then c - 97 + 26
  else if (48 <=? c) && (c <=? 57) then c - 48 + 52
  else if c =? 45 then 62 else 63.

Fixpoint unbase64url (s : jsstr) : list Z :=
  match s with
  | p :: q :: r :: t :: s =>
      let '(p, q, r, t) :=
        (base64url_value p, base64url_value q, base64url_value r, base64url_value t) in
      [p * 4 + q / 16; q mod 16 * 16 + r / 4; r mod 4 * 64 + t] ++ unbase64url s
  | [p; q; r] =>
      let '(p, q, r) := (base64url_value p, base64url_value q, base64url_value r) in
      [p * 4 + q / 16; q mod 16 * 16 + r / 4]
  | [p; q] =>
      let '(p, q) := (base64url_value p, base64url_value q) in [p * 4 + q / 16]
  | _ => []
  end.

Lemma char_value n : 0 <= n < 64 → base64url_value (base64url_char n) = n.
Proof.
  intros Hn. unfold base64url_char, base64url_value.
  repeat (case_match; breflect; try lia);
  repeat match goal with H : _ && _ = false |- _ => apply andb_false_iff in H as [?|?] end;
  breflect; lia.
Qed.
Lemma char_pattern n : 0 <= n < 64 → is_base64url (base64url_char n) = true.
Proof.
  intros Hn. unfold base64url_char, is_base64url.
  repeat case_match; breflect; rewrite !orb_true_iff, !andb_true_iff, !Z.leb_le, !Z.eqb_eq; lia.
Qed.

(** Induction by groups of three bytes. *)
Lemma triple_ind (P : list Z → Prop) :
  P [] → (∀ a, P [a]) → (∀ a b, P [a; b]) →
  (∀ a b c l, P l → P (a :: b :: c :: l)) → ∀ l, P l.
Proof.
  intros H0 H1 H2 H3 l. assert (∀ n l, (length l <= n)%nat → P l) as Hall; [|by eapply Hall].
  clear l. induction n as [|n IH]; intros l Hl; destruct l as [|a [|b [|c l]]]; simpl in Hl;
    auto; try lia.
  apply H3, IH. lia.
Qed.

Lemma split_byte a k : is_byte a → 0 < k → a = (a / k) * k + a mod k ∧ 0 <= a mod k < k.
Proof.
  intros Ha Hk. split; [rewrite Z.mul_comm; by apply Z.div_mod; lia|]. by apply Z.mod_pos_bound.
Qed.

(** Quotients and remainders of the bytes by powers of two, for [lia]. *)
Ltac bytes := unfold is_byte in *; repeat match goal with H : Forall _ (_ :: _) |- _ =>
    inversion_clear H end; Z.div_mod_to_equations; lia.

Lemma unbase64url_base64url bytes :
  Forall is_byte bytes → unbase64url (base64url bytes) = bytes.
Proof.
  induction bytes as [|a|a b|a b c l IH] using triple_ind; intros Hb; simpl; [done|..].
  - rewrite !char_value by bytes. f_equal. bytes.
  - rewrite !char_value by bytes. f_equal; [|f_equal]; bytes.
  - rewrite !char_value by bytes. rewrite IH by by repeat apply Forall_cons in Hb as [_ Hb].
    f_equal; [bytes|]. f_equal; [bytes|]. f_equal. bytes.
Qed.

Lemma base64url_length bytes :
  length (base64url bytes) = (length bytes / 3 * 4 +
    match length bytes mod 3 with 0 => 0 | r => r + 1 end)%nat.
Proof.
  induction bytes as [|a|a b|a b c l IH] using triple_ind; [done..|].
  cbn [base64url]. rewrite length_app, IH, length_fmap. cbn [length].
  replace (S (S (S (length l)))) with (length l + 1 * 3)%nat by lia.
  rewrite Nat.div_add, Nat.Div0.mod_add by lia. lia.
Qed.

Lemma base64url_pattern bytes :
  Forall is_byte bytes → forallb is_base64url (base64url bytes) = true.
Proof.
  induction bytes as [|a|a b|a b c l IH] using triple_ind; intros Hb; simpl; [done|..];
    rewrite !char_pattern by bytes; simpl; [done..|].
  apply IH. by repeat apply Forall_cons in Hb as [_ Hb].
Qed.

Lemma base64url_token bytes :
  Forall is_byte bytes → length bytes = 32%nat → TOKEN_PATTERN (base64url bytes) = true.
Proof.
  intros Hb Hl. unfold TOKEN_PATTERN. rewrite base64url_pattern, base64url_length, Hl by done.
  done.
Qed.

(** Records that were handed out stay as they are. *)
Definition csrf_extends (s s' : csrf_state) : Prop :=
  (next_record s <= next_record s')%nat ∧
  ∀ r, (r < next_record s)%nat → records s' !! r = records s !! r.

#[export] Instance csrf_extends_preorder : PreOrder csrf_extends.
Proof.
  split; [by intros s|]. intros s1 s2 s3 [H1 H2] [H3 H4]. split; [lia|].
  intros r Hr. rewrite H4 by lia. by apply H2.
Qed.

Lemma create_extends sha256 bytes s : csrf_extends s (create sha256 bytes s).2.
Proof.
  apply (wp_run (create sha256 bytes) (λ _ s', csrf_extends s s')). unfold create. wp_go; [done|].
  split; simpl; [lia|]. intros r Hr. rewrite lookup_insert_ne by lia. done.
Qed.

(** [create] throws, without effect, when it is not given 32 bytes;
    otherwise its token is accepted for its record, then and after any number
    of further issues; a supplied string is accepted exactly when it is a
    well-formed token with the digest of the issued one; and distinct bytes
    give distinct tokens. *)
Theorem csrf_issue_verifies (sha256 : jsstr → list Z) (compare : list Z → list Z → bool)
    (compare_spec : ∀ l r, compare l r = true ↔ l = r) bytes s :
  (length bytes ≠ 32%nat → create sha256 bytes s = (Throw Csrf_failed, s)) ∧
  (length bytes = 32%nat → Forall is_byte bytes →
     ∃ i s', create sha256 bytes s = (Ok i, s') ∧
       unbase64url (csrf_token i) = bytes ∧
       ∀ s'', csrf_extends s' s'' →
         verify sha256 compare (csrf_record i) (Some (csrf_token i)) s'' = true ∧
         ∀ v, verify sha256 compare (csrf_record i) v s'' = true ↔
           ∃ t, v = Some t ∧ TOKEN_PATTERN t = true ∧ sha256 t = sha256 (csrf_token i)).
Proof.
  split.
  - intros Hl. unfold create, bind, throw_if. apply Nat.eqb_neq in Hl. by rewrite Hl.
  - intros Hl Hb. eexists _, _. split; [unfold create, bind, throw_if; by rewrite Hl|].
    cbn [csrf_token csrf_record]. split; [by apply unbase64url_base64url|].
    intros s'' [_ Hs]. simpl in Hs.
    assert (records s'' !! next_record s = Some (sha256 (base64url bytes))) as Hr.
    { rewrite Hs by lia. by rewrite lookup_insert_eq. }
    assert (∀ v, verify sha256 compare (next_record s) v s'' = true ↔
      ∃ t, v = Some t ∧ TOKEN_PATTERN t = true ∧ sha256 t = sha256 (base64url bytes)) as Hv.
    { intros [v|]; simpl; [|by split; [|intros (? & ? & _)]]. rewrite Hr.
      destruct (TOKEN_PATTERN v) eqn:Hp; simpl.
      - assert (512 <? Z.of_nat (length v) = false) as ->.
        { unfold TOKEN_PATTERN in Hp. breflect. apply Z.ltb_ge. lia. }
        simpl. rewrite compare_spec. split; [intros Heq; by exists v|].
        by intros (t & [= <-] & _ & ->).
      - rewrite orb_true_r. split; [done|]. intros (t & [= <-] & ? & _). congruence. }
    split; [|exact Hv]. apply (proj2 (Hv _)). eexists. split; [done|]. split; [|done].
    by apply base64url_token.
Qed.

Definition sample_bytes : list Z := replicate 31 255 ++ [7].
Definition sample_digest (s : jsstr) : list Z := take 4 s.
Definition same_bytes (l r : list Z) : bool := bool_decide (l = r).

Lemma csrf_issue_verifies_witness :
  (∀ l r, same_bytes l r = true ↔ l = r) ∧
  ∃ i s', create sample_digest sample_bytes {| records := ∅; next_record := 0 |} = (Ok i, s') ∧
    unbase64url (csrf_token i) = sample_bytes.
Proof.
  assert (∀ l r, same_bytes l r = true ↔ l = r) as Hc by (intros; apply bool_decide_eq_true).
  split; [exact Hc|].
  destruct (csrf_issue_verifies sample_digest same_bytes Hc sample_bytes
              {| records := ∅; next_record := 0 |}) as [_ H].
  destruct H as (i & s' & H1 & H2 & _); [done|by repeat constructor|]. by exists i, s'.
Defined.
