(* ===== verification/RateLimiter.v ===== *)
(** [apps/server/src/rate-limiter.ts]: the class [LoginRateLimiter], a token
    bucket for all logins and one per address.

    Token counts and instants are exact rationals: the rounding of the code's
    doubles is not modelled.  A clock reading is [None] when it is not finite.
    The canonical form of an address is computed by the ipaddr.js package: the
    parameter [process], [None] when it throws. *)
From S2P Require Import Prelude JsMap.
From Stdlib Require Import QArith Lqa.
Open Scope Q_scope.

Record BucketConfig := { capacity : Q; refillPerSecond : Q }.
Record LoginRateLimiterOptions := {
  global_config : BucketConfig;
  address_config : BucketConfig;
  maxAddresses : Z;
}.

Record Bucket := { tokens : Q; updatedAt : Q; usedAt : Z }.

Record limiter := Limiter {
  addresses : list (jsstr * Bucket);
  global : Bucket;
  lastNow : Q;
  sequence : Z;
}.

Definition qmax (x y : Q) : Q := if Qle_bool x y then y else x.
Definition qmin (x y : Q) : Q := if Qle_bool x y then x else y.

Definition validateBucket (c : BucketConfig) : bool :=
  negb (Qle_bool (capacity c) 0) && Qle_bool 0 (refillPerSecond c).

Definition valid_options (o : LoginRateLimiterOptions) : bool :=
  validateBucket (global_config o) && validateBucket (address_config o) &&
  (1 <=? maxAddresses o)%Z && (maxAddresses o <=? 1024)%Z.

Definition now (reading : option Q) (l : limiter) : Q * limiter :=
  match reading with
  | None => (lastNow l, l)
  | Some value =>
      let n := qmax (lastNow l) value in (n, Limiter (addresses l) (global l) n (sequence l))
  end.

Definition refill (b : Bucket) (c : BucketConfig) (now : Q) : Bucket :=
  let elapsed := qmax 0 (now - updatedAt b) in
  {| tokens := qmin (capacity c) (tokens b + elapsed / 1000 * refillPerSecond c);
     updatedAt := now; usedAt := usedAt b |}.

(** [left < right] on strings: by code units. *)
Fixpoint str_lt (l r : jsstr) : bool :=
  match l, r with
  | _, [] => false
  | [], _ :: _ => true
  | x :: l, y :: r => (x <? y)%Z || ((x =? y)%Z && str_lt l r)
  end.

Definition older (e selected : jsstr * Bucket) : bool :=
  (usedAt e.2 <? usedAt selected.2)%Z ||
  ((usedAt e.2 =? usedAt selected.2)%Z && str_lt e.1 selected.1).

Definition select_oldest (m : list (jsstr * Bucket)) : option (jsstr * Bucket) :=
  foldl (λ sel e, match sel with
                  | None => Some e
                  | Some s => if older e s then Some e else Some s
                  end) None m.

Definition evictOldest (m : list (jsstr * Bucket)) : list (jsstr * Bucket) :=
  match select_oldest m with
  | Some e => jm_delete e.1 m
  | None => m
  end.

Definition take_token (b : Bucket) : Bucket :=
  {| tokens := tokens b - 1; updatedAt := updatedAt b; usedAt := usedAt b |}.
Definition use (sequence : Z) (b : Bucket) : Bucket :=
  {| tokens := tokens b; updatedAt := updatedAt b; usedAt := sequence |}.

Section limiter.
Context (process : jsstr → option jsstr) (o : LoginRateLimiterOptions).

Definition normalizeAddress (value : jsstr) : jsstr :=
  if (256 <? Z.of_nat (length value))%Z then js "unknown"
  else default (js "unknown") (process value).

Definition new_limiter (reading : option Q) : limiter :=
  let n := match reading with Some v => qmax 0 v | None => 0 end in
  Limiter [] {| tokens := capacity (global_config o); updatedAt := n; usedAt := 0 |} n 0.

(** [consume] up to the lookup: the bucket of the address, created if it is
    not tracked. *)
Definition address_bucket (key : jsstr) (now : Q) (l : limiter) : Bucket * limiter :=
  match jm_get key (addresses l) with
  | Some b => (b, l)
  | None =>
      let kept := if (maxAddresses o <=? Z.of_nat (length (addresses l)))%Z
                  then evictOldest (addresses l) else addresses l in
      let sequence := (sequence l + 1)%Z in
      let b := {| tokens := capacity (address_config o); updatedAt := now; usedAt := sequence |} in
      (b, Limiter (jm_set key b kept) (global l) (lastNow l) sequence)
  end.

Definition consume (reading : option Q) (address : jsstr) (l : limiter) : bool * limiter :=
  let '(n, l) := now reading l in
  let key := normalizeAddress address in
  let '(b, l) := address_bucket key n l in
  let g := refill (global l) (global_config o) n in
  let sequence := (sequence l + 1)%Z in
  let b := use sequence (refill b (address_config o) n) in
  if negb (Qle_bool 1 (tokens g)) || negb (Qle_bool 1 (tokens b))
  then (false, Limiter (jm_set key b (addresses l)) g (lastNow l) sequence)
  else (true, Limiter (jm_set key (take_token b) (addresses l)) (take_token g) (lastNow l)
                sequence).

Definition resetAddress (address : jsstr) (l : limiter) : limiter :=
  Limiter (jm_delete (normalizeAddress address) (addresses l)) (global l) (lastNow l) (sequence l).

Definition trackedAddressCount (l : limiter) : Z := Z.of_nat (length (addresses l)).

Inductive op := Consume (reading : option Q) (address : jsstr) | Reset_address (address : jsstr).

Definition run_op (c : op) (l : limiter) : bool * limiter :=
  match c with
  | Consume r a => consume r a l
  | Reset_address a => (false, resetAddress a l)
  end.

(** The limiter after the calls, and how many of the logins that satisfy
    [f] were admitted. *)
Fixpoint run_ops (f : op → bool) (cs : list op) (l : limiter) : nat * limiter :=
  match cs with
  | [] => (0%nat, l)
  | c :: cs =>
      let '(b, l) := run_op c l in
      let '(n, l) := run_ops f cs l in ((if b && f c then 1 else 0) + n, l)%nat
  end.

Definition of_address (key : jsstr) (c : op) : bool :=
  match c with
  | Consume _ a => bool_decide (normalizeAddress a = key)
  | Reset_address _ => false
  end.

(** The bucket of [key] is neither evicted nor reset. *)
Fixpoint tracked_throughout (key : jsstr) (cs : list op) (l : limiter) : Prop :=
  is_Some (jm_get key (addresses l)) ∧
  match cs with
  | [] => True
  | c :: cs => tracked_throughout key cs (run_op c l).2
  end.
End limiter.

(** * The bucket *)

Lemma qmax_spec x y : x <= qmax x y ∧ y <= qmax x y.
Proof.
  unfold qmax. destruct (Qle_bool x y) eqn:H.
  - apply Qle_bool_iff in H. lra.
  - assert (¬ x <= y) by (rewrite <-Qle_bool_iff; congruence). lra.
Qed.
Lemma qmax_r x y : x <= y → qmax x y = y.
Proof. intros ?%Qle_bool_iff. unfold qmax. by case_match. Qed.
Lemma qmin_spec x y : qmin x y <= x ∧ qmin x y <= y ∧ ∀ z, z <= x → z <= y → z <= qmin x y.
Proof.
  unfold qmin. destruct (Qle_bool x y) eqn:H.
  - apply Qle_bool_iff in H. split_and!; [lra|lra|done].
  - assert (¬ x <= y) by (rewrite <-Qle_bool_iff; congruence). split_and!; [lra|lra|done].
Qed.

Section bucket.
Context (c : BucketConfig) (rate_nonneg : 0 <= refillPerSecond c).

(** What the bucket would hold if it were refilled now. *)
Definition potential (b : Bucket) (now : Q) : Q :=
  qmin (capacity c) (tokens b + (now - updatedAt b) / 1000 * refillPerSecond c).

(** What [dt] milliseconds add. *)
Definition earned (dt : Q) : Q := dt / 1000 * refillPerSecond c.

Lemma earned_nonneg dt : 0 <= dt → 0 <= earned dt.
Proof.
  intros Hdt. unfold earned. apply Qmult_le_0_compat; [|done].
  apply Qle_shift_div_l; lra.
Qed.

Lemma potential_grows b t t' : t <= t' → potential b t' <= potential b t + earned (t' - t).
Proof.
  intros Ht. pose proof (earned_nonneg (t' - t)) as He. unfold potential.
  destruct (qmin_spec (capacity c) (tokens b + (t - updatedAt b) / 1000 * refillPerSecond c))
    as (_ & _ & Hm).
  destruct (qmin_spec (capacity c) (tokens b + (t' - updatedAt b) / 1000 * refillPerSecond c))
    as (H1 & H2 & _).
  set (lo := qmin _ (tokens b + (t - _) / _ * _)) in *.
  set (hi := qmin _ (tokens b + (t' - _) / _ * _)) in *.
  assert (hi - earned (t' - t) <= lo); [|lra].
  apply Hm; unfold earned in *; [assert (0 <= t' - t) by lra; specialize (He ltac:(done)); lra|].
  assert (tokens b + (t' - updatedAt b) / 1000 * refillPerSecond c ==
          tokens b + (t - updatedAt b) / 1000 * refillPerSecond c +
          (t' - t) / 1000 * refillPerSecond c) by field. lra.
Qed.

Lemma refill_tokens b t : updatedAt b <= t → tokens (refill b c t) = potential b t.
Proof. intros Ht. unfold refill. simpl. by rewrite qmax_r by lra. Qed.

Lemma potential_updated b t : updatedAt b = t → potential b t <= tokens b.
Proof.
  intros <-. unfold potential.
  destruct (qmin_spec (capacity c)
    (tokens b + (updatedAt b - updatedAt b) / 1000 * refillPerSecond c)) as (_ & H & _).
  assert (tokens b + (updatedAt b - updatedAt b) / 1000 * refillPerSecond c == tokens b)
    by field. lra.
Qed.

Lemma potential_capacity b t : potential b t <= capacity c.
Proof. unfold potential. apply qmin_spec. Qed.

(** A use of the bucket at [t'], of which it is known at [t]. *)
Lemma bucket_step b t t' s (admitted : bool) :
  updatedAt b <= t → t <= t' →
  let b' := use s (refill b c t') in
  (if admitted then 1 else 0) + potential (if admitted then take_token b' else b') t' <=
  potential b t + earned (t' - t).
Proof.
  intros Hb Ht b'. pose proof (potential_grows b t t' Ht) as Hg.
  assert (tokens b' = potential b t') as Htok by (apply refill_tokens; lra).
  destruct admitted.
  - assert (tokens (take_token b') = tokens b' - 1) as He by done.
    pose proof (potential_updated (take_token b') t' eq_refl). rewrite He, Htok in H. lra.
  - pose proof (potential_updated b' t' eq_refl). rewrite Htok in H. lra.
Qed.

(** A refill point in the past and no debt. *)
Definition bucket_ok (b : Bucket) (t : Q) : Prop := updatedAt b <= t ∧ 0 <= tokens b.

Lemma bucket_ok_later b t t' : t <= t' → bucket_ok b t → bucket_ok b t'.
Proof. intros ? [? ?]. split; [lra|done]. Qed.

Lemma potential_nonneg b t : 0 <= capacity c → bucket_ok b t → 0 <= potential b t.
Proof.
  intros Hc [Hb Ht]. unfold potential. apply qmin_spec; [done|].
  assert (0 <= (t - updatedAt b) / 1000 * refillPerSecond c); [|lra].
  apply earned_nonneg. lra.
Qed.

Lemma refilled_ok (_ : 0 <= capacity c) b t s (admitted : bool) :
  bucket_ok b t → (admitted = true → 1 <= tokens (refill b c t)) →
  bucket_ok ((if admitted then take_token else id) (use s (refill b c t))) t.
Proof.
  intros Hb Hone. assert (0 <= tokens (refill b c t)).
  { rewrite refill_tokens by apply Hb. by apply potential_nonneg. }
  assert (updatedAt (refill b c t) = t) as Hu by done.
  destruct admitted; split; unfold take_token, use, id; cbn [tokens updatedAt]; rewrite ?Hu; try lra.
Qed.
End bucket.

(** * The limiter *)

Section facts.
Context (process : jsstr → option jsstr) (o : LoginRateLimiterOptions)
  (valid : valid_options o = true).

Lemma rates_nonneg :
  0 <= refillPerSecond (global_config o) ∧ 0 <= refillPerSecond (address_config o) ∧
  0 <= capacity (global_config o) ∧ 0 <= capacity (address_config o) ∧
  (1 <= maxAddresses o)%Z.
Proof.
  revert valid. unfold valid_options, validateBucket. intros Hv. breflect.
  assert (∀ x, Qle_bool x 0 = false → 0 <= x) as Hpos.
  { intros x Hx. assert (¬ x <= 0) by (rewrite <-Qle_bool_iff; congruence). lra. }
  split_and!; auto; by apply Qle_bool_iff.
Qed.

Record limiter_ok (l : limiter) : Prop := {
  ok_keys : jm_wf (addresses l);
  ok_size : (Z.of_nat (length (addresses l)) <= maxAddresses o)%Z;
  ok_global : bucket_ok (global l) (lastNow l);
  ok_buckets : ∀ k b, jm_get k (addresses l) = Some b → bucket_ok b (lastNow l);
}.

Lemma select_oldest_elem m e : select_oldest m = Some e → e ∈ m.
Proof.
  unfold select_oldest.
  assert (∀ acc, foldl (λ sel e, match sel with
      | None => Some e | Some s => if older e s then Some e else Some s end) acc m = Some e →
    e ∈ m ∨ acc = Some e) as H.
  { induction m as [|x m IH]; intros acc; simpl; [by right|].
    intros [?|Hacc]%IH; [left; by right|]. destruct acc as [s|]; [|simplify_eq; left; by left].
    destruct (older x s); simplify_eq; [left; by left|by right]. }
  intros [?|?]%H; done.
Qed.

(** Evicting keeps other buckets and makes room. *)
Lemma evict_facts m :
  jm_wf m → jm_wf (evictOldest m) ∧ (length m <= S (length (evictOldest m)))%nat ∧
  (m ≠ [] → (length (evictOldest m) < length m)%nat) ∧
  ∀ k, jm_get k (evictOldest m) = jm_get k m ∨ jm_get k (evictOldest m) = None.
Proof.
  intros Hwf. unfold evictOldest. destruct (select_oldest m) as [[k b]|] eqn:Hs; simpl.
  - apply select_oldest_elem in Hs. pose proof (jm_elem_get _ _ _ Hwf Hs) as Hk.
    pose proof (jm_length_delete k m Hwf (mk_is_Some _ _ Hk)).
    split_and!; [by apply jm_delete_wf|lia|lia|].
    intros k'. rewrite jm_get_delete. case_decide; [by right|by left].
  - split_and!; [done|lia| |by left].
    destruct m as [|x m]; [done|]. exfalso. unfold select_oldest in Hs. simpl in Hs.
    assert (∀ m acc, is_Some (acc) → is_Some (foldl (λ sel e, match sel with
      | None => Some e | Some s => if older e s then Some e else Some s end) acc m)) as H.
    { induction m0 as [|y m0 IH]; intros acc [a ->]; simpl; [by eexists|].
      apply IH. case_match; by eexists. }
    destruct (H m (Some x)) as [? ?]; [by eexists|congruence].
Qed.

(** What one call of [consume] does. *)
Record consumed (key : jsstr) (admitted : bool) (l l' : limiter) : Prop := {
  con_time : lastNow l <= lastNow l';
  con_global : global l' =
    (if admitted then take_token else id) (refill (global l) (global_config o) (lastNow l'));
  con_address : ∃ b s, jm_get key (addresses l') =
      Some ((if admitted then take_token else id) (use s (refill b (address_config o) (lastNow l')))) ∧
    (admitted = true → 1 <= tokens (refill b (address_config o) (lastNow l'))) ∧
    (jm_get key (addresses l) = Some b ∨
     jm_get key (addresses l) = None ∧ tokens b = capacity (address_config o) ∧
       updatedAt b = lastNow l');
  con_others : ∀ k, k ≠ key → jm_get k (addresses l') = jm_get k (addresses l) ∨
    jm_get k (addresses l') = None;
  con_admit : admitted = true → 1 <= tokens (refill (global l) (global_config o) (lastNow l'));
  con_keys : jm_wf (addresses l');
  con_size : (Z.of_nat (length (addresses l')) <= maxAddresses o)%Z;
}.

Lemma now_facts r l : let '(n, l1) := now r l in
  lastNow l <= n ∧ l1 = Limiter (addresses l) (global l) n (sequence l).
Proof.
  destruct r as [v|]; simpl; [|split; [lra|by destruct l]]. split; [apply qmax_spec|done].
Qed.

Lemma address_bucket_facts key n l :
  limiter_ok l → let '(b, l1) := address_bucket o key n l in
  global l1 = global l ∧ lastNow l1 = lastNow l ∧ jm_get key (addresses l1) = Some b ∧
  (jm_get key (addresses l) = Some b ∨
   jm_get key (addresses l) = None ∧ tokens b = capacity (address_config o) ∧ updatedAt b = n) ∧
  (∀ k, k ≠ key → jm_get k (addresses l1) = jm_get k (addresses l) ∨
     jm_get k (addresses l1) = None) ∧
  jm_wf (addresses l1) ∧ (Z.of_nat (length (addresses l1)) <= maxAddresses o)%Z.
Proof.
  intros [Hwf Hsize _ _]. unfold address_bucket.
  destruct (jm_get key (addresses l)) as [b|] eqn:Hk; [split_and!; by auto|].
  destruct rates_nonneg as (_ & _ & _ & _ & Hmax).
  set (kept := if (maxAddresses o <=? _)%Z then _ else _).
  assert (jm_wf kept ∧ (Z.of_nat (length kept) + 1 <= maxAddresses o)%Z ∧
    ∀ k, jm_get k kept = jm_get k (addresses l) ∨ jm_get k kept = None) as (H1 & H2 & H3).
  { unfold kept. destruct (maxAddresses o <=? _)%Z eqn:Hm; breflect; [|split_and!; auto; lia].
    destruct (evict_facts (addresses l) Hwf) as (E1 & _ & E2 & E3). split_and!; [done| |done].
    assert (addresses l ≠ []) as Hne by (intros He; rewrite He in Hm; simpl in Hm; lia).
    specialize (E2 Hne). lia. }
  assert (jm_get key kept = None) as Hk' by (destruct (H3 key); congruence).
  simpl. rewrite jm_get_set_eq. split_and!; try done; [by right|..].
  - intros k Hne. by rewrite jm_get_set_ne by done.
  - by apply jm_set_wf.
  - rewrite jm_set_absent, length_app by done. simpl. lia.
Qed.

Lemma consume_facts r a l :
  limiter_ok l → let '(admitted, l') := consume process o r a l in
  consumed (normalizeAddress process a) admitted l l'.
Proof.
  intros Hok. unfold consume. pose proof (now_facts r l) as Hn.
  destruct (now r l) as [n l1]. destruct Hn as [Hle ->].
  set (l1 := Limiter _ _ _ _). set (key := normalizeAddress process a).
  assert (limiter_ok l1) as Hok1.
  { destruct Hok as [H1 H2 H3 H4]. split; simpl; try done; [by eapply bucket_ok_later|].
    intros k b Hb. specialize (H4 k b Hb). by eapply bucket_ok_later. }
  pose proof (address_bucket_facts key n l1 Hok1) as Hb.
  destruct (address_bucket o key n l1) as [b l2].
  destruct Hb as (E1 & E2 & E3 & E4 & E5 & E6 & E7). simpl in E1, E2.
  set (b' := use _ _).
  assert (∀ x, (Z.of_nat (length (jm_set key x (addresses l2))) <= maxAddresses o)%Z) as Hlen.
  { intros x. rewrite jm_length_set. rewrite decide_True; [done|].
    apply jm_get_is_Some. by eexists. }
  destruct (negb _ || negb _) eqn:Ha; split; simpl; rewrite ?E1, ?E2; try done;
    try (intros k Hk; rewrite jm_get_set_ne by done; by apply E5);
    try by apply jm_set_wf.
  - rewrite jm_get_set_eq. by eexists b, _.
  - rewrite jm_get_set_eq. breflect. exists b, (sequence l2 + 1)%Z.
    split_and!; [done| |done]. intros _. by apply Qle_bool_iff.
  - breflect. intros _. apply Qle_bool_iff. by rewrite <-E1.
Qed.

Lemma refill_updated b c n : updatedAt (refill b c n) = n.
Proof. done. Qed.

Lemma consumed_ok key admitted l l' : limiter_ok l → consumed key admitted l l' → limiter_ok l'.
Proof.
  intros [H1 H2 H3 H4] [Ht Hg (b & s & Hb & Hone & Hfrom) Ho Hone' Hk Hs].
  destruct rates_nonneg as (R1 & R2 & R3 & R4 & _).
  assert (bucket_ok b (lastNow l')) as Hbok.
  { destruct Hfrom as [Hold|(_ & Hcap & Hu)]; [by eapply bucket_ok_later, H4|].
    split; [rewrite Hu; lra|]. by rewrite Hcap. }
  split; [done|done|..].
  - rewrite Hg. apply (refilled_ok _ R1 R3 (global l) (lastNow l') (usedAt (global l)));
      [by eapply bucket_ok_later|done].
  - intros k b'. destruct (decide (k = key)) as [->|Hne].
    + rewrite Hb. intros [= <-]. by apply refilled_ok.
    + destruct (Ho k Hne) as [->| ->]; [|done]. intros Hb'. by eapply bucket_ok_later, H4.
Qed.

Lemma reset_ok a l : limiter_ok l → limiter_ok (resetAddress process a l).
Proof.
  intros [H1 H2 H3 H4]. split; simpl; [by apply jm_delete_wf| |done|].
  - pose proof (jm_length_delete_le (normalizeAddress process a) (addresses l)). lia.
  - intros k b. rewrite jm_get_delete. case_decide; [done|]. apply H4.
Qed.

Lemma limiter_op_ok c l : limiter_ok l → limiter_ok (run_op process o c l).2.
Proof.
  destruct c as [r a|a]; simpl; [|apply reset_ok]. intros Hok.
  pose proof (consume_facts r a l Hok) as Hc. destruct (consume process o r a l) as [admitted l'].
  by eapply consumed_ok.
Qed.

Lemma run_op_time c l : limiter_ok l → lastNow l <= lastNow (run_op process o c l).2.
Proof.
  destruct c as [r a|a]; simpl; [|intros; lra]. intros Hok.
  pose proof (consume_facts r a l Hok) as Hc. destruct (consume process o r a l) as [admitted l'].
  apply Hc.
Qed.

Lemma limiter_ops_ok f cs l : limiter_ok l → limiter_ok (run_ops process o f cs l).2.
Proof.
  revert l. induction cs as [|c cs IH]; intros l Hok; [done|]. cbn [run_ops].
  pose proof (limiter_op_ok c l Hok). destruct (run_op process o c l) as [b l1].
  specialize (IH l1). destruct (run_ops process o f cs l1) as [n l2]. by apply IH.
Qed.

Lemma run_ops_time f cs l :
  limiter_ok l → lastNow l <= lastNow (run_ops process o f cs l).2.
Proof.
  revert l. induction cs as [|c cs IH]; intros l Hok; cbn [run_ops]; [simpl; lra|].
  pose proof (limiter_op_ok c l Hok). pose proof (run_op_time c l Hok).
  destruct (run_op process o c l) as [b l1].
  specialize (IH l1). destruct (run_ops process o f cs l1) as [n l2]. simpl in *.
  assert (lastNow l1 <= lastNow l2) by by apply IH. lra.
Qed.

Definition number (n : nat) : Q := inject_Z (Z.of_nat n).

Lemma number_add (b : bool) n :
  number ((if b then 1 else 0) + n) == (if b then 1 else 0) + number n.
Proof. unfold number. rewrite Nat2Z.inj_add, inject_Z_plus. by destruct b. Qed.

(** A quantity that one admission uses up and that time restores bounds the
    admissions of a run. *)
Lemma run_bound f (c : BucketConfig) (P : list op → limiter → Prop) (pot : limiter → Q) cs l :
  (∀ c' cs l, P (c' :: cs) l → P cs (run_op process o c' l).2) →
  (∀ cs l, P cs l → limiter_ok l ∧ 0 <= pot l) →
  (∀ c' cs l, P (c' :: cs) l → let '(b, l') := run_op process o c' l in
     (if b && f c' then 1 else 0) + pot l' <= pot l + earned c (lastNow l' - lastNow l)) →
  P cs l → let '(n, l') := run_ops process o f cs l in
  number n + pot l' <= pot l + earned c (lastNow l' - lastNow l).
Proof.
  intros HP Hok Hstep. revert l. induction cs as [|c' cs IH]; intros l Hl; cbn [run_ops].
  - assert (earned c (lastNow l - lastNow l) == 0) by (unfold earned; field).
    assert (number 0 == 0) by done. lra.
  - pose proof (Hstep _ _ _ Hl) as H1. pose proof (HP _ _ _ Hl) as Hl'.
    destruct (run_op process o c' l) as [b l1]. simpl in Hl'. specialize (IH l1 Hl').
    destruct (run_ops process o f cs l1) as [n l2].
    pose proof (number_add (b && f c') n).
    assert (earned c (lastNow l2 - lastNow l) ==
            earned c (lastNow l1 - lastNow l) + earned c (lastNow l2 - lastNow l1))
      by (unfold earned; field). lra.
Qed.
End facts.

Section rates.
Context (process : jsstr → option jsstr) (o : LoginRateLimiterOptions)
  (valid : valid_options o = true).

Definition global_potential (l : limiter) : Q :=
  potential (global_config o) (global l) (lastNow l).
Definition address_potential (key : jsstr) (l : limiter) : Q :=
  match jm_get key (addresses l) with
  | Some b => potential (address_config o) b (lastNow l)
  | None => 0
  end.

Lemma global_step c l :
  limiter_ok o l → let '(b, l') := run_op process o c l in
  (if b then 1 else 0) + global_potential l' <=
  global_potential l + earned (global_config o) (lastNow l' - lastNow l).
Proof.
  destruct (rates_nonneg o valid) as (R1 & _). intros Hok. destruct c as [r a|a]; simpl.
  - pose proof (consume_facts process o valid r a l Hok) as Hc.
    destruct (consume process o r a l) as [admitted l']. destruct Hc as [Ht Hg _ _ _ _ _].
    unfold global_potential. rewrite Hg.
    pose proof (bucket_step (global_config o) R1 (global l) (lastNow l) (lastNow l')
      (usedAt (global l)) admitted (proj1 (ok_global _ _ Hok)) Ht) as Hs.
    by destruct admitted.
  - unfold global_potential. simpl.
    assert (earned (global_config o) (lastNow l - lastNow l) == 0) by (unfold earned; field).
    lra.
Qed.

Lemma address_step key c l :
  limiter_ok o l → is_Some (jm_get key (addresses l)) →
  is_Some (jm_get key (addresses (run_op process o c l).2)) →
  let '(b, l') := run_op process o c l in
  (if b && of_address process key c then 1 else 0) + address_potential key l' <=
  address_potential key l + earned (address_config o) (lastNow l' - lastNow l).
Proof.
  destruct (rates_nonneg o valid) as (_ & R2 & _). intros Hok [b0 Hb0].
  unfold address_potential. rewrite Hb0.
  pose proof (proj1 (ok_buckets _ _ Hok _ _ Hb0)) as Hu. destruct c as [r a|a]; simpl.
  - pose proof (consume_facts process o valid r a l Hok) as Hc.
    destruct (consume process o r a l) as [admitted l'].
    destruct Hc as [Ht _ (b & s & Hb & _ & Hfrom) Ho _ _ _]. simpl.
    destruct (decide (normalizeAddress process a = key)) as [Hk|Hk].
    + rewrite Hk in *. assert (b = b0) as -> by (destruct Hfrom as [?|[? _]]; congruence).
      intros _. rewrite Hb, bool_decide_true, andb_true_r by done.
      pose proof (bucket_step _ R2 b0 (lastNow l) (lastNow l') s admitted Hu Ht) as Hs.
      by destruct admitted.
    + rewrite bool_decide_false, andb_false_r by done.
      destruct (Ho key) as [->| ->]; [done| |by intros [? ?]]. rewrite Hb0. intros _.
      pose proof (potential_grows _ R2 b0 (lastNow l) (lastNow l') Ht). lra.
  - rewrite jm_get_delete, Hb0. case_decide; [by intros [? ?]|]. intros _.
    assert (earned (address_config o) (lastNow l - lastNow l) == 0) by (unfold earned; field).
    lra.
Qed.

Lemma global_run cs l :
  limiter_ok o l → let '(n, l') := run_ops process o (λ _, true) cs l in
  number n + global_potential l' <=
  global_potential l + earned (global_config o) (lastNow l' - lastNow l).
Proof.
  destruct (rates_nonneg o valid) as (R1 & _ & R3 & _). intros Hok.
  apply (run_bound process o _ _ (λ _ l, limiter_ok o l)); [..|done].
  - intros c cs1 l1. by apply limiter_op_ok.
  - intros _ l1 H1. split; [done|]. apply potential_nonneg; [done|done|apply H1].
  - intros c _ l1 H1. pose proof (global_step c l1 H1).
    destruct (run_op process o c l1) as [b l2]. by rewrite andb_true_r.
Qed.

Lemma address_potential_bounds key l :
  limiter_ok o l →
  0 <= address_potential key l ∧ address_potential key l <= capacity (address_config o).
Proof.
  destruct (rates_nonneg o valid) as (_ & R2 & _ & R4 & _). intros Hok.
  unfold address_potential. split; case_match; try done.
  - apply potential_nonneg; [done|done|by eapply Hok].
  - apply potential_capacity.
Qed.

Lemma address_run key cs l :
  limiter_ok o l → tracked_throughout process o key cs l →
  let '(n, l') := run_ops process o (of_address process key) cs l in
  number n + address_potential key l' <=
  address_potential key l + earned (address_config o) (lastNow l' - lastNow l).
Proof.
  intros Hok Htr. apply (run_bound process o _ _
    (λ cs l, limiter_ok o l ∧ tracked_throughout process o key cs l)); [..|done].
  - intros c cs1 l1 [H3 [_ H4]]. split; [by apply limiter_op_ok|done].
  - intros cs1 l1 [H3 H4]. split; [done|]. by apply address_potential_bounds.
  - intros c cs1 l1 [H3 [H4 H5]]. apply address_step; [done|done|].
    destruct cs1; by destruct H5.
Qed.

Lemma new_limiter_ok reading : limiter_ok o (new_limiter o reading).
Proof.
  destruct (rates_nonneg o valid) as (_ & _ & R3 & _ & R5).
  split; simpl; try done; [apply NoDup_nil_2|lia|]. split; simpl; [lra|done].
Qed.
End rates.


Definition sample_limits : LoginRateLimiterOptions :=
  {| global_config := {| capacity := 20; refillPerSecond := 1 |};
     address_config := {| capacity := 2; refillPerSecond := 1 # 10 |}; maxAddresses := 2 |}.
Definition sample_login (t : Z) (a : string) : op := Consume (Some (inject_Z t)) (js a).

Definition sample_start : limiter := new_limiter sample_limits (Some 0).
Definition sample_outcome : nat * limiter :=
  run_ops Some sample_limits (λ _, true)
    [sample_login 0 "a"; sample_login 1 "a"; sample_login 2 "a"; sample_login 3 "b"] sample_start.

