(* ===== verification/AuthService.v ===== *)
(** [apps/server/src/auth-service.ts]: the class [AuthService], the registry of
    authenticated sessions.

    Every method is a program over calls to the clock, the random source, the
    CSRF service, the credential store, the rate limiter and the revocation
    observers.  A session object is identified by its generation, which
    [nextGeneration] never repeats, and lives in a heap.  [bootstrap], [login]
    and [setup] return the promise of a job of the establishment queue; the
    bodies of the jobs are [run_job], and the file [AuthQueue] models the
    queue.  Instants are integral milliseconds. *)
From S2P Require Import Prelude JsMap SafeString Csrf.
Open Scope Z_scope.

(** * Data *)

Inductive AuthMode := mode_local | cloudflare_access | trusted_header | mode_none.
#[export] Instance AuthMode_eq_dec : EqDecision AuthMode.
Proof. solve_decision. Defined.

(** A JavaScript number: its value when it is finite. *)
Abbreviation number := (option Z).

Record UpstreamIdentity := {
  identity_mode : AuthMode;
  identity_label : jsstr;
  identity_expiresAt : option number;
}.
Inductive UpstreamAuthentication :=
| Upstream_none
| Upstream (identity : UpstreamIdentity).

Record LocalLoginAttempt := { username : jsstr; password : jsstr; address : jsstr }.
Record LocalSetupAttempt := { setup_password : jsstr; setup_address : jsstr }.

Inductive AuthFailure :=
| authentication_failed | rate_limited | setup_required | already_initialized.

Inductive AuthBootstrap :=
| Unauthenticated (mode : AuthMode)
| Setup_required (username : jsstr)
| Authenticated (mode : AuthMode) (identityLabel csrfToken : jsstr)
    (upstreamExpiresAt : option Z).

Record AuthBootstrapResult := {
  bootstrap_ : AuthBootstrap;
  cookieValue : option jsstr;
  failure : option AuthFailure;
}.

Record Stored := {
  id : jsstr;
  generation : Z;
  mode : AuthMode;
  identityLabel : jsstr;
  createdAt : Z;
  lastSeen : Z;
  idleExpiresAt : Z;
  absoluteExpiresAt : Z;
  upstreamExpiresAt : option Z;
  csrf : nat;
  digest : jsstr;
}.
#[export] Instance Stored_inhabited : Inhabited Stored :=
  populate (Build_Stored [] 0 mode_none [] 0 0 0 0 None 0 []).

(** The view of a session, without its generation, CSRF record and digest. *)
Record AuthenticatedSession := {
  view_id : jsstr;
  view_mode : AuthMode;
  view_identityLabel : jsstr;
  view_createdAt : Z;
  view_lastSeen : Z;
  view_idleExpiresAt : Z;
  view_absoluteExpiresAt : Z;
  view_upstreamExpiresAt : option Z;
}.
Record AuthenticatedSessionAuthority := {
  authority_session : AuthenticatedSession;
  authority_generation : Z;
}.

Inductive RevocationReason := R_capacity | R_idle | R_absolute | R_upstream | R_logout
| R_password_changed.
Inductive activity := http | terminal_input.

Inductive EnrollmentResult :=
| enrolled (durability_uncertain : bool)
| enroll_already_initialized
| enroll_not_committed.
Inductive ReplaceResult := not_committed | committed | committed_durability_uncertain.

Inductive VerificationOutcome := Verification_ok (valid : bool) | Verification_failed.
(** What [credentials.verify] returned: a boolean or a promise. *)
Inductive verification := Known (o : VerificationOutcome) | Promised (p : nat).

Record AuthServiceOptions := {
  o_mode : AuthMode;
  o_localUsername : jsstr;
  idleDurationMs : Z;
  absoluteDurationMs : Z;
  maxSessions : Z;
  maxObservers : option Z;
}.

Definition MIN_PENDING_ESTABLISHMENTS : Z := 8.
Definition MAX_PENDING_ESTABLISHMENTS : Z := 256.

(** The fields that change.  The maps hold references to session objects. *)
Record auth := Auth {
  heap : gmap Z Stored;
  byDigest : list (jsstr * Z);
  byId : list (jsstr * Z);
  observers : list nat;
  next_observer : nat;
  pendingEstablishments : Z;
  pendingLocalAttempts : Z;
  passwordChangeActive : bool;
  generation_counter : Z;
}.
Definition new_auth : auth := Auth ∅ [] [] [] 0 0 0 false 0.

Inductive error := AuthServiceError | foreign.

Inductive ev :=
| Clock
| Random (size : nat)
| Csrf_create
| Csrf_verify (record : nat) (supplied : option jsstr)
| Credentials_isInitialized
| Credentials_verify (username password : jsstr)
| Await_verification (p : nat)
| Credentials_enroll (password : jsstr)
| Credentials_replacePassword (password : jsstr)
| Limiter_consume (address : jsstr)
| Limiter_resetAddress (address : jsstr)
| Durability_uncertain
| Observe (observer : nat) (session : jsstr) (reason : RevocationReason).

Definition resp (e : ev) : Type :=
  match e with
  | Clock => number
  | Random _ => list Z
  | Csrf_create => CsrfIssue
  | Csrf_verify _ _ | Credentials_isInitialized | Await_verification _ => bool
  | Credentials_verify _ _ => bool + nat
  | Credentials_enroll _ => EnrollmentResult
  | Credentials_replacePassword _ => ReplaceResult
  | Limiter_consume _ => bool
  | _ => unit
  end.

(** * Pure functions *)

(** Candidates sorted by instant, stably; the first of them is compared. *)
Definition expiredReasonAt (s : Stored) (now : Z) : option RevocationReason :=
  let '(t, reason) :=
    if absoluteExpiresAt s <? idleExpiresAt s
    then (absoluteExpiresAt s, R_absolute) else (idleExpiresAt s, R_idle) in
  let '(t, reason) :=
    match upstreamExpiresAt s with
    | Some u => if u <? t then (u, R_upstream) else (t, reason)
    | None => (t, reason)
    end in
  if t <=? now then Some reason else None.

Definition localFailure (f : AuthFailure) (b : AuthBootstrap) : AuthBootstrapResult :=
  {| bootstrap_ := b; cookieValue := None; failure := Some f |}.
Definition localLoginFailure (f : AuthFailure) : AuthBootstrapResult :=
  localFailure f (Unauthenticated mode_local).

Definition boundedAddress (value : jsstr) : jsstr :=
  if Z.of_nat (length value) <=? 256 then value else js "unknown".

Definition view (s : Stored) : AuthenticatedSession :=
  {| view_id := id s; view_mode := mode s; view_identityLabel := identityLabel s;
     view_createdAt := createdAt s; view_lastSeen := lastSeen s;
     view_idleExpiresAt := idleExpiresAt s; view_absoluteExpiresAt := absoluteExpiresAt s;
     view_upstreamExpiresAt := upstreamExpiresAt s |}.
Definition authorityView (s : Stored) : AuthenticatedSessionAuthority :=
  {| authority_session := view s; authority_generation := generation s |}.

Section labels.
Context `{Platform}.

Definition normalizeLabel (v : jsstr) : option jsstr :=
  let n := nfc v in
  if bool_decide (n = []) || (128 <? utf8ByteLength n) ||
     existsb (λ x, (x <? 32) || (x =? 127)) (code_points n)
  then None else Some n.

(** The identity as it is used afterwards: its expiry is a proper date. *)
Record ValidIdentity := { valid_mode : AuthMode; valid_label : jsstr; valid_expiry : option Z }.

Definition validateIdentity (i : UpstreamIdentity) : option ValidIdentity :=
  label ← normalizeLabel (identity_label i);
  if bool_decide (identity_mode i = cloudflare_access) ||
     bool_decide (identity_mode i = trusted_header)
  then match identity_expiresAt i with
       | None => Some {| valid_mode := identity_mode i; valid_label := label; valid_expiry := None |}
       | Some e =>
           e ← e; t ← toISOString e;
           Some {| valid_mode := identity_mode i; valid_label := label; valid_expiry := Some t |}
       end
  else None.

Definition valid_options (o : AuthServiceOptions) : bool :=
  (0 <? idleDurationMs o) && (0 <? absoluteDurationMs o) &&
  (1 <=? maxSessions o) && (maxSessions o <=? 256) &&
  match maxObservers o with
  | None => true
  | Some n => (1 <=? n) && (n <=? 64)
  end &&
  match o_mode o with
  | mode_local => match normalizeLabel (o_localUsername o) with Some _ => true | None => false end
  | _ => true
  end.
End labels.

(** [Array.prototype.sort] with a comparator: stable. *)
Fixpoint insert_by {A} (cmp : A → A → Z) (x : A) (l : list A) : list A :=
  match l with
  | [] => [x]
  | y :: l' => if cmp y x <=? 0 then y :: insert_by cmp x l' else x :: l
  end.
Definition sort_by {A} (cmp : A → A → Z) (l : list A) : list A :=
  foldl (λ acc x, insert_by cmp x acc) [] l.

(** * The fields *)

Definition get_session (a : auth) (g : Z) : Stored := heap a !!! g.

Definition set_registry (h : gmap Z Stored) (d i : list (jsstr * Z)) (a : auth) : auth :=
  Auth h d i (observers a) (next_observer a) (pendingEstablishments a)
    (pendingLocalAttempts a) (passwordChangeActive a) (generation_counter a).
Definition put_session (g : Z) (s : Stored) (a : auth) : auth :=
  set_registry (<[g := s]> (heap a)) (byDigest a) (byId a) a.
Definition set_observers (l : list nat) (a : auth) : auth :=
  Auth (heap a) (byDigest a) (byId a) l (next_observer a) (pendingEstablishments a)
    (pendingLocalAttempts a) (passwordChangeActive a) (generation_counter a).
Definition set_pending (e l : Z) (a : auth) : auth :=
  Auth (heap a) (byDigest a) (byId a) (observers a) (next_observer a) e l
    (passwordChangeActive a) (generation_counter a).
Definition set_active (b : bool) (a : auth) : auth :=
  Auth (heap a) (byDigest a) (byId a) (observers a) (next_observer a)
    (pendingEstablishments a) (pendingLocalAttempts a) b (generation_counter a).
Definition next_generation (a : auth) : auth :=
  Auth (heap a) (byDigest a) (byId a) (observers a) (next_observer a)
    (pendingEstablishments a) (pendingLocalAttempts a) (passwordChangeActive a)
    (generation_counter a + 1).

Definition with_digest (d : jsstr) (s : Stored) : Stored :=
  Build_Stored (id s) (generation s) (mode s) (identityLabel s) (createdAt s) (lastSeen s)
    (idleExpiresAt s) (absoluteExpiresAt s) (upstreamExpiresAt s) (csrf s) d.
Definition with_csrf (r : nat) (s : Stored) : Stored :=
  Build_Stored (id s) (generation s) (mode s) (identityLabel s) (createdAt s) (lastSeen s)
    (idleExpiresAt s) (absoluteExpiresAt s) (upstreamExpiresAt s) r (digest s).
Definition with_upstream (u : option Z) (s : Stored) : Stored :=
  Build_Stored (id s) (generation s) (mode s) (identityLabel s) (createdAt s) (lastSeen s)
    (idleExpiresAt s) (absoluteExpiresAt s) u (csrf s) (digest s).
(** [s.lastSeen = now; s.idleExpiresAt = Math.min(...)] *)
Definition with_touch (idle now : Z) (s : Stored) : Stored :=
  Build_Stored (id s) (generation s) (mode s) (identityLabel s) (createdAt s) now
    (Z.min (absoluteExpiresAt s) (now + idle)) (absoluteExpiresAt s) (upstreamExpiresAt s)
    (csrf s) (digest s).

(** [#remove] *)
Definition remove_session (g : Z) (a : auth) : auth :=
  let s := get_session a g in
  if jm_has (id s) (byId a)
  then set_registry (<[g := with_digest [] s]> (heap a)) (jm_delete (digest s) (byDigest a))
         (jm_delete (id s) (byId a)) a
  else a.

(** * Methods *)

Section service.
Context `{Platform} {W : Type} (h : @handler auth W ev error resp)
  (hash : jsstr → jsstr) (localeCompare : jsstr → jsstr → Z) (o : AuthServiceOptions).
Abbreviation SM := (M (sys auth W ev) error).

Definition ask (e : ev) : SM (resp e) := call resp h e.

Definition maxPendingEstablishments : Z :=
  Z.min MAX_PENDING_ESTABLISHMENTS (Z.max MIN_PENDING_ESTABLISHMENTS (maxSessions o)).
Definition observerMax : Z := Z.min 64 (Z.max 1 (default 64 (maxObservers o))).
Definition localUsername : jsstr := default [] (normalizeLabel (o_localUsername o)).

(** [#now] *)
Definition now : SM Z := let! n := ask Clock in of_option n AuthServiceError.

Definition expiredReason (g : Z) : SM (option RevocationReason) :=
  let! n := now in own (λ a, expiredReasonAt (get_session a g) n).

Definition emitRevocation (session : jsstr) (reason : RevocationReason) : SM unit :=
  let! rs := own observers in
  each rs (λ r, attempt_call (ask (Observe r session reason))).

Definition revoke (g : Z) (reason : RevocationReason) : SM unit :=
  let! a := own (λ a, a) in
  if jm_has (id (get_session a g)) (byId a)
  then do! set_own (remove_session g) in emitRevocation (id (get_session a g)) reason
  else ret tt.

(** [const reason = this.#expiredReason(s); if (reason) this.#revoke(s, reason)]:
    whether the session had expired. *)
Definition expire (g : Z) : SM bool :=
  let! reason := expiredReason g in
  match reason with
  | Some reason => do! revoke g reason in ret true
  | None => ret false
  end.

(** [this.#byId.get(id)] *)
Definition find_session (session : jsstr) : SM (option Z) :=
  own (λ a, jm_get session (byId a)).

(** ** Use of sessions *)

Definition authenticate_with {A} (as_view : Stored → A) (rawCookie : option jsstr)
    : SM (option A) :=
  match rawCookie with
  | None => ret None
  | Some raw =>
      if negb (TOKEN_PATTERN raw) then ret None
      else
        let! found := own (λ a, jm_get (hash raw) (byDigest a)) in
        match found with
        | None => ret None
        | Some g =>
            let! expired := expire g in
            if expired then ret None
            else own (λ a, Some (as_view (get_session a g)))
        end
  end.
Definition authenticateCookie : option jsstr → SM (option AuthenticatedSession) :=
  authenticate_with view.
Definition authenticateAuthority : option jsstr → SM (option AuthenticatedSessionAuthority) :=
  authenticate_with authorityView.

Definition isActiveAuthority (session : jsstr) (generation' : Z) : SM bool :=
  let! found := find_session session in
  match found with
  | None => ret false
  | Some g =>
      let! same := own (λ a, generation (get_session a g) =? generation') in
      if negb same then ret false
      else let! expired := expire g in ret (negb expired)
  end.

Definition touch_now (g : Z) : SM unit :=
  let! n := now in
  set_own (λ a, put_session g (with_touch (idleDurationMs o) n (get_session a g)) a).

Definition touchAuthority (session : jsstr) (generation' : Z) (act : activity) : SM bool :=
  match act with
  | http => ret false
  | terminal_input =>
      let! found := find_session session in
      match found with
      | None => ret false
      | Some g =>
          let! same := own (λ a, generation (get_session a g) =? generation') in
          if negb same then ret false
          else
            let! expired := expire g in
            if expired then ret false
            else
              do! touch_now g in
              own (λ a, bool_decide (jm_get session (byId a) = Some g) &&
                        (generation (get_session a g) =? generation'))
      end
  end.

Definition iso_expiry (u : option Z) : SM (option Z) :=
  match u with
  | None => ret None
  | Some u => let! t := of_option (toISOString u) foreign in ret (Some t)
  end.

Definition resume (session : jsstr) : SM (option AuthBootstrapResult) :=
  let! found := find_session session in
  match found with
  | None => ret None
  | Some g =>
      let! expired := expire g in
      if expired then ret None
      else
        catch
          (let! issued := ask Csrf_create in
           let! s := own (λ a, get_session a g) in
           let! u := iso_expiry (upstreamExpiresAt s) in
           do! set_own (λ a, put_session g (with_csrf (csrf_record issued) (get_session a g)) a) in
           ret (Some {| bootstrap_ := Authenticated (mode s) (identityLabel s)
                                        (csrf_token issued) u;
                        cookieValue := None; failure := None |}))
          (λ _, throw AuthServiceError)
  end.

Definition touch (session : jsstr) (act : activity) : SM unit :=
  let! found := find_session session in
  match found with
  | None => ret tt
  | Some g => let! expired := expire g in if expired then ret tt else touch_now g
  end.

(** The checks of [refresh] on the identity [u], when the session is [s]. *)
Definition refresh_with (g : Z) (s : Stored) (u : ValidIdentity)
    : SM (option AuthenticatedSession) :=
  if negb (bool_decide (valid_mode u = mode s)) ||
     negb (bool_decide (valid_label u = identityLabel s))
  then ret None
  else if bool_decide (mode s = trusted_header) && bool_decide (valid_expiry u = None)
  then ret (if bool_decide (upstreamExpiresAt s = None) then Some (view s) else None)
  else
    match valid_expiry u with
    | None => ret None
    | Some e =>
        let! n := now in
        if (e <=? n) || match upstreamExpiresAt s with Some old => e <=? old | None => false end
        then ret None
        else
          do! set_own (λ a, put_session g (with_upstream (Some e) (get_session a g)) a) in
          own (λ a, Some (view (get_session a g)))
    end.

Definition refresh (session : jsstr) (upstream : UpstreamIdentity)
    : SM (option AuthenticatedSession) :=
  let! found := find_session session in
  match found with
  | None => ret None
  | Some g =>
      let! expired := expire g in
      if expired then ret None
      else
        let! s := own (λ a, get_session a g) in
        if bool_decide (mode s = mode_local) || bool_decide (mode s = mode_none) then ret None
        else match validateIdentity upstream with
             | None => ret None
             | Some u => refresh_with g s u
             end
  end.

Definition verifyCsrf (session : jsstr) (supplied : option jsstr) : SM bool :=
  let! found := find_session session in
  match found with
  | None => ret false
  | Some g =>
      let! expired := expire g in
      if expired then ret false
      else let! r := own (λ a, csrf (get_session a g)) in ask (Csrf_verify r supplied)
  end.

Definition logout (session : jsstr) : SM unit :=
  let! found := find_session session in
  match found with
  | None => ret tt
  | Some g => revoke g R_logout
  end.

Definition sweepExpired : SM unit :=
  let! gs := own (λ a, sort_by (λ x y, localeCompare (id (get_session a x)) (id (get_session a y)))
                         (byId a).*2) in
  each gs (λ g, let! expired := expire g in ret tt).

Definition onRevoked : SM nat :=
  let! a := own (λ a, a) in
  if observerMax <=? Z.of_nat (length (observers a)) then throw AuthServiceError
  else
    do! set_own (λ a, Auth (heap a) (byDigest a) (byId a) (observers a ++ [next_observer a])
                        (S (next_observer a)) (pendingEstablishments a)
                        (pendingLocalAttempts a) (passwordChangeActive a)
                        (generation_counter a)) in
    ret (next_observer a).
(** The function that [onRevoked] returns. *)
Definition unsubscribe (observer : nat) : SM unit :=
  set_own (λ a, set_observers (js_remove observer (observers a)) a).

(** ** New sessions *)

Definition token (size : nat) : SM jsstr :=
  let! bytes := ask (Random size) in
  do! throw_if (negb (length bytes =? size)%nat) AuthServiceError in
  ret (base64url bytes).

(** The two loops; [None] when every attempt collided. *)
Fixpoint fresh_cookie (attempts : nat) : SM (option (jsstr * jsstr)) :=
  match attempts with
  | O => ret None
  | S n =>
      let! cookie := token 32 in
      let! taken := own (λ a, jm_has (hash cookie) (byDigest a)) in
      if taken then fresh_cookie n else ret (Some (cookie, hash cookie))
  end.
Fixpoint fresh_id (attempts : nat) : SM (option jsstr) :=
  match attempts with
  | O => ret None
  | S n =>
      let! id := token 16 in
      let! taken := own (λ a, jm_has id (byId a)) in
      if taken then fresh_id n else ret (Some id)
  end.

Definition nextGeneration : SM Z :=
  do! set_own next_generation in
  let! g := own generation_counter in
  do! throw_if (negb (is_safe_integer g)) AuthServiceError in
  ret g.

Definition prepareSession (m : AuthMode) (label : jsstr) (upstream : option Z)
    : SM (Stored * AuthBootstrapResult) :=
  let! n := now in
  let! cookie := fresh_cookie 8 in
  let! id := fresh_id 8 in
  let! ' (cookie, digest) := of_option cookie AuthServiceError in
  let! id := of_option id AuthServiceError in
  let! issued := ask Csrf_create in
  let! g := nextGeneration in
  let! l := of_option (normalizeLabel label) AuthServiceError in
  let s := {| id := id; generation := g; mode := m; identityLabel := l; createdAt := n;
              lastSeen := n;
              idleExpiresAt := Z.min (n + idleDurationMs o) (n + absoluteDurationMs o);
              absoluteExpiresAt := n + absoluteDurationMs o; upstreamExpiresAt := upstream;
              csrf := csrf_record issued; digest := digest |} in
  let! u := iso_expiry upstream in
  ret (s, {| bootstrap_ := Authenticated m l (csrf_token issued) u;
             cookieValue := Some cookie; failure := None |}).

Definition compare_age (x y : Stored) : Z :=
  if negb (lastSeen x - lastSeen y =? 0) then lastSeen x - lastSeen y
  else if negb (createdAt x - createdAt y =? 0) then createdAt x - createdAt y
  else localeCompare (id x) (id y).

(** The sessions that a commit at [n] revokes, in order. *)
Definition revocations (n : Z) (a : auth) : list (Z * RevocationReason) :=
  let existing := (byId a).*2 in
  let expired :=
    omap (λ g, reason ← expiredReasonAt (get_session a g) n; Some (g, reason)) existing in
  let active := filter (λ g, expiredReasonAt (get_session a g) n = None) existing in
  expired ++
  if maxSessions o <=? Z.of_nat (length active)
  then match sort_by (λ x y, compare_age (get_session a x) (get_session a y)) active with
       | oldest :: _ => [(oldest, R_capacity)]
       | [] => []
       end
  else [].

(** Two [Map.set] of a new object. *)
Definition add_session (s : Stored) (a : auth) : auth :=
  set_registry (<[generation s := s]> (heap a)) (jm_set (digest s) (generation s) (byDigest a))
    (jm_set (id s) (generation s) (byId a)) a.

Definition commitSession (prepared : Stored * AuthBootstrapResult) (beforeCommit : SM unit)
    : SM AuthBootstrapResult :=
  let '(s, result) := prepared in
  let! taken := own (λ a, jm_has (digest s) (byDigest a) || jm_has (id s) (byId a)) in
  do! throw_if taken AuthServiceError in
  let! n := now in
  let! rs := own (revocations n) in
  do! beforeCommit in
  do! each rs (λ r, set_own (remove_session r.1)) in
  do! set_own (add_session s) in
  do! each rs (λ r, let! revoked := own (λ a, id (get_session a r.1)) in
                    emitRevocation revoked r.2) in
  ret result.

Definition safeEstablish (m : AuthMode) (label : jsstr) (upstream : option Z)
    (beforeCommit : SM unit) : SM AuthBootstrapResult :=
  catch (let! prepared := prepareSession m label upstream in commitSession prepared beforeCommit)
    (λ _, throw AuthServiceError).

(** ** Establishment: the synchronous part of a call *)

Inductive job :=
| Bootstrap_job (input : UpstreamAuthentication)
| Login_job (v : verification) (label address : jsstr)
| Setup_job (password address : jsstr).

(** A promise: settled, or the promise of a queued job. *)
Inductive answer :=
| Rejected
| Resolved (r : AuthBootstrapResult)
| Enqueued (j : job).

Definition localBootstrap (setupRequired : option bool) : SM AuthBootstrap :=
  let! required :=
    match setupRequired with
    | Some b => ret b
    | None => catch (let! b := ask Credentials_isInitialized in ret (negb b))
                (λ _, throw AuthServiceError)
    end in
  ret (if required : bool then Setup_required localUsername else Unauthenticated mode_local).

Definition reserveEstablishment : SM bool :=
  let! a := own (λ a, a) in
  if maxPendingEstablishments <=? pendingEstablishments a then ret false
  else do! set_own (λ a, set_pending (pendingEstablishments a + 1) (pendingLocalAttempts a) a) in
       ret true.
Definition release : SM unit :=
  set_own (λ a, set_pending (pendingEstablishments a - 1) (pendingLocalAttempts a) a).
Definition add_attempt (n : Z) : SM unit :=
  set_own (λ a, set_pending (pendingEstablishments a) (pendingLocalAttempts a + n) a).

Definition bootstrap (input : UpstreamAuthentication) : SM answer :=
  let! reserved := reserveEstablishment in
  ret (if reserved : bool then Enqueued (Bootstrap_job input) else Rejected).

(** [limiter.consume] between the reservation and the job. *)
Definition admit_attempt (address : jsstr) (refused : AuthBootstrapResult) (k : SM answer) : SM answer :=
  let! allowed := attempt (ask (Limiter_consume address)) in
  match allowed with
  | Throw _ => do! release in ret Rejected
  | Ok false => do! release in ret (Resolved refused)
  | Ok true => do! add_attempt 1 in k
  end.

(** What the verification came to when [credentials.verify] returned. *)
Definition begin_verification (username password : jsstr) : SM verification :=
  let! r := attempt (ask (Credentials_verify username password)) in
  ret (match r with
       | Throw _ => Known Verification_failed
       | Ok (inl valid) => Known (Verification_ok valid)
       | Ok (inr p) => Promised p
       end).

Definition login (input : LocalLoginAttempt) : SM answer :=
  if negb (bool_decide (o_mode o = mode_local)) then ret Rejected
  else
    let! init := attempt (ask Credentials_isInitialized) in
    match init with
    | Throw _ => ret Rejected
    | Ok false =>
        let! b := localBootstrap (Some true) in ret (Resolved (localFailure setup_required b))
    | Ok true =>
        let! full := own (λ a, maxSessions o <=? pendingLocalAttempts a) in
        if full then ret (Resolved (localLoginFailure rate_limited))
        else
          let! reserved := reserveEstablishment in
          if negb reserved then ret (Resolved (localLoginFailure rate_limited))
          else match normalizeLabel (username input) with
               | None => do! release in ret Rejected
               | Some label =>
                   let address := boundedAddress (address input) in
                   admit_attempt address (localLoginFailure rate_limited)
                     (let! v := begin_verification (username input) (password input) in
                      ret (Enqueued (Login_job v label address)))
               end
    end.

Definition setup (input : LocalSetupAttempt) : SM answer :=
  if negb (bool_decide (o_mode o = mode_local)) then ret Rejected
  else
    let! init := attempt (ask Credentials_isInitialized) in
    match init with
    | Throw _ => ret Rejected
    | Ok true =>
        let! b := localBootstrap (Some false) in
        ret (Resolved (localFailure already_initialized b))
    | Ok false =>
        let! b := localBootstrap (Some true) in
        let! full := own (λ a, maxSessions o <=? pendingLocalAttempts a) in
        if full then ret (Resolved (localFailure rate_limited b))
        else
          let! reserved := reserveEstablishment in
          if negb reserved then ret (Resolved (localFailure rate_limited b))
          else
            let address := boundedAddress (setup_address input) in
            admit_attempt address (localFailure rate_limited b)
              (ret (Enqueued (Setup_job (setup_password input) address)))
    end.

(** ** Establishment: the queued operations *)

(** The operation that [bootstrap] queues. *)
Definition run_bootstrap (input : UpstreamAuthentication) : SM AuthBootstrapResult :=
  match o_mode o, input with
  | mode_local, Upstream_none =>
      let! b := localBootstrap None in
      ret {| bootstrap_ := b; cookieValue := None; failure := None |}
  | mode_none, Upstream_none => safeEstablish mode_none (js "anonymous") None (ret tt)
  | (cloudflare_access | trusted_header), Upstream identity =>
      if negb (bool_decide (identity_mode identity = o_mode o)) then throw AuthServiceError
      else
        let! u := of_option (validateIdentity identity) AuthServiceError in
        do! throw_if (bool_decide (o_mode o = cloudflare_access) &&
                      bool_decide (valid_expiry u = None)) AuthServiceError in
        do! (match valid_expiry u with
             | None => ret tt
             | Some e => let! n := now in throw_if (e <=? n) AuthServiceError
             end) in
        safeEstablish (o_mode o) (valid_label u) (valid_expiry u) (ret tt)
  | _, _ => throw AuthServiceError
  end.

(** [await verification]: the bridged promise never rejects. *)
Definition await_verification (v : verification) : SM VerificationOutcome :=
  match v with
  | Known outcome => ret outcome
  | Promised p =>
      catch (let! valid := ask (Await_verification p) in ret (Verification_ok valid))
        (λ _, ret Verification_failed)
  end.

Definition completeLoginSlot (v : verification) (label address : jsstr)
    : SM AuthBootstrapResult :=
  let! outcome := await_verification v in
  match outcome with
  | Verification_failed => throw AuthServiceError
  | Verification_ok false => ret (localLoginFailure authentication_failed)
  | Verification_ok true =>
      safeEstablish mode_local label None (ask (Limiter_resetAddress address))
  end.

Definition completeSetup (password address : jsstr) : SM AuthBootstrapResult :=
  let! enrollment :=
    catch (ask (Credentials_enroll password)) (λ _, throw AuthServiceError) in
  match enrollment with
  | enroll_already_initialized =>
      let! b := localBootstrap (Some false) in ret (localFailure already_initialized b)
  | enroll_not_committed => throw AuthServiceError
  | enrolled uncertain =>
      do! (if uncertain then attempt_call (ask Durability_uncertain) else ret tt) in
      safeEstablish mode_local localUsername None (ask (Limiter_resetAddress address))
  end.

Definition run_job (j : job) : SM AuthBootstrapResult :=
  match j with
  | Bootstrap_job input => run_bootstrap input
  | Login_job v label address => completeLoginSlot v label address
  | Setup_job password address => completeSetup password address
  end.

(** The [finally] callback of a job's promise. *)
Definition finish_job (j : job) : SM unit :=
  match j with
  | Bootstrap_job _ => release
  | _ => do! add_attempt (-1) in release
  end.

(** ** Password changes *)

(** [await this.#credentials.verify(...)] *)
Definition verify_now (username password : jsstr) : SM bool :=
  let! r := ask (Credentials_verify username password) in
  match r with
  | inl valid => ret valid
  | inr p => ask (Await_verification p)
  end.

Definition runPasswordChange (session current replacement : jsstr) : SM bool :=
  let! found := find_session session in
  match found with
  | None => ret false
  | Some g =>
      let! s := own (λ a, get_session a g) in
      if negb (bool_decide (mode s = mode_local)) then ret false
      else
        let! expired := expire g in
        if expired then ret false
        else
          let! valid := catch (verify_now (identityLabel s) current)
                          (λ _, throw AuthServiceError) in
          if negb valid then ret false
          else
            let! currentSession := find_session session in
            if negb (bool_decide (currentSession = Some g)) then ret false
            else
              let! expired := expire g in
              if expired then ret false
              else
                let! replaced := catch (ask (Credentials_replacePassword replacement))
                                   (λ _, throw AuthServiceError) in
                match replaced with
                | not_committed => ret false
                | _ =>
                    let! gs := own (λ a, (byId a).*2) in
                    do! each gs (λ g, revoke g R_password_changed) in
                    ret true
                end
  end.

Definition changePassword (session current replacement : jsstr) : SM bool :=
  let! active := own passwordChangeActive in
  if active then ret false
  else
    do! set_own (set_active true) in
    finally (runPasswordChange session current replacement) (set_own (set_active false)).
End service.
