(* ===== verification/AuthFacts.v ===== *)
(** Theorems about [AuthService]: the registry of sessions stays consistent
    and bounded, sessions expire, a revoked session never comes back, and what
    establishment and password changes do. *)
From S2P Require Import Prelude JsMap SafeString Csrf AuthService.
Open Scope Z_scope.

(** * The registry *)

Section registry.
Context (o : AuthServiceOptions).
Implicit Types (a : auth) (g : Z) (s : Stored).

Definition live a g : Prop := ∃ i, jm_get i (byId a) = Some g.

Definition lifetime_ok s : Prop :=
  absoluteExpiresAt s = createdAt s + absoluteDurationMs o ∧
  idleExpiresAt s = Z.min (absoluteExpiresAt s) (lastSeen s + idleDurationMs o).

Record auth_ok a : Prop := {
  ok_ids : jm_wf (byId a);
  ok_digests : jm_wf (byDigest a);
  ok_by_id : ∀ i g, jm_get i (byId a) = Some g → ∃ s, heap a !! g = Some s ∧
    id s = i ∧ generation s = g ∧ g <= generation_counter a ∧ lifetime_ok s ∧
    jm_get (digest s) (byDigest a) = Some g;
  ok_by_digest : ∀ d g, jm_get d (byDigest a) = Some g → ∃ s, heap a !! g = Some s ∧
    digest s = d ∧ jm_get (id s) (byId a) = Some g;
  ok_size : Z.of_nat (length (byId a)) <= maxSessions o;
}.

(** What the synchronous code of other methods does to the fields. *)
Inductive sstep : auth → auth → Prop :=
| Sy_remove g a : live a g → sstep a (remove_session g a)
| Sy_touch g n a : live a g →
    sstep a (put_session g (with_touch (idleDurationMs o) n (get_session a g)) a)
| Sy_csrf g r a : live a g → sstep a (put_session g (with_csrf r (get_session a g)) a)
| Sy_upstream g u a : live a g → sstep a (put_session g (with_upstream u (get_session a g)) a)
| Sy_fields a a' : heap a' = heap a → byDigest a' = byDigest a → byId a' = byId a →
    generation_counter a' = generation_counter a → sstep a a'.

(** A session object that was just made. *)
Definition fresh s a : Prop :=
  generation s = generation_counter a + 1 ∧ jm_get (id s) (byId a) = None ∧
  jm_get (digest s) (byDigest a) = None ∧ Z.of_nat (length (byId a)) < maxSessions o ∧
  lifetime_ok s.

(** What any method may do while a promise is awaited. *)
Inductive astep : auth → auth → Prop :=
| As_sync a a' : sstep a a' → astep a a'
| As_generation a : astep a (next_generation a)
| As_add s a : fresh s a → astep a (add_session s (next_generation a)).

Lemma live_session a g : auth_ok a → live a g → heap a !! g = Some (get_session a g) ∧
  jm_get (id (get_session a g)) (byId a) = Some g ∧
  jm_get (digest (get_session a g)) (byDigest a) = Some g ∧
  generation (get_session a g) = g ∧ g <= generation_counter a ∧ lifetime_ok (get_session a g).
Proof.
  intros Hok [i Hi]. destruct (ok_by_id _ Hok _ _ Hi) as (s & Hs & <- & Hg & Hle & Hl & Hd).
  unfold get_session. by rewrite (lookup_total_correct _ _ _ Hs).
Qed.

Lemma live_has a g : auth_ok a → live a g → jm_has (id (get_session a g)) (byId a) = true.
Proof. intros Hok Hg. destruct (live_session a g Hok Hg) as (_ & H & _). unfold jm_has. by rewrite H. Qed.

(** An update of a session that keeps its identity. *)
Lemma put_ok a g s :
  auth_ok a → live a g → id s = id (get_session a g) → digest s = digest (get_session a g) →
  generation s = g → lifetime_ok s → auth_ok (put_session g s a).
Proof.
  intros Hok Hg Hi Hd Hgen Hl. destruct (live_session a g Hok Hg) as (Hs & Hid & Hdg & _ & Hle & _).
  destruct Hok as [H1 H2 H3 H4 H5]. split; simpl; try done.
  - intros i g' Hg'. destruct (decide (g' = g)) as [->|Hne].
    + rewrite lookup_insert_eq. exists s. destruct (H3 _ _ Hg') as (s0 & Hs0 & <- & _).
      rewrite Hs0 in Hs. injection Hs as ->. by rewrite Hi, Hd.
    + rewrite lookup_insert_ne by done. by apply H3.
  - intros d g' Hg'. destruct (decide (g' = g)) as [->|Hne].
    + rewrite lookup_insert_eq. exists s. destruct (H4 _ _ Hg') as (s0 & Hs0 & <- & _).
      rewrite Hs0 in Hs. injection Hs as ->. by rewrite Hi, Hd.
    + rewrite lookup_insert_ne by done. by apply H4.
Qed.

Lemma remove_fields a g : auth_ok a → live a g →
  byId (remove_session g a) = jm_delete (id (get_session a g)) (byId a) ∧
  byDigest (remove_session g a) = jm_delete (digest (get_session a g)) (byDigest a) ∧
  heap (remove_session g a) = <[g := with_digest [] (get_session a g)]> (heap a) ∧
  generation_counter (remove_session g a) = generation_counter a.
Proof. intros Hok Hg. unfold remove_session. by rewrite live_has. Qed.

Lemma live_unique a g i j : auth_ok a →
  jm_get i (byId a) = Some g → jm_get j (byId a) = Some g → i = j.
Proof.
  intros Hok Hi Hj. destruct (ok_by_id _ Hok _ _ Hi) as (s & Hs & <- & _).
  destruct (ok_by_id _ Hok _ _ Hj) as (s' & Hs' & <- & _). congruence.
Qed.

(** Removing a live session leaves exactly the others. *)
Lemma remove_live a g g' : auth_ok a → live a g →
  live (remove_session g a) g' ↔ live a g' ∧ g' ≠ g.
Proof.
  intros Hok Hg. destruct (remove_fields a g Hok Hg) as (Hb & _).
  destruct (live_session a g Hok Hg) as (_ & Hid & _). unfold live. rewrite Hb. split.
  - intros [i Hi]. rewrite jm_get_delete in Hi. case_decide as Hne; [done|].
    split; [by exists i|]. intros ->. apply Hne. by eapply live_unique.
  - intros [[i Hi] Hne]. exists i. rewrite jm_get_delete, decide_False; [done|].
    intros ->. congruence.
Qed.

Lemma remove_ok a g : auth_ok a → live a g → auth_ok (remove_session g a).
Proof.
  intros Hok Hg. destruct (live_session a g Hok Hg) as (Hs & Hid & Hdg & _).
  destruct (remove_fields a g Hok Hg) as (E1 & E2 & E3 & E4). pose proof Hok as [H1 H2 H3 H4 H5].
  split; rewrite ?E1, ?E2, ?E3, ?E4.
  - by apply jm_delete_wf.
  - by apply jm_delete_wf.
  - intros i g'. rewrite jm_get_delete. case_decide as Hne; [done|]. intros Hi.
    destruct (H3 _ _ Hi) as (s & Hs' & Hsi & Hsg & Hle & Hl & Hd).
    assert (g' ≠ g) as Hg' by (intros ->; apply Hne; by eapply live_unique).
    exists s. rewrite lookup_insert_ne by done. rewrite jm_get_delete, decide_False; [done|].
    intros Heq. rewrite Heq in Hd. congruence.
  - intros d g'. rewrite jm_get_delete. case_decide as Hne; [done|]. intros Hd.
    destruct (H4 _ _ Hd) as (s & Hs' & Hsd & Hi).
    assert (g' ≠ g) as Hg'. { intros ->. apply Hne. rewrite Hs in Hs'. injection Hs' as ->. done. }
    exists s. rewrite lookup_insert_ne by done. rewrite jm_get_delete, decide_False; [done|].
    intros Heq. rewrite Heq in Hi. congruence.
  - pose proof (jm_length_delete_le (id (get_session a g)) (byId a)). lia.
Qed.

Lemma touch_lifetime n s : lifetime_ok s → lifetime_ok (with_touch (idleDurationMs o) n s).
Proof. intros [H1 H2]. done. Qed.

Lemma same_registry_ok a a' :
  heap a' = heap a → byDigest a' = byDigest a → byId a' = byId a →
  generation_counter a' = generation_counter a → auth_ok a → auth_ok a'.
Proof. intros E1 E2 E3 E4 []. split; by rewrite ?E1, ?E2, ?E3, ?E4. Qed.

Lemma sstep_ok a a' : sstep a a' → auth_ok a → auth_ok a'.
Proof.
  intros Hs Hok.
  assert (∀ g s a0, auth_ok a0 → live a0 g → id s = id (get_session a0 g) →
    digest s = digest (get_session a0 g) → generation s = generation (get_session a0 g) →
    (lifetime_ok (get_session a0 g) → lifetime_ok s) → auth_ok (put_session g s a0)) as Hput.
  { intros g s a0 Hok0 Hl Hi Hd Hg Hlife.
    destruct (live_session a0 g Hok0 Hl) as (_ & _ & _ & Hgen & _ & Hl0).
    apply put_ok; auto. congruence. }
  destruct Hs as [g a Hl|g n a Hl|g r a Hl|g u a Hl|a a' E1 E2 E3 E4].
  - by apply remove_ok.
  - apply Hput; try done. apply touch_lifetime.
  - by apply Hput.
  - by apply Hput.
  - by eapply same_registry_ok.
Qed.

Lemma add_ok s a : fresh s a → auth_ok a → auth_ok (add_session s (next_generation a)).
Proof.
  intros (Hg & Hi & Hd & Hsz & Hl) [H1 H2 H3 H4 H5].
  assert (∀ i g, jm_get i (byId a) = Some g → g ≠ generation s) as Hold.
  { intros i g Hg'. destruct (H3 _ _ Hg') as (_ & _ & _ & _ & Hle & _). lia. }
  assert (∀ d g, jm_get d (byDigest a) = Some g → g ≠ generation s) as Hold'.
  { intros d g Hg'. destruct (H4 _ _ Hg') as (s' & _ & _ & Hid). by eapply Hold. }
  split; simpl.
  - by apply jm_set_wf.
  - by apply jm_set_wf.
  - intros i g. rewrite jm_get_set. case_decide as Hx.
    + intros [= <-]. exists s. rewrite lookup_insert_eq, jm_get_set_eq. split_and!; try done. lia.
    + intros Hg'. destruct (H3 _ _ Hg') as (s' & Hs & Hid & Hgen & Hle & Hl' & Hd').
      exists s'. rewrite lookup_insert_ne by (by apply not_eq_sym; eapply Hold).
      rewrite jm_get_set_ne; [by split_and!; try done; lia|]. intros Heq. congruence.
  - intros d g. rewrite jm_get_set. case_decide as Hx.
    + intros [= <-]. exists s. rewrite lookup_insert_eq, jm_get_set_eq. done.
    + intros Hg'. destruct (H4 _ _ Hg') as (s' & Hs & Hd' & Hid).
      exists s'. rewrite lookup_insert_ne by (by apply not_eq_sym; eapply Hold').
      rewrite jm_get_set_ne; [done|]. intros Heq. congruence.
  - rewrite jm_set_absent, length_app by done. simpl. lia.
Qed.

Lemma astep_ok a a' : astep a a' → auth_ok a → auth_ok a'.
Proof.
  intros [? ? Hs|?|? ?] Hok; [by eapply sstep_ok| |by apply add_ok].
  destruct Hok as [H1 H2 H3 H4 H5]. split; try done. simpl. intros i g Hi.
  destruct (H3 i g Hi) as (s & Hs & Hid & Hg & Hle & ?). exists s. split_and!; try done; [lia|tauto..].
Qed.

Lemma ssteps_ok a a' : rtc sstep a a' → auth_ok a → auth_ok a'.
Proof. induction 1; eauto using sstep_ok. Qed.
Lemma asteps_ok a a' : rtc astep a a' → auth_ok a → auth_ok a'.
Proof. induction 1; eauto using astep_ok. Qed.
Lemma ssteps_asteps a a' : rtc sstep a a' → rtc astep a a'.
Proof. induction 1; [done|]. eapply rtc_l; [by apply As_sync|done]. Qed.

(** ** Sessions come and go *)

(** The generation was used and its session is gone. *)
Definition gone g a : Prop := g <= generation_counter a ∧ ¬ live a g.

Lemma sstep_live a a' g : auth_ok a → sstep a a' → live a' g → live a g.
Proof.
  intros Hok Hs Hl.
  destruct Hs as [g0 a0 Hg|g0 n a0 Hg|g0 r a0 Hg|g0 u a0 Hg|a0 a1 E1 E2 E3 E4]; try exact Hl.
  - apply (remove_live a0 g0 g Hok Hg) in Hl. tauto.
  - destruct Hl as [i Hi]. exists i. congruence.
Qed.

Lemma sstep_counter a a' : auth_ok a → sstep a a' → generation_counter a' = generation_counter a.
Proof.
  intros Hok Hs.
  destruct Hs as [g0 a0 Hg|g0 n a0 Hg|g0 r a0 Hg|g0 u a0 Hg|a0 a1 E1 E2 E3 E4]; try done.
  by destruct (remove_fields a0 g0 Hok Hg) as (_ & _ & _ & ?).
Qed.

Lemma astep_gone a a' g : auth_ok a → astep a a' → gone g a → gone g a'.
Proof.
  intros Hok Hstep [Hle Hn]. destruct Hstep as [a a' Hs|a|s a Hf].
  - split; [by rewrite (sstep_counter a a')|]. intros Hl. by eapply Hn, sstep_live.
  - split; [simpl; lia|done].
  - split; [simpl; lia|]. intros [i Hi]. simpl in Hi. rewrite jm_get_set in Hi.
    case_decide as Hx; [|by apply Hn; exists i].
    injection Hi as Heq. pose proof (proj1 Hf). lia.
Qed.

Lemma asteps_gone a a' g : rtc astep a a' → auth_ok a → gone g a → gone g a'.
Proof.
  induction 1 as [|a a1 a' Hs _ IH]; [done|]. intros Hok Hg.
  apply IH; [by eapply astep_ok|by eapply astep_gone].
Qed.

Lemma ssteps_live a a' g : rtc sstep a a' → auth_ok a → live a' g → live a g.
Proof.
  induction 1 as [|a a1 a' Hs _ IH]; [done|]. intros Hok Hg.
  eapply sstep_live; [done|done|]. apply IH; [by eapply sstep_ok|done].
Qed.

Lemma new_auth_ok : 1 <= maxSessions o → auth_ok new_auth.
Proof. intros. split; simpl; try done; try apply NoDup_nil_2; lia. Qed.
End registry.

(** * The environment

    A call of a dependency changes nothing here, an observer may run
    synchronous methods, and while a promise is awaited any method may run. *)

Definition allowed (o : AuthServiceOptions) (e : ev) (a a' : auth) : Prop :=
  match e with
  | Observe _ _ _ => rtc (sstep o) a a'
  | Await_verification _ | Credentials_enroll _ | Credentials_replacePassword _ =>
      rtc (astep o) a a'
  | _ => a' = a
  end.

Class AuthEnv (o : AuthServiceOptions) {W} (h : @handler auth W ev error resp) : Prop := {
  env_allowed : ∀ e c w r c' w', h e c w = (r, (c', w')) → allowed o e c c';
  (** [randomBytes] returns a [Uint8Array] *)
  env_bytes : ∀ n c w bytes x, h (Random n) c w = (Ok bytes, x) → Forall is_byte bytes;
}.

Definition quiet (e : ev) : bool :=
  match e with
  | Observe _ _ _ | Await_verification _ | Credentials_enroll _
  | Credentials_replacePassword _ => false
  | _ => true
  end.

Lemma allowed_quiet o e a a' : quiet e = true → allowed o e a a' → a' = a.
Proof. by destruct e. Qed.

Section rules.
Context `{Platform} {W : Type} (h : @handler auth W ev error resp)
  (o : AuthServiceOptions) `{!AuthEnv o h}.
Context (hash : jsstr → jsstr) (localeCompare : jsstr → jsstr → Z).
Implicit Types (s : sys auth W ev) (a : auth) (g : Z).

Definition syn s s' : Prop := rtc (sstep o) (comp s) (comp s').
Definition asyn s s' : Prop := rtc (astep o) (comp s) (comp s').

#[export] Instance syn_preorder : PreOrder syn.
Proof. split; [intros s; apply rtc_refl|]. intros s1 s2 s3. unfold syn, asyn. apply transitivity. Qed.
#[export] Instance asyn_preorder : PreOrder asyn.
Proof. split; [intros s; apply rtc_refl|]. intros s1 s2 s3. unfold syn, asyn. apply transitivity. Qed.
Lemma syn_same s s' : comp s' = comp s → syn s s'.
Proof. unfold syn. intros ->. apply rtc_refl. Qed.
Lemma syn_asyn s s' : syn s s' → asyn s s'.
Proof. apply ssteps_asteps. Qed.
Lemma syn_ok s s' : syn s s' → auth_ok o (comp s) → auth_ok o (comp s').
Proof. apply ssteps_ok. Qed.
Lemma asyn_ok s s' : asyn s s' → auth_ok o (comp s) → auth_ok o (comp s').
Proof. apply asteps_ok. Qed.

(** The clock answers [n] at [s]. *)
Definition clock_reads s (n : Z) : Prop :=
  ∃ w', h Clock (comp s) (world s) = (Ok (Some n), (comp s, w')).

Lemma wp_quiet e (Q : res error (resp e) → sys auth W ev → Prop) s :
  quiet e = true → (∀ r s', comp s' = comp s → Q r s') → wp (ask h e) Q s.
Proof.
  intros Hq HQ. apply wp_call. intros r c w Hh. apply HQ. simpl.
  apply env_allowed in Hh. eapply allowed_quiet; [exact Hq|exact Hh].
Qed.

Lemma wp_clock_strong (Q : res error Z → sys auth W ev → Prop) s :
  (∀ n s', clock_reads s n → comp s' = comp s → Q (Ok n) s') →
  (∀ e s', (∀ n, ¬ clock_reads s n) → comp s' = comp s → Q (Throw e) s') →
  wp (now h) Q s.
Proof.
  intros Hok Ht. unfold now. wp_step. apply (wp_call resp h Clock). intros r c w Hh.
  pose proof (env_allowed _ _ _ _ _ _ Hh) as Hc. simpl in Hc. subst c.
  assert (∀ n, clock_reads s n → r = Ok (Some n)) as Hr.
  { intros n [w' Hn]. congruence. }
  destruct r as [[n|]|e].
  - wp_step; [|done]. simplify_eq. apply Hok; [by exists w|done].
  - wp_step; [done|]. apply Ht; [|done]. intros n Hn%Hr. congruence.
  - apply Ht; [|done]. intros n Hn%Hr. congruence.
Qed.
Lemma wp_clock (Q : res error Z → sys auth W ev → Prop) s :
  (∀ n s', clock_reads s n → comp s' = comp s → Q (Ok n) s') →
  (∀ e s', comp s' = comp s → Q (Throw e) s') → wp (now h) Q s.
Proof. intros Hok Ht. apply wp_clock_strong; auto. Qed.

Lemma wp_emit session reason s :
  wp (emitRevocation h session reason) (λ r s', r = Ok tt ∧ syn s s') s.
Proof.
  unfold emitRevocation. wp_step. apply wp_own. apply (wp_each syn). intros ob s1.
  unfold attempt_call. wp_step. apply (wp_call resp h (Observe ob session reason)).
  intros r c w Hh. apply env_allowed in Hh. destruct r as [[]|e];
    [split; [done|exact Hh]|wp_step; split; [done|exact Hh]].
Qed.

(** A session object whose id is not taken over by another. *)
Definition tidy a g : Prop :=
  jm_get (id (get_session a g)) (byId a) = Some g ∨
  jm_get (id (get_session a g)) (byId a) = None.

Lemma live_tidy a g : auth_ok o a → live a g → tidy a g.
Proof. intros Hok Hl. left. by apply (live_session o a g Hok Hl). Qed.

Lemma get_put a g g' st :
  get_session (put_session g st a) g' = if decide (g' = g) then st else get_session a g'.
Proof.
  unfold get_session. simpl. case_decide as Hx.
  - subst g'. by rewrite lookup_total_insert_eq.
  - by rewrite lookup_total_insert_ne.
Qed.

Lemma sstep_tidy a a' g : auth_ok o a → sstep o a a' → tidy a g → tidy a' g.
Proof.
  intros Hok Hs. destruct Hs as [g0 a Hl|g0 n a Hl|g0 r a Hl|g0 u a Hl|a a' E1 E2 E3 E4].
  - destruct (remove_fields o a g0 Hok Hl) as (E1 & _ & E3 & _).
    assert (id (get_session (remove_session g0 a) g) = id (get_session a g)) as Hid.
    { unfold get_session. rewrite E3. destruct (decide (g = g0)) as [->|Hne].
      - by rewrite lookup_total_insert_eq.
      - by rewrite lookup_total_insert_ne. }
    unfold tidy. rewrite Hid, E1, !jm_get_delete. case_decide; tauto.
  - unfold tidy. rewrite get_put. by case_decide as Hx; [subst g|].
  - unfold tidy. rewrite get_put. by case_decide as Hx; [subst g|].
  - unfold tidy. rewrite get_put. by case_decide as Hx; [subst g|].
  - unfold tidy, get_session. by rewrite E1, E3.
Qed.

Lemma ssteps_tidy a a' g : rtc (sstep o) a a' → auth_ok o a → tidy a g → tidy a' g.
Proof.
  induction 1 as [|a a1 a' Hs _ IH]; [done|]. intros Hok Ht.
  apply IH; [by eapply sstep_ok|by eapply sstep_tidy].
Qed.

Lemma wp_revoke g reason s :
  auth_ok o (comp s) → tidy (comp s) g →
  wp (revoke h g reason) (λ r s', r = Ok tt ∧ syn s s' ∧ ¬ live (comp s') g) s.
Proof.
  intros Hok Ht. unfold revoke. wp_step. apply wp_own.
  destruct Ht as [Hg|Hn]; unfold jm_has; [rewrite Hg|rewrite Hn]; simpl.
  - assert (live (comp s) g) as Hl by by eexists.
    wp_step. apply wp_set_own. eapply wp_mono; [apply wp_emit|].
    intros r s1 [-> H1]. unfold syn in H1. simpl in H1. split; [done|].
    pose proof (remove_ok o (comp s) g Hok Hl) as Hok1. split.
    + unfold syn. eapply rtc_l; [by apply Sy_remove|done].
    + intros Hl1. eapply ssteps_live in Hl1; [|done|done].
      by apply (remove_live o (comp s) g g Hok Hl) in Hl1 as [_ ?].
  - wp_step. split_and!; [done|done|]. intros Hl. 
    destruct (live_session o (comp s) g Hok Hl) as (_ & Hid & _). congruence.
Qed.

(** The session has expired, or not, at the clock's reading. *)
Lemma wp_expire_strong g (Q : res error bool → sys auth W ev → Prop) s :
  auth_ok o (comp s) → tidy (comp s) g →
  (∀ n reason s', clock_reads s n → expiredReasonAt (get_session (comp s) g) n = Some reason →
     syn s s' → ¬ live (comp s') g → Q (Ok true) s') →
  (∀ n s', clock_reads s n → expiredReasonAt (get_session (comp s) g) n = None →
     comp s' = comp s → Q (Ok false) s') →
  (∀ e s', (∀ n, ¬ clock_reads s n) → comp s' = comp s → Q (Throw e) s') →
  wp (expire h g) Q s.
Proof.
  intros Hok Ht Hyes Hno Hthrow. unfold expire, expiredReason. do 2 wp_step.
  apply wp_clock_strong; [|done]. intros n s1 Hn H1. apply wp_own. rewrite H1.
  destruct (expiredReasonAt _ _) as [reason|] eqn:He; [|wp_step; by eapply Hno].
  wp_step. rewrite <-H1 in Hok, Ht. eapply wp_mono; [by apply wp_revoke|].
  intros r s2 (-> & H2 & H3). wp_step. eapply Hyes; [done|done| |done].
  unfold syn in *. by rewrite <-H1.
Qed.

Lemma wp_expire g (Q : res error bool → sys auth W ev → Prop) s :
  auth_ok o (comp s) → tidy (comp s) g →
  (∀ n reason s', clock_reads s n → expiredReasonAt (get_session (comp s) g) n = Some reason →
     syn s s' → ¬ live (comp s') g → Q (Ok true) s') →
  (∀ n s', clock_reads s n → expiredReasonAt (get_session (comp s) g) n = None →
     comp s' = comp s → Q (Ok false) s') →
  (∀ e s', comp s' = comp s → Q (Throw e) s') →
  wp (expire h g) Q s.
Proof. intros Hok Ht Hyes Hno Hthrow. apply wp_expire_strong; auto. Qed.

Lemma found_live a session g : jm_get session (byId a) = Some g → live a g.
Proof. by eexists. Qed.

Lemma expiredReason_None st n :
  lifetime_ok o st → expiredReasonAt st n = None →
  n < lastSeen st + idleDurationMs o ∧ n < createdAt st + absoluteDurationMs o ∧
  ∀ u, upstreamExpiresAt st = Some u → n < u.
Proof.
  intros [Ha Hi]. unfold expiredReasonAt. intros He.
  destruct (absoluteExpiresAt st <? idleExpiresAt st) eqn:Hlt, (upstreamExpiresAt st) as [u|];
    try destruct (u <? _) eqn:Hu; case_match; try done; breflect;
    split_and!; try lia; intros u' [= <-]; lia.
Qed.
End rules.

(** A loop whose body keeps an invariant, and may throw. *)
Lemma wp_each_inv {S E A} (I : S → Prop) (R : S → S → Prop) `{!PreOrder R} (l : list A)
    (f : A → M S E unit) s :
  (∀ a s, a ∈ l → I s → wp (f a) (λ _ s', R s s') s) → (∀ s s', I s → R s s' → I s') →
  I s → wp (each l f) (λ _ s', R s s') s.
Proof.
  intros Hf HI. revert s. induction l as [|a l IH]; intros s Hs; simpl; [by apply wp_ret|].
  apply wp_bind. eapply wp_mono; [apply Hf; [by left|done]|]. intros [[]|e] s1 H1; [|done].
  eapply wp_mono; [apply IH; [|by eapply HI]|].
  - intros b s2 Hb. apply Hf. by right.
  - intros r s2 H2. by etrans.
Qed.

(** * Sorting *)

Lemma elem_insert_by {A} (cmp : A → A → Z) x l y : y ∈ insert_by cmp x l ↔ y = x ∨ y ∈ l.
Proof.
  induction l as [|z l IH]; simpl; [set_solver|]. case_match; [|set_solver].
  rewrite !elem_of_cons, IH. tauto.
Qed.
Lemma elem_sort_by {A} (cmp : A → A → Z) l y : y ∈ sort_by cmp l ↔ y ∈ l.
Proof.
  unfold sort_by. assert (∀ acc, y ∈ foldl (λ acc x, insert_by cmp x acc) acc l ↔
    y ∈ acc ∨ y ∈ l) as Hf; [|rewrite Hf; set_solver].
  induction l as [|x l IH]; intros acc; simpl; [set_solver|].
  rewrite IH, elem_insert_by, elem_of_cons. tauto.
Qed.

Lemma listed_live o a g : auth_ok o a → g ∈ (byId a).*2 → live a g.
Proof.
  intros Hok [[i g'] [-> Hin]]%list_elem_of_fmap. exists i. by apply jm_elem_get, Hin; apply Hok.
Qed.

(** * Synchronous methods *)

Section sync.
Context `{Platform} {W : Type} (h : @handler auth W ev error resp)
  (o : AuthServiceOptions) `{!AuthEnv o h}.
Context (hash : jsstr → jsstr) (localeCompare : jsstr → jsstr → Z).
Implicit Types (s : sys auth W ev) (a : auth) (g : Z).

(** The method does what synchronous steps do. *)
Definition sync {A} (m : M (sys auth W ev) error A) : Prop :=
  ∀ s, auth_ok o (comp s) → wp m (λ _ s', syn o s s') s.

Lemma wp_find session (Q : res error (option Z) → sys auth W ev → Prop) s :
  (∀ g, jm_get session (byId (comp s)) = Some g → Q (Ok (Some g)) s) →
  (jm_get session (byId (comp s)) = None → Q (Ok None) s) →
  wp (find_session session) Q s.
Proof.
  intros Hs Hn. apply wp_own. destruct (jm_get session (byId (comp s))); [by apply Hs|by apply Hn].
Qed.

(** [expire] of a live session, when only the steps matter. *)
Lemma wp_expire_sync {B} g (k : bool → M (sys auth W ev) error B) s :
  auth_ok o (comp s) → live (comp s) g →
  (∀ s', comp s' = comp s → wp (k false) (λ _ s'', syn o s' s'') s') →
  (∀ s', wp (k true) (λ _ s'', s'' = s') s') →
  wp (bind (expire h g) k) (λ _ s', syn o s s') s.
Proof.
  intros Hok Hl Hk Hk'. wp_step. apply (wp_expire h o g); [done|by eapply live_tidy|..].
  - intros n reason s1 _ _ K1 _. eapply wp_mono; [apply Hk'|]. by intros r s2 ->.
  - intros n s1 _ _ K1. eapply wp_mono; [by apply Hk|]. intros r s2 K2.
    unfold syn in *. by rewrite <-K1.
  - intros e s1 K1. by apply syn_same.
Qed.

Lemma wp_touch_now g s :
  live (comp s) g → wp (touch_now h o g) (λ _ s', syn o s s') s.
Proof.
  intros Hl. unfold touch_now. wp_step. apply (wp_clock h o).
  - intros n s1 _ K1. apply wp_set_own. unfold syn. simpl. rewrite K1.
    by apply rtc_once, Sy_touch.
  - intros e s1 K1. by apply syn_same.
Qed.

Lemma sync_authenticate {A} (as_view : Stored → A) raw :
  sync (authenticate_with h hash as_view raw).
Proof.
  intros s Hok. unfold authenticate_with. destruct raw as [raw|]; [|by wp_step].
  wp_step; [by wp_step|]. wp_step. apply wp_own.
  destruct (jm_get (hash raw) (byDigest (comp s))) as [g|] eqn:Hg; [|by wp_step].
  destruct (ok_by_digest _ _ Hok _ _ Hg) as (st & _ & _ & Hi).
  apply wp_expire_sync; [done|by eapply found_live| |by intros s1; wp_step].
  intros s1 _. by apply wp_own.
Qed.

Lemma sync_isActive session g' : sync (isActiveAuthority h session g').
Proof.
  intros s Hok. unfold isActiveAuthority. wp_step. apply wp_find; [intros g Hg|intros _; by wp_step].
  wp_step. apply wp_own. wp_step; [by wp_step|].
  apply wp_expire_sync; [done|by eapply found_live| |by intros s1; wp_step].
  intros s1 _. by wp_step.
Qed.

Lemma sync_touchAuthority session g' act : sync (touchAuthority h o session g' act).
Proof.
  intros s Hok. unfold touchAuthority. destruct act; [by wp_step|].
  wp_step. apply wp_find; [intros g Hg|intros _; by wp_step].
  wp_step. apply wp_own. wp_step; [by wp_step|].
  apply wp_expire_sync; [done|by eapply found_live| |by intros s1; wp_step].
  intros s1 K1. wp_step. eapply wp_mono; [apply wp_touch_now; rewrite K1; by eapply found_live|].
  intros [[]|e] s2 K2; [by apply wp_own|done].
Qed.

Lemma sync_touch session act : sync (touch h o session act).
Proof.
  intros s Hok. unfold touch. wp_step. apply wp_find; [intros g Hg|intros _; by wp_step].
  apply wp_expire_sync; [done|by eapply found_live| |by intros s1; wp_step].
  intros s1 K1. apply wp_touch_now. rewrite K1. by eapply found_live.
Qed.

Lemma wp_iso_expiry u s : wp (@iso_expiry W u) (λ _ s', s' = s) s.
Proof. unfold iso_expiry. destruct u; wp_go; done. Qed.

Lemma sync_resume session : sync (resume h session).
Proof.
  intros s Hok. unfold resume. wp_step. apply wp_find; [intros g Hg|intros _; by wp_step].
  apply wp_expire_sync; [done|by eapply found_live| |by intros s1; wp_step].
  intros s1 K1. wp_step. wp_step. apply (wp_quiet h o Csrf_create); [done|].
  intros [i|e] s2 K2; [|wp_step; by apply syn_same]. wp_step. apply wp_own.
  wp_step. eapply wp_mono; [apply wp_iso_expiry|]. intros [u|e] s3 ->;
    [|wp_step; by apply syn_same].
  wp_step. apply wp_set_own. wp_step. unfold syn. simpl. rewrite K2, K1.
  apply rtc_once, Sy_csrf. by eapply found_live.
Qed.

Lemma sync_refresh session u : sync (refresh h session u).
Proof.
  intros s Hok. unfold refresh. wp_step. apply wp_find; [intros g Hg|intros _; by wp_step].
  apply wp_expire_sync; [done|by eapply found_live| |by intros s1; wp_step].
  intros s1 K1. wp_step. apply wp_own. wp_step; [by wp_step|].
  destruct (validateIdentity u) as [v|]; [|by wp_step]. unfold refresh_with.
  wp_step; [by wp_step|]. wp_step; [by wp_step|].
  destruct (valid_expiry v) as [e|]; [|by wp_step]. wp_step.
  apply (wp_clock h o); [intros n s2 _ K2|intros err s2 K2; by apply syn_same].
  wp_step; [wp_step; by apply syn_same|]. wp_step. apply wp_set_own. apply wp_own.
  unfold syn. simpl. rewrite K2, K1. apply rtc_once, Sy_upstream. by eapply found_live.
Qed.

Lemma sync_verifyCsrf session v : sync (verifyCsrf h session v).
Proof.
  intros s Hok. unfold verifyCsrf. wp_step. apply wp_find; [intros g Hg|intros _; by wp_step].
  apply wp_expire_sync; [done|by eapply found_live| |by intros s1; wp_step].
  intros s1 K1. wp_step. apply wp_own. apply (wp_quiet h o (Csrf_verify _ v)); [done|].
  intros r s2 K2. by apply syn_same.
Qed.

Lemma sync_logout session : sync (logout h session).
Proof.
  intros s Hok. unfold logout. wp_step. apply wp_find; [intros g Hg|intros _; by wp_step].
  eapply wp_mono; [apply (wp_revoke h o g R_logout); [done|by eapply live_tidy, found_live]|].
  by intros r s1 (_ & ? & _).
Qed.

Lemma sync_sweep : sync (sweepExpired h localeCompare).
Proof.
  intros s Hok. unfold sweepExpired. wp_step. apply wp_own. set (gs := sort_by _ _).
  apply (wp_each_inv (λ s, auth_ok o (comp s) ∧ ∀ g, g ∈ gs → tidy (comp s) g) (syn o)).
  - intros g s1 Hg [Hok1 Ht]. wp_step. apply (wp_expire h o g); [done|by apply Ht|..].
    + intros. by wp_step.
    + intros n s2 _ _ K2. wp_step. by apply syn_same.
    + intros e s2 K2. by apply syn_same.
  - intros s1 s2 [Hok1 Ht] K2. split; [by eapply syn_ok|]. intros g Hg.
    eapply ssteps_tidy; [exact K2|done|by apply Ht].
  - split; [done|]. intros g Hg. eapply live_tidy; [done|]. eapply listed_live; [done|].
    by apply elem_sort_by in Hg.
Qed.

Lemma syn_fields s (f : auth → auth) :
  (∀ a, heap (f a) = heap a ∧ byDigest (f a) = byDigest a ∧ byId (f a) = byId a ∧
        generation_counter (f a) = generation_counter a) →
  syn o s (Sys (f (comp s)) (world s) (log s)).
Proof. intros Hf. destruct (Hf (comp s)) as (?&?&?&?). by apply rtc_once, Sy_fields. Qed.

Lemma sync_set_own (f : auth → auth) :
  (∀ a, heap (f a) = heap a ∧ byDigest (f a) = byDigest a ∧ byId (f a) = byId a ∧
        generation_counter (f a) = generation_counter a) →
  sync (set_own f).
Proof. intros Hf s Hok. apply wp_set_own. by apply syn_fields. Qed.

Lemma sync_onRevoked : sync (onRevoked o).
Proof.
  intros s Hok. unfold onRevoked. wp_step. apply wp_own. wp_step; [by wp_step|].
  wp_step. apply wp_set_own. wp_step. by apply rtc_once, Sy_fields.
Qed.
End sync.

(** * Establishment *)

(** [localeCompare] is a consistent comparator, as ECMA-262 requires. *)
Class Comparator {A} (cmp : A → A → Z) : Prop := {
  cmp_total : ∀ x y, cmp x y <= 0 ∨ cmp y x <= 0;
  cmp_trans : ∀ x y z, cmp x y <= 0 → cmp y z <= 0 → cmp x z <= 0;
}.

#[export] Instance compare_age_comparator localeCompare `{!Comparator localeCompare} :
  Comparator (compare_age localeCompare).
Proof.
  split; unfold compare_age.
  - intros x y. repeat case_match; breflect; try lia. apply cmp_total.
  - intros x y z. repeat case_match; breflect; try lia. apply cmp_trans.
Qed.

Lemma comparator_on {A B} (f : A → B) (cmp : B → B → Z) :
  Comparator cmp → Comparator (λ x y, cmp (f x) (f y)).
Proof. intros [H1 H2]. split; [intros x y; apply H1|intros x y z; apply H2]. Qed.

(** The head of the sorted list is the least element. *)
Lemma sort_by_least {A} (f : A → A → Z) `{!Comparator f} l x l' :
  sort_by f l = x :: l' → ∀ y, y ∈ l → f x y <= 0.
Proof.
  assert (∀ l acc, (∀ h t, acc = h :: t → ∀ y, y ∈ acc → f h y <= 0) →
    ∀ h t, foldl (λ acc x, insert_by f x acc) acc l = h :: t →
    ∀ y, y ∈ acc ∨ y ∈ l → f h y <= 0) as Hall.
  { clear l x l'. induction l as [|x l IH]; intros acc Hacc h t Hs y Hy; simpl in *.
    - destruct Hy as [Hy|Hy]; [by eapply Hacc|set_solver].
    - eapply (IH (insert_by f x acc)); [|exact Hs|].
      + destruct acc as [|z acc]; simpl.
        * intros h' t' [= <- <-] y' ->%list_elem_of_singleton.
          by destruct (cmp_total x x).
        * case_match; breflect; intros h' t' [= <- <-] y' Hy'.
          -- apply elem_of_cons in Hy' as [->|Hy']; [apply (Hacc z acc eq_refl); by left|].
             apply elem_insert_by in Hy' as [->|Hy']; [done|].
             apply (Hacc z acc eq_refl). by right.
          -- apply elem_of_cons in Hy' as [->|Hy'];
               [by destruct (cmp_total x x)|].
             eapply cmp_trans; [destruct (cmp_total x z); [done|lia]|].
             by apply (Hacc z acc eq_refl).
      + destruct Hy as [Hy|Hy]; [left; apply elem_insert_by; by right|].
        apply elem_of_cons in Hy as [->|Hy]; [left; apply elem_insert_by; by left|by right]. }
  intros Hs y Hy. eapply (Hall l []); [done|exact Hs|by right].
Qed.

Section commit.
Context (o : AuthServiceOptions) (localeCompare : jsstr → jsstr → Z).
Implicit Types (a : auth) (g : Z) (st : Stored).

Definition remove_all (gs : list Z) a : auth := foldl (λ a g, remove_session g a) a gs.

Lemma remove_next g a : remove_session g (next_generation a) = next_generation (remove_session g a).
Proof. unfold remove_session, get_session. simpl. by case_match. Qed.
Lemma remove_all_next gs a : remove_all gs (next_generation a) = next_generation (remove_all gs a).
Proof. revert a. induction gs as [|g gs IH]; intros a; simpl; [done|]. by rewrite remove_next. Qed.

(** Removing live sessions one by one. *)
Lemma remove_all_facts gs a :
  auth_ok o a → NoDup gs → (∀ g, g ∈ gs → live a g) →
  rtc (sstep o) a (remove_all gs a) ∧
  (∀ g, live (remove_all gs a) g ↔ live a g ∧ g ∉ gs) ∧
  (length (byId (remove_all gs a)) + length gs = length (byId a))%nat ∧
  (∀ i, jm_get i (byId a) = None → jm_get i (byId (remove_all gs a)) = None) ∧
  (∀ d, jm_get d (byDigest a) = None → jm_get d (byDigest (remove_all gs a)) = None) ∧
  generation_counter (remove_all gs a) = generation_counter a.
Proof.
  intros Hok Hnd. revert a Hok. induction Hnd as [|g gs Hg _ IH]; intros a Hok Hl; simpl.
  { split_and!; try done; try lia. set_solver. }
  assert (live a g) as Hlg by (apply Hl; by left).
  destruct (remove_fields o a g Hok Hlg) as (E1 & E2 & _ & E4).
  destruct (IH (remove_session g a)) as (K1 & K2 & K3 & K4 & K5 & K6).
  { by apply remove_ok. }
  { intros g' Hg'. apply (remove_live o a g g' Hok Hlg). split; [apply Hl; by right|].
    intros ->. done. }
  split_and!.
  - eapply rtc_l; [by apply Sy_remove|done].
  - intros g'. rewrite K2, (remove_live o a g g' Hok Hlg), elem_of_cons. tauto.
  - rewrite E1 in K3. destruct (live_session o a g Hok Hlg) as (_ & Hid & _).
    pose proof (jm_length_delete (id (get_session a g)) (byId a) (ok_ids _ _ Hok)) as Hlen.
    rewrite Hid in Hlen. specialize (Hlen ltac:(by eexists)). lia.
  - intros i Hi. apply K4. rewrite E1, jm_get_delete. by case_decide.
  - intros d Hd. apply K5. rewrite E2, jm_get_delete. by case_decide.
  - by rewrite K6.
Qed.

Lemma listed_NoDup a : auth_ok o a → NoDup (byId a).*2.
Proof.
  intros Hok. apply NoDup_fmap_2_strong; [|eapply NoDup_fmap_1, (ok_ids _ _ Hok)].
  intros [i g] [j g'] Hi Hj Heq. simpl in Heq. subst g'. f_equal.
  eapply (live_unique o a g); [done|by apply jm_elem_get, Hi; apply Hok|].
  by apply jm_elem_get, Hj; apply Hok.
Qed.

Definition unexpired (n : Z) a g : Prop :=
  live a g ∧ expiredReasonAt (get_session a g) n = None.

Lemma live_listed a g : auth_ok o a → live a g ↔ g ∈ (byId a).*2.
Proof.
  intros Hok. split; [|by eapply listed_live].
  intros [i Hi%jm_get_elem]. apply list_elem_of_fmap. by exists (i, g).
Qed.

Definition active_at n a : list Z :=
  filter (λ g, expiredReasonAt (get_session a g) n = None) (byId a).*2.
Definition expired_at n a : list (Z * RevocationReason) :=
  omap (λ g, reason ← expiredReasonAt (get_session a g) n; Some (g, reason)) (byId a).*2.

(** At capacity, the least recently seen of the sessions that have not
    expired gives way. *)
Definition gives_way n a g : Prop :=
  g ∈ active_at n a ∧ maxSessions o <= Z.of_nat (length (active_at n a)) ∧
  ∀ g', g' ∈ active_at n a →
    compare_age localeCompare (get_session a g) (get_session a g') <= 0.

Lemma expired_at_keys n a :
  (expired_at n a).*1 = filter (λ g, expiredReasonAt (get_session a g) n ≠ None) (byId a).*2.
Proof.
  unfold expired_at. set (f g := expiredReasonAt _ n ≫= _).
  induction (byId a).*2 as [|g gs IH]; [done|].
  assert (omap f (g :: gs) = match f g with Some y => y :: omap f gs | None => omap f gs end)
    as -> by done.
  rewrite filter_cons, <-IH. unfold f at 1.
  destruct (expiredReasonAt (get_session a g) n); by case_decide.
Qed.

Lemma partition_length n a :
  (length (expired_at n a) + length (active_at n a) = length (byId a))%nat.
Proof.
  rewrite <-(length_fmap fst (expired_at n a)), expired_at_keys. unfold active_at.
  rewrite <-(length_fmap snd (byId a)). induction (byId a).*2 as [|g gs IH]; [done|].
  rewrite !filter_cons. destruct (expiredReasonAt _ _); repeat case_decide; simpl; try done; lia.
Qed.

(** Who is revoked by a commit at [n]. *)
Definition revoked_by n a g : Prop :=
  (live a g ∧ expiredReasonAt (get_session a g) n ≠ None) ∨ gives_way n a g.

Lemma sort_by_nil {A} (cmp : A → A → Z) l : sort_by cmp l = [] → l = [].
Proof.
  intros Hs. destruct l as [|x l]; [done|]. exfalso.
  assert (x ∈ sort_by cmp (x :: l)) as Hin by (apply elem_sort_by; by left).
  rewrite Hs in Hin. set_solver.
Qed.

(** Nobody, or the one session that gives way. *)
Definition capacity_victim n a : list (Z * RevocationReason) :=
  if maxSessions o <=? Z.of_nat (length (active_at n a))
  then match sort_by (λ x y, compare_age localeCompare (get_session a x) (get_session a y))
               (active_at n a) with
       | oldest :: _ => [(oldest, R_capacity)]
       | [] => []
       end
  else [].

Lemma victim_facts `{!Comparator localeCompare} n a :
  1 <= maxSessions o →
  (∀ g, g ∈ (capacity_victim n a).*1 → gives_way n a g) ∧ NoDup (capacity_victim n a).*1 ∧
  (maxSessions o <= Z.of_nat (length (active_at n a)) → length (capacity_victim n a) = 1%nat).
Proof.
  intros Hmax. unfold capacity_victim.
  pose proof (comparator_on (get_session a) _ (compare_age_comparator localeCompare)).
  destruct (maxSessions o <=? _) eqn:Hle; breflect.
  - destruct (sort_by _ _) as [|g gs] eqn:Hs.
    { apply sort_by_nil in Hs. rewrite Hs in Hle. simpl in Hle. lia. }
    split_and!; [|apply NoDup_singleton|done]. intros g' ->%list_elem_of_singleton.
    assert (g ∈ active_at n a) as Hg by (eapply elem_sort_by; rewrite Hs; by left).
    split_and!; [done|done|]. intros g' Hg'.
    apply (sort_by_least (λ x y, compare_age localeCompare (get_session a x) (get_session a y))
             (active_at n a) g gs Hs g' Hg').
  - split_and!; [set_solver|apply NoDup_nil_2|lia].
Qed.

Lemma revocations_facts `{!Comparator localeCompare} n a :
  auth_ok o a → 1 <= maxSessions o →
  let gs := (revocations localeCompare o n a).*1 in
  NoDup gs ∧ (∀ g, g ∈ gs → live a g) ∧
  Z.of_nat (length (byId a)) - Z.of_nat (length gs) < maxSessions o ∧
  (∀ g, g ∈ gs → revoked_by n a g) ∧
  (∀ g, live a g → expiredReasonAt (get_session a g) n ≠ None → g ∈ gs).
Proof.
  intros Hok Hmax. assert (revocations localeCompare o n a = expired_at n a ++ capacity_victim n a)
    as -> by done.
  cbv zeta. rewrite fmap_app, expired_at_keys.
  destruct (victim_facts n a Hmax) as (V1 & V2 & V3).
  pose proof (partition_length n a) as Hpart. pose proof (ok_size _ _ Hok) as Hsize.
  pose proof (f_equal length (expired_at_keys n a)) as Hlen. rewrite length_fmap in Hlen.
  split_and!.
  - apply NoDup_app. split_and!; [apply NoDup_filter; by apply listed_NoDup| |done].
    intros g Hg%list_elem_of_filter Hv%V1. destruct Hv as [Hv _].
    apply list_elem_of_filter in Hv. tauto.
  - intros g [Hg|Hg]%elem_of_app.
    + apply list_elem_of_filter in Hg as [_ Hg]. by apply live_listed.
    + destruct (V1 g Hg) as [Ha _]. apply list_elem_of_filter in Ha as [_ Ha].
      by apply live_listed.
  - rewrite length_app, length_fmap, <-Hlen.
    destruct (Z.le_gt_cases (maxSessions o) (Z.of_nat (length (active_at n a)))) as [Hle|Hgt];
      [rewrite V3 by done|]; lia.
  - intros g [Hg|Hg]%elem_of_app; [left|right; by apply V1].
    apply list_elem_of_filter in Hg as [He Hg]. split; [by apply live_listed|done].
  - intros g Hg He. apply elem_of_app. left. apply list_elem_of_filter.
    split; [done|by apply live_listed].
Qed.
End commit.

Section establish.
Context `{Platform} {W : Type} (h : @handler auth W ev error resp)
  (o : AuthServiceOptions) `{!AuthEnv o h} (max_pos : 1 <= maxSessions o).
Context (hash : jsstr → jsstr) (localeCompare : jsstr → jsstr → Z)
  `{!Comparator localeCompare}.
Implicit Types (s : sys auth W ev) (a : auth) (g : Z) (st : Stored).

Lemma wp_token n s :
  wp (token h n) (λ r s', comp s' = comp s ∧
    ∀ t, r = Ok t → ∃ bytes, Forall is_byte bytes ∧ length bytes = n ∧ t = base64url bytes) s.
Proof.
  unfold token. wp_step. apply (wp_call resp h (Random n)). intros r c w Hh.
  pose proof (env_allowed _ _ _ _ _ _ Hh) as Hc. simpl in Hc. subst c.
  destruct r as [bytes|e]; [|done].
  pose proof (env_bytes _ _ _ _ _ Hh) as Hb. wp_step.
  wp_step; breflect; [done|]. wp_step. split; [done|]. intros t [= <-]. by exists bytes.
Qed.

Lemma wp_fresh_cookie n s :
  wp (fresh_cookie h hash n) (λ r s', comp s' = comp s ∧
    ∀ c d, r = Ok (Some (c, d)) → TOKEN_PATTERN c = true ∧ d = hash c) s.
Proof.
  revert s. induction n as [|n IH]; intros s; simpl; [by wp_step|].
  wp_step. eapply wp_mono; [apply wp_token|]. intros [t|e] s1 [K1 Ht]; [|done].
  wp_step. apply wp_own. wp_step.
  - eapply wp_mono; [apply IH|]. intros r s2 [-> ?]. done.
  - wp_step. split; [done|]. intros c d [= <- <-].
    destruct (Ht t eq_refl) as (bytes & Hb & Hl & ->). split; [|done]. by apply base64url_token.
Qed.

Lemma wp_fresh_id n s : wp (fresh_id h n) (λ _ s', comp s' = comp s) s.
Proof.
  revert s. induction n as [|n IH]; intros s; simpl; [by wp_step|].
  wp_step. eapply wp_mono; [apply wp_token|]. intros [t|e] s1 [K1 _]; [|done].
  wp_step. apply wp_own. wp_step; [|by wp_step].
  eapply wp_mono; [apply IH|]. intros r s2 ->. done.
Qed.

(** What [prepareSession] hands to [commitSession]. *)
Record prepared (m : AuthMode) (label : jsstr) (upstream : option Z) a st
    (r : AuthBootstrapResult) : Prop := {
  prep_generation : generation st = generation_counter a + 1;
  prep_lifetime : lifetime_ok o st;
  prep_mode : mode st = m;
  prep_label : normalizeLabel label = Some (identityLabel st);
  prep_upstream : upstreamExpiresAt st = upstream;
  prep_cookie : ∃ c, cookieValue r = Some c ∧ TOKEN_PATTERN c = true ∧ digest st = hash c;
}.

Lemma wp_prepare m label upstream s :
  wp (prepareSession h hash o m label upstream) (λ r s',
    match r with
    | Ok (st, res) => comp s' = next_generation (comp s) ∧
        prepared m label upstream (comp s) st res
    | Throw _ => comp s' = comp s ∨ comp s' = next_generation (comp s)
    end) s.
Proof.
  unfold prepareSession. wp_step.
  apply (wp_clock h o); [intros n s1 _ K1|intros e s1 K1; by left].
  wp_step. eapply wp_mono; [apply wp_fresh_cookie|]. intros [ck|e] s2 [K2 Hck]; [|left; congruence].
  wp_step. eapply wp_mono; [apply wp_fresh_id|]. intros [i|e] s3 K3; [|left; congruence].
  wp_step. wp_step; [|left; congruence]. destruct a as [c d]. subst ck.
  destruct (Hck c d eq_refl) as [Hpat ->].
  wp_step. wp_step; [|left; congruence]. wp_step. apply (wp_quiet h o Csrf_create); [done|].
  intros [issued|e] s4 K4; [|left; congruence].
  assert (comp s4 = comp s) as Hsame by congruence.
  unfold nextGeneration. do 2 wp_step. apply wp_set_own. wp_step. apply wp_own. wp_step.
  wp_step; [right; simpl; by rewrite Hsame|]. wp_step. wp_step.
  wp_step; [|right; simpl; by rewrite Hsame]. wp_step.
  eapply wp_mono; [apply wp_iso_expiry|]. intros [u|e] s5 ->; [|right; simpl; by rewrite Hsame].
  wp_step. simpl. rewrite Hsame. split; [done|].
  split; simpl; try done; [|by exists c]. unfold lifetime_ok. simpl. split; [done|]. lia.
Qed.

(** [a2] is the registry [a] right after the new session was added at [n]. *)
Record established (n : Z) a a2 st : Prop := {
  est_ok : auth_ok o a2;
  est_steps : rtc (astep o) a a2;
  est_cookie : jm_get (digest st) (byDigest a2) = Some (generation st);
  est_new : live a2 (generation st) ∧ get_session a2 (generation st) = st ∧
    ¬ live a (generation st);
  est_old : ∀ g, live a2 g → g = generation st ∨ live a g;
  est_revoked : ∀ g, live a g → ¬ live a2 g → revoked_by o localeCompare n a g;
  est_expired : ∀ g, live a g → expiredReasonAt (get_session a g) n ≠ None → ¬ live a2 g;
}.

Lemma wp_remove_each {B} (rs : list (Z * B)) s :
  wp (E:=error) (each rs (λ r, set_own (remove_session r.1)))
    (λ r s', r = Ok tt ∧ comp s' = remove_all rs.*1 (comp s) ∧ world s' = world s ∧
             log s' = log s) s.
Proof.
  revert s. induction rs as [|r rs IH]; intros s; simpl; [by wp_step|].
  wp_step. apply wp_set_own. eapply wp_mono; [apply IH|]. by intros r' s' (-> & ? & ? & ?).
Qed.

Lemma add_established n a st :
  auth_ok o a → generation st = generation_counter a + 1 → lifetime_ok o st →
  jm_get (id st) (byId a) = None → jm_get (digest st) (byDigest a) = None →
  established n a (add_session st (remove_all (revocations localeCompare o n a).*1
    (next_generation a))) st.
Proof.
  intros Hok Hg Hl Hi Hd.
  destruct (revocations_facts o localeCompare n a Hok max_pos) as (R1 & R2 & R3 & R4 & R5).
  set (gs := (revocations localeCompare o n a).*1) in *.
  destruct (remove_all_facts o localeCompare gs a Hok R1 R2) as (A1 & A2 & A3 & A4 & A5 & A6).
  rewrite remove_all_next. set (a1 := remove_all gs a) in *.
  assert (fresh o st a1) as Hf by (split_and!; [lia|by apply A4|by apply A5|lia|done]).
  pose proof (add_ok o st a1 Hf (ssteps_ok o _ _ A1 Hok)) as Hok2.
  assert (∀ g, live (add_session st (next_generation a1)) g ↔ g = generation st ∨ live a1 g)
    as Hlive.
  { intros g. unfold live. simpl. split.
    - intros [i Hig]. rewrite jm_get_set in Hig. case_decide; [left; congruence|right; by exists i].
    - intros [->|[i Hig]]; [exists (id st); by rewrite jm_get_set_eq|].
      exists i. rewrite jm_get_set_ne; [done|]. intros ->. rewrite A4 in Hig by done. done. }
  assert (¬ live a (generation st)) as Hnew.
  { intros Hlv. destruct (live_session o a _ Hok Hlv) as (_ & _ & _ & _ & Hle & _). lia. }
  split; [done|..].
  - etrans; [apply ssteps_asteps, A1|]. by apply rtc_once, As_add.
  - simpl. by rewrite jm_get_set_eq.
  - split_and!; [apply Hlive; by left| |done]. unfold get_session. simpl.
    by rewrite lookup_total_insert_eq.
  - intros g [?|Hlg]%Hlive; [by left|right]. by apply A2 in Hlg as [? _].
  - intros g Hlg Hn. apply R4. destruct (decide (g ∈ gs)) as [|Hgs]; [done|].
    exfalso. apply Hn, Hlive. right. by apply A2.
  - intros g Hlg He [->|Hlg2]%Hlive; [by apply Hnew|].
    apply A2 in Hlg2 as [_ Hgs]. by apply Hgs, R5.
Qed.

(** [beforeCommit] leaves the registry alone. *)
Definition harmless (m : M (sys auth W ev) error unit) : Prop :=
  ∀ s, wp m (λ _ s', comp s' = comp s) s.

Lemma wp_commit st res before s a :
  comp s = next_generation a → auth_ok o a → generation st = generation_counter a + 1 →
  lifetime_ok o st → harmless before →
  wp (commitSession h localeCompare o (st, res) before) (λ r s',
    match r with
    | Ok res' => res' = res ∧ ∃ n a2, established n a a2 st ∧ rtc (sstep o) a2 (comp s')
    | Throw _ => comp s' = comp s
    end) s.
Proof.
  intros Hs Hok Hg Hl Hbefore. unfold commitSession. wp_step. apply wp_own. wp_step.
  wp_step; [done|]. rewrite Hs in *. breflect.
  unfold jm_has in *. simpl in *.
  assert (jm_get (digest st) (byDigest a) = None) as Hd by (destruct (jm_get (digest st) _); done).
  assert (jm_get (id st) (byId a) = None) as Hi by (destruct (jm_get (id st) (byId a)); done).
  wp_step. apply (wp_clock h o); [intros n s1 _ K1|intros e s1 K1; congruence].
  wp_step. apply wp_own. wp_step. eapply wp_mono; [apply Hbefore|].
  intros [[]|e] s2 K2; [|congruence].
  assert (comp s1 = next_generation a) as Hs1 by congruence.
  wp_step. eapply wp_mono; [apply wp_remove_each|]. intros r s3 (-> & K3 & _).
  wp_step. apply wp_set_own. wp_step.
  eapply wp_mono; [apply (wp_each (syn o))|].
  - intros x s4. wp_step. apply wp_own. apply (wp_emit h o).
  - intros r s5 [-> K5]. wp_step. split; [done|]. unfold syn in K5. simpl in K5.
    eexists n, _. split; [|exact K5]. rewrite K3, K2, Hs1.
    assert (revocations localeCompare o n (next_generation a) = revocations localeCompare o n a)
      as -> by done.
    by apply add_established.
Qed.

Lemma wp_establish m label upstream before s :
  auth_ok o (comp s) → harmless before →
  wp (safeEstablish h hash localeCompare o m label upstream before) (λ r s',
    match r with
    | Ok res => ∃ n a2 st, prepared m label upstream (comp s) st res ∧
        established n (comp s) a2 st ∧ rtc (sstep o) a2 (comp s')
    | Throw e => e = AuthServiceError ∧
        (comp s' = comp s ∨ comp s' = next_generation (comp s))
    end) s.
Proof.
  intros Hok Hb. unfold safeEstablish. wp_step. wp_step.
  eapply wp_mono; [apply wp_prepare|]. intros [[st res]|e] s1 Hp; [|by wp_step].
  destruct Hp as [K1 Hp]. pose proof Hp as [P1 P2 _ _ _ _].
  eapply wp_mono; [by eapply wp_commit|].
  intros [res'|e] s2 K2; [|wp_step; split; [done|right; congruence]].
  destruct K2 as (-> & n & a2 & K3 & K4). by exists n, a2, st.
Qed.
End establish.
