(* ===== verification/AuthSafety.v ===== *)
(** Theorems about [AuthService], continued: what each queued establishment
    and each password change did, and the properties of every run of the
    service. *)
From S2P Require Import Prelude JsMap SafeString Csrf AuthService AuthFacts.
Open Scope Z_scope.

Section password.
Context `{Platform} {W : Type} (h : @handler auth W ev error resp)
  (o : AuthServiceOptions) `{!AuthEnv o h}.
Implicit Types (s : sys auth W ev) (a : auth) (g : Z) (st : Stored).

(** * Password changes *)

Definition verified_password (u p : jsstr) s : Prop :=
  (∃ x, h (Credentials_verify u p) (comp s) (world s) = (Ok (inl true), x)) ∨
  ∃ n w x, h (Credentials_verify u p) (comp s) (world s) = (Ok (inr n), (comp s, w)) ∧
           h (Await_verification n) (comp s) w = (Ok true, x).

Lemma wp_verify_now u p s :
  wp (verify_now h u p) (λ r s', asyn o s s' ∧ (r = Ok true → verified_password u p s)) s.
Proof.
  unfold verify_now. wp_step. apply (wp_call resp h (Credentials_verify u p)). intros r c w Hh.
  pose proof (env_allowed _ _ _ _ _ _ Hh) as Hc. simpl in Hc. subst c.
  destruct r as [[b|n]|e]; [wp_step|..].
  - split; [by apply syn_asyn, syn_same|]. intros [= ->]. left. by eexists.
  - apply (wp_call resp h (Await_verification n)). intros r c w' Hh'.
    pose proof (env_allowed _ _ _ _ _ _ Hh') as Hc. simpl in Hc. split; [exact Hc|].
    intros ->. right. by eexists n, w, _.
  - split; [by apply syn_asyn, syn_same|done].
Qed.

Lemma wp_revoke_all gs reason s :
  auth_ok o (comp s) → (∀ g, g ∈ gs → tidy (comp s) g) →
  wp (each gs (λ g, revoke h g reason)) (λ r s', r = Ok tt ∧ syn o s s' ∧
    ∀ g, g ∈ gs → ¬ live (comp s') g) s.
Proof.
  revert s. induction gs as [|g gs IH]; intros s Hok Ht; simpl.
  { wp_step. split_and!; [done|done|set_solver]. }
  wp_step. eapply wp_mono; [apply (wp_revoke h o g reason); [done|apply Ht; by left]|].
  intros r s1 (-> & K1 & K2). pose proof (syn_ok o _ _ K1 Hok) as Hok1.
  eapply wp_mono; [apply IH; [done|]|].
  - intros g' Hg'. eapply ssteps_tidy; [exact K1|done|]. apply Ht. by right.
  - intros r s2 (-> & K3 & K4). split_and!; [done|by etrans|].
    intros g' [->|Hg']%elem_of_cons; [|by apply K4].
    intros Hl. apply K2. by eapply ssteps_live.
Qed.

Lemma wp_revoke_everyone s :
  auth_ok o (comp s) →
  wp (let! gs := own (λ a, (byId a).*2) in
      do! each gs (λ g, revoke h g R_password_changed) in ret true)
    (λ r s', r = Ok true ∧ syn o s s' ∧ byId (comp s') = []) s.
Proof.
  intros Hok. wp_step. apply wp_own. wp_step. eapply wp_mono; [apply wp_revoke_all; [done|]|].
  { intros g' Hg'. eapply live_tidy; [done|]. by eapply listed_live. }
  intros r s5 (-> & K5 & K6). wp_step. split_and!; [done|done|].
  destruct (byId (comp s5)) as [|[i g'] m] eqn:Hb; [done|exfalso].
  assert (live (comp s5) g') as Hl by (exists i; rewrite Hb; simpl; by rewrite decide_True).
  eapply ssteps_live in Hl as Hl4; [|exact K5|done].
  apply (K6 g'); [by eapply live_listed|done].
Qed.

(** At [s] the session [g] is registered under [session] and unexpired. *)
Definition in_force session g s : Prop :=
  jm_get session (byId (comp s)) = Some g ∧
  ∃ n, clock_reads h s n ∧ expiredReasonAt (get_session (comp s) g) n = None.

(** A successful change of the password. *)
Definition password_changed session current replacement s s' : Prop :=
  ∃ g sv s1 s2 r x,
    in_force session g s ∧ mode (get_session (comp s) g) = mode_local ∧
    comp sv = comp s ∧ verified_password (identityLabel (get_session (comp s) g)) current sv ∧
    asyn o sv s1 ∧ in_force session g s1 ∧ comp s2 = comp s1 ∧
    h (Credentials_replacePassword replacement) (comp s2) (world s2) = (Ok r, x) ∧
    r ≠ not_committed ∧ byId (comp s') = [].

Lemma wp_runPasswordChange session current replacement s :
  auth_ok o (comp s) →
  wp (runPasswordChange h session current replacement) (λ r s', asyn o s s' ∧
    (r = Ok true → password_changed session current replacement s s')) s.
Proof.
  intros Hok. unfold runPasswordChange. wp_step.
  apply wp_find; [intros g Hg|intros _; by wp_step]. wp_step. apply wp_own.
  wp_step; [by wp_step|]. breflect. wp_step.
  apply (wp_expire h o g); [done|by eapply live_tidy, found_live|..];
    [intros n reason s1 _ _ K1 _; wp_step; split; [by apply syn_asyn|done]| |
     intros e s1 K1; split; [by apply syn_asyn, syn_same|done]].
  intros n s1 Hn He K1. do 2 wp_step. eapply wp_mono; [apply wp_verify_now|].
  assert (asyn o s s1) as A1 by by apply syn_asyn, syn_same.
  intros [valid|e] s2 [K2 Hv]; [|wp_step; split; [by etrans|done]].
  assert (asyn o s s2) as A2 by by etrans.
  pose proof (asyn_ok o _ _ A2 Hok) as Hok2.
  wp_step; [by wp_step|]. apply negb_false_iff in H1 as ->. wp_step. apply wp_own.
  wp_step; [by wp_step|]. breflect. wp_step.
  apply (wp_expire h o g); [done|by eapply live_tidy, found_live|..];
    [intros n2 reason s3 _ _ K3 _; wp_step; split; [etrans; [exact A2|by apply syn_asyn]|done]| |
     intros e s3 K3; split; [etrans; [exact A2|by apply syn_asyn, syn_same]|done]].
  intros n2 s3 Hn2 He2 K3. do 2 wp_step.
  apply (wp_call resp h (Credentials_replacePassword replacement)). intros r c w Hh.
  pose proof (env_allowed _ _ _ _ _ _ Hh
    : asyn o s3 (Sys c w (log s3 ++ [(Credentials_replacePassword replacement, is_ok r)]))) as Hc.
  set (s4 := Sys c w _) in *.
  assert (asyn o s s4) as A4.
  { etrans; [exact A2|]. etrans; [|exact Hc]. by apply syn_asyn, syn_same. }
  pose proof (asyn_ok o _ _ A4 Hok) as Hok4.
  destruct r as [rep|e]; [|wp_step; by split].
  assert (rep = not_committed ∨ rep ≠ not_committed) as [->|Hrep]
    by (simpl in rep; destruct rep; auto); [wp_step; by split|].
  eapply wp_mono with (P := λ r s', r = Ok true ∧ syn o s4 s' ∧ byId (comp s') = []).
  { destruct rep; [done|..]; by apply wp_revoke_everyone. }
  intros r s5 (-> & K5 & K6). split; [etrans; [exact A4|by apply syn_asyn]|]. intros _.
  exists g, s1, s2, s3, rep, (c, w). split_and!; try done;
    [split; [done|by exists n]|by apply Hv|split; [done|by exists n2]].
Qed.

Lemma wp_changePassword session current replacement s :
  auth_ok o (comp s) →
  wp (changePassword h session current replacement) (λ r s', asyn o s s' ∧
    (r = Ok true → passwordChangeActive (comp s) = false ∧ passwordChangeActive (comp s') = false ∧
       ∃ s0 s1, heap (comp s0) = heap (comp s) ∧ byId (comp s0) = byId (comp s) ∧
         password_changed session current replacement s0 s1 ∧ byId (comp s') = byId (comp s1))) s.
Proof.
  intros Hok. unfold changePassword. wp_step. apply wp_own. wp_step; [by wp_step|].
  wp_step. apply wp_set_own. wp_step.
  set (s0 := Sys _ _ _). assert (syn o s s0) as K0 by by apply syn_fields.
  eapply wp_mono; [apply wp_runPasswordChange; by eapply syn_ok|].
  intros r s1 [K1 K2]. apply wp_set_own. split.
  - etrans; [by apply syn_asyn|]. etrans; [exact K1|]. apply syn_asyn. by apply syn_fields.
  - intros Hr. split_and!; [done|done|]. exists s0, s1. split_and!; try done. by apply K2.
Qed.
End password.

Section async.
Context `{Platform} {W : Type} (h : @handler auth W ev error resp)
  (o : AuthServiceOptions) `{!AuthEnv o h} (max_pos : 1 <= maxSessions o).
Context (hash : jsstr → jsstr) (localeCompare : jsstr → jsstr → Z)
  `{!Comparator localeCompare}.
Implicit Types (s : sys auth W ev) (a : auth) (g : Z) (st : Stored).

(** * Jobs *)

(** The verification of a login came out positive. *)
Definition verified (v : verification) s : Prop :=
  match v with
  | Known outcome => outcome = Verification_ok true
  | Promised p => ∃ x, h (Await_verification p) (comp s) (world s) = (Ok true, x)
  end.

(** What entitles a job, run at [s], to a session. *)
Definition evidence (j : job) s (m : AuthMode) (label : jsstr) (upstream : option Z) : Prop :=
  match j with
  | Bootstrap_job Upstream_none =>
      o_mode o = mode_none ∧ m = mode_none ∧ label = js "anonymous" ∧ upstream = None
  | Bootstrap_job (Upstream i) =>
      (m = cloudflare_access ∨ m = trusted_header) ∧ o_mode o = m ∧ identity_mode i = m ∧
      ∃ v, validateIdentity i = Some v ∧ valid_label v = label ∧ valid_expiry v = upstream ∧
        (m = cloudflare_access → upstream ≠ None) ∧
        ∀ e, upstream = Some e → ∃ n, clock_reads h s n ∧ n < e
  | Login_job v l _ => m = mode_local ∧ label = l ∧ upstream = None ∧ verified v s
  | Setup_job p _ =>
      m = mode_local ∧ label = localUsername o ∧ upstream = None ∧
      ∃ b x, h (Credentials_enroll p) (comp s) (world s) = (Ok (enrolled b), x)
  end.

(** Without an awaited promise nothing happens before the job's own steps. *)
Definition awaits (j : job) : bool :=
  match j with
  | Bootstrap_job _ | Login_job (Known _) _ _ => false
  | _ => true
  end.

(** How the job [j], started at [s], may end. *)
Definition job_outcome (j : job) s (r : res error AuthBootstrapResult) s' : Prop :=
  ∃ a1, rtc (astep o) (comp s) a1 ∧ (awaits j = false → a1 = comp s) ∧
  match r with
  | Ok res =>
      match cookieValue res with
      | Some _ => ∃ m label upstream n a2 st,
          evidence j s m label upstream ∧ prepared o hash m label upstream a1 st res ∧
          established o localeCompare n a1 a2 st ∧ rtc (sstep o) a2 (comp s')
      | None => comp s' = a1
      end
  | Throw _ => comp s' = a1 ∨ comp s' = next_generation a1
  end.

(** The end of a job: the session is made at [s1], after what was awaited. *)
Lemma wp_job_establish j s s1 m label upstream before :
  auth_ok o (comp s) → asyn o s s1 → (awaits j = false → comp s1 = comp s) →
  evidence j s m label upstream → harmless before →
  wp (safeEstablish h hash localeCompare o m label upstream before)
    (λ r s', job_outcome j s r s') s1.
Proof.
  intros Hok K1 Hwait Hev Hb.
  eapply wp_mono; [apply (wp_establish h o max_pos hash localeCompare m label upstream before s1);
    [by eapply asyn_ok|done]|].
  intros [res|e] s2 K2; exists (comp s1); (split; [done|split; [done|]]); [|tauto].
  destruct K2 as (n & a2 & st & Hp & He & Hs).
  destruct (prep_cookie _ _ _ _ _ _ _ _ Hp) as (c & -> & _).
  by exists m, label, upstream, n, a2, st.
Qed.

Lemma job_throw j s s' a1 e : rtc (astep o) (comp s) a1 → (awaits j = false → a1 = comp s) →
  comp s' = a1 → job_outcome j s (Throw e) s'.
Proof. intros K1 K2 K3. exists a1. split_and!; auto. Qed.
Lemma job_plain j s s' a1 res : rtc (astep o) (comp s) a1 → (awaits j = false → a1 = comp s) →
  comp s' = a1 → cookieValue res = None → job_outcome j s (Ok res) s'.
Proof. intros K1 K2 K3 K4. exists a1. rewrite K4. auto. Qed.

Lemma wp_localBootstrap b s :
  wp (localBootstrap h o b) (λ _ s', comp s' = comp s) s.
Proof.
  unfold localBootstrap. wp_step. destruct b as [b|].
  - wp_step. by wp_step.
  - wp_step. wp_step. apply (wp_quiet h o Credentials_isInitialized); [done|].
    intros [b|e] s1 K1; wp_step; [by wp_step|done].
Qed.

Lemma harmless_reset ad : harmless (ask h (Limiter_resetAddress ad)).
Proof. intros s. by apply (wp_quiet h o (Limiter_resetAddress ad)). Qed.

(** The branch of [run_bootstrap] for an upstream identity. *)
Lemma upstream_outcome m i s :
  auth_ok o (comp s) → o_mode o = m → m = cloudflare_access ∨ m = trusted_header →
  wp (if negb (bool_decide (identity_mode i = m)) then throw AuthServiceError
      else
        let! u := of_option (validateIdentity i) AuthServiceError in
        do! throw_if (bool_decide (m = cloudflare_access) &&
                      bool_decide (valid_expiry u = None)) AuthServiceError in
        do! (match valid_expiry u with
             | None => ret tt
             | Some e => let! n := now h in throw_if (e <=? n) AuthServiceError
             end) in
        safeEstablish h hash localeCompare o m (valid_label u) (valid_expiry u) (ret tt))
    (λ r s', job_outcome (Bootstrap_job (Upstream i)) s r s') s.
Proof.
  intros Hok Hm Hmode. wp_step; [wp_step; by eapply job_throw|]. breflect. wp_step.
  apply wp_of_option; [intros u Hu|intros _; by eapply job_throw]. wp_step.
  apply wp_throw_if; [intros _; by eapply job_throw|intros Hcf].
  assert (∀ s1, comp s1 = comp s →
    (∀ e, valid_expiry u = Some e → ∃ n, clock_reads h s n ∧ n < e) →
    wp (safeEstablish h hash localeCompare o m (valid_label u) (valid_expiry u) (ret tt))
      (λ r s', job_outcome (Bootstrap_job (Upstream i)) s r s') s1) as Hest.
  { intros s1 K1 Hclock. apply wp_job_establish; [done|by apply syn_asyn, syn_same|done| |by intros ?].
    split_and!; [done..|]. exists u. split_and!; try done.
    intros Hx Hnone. apply andb_false_iff in Hcf as [Hy|Hy]; breflect; done. }
  wp_step. destruct (valid_expiry u) as [e|] eqn:He.
  - wp_step. apply (wp_clock h o); [|intros err s1 K1; by eapply job_throw].
    intros n s1 Hn K1. apply wp_throw_if; [intros _; by eapply job_throw|intros Hle].
    apply Hest; [done|]. intros e' [= <-]. exists n. split; [done|]. breflect. lia.
  - wp_step. by apply Hest.
Qed.

Lemma run_bootstrap_outcome input s :
  auth_ok o (comp s) →
  wp (run_bootstrap h hash localeCompare o input)
    (λ r s', job_outcome (Bootstrap_job input) s r s') s.
Proof.
  intros Hok. unfold run_bootstrap.
  assert (wp (throw AuthServiceError)
    (λ r s', job_outcome (Bootstrap_job input) s r s') s) as Hthrow.
  { wp_step. by eapply job_throw. }
  destruct (o_mode o) eqn:Hm, input as [|i]; try done.
  - wp_step. eapply wp_mono; [apply wp_localBootstrap|].
    intros [b|e] s1 K1; [wp_step; by eapply job_plain|by eapply job_throw].
  - apply upstream_outcome; [done|done|by left].
  - apply upstream_outcome; [done|done|by right].
  - apply wp_job_establish; [done|done|done| |by intros ?]. done.
Qed.

Lemma login_outcome v label ad s :
  auth_ok o (comp s) →
  wp (completeLoginSlot h hash localeCompare o v label ad)
    (λ r s', job_outcome (Login_job v label ad) s r s') s.
Proof.
  intros Hok. unfold completeLoginSlot. wp_step.
  assert (∀ outcome s1, asyn o s s1 → (awaits (Login_job v label ad) = false → comp s1 = comp s) →
    (outcome = Verification_ok true → verified v s) →
    wp (match outcome with
        | Verification_ok true =>
            safeEstablish h hash localeCompare o mode_local label None
              (ask h (Limiter_resetAddress ad))
        | Verification_ok false => ret (localLoginFailure authentication_failed)
        | Verification_failed => throw AuthServiceError
        end) (λ r s', job_outcome (Login_job v label ad) s r s') s1) as Hrest.
  { intros [[|]|] s1 K1 K2 Hv; [|wp_step; by eapply job_plain|wp_step; by eapply job_throw].
    apply wp_job_establish; [done..| |apply harmless_reset]. split_and!; try done. by apply Hv. }
  unfold await_verification. destruct v as [outcome|p].
  - wp_step. apply Hrest; [apply syn_asyn; by apply syn_same|done|by intros ->].
  - wp_step. wp_step. apply (wp_call resp h (Await_verification p)). intros r c w Hh.
    pose proof (env_allowed _ _ _ _ _ _ Hh
      : asyn o s (Sys c w (log s ++ [(Await_verification p, is_ok r)]))) as Hc.
    destruct r as [b|e]; wp_step.
    + refine (Hrest (Verification_ok b) _ Hc _ _); [done|].
      intros Hb. simpl in b. injection Hb as ->. by eexists.
    + refine (Hrest Verification_failed _ Hc _ _); done.
Qed.

Lemma setup_outcome p ad s :
  auth_ok o (comp s) →
  wp (completeSetup h hash localeCompare o p ad)
    (λ r s', job_outcome (Setup_job p ad) s r s') s.
Proof.
  intros Hok. unfold completeSetup. do 2 wp_step.
  apply (wp_call resp h (Credentials_enroll p)). intros r c w Hh.
  pose proof (env_allowed _ _ _ _ _ _ Hh) as Hc. simpl in Hc.
  set (s1 := Sys c w _). assert (asyn o s s1) as K1 by exact Hc.
  destruct r as [[b| |]|e]; [| | |wp_step; by eapply job_throw].
  - wp_step. assert (∀ s2, comp s2 = comp s1 →
      wp (safeEstablish h hash localeCompare o mode_local (localUsername o) None
            (ask h (Limiter_resetAddress ad)))
        (λ r s', job_outcome (Setup_job p ad) s r s') s2) as Hrest.
    { intros s2 K2. apply wp_job_establish; [done|unfold asyn; by rewrite K2|done|
        |apply harmless_reset]. split_and!; try done. by eexists _, _. }
    destruct b; [|wp_step; by apply Hrest].
    unfold attempt_call. wp_step. apply (wp_quiet h o Durability_uncertain); [done|].
    intros [[]|e] s2 K2; [by apply Hrest|wp_step; by apply Hrest].
  - wp_step. eapply wp_mono; [apply wp_localBootstrap|].
    intros [b|e] s2 K2; [wp_step; by eapply job_plain|by eapply job_throw].
  - wp_step. by eapply job_throw.
Qed.

Lemma run_job_outcome j s :
  auth_ok o (comp s) →
  wp (run_job h hash localeCompare o j) (λ r s', job_outcome j s r s') s.
Proof.
  destruct j; simpl; [apply run_bootstrap_outcome|apply login_outcome|apply setup_outcome].
Qed.

Lemma job_outcome_asyn j s r s' : job_outcome j s r s' → asyn o s s'.
Proof.
  intros (a1 & K1 & _ & K2). unfold asyn. etrans; [exact K1|]. destruct r as [res|e].
  - destruct (cookieValue res); [|by rewrite K2].
    destruct K2 as (m & label & u & n & a2 & st & _ & _ & He & Hs).
    etrans; [apply (est_steps _ _ _ _ _ _ He)|by apply ssteps_asteps].
  - destruct K2 as [->| ->]; [done|]. apply rtc_once, As_generation.
Qed.

(** * Runs of the service *)

Lemma wp_reserve s : wp (reserveEstablishment o) (λ _ s', syn o s s') s.
Proof.
  unfold reserveEstablishment. wp_step. apply wp_own. wp_step; [by wp_step|].
  wp_step. apply wp_set_own. wp_step. by apply syn_fields.
Qed.
Lemma wp_counters n m s : wp (E:=error) (set_own (λ a, set_pending (n a) (m a) a))
  (λ _ s', syn o s s') s.
Proof. apply wp_set_own. by apply syn_fields. Qed.

Lemma wp_syn_bind {A B} (m : M (sys auth W ev) error A) (k : A → M (sys auth W ev) error B) s :
  wp m (λ _ s', syn o s s') s → (∀ (x : A) s', wp (k x) (λ _ s'', syn o s' s'') s') →
  wp (bind m k) (λ _ s', syn o s s') s.
Proof.
  intros Hm Hk. wp_step. eapply wp_mono; [exact Hm|]. intros [x|e] s1 K1; [|done].
  eapply wp_mono; [apply Hk|]. intros r s2 K2. by etrans.
Qed.

Lemma wp_syn_quiet e s : quiet e = true → wp (attempt (ask h e)) (λ _ s', syn o s s') s.
Proof.
  intros Hq. wp_step. apply (wp_quiet h o e); [done|]. intros r s1 K1. by apply syn_same.
Qed.

Lemma wp_release s : wp release (λ _ s', syn o s s') s.
Proof. apply wp_counters. Qed.

Lemma wp_admit ad refused k s :
  (∀ s, wp k (λ _ s', syn o s s') s) → wp (admit_attempt h ad refused k) (λ _ s', syn o s s') s.
Proof.
  intros Hk. unfold admit_attempt. apply wp_syn_bind; [by apply wp_syn_quiet|].
  intros [[|]|e] s1; (apply wp_syn_bind; [by apply wp_counters|]); intros _ s2;
    [apply Hk|by wp_step..].
Qed.

Lemma wp_local_syn b s : wp (localBootstrap h o b) (λ _ s', syn o s s') s.
Proof. eapply wp_mono; [apply wp_localBootstrap|]. intros r s1 K1. by apply syn_same. Qed.

(** Reads, returns and reservations on the way to a job. *)
Ltac head_step :=
  lazymatch goal with
  | |- wp (bind (own _) _) _ _ => wp_step; apply wp_own
  | |- wp (bind (reserveEstablishment _) _) _ _ =>
      apply wp_syn_bind; [apply wp_reserve|intros ? ?]
  | |- wp (bind release _) _ _ => apply wp_syn_bind; [apply wp_release|intros ? ?]
  | |- wp (bind (localBootstrap _ _ _) _) _ _ =>
      apply wp_syn_bind; [apply wp_local_syn|intros ? ?]
  | |- wp (bind (attempt (ask _ _)) _) _ _ =>
      apply wp_syn_bind; [by apply wp_syn_quiet|intros ? ?]
  | |- wp (admit_attempt _ _ _ _) _ _ => apply wp_admit; intros ?
  | |- wp (ret _) _ _ => by wp_step
  | |- wp (if _ then _ else _) _ _ => apply wp_if; intros _
  | |- wp (match ?x with _ => _ end) _ _ => destruct x
  end.

Lemma wp_bootstrap input s : wp (bootstrap o input) (λ _ s', syn o s s') s.
Proof. unfold bootstrap. repeat head_step. Qed.

Lemma wp_begin_verification u p s : wp (begin_verification h u p) (λ _ s', syn o s s') s.
Proof. unfold begin_verification. repeat head_step. Qed.

Lemma wp_login input s : wp (login h o input) (λ _ s', syn o s s') s.
Proof.
  unfold login. repeat head_step.
  apply wp_syn_bind; [apply wp_begin_verification|]. intros v s2. by wp_step.
Qed.

Lemma wp_setup input s : wp (setup h o input) (λ _ s', syn o s s') s.
Proof. unfold setup. repeat head_step. Qed.

Lemma wp_finish j s : wp (finish_job j) (λ _ s', syn o s s') s.
Proof.
  destruct j; simpl; [apply wp_release|..]; (apply wp_syn_bind; [apply wp_counters|]);
    intros _ s1; apply wp_release.
Qed.

Inductive op :=
| Authenticate_cookie (raw : option jsstr)
| Authenticate_authority (raw : option jsstr)
| Is_active_authority (session : jsstr) (g : Z)
| Touch_authority (session : jsstr) (g : Z) (act : activity)
| Resume (session : jsstr)
| Touch (session : jsstr) (act : activity)
| Refresh (session : jsstr) (u : UpstreamIdentity)
| Verify_csrf (session : jsstr) (supplied : option jsstr)
| Logout (session : jsstr)
| Sweep_expired
| On_revoked
| Unsubscribe (observer : nat)
| Bootstrap (input : UpstreamAuthentication)
| Login (input : LocalLoginAttempt)
| Setup (input : LocalSetupAttempt)
| Run_job (j : job)
| Finish_job (j : job)
| Change_password (session current replacement : jsstr).

Definition run_op (c : op) (s : sys auth W ev) : sys auth W ev :=
  match c with
  | Authenticate_cookie raw => (authenticateCookie h hash raw s).2
  | Authenticate_authority raw => (authenticateAuthority h hash raw s).2
  | Is_active_authority session g => (isActiveAuthority h session g s).2
  | Touch_authority session g act => (touchAuthority h o session g act s).2
  | Resume session => (resume h session s).2
  | Touch session act => (touch h o session act s).2
  | Refresh session u => (refresh h session u s).2
  | Verify_csrf session v => (verifyCsrf h session v s).2
  | Logout session => (logout h session s).2
  | Sweep_expired => (sweepExpired h localeCompare s).2
  | On_revoked => (onRevoked o s).2
  | Unsubscribe n => (unsubscribe n s).2
  | Bootstrap input => (bootstrap o input s).2
  | Login input => (login h o input s).2
  | Setup input => (setup h o input s).2
  | Run_job j => (run_job h hash localeCompare o j s).2
  | Finish_job j => (finish_job j s).2
  | Change_password session current replacement =>
      (changePassword h session current replacement s).2
  end.
Definition run_ops (cs : list op) (s : sys auth W ev) : sys auth W ev :=
  foldl (λ s c, run_op c s) s cs.

Lemma sync_run {A} (m : M (sys auth W ev) error A) s :
  sync o m → auth_ok o (comp s) → asyn o s (m s).2.
Proof. intros Hm Hok. apply syn_asyn. exact (Hm s Hok). Qed.
Lemma wp_syn_run {A} (m : M (sys auth W ev) error A) s :
  wp m (λ _ s', syn o s s') s → asyn o s (m s).2.
Proof. intros Hm. apply syn_asyn. exact Hm. Qed.

Lemma run_op_asyn c s : auth_ok o (comp s) → asyn o s (run_op c s).
Proof.
  intros Hok. destruct c; simpl.
  - by apply sync_run; [apply sync_authenticate|].
  - by apply sync_run; [apply sync_authenticate|].
  - by apply sync_run; [apply sync_isActive|].
  - by apply sync_run; [apply sync_touchAuthority|].
  - by apply sync_run; [apply sync_resume|].
  - by apply sync_run; [apply sync_touch|].
  - by apply sync_run; [apply sync_refresh|].
  - by apply sync_run; [apply sync_verifyCsrf|].
  - by apply sync_run; [apply sync_logout|].
  - by apply sync_run; [apply sync_sweep|].
  - apply sync_run; [apply sync_onRevoked|done].
  - apply syn_asyn. by apply syn_fields.
  - apply (wp_syn_run (bootstrap o input)), wp_bootstrap.
  - apply wp_syn_run, wp_login.
  - apply wp_syn_run, wp_setup.
  - eapply job_outcome_asyn. exact (run_job_outcome j s Hok).
  - apply (wp_syn_run (finish_job j)), wp_finish.
  - apply (wp_changePassword h o session current replacement s Hok).
Qed.

Lemma run_ops_asyn cs s : auth_ok o (comp s) → asyn o s (run_ops cs s).
Proof.
  revert s. induction cs as [|c cs IH]; intros s Hok; simpl; [done|].
  pose proof (run_op_asyn c s Hok) as K1. etrans; [exact K1|]. apply IH. by eapply asyn_ok.
Qed.
End async.

Section authenticate.
Context `{Platform} {W : Type} (h : @handler auth W ev error resp)
  (o : AuthServiceOptions) `{!AuthEnv o h} (hash : jsstr → jsstr).

(** [st] is registered, answers to the cookie and has not expired. *)
Definition accepted (s : sys auth W ev) (raw : option jsstr) (st : Stored) : Prop :=
  ∃ c n, raw = Some c ∧ TOKEN_PATTERN c = true ∧
    jm_get (hash c) (byDigest (comp s)) = Some (generation st) ∧
    jm_get (id st) (byId (comp s)) = Some (generation st) ∧
    heap (comp s) !! generation st = Some st ∧ clock_reads h s n ∧
    n < lastSeen st + idleDurationMs o ∧ n < createdAt st + absoluteDurationMs o ∧
    ∀ u, upstreamExpiresAt st = Some u → n < u.

Lemma wp_authenticate {A} (as_view : Stored → A) raw s :
  auth_ok o (comp s) →
  wp (authenticate_with h hash as_view raw) (λ r s',
    (∀ v, r = Ok (Some v) → ∃ st, accepted s raw st ∧ v = as_view st ∧ comp s' = comp s) ∧
    (∀ c g n reason, raw = Some c → TOKEN_PATTERN c = true →
       jm_get (hash c) (byDigest (comp s)) = Some g → clock_reads h s n →
       expiredReasonAt (get_session (comp s) g) n = Some reason →
       r = Ok None ∧ ¬ live (comp s') g)) s.
Proof.
  intros Hok. unfold authenticate_with. destruct raw as [c|]; [|by wp_step].
  wp_step. { wp_step. split; [done|]. intros c' g n reason [= <-] Hp. by rewrite Hp in H0. }
  apply negb_false_iff in H0 as Hpat. wp_step. apply wp_own.
  destruct (jm_get (hash c) (byDigest (comp s))) as [g|] eqn:Hg.
  2: { wp_step. split; [done|]. intros c' g n reason [= <-] _ Hg'. congruence. }
  destruct (ok_by_digest _ _ Hok _ _ Hg) as (st & Hst & Hd & Hi).
  assert (get_session (comp s) g = st) as Hget by by apply lookup_total_correct.
  destruct (ok_by_id _ _ Hok _ _ Hi) as (st' & Hst' & _ & Hgen & _ & Hlife & _).
  assert (st' = st) as -> by congruence.
  assert (∀ n n', clock_reads h s n → clock_reads h s n' → n = n') as Hdet.
  { intros n n' [w Hn] [w' Hn']. congruence. }
  wp_step. apply (wp_expire_strong h o g); [done|by eapply live_tidy, found_live|..].
  - intros n reason s1 Hn He K1 K2. wp_step. split; [done|].
    intros c' g' n' reason' [= <-] _ Hg' _ _. rewrite Hg in Hg'. injection Hg' as <-. done.
  - intros n s1 Hn He K1. apply wp_own. split.
    + intros v [= <-]. exists st. rewrite K1, Hget. split_and!; [|done|done].
      rewrite Hget in He. destruct (expiredReason_None o st n Hlife He) as (B1 & B2 & B3).
      exists c, n. rewrite Hgen, <-Hd in *. by split_and!.
    + intros c' g' n' reason' [= <-] _ Hg' Hn' He'.
      rewrite (Hdet _ _ Hn' Hn) in He'. congruence.
  - intros e s1 Hno K1. split; [done|]. intros c' g' n' reason' _ _ _ Hn' _. by destruct (Hno n').
Qed.
End authenticate.

(** C26: Starting from an empty service, any sequence of its methods, with the
    queued jobs run at any point and with other methods run from observers and
    while promises are awaited, leaves the registry consistent: the maps by id
    and by digest are inverse to each other, at most [maxSessions] sessions
    are registered, every generation is unique, and every deadline is the one
    its session's creation and last use determine. *)
Theorem auth_registry_consistent `{Platform} {W : Type}
    (h : @handler auth W ev error resp) (o : AuthServiceOptions) `{!AuthEnv o h}
    (hash : jsstr → jsstr) (localeCompare : jsstr → jsstr → Z)
    `{!Comparator localeCompare} cs w :
  valid_options o = true → auth_ok o (comp (run_ops h o hash localeCompare cs (Sys new_auth w []))).
Proof.
  intros Hv. assert (1 <= maxSessions o) as Hmax.
  { unfold valid_options in Hv. breflect. done. }
  pose proof (new_auth_ok o Hmax) as Hok.
  set (s := Sys new_auth w []). change (auth_ok o (comp s)) in Hok.
  exact (asyn_ok o _ _ (run_ops_asyn h o Hmax hash localeCompare cs s Hok) Hok).
Qed.

(** C22: [authenticateCookie] answers with a session only if the cookie is well
    formed, its digest belongs to a registered session, and the clock, read
    by this call, is before the idle deadline (last use plus the idle
    duration), the absolute deadline (creation plus the absolute duration)
    and the upstream expiry; nothing changes then.  A session found expired is
    gone afterwards and the answer is [undefined]. *)
Theorem authenticate_sound `{Platform} {W : Type}
    (h : @handler auth W ev error resp) (o : AuthServiceOptions) `{!AuthEnv o h}
    (hash : jsstr → jsstr) raw (s : sys auth W ev) :
  auth_ok o (comp s) →
  let '(r, s') := authenticateCookie h hash raw s in
  (∀ v, r = Ok (Some v) →
     ∃ st, accepted h o hash s raw st ∧ v = view st ∧ comp s' = comp s) ∧
  (∀ c g n reason, raw = Some c → TOKEN_PATTERN c = true →
     jm_get (hash c) (byDigest (comp s)) = Some g → clock_reads h s n →
     expiredReasonAt (get_session (comp s) g) n = Some reason →
     r = Ok None ∧ ¬ live (comp s') g).
Proof.
  intros Hok. pose proof (wp_authenticate h o hash view raw s Hok) as Hw.
  unfold wp in Hw. unfold authenticateCookie. by destruct (authenticate_with _ _ _ _ _).
Qed.

Lemma gone_refuses `{Platform} {W : Type} (h : @handler auth W ev error resp)
    (o : AuthServiceOptions) `{!AuthEnv o h} (hash : jsstr → jsstr) (s : sys auth W ev) g :
  auth_ok o (comp s) → gone g (comp s) →
  (∀ session, (isActiveAuthority h session g s).1 ≠ Ok true) ∧
  (∀ session act, (touchAuthority h o session g act s).1 ≠ Ok true) ∧
  (∀ raw v, (authenticateAuthority h hash raw s).1 = Ok (Some v) → authority_generation v ≠ g).
Proof.
  intros Hok [_ Hgone]. assert (∀ session g', jm_get session (byId (comp s)) = Some g' →
    generation (get_session (comp s) g') ≠ g) as Hne.
  { intros session g' Hg' Heq. pose proof (found_live _ _ _ Hg') as Hl.
    destruct (live_session o _ _ Hok Hl) as (_ & _ & _ & Hgen & _). apply Hgone. congruence. }
  split_and!.
  - intros session.
    apply (wp_run (isActiveAuthority h session g) (λ r _, r ≠ Ok true)).
    unfold isActiveAuthority. wp_step. apply wp_find; [intros g' Hg'|intros _; by wp_step].
    wp_step. apply wp_own. apply Hne in Hg'. apply Z.eqb_neq in Hg'. rewrite Hg'. by wp_step.
  - intros session act.
    apply (wp_run (touchAuthority h o session g act) (λ r _, r ≠ Ok true)).
    unfold touchAuthority. destruct act; [by wp_step|].
    wp_step. apply wp_find; [intros g' Hg'|intros _; by wp_step].
    wp_step. apply wp_own. apply Hne in Hg'. apply Z.eqb_neq in Hg'. rewrite Hg'. by wp_step.
  - intros raw v Hv.
    pose proof (proj1 (wp_authenticate h o hash authorityView raw s Hok) v Hv) as
      (st & (c & n & _ & _ & _ & Hi & Hst & _) & -> & _). simpl.
    intros Heq. apply (Hne _ _ Hi).
    unfold get_session. by rewrite (lookup_total_correct _ _ _ Hst).
Qed.

(** C18: A session that was revoked never comes back.  Once [logout] (or any
    other revocation) has removed a generation, no sequence of methods, with
    whatever else runs meanwhile, makes [isActiveAuthority],
    [touchAuthority] or [authenticateAuthority] accept it again. *)
Theorem revoked_never_returns `{Platform} {W : Type}
    (h : @handler auth W ev error resp) (o : AuthServiceOptions) `{!AuthEnv o h}
    (hash : jsstr → jsstr) (localeCompare : jsstr → jsstr → Z)
    `{!Comparator localeCompare} session g cs (s : sys auth W ev) :
  1 <= maxSessions o → auth_ok o (comp s) → jm_get session (byId (comp s)) = Some g →
  gone g (comp (logout h session s).2) ∧
  ∀ s1, auth_ok o (comp s1) → gone g (comp s1) →
    let s2 := run_ops h o hash localeCompare cs s1 in
    (∀ i, (isActiveAuthority h i g s2).1 ≠ Ok true) ∧
    (∀ i act, (touchAuthority h o i g act s2).1 ≠ Ok true) ∧
    (∀ raw v, (authenticateAuthority h hash raw s2).1 = Ok (Some v) →
       authority_generation v ≠ g).
Proof.
  intros Hmax Hok Hg. split.
  - apply (wp_run (logout h session) (λ _ s', gone g (comp s'))). unfold logout. wp_step.
    apply wp_find; [intros g' Hg'|congruence]. assert (g' = g) as -> by congruence.
    pose proof (found_live _ _ _ Hg) as Hl.
    destruct (live_session o _ _ Hok Hl) as (_ & _ & _ & _ & Hle & _).
    eapply wp_mono; [apply (wp_revoke h o g R_logout); [done|by eapply live_tidy]|].
    intros r s1 (_ & K1 & K2). split; [|done]. clear -K1 Hok Hle AuthEnv0.
    unfold syn in K1. induction K1 as [|a a1 a' K _ IH]; [done|].
    apply IH; [by eapply sstep_ok|]. by rewrite (sstep_counter o a a1 Hok K).
  - intros s1 Hok1 Hgone.
    pose proof (run_ops_asyn h o Hmax hash localeCompare cs s1 Hok1) as Hrun.
    apply (gone_refuses h o hash); [by eapply asyn_ok|]. by eapply asteps_gone.
Qed.


(** C27: [changePassword] answers [true] only if no other change was running,
    the session was a local one, registered and unexpired both before the
    verification and when the password was replaced, the current password was
    verified for that session's label, and the replacement was committed; and
    then no session at all is left. *)
Theorem password_change_revokes_all `{Platform} {W : Type}
    (h : @handler auth W ev error resp) (o : AuthServiceOptions) `{!AuthEnv o h}
    session current replacement (s : sys auth W ev) :
  auth_ok o (comp s) →
  let '(r, s') := changePassword h session current replacement s in
  r = Ok true →
  passwordChangeActive (comp s) = false ∧ passwordChangeActive (comp s') = false ∧
  byId (comp s') = [] ∧
  ∃ s0 s1, heap (comp s0) = heap (comp s) ∧ byId (comp s0) = byId (comp s) ∧
    password_changed h o session current replacement s0 s1.
Proof.
  intros Hok. pose proof (wp_changePassword h o session current replacement s Hok) as Hw.
  unfold wp in Hw. destruct (changePassword h session current replacement s) as [r s'].
  destruct Hw as [_ Hw]. intros Hr. destruct (Hw Hr) as (K1 & K2 & s0 & s1 & K3 & K4 & K5 & K6).
  split_and!; [done|done| |by exists s0, s1].
  cbn [snd] in K6. rewrite K6. destruct K5 as (? & ? & ? & ? & ? & ? & K5). apply K5.
Qed.

(** * Samples *)

Definition sample_platform : Platform := {| nfc := λ s, s; iso_datetime := λ _, true |}.
#[local] Existing Instance sample_platform.

(** The seed of the random source, the clock and the CSRF records. *)
Record sample_world := { seed : Z; time : Z }.
Definition sample_handler : @handler auth sample_world ev error resp := λ e a w,
  match e as e return res error (resp e) * (auth * sample_world) with
  | Clock => (Ok (Some (time w)), (a, w))
  | Random n => (Ok (replicate n (seed w mod 256)), (a, {| seed := seed w + 1; time := time w |}))
  | Csrf_create => (Ok {| csrf_token := js "t"; csrf_record := 0 |}, (a, w))
  | Csrf_verify _ _ => (Ok true, (a, w))
  | Credentials_isInitialized => (Ok true, (a, w))
  | Credentials_verify _ _ => (Ok (inl true), (a, w))
  | Await_verification _ => (Ok true, (a, w))
  | Credentials_enroll _ => (Ok enroll_already_initialized, (a, w))
  | Credentials_replacePassword _ => (Ok committed, (a, w))
  | Limiter_consume _ => (Ok true, (a, w))
  | Limiter_resetAddress _ => (Ok tt, (a, w))
  | Durability_uncertain => (Ok tt, (a, w))
  | Observe _ _ _ => (Ok tt, (a, w))
  end.
Definition sample_options : AuthServiceOptions :=
  {| o_mode := mode_local; o_localUsername := js "admin"; idleDurationMs := 1000;
     absoluteDurationMs := 5000; maxSessions := 2; maxObservers := None |}.

#[local] Instance sample_env : AuthEnv sample_options sample_handler.
Proof.
  split.
  - intros e c w r c' w' Hh. destruct e; simpl in Hh; injection Hh as _ <- _;
      first [reflexivity|apply rtc_refl].
  - intros n c w bytes x Hh. simpl in Hh. injection Hh as <- _.
    apply Forall_replicate. apply Z.mod_pos_bound. lia.
Qed.
Definition no_order (x y : jsstr) : Z := 0.
#[local] Instance no_order_comparator : Comparator no_order.
Proof. split; unfold no_order; lia. Qed.

Definition sample_job : job := Login_job (Known (Verification_ok true)) (js "admin") (js "::1").
Definition sample_before : sys auth sample_world ev := Sys new_auth {| seed := 1; time := 0 |} [].
Definition sample_after : sys auth sample_world ev :=
  run_ops sample_handler sample_options (λ s, s) no_order [Run_job sample_job] sample_before.
Definition sample_cookie : jsstr := base64url (replicate 32 1).
Definition sample_session : jsstr := base64url (replicate 16 2).

Lemma auth_registry_consistent_witness :
  valid_options sample_options = true ∧ length (byId (comp sample_after)) = 1%nat ∧
  auth_ok sample_options (comp sample_after).
Proof.
  split; [done|]. split; [by vm_compute|].
  exact (auth_registry_consistent sample_handler sample_options (λ s, s) no_order
    [Run_job sample_job] {| seed := 1; time := 0 |} eq_refl).
Defined.

Lemma sample_after_ok : auth_ok sample_options (comp sample_after).
Proof.
  assert (1 <= maxSessions sample_options) as Hmax by (simpl; lia).
  pose proof (new_auth_ok sample_options Hmax : auth_ok sample_options (comp sample_before)) as Hok.
  exact (asyn_ok sample_options _ _ (run_ops_asyn sample_handler sample_options Hmax _ _ _ _ Hok)
    Hok).
Qed.

Lemma authenticate_sound_witness :
  is_ok (authenticateCookie sample_handler (λ s, s) (Some sample_cookie) sample_after).1 = true ∧
  ∀ v, (authenticateCookie sample_handler (λ s, s) (Some sample_cookie) sample_after).1
         = Ok (Some v) →
    ∃ st, accepted sample_handler sample_options (λ s, s) sample_after (Some sample_cookie) st ∧
      v = view st.
Proof.
  split; [by vm_compute|].
  pose proof (authenticate_sound sample_handler sample_options (λ s, s) (Some sample_cookie)
    sample_after sample_after_ok) as Ht.
  revert Ht. generalize (authenticateCookie sample_handler (λ s, s) (Some sample_cookie)
    sample_after). intros [r s'] [Hv _] v Hr. destruct (Hv v Hr) as (st & ? & ? & _). by exists st.
Defined.

Lemma revoked_never_returns_witness :
  jm_get sample_session (byId (comp sample_after)) = Some 1 ∧
  gone 1 (comp (logout sample_handler sample_session sample_after).2).
Proof.
  assert (jm_get sample_session (byId (comp sample_after)) = Some 1) as Hg by by vm_compute.
  split; [exact Hg|].
  refine (proj1 (revoked_never_returns sample_handler sample_options (λ s, s) no_order
    sample_session 1 [] sample_after _ sample_after_ok Hg)). simpl. lia.
Defined.


Lemma password_change_revokes_all_witness :
  (changePassword sample_handler sample_session (js "old") (js "new") sample_after).1 = Ok true ∧
  byId (comp (changePassword sample_handler sample_session (js "old") (js "new")
                sample_after).2) = [].
Proof.
  assert ((changePassword sample_handler sample_session (js "old") (js "new") sample_after).1
    = Ok true) as Hr by by vm_compute.
  split; [exact Hr|]. revert Hr.
  pose proof (password_change_revokes_all sample_handler sample_options sample_session
    (js "old") (js "new") sample_after sample_after_ok) as Ht. revert Ht.
  generalize (changePassword sample_handler sample_session (js "old") (js "new") sample_after).
  intros [r s'] Ht Hr. destruct (Ht Hr) as (_ & _ & Hnil & _). exact Hnil.
Defined.
