(* ===== verification/AuthQueue.v ===== *)
(** The establishment queue of [apps/server/src/auth-service.ts]:
    [#enqueueEstablishment], [#reserveEstablishment] and the counters.

    A ticket is a queued job.  [establishmentTail.then(operation, operation)]
    starts a job when the one before it has settled, whatever its outcome;
    the [finally] callback that releases the job's counters is a later event.
    The synchronous part of [bootstrap], [login] and [setup], and the
    callback, are the programs of [AuthService]; whatever else changes the
    registry meanwhile keeps the counters. *)
From S2P Require Import Prelude JsMap SafeString Csrf AuthService AuthFacts AuthSafety.
Open Scope Z_scope.

Inductive phase := Waiting | Running | Settled | Finished.
#[export] Instance phase_eq_dec : EqDecision phase.
Proof. solve_decision. Defined.

Record ticket := Ticket { ticket_job : job; ticket_phase : phase }.

(** The calls that may queue a job. *)
Inductive request :=
| Call_bootstrap (input : UpstreamAuthentication)
| Call_login (input : LocalLoginAttempt)
| Call_setup (input : LocalSetupAttempt).

Definition is_done (p : phase) : bool :=
  match p with Settled | Finished => true | _ => false end.

(** [this.#establishmentTail] of the ticket [i] has settled. *)
Definition tail_settled (i : nat) (ts : list ticket) : bool :=
  match i with
  | O => true   (* [Promise.resolve()] *)
  | S k => match ts !! k with Some t => is_done (ticket_phase t) | None => false end
  end.

Definition set_phase (i : nat) (p : phase) (ts : list ticket) : list ticket :=
  alter (λ t, Ticket (ticket_job t) p) i ts.

Section queue.
Context `{Platform} {W : Type} (h : @handler auth W ev error resp) (o : AuthServiceOptions).

Definition request_call (c : request) : M (sys auth W ev) error answer :=
  match c with
  | Call_bootstrap input => bootstrap o input
  | Call_login input => login h o input
  | Call_setup input => setup h o input
  end.

(** [#enqueueEstablishment] *)
Definition enqueue (r : res error answer) (ts : list ticket) : list ticket :=
  match r with
  | Ok (Enqueued j) => ts ++ [Ticket j Waiting]
  | _ => ts
  end.

Definition counters (a : auth) : Z * Z := (pendingEstablishments a, pendingLocalAttempts a).

Inductive qstep : sys auth W ev * list ticket → sys auth W ev * list ticket → Prop :=
| Q_call c s ts r s' : request_call c s = (r, s') → qstep (s, ts) (s', enqueue r ts)
| Q_start i t s ts : ts !! i = Some t → ticket_phase t = Waiting → tail_settled i ts = true →
    qstep (s, ts) (s, set_phase i Running ts)
| Q_settle i t s s' ts : ts !! i = Some t → ticket_phase t = Running →
    counters (comp s') = counters (comp s) → qstep (s, ts) (s', set_phase i Settled ts)
| Q_finish i t s ts : ts !! i = Some t → ticket_phase t = Settled →
    qstep (s, ts) ((finish_job (ticket_job t) s).2, set_phase i Finished ts)
| Q_other s s' ts : counters (comp s') = counters (comp s) → qstep (s, ts) (s', ts).
End queue.

(** * Counting *)

Definition local_attempt (j : job) : Z :=
  match j with Bootstrap_job _ => 0 | _ => 1 end.
Definition unfinished (t : ticket) : Z :=
  match ticket_phase t with Finished => 0 | _ => 1 end.
Definition unfinished_local (t : ticket) : Z := unfinished t * local_attempt (ticket_job t).
Definition total (f : ticket → Z) (ts : list ticket) : Z := foldr (λ t n, f t + n) 0 ts.

Lemma total_app f t1 t2 : total f (t1 ++ t2) = total f t1 + total f t2.
Proof. induction t1 as [|t t1 IH]; simpl; [done|]. lia. Qed.

Lemma total_set_phase f i p ts t :
  ts !! i = Some t →
  total f (set_phase i p ts) = total f ts - f t + f (Ticket (ticket_job t) p).
Proof.
  revert i. induction ts as [|u ts IH]; intros [|i]; simpl; intros Hi; try done.
  - simplify_eq. lia.
  - specialize (IH i Hi). unfold set_phase in *. lia.
Qed.

Lemma total_zero f ts : (∀ t, t ∈ ts → f t = 0) → total f ts = 0.
Proof.
  induction ts as [|t ts IH]; intros Hz; [done|]. simpl.
  rewrite (Hz t) by by left. rewrite IH; [done|]. intros u Hu. apply Hz. by right.
Qed.

(** Waiting tickets come last; before a started one all have settled. *)
Definition in_order (ts : list ticket) : Prop :=
  ∀ i j t u, (i < j)%nat → ts !! i = Some t → ts !! j = Some u →
    ticket_phase u ≠ Waiting → is_done (ticket_phase t) = true.

Section counting.
Context `{Platform} {W : Type} (h : @handler auth W ev error resp)
  (o : AuthServiceOptions) `{!AuthEnv o h}.
Implicit Types (s : sys auth W ev) (a : auth).

(** What a call does to the counters. *)
Definition counted_call (r : res error answer) s s' : Prop :=
  match r with
  | Ok (Enqueued j) =>
      pendingEstablishments (comp s) < maxPendingEstablishments o ∧
      pendingEstablishments (comp s') = pendingEstablishments (comp s) + 1 ∧
      pendingLocalAttempts (comp s') = pendingLocalAttempts (comp s) + local_attempt j ∧
      (local_attempt j = 1 → pendingLocalAttempts (comp s) < maxSessions o)
  | _ => counters (comp s') = counters (comp s)
  end.

Lemma wp_reserve_counts (Q : res error bool → sys auth W ev → Prop) s :
  (pendingEstablishments (comp s) < maxPendingEstablishments o →
   ∀ s', counters (comp s') = (pendingEstablishments (comp s) + 1, pendingLocalAttempts (comp s)) →
   Q (Ok true) s') →
  Q (Ok false) s →
  wp (reserveEstablishment o) Q s.
Proof.
  intros Hyes Hno. unfold reserveEstablishment. wp_step. apply wp_own. wp_step; [by wp_step|].
  wp_step. apply wp_set_own. wp_step. breflect. by apply Hyes.
Qed.

Lemma wp_localBootstrap_counts b (Q : res error AuthBootstrap → sys auth W ev → Prop) s :
  (∀ v, Q (Ok v) s) → wp (localBootstrap h o (Some b)) Q s.
Proof. intros HQ. unfold localBootstrap. wp_step. by do 2 wp_step. Qed.

(** A reservation that is given back. *)
Lemma wp_release_counts (x : answer) s s0 :
  counters (comp s) =
    (pendingEstablishments (comp s0) + 1, pendingLocalAttempts (comp s0)) →
  match x with Enqueued _ => False | _ => True end →
  wp (do! release in ret x) (λ r s', counted_call r s0 s') s.
Proof.
  unfold counters. intros [= E1 E2] Hx. wp_step. apply wp_set_own. wp_step.
  destruct x; try done; unfold counted_call, counters; simpl; rewrite E1, E2; f_equal; lia.
Qed.

(** After a reservation: the limiter, then the job or the release. *)
Lemma wp_admit_counts ad refused (k : M (sys auth W ev) error answer) j s s0 :
  counters (comp s) =
    (pendingEstablishments (comp s0) + 1, pendingLocalAttempts (comp s0)) →
  pendingEstablishments (comp s0) < maxPendingEstablishments o →
  pendingLocalAttempts (comp s0) < maxSessions o → local_attempt j = 1 →
  (∀ s, wp k (λ r s', comp s' = comp s ∧ ∃ j', r = Ok (Enqueued j') ∧ local_attempt j' = 1) s) →
  wp (admit_attempt h ad refused k) (λ r s', counted_call r s0 s') s.
Proof.
  unfold counters. intros [= Hc1 Hc2] Hlt Hlt' Hj Hk. unfold admit_attempt. do 2 wp_step.
  apply (wp_quiet h o (Limiter_consume ad)); [done|]. intros r s1 K1.
  destruct r as [[|]|e]; [|
    apply wp_release_counts; [unfold counters; by rewrite K1, Hc1, Hc2|done]..].
  wp_step. apply wp_set_own. eapply wp_mono; [apply Hk|].
  intros r s2 (K2 & j' & -> & Hj'). unfold counted_call. simpl. rewrite K2. simpl.
  rewrite K1, Hc1, Hc2, Hj'. done.
Qed.

Lemma login_counts input s :
  wp (login h o input) (λ r s', counted_call r s s') s.
Proof.
  unfold login. wp_step; [by wp_step|]. do 2 wp_step.
  apply (wp_quiet h o Credentials_isInitialized); [done|]. intros r s1 K1.
  destruct r as [[|]|e]; [| |wp_step; unfold counted_call, counters; by rewrite K1].
  2: { wp_step. apply wp_localBootstrap_counts. intros v. wp_step.
       unfold counted_call, counters; by rewrite K1. }
  wp_step. apply wp_own. wp_step; [wp_step; unfold counted_call, counters; by rewrite K1|].
  breflect. wp_step.
  apply wp_reserve_counts; [|simpl; wp_step; unfold counted_call, counters; by rewrite K1].
  rewrite K1 in *. intros Hlt s2 K2. wp_step; [done|].
  destruct (normalizeLabel (username input)) as [label|].
  - apply (wp_admit_counts _ _ _ (Login_job (Known Verification_failed) label [])); try done.
    intros s3. wp_step. unfold begin_verification. do 2 wp_step.
    apply (wp_quiet h o (Credentials_verify (username input) (password input))); [done|].
    intros r s4 K4. do 2 wp_step. split; [done|]. by eexists.
  - by apply wp_release_counts.
Qed.

Lemma setup_counts input s :
  wp (setup h o input) (λ r s', counted_call r s s') s.
Proof.
  unfold setup. wp_step; [by wp_step|]. do 2 wp_step.
  apply (wp_quiet h o Credentials_isInitialized); [done|]. intros r s1 K1.
  destruct r as [[|]|e]; [| |wp_step; unfold counted_call, counters; by rewrite K1].
  { wp_step. apply wp_localBootstrap_counts. intros v. wp_step.
    unfold counted_call, counters; by rewrite K1. }
  wp_step. apply wp_localBootstrap_counts. intros v.
  wp_step. apply wp_own. wp_step; [wp_step; unfold counted_call, counters; by rewrite K1|].
  breflect. wp_step.
  apply wp_reserve_counts; [|simpl; wp_step; unfold counted_call, counters; by rewrite K1].
  rewrite K1 in *. intros Hlt s2 K2. wp_step; [done|].
  apply (wp_admit_counts _ _ _ (Setup_job [] [])); try done.
  intros s3. wp_step. split; [done|]. by eexists.
Qed.

Lemma request_counts c s :
  wp (request_call h o c) (λ r s', counted_call r s s') s.
Proof.
  destruct c as [input|input|input]; simpl.
  - unfold bootstrap. wp_step. apply wp_reserve_counts; [|by wp_step].
    unfold counters. intros Hlt s1 [= E1 E2]. wp_step. unfold counted_call. simpl.
    rewrite E1, E2. split_and!; try done; lia.
  - by apply login_counts.
  - by apply setup_counts.
Qed.
End counting.

Section queue_facts.
Context `{Platform} {W : Type} (h : @handler auth W ev error resp)
  (o : AuthServiceOptions) `{!AuthEnv o h}.
Implicit Types (s : sys auth W ev) (ts : list ticket).

Record queue_ok s ts : Prop := {
  ok_pending : pendingEstablishments (comp s) = total unfinished ts;
  ok_pending_max : pendingEstablishments (comp s) <= maxPendingEstablishments o;
  ok_local : pendingLocalAttempts (comp s) = total unfinished_local ts;
  ok_local_max : pendingLocalAttempts (comp s) <= maxSessions o;
  ok_order : in_order ts;
}.

Lemma set_phase_lookup i p ts j t :
  set_phase i p ts !! j = Some t →
  ∃ u, ts !! j = Some u ∧ ticket_job t = ticket_job u ∧
    ticket_phase t = (if decide (j = i) then p else ticket_phase u).
Proof.
  unfold set_phase. destruct (decide (j = i)) as [->|Hne].
  - rewrite list_lookup_alter_eq. intros (u & -> & Hu)%fmap_Some. exists u. by rewrite Hu.
  - rewrite list_lookup_alter_ne by done. intros ->. by exists t.
Qed.

Lemma is_done_not_waiting p : is_done p = true → p ≠ Waiting.
Proof. by destruct p. Qed.

(** Starting a ticket behind a settled tail keeps the order. *)
Lemma start_order i ts v :
  ts !! i = Some v → ticket_phase v = Waiting →
  in_order ts → tail_settled i ts = true → in_order (set_phase i Running ts).
Proof.
  intros Hv Hvw Hord Htail j k t u Hlt Ht Hu Hw.
  destruct (set_phase_lookup _ _ _ _ _ Ht) as (t0 & Ht0 & _ & ->).
  destruct (set_phase_lookup _ _ _ _ _ Hu) as (u0 & Hu0 & _ & Hp). rewrite Hp in Hw.
  destruct (decide (j = i)) as [->|Hji].
  - exfalso. rewrite decide_False in Hw by lia.
    pose proof (Hord i k t0 u0 Hlt Ht0 Hu0 Hw) as Hd. assert (t0 = v) as -> by congruence.
    by rewrite Hvw in Hd.
  - destruct (decide (k = i)) as [->|Hki]; [|by eapply (Hord j k)].
    destruct i as [|i']; [lia|]. simpl in Htail.
    destruct (ts !! i') as [z|] eqn:Hz; [|done].
    destruct (decide (j = i')) as [->|]; [congruence|].
    eapply (Hord j i' t0 z); [lia|done|done|]. by apply is_done_not_waiting.
Qed.

(** So does completing one that was started. *)
Lemma advance_order i p ts v :
  ts !! i = Some v → ticket_phase v ≠ Waiting → is_done p = true →
  in_order ts → in_order (set_phase i p ts).
Proof.
  intros Hv Hvw Hp Hord j k t u Hlt Ht Hu Hw.
  destruct (set_phase_lookup _ _ _ _ _ Ht) as (t0 & Ht0 & _ & ->).
  destruct (set_phase_lookup _ _ _ _ _ Hu) as (u0 & Hu0 & _ & Hq). rewrite Hq in Hw.
  destruct (decide (j = i)); [done|]. apply (Hord j k t0 u0); [done..|].
  destruct (decide (k = i)) as [->|]; [|done]. congruence.
Qed.

Lemma enqueue_order j ts : in_order ts → in_order (ts ++ [Ticket j Waiting]).
Proof.
  intros Hord i k t u Hlt Ht Hu Hw.
  apply lookup_app_Some in Hu as [Hu|[Hk Hu]].
  - apply lookup_lt_Some in Hu as Hk. rewrite lookup_app_l in Ht by lia.
    exact (Hord i k t u Hlt Ht Hu Hw).
  - apply list_lookup_singleton_Some in Hu as [_ <-]. done.
Qed.

Lemma qstep_ok s ts s' ts' :
  qstep h o (s, ts) (s', ts') → queue_ok s ts → queue_ok s' ts'.
Proof.
  intros Hs [E1 E2 E3 E4 E5]. unfold counters in *.
  inversion Hs as [c ? ? r ? Hc|i t ? ? Ht Hp Htail|i t ? ? ? Ht Hp Hc|i t ? ? Ht Hp|? ? ? Hc];
    subst.
  - pose proof (request_counts h o c s) as Hcount. unfold wp in Hcount. rewrite Hc in Hcount.
    unfold counted_call, counters in Hcount. simpl in Hcount.
    destruct r as [[| |j]|e]; simpl; try (injection Hcount as K1 K2; split; by rewrite ?K1, ?K2).
    destruct Hcount as (K1 & K2 & K3 & K4).
    split; rewrite ?K2, ?K3, ?total_app; try by apply enqueue_order.
    + simpl. unfold unfinished at 2. simpl. lia.
    + lia.
    + unfold unfinished_local at 2, unfinished. simpl. lia.
    + destruct j; simpl in *; [lia|specialize (K4 eq_refl); lia..].
  - split; rewrite ?(total_set_phase _ _ _ _ _ Ht); unfold unfinished_local, unfinished in *;
      simpl; rewrite ?Hp; try lia. by eapply start_order.
  - injection Hc as K1 K2.
    split; rewrite ?(total_set_phase _ _ _ _ _ Ht), ?K1, ?K2;
      unfold unfinished_local, unfinished in *; simpl; rewrite ?Hp; try lia.
    eapply advance_order; [done|congruence|done|done].
  - assert (pendingEstablishments (comp (finish_job (ticket_job t) s).2) =
              pendingEstablishments (comp s) - 1 ∧
            pendingLocalAttempts (comp (finish_job (ticket_job t) s).2) =
              pendingLocalAttempts (comp s) - local_attempt (ticket_job t)) as [K1 K2].
    { destruct (ticket_job t); simpl; split; lia. }
    assert (0 <= local_attempt (ticket_job t)) by (destruct (ticket_job t); simpl; lia).
    split; rewrite ?(total_set_phase _ _ _ _ _ Ht), ?K1, ?K2;
      unfold unfinished_local, unfinished in *; simpl; rewrite ?Hp; try lia.
    eapply advance_order; [done|congruence|done|done].
  - injection Hc as K1 K2. split; by rewrite ?K1, ?K2.
Qed.

Lemma qsteps_ok q q' : rtc (qstep h o) q q' → queue_ok q.1 q.2 → queue_ok q'.1 q'.2.
Proof.
  induction 1 as [|[s1 t1] [s2 t2] q3 Hs _ IH]; [done|]. intros Hok.
  apply IH. by eapply qstep_ok.
Qed.

(** The first ticket that is not finished can advance. *)
Lemma some_advance s ts t :
  t ∈ ts → ticket_phase t ≠ Finished →
  ∃ i u p s', ts !! i = Some u ∧ p ≠ ticket_phase u ∧ ticket_phase u ≠ Finished ∧
    qstep h o (s, ts) (s', set_phase i p ts).
Proof.
  intros Hin Hp.
  destruct (list_find (λ t, ticket_phase t ≠ Finished) ts) as [[i u]|] eqn:Hf.
  - apply list_find_Some in Hf as (Hu & Hup & Hbefore).
    destruct (ticket_phase u) eqn:Hphase; [..|done].
    + exists i, u, Running, s. rewrite Hphase. split_and!; try done.
      apply (Q_start h o i u); [done|done|]. destruct i as [|i]; [done|]. simpl.
      destruct (ts !! i) as [v|] eqn:Hv.
      * destruct (decide (ticket_phase v = Finished)) as [Hd|Hd]; [by rewrite Hd|].
        exfalso. eapply Hbefore; [exact Hv|lia|done].
      * apply lookup_ge_None in Hv. apply lookup_lt_Some in Hu. lia.
    + exists i, u, Settled, s. rewrite Hphase. split_and!; try done. by eapply Q_settle.
    + exists i, u, Finished, (finish_job (ticket_job u) s).2. rewrite Hphase.
      split_and!; try done. by eapply Q_finish.
  - apply list_find_None in Hf. rewrite Forall_forall in Hf. by destruct (Hf t Hin).
Qed.
End queue_facts.

(** C25: In every run of the service, [pendingEstablishments] is the number of
    queued jobs whose callback has not run and [pendingLocalAttempts] the
    number of those that are logins or setups; they never exceed
    [maxPendingEstablishments] and [maxSessions], and are zero when all is
    done.  Jobs run one at a time, in the order of the calls, and as long as
    one is unfinished the queue can advance. *)
Theorem establishment_queue_bounded `{Platform} {W : Type}
    (h : @handler auth W ev error resp) (o : AuthServiceOptions) `{!AuthEnv o h} w s ts :
  valid_options o = true → rtc (qstep h o) (Sys new_auth w [], []) (s, ts) →
  pendingEstablishments (comp s) = total unfinished ts ∧
  pendingLocalAttempts (comp s) = total unfinished_local ts ∧
  total unfinished ts <= maxPendingEstablishments o ∧
  total unfinished_local ts <= maxSessions o ∧
  (∀ i j t u, (i < j)%nat → ts !! i = Some t → ts !! j = Some u →
     ticket_phase u ≠ Waiting → ticket_phase t = Settled ∨ ticket_phase t = Finished) ∧
  ((∀ t, t ∈ ts → ticket_phase t = Finished) →
     pendingEstablishments (comp s) = 0 ∧ pendingLocalAttempts (comp s) = 0) ∧
  (∀ t, t ∈ ts → ticket_phase t ≠ Finished → ∃ i u p s',
     ts !! i = Some u ∧ p ≠ ticket_phase u ∧ ticket_phase u ≠ Finished ∧
     qstep h o (s, ts) (s', set_phase i p ts)).
Proof.
  intros Hv Hrun. assert (queue_ok o (Sys new_auth w []) []) as Hok0.
  { unfold valid_options in Hv. breflect.
    split; simpl; unfold maxPendingEstablishments, MAX_PENDING_ESTABLISHMENTS,
      MIN_PENDING_ESTABLISHMENTS; try lia. intros i j t u _ Ht. done. }
  destruct (qsteps_ok h o _ _ Hrun Hok0) as [E1 E2 E3 E4 E5]. simpl in *.
  split_and!; [done|done|lia|lia| | |by apply some_advance].
  - intros i j t u Hlt Ht Hu Hw. specialize (E5 i j t u Hlt Ht Hu Hw).
    destruct (ticket_phase t); auto; done.
  - intros Hall. rewrite E1, E3. split; apply total_zero; intros t Ht;
      unfold unfinished_local, unfinished; by rewrite (Hall t Ht).
Qed.

(** * Sample: one login is queued *)

#[local] Existing Instance sample_platform.
#[local] Existing Instance sample_env.

Definition sample_attempt : LocalLoginAttempt :=
  {| username := js "admin"; password := js "secret"; address := js "::1" |}.
Definition sample_called : res error answer * sys auth sample_world ev :=
  login sample_handler sample_options sample_attempt sample_before.
Definition sample_queue : list ticket := enqueue sample_called.1 [].

Lemma establishment_queue_bounded_witness :
  rtc (qstep sample_handler sample_options) (sample_before, []) (sample_called.2, sample_queue) ∧
  length sample_queue = 1%nat ∧
  pendingLocalAttempts (comp sample_called.2) = total unfinished_local sample_queue ∧
  total unfinished_local sample_queue <= maxSessions sample_options.
Proof.
  assert (rtc (qstep sample_handler sample_options) (sample_before, [])
            (sample_called.2, sample_queue)) as Hrun.
  { apply rtc_once, (Q_call _ _ (Call_login sample_attempt)).
    simpl. fold sample_called. apply surjective_pairing. }
  assert (valid_options sample_options = true) as Hv by by vm_compute.
  split; [exact Hrun|]. split; [by vm_compute|].
  destruct (establishment_queue_bounded sample_handler sample_options
    {| seed := 1; time := 0 |} sample_called.2 sample_queue Hv Hrun)
    as (_ & H1 & _ & H2 & _).
  split; [exact H1|exact H2].
Defined.
