(* ===== verification/Upstream.v ===== *)
(** [apps/server/src/trusted-header-auth.ts] and [cloudflare-access.ts]: the
    identity that a reverse proxy or Cloudflare Access vouches for.

    [ipaddr.js], [proxy-addr] and [jose] are outside: interfaces of what they
    answer, with the documented behaviour of [proxy-addr] as its laws.  All
    failures become one error, so the functions return options. *)
From S2P Require Import Prelude SafeString Json Double Settings Tabs AuthService Headers Origin.
Open Scope Z_scope.

Inductive UpstreamHeaderValue := HString (s : jsstr) | HList (l : list jsstr) | HUndefined.
Abbreviation UpstreamHeaderView := (list (jsstr * UpstreamHeaderValue)).

Definition MAX_HEADER_FIELDS : nat := 128.
Definition MAX_HEADER_NAME_BYTES : Z := 256.
Definition MAX_PRESERVED_HEADER_BYTES : Z := 64 * 1024.
Definition MAX_RAW_HEADER_ITEMS : nat := 256.
Definition MAX_DISTINCT_HEADER_VALUES : Z := 256.
Definition MAX_FORWARDED_FOR_BYTES : Z := 4096.
Definition MAX_FORWARDED_HOPS : nat := 16.
Definition MAX_ADDRESS_BYTES : Z := 128.
Definition MAX_IDENTITY_BYTES : Z := 128.
Definition MAX_TRUST_RANGES : nat := 64.

(** [if (b) throw new Error()] *)
Definition reject_if (b : bool) : option unit := if b then None else Some tt.

(** [/^[!#$%&'*+\-.^_`|~0-9A-Za-z]+$/] *)
Definition headerNamePattern : jsstr → bool :=
  all_chars (λ c, token_char c || bool_decide (c ∈ js "!#$%&'*+.^`|~")).
(** [/[\p{Cc}\p{Cf}\p{Cs}\p{Zl}\p{Zp}]/u] *)
Definition unsafeIdentityPattern (s : jsstr) : bool :=
  existsb (λ c, forbiddenCharacterPattern c || formatControlPattern c) (code_points s).
Definition normalizeIdentity `{Platform} (value : jsstr) : option jsstr :=
  let normalized := nfc value in
  if bool_decide (normalized = []) || (MAX_IDENTITY_BYTES <? utf8ByteLength normalized) ||
     unsafeIdentityPattern normalized
  then None else Some normalized.

(** * Trusted headers *)

Class ProxyLibraries := {
  ipaddr_isValid : jsstr → bool;
  (** whether [ipaddr.parse] and [ipaddr.parseCIDR] return *)
  ipaddr_parse : jsstr → bool;
  ipaddr_parseCIDR : jsstr → bool;
  (** [proxyaddr.compile]: whether it returns, and what the function answers *)
  proxyaddr_compile : list jsstr → option (jsstr → Z → bool);
  (** [proxyaddr.all] of a request with that header and remote address *)
  proxyaddr_all : option (jsstr → Z → bool) → jsstr → jsstr → list jsstr;
}.
(** The addresses up to the first that is not trusted; the last one needs no
    trust. *)
Fixpoint up_to_untrusted (trust : jsstr → Z → bool) (i : Z) (l : list jsstr) : list jsstr :=
  match l with
  | [] => []
  | a :: l' => match l' with [] => [a] | _ :: _ => if trust a i then a :: up_to_untrusted trust (i + 1) l' else [a] end
  end.
Class ProxyLaws `{ProxyLibraries} : Prop := {
  (** nearest first, for addresses without separators *)
  proxyaddr_all_complete : ∀ chain remote, Forall (λ a, a ≠ [] ∧ 44 ∉ a ∧ 32 ∉ a) chain →
    proxyaddr_all None (join (js ", ") chain) remote = remote :: reverse chain;
  ipaddr_no_space : ∀ a, ipaddr_isValid a = true → 32 ∉ a;
  proxyaddr_all_trusted : ∀ t h remote,
    proxyaddr_all (Some t) h remote = up_to_untrusted t 0 (proxyaddr_all None h remote);
}.

Record TrustedHeaderRequestView := {
  remoteAddress : option jsstr;
  headers : UpstreamHeaderView;
  headersDistinct : option (list (jsstr * list jsstr));
  view_rawHeaders : option (list jsstr);
}.
(** [trustProxy] is [false], a number or a list. *)
Inductive TrustProxy := TrustOff | TrustHops (n : Z) | TrustRanges (l : list jsstr).
Record TrustedHeaderAuthProviderOptions := {
  trustProxy : TrustProxy;
  option_identityHeader : jsstr;
  option_publicOrigin : jsstr;
}.
Record TrustedHeaderAuthProvider := {
  trust : jsstr → Z → bool;
  identityHeader : jsstr;
  publicOrigin : jsstr;
  publicProtocol : jsstr;
}.

Section trusted.
Context `{Platform, LowerCase, UrlParser, ProxyLibraries}.

Definition validateTrustRange (value : jsstr) : option unit :=
  _ ← reject_if (bool_decide (value = []) || bool_decide (37 ∈ value) || (MAX_ADDRESS_BYTES <? utf8ByteLength value));
  reject_if (negb (if bool_decide (47 ∈ value) then ipaddr_parseCIDR value else ipaddr_parse value)).
Definition validatePublicOrigin (value : jsstr) : option URL :=
  url ← parse_url value None;
  if negb (bool_decide (protocol url = js "http:") || bool_decide (protocol url = js "https:")) ||
     negb (bool_decide (value = url_origin url)) || negb (bool_decide (url_username url = [])) ||
     negb (bool_decide (url_password url = []))
  then None else Some url.
Definition construct (o : TrustedHeaderAuthProviderOptions) : option TrustedHeaderAuthProvider :=
  match trustProxy o with
  | TrustRanges ranges =>
      _ ← reject_if (bool_decide (ranges = []) || (MAX_TRUST_RANGES <? length ranges)%nat);
      _ ← mapM validateTrustRange ranges;
      t ← proxyaddr_compile ranges;
      _ ← reject_if ((MAX_HEADER_NAME_BYTES <? utf8ByteLength (option_identityHeader o)) ||
                     negb (headerNamePattern (option_identityHeader o)));
      url ← validatePublicOrigin (option_publicOrigin o);
      Some {| trust := t; identityHeader := to_lower (option_identityHeader o); publicOrigin := url_origin url;
              publicProtocol := removelast (protocol url) |}
  | _ => None
  end.

Definition validateHeaderName (name : jsstr) : option unit :=
  reject_if ((MAX_HEADER_NAME_BYTES <? utf8ByteLength name) || negb (headerNamePattern name)).
Definition headerNames (headers : UpstreamHeaderView) : option (list jsstr) :=
  _ ← reject_if (MAX_HEADER_FIELDS <? length headers)%nat;
  _ ← mapM validateHeaderName headers.*1;
  Some headers.*1.
(** [headers[name]] for one of its own keys *)
Fixpoint header_value (name : jsstr) (headers : UpstreamHeaderView) : UpstreamHeaderValue :=
  match headers with
  | [] => HUndefined
  | (n, v) :: headers => if decide (name = n) then v else header_value name headers
  end.
Definition matchingHeaderValue (headers : UpstreamHeaderView) (names : list jsstr) (wanted : jsstr)
    : option UpstreamHeaderValue :=
  match filter (λ name, to_lower name = wanted) names with
  | [] => Some HUndefined
  | [name] => Some (header_value name headers)
  | _ => None
  end.
Definition optionalStringHeader (headers : UpstreamHeaderView) (names : list jsstr) (wanted : jsstr)
    : option (option jsstr) :=
  value ← matchingHeaderValue headers names wanted;
  match value with HUndefined => Some None | HString s => Some (Some s) | HList _ => None end.

Definition validateAddress (value : jsstr) : option unit :=
  reject_if (bool_decide (value = []) || bool_decide (37 ∈ value) || (MAX_ADDRESS_BYTES <? utf8ByteLength value) ||
             negb (ipaddr_isValid value)).
Definition parseForwardedFor (value : jsstr) : option (list jsstr) :=
  _ ← reject_if (bool_decide (value = []) || (MAX_FORWARDED_FOR_BYTES <? utf8ByteLength value));
  let addresses := trim <$> split 44 value in
  _ ← reject_if (bool_decide (addresses = []) || (MAX_FORWARDED_HOPS <? length addresses)%nat ||
                 existsb (λ a, bool_decide (a = [])) addresses);
  _ ← mapM validateAddress addresses;
  Some addresses.
Definition validateProxyChain (remote : jsstr) (forwardedFor : option jsstr) (t : jsstr → Z → bool) : option unit :=
  chain ← match forwardedFor with None => Some [] | Some f => parseForwardedFor f end;
  let header := join (js ", ") chain in
  reject_if (negb (length (proxyaddr_all None header remote) =? length (proxyaddr_all (Some t) header remote))%nat).

Definition requiredForwardedProtocol (value : option jsstr) : option jsstr :=
  v ← value;
  _ ← reject_if (negb (bool_decide (v = trim v)) || bool_decide (44 ∈ v));
  let p := to_lower v in
  if bool_decide (p = js "http") || bool_decide (p = js "https") then Some p else None.
Definition requiredHost (value : option jsstr) : option jsstr :=
  v ← value;
  _ ← reject_if (bool_decide (v = []) || negb (bool_decide (v = trim v)) || (255 <? utf8ByteLength v) ||
                 existsb (λ c, bool_decide (c ∈ js ",@/?#\") || is_js_space c) v);
  Some v.
Definition validateExternalOrigin (p host expectedOrigin : jsstr) : option unit :=
  parsed ← parse_url (p ++ js "://" ++ host) None;
  reject_if (negb (bool_decide (url_username parsed = [])) || negb (bool_decide (url_password parsed = [])) ||
             negb (bool_decide (pathname parsed = js "/")) || negb (bool_decide (search parsed = [])) ||
             negb (bool_decide (hash parsed = [])) || negb (bool_decide (url_origin parsed = expectedOrigin))).

Definition oneHeaderValue (value : UpstreamHeaderValue) : option jsstr :=
  match value with HString s | HList [s] => Some s | _ => None end.
(** The counters of the loop over the values, and over the names. *)
Fixpoint distinct_bytes (values : list jsstr) (byteCount : Z) : option Z :=
  match values with
  | [] => Some byteCount
  | v :: values =>
      let byteCount := byteCount + utf8ByteLength v in
      if MAX_PRESERVED_HEADER_BYTES <? byteCount then None else distinct_bytes values byteCount
  end.
Fixpoint distinct_fields (fs : list (jsstr * list jsstr)) (valueCount byteCount : Z) : option unit :=
  match fs with
  | [] => Some tt
  | (name, values) :: fs =>
      _ ← validateHeaderName name;
      let valueCount := valueCount + Z.of_nat (length values) in
      if MAX_DISTINCT_HEADER_VALUES <? valueCount then None
      else byteCount ← distinct_bytes values byteCount; distinct_fields fs valueCount byteCount
  end.
Definition identityFromDistinct (distinct : list (jsstr * list jsstr)) (wanted : jsstr) : option jsstr :=
  _ ← reject_if (MAX_HEADER_FIELDS <? length distinct)%nat;
  _ ← distinct_fields distinct 0 0;
  match filter (λ p, to_lower p.1 = wanted) distinct with
  | [(_, [value])] => Some value
  | _ => None
  end.
Fixpoint raw_matches (fs : list (jsstr * option jsstr)) (wanted : jsstr) (byteCount : Z) (matches : list jsstr)
    : option (list jsstr) :=
  match fs with
  | [] => Some matches
  | (_, None) :: _ => None
  | (name, Some value) :: fs =>
      _ ← validateHeaderName name;
      let byteCount := byteCount + (utf8ByteLength name + utf8ByteLength value) in
      if MAX_PRESERVED_HEADER_BYTES <? byteCount then None
      else raw_matches fs wanted byteCount
        (if bool_decide (to_lower name = wanted) then matches ++ [value] else matches)
  end.
Definition identityFromRaw (raw : list jsstr) (wanted : jsstr) : option jsstr :=
  _ ← reject_if (bool_decide (raw = []) || (MAX_RAW_HEADER_ITEMS <? length raw)%nat || negb (Nat.even (length raw)));
  matches ← raw_matches (header_pairs raw) wanted 0 [];
  match matches with [value] => Some value | _ => None end.
Definition originalIdentityHeader (request : TrustedHeaderRequestView) (names : list jsstr) (wanted : jsstr)
    : option jsstr :=
  merged ← matchingHeaderValue (headers request) names wanted;
  mergedValue ← oneHeaderValue merged;
  _ ← reject_if (bool_decide (44 ∈ mergedValue));
  d ← match headersDistinct request with
      | None => Some [] | Some d => v ← identityFromDistinct d wanted; Some [v] end;
  r ← match view_rawHeaders request with
      | None => Some [] | Some raw => v ← identityFromRaw raw wanted; Some [v] end;
  let preserved := d ++ r in
  _ ← reject_if (bool_decide (preserved = []) || existsb (λ v, negb (bool_decide (v = mergedValue))) preserved);
  Some mergedValue.

Definition authenticate (p : TrustedHeaderAuthProvider) (request : TrustedHeaderRequestView) : option UpstreamIdentity :=
  remote ← remoteAddress request;
  _ ← validateAddress remote;
  _ ← reject_if (negb (trust p remote 0));
  names ← headerNames (headers request);
  forwardedFor ← optionalStringHeader (headers request) names (js "x-forwarded-for");
  _ ← validateProxyChain remote forwardedFor (trust p);
  forwardedProto ← optionalStringHeader (headers request) names (js "x-forwarded-proto");
  forwardedHost ← optionalStringHeader (headers request) names (js "x-forwarded-host");
  directHost ← optionalStringHeader (headers request) names (js "host");
  _ ← (if bool_decide (is_Some forwardedFor) || bool_decide (is_Some forwardedProto) ||
          bool_decide (is_Some forwardedHost)
       then
         proto ← requiredForwardedProtocol forwardedProto;
         host ← requiredHost forwardedHost;
         validateExternalOrigin proto host (publicOrigin p)
       else
         host ← requiredHost directHost;
         validateExternalOrigin (publicProtocol p) host (publicOrigin p));
  raw ← originalIdentityHeader request names (identityHeader p);
  label ← normalizeIdentity raw;
  Some {| identity_mode := trusted_header; identity_label := label; identity_expiresAt := None |}.
End trusted.

(** * Cloudflare Access *)

Definition ASSERTION_HEADER : jsstr := js "cf-access-jwt-assertion".
Definition MAX_ASSERTION_BYTES : Z := 16 * 1024.
Definition DEFAULT_CLOCK_TOLERANCE_SECONDS : num := Num 5 0.
Definition DEFAULT_MAX_TOKEN_LIFETIME_SECONDS : num := Num (24 * 60 * 60) 0.
Definition DEFAULT_JWKS_TIMEOUT_MS : num := Num 5000 0.
Definition DEFAULT_JWKS_COOLDOWN_MS : num := Num 30000 0.
Definition DEFAULT_JWKS_CACHE_MAX_AGE_MS : num := Num (10 * 60000) 0.

Definition compactJwtPattern (s : jsstr) : bool :=
  match split 46 s with [a; b; c] => forallb (all_chars token_char) [a; b; c] | _ => false end.
Definition audiencePattern (s : jsstr) : bool := all_chars token_char s && (length s <=? 256)%nat.
(** [/^[^\s@]+@[^\s@]+\.[^\s@]+$/u] *)
Definition emailPattern (s : jsstr) : bool :=
  match cut 64 s with
  | None => false
  | Some (l, d) =>
      all_chars (λ c, negb (is_js_space c)) l && forallb (λ c, negb (is_js_space c) && negb (c =? 64)) d &&
      existsb (λ c, c =? 46) (drop 1 (removelast d))
  end.
(** [/^[a-z0-9](?:[a-z0-9-]{0,61}[a-z0-9])?$/] *)
Definition lower_alnum (c : Z) : bool := ((97 <=? c) && (c <=? 122)) || ((48 <=? c) && (c <=? 57)).
Definition cloudflareTeamLabelPattern (s : jsstr) : bool :=
  match s with
  | [] => false
  | c :: _ => lower_alnum c && lower_alnum (List.last s 0) && forallb (λ c, lower_alnum c || (c =? 45)) s &&
              (length s <=? 63)%nat
  end.
Definition isCloudflareTeamHostname (hostname : jsstr) : bool :=
  match split 46 hostname with
  | [l; d; c] => cloudflareTeamLabelPattern l && bool_decide (d = js "cloudflareaccess") && bool_decide (c = js "com")
  | _ => false
  end.
Definition boundedInteger (value minimum maximum : num) : option num :=
  if negb (is_integer value) || num_ltb value minimum || num_ltb maximum value then None else Some value.

(** What [jose] is asked to check, and what it answers. *)
Record JWTVerifyOptions := {
  algorithms : list jsstr;
  issuer : jsstr;
  verify_audience : jsstr;
  requiredClaims : list jsstr;
  clockTolerance : num;
  currentDate : Z;
}.
Record JWTVerifyResult := { alg : option jsstr; payload : list (jsstr * json) }.

Record CloudflareAccessProviderOptions := {
  teamOrigin : jsstr;
  audience : jsstr;
  option_clockTolerance : option num;
  option_maxTokenLifetime : option num;
  jwksTimeoutMs : option num;
  jwksCooldownMs : option num;
  jwksCacheMaxAgeMs : option num;
}.
Record CloudflareAccessProvider := {
  provider_teamOrigin : jsstr;
  provider_audience : jsstr;
  clockToleranceSeconds : num;
  maxTokenLifetimeSeconds : num;
}.

Section cloudflare.
Context `{Platform, LowerCase, UrlParser}.

Definition validateHttpsOrigin (value : jsstr) : option jsstr :=
  url ← parse_url value None;
  if negb (bool_decide (protocol url = js "https:")) || negb (bool_decide (value = url_origin url)) ||
     negb (bool_decide (port url = [])) || negb (bool_decide (url_username url = [])) ||
     negb (bool_decide (url_password url = [])) || negb (isCloudflareTeamHostname (hostname url))
  then None else Some (url_origin url).
(** The key set is made from a valid URL and valid numbers, which does not
    throw. *)
Definition construct_cloudflare (o : CloudflareAccessProviderOptions) : option CloudflareAccessProvider :=
  team ← validateHttpsOrigin (teamOrigin o);
  _ ← reject_if (negb (audiencePattern (audience o)));
  tolerance ← boundedInteger (default DEFAULT_CLOCK_TOLERANCE_SECONDS (option_clockTolerance o)) (Num 0 0) (Num 30 0);
  lifetime ← boundedInteger (default DEFAULT_MAX_TOKEN_LIFETIME_SECONDS (option_maxTokenLifetime o))
    (Num 60 0) (Num (7 * 24 * 60 * 60) 0);
  _ ← boundedInteger (default DEFAULT_JWKS_TIMEOUT_MS (jwksTimeoutMs o)) (Num 10 0) (Num 10000 0);
  _ ← boundedInteger (default DEFAULT_JWKS_COOLDOWN_MS (jwksCooldownMs o)) (Num 0 0) (Num (5 * 60000) 0);
  _ ← boundedInteger (default DEFAULT_JWKS_CACHE_MAX_AGE_MS (jwksCacheMaxAgeMs o)) (Num 1000 0) (Num (60 * 60000) 0);
  Some {| provider_teamOrigin := team; provider_audience := audience o; clockToleranceSeconds := tolerance;
          maxTokenLifetimeSeconds := lifetime |}.

Definition readAssertion (headers : UpstreamHeaderView) : option jsstr :=
  _ ← reject_if (MAX_HEADER_FIELDS <? length headers)%nat;
  match filter (λ p, to_lower p.1 = ASSERTION_HEADER) headers with
  | [(_, HString value)] =>
      if (MAX_ASSERTION_BYTES <? utf8ByteLength value) || negb (compactJwtPattern value) then None else Some value
  | _ => None
  end.
(** [Math.floor(Number.MAX_SAFE_INTEGER / 1_000)] *)
Definition MAX_NUMERIC_DATE : Z := MAX_SAFE_INTEGER / 1000.
Definition numericDateMilliseconds (value : option json) : option Z :=
  match value with
  | Some (JNum z) => if negb (is_safe_integer z) || (z <? 0) || (MAX_NUMERIC_DATE <? z) then None else Some (z * 1000)
  | _ => None
  end.
Definition identityFromClaims (claims : list (jsstr * json)) : option jsstr :=
  let subject :=
    match field (js "sub") claims with Some (JStr s) => normalizeIdentity s | _ => None end in
  match field (js "email") claims with
  | Some (JStr e) =>
      match normalizeIdentity e with
      | Some email => if emailPattern email then Some email else subject
      | None => subject
      end
  | _ => subject
  end.

Definition verify_options (p : CloudflareAccessProvider) (now : Z) : JWTVerifyOptions :=
  {| algorithms := [js "RS256"]; issuer := provider_teamOrigin p; verify_audience := provider_audience p;
     requiredClaims := [js "exp"]; clockTolerance := clockToleranceSeconds p; currentDate := now |}.
(** The bounds are integers, so their value is the mantissa. *)
Definition seconds (n : num) : Z := mantissa n.
(** [clock] is a finite integral number or not; [verifier] is how the verifier
    settles. *)
Definition authenticate_cloudflare (p : CloudflareAccessProvider) (headers : UpstreamHeaderView)
    (clock : option Z) (verifier : jsstr → JWTVerifyOptions → option JWTVerifyResult) : option UpstreamIdentity :=
  assertion ← readAssertion headers;
  now ← clock;
  _ ← reject_if (now <? 0);
  verified ← verifier assertion (verify_options p now);
  _ ← reject_if (negb (bool_decide (alg verified = Some (js "RS256"))));
  expiresAt ← numericDateMilliseconds (field (js "exp") (payload verified));
  _ ← reject_if ((expiresAt <=? now) || (seconds (maxTokenLifetimeSeconds p) * 1000 <? expiresAt - now));
  _ ← match field (js "nbf") (payload verified) with
      | None => Some tt
      | nbf => notBefore ← numericDateMilliseconds nbf;
               reject_if (now + seconds (clockToleranceSeconds p) * 1000 <? notBefore)
      end;
  label ← identityFromClaims (payload verified);
  Some {| identity_mode := cloudflare_access; identity_label := label; identity_expiresAt := Some (Some expiresAt) |}.
End cloudflare.
