(* ===== verification/UpstreamFacts.v ===== *)
(** What an upstream identity rests on. *)
From S2P Require Import Prelude SafeString Json Double Settings Tabs AuthService Headers Origin Upstream AuthSafety.
Open Scope Z_scope.

Lemma reject_if_Some b u : reject_if b = Some u → b = false.
Proof. by destruct b. Qed.
(** One step of an option program that succeeds. *)
Ltac step_some Hs :=
  lazymatch type of Hs with
  | (reject_if _ ≫= _) = Some _ =>
      let Hr := fresh "Hr" in let u := fresh "u" in
      apply bind_Some in Hs as (u & Hr & Hs); apply reject_if_Some in Hr
  | (_ ≫= _) = Some _ =>
      let Hr := fresh "He" in let x := fresh "x" in apply bind_Some in Hs as (x & Hr & Hs)
  end.

Lemma up_to_untrusted_length t l : ∀ i, length l = length (up_to_untrusted t i l) →
  ∀ k a, l !! k = Some a → (S k < length l)%nat → t a (i + Z.of_nat k) = true.
Proof.
  induction l as [|a l IH]; intros i Hl k b Hk Hlt; [done|]. destruct l as [|a' l]; [cbn [length] in Hlt; lia|].
  change (up_to_untrusted t i (a :: a' :: l)) with (if t a i then a :: up_to_untrusted t (i + 1) (a' :: l) else [a]) in Hl.
  destruct (t a i) eqn:Ht; [|discriminate Hl].
  destruct k as [|k]; [injection Hk as <-; by rewrite Z.add_0_r|].
  replace (i + Z.of_nat (S k)) with (i + 1 + Z.of_nat k) by lia. apply IH; [by injection Hl|done|cbn [length] in *; lia].
Qed.

Section trusted.
Context `{Platform, LowerCase, UrlParser, ProxyLibraries, !ProxyLaws}.

Definition named (wanted : jsstr) (fs : list (jsstr * option jsstr)) : list jsstr :=
  omap (λ p, if bool_decide (to_lower p.1 = wanted) then p.2 else None) fs.
Lemma raw_matches_Some wanted fs : ∀ n acc out, raw_matches fs wanted n acc = Some out → out = acc ++ named wanted fs.
Proof.
  induction fs as [|[name [v|]] fs IH]; intros n acc out Ho; cbn [raw_matches] in Ho.
  - injection Ho as <-. by rewrite app_nil_r.
  - apply bind_Some in Ho as (_ & _ & Ho). case_match; [done|]. apply IH in Ho. unfold named. cbn [omap list_omap fst snd].
    destruct (bool_decide (to_lower name = wanted)); [|done]. by rewrite Ho, <-app_assoc.
  - done.
Qed.
Lemma identityFromRaw_Some raw wanted v : identityFromRaw raw wanted = Some v → named wanted (header_pairs raw) = [v].
Proof.
  unfold identityFromRaw. intros Hv. step_some Hv. step_some Hv. apply raw_matches_Some in He. cbn [app] in He. subst.
  destruct (named _ _) as [|v' [|]]; [done|by injection Hv as ->|done].
Qed.
Lemma identityFromDistinct_Some d wanted v : identityFromDistinct d wanted = Some v →
  ∃ name, filter (λ p, to_lower p.1 = wanted) d = [(name, [v])].
Proof.
  unfold identityFromDistinct. intros Hv. step_some Hv. step_some Hv.
  destruct (filter _ d) as [|[n [|v' [|]]] [|]]; simplify_eq. by exists n.
Qed.
Lemma split_on_no_sep sep s : ∀ acc, sep ∉ acc → Forall (λ x, sep ∉ x) (split_on sep acc s).
Proof.
  induction s as [|c s IH]; intros acc Ha; cbn [split_on]; [by repeat constructor|].
  destruct (Z.eqb_spec c sep); [constructor; [done|]; apply IH; by apply not_elem_of_nil|].
  apply IH. rewrite elem_of_app, list_elem_of_singleton. intros [?|?]; congruence.
Qed.
Lemma drop_while_sub f s x : x ∈ drop_while f s → x ∈ s.
Proof. induction s as [|c s IH]; [done|]. cbn. case_match; [|done]. intros ?. apply list_elem_of_further. auto. Qed.
Lemma trim_sub s x : x ∈ trim s → x ∈ s.
Proof. unfold trim. rewrite elem_of_reverse. intros Hx%drop_while_sub. rewrite elem_of_reverse in Hx. by apply drop_while_sub in Hx. Qed.
Lemma mapM_unit_Forall (f : jsstr → option unit) l u : mapM f l = Some u → Forall (λ a, is_Some (f a)) l.
Proof.
  revert u. induction l as [|a l IH]; intros u Hl; [constructor|]. cbn in Hl.
  apply bind_Some in Hl as (x & Hx & Hl). apply bind_Some in Hl as (y & Hy & _). constructor; [by eexists|by eapply IH].
Qed.
Lemma parseForwardedFor_Some f chain : parseForwardedFor f = Some chain →
  chain = trim <$> split 44 f ∧ (length chain ≤ 16)%nat ∧
  Forall (λ a, a ≠ [] ∧ 44 ∉ a ∧ 32 ∉ a ∧ ipaddr_isValid a = true) chain.
Proof.
  unfold parseForwardedFor. intros Hc. step_some Hc. cbn zeta in Hc. step_some Hc. step_some Hc. injection Hc as <-.
  split; [done|]. apply orb_false_iff in Hr0 as [[_ Hl%Nat.ltb_ge]%orb_false_iff _]. split; [done|].
  apply mapM_unit_Forall in He. apply Forall_forall. intros a Ha.
  apply (proj1 (Forall_forall _ _) He) in Ha as Hv. destruct Hv as [w Hv%reject_if_Some].
  rewrite !orb_false_iff, negb_false_iff, !bool_decide_eq_false in Hv. destruct Hv as (((? & _) & _) & Hv).
  split_and!; [done| |by apply ipaddr_no_space|done].
  apply list_elem_of_fmap in Ha as (y & -> & Hy). intros Hin%trim_sub.
  assert (Forall (λ x, 44 ∉ x) (split 44 f)) as Hs by (apply split_on_no_sep; by apply not_elem_of_nil).
  by apply (proj1 (Forall_forall _ _) Hs) in Hy.
Qed.

(** The addresses that a request came through, nearest first. *)
Definition hops (remote : jsstr) (forwardedFor : option jsstr) : list jsstr :=
  remote :: reverse (match forwardedFor with None => [] | Some f => trim <$> split 44 f end).
Lemma validateProxyChain_Some remote f t u : validateProxyChain remote f t = Some u →
  (length (hops remote f) ≤ 17)%nat ∧
  ∀ k a, hops remote f !! k = Some a → (S k < length (hops remote f))%nat → t a (Z.of_nat k) = true.
Proof.
  unfold validateProxyChain. intros Hv. step_some Hv. cbn zeta in Hv. apply reject_if_Some in Hv.
  apply negb_false_iff, Nat.eqb_eq in Hv. rewrite proxyaddr_all_trusted in Hv.
  assert (x = match f with None => [] | Some f => trim <$> split 44 f end ∧ (length x ≤ 16)%nat ∧
    Forall (λ a, a ≠ [] ∧ 44 ∉ a ∧ 32 ∉ a) x) as (Hx & Hl & Hf).
  { destruct f as [f|]; [|injection He as <-; split_and!; [done|cbn; lia|constructor]].
    apply parseForwardedFor_Some in He as (-> & ? & Hf). split_and!; [done..|].
    eapply Forall_impl; [exact Hf|]. intros a (? & ? & ? & _). done. }
  rewrite proxyaddr_all_complete in Hv by done. unfold hops. rewrite <-Hx. split.
  - cbn [length]. rewrite length_reverse. lia.
  - intros k a Hk Hlt. by apply (up_to_untrusted_length t _ 0 Hv k a).
Qed.
Lemma normalizeIdentity_Some v l : normalizeIdentity v = Some l →
  l = nfc v ∧ l ≠ [] ∧ utf8ByteLength l <= 128 ∧ unsafeIdentityPattern l = false.
Proof.
  unfold normalizeIdentity. destruct (_ || _) eqn:E; [done|]. intros [= <-].
  rewrite !orb_false_iff, bool_decide_eq_false, Z.ltb_ge in E. destruct E as ((? & ?) & ?). done.
Qed.
Lemma originalIdentityHeader_Some req names wanted v : originalIdentityHeader req names wanted = Some v →
  44 ∉ v ∧ (matchingHeaderValue (headers req) names wanted ≫= oneHeaderValue = Some v) ∧
  (headersDistinct req ≠ None ∨ view_rawHeaders req ≠ None) ∧
  (∀ raw, view_rawHeaders req = Some raw → named wanted (header_pairs raw) = [v]) ∧
  (∀ d, headersDistinct req = Some d → ∃ name, filter (λ p, to_lower p.1 = wanted) d = [(name, [v])]).
Proof.
  unfold originalIdentityHeader. intros Hv. do 2 step_some Hv. step_some Hv. do 2 step_some Hv. cbn zeta in Hv. step_some Hv.
  injection Hv as <-. apply orb_false_iff in Hr0 as [Hne%bool_decide_eq_false Hall].
  assert (∀ y, y ∈ x1 ++ x2 → y = x0) as Heq.
  { intros y Hy. destruct (decide (y = x0)) as [?|Hn]; [done|]. exfalso.
    assert (existsb (λ v, negb (bool_decide (v = x0))) (x1 ++ x2) = true); [|congruence].
    apply existsb_exists. exists y. rewrite <-list_elem_of_In. split; [done|]. by rewrite bool_decide_false. }
  split_and!.
  - by case_bool_decide.
  - rewrite He. exact He0.
  - destruct (headersDistinct req); [by left|]. destruct (view_rawHeaders req); [by right|].
    exfalso. apply Hne. by simplify_eq.
  - intros raw Hraw. rewrite Hraw in He2. apply bind_Some in He2 as (y & Hy & [= <-]).
    rewrite <-(Heq y); [by apply identityFromRaw_Some|apply elem_of_app; right; apply list_elem_of_here].
  - intros d Hd. rewrite Hd in He1. apply bind_Some in He1 as (y & Hy & [= <-]).
    rewrite <-(Heq y); [by apply identityFromDistinct_Some|apply elem_of_app; left; apply list_elem_of_here].
Qed.

(** What a trusted identity of this request rests on. *)
Record vouched (p : TrustedHeaderAuthProvider) (req : TrustedHeaderRequestView) (i : UpstreamIdentity) : Prop := {
  v_remote : ∃ remote names f, remoteAddress req = Some remote ∧ trust p remote 0 = true ∧
    headerNames (headers req) = Some names ∧
    optionalStringHeader (headers req) names (js "x-forwarded-for") = Some f ∧
    (length (hops remote f) ≤ 17)%nat ∧
    ∀ k a, hops remote f !! k = Some a → (S k < length (hops remote f))%nat → trust p a (Z.of_nat k) = true;
  v_origin : ∃ proto host url, parse_url (proto ++ js "://" ++ host) None = Some url ∧
    url_origin url = publicOrigin p ∧ pathname url = js "/" ∧ url_username url = [] ∧ url_password url = [];
  v_header : ∃ raw, 44 ∉ raw ∧ (headersDistinct req ≠ None ∨ view_rawHeaders req ≠ None) ∧
    (∀ rawHeaders, view_rawHeaders req = Some rawHeaders → named (identityHeader p) (header_pairs rawHeaders) = [raw]) ∧
    (∀ d, headersDistinct req = Some d → ∃ name, filter (λ p', to_lower p'.1 = identityHeader p) d = [(name, [raw])]) ∧
    identity_label i = nfc raw ∧ identity_label i ≠ [] ∧ utf8ByteLength (identity_label i) <= 128 ∧
    unsafeIdentityPattern (identity_label i) = false;
  v_mode : identity_mode i = trusted_header ∧ identity_expiresAt i = None;
}.
Lemma validateExternalOrigin_Some p host o u : validateExternalOrigin p host o = Some u → ∃ url,
  parse_url (p ++ js "://" ++ host) None = Some url ∧ url_origin url = o ∧ pathname url = js "/" ∧
  url_username url = [] ∧ url_password url = [].
Proof.
  unfold validateExternalOrigin. intros (url & Hu & Hv%reject_if_Some)%bind_Some. exists url.
  rewrite !orb_false_iff, !negb_false_iff, !bool_decide_eq_true in Hv. tauto.
Qed.
Lemma authenticate_vouched p req i : authenticate p req = Some i → vouched p req i.
Proof.
  unfold authenticate. intros Hi. do 2 step_some Hi. step_some Hi. do 8 step_some Hi. step_some Hi. injection Hi as <-.
  apply negb_false_iff in Hr. apply validateProxyChain_Some in He3 as [Hl Hh].
  apply originalIdentityHeader_Some in He8 as (? & _ & ? & ? & ?). apply normalizeIdentity_Some in He9 as (-> & ? & ? & ?).
  split; cbn [identity_label identity_mode identity_expiresAt].
  - by exists x, x1, x2.
  - case_match; apply bind_Some in He7 as (? & _ & He7);
      [apply bind_Some in He7 as (? & _ & He7)|]; apply validateExternalOrigin_Some in He7 as (url & ?); by eexists _, _, url.
  - by exists x8.
  - done.
Qed.
End trusted.

Section cloudflare.
Context `{Platform, LowerCase, UrlParser}.

(** What an identity of Cloudflare Access rests on. *)
Record asserted (p : CloudflareAccessProvider) (hs : UpstreamHeaderView) (clock : option Z)
    (verifier : jsstr → JWTVerifyOptions → option JWTVerifyResult) (i : UpstreamIdentity) : Prop := {
  as_token : ∃ name assertion now r e, filter (λ p', to_lower p'.1 = ASSERTION_HEADER) hs = [(name, HString assertion)] ∧
    compactJwtPattern assertion = true ∧ utf8ByteLength assertion <= MAX_ASSERTION_BYTES ∧
    clock = Some now ∧ 0 <= now ∧ verifier assertion (verify_options p now) = Some r ∧ alg r = Some (js "RS256") ∧
    field (js "exp") (payload r) = Some (JNum e) ∧ identity_expiresAt i = Some (Some (e * 1000)) ∧
    now < e * 1000 <= now + seconds (maxTokenLifetimeSeconds p) * 1000 ∧
    (∀ v, field (js "nbf") (payload r) = Some v → ∃ n, v = JNum n ∧
       0 <= n * 1000 <= now + seconds (clockToleranceSeconds p) * 1000) ∧
    (∃ claim v, (claim = js "email" ∧ emailPattern (nfc v) = true ∨ claim = js "sub") ∧
       field claim (payload r) = Some (JStr v) ∧ identity_label i = nfc v);
  as_label : identity_label i ≠ [] ∧ utf8ByteLength (identity_label i) <= 128 ∧
    unsafeIdentityPattern (identity_label i) = false;
  as_mode : identity_mode i = cloudflare_access;
}.
Lemma readAssertion_Some hs a : readAssertion hs = Some a →
  (∃ name, filter (λ p', to_lower p'.1 = ASSERTION_HEADER) hs = [(name, HString a)]) ∧
  compactJwtPattern a = true ∧ utf8ByteLength a <= MAX_ASSERTION_BYTES.
Proof.
  unfold readAssertion. intros Ha. step_some Ha.
  destruct (filter _ hs) as [|[name [v| |]] [|]]; try done. destruct (_ || _) eqn:E; [done|].
  injection Ha as <-. apply orb_false_iff in E as [?%Z.ltb_ge ?%negb_false_iff]. split; [by exists name|done].
Qed.
Lemma numericDate_Some v z : numericDateMilliseconds v = Some z → ∃ n, v = Some (JNum n) ∧ z = n * 1000 ∧ 0 <= n.
Proof.
  unfold numericDateMilliseconds. destruct v as [[]|]; try done. destruct (_ || _) eqn:E; [done|]. intros [= <-].
  rewrite !orb_false_iff, Z.ltb_ge in E. destruct E as ((_ & ?) & _). by eexists.
Qed.
Lemma identityFromClaims_Some claims l : identityFromClaims claims = Some l → ∃ claim v,
  (claim = js "email" ∧ emailPattern (nfc v) = true ∨ claim = js "sub") ∧
  field claim claims = Some (JStr v) ∧ normalizeIdentity v = Some l.
Proof.
  unfold identityFromClaims. set (subject := match field (js "sub") claims with Some (JStr s) => _ | _ => _ end).
  assert (subject = Some l → ∃ claim v, (claim = js "email" ∧ emailPattern (nfc v) = true ∨ claim = js "sub") ∧
    field claim claims = Some (JStr v) ∧ normalizeIdentity v = Some l) as Hs.
  { subst subject. destruct (field (js "sub") claims) as [[]|] eqn:Hf; try done. intros Hl. by exists (js "sub"), s; auto. }
  destruct (field (js "email") claims) as [[]|] eqn:Hf; try done.
  destruct (normalizeIdentity s) as [m|] eqn:Hn; [|done]. destruct (emailPattern m) eqn:Hm; [|done]. intros [= <-].
  apply normalizeIdentity_Some in Hn as Hn'. destruct Hn' as (-> & _). exists (js "email"), s. auto.
Qed.
Lemma authenticate_asserted p hs clock verifier i :
  authenticate_cloudflare p hs clock verifier = Some i → asserted p hs clock verifier i.
Proof.
  unfold authenticate_cloudflare. intros Hi.
  step_some Hi. apply readAssertion_Some in He as ((name & Hf) & Hj & Hb). step_some Hi. rename x0 into now.
  step_some Hi. apply Z.ltb_ge in Hr. step_some Hi. rename x0 into r. step_some Hi.
  apply negb_false_iff, bool_decide_eq_true in Hr0. step_some Hi. apply numericDate_Some in He1 as (e & Hexp & -> & _).
  step_some Hi. apply orb_false_iff in Hr1 as [Hr1%Z.leb_gt Hr2%Z.ltb_ge].
  apply bind_Some in Hi as (u3 & Hnbf & Hi). step_some Hi. injection Hi as <-.
  apply identityFromClaims_Some in He1 as (claim & v & Hc & Hv & Hl).
  apply normalizeIdentity_Some in Hl as (-> & Hlabel). split; cbn [identity_label identity_mode identity_expiresAt]; [|done|done].
  exists name, x, now, r, e. split_and!; try done; [lia| |by exists claim, v].
  intros w Hw. rewrite Hw in Hnbf. step_some Hnbf. apply numericDate_Some in He1 as (n & [= ->] & -> & ?).
  apply reject_if_Some, Z.ltb_ge in Hnbf. exists n. split; [done|lia].
Qed.
End cloudflare.

Lemma validatePublicOrigin_Some `{UrlParser} v url : validatePublicOrigin v = Some url → url_origin url = v.
Proof.
  unfold validatePublicOrigin. intros (u & _ & Hv)%bind_Some. destruct (_ || _) eqn:E; [done|]. injection Hv as <-.
  rewrite !orb_false_iff, !negb_false_iff, !bool_decide_eq_true in E. by destruct E as (((_ & ->) & _) & _).
Qed.
Lemma construct_Some `{LowerCase, UrlParser, ProxyLibraries} o p : construct o = Some p →
  ∃ ranges, trustProxy o = TrustRanges ranges ∧ ranges ≠ [] ∧ proxyaddr_compile ranges = Some (trust p) ∧
    identityHeader p = to_lower (option_identityHeader o) ∧ publicOrigin p = option_publicOrigin o.
Proof.
  unfold construct. destruct (trustProxy o) as [| |ranges]; [done..|]. intros Hp. step_some Hp.
  apply orb_false_iff in Hr as [Hne%bool_decide_eq_false _]. step_some Hp. step_some Hp. step_some Hp. step_some Hp.
  injection Hp as <-. exists ranges. split_and!; try done. cbn.
  by apply validatePublicOrigin_Some in He1.
Qed.


(** * A request through one proxy *)

(** [proxy-addr] for addresses that are trusted when they are in the list. *)
Definition sample_libraries : ProxyLibraries := {|
  ipaddr_isValid := λ a, bool_decide (32 ∉ a);
  ipaddr_parse := λ _, true;
  ipaddr_parseCIDR := λ _, true;
  proxyaddr_compile := λ ranges, Some (λ a _, bool_decide (a ∈ ranges));
  proxyaddr_all := λ t h remote,
    let all := remote :: reverse (if bool_decide (h = []) then [] else filter (λ c, c ≠ 32) <$> split 44 h) in
    match t with None => all | Some t => up_to_untrusted t 0 all end;
|}.

Lemma unspaced (a : jsstr) : 32 ∉ a → filter (λ c, c ≠ 32) a = a.
Proof.
  induction a as [|c a IH]; [done|]. intros [? ?]%not_elem_of_cons. rewrite filter_cons_True by congruence. by rewrite IH.
Qed.
Lemma sample_laws : let _ := sample_libraries in ProxyLaws.
Proof.
  split.
  - intros chain remote Hc. cbn. destruct chain as [|a chain]; [done|]. rewrite bool_decide_false.
    2: { intros Hn. apply Forall_cons in Hc as [(Ha & _) _]. apply Ha. destruct chain; cbn in Hn; [done|by apply app_eq_nil in Hn as [? _]]. }
    change (js ", ") with [44; 32]. rewrite split_join; [|done..|eapply Forall_impl; [exact Hc|]; naive_solver].
    do 2 f_equal. apply Forall_cons in Hc as [(_ & _ & Ha) Hc]. cbn [spaced]. rewrite fmap_cons, unspaced by done. f_equal.
    induction Hc as [|b chain (_ & _ & Hb) _ IH]; [done|]. rewrite !fmap_cons. f_equal; [|done].
    rewrite filter_cons_False by tauto. by apply unspaced.
  - intros a Ha. by apply bool_decide_eq_true in Ha.
  - done.
Qed.

Definition sample_provider_urls : UrlParser := {| parse_url := λ s _,
  let at_host (h : string) := Some
    {| protocol := js "https:"; url_username := []; url_password := []; hostname := js h; port := [];
       pathname := js "/"; search := []; hash := []; url_origin := js "https://" ++ js h |} in
  if bool_decide (s = js "https://t.example") then at_host "t.example"
  else if bool_decide (s = js "https://team.cloudflareaccess.com") then at_host "team.cloudflareaccess.com" else None |}.
Definition sample_trusted : TrustedHeaderAuthProviderOptions :=
  {| trustProxy := TrustRanges [js "10.0.0.2"]; option_identityHeader := js "X-User";
     option_publicOrigin := js "https://t.example" |}.
Definition sample_proxied : TrustedHeaderRequestView :=
  {| remoteAddress := Some (js "10.0.0.2");
     headers := [(js "x-forwarded-for", HString (js "192.0.2.7")); (js "x-forwarded-proto", HString (js "https"));
                 (js "x-forwarded-host", HString (js "t.example")); (js "x-user", HString (js "ada"))];
     headersDistinct := Some [(js "x-user", [js "ada"])]; view_rawHeaders := Some [js "X-User"; js "ada"] |}.
Definition sample_cloudflare : CloudflareAccessProviderOptions :=
  {| teamOrigin := js "https://team.cloudflareaccess.com"; audience := js "aud"; option_clockTolerance := None;
     option_maxTokenLifetime := None; jwksTimeoutMs := None; jwksCooldownMs := None; jwksCacheMaxAgeMs := None |}.
Definition sample_verifier (assertion : jsstr) (o : JWTVerifyOptions) : option JWTVerifyResult :=
  Some {| alg := Some (js "RS256"); payload := [(js "exp", JNum 2000); (js "email", JStr (js "ada@t.example"))] |}.
