(* ===== verification/AuthMiddleware.v ===== *)
(** [apps/server/src/auth-middleware.ts]: the guards in front of the routes and
    of the terminal sockets, as programs over the methods of [AuthService].

    Where the code awaits, [turn] is what other code does to the service in
    the meantime; the providers of the upstream identity are those of
    [Upstream], with the clock and the verifier of the request.  [reject] and
    [log] do not depend on the logger: its calls are contained. *)
From S2P Require Import Prelude JsMap SafeString Json Headers Origin Upstream WsAuthIndex AuthService.
Open Scope Z_scope.

Record AuthMiddlewareOptions := {
  m_mode : AuthMode;
  m_publicOrigin : jsstr;
  cloudflareAccessProvider : option CloudflareAccessProvider;
  trustedHeaderProvider : option TrustedHeaderAuthProvider;
}.
Record Request := {
  method : jsstr;
  req_rawHeaders : list jsstr;
  req_headers : UpstreamHeaderView;
  req_headersDistinct : option (list (jsstr * list jsstr));
  req_remoteAddress : option jsstr;
}.
(** The clock of the Cloudflare provider and how its verifier settles. *)
Record Assertions := {
  provider_clock : option Z;
  provider_verifier : jsstr → JWTVerifyOptions → option JWTVerifyResult;
}.
Record AuthenticatedLocals := { authSession : AuthenticatedSession; upstreamIdentity : option UpstreamIdentity }.
(** [response.locals], with what the routes of a router keep there *)
Record Locals B := Build_Locals {
  local_session : option AuthenticatedSession;
  local_identity : option UpstreamIdentity;
  local_route : B;
}.
Arguments Build_Locals {B}.
Arguments local_session {B}.
Arguments local_identity {B}.
Arguments local_route {B}.
Definition set_route {B} (b : B) (l : Locals B) : Locals B := Build_Locals (local_session l) (local_identity l) b.

Definition identityMatches (session : AuthenticatedSession) (upstream : option UpstreamIdentity) : bool :=
  if bool_decide (view_mode session = mode_local) || bool_decide (view_mode session = mode_none)
  then match upstream with None => true | Some _ => false end
  else match upstream with
       | None => false
       | Some u => bool_decide (identity_mode u = view_mode session) &&
                   bool_decide (identity_label u = view_identityLabel session)
       end.
Definition sameAuthority (expected current : AuthenticatedSession) : bool :=
  bool_decide (view_id current = view_id expected) && bool_decide (view_mode current = view_mode expected) &&
  bool_decide (view_identityLabel current = view_identityLabel expected).

(** What a handler of a chain does: [next()], or a reply with an error. *)
Inductive step B := Next (l : Locals B) | Reply (status : Z) (error : jsstr).
Arguments Next {B}.
Arguments Reply {B}.

(** The awaits of a request. *)
Inductive wait := Await_upstream | Await_body | Await_service | Await_workspace.

Section middleware.
Context `{Platform, LowerCase, UrlParser, ProxyLibraries} {W : Type} (h : @handler auth W ev error resp)
  (hash : jsstr → jsstr) (o : AuthServiceOptions) (turn : wait → sys auth W ev → sys auth W ev).
Context (options : AuthMiddlewareOptions).
Abbreviation SM := (M (sys auth W ev) error).

Definition await_turn (w : wait) : SM unit := modify (turn w).

Definition currentUpstreamIdentity (request : Request) (assertions : Assertions) : SM (option UpstreamIdentity) :=
  match m_mode options with
  | mode_local | mode_none => ret None
  | cloudflare_access =>
      let! p := of_option (cloudflareAccessProvider options) foreign in
      let! i := of_option (authenticate_cloudflare p (req_headers request) (provider_clock assertions)
                             (provider_verifier assertions)) foreign in
      ret (Some i)
  | trusted_header =>
      let! p := of_option (trustedHeaderProvider options) foreign in
      let! d := of_option (distinctHeaders (req_headersDistinct request) (req_rawHeaders request)) foreign in
      let! i := of_option (authenticate p
        {| remoteAddress := req_remoteAddress request; headers := req_headers request;
           headersDistinct := Some d; view_rawHeaders := Some (req_rawHeaders request) |}) foreign in
      ret (Some i)
  end.

Definition resolveAuthentication (request : Request) (assertions : Assertions) : SM (option AuthenticatedLocals) :=
  match readSessionCookie (req_rawHeaders request) with
  | None => ret None
  | Some cookie =>
      let! session := authenticateCookie h hash (Some cookie) in
      match session with
      | None => ret None
      | Some session =>
          if negb (bool_decide (view_mode session = m_mode options)) then ret None
          else
            do! await_turn Await_upstream in
            let! upstream := currentUpstreamIdentity request assertions in
            if negb (identityMatches session upstream) then ret None
            else
              let! current := authenticateCookie h hash (Some cookie) in
              match current with
              | None => ret None
              | Some current =>
                  if negb (sameAuthority session current) || negb (identityMatches current upstream) then ret None
                  else ret (Some {| authSession := current; upstreamIdentity := upstream |})
              end
      end
  end.

(** [requireAuthentication]: the function [authenticate] *)
Definition requireAuthentication {B} (request : Request) (assertions : Assertions) (l : Locals B) : SM (step B) :=
  catch
    (let! resolved := resolveAuthentication request assertions in
     match resolved with
     | None => ret (Reply 401 (js "authentication_required"))
     | Some r => ret (Next (Build_Locals (Some (authSession r)) (upstreamIdentity r) (local_route l)))
     end)
    (λ _, ret (Reply 401 (js "authentication_required"))).

Definition requireMutationSecurity {B} (request : Request) (l : Locals B) : SM (step B) :=
  if negb (hasExactHeader (req_rawHeaders request) (js "origin") (m_publicOrigin options))
  then ret (Reply 403 (js "origin_forbidden"))
  else if negb (bool_decide (method request = js "DELETE")) && negb (hasJsonContentType (req_rawHeaders request))
  then ret (Reply 415 (js "json_required"))
  else
    match local_session l, oneBoundedHeader (req_rawHeaders request) CSRF_HEADER_NAME MAX_CSRF_BYTES visibleAsciiPattern with
    | Some session, Some csrf =>
        let! valid := verifyCsrf h (view_id session) (Some csrf) in
        ret (if valid : bool then Next l else Reply 403 (js "csrf_invalid"))
    | _, _ => ret (Reply 403 (js "csrf_invalid"))
    end.
Definition requirePublicMutationSecurity {B} (request : Request) (l : Locals B) : SM (step B) :=
  ret (if negb (hasExactHeader (req_rawHeaders request) (js "origin") (m_publicOrigin options))
       then Reply 403 (js "origin_forbidden")
       else if negb (hasJsonContentType (req_rawHeaders request)) then Reply 415 (js "json_required")
       else Next l).

Definition touchHttpActivity {B} (request : Request) (l : Locals B) : SM (step B) :=
  match local_session l with
  | None => ret (Reply 401 (js "authentication_required"))
  | Some session =>
      let! current := attempt (authenticateCookie h hash (readSessionCookie (req_rawHeaders request))) in
      match current with
      | Ok (Some current) =>
          if negb (sameAuthority session current) || negb (identityMatches current (local_identity l))
          then ret (Reply 401 (js "authentication_required"))
          else
            let! touched := attempt (touch h o (view_id current) http) in
            ret (match touched with
                 | Throw _ => Reply 500 (js "operation_failed")
                 | Ok _ => Next (Build_Locals (Some current) (local_identity l) (local_route l))
                 end)
      | _ => ret (Reply 401 (js "authentication_required"))
      end
  end.

Definition authenticatedLocals {B} (l : Locals B) : option AuthenticatedLocals :=
  session ← local_session l; Some {| authSession := session; upstreamIdentity := local_identity l |}.

Definition upstreamAuthentication (request : Request) (assertions : Assertions) : SM UpstreamAuthentication :=
  do! await_turn Await_upstream in
  let! identity := currentUpstreamIdentity request assertions in
  ret (match identity with None => Upstream_none | Some i => AuthService.Upstream i end).

(** * Upgrades *)

Definition resolveUpgradeAuthentication (request : Request) (assertions : Assertions)
    : SM (option ApplicationSessionAuthority) :=
  match readSessionCookie (req_rawHeaders request) with
  | None => ret None
  | Some cookie =>
      let! first := authenticateAuthority h hash (Some cookie) in
      match first with
      | None => ret None
      | Some first =>
          if negb (bool_decide (view_mode (authority_session first) = m_mode options)) then ret None
          else
            do! await_turn Await_upstream in
            let! upstream := currentUpstreamIdentity request assertions in
            if negb (identityMatches (authority_session first) upstream) then ret None
            else
              let! current := authenticateAuthority h hash (Some cookie) in
              match current with
              | None => ret None
              | Some current =>
                  let session := authority_session current in
                  if negb (authority_generation current =? authority_generation first) ||
                     negb (sameAuthority (authority_session first) session) || negb (identityMatches session upstream)
                  then ret None
                  else
                    let deadline := Z.min (view_idleExpiresAt session) (view_absoluteExpiresAt session) in
                    ret (Some {| applicationSessionId := view_id session;
                                 auth_generation := authority_generation current;
                                 expiresAt := match view_upstreamExpiresAt session with
                                              | Some u => Z.min deadline u | None => deadline end |})
              end
      end
  end.
(** The methods of [createWebSocketUpgradeAuthenticator]. *)
Definition authenticate_upgrade (request : Request) (assertions : Assertions) : SM (option ApplicationSessionAuthority) :=
  catch (resolveUpgradeAuthentication request assertions) (λ _, ret None).
Definition safeAuthorityCheck (a : ApplicationSessionAuthority) : SM bool :=
  catch (isActiveAuthority h (applicationSessionId a) (auth_generation a)) (λ _, ret false).
Definition touchInput (a : ApplicationSessionAuthority) : SM bool :=
  catch (touchAuthority h o (applicationSessionId a) (auth_generation a) terminal_input) (λ _, ret false).
End middleware.
