(* ===== verification/MiddlewareFacts.v ===== *)
(** What the guards of [AuthMiddleware] let through. *)
From S2P Require Import Prelude JsMap SafeString Json Headers Origin Upstream UpstreamFacts WsAuthIndex Csrf AuthService AuthFacts AuthSafety AuthMiddleware.
Open Scope Z_scope.

Lemma wp_and {S E A} (m : M S E A) (P Q : res E A → S → Prop) (s : S) : wp m P s → wp m Q s → wp m (λ r s', P r s' ∧ Q r s') s.
Proof. done. Qed.

Section facts.
Context `{Platform, LowerCase, !UrlParser, !ProxyLibraries} {W : Type} (h : @handler auth W ev error resp)
  (hash : jsstr → jsstr) (o : AuthServiceOptions) `{!AuthEnv o h} (turn : wait → sys auth W ev → sys auth W ev)
  (turn_ok : ∀ w s, asyn o s (turn w s)).
Context (options : AuthMiddlewareOptions).
Implicit Types (s : sys auth W ev).


Lemma wp_await w (Q : res error unit → sys auth W ev → Prop) s : Q (Ok tt) (turn w s) → wp (await_turn turn w) Q s.
Proof. done. Qed.

(** The identity that the configured provider vouches for, if any is needed. *)
Definition upstream_vouches (request : Request) (assertions : Assertions) (u : option UpstreamIdentity) : Prop :=
  match m_mode options with
  | mode_local | mode_none => u = None
  | cloudflare_access => ∃ p i, cloudflareAccessProvider options = Some p ∧ u = Some i ∧
      authenticate_cloudflare p (req_headers request) (provider_clock assertions) (provider_verifier assertions) = Some i
  | trusted_header => ∃ p d i, trustedHeaderProvider options = Some p ∧ u = Some i ∧
      distinctHeaders (req_headersDistinct request) (req_rawHeaders request) = Some d ∧
      authenticate p {| remoteAddress := req_remoteAddress request; headers := req_headers request;
        headersDistinct := Some d; view_rawHeaders := Some (req_rawHeaders request) |} = Some i
  end.
Lemma wp_currentUpstream request assertions s :
  wp (currentUpstreamIdentity options request assertions)
     (λ r s', s' = s ∧ ∀ u, r = Ok u → upstream_vouches request assertions u) s.
Proof.
  unfold currentUpstreamIdentity, upstream_vouches.
  destruct (m_mode options); repeat wp_step; (split; [done|]); intros u [= <-]; try done; by repeat eexists.
Qed.

(** The cookie of the request belongs to the session object [st] at [s]. *)
Definition recognised (request : Request) s (st : Stored) : Prop :=
  ∃ cookie, readSessionCookie (req_rawHeaders request) = Some cookie ∧ accepted h o hash s (Some cookie) st.

Lemma wp_authenticated {A} (as_view : Stored → A) raw s : auth_ok o (comp s) →
  wp (authenticate_with h hash as_view raw) (λ r s', syn o s s' ∧
    ∀ v, r = Ok (Some v) → ∃ st, accepted h o hash s raw st ∧ v = as_view st ∧ comp s' = comp s) s.
Proof.
  intros Hok. apply wp_and; [by apply sync_authenticate|].
  eapply wp_mono; [by apply (wp_authenticate h o hash)|]. by intros r s' [? _].
Qed.

Lemma identityMatches_true session u : identityMatches session u = true →
  match u with
  | None => view_mode session = mode_local ∨ view_mode session = mode_none
  | Some i => identity_mode i = view_mode session ∧ identity_label i = view_identityLabel session
  end.
Proof.
  unfold identityMatches. destruct (_ || _) eqn:E.
  - destruct u; [done|]. by rewrite orb_true_iff, !bool_decide_eq_true in E.
  - destruct u; [|done]. by rewrite andb_true_iff, !bool_decide_eq_true.
Qed.
Lemma sameAuthority_true a b : sameAuthority a b = true →
  view_id b = view_id a ∧ view_mode b = view_mode a ∧ view_identityLabel b = view_identityLabel a.
Proof. unfold sameAuthority. rewrite !andb_true_iff, !bool_decide_eq_true. tauto. Qed.

(** How a request came to be authenticated between [s] and [s']: its cookie
    was accepted at [s] and, after the wait, at [s1]; both times for the same
    session of the configured mode, to which the upstream identity of this
    request belongs. *)
Record authenticated (request : Request) (assertions : Assertions) s s' (st : Stored) (u : option UpstreamIdentity)
    : Prop := {
  au_first : ∃ st0, recognised request s st0 ∧ id st = id st0 ∧ identityLabel st = identityLabel st0;
  au_second : ∃ s1, asyn o s s1 ∧ recognised request s1 st ∧ comp s' = comp s1;
  au_mode : mode st = m_mode options;
  au_vouched : upstream_vouches request assertions u;
  au_identity : match u with
    | None => mode st = mode_local ∨ mode st = mode_none
    | Some i => identity_mode i = mode st ∧ identity_label i = identityLabel st
    end;
}.

Lemma asyn_turn w s s1 : comp s1 = comp s → asyn o s (turn w s1).
Proof. intros Hc. pose proof (turn_ok w s1) as Ht. unfold asyn in *. by rewrite <-Hc. Qed.
Lemma asyn_then s s1 s2 : asyn o s s1 → syn o s1 s2 → asyn o s s2.
Proof. intros ? ?%syn_asyn. by etrans. Qed.

Lemma wp_resolve request assertions s : auth_ok o (comp s) →
  wp (resolveAuthentication h hash turn options request assertions) (λ r s', asyn o s s' ∧
    ∀ v, r = Ok (Some v) → ∃ st, authenticated request assertions s s' st (upstreamIdentity v) ∧ authSession v = view st) s.
Proof.
  intros Hok. unfold resolveAuthentication. destruct (readSessionCookie _) as [cookie|] eqn:Hc; [|by wp_step].
  wp_step. eapply wp_mono; [by apply wp_authenticated|]. intros [[v0|]|e] s0 [K0 Hv0];
    [|wp_step; split; [by apply syn_asyn|done]|split; [by apply syn_asyn|done]].
  destruct (Hv0 _ eq_refl) as (st0 & Hst0 & -> & C0). wp_step; [wp_step; split; [by apply syn_asyn|done]|].
  breflect. wp_step. apply wp_await. pose proof (asyn_turn Await_upstream _ _ C0) as A1. set (s1 := turn _ s0) in *.
  pose proof (asyn_ok o _ _ A1 Hok) as Hok1.
  wp_step. eapply wp_mono; [apply wp_currentUpstream|]. intros [u|e] s1' [-> Hu]; [|by split].
  wp_step; [wp_step; by split|]. wp_step.
  eapply wp_mono; [by apply wp_authenticated|]. intros [[v2|]|e] s2 [K2 Hv2];
    [|wp_step; split; [by eapply asyn_then|done]|split; [by eapply asyn_then|done]].
  destruct (Hv2 _ eq_refl) as (st & Hst & -> & C2).
  wp_step; [wp_step; split; [by eapply asyn_then|done]|]. breflect. wp_step.
  split; [by eapply asyn_then|]. intros v [= <-]. exists st. split; [|done]. cbn [upstreamIdentity].
  match goal with H : sameAuthority _ _ = true |- _ => apply sameAuthority_true in H as (Hid & Hm & Hl) end.
  cbn [view view_id view_mode view_identityLabel] in *. split.
  - exists st0. split; [by exists cookie|done].
  - exists s1. split; [done|]. split; [by exists cookie|done].
  - congruence.
  - by apply Hu.
  - match goal with H : identityMatches (view st) _ = true |- _ => by apply identityMatches_true in H end.
Qed.

Lemma wp_requireAuthentication {B} request assertions (l : Locals B) s : auth_ok o (comp s) →
  wp (requireAuthentication h hash turn options request assertions l) (λ r s', asyn o s s' ∧
    ((∃ l' st, r = Ok (Next l') ∧ authenticated request assertions s s' st (local_identity l') ∧
       local_session l' = Some (view st) ∧ local_route l' = local_route l) ∨
     r = Ok (Reply 401 (js "authentication_required")))) s.
Proof.
  intros Hok. unfold requireAuthentication. do 2 wp_step. eapply wp_mono; [by apply wp_resolve|].
  intros [[v|]|e] s1 [K1 Hv]; wp_step; (split; [done|]); [|by right..].
  destruct (Hv _ eq_refl) as (st & Hst & Hview). left. exists (Build_Locals (Some (authSession v)) (upstreamIdentity v) (local_route l)), st.
  cbn [local_session local_identity local_route]. by rewrite Hview.
Qed.

(** The service vouches at [s] for the token [csrf] of the session [session]. *)
Definition csrf_vouched (session csrf : jsstr) s : Prop :=
  ∃ g s1 x, in_force h session g s ∧ comp s1 = comp s ∧
    h (Csrf_verify (AuthService.csrf (get_session (comp s) g)) (Some csrf)) (comp s1) (world s1) = (Ok true, x).

Lemma wp_verifyCsrf session csrf s : auth_ok o (comp s) →
  wp (verifyCsrf h session (Some csrf)) (λ r s', syn o s s' ∧ (r = Ok true → csrf_vouched session csrf s ∧ comp s' = comp s)) s.
Proof.
  intros Hok. apply wp_and; [by apply sync_verifyCsrf|]. unfold verifyCsrf. wp_step.
  apply wp_find; [intros g Hg|intros _; by wp_step]. wp_step.
  apply (wp_expire h o g); [done|by eapply live_tidy, found_live|intros; by wp_step| |done].
  intros n s1 Hn He K1. wp_step. apply wp_own.
  apply (wp_call resp h (Csrf_verify _ (Some csrf))). intros r c w Hh.
  pose proof (env_allowed _ _ _ _ _ _ Hh) as Hc. intros ->. cbn in Hc |- *. subst c. split; [|done].
  exists g, s1, (comp s1, w). rewrite K1 in *. split_and!; [split; [done|by exists n]|done|exact Hh].
Qed.

(** What [requireMutationSecurity] checks of a request alone. *)
Definition mutation_request (request : Request) : Prop :=
  oneBoundedHeader (req_rawHeaders request) (js "origin") 2048 headerAsciiPattern = Some (m_publicOrigin options) ∧
  (method request = js "DELETE" ∨ hasJsonContentType (req_rawHeaders request) = true).

Lemma wp_requireMutation {B} request (l : Locals B) s : auth_ok o (comp s) →
  wp (requireMutationSecurity h options request l) (λ r s', syn o s s' ∧
    (∀ l', r = Ok (Next l') → l' = l ∧ comp s' = comp s ∧ mutation_request request ∧
      ∃ session csrf, local_session l = Some session ∧
        oneBoundedHeader (req_rawHeaders request) CSRF_HEADER_NAME MAX_CSRF_BYTES visibleAsciiPattern = Some csrf ∧
        csrf_vouched (view_id session) csrf s) ∧
    ∀ code e, r = Ok (Reply code e) → code = 403 ∨ code = 415) s.
Proof.
  intros Hok. unfold requireMutationSecurity.
  assert (∀ (code : Z) (e : jsstr), code = 403 ∨ code = 415 → (λ r s', syn o s s' ∧
    (∀ l', r = Ok (Next l') → l' = l ∧ comp s' = comp s ∧ mutation_request request ∧
      ∃ session csrf, local_session l = Some session ∧
        oneBoundedHeader (req_rawHeaders request) CSRF_HEADER_NAME MAX_CSRF_BYTES visibleAsciiPattern = Some csrf ∧
        csrf_vouched (view_id session) csrf s) ∧
    ∀ code e, r = Ok (Reply code e) → code = 403 ∨ code = 415) (Ok (Reply code e) : res error (step B)) s) as Hno.
  { intros code e Hc. split_and!; [done|done|]. by intros ? ? [= <- <-]. }
  wp_step; [wp_step; apply Hno; auto|]. wp_step; [wp_step; apply Hno; auto|].
  destruct (local_session l) as [session|] eqn:Hl; [|wp_step; apply Hno; auto].
  destruct (oneBoundedHeader _ CSRF_HEADER_NAME _ _) as [csrf|] eqn:Hcsrf; [|wp_step; apply Hno; auto].
  clear Hno. wp_step. eapply wp_mono; [by apply wp_verifyCsrf|]. intros [[]|e] s1 [K1 Hv]; [| |done].
  2: { wp_step. split_and!; [done|done|]. intros ? ? [= <- <-]. auto. }
  wp_step. split_and!; [done| |done]. intros l' [= <-]. destruct (Hv eq_refl) as [Hvouch K].
  split_and!; try done; [|by exists session, csrf]. split.
  - match goal with H : negb (hasExactHeader _ _ _) = false |- _ => apply negb_false_iff, bool_decide_eq_true in H; exact H end.
  - match goal with H : negb _ && _ = false |- _ => rename H into Hm end.
    apply andb_false_iff in Hm as [Hm|Hm]; apply negb_false_iff in Hm; [left; by apply bool_decide_eq_true in Hm|by right].
Qed.

(** [touchHttpActivity] lets a request pass only while its cookie is still
    accepted for the same session. *)
Lemma wp_touchHttp {B} request (l : Locals B) s : auth_ok o (comp s) →
  wp (touchHttpActivity h hash o request l) (λ r s', syn o s s' ∧
    ((∃ l' session st, r = Ok (Next l') ∧ local_session l = Some session ∧ recognised request s st ∧
       id st = view_id session ∧ mode st = view_mode session ∧ identityLabel st = view_identityLabel session ∧
       identityMatches (view st) (local_identity l) = true ∧
       l' = Build_Locals (Some (view st)) (local_identity l) (local_route l)) ∨
     r = Ok (Reply 401 (js "authentication_required")) ∨ r = Ok (Reply 500 (js "operation_failed")))) s.
Proof.
  intros Hok. unfold touchHttpActivity. destruct (local_session l) as [session|] eqn:Hl; [|wp_step; split; [done|by right; left]].
  do 2 wp_step. eapply wp_mono; [by apply wp_authenticated|].
  intros [[v|]|e] s1 [K1 Hv]; [|wp_step; split; [done|by right; left]..].
  destruct (Hv _ eq_refl) as (st & Hst & -> & C1). wp_step; [wp_step; split; [done|by right; left]|]. breflect.
  do 2 wp_step. eapply wp_mono; [apply (sync_touch h o); by eapply syn_ok|]. intros r s2 K2. wp_step.
  split; [by etrans|]. destruct r as [[]|e]; [left|by right; right].
  match goal with H : sameAuthority _ _ = true |- _ => apply sameAuthority_true in H as (Hid & Hm & Hlab) end.
  eexists _, session, st. split_and!; try done. destruct Hst as (cookie & n & Hc & Hst).
  exists cookie. split; [done|]. by exists cookie, n.
Qed.

(** * Upgrades *)

(** The authority of a terminal socket: the same session object, by its
    generation, was accepted before and after the upstream provider answered. *)
Record upgrade_authenticated (request : Request) (assertions : Assertions) s s' (a : ApplicationSessionAuthority) : Prop := {
  up_session : ∃ st0 st s1 n u, recognised request s st0 ∧ asyn o s s1 ∧ recognised request s1 st ∧ comp s' = comp s1 ∧
    generation st = generation st0 ∧ id st = id st0 ∧ mode st = m_mode options ∧ identityLabel st = identityLabel st0 ∧
    upstream_vouches request assertions u ∧ identityMatches (view st) u = true ∧
    applicationSessionId a = id st ∧ auth_generation a = generation st ∧
    expiresAt a = Z.min (Z.min (idleExpiresAt st) (absoluteExpiresAt st)) (default (idleExpiresAt st) (upstreamExpiresAt st)) ∧
    clock_reads h s1 n ∧ n < expiresAt a;
}.
Lemma accepted_before s raw st : auth_ok o (comp s) → accepted h o hash s raw st →
  ∃ n, clock_reads h s n ∧ n < idleExpiresAt st ∧ n < absoluteExpiresAt st ∧ ∀ u, upstreamExpiresAt st = Some u → n < u.
Proof.
  intros Hok (c & n & _ & _ & _ & Hi & Hh & Hn & ? & ? & ?).
  destruct (ok_by_id _ _ Hok _ _ Hi) as (st' & Hst' & _ & _ & _ & Hlife & _).
  assert (st' = st) as -> by congruence. exists n. destruct Hlife as (? & ?). split_and!; try done; lia.
Qed.
Lemma wp_upgrade request assertions s : auth_ok o (comp s) →
  wp (authenticate_upgrade h hash turn options request assertions) (λ r s', asyn o s s' ∧
    ∃ a, r = Ok a ∧ ∀ v, a = Some v → upgrade_authenticated request assertions s s' v) s.
Proof.
  intros Hok. unfold authenticate_upgrade. wp_step.
  assert (∀ s', asyn o s s' → asyn o s s' ∧ ∃ a, Ok None = (Ok a : res error (option ApplicationSessionAuthority)) ∧
    ∀ v, a = Some v → upgrade_authenticated request assertions s s' v) as Hno by (intros s' A; split; [done|by exists None]).
  unfold resolveUpgradeAuthentication. destruct (readSessionCookie _) as [cookie|] eqn:Hc; [|wp_step; by apply Hno].
  wp_step. eapply wp_mono; [by apply wp_authenticated|]. intros [[v0|]|e] s0 [K0 Hv0]; [|wp_step; by apply Hno, syn_asyn..].
  destruct (Hv0 _ eq_refl) as (st0 & Hst0 & -> & C0). wp_step; [wp_step; by apply Hno, syn_asyn|].
  breflect. wp_step. apply wp_await. pose proof (asyn_turn Await_upstream _ _ C0) as A1. set (s1 := turn _ s0) in *.
  pose proof (asyn_ok o _ _ A1 Hok) as Hok1.
  wp_step. eapply wp_mono; [apply wp_currentUpstream|]. intros [u|e] s1' [-> Hu]; [|wp_step; by apply Hno].
  wp_step; [wp_step; by apply Hno|]. wp_step.
  eapply wp_mono; [by apply wp_authenticated|]. intros [[v2|]|e] s2 [K2 Hv2]; [|wp_step; apply Hno; by eapply asyn_then..].
  destruct (Hv2 _ eq_refl) as (st & Hst & -> & C2). cbn zeta.
  wp_step; [wp_step; apply Hno; by eapply asyn_then|]. breflect. wp_step.
  split; [by eapply asyn_then|]. eexists. split; [reflexivity|]. intros v [= <-]. split. cbn [authorityView authority_session authority_generation] in *.
  match goal with H : sameAuthority _ _ = true |- _ => apply sameAuthority_true in H as (Hid & Hm & Hl) end.
  cbn [view view_id view_mode view_identityLabel view_idleExpiresAt view_absoluteExpiresAt view_upstreamExpiresAt] in *.
  destruct (accepted_before _ _ _ Hok1 Hst) as (n & Hn & B1 & B2 & B3).
  exists st0, st, s1, n, u. cbn [applicationSessionId auth_generation expiresAt]. split_and!; try done;
    [by exists cookie|by exists cookie|congruence|by apply Hu|..].
  - destruct (upstreamExpiresAt st); cbn; lia.
  - destruct (upstreamExpiresAt st) as [x|] eqn:Hx; [specialize (B3 _ eq_refl)|]; lia.
Qed.

Lemma wp_contained (m : M (sys auth W ev) error bool) (Q : sys auth W ev → sys auth W ev → Prop) s :
  wp m (λ r s', syn o s s' ∧ (r = Ok true → Q s s')) s →
  wp (catch m (λ _, ret false)) (λ r s', syn o s s' ∧ ∃ b, r = Ok b ∧ (b = true → Q s s')) s.
Proof.
  intros Hm. wp_step. eapply wp_mono; [exact Hm|]. intros [b|e] s' [K HQ]; [|wp_step]; (split; [done|]).
  - exists b. split; [done|]. intros ->. by apply HQ.
  - by exists false.
Qed.
(** The session object [g] was in force under its id. *)
Lemma wp_active session g s : auth_ok o (comp s) →
  wp (isActiveAuthority h session g) (λ r s', syn o s s' ∧ (r = Ok true → in_force h session g s ∧ comp s' = comp s)) s.
Proof.
  intros Hok. apply wp_and; [by apply sync_isActive|]. unfold isActiveAuthority. wp_step.
  apply wp_find; [intros g' Hg|intros _; by wp_step]. wp_step. apply wp_own. wp_step; [by wp_step|]. breflect. wp_step.
  destruct (live_session o _ _ Hok (found_live _ _ _ Hg)) as (_ & _ & _ & Hgen & _).
  assert (g' = g) as -> by congruence.
  apply (wp_expire h o g); [done|by eapply live_tidy, found_live|intros; by wp_step| |done].
  intros n s1 Hn He K1. wp_step. intros _. split; [split; [done|by exists n]|done].
Qed.
Lemma wp_touch_input session g s : auth_ok o (comp s) →
  wp (touchAuthority h o session g terminal_input) (λ r s', syn o s s' ∧
    (r = Ok true → in_force h session g s ∧ jm_get session (byId (comp s')) = Some g)) s.
Proof.
  intros Hok. apply wp_and; [by apply sync_touchAuthority|]. unfold touchAuthority. wp_step.
  apply wp_find; [intros g' Hg|intros _; by wp_step]. wp_step. apply wp_own. wp_step; [by wp_step|]. breflect. wp_step.
  destruct (live_session o _ _ Hok (found_live _ _ _ Hg)) as (_ & _ & _ & Hgen & _).
  assert (g' = g) as -> by congruence.
  apply (wp_expire h o g); [done|by eapply live_tidy, found_live|intros; by wp_step| |done].
  intros n s1 Hn He K1. wp_step. assert (live (comp s1) g) as Hlive by (rewrite K1; by eapply found_live).
  eapply wp_mono; [by apply (wp_touch_now h o)|].
  intros [u|e] s2 _; [|done]. apply wp_own. intros [= Hb]. breflect. split; [split; [done|by exists n]|done].
Qed.
End facts.

(** C20: A terminal socket's authority is never handed out on an exception, and
    only for a session object that the cookie of the request named before and
    after the upstream provider answered: same generation, id, label and the
    configured mode, with the upstream identity of this very request; its
    expiry is the earliest of the session's deadlines and lies ahead.  The
    check of an authority and the use of input answer without throwing, and
    positively only while exactly that session object is registered and
    unexpired; input leaves it registered. *)
Theorem upgrade_authority_sound `{Platform, LowerCase, !UrlParser, !ProxyLibraries} {W : Type}
    (h : @handler auth W ev error resp) (hash : jsstr → jsstr) (o : AuthServiceOptions) `{!AuthEnv o h}
    (turn : wait → sys auth W ev → sys auth W ev) (options : AuthMiddlewareOptions) request assertions a (s : sys auth W ev) :
  (∀ w s, asyn o s (turn w s)) → auth_ok o (comp s) →
  (∃ x s', authenticate_upgrade h hash turn options request assertions s = (Ok x, s') ∧ asyn o s s' ∧
     ∀ v, x = Some v → upgrade_authenticated h hash o options request assertions s s' v) ∧
  (∃ b s', safeAuthorityCheck h a s = (Ok b, s') ∧ syn o s s' ∧
     (b = true → in_force h (applicationSessionId a) (auth_generation a) s ∧ comp s' = comp s)) ∧
  (∃ b s', touchInput h o a s = (Ok b, s') ∧ syn o s s' ∧
     (b = true → in_force h (applicationSessionId a) (auth_generation a) s ∧
        jm_get (applicationSessionId a) (byId (comp s')) = Some (auth_generation a))).
Proof.
  intros turn_ok Hok. split_and!.
  - pose proof (wp_upgrade h hash o turn turn_ok options request assertions s Hok) as Hw. unfold wp in Hw.
    destruct (authenticate_upgrade _ _ _ _ _ _ _) as [r s']. cbn [fst snd] in Hw. destruct Hw as (A & x & -> & Hx). by exists x, s'.
  - pose proof (wp_contained o _ (λ s s', in_force h (applicationSessionId a) (auth_generation a) s ∧ comp s' = comp s) s
      (wp_active h o (applicationSessionId a) (auth_generation a) s Hok)) as Hw.
    unfold wp in Hw. fold (safeAuthorityCheck h a) in Hw.
    destruct (safeAuthorityCheck _ _ _) as [r s']. cbn [fst snd] in Hw. destruct Hw as (A & x & -> & Hx). by exists x, s'.
  - pose proof (wp_contained o _ (λ s s', in_force h (applicationSessionId a) (auth_generation a) s ∧
      jm_get (applicationSessionId a) (byId (comp s')) = Some (auth_generation a)) s
      (wp_touch_input h o (applicationSessionId a) (auth_generation a) s Hok)) as Hw.
    unfold wp in Hw. fold (touchInput h o a) in Hw.
    destruct (touchInput _ _ _ _) as [r s']. cbn [fst snd] in Hw. destruct Hw as (A & x & -> & Hx). by exists x, s'.
Qed.

(** * A local session *)

Definition sample_http_options : AuthMiddlewareOptions :=
  {| m_mode := mode_local; m_publicOrigin := js "https://t.example"; cloudflareAccessProvider := None;
     trustedHeaderProvider := None |}.
Definition sample_cookie_request : Request :=
  {| method := js "POST";
     req_rawHeaders := [js "Origin"; js "https://t.example"; js "Content-Type"; js "application/json";
       js "Cookie"; SESSION_COOKIE_NAME ++ js "=" ++ sample_cookie; js "X-CSRF-Token"; js "t"];
     req_headers := []; req_headersDistinct := None; req_remoteAddress := None |}.
Definition no_assertions : Assertions := {| provider_clock := None; provider_verifier := λ _ _, None |}.
Definition sample_authority : ApplicationSessionAuthority :=
  {| applicationSessionId := sample_session; auth_generation := 1; expiresAt := 1000 |}.
#[local] Existing Instance sample_env.
Theorem upgrade_authority_sound_witness :
  let _ := sample_platform in let _ := ascii_lower_case in let _ := sample_provider_urls in let _ := sample_libraries in
  (∃ s', authenticate_upgrade sample_handler (λ s, s) (λ _ s, s) sample_http_options sample_cookie_request no_assertions
      sample_after = (Ok (Some sample_authority), s') ∧
    upgrade_authenticated sample_handler (λ s, s) sample_options sample_http_options sample_cookie_request no_assertions
      sample_after s' sample_authority) ∧
  in_force sample_handler sample_session 1 sample_after.
Proof.
  intros pl lo u li.
  destruct (upgrade_authority_sound sample_handler (λ s, s) sample_options (λ _ s, s) sample_http_options
    sample_cookie_request no_assertions sample_authority sample_after (λ _ s, ltac:(apply rtc_refl)) sample_after_ok)
    as ((x & s' & Hx & _ & Ha) & (b & s2 & Hb & _ & Hf) & _). split.
  - assert (x = Some sample_authority) as ->.
    { apply (f_equal (λ x, match x.1 with Ok r => r | Throw _ => None end)) in Hx. cbn [fst] in Hx. rewrite <-Hx. by vm_compute. }
    exists s'. split; [exact Hx|]. by apply Ha.
  - assert (b = true) as ->.
    { apply (f_equal (λ x, match x.1 with Ok r => r | Throw _ => false end)) in Hb. cbn [fst] in Hb. rewrite <-Hb. by vm_compute. }
    by apply Hf.
Defined.
