(* ===== verification/Routes.v ===== *)
(** What the HTTP routers share: requests and responses, chains of handlers,
    the body parser and the calls to the services behind the routes.

    Express is outside: it matches the path, runs the chain of the route in
    order, and passes what a handler throws, rejects with or gives to [next]
    to the router's error handler.  The body parser is outside too: a request
    comes with its outcome.  Of the response the status, the body and the
    cookies are modelled. *)
From S2P Require Import Prelude JsMap SafeString Json Headers Origin Upstream Settings WsAuthIndex AuthService AuthFacts AuthSafety.
From S2P Require Import AuthMiddleware MiddlewareFacts.
Open Scope Z_scope.

(** * Requests and responses *)

(** An error of [express.json], by the properties that are looked at. *)
Record parser_error := { error_type : option jsstr; error_code : option jsstr; error_status : option Z }.
Inductive body_outcome := Parsed (v : option json) | Parse_failed (e : parser_error).
Record HttpRequest := {
  http_request : Request;
  assertions : Assertions;
  originalUrl : jsstr;
  baseUrl : jsstr;
  params_id : jsstr;
  req_body : body_outcome;
  ip : option jsstr;
}.
Inductive reply := Empty | Error_body (code : jsstr) | Json (v : json).
Record Response := { status : Z; body : reply; set_cookies : list jsstr }.
Definition sendError (code : Z) (e : jsstr) : Response := {| status := code; body := Error_body e; set_cookies := [] |}.
Definition json_response (code : Z) (v : json) : Response := {| status := code; body := Json v; set_cookies := [] |}.

Definition parsed_body (r : HttpRequest) : option json :=
  match req_body r with Parsed v => v | Parse_failed _ => None end.
Definition ends_with (suf s : jsstr) : bool :=
  (length suf <=? length s)%nat && bool_decide (drop (length s - length suf) s = suf).
(** [originalUrl.split('?', 1)[0].includes('%')] *)
Definition hasEncodedPath (r : HttpRequest) : bool :=
  bool_decide (37 ∈ match split 63 (originalUrl r) with p :: _ => p | [] => [] end).
Definition hasCanonicalApiMount (r : HttpRequest) : bool := ends_with (js "/api") (baseUrl r).

Definition INVALID_BODY_ERROR_TYPES : list jsstr :=
  js <$> ["charset.unsupported"; "encoding.unsupported"; "entity.parse.failed"; "entity.too.large";
          "entity.verify.failed"; "request.aborted"; "request.size.invalid"]%string.
Definition INVALID_COMPRESSION_ERROR_CODES : list jsstr :=
  js <$> ["Z_BUF_ERROR"; "Z_DATA_ERROR"; "Z_NEED_DICT"]%string.
Definition starts_with (pre s : jsstr) : bool := bool_decide (take (length pre) s = pre).
Definition isBodyParserClientError (e : parser_error) : bool :=
  match error_type e with Some t => bool_decide (t ∈ INVALID_BODY_ERROR_TYPES) | None => false end ||
  match error_code e with
  | Some c => bool_decide (c ∈ INVALID_COMPRESSION_ERROR_CODES) || starts_with (js "ERR__ERROR_FORMAT_") c
  | None => false
  end.

(** * Services *)

(** The methods behind the routes; views are the JSON that they answer with. *)
Inductive service_call :=
| Store_create (displayName : option jsstr)
| Store_rename (id displayName : jsstr)
| Store_reorder (structureRevision : Z) (ids : list jsstr)
| Sessions_collectionView
| Sessions_view (id : jsstr)
| Sessions_terminate (id : jsstr)
| Sessions_recreate (id : jsstr)
| Sessions_restart (id : jsstr)
| Sessions_restartBridge (id : jsstr)
| Sessions_closeTab (id : jsstr)
| Settings_snapshot
| Settings_replace (s : WorkspaceSettings)
| Admin_snapshot
| Admin_recordLifecycleError (id error : jsstr)
| Admin_clearLifecycleError (id : jsstr)
| Cleanup_runNow
| Ensure_workspace.
Inductive replace_state := not_committed | committed | committed_durability_uncertain.
Definition service_resp (c : service_call) : Type :=
  match c with
  | Store_create _ => jsstr
  | Settings_snapshot => WorkspaceSettings
  | Settings_replace _ => replace_state
  | Store_rename _ _ | Store_reorder _ _ | Sessions_closeTab _ | Admin_recordLifecycleError _ _
  | Admin_clearLifecycleError _ | Ensure_workspace => unit
  | _ => json
  end.
(** Called without [await] *)
Definition immediate (c : service_call) : bool :=
  match c with
  | Settings_snapshot | Admin_recordLifecycleError _ _ | Admin_clearLifecycleError _ => true
  | _ => false
  end.

(** What a route may throw. *)
Inductive thrown :=
| InvalidRequestError
| AuthenticationRequiredError
| AuthenticationFailedError
| CleanupDisabledError
| TabStoreError (code : jsstr)
| SessionManagerError (code : jsstr)
| Other_error.

(** * Chains of handlers *)

Section chains.
Context {W T : Type} (turn : wait → sys auth W ev → sys auth W ev)
  (services : @handler unit T service_call thrown service_resp).
Abbreviation SM := (M (sys auth W ev) error).
Abbreviation RM := (M (sys auth W ev * sys unit T service_call) thrown).

(** A method of the authentication service; what it throws is none of the
    route's own errors. *)
Definition on_auth {A} (m : SM A) : RM A := λ p,
  let '(r, s) := m p.1 in
  (match r with Ok a => Ok a | Throw _ => Throw Other_error end, (s, p.2)).
Definition perform (c : service_call) : RM (service_resp c) := λ p,
  let '(r, t) := call service_resp services c p.2 in
  (r, (if immediate c then p.1 else turn Await_service p.1, t)).

Fixpoint run_chain {B} (handlers : list (Locals B → RM (step B))) (final : Locals B → RM Response) (l : Locals B)
    : RM Response :=
  match handlers with
  | [] => final l
  | f :: handlers =>
      let! r := f l in
      match r with Next l => run_chain handlers final l | Reply code e => ret (sendError code e) end
  end.
(** The error handler of a router *)
Definition route (mapError : thrown → Z * jsstr) (m : RM Response) : RM Response :=
  catch m (λ e, ret (sendError (mapError e).1 (mapError e).2)).

(** [parseRequestBody(express.json(...))] *)
Definition parseRequestBody {B} (client_error : parser_error → bool) (r : HttpRequest) (l : Locals B) : RM (step B) :=
  do! on_auth (await_turn turn Await_body) in
  match req_body r with
  | Parsed _ => ret (Next l)
  | Parse_failed e => throw (if client_error e then InvalidRequestError else Other_error)
  end.
(** [validateBody(schema)] and the like: [keep] stores the parsed value. *)
Definition validated {B X} (parsed : option X) (keep : X → B → B) (l : Locals B) : RM (step B) :=
  match parsed with
  | Some x => ret (Next (set_route (keep x (local_route l)) l))
  | None => throw InvalidRequestError
  end.
End chains.

(** * Properties

    Chains of handlers: what a route's last handler may rely on. *)

Section chains.
Context {W T : Type} (turn : wait → sys auth W ev → sys auth W ev)
  (services : @handler unit T service_call thrown service_resp).
Abbreviation state := (sys auth W ev * sys unit T service_call)%type.
Abbreviation RM := (M state thrown).

Lemma wp_on_auth {A} (m : M (sys auth W ev) error A) (Q : res thrown A → state → Prop) s t :
  wp m (λ r s', Q (match r with Ok a => Ok a | Throw _ => Throw Other_error end) (s', t)) s → wp (on_auth m) Q (s, t).
Proof. unfold wp, on_auth. cbn [fst snd]. by destruct (m s) as [[]]. Qed.
Lemma wp_perform c (Q : res thrown (service_resp c) → state → Prop) s t :
  (∀ r w, services c (comp t) (world t) = (r, (tt, w)) →
     Q r (if immediate c then s else turn Await_service s, Sys tt w (log t ++ [(c, is_ok r)]))) →
  wp (perform turn services c) Q (s, t).
Proof.
  intros HQ. unfold wp, perform, call. cbn [fst snd].
  destruct (services c (comp t) (world t)) as [r [[] w]] eqn:Hs. by apply HQ.
Qed.
(** One call of a service: its answer, and the services after it. *)
Definition called (c : service_call) (t : sys unit T service_call) (r : res thrown (service_resp c))
    (t' : sys unit T service_call) : Prop :=
  ∃ w, services c (comp t) (world t) = (r, (tt, w)) ∧ t' = Sys tt w (log t ++ [(c, is_ok r)]).
Lemma wp_called c (Q : res thrown (service_resp c) → state → Prop) s t :
  (∀ r t', called c t r t' → Q r (if immediate c then s else turn Await_service s, t')) →
  wp (perform turn services c) Q (s, t).
Proof. intros HQ. apply wp_perform. intros r w Hr. apply HQ. by exists w. Qed.
Lemma wp_chain {B} (f : Locals B → RM (step B)) fs final l (Q : res thrown Response → state → Prop) p :
  wp (f l) (λ r p', match r with
    | Ok (Next l') => wp (run_chain fs final l') Q p'
    | Ok (Reply code e) => Q (Ok (sendError code e)) p'
    | Throw e => Q (Throw e) p'
    end) p → wp (run_chain (f :: fs) final l) Q p.
Proof.
  intros Hf. cbn [run_chain]. apply wp_bind. eapply wp_mono; [exact Hf|]. intros [[l'|code e]|e] p' Hp'; [done| |done].
  by apply wp_ret.
Qed.
(** Relations that the handlers of a list establish, one after the other. *)
Fixpoint through {B} (Rs : list (B → B → Prop)) (b b' : B) : Prop :=
  match Rs with [] => b' = b | R :: Rs => ∃ b1, R b b1 ∧ through Rs b1 b' end.
End chains.

Section guards.
Context `{Platform, LowerCase, !UrlParser, !ProxyLibraries} {W T : Type} (h : @handler auth W ev error resp)
  (hash : jsstr → jsstr) (o : AuthServiceOptions) `{!AuthEnv o h} (turn : wait → sys auth W ev → sys auth W ev)
  (turn_ok : ∀ w s, asyn o s (turn w s)) (services : @handler unit T service_call thrown service_resp)
  (options : AuthMiddlewareOptions).
Context {B : Type} (request : Request) (asserted_by : Assertions).
Implicit Types (s : sys auth W ev) (t : sys unit T service_call).
Abbreviation state := (sys auth W ev * sys unit T service_call)%type.
Abbreviation RM := (M state thrown).

(** What holds when the last handler of a route starts at [s1], for a request
    that arrived at [s]: the session [st] was recognised at an instant in
    between, after the upstream provider answered, and for a mutation the CSRF
    service vouched for that session in between too. *)
Record guarded (mutation : bool) s s1 (l : Locals B) : Prop := {
  gu_session : ∃ st s', asyn o s s' ∧ asyn o s' s1 ∧ recognised h hash o request s' st ∧
    local_session l = Some (view st) ∧ mode st = m_mode options ∧
    identityMatches (view st) (local_identity l) = true ∧ upstream_vouches options request asserted_by (local_identity l);
  gu_mutation : mutation = true → mutation_request options request ∧ ∃ session csrf s', asyn o s s' ∧ asyn o s' s1 ∧
    local_session l = Some session ∧
    oneBoundedHeader (req_rawHeaders request) CSRF_HEADER_NAME MAX_CSRF_BYTES visibleAsciiPattern = Some csrf ∧
    csrf_vouched h (view_id session) csrf s';
}.

(** A handler that calls no service and leaves the session alone. *)
Definition benign (R : B → B → Prop) (f : Locals B → RM (step B)) : Prop := ∀ l s t, auth_ok o (comp s) →
  wp (f l) (λ r p', asyn o s p'.1 ∧ p'.2 = t ∧ match r with
    | Ok (Next l') => local_session l' = local_session l ∧ local_identity l' = local_identity l ∧
                      R (local_route l) (local_route l')
    | Ok (Reply code e) => 400 <= code
    | Throw _ => True
    end) (s, t).

(** The chain ended without its last handler, or with it. *)
Definition chain_post (mutation : bool) (Rs : list (B → B → Prop)) (final : Locals B → RM Response) (b : B) s t
    (r : res thrown Response) (p' : state) : Prop :=
  (asyn o s p'.1 ∧ p'.2 = t ∧ ∀ resp, r = Ok resp → 400 <= status resp ∧ set_cookies resp = []) ∨
  ∃ l s1, guarded mutation s s1 l ∧ through Rs b (local_route l) ∧ asyn o s s1 ∧ final l (s1, t) = (r, p').

Lemma refuse_post mutation Rs final b s t s' code e : asyn o s s' → 400 <= code →
  chain_post mutation Rs final b s t (Ok (sendError code e)) (s', t).
Proof. intros Ha Hc. left. split; [done|]. split; [done|]. by intros resp [= <-]. Qed.

(** The session of the locals, at the end of the guards that look at it. *)
Definition authed s s1 (st : Stored) (l : Locals B) : Prop :=
  asyn o s s1 ∧ local_session l = Some (view st) ∧ mode st = m_mode options ∧
  upstream_vouches options request asserted_by (local_identity l).
Definition csrf_checked (mutation : bool) s s1 (st : Stored) : Prop :=
  mutation = true → mutation_request options request ∧ ∃ csrf s', asyn o s s' ∧ asyn o s' s1 ∧
    oneBoundedHeader (req_rawHeaders request) CSRF_HEADER_NAME MAX_CSRF_BYTES visibleAsciiPattern = Some csrf ∧
    csrf_vouched h (id st) csrf s'.

Lemma wp_last_touch mutation final b s s1 t st l : auth_ok o (comp s) → authed s s1 st l → csrf_checked mutation s s1 st →
  local_route l = b →
  wp (run_chain [λ l, on_auth (touchHttpActivity h hash o request l)] final l) (chain_post mutation [] final b s t) (s1, t).
Proof.
  intros Hok (Ha & Hl & Hm & Hu) Hc <-. apply wp_chain, wp_on_auth.
  eapply wp_mono; [apply (wp_touchHttp h hash o); by eapply asyn_ok|].
  intros r s2 [K2 [(l' & session & st' & -> & Hs & Hrec & Hid & Hmode & Hlab & Him & ->) | [-> | ->]]];
    [|apply refuse_post; [by eapply asyn_then|lia]..].
  rewrite Hl in Hs. injection Hs as <-. cbn [view view_id view_mode view_identityLabel] in Hid, Hmode, Hlab.
  cbn [run_chain]. right. exists (Build_Locals (Some (view st')) (local_identity l) (local_route l)), s2. split; [|split; [reflexivity|split; [by eapply asyn_then|apply surjective_pairing]]].
  split; cbn [local_session local_identity].
  - exists st', s1. split_and!; try done; [by apply syn_asyn|congruence].
  - intros Hmut. destruct (Hc Hmut) as (Hreq & csrf & s' & A1 & A2 & Hh & Hv). split; [done|].
    exists (view st'), csrf, s'. cbn [view view_id]. rewrite Hid. split_and!; try done. by eapply asyn_then.
Qed.
Lemma wp_middle mutation final Rs middle : Forall2 benign Rs middle → ∀ b s s1 t st l,
  auth_ok o (comp s) → authed s s1 st l → csrf_checked mutation s s1 st → local_route l = b →
  wp (run_chain (middle ++ [λ l, on_auth (touchHttpActivity h hash o request l)]) final l)
    (chain_post mutation Rs final b s t) (s1, t).
Proof.
  induction 1 as [|R f Rs fs Hf _ IH]; intros b s s1 t st l Hok Hau Hc Hb.
  { by eapply wp_last_touch. }
  cbn [app]. apply wp_chain. destruct Hau as (Ha & Hl & Hm & Hu).
  eapply wp_mono; [apply (Hf l s1 t); by eapply asyn_ok|].
  intros r [s2 t'] (A & Ht & Hr); cbn [fst snd] in *; subst t'; destruct r as [[l'|code e]|e].
  - destruct Hr as (Hs & Hi & HR). eapply wp_mono; [eapply (IH (local_route l') s s2 t st l'); try done|].
    + split_and!; [by etrans|congruence|done|congruence].
    + intros Hmut. destruct (Hc Hmut) as (? & csrf & s' & ? & ? & ? & ?). split; [done|]. exists csrf, s'.
      split_and!; try done. by etrans.
    + intros r p' [Hp|(l2 & s3 & Hg & Ht & Has & Hfin)]; [by left|]. right. exists l2, s3. split_and!; try done.
      exists (local_route l'). by rewrite <-Hb.
  - apply refuse_post; [by etrans|done].
  - left. split; [by etrans|]. split; [done|]. done.
Qed.

(** The chain of a route that needs a session. *)
Definition guards (mutation : bool) (middle : list (Locals B → RM (step B))) : list (Locals B → RM (step B)) :=
  (λ l, on_auth (requireAuthentication h hash turn options request asserted_by l)) ::
  (if mutation then [λ l, on_auth (requireMutationSecurity h options request l)] else []) ++
  middle ++ [λ l, on_auth (touchHttpActivity h hash o request l)].
Lemma wp_guards mutation Rs middle final l s t : Forall2 benign Rs middle → auth_ok o (comp s) →
  wp (run_chain (guards mutation middle) final l) (chain_post mutation Rs final (local_route l) s t) (s, t).
Proof.
  intros Hmid Hok. unfold guards. apply wp_chain, wp_on_auth.
  eapply wp_mono; [by apply (wp_requireAuthentication h hash o turn turn_ok options)|].
  intros r s1 [A1 [(l' & st & -> & Hau & Hl & Hr) | ->]]; [|apply refuse_post; [done|lia]].
  assert (authed s s1 st l') as Hauthed by (split_and!; [done..|apply Hau|apply Hau]).
  pose proof (asyn_ok o _ _ A1 Hok) as Hok1. destruct mutation; cbn [app].
  - apply wp_chain, wp_on_auth. eapply wp_mono; [by apply (wp_requireMutation h o options)|].
    intros [[l''|code e]|e] s2 [K2 Hn].
    + destruct Hn as [Hn _]. destruct (Hn _ eq_refl) as (-> & Hc2 & Hreq & session & csrf & Hs & Hcs & Hv).
      rewrite Hl in Hs. injection Hs as <-. cbn [view view_id] in Hv.
      eapply wp_middle; [done|done| | |done].
      * destruct Hauthed as (? & ? & ? & ?). split_and!; [by eapply asyn_then|done..].
      * intros _. split; [done|]. exists csrf, s1. split_and!; [done|by apply syn_asyn|done..].
    + apply refuse_post; [by eapply asyn_then|destruct (proj2 Hn code e eq_refl); lia].
    + left. split; [by eapply asyn_then|]. done.
  - by eapply wp_middle.
Qed.
End guards.
