(* ===== verification/TabRoutes.v ===== *)
(** [apps/server/src/tab-routes.ts]: the routes of the tabs and their sessions,
    with the body schemas of [packages/shared/src/tabs.ts].

    A route is one of the router's registrations; matching a path against
    them is Express's. *)
From S2P Require Import Prelude JsMap SafeString Json Tabs Headers Origin Upstream Settings WsAuthIndex AuthService AuthFacts AuthSafety.
From S2P Require Import UpstreamFacts AuthMiddleware MiddlewareFacts Routes.
Open Scope Z_scope.

Inductive tab_body :=
| Create_body (displayName : option jsstr)
| Rename_body (displayName : jsstr)
| Reorder_body (structureRevision : Z) (ids : list jsstr)
| Empty_body.
Record tab_locals := { validatedTabBody : option tab_body; validatedTabId : option jsstr }.
Definition no_tab_locals : tab_locals := {| validatedTabBody := None; validatedTabId := None |}.
Definition keep_body (b : tab_body) (l : tab_locals) : tab_locals :=
  {| validatedTabBody := Some b; validatedTabId := validatedTabId l |}.
Definition keep_id (i : jsstr) (l : tab_locals) : tab_locals :=
  {| validatedTabBody := validatedTabBody l; validatedTabId := Some i |}.

Section schemas.
Context `{Platform}.

Definition createTabBodySchema (v : json) : option tab_body :=
  fs ← strict_object [js "displayName"] v;
  match field (js "displayName") fs with
  | None => Some (Create_body None)
  | Some v => s ← as_string v; n ← displayNameSchema s; Some (Create_body (Some n))
  end.
Definition renameTabBodySchema (v : json) : option tab_body :=
  fs ← strict_object [js "displayName"] v;
  v ← field (js "displayName") fs;
  s ← as_string v; n ← displayNameSchema s; Some (Rename_body n).
Definition tabIdSchema (s : jsstr) : option jsstr := if isSessionId s then Some s else None.
Definition reorderTabsBodySchema (v : json) : option tab_body :=
  fs ← strict_object [js "structureRevision"; js "ids"] v;
  revision ← field (js "structureRevision") fs ≫= as_int;
  ids ← field (js "ids") fs ≫= as_array;
  ids ← mapM (λ v, s ← as_string v; tabIdSchema s) ids;
  if nonnegative_int revision then Some (Reorder_body revision ids) else None.
Definition emptyBodySchema (v : json) : option tab_body := _ ← strict_object [] v; Some Empty_body.
End schemas.

(** [error.code] of a [TabStoreError] or a [SessionManagerError] *)
Definition mapError (e : thrown) : Z * jsstr :=
  match e with
  | InvalidRequestError => (400, js "invalid_request")
  | TabStoreError code | SessionManagerError code =>
      if bool_decide (code = js "tab_not_found") then (404, code)
      else if bool_decide (code ∈ js <$> ["session_limit"; "order_conflict"; "invalid_session_state"]%string)
      then (409, code)
      else (500, js "operation_failed")
  | _ => (500, js "operation_failed")
  end.

Inductive tab_route :=
| Get_tabs | Post_tabs | Put_order | Patch_tab | Delete_tab | Get_session
| Post_terminate | Post_recreate | Post_restart | Post_restart_bridge.
(** The routes that change something *)
Definition mutates (t : tab_route) : bool := match t with Get_tabs | Get_session => false | _ => true end.

Section router.
Context `{Platform, LowerCase, UrlParser, ProxyLibraries} {W T : Type} (h : @handler auth W ev error resp)
  (hash : jsstr → jsstr) (o : AuthServiceOptions) (turn : wait → sys auth W ev → sys auth W ev)
  (services : @handler unit T service_call thrown service_resp) (options : AuthMiddlewareOptions).
Abbreviation RM := (M (sys auth W ev * sys unit T service_call) thrown).
Abbreviation handler_of := (Locals tab_locals → RM (step tab_locals)).

Definition requireAuth (r : HttpRequest) : handler_of := λ l,
  on_auth (requireAuthentication h hash turn options (http_request r) (assertions r) l).
Definition requireMutation (r : HttpRequest) : handler_of := λ l,
  on_auth (requireMutationSecurity h options (http_request r) l).
Definition touch_activity (r : HttpRequest) : handler_of := λ l,
  on_auth (touchHttpActivity h hash o (http_request r) l).
Definition parse (r : HttpRequest) : handler_of := parseRequestBody turn isBodyParserClientError r.
Definition validateBody (schema : json → option tab_body) (r : HttpRequest) : handler_of :=
  validated (parsed_body r ≫= schema) keep_body.
Definition validateId (r : HttpRequest) : handler_of := validated (tabIdSchema (params_id r)) keep_id.

Definition securedJsonMutation (r : HttpRequest) : list handler_of :=
  [requireAuth r; requireMutation r; parse r; validateId r; validateBody emptyBodySchema r; touch_activity r].
Definition handlers (t : tab_route) (r : HttpRequest) : list handler_of :=
  match t with
  | Get_tabs => [requireAuth r; touch_activity r]
  | Post_tabs => [requireAuth r; requireMutation r; parse r; validateBody createTabBodySchema r; touch_activity r]
  | Put_order => [requireAuth r; requireMutation r; parse r; validateBody reorderTabsBodySchema r; touch_activity r]
  | Patch_tab =>
      [requireAuth r; requireMutation r; parse r; validateId r; validateBody renameTabBodySchema r; touch_activity r]
  | Delete_tab => [requireAuth r; requireMutation r; validateId r; touch_activity r]
  | Get_session => [requireAuth r; validateId r; touch_activity r]
  | _ => securedJsonMutation r
  end.

Definition validatedBody (l : Locals tab_locals) : RM tab_body := of_option (validatedTabBody (local_route l)) Other_error.
Definition validatedId (l : Locals tab_locals) : RM jsstr := of_option (validatedTabId (local_route l)) Other_error.

(** The last handler of a route. *)
Definition final (t : tab_route) (l : Locals tab_locals) : RM Response :=
  match t with
  | Get_tabs => let! v := perform turn services Sessions_collectionView in ret (json_response 200 v)
  | Post_tabs =>
      let! b := validatedBody l in
      match b with
      | Create_body n =>
          let! tab := perform turn services (Store_create n) in
          let! v := perform turn services (Sessions_view tab) in
          ret (json_response 201 v)
      | _ => throw Other_error
      end
  | Put_order =>
      let! b := validatedBody l in
      match b with
      | Reorder_body revision ids =>
          do! perform turn services (Store_reorder revision ids) in
          let! v := perform turn services Sessions_collectionView in
          ret (json_response 200 v)
      | _ => throw Other_error
      end
  | Patch_tab =>
      let! i := validatedId l in
      let! b := validatedBody l in
      match b with
      | Rename_body n =>
          do! perform turn services (Store_rename i n) in
          let! v := perform turn services (Sessions_view i) in
          ret (json_response 200 v)
      | _ => throw Other_error
      end
  | Delete_tab =>
      let! i := validatedId l in
      do! perform turn services (Sessions_closeTab i) in
      ret {| status := 204; body := Empty; set_cookies := [] |}
  | Get_session =>
      let! i := validatedId l in
      let! v := perform turn services (Sessions_view i) in ret (json_response 200 v)
  | Post_terminate =>
      let! i := validatedId l in
      let! v := perform turn services (Sessions_terminate i) in ret (json_response 200 v)
  | Post_recreate =>
      let! i := validatedId l in
      let! v := perform turn services (Sessions_recreate i) in ret (json_response 200 v)
  | Post_restart =>
      let! i := validatedId l in
      let! v := perform turn services (Sessions_restart i) in ret (json_response 200 v)
  | Post_restart_bridge =>
      let! i := validatedId l in
      let! v := perform turn services (Sessions_restartBridge i) in ret (json_response 200 v)
  end.

(** A request to the router: [None] matches no route. *)
Definition tab_router (t : option tab_route) (r : HttpRequest) : RM Response :=
  if negb (hasCanonicalApiMount r) then ret (sendError 404 (js "not_found"))
  else if hasEncodedPath r then ret (sendError 400 (js "invalid_request"))
  else match t with
       | None => ret (sendError 404 (js "not_found"))
       | Some t => route mapError (run_chain (handlers t r) (final t) (Build_Locals None None no_tab_locals))
       end.
End router.

(** * Properties

    The routes of the tabs: who reaches which service, with what. *)

Definition needs_id (t : tab_route) : bool := match t with Get_tabs | Post_tabs | Put_order => false | _ => true end.
Definition has_body (t : tab_route) : bool := match t with Get_tabs | Get_session | Delete_tab => false | _ => true end.
Definition body_schema `{Platform} (t : tab_route) : option (json → option tab_body) :=
  match t with
  | Get_tabs | Get_session | Delete_tab => None
  | Post_tabs => Some createTabBodySchema
  | Put_order => Some reorderTabsBodySchema
  | Patch_tab => Some renameTabBodySchema
  | _ => Some emptyBodySchema
  end.
(** The calls of a route that succeeds; the id of a created tab is the
    store's. *)
Definition tab_calls (t : tab_route) (l : tab_locals) (created : jsstr) : list service_call :=
  let i := default [] (validatedTabId l) in
  match t, validatedTabBody l with
  | Get_tabs, _ => [Sessions_collectionView]
  | Post_tabs, Some (Create_body n) => [Store_create n; Sessions_view created]
  | Put_order, Some (Reorder_body revision ids) => [Store_reorder revision ids; Sessions_collectionView]
  | Patch_tab, Some (Rename_body n) => [Store_rename i n; Sessions_view i]
  | Delete_tab, _ => [Sessions_closeTab i]
  | Get_session, _ => [Sessions_view i]
  | Post_terminate, _ => [Sessions_terminate i]
  | Post_recreate, _ => [Sessions_recreate i]
  | Post_restart, _ => [Sessions_restart i]
  | Post_restart_bridge, _ => [Sessions_restartBridge i]
  | _, _ => []
  end.

(** Calls that were made in the order [cs], stopping at the first failure. *)
Definition performed (cs : list service_call) (ls : list (service_call * bool)) : Prop :=
  ls ≠ [] ∧ ls.*1 `prefix_of` cs ∧ ∀ k c b, ls !! k = Some (c, b) → (S k < length ls)%nat → b = true.
Definition completed (cs : list service_call) (ls : list (service_call * bool)) : Prop :=
  ls = (λ c, (c, true)) <$> cs.
(** The calls and the answer of a last handler. *)
Definition final_post (cs : list service_call) (ls : list (service_call * bool)) (r : res thrown Response) : Prop :=
  performed cs ls ∧ match r with
  | Ok resp => completed cs ls ∧ 200 <= status resp < 300 ∧ set_cookies resp = []
  | Throw _ => ∃ c, last ls = Some (c, false)
  end.
Lemma final_one c r : (∀ resp, r = Ok resp → 200 <= status resp < 300 ∧ set_cookies resp = []) →
  final_post [c] [(c, is_ok r)] r.
Proof.
  intros Hr. split; [split_and!; [done|done|]|].
  - intros [|k] c' b Hk Hlt; cbn in *; [lia|done].
  - destruct r; [split; [done|by apply Hr]|by exists c].
Qed.
Lemma final_two c1 c2 ls r : final_post [c2] ls r → final_post [c1; c2] ((c1, true) :: ls) r.
Proof.
  intros [(Hne & Hp & Hb) Hr]. split; [split_and!; [done| |]|].
  - rewrite fmap_cons. by apply prefix_cons.
  - intros [|k] c b Hk Hlt; cbn in *; [congruence|]. eapply Hb; [exact Hk|lia].
  - destruct r as [resp|e]; [destruct Hr as [-> ?]; done|]. destruct Hr as [c Hc]. exists c. destruct ls; [done|]. exact Hc.
Qed.
Lemma final_stop c cs e : final_post (c :: cs) [(c, false)] (Throw e).
Proof.
  split; [split_and!; [done|by apply prefix_cons, prefix_nil|]|by exists c].
  intros [|k] c' b Hk Hlt; cbn in *; [lia|done].
Qed.

Section facts.
Context `{Platform, LowerCase, !UrlParser, !ProxyLibraries} {W T : Type} (h : @handler auth W ev error resp)
  (hash : jsstr → jsstr) (o : AuthServiceOptions) `{!AuthEnv o h} (turn : wait → sys auth W ev → sys auth W ev)
  (turn_ok : ∀ w s, asyn o s (turn w s)) (services : @handler unit T service_call thrown service_resp)
  (options : AuthMiddlewareOptions).
Implicit Types (s : sys auth W ev) (t : sys unit T service_call).
Abbreviation state := (sys auth W ev * sys unit T service_call)%type.

Lemma parse_benign {B} client_error r :
  benign o (λ b b' : B, b' = b ∧ ∃ v, req_body r = Parsed v) 
    (parseRequestBody turn client_error r : Locals B → M state thrown (step B)).
Proof.
  intros l s t Hok. unfold parseRequestBody. apply wp_bind, wp_on_auth, wp_await.
  pose proof (turn_ok Await_body s). destruct (req_body r) as [v|e]; [apply wp_ret; split_and!; try done; by exists v|by apply wp_throw].
Qed.
Lemma validated_benign {B X} (parsed : option X) (keep : X → B → B) :
  benign o (λ b b', ∃ x, parsed = Some x ∧ b' = keep x b)
    (validated parsed keep : Locals B → M state thrown (step B)).
Proof.
  intros l s t Hok. unfold validated. destruct parsed as [x|]; [apply wp_ret|by apply wp_throw].
  split_and!; try done. cbn. by exists x.
Qed.

Lemma create_shape v b : createTabBodySchema v = Some b → ∃ n, b = Create_body n.
Proof.
  unfold createTabBodySchema. intros (fs & _ & Hb)%bind_Some. destruct (field _ fs) as [x|]; [|injection Hb as <-; by exists None].
  apply bind_Some in Hb as (y & _ & (n & _ & [= <-])%bind_Some). by exists (Some n).
Qed.
Lemma rename_shape v b : renameTabBodySchema v = Some b → ∃ n, b = Rename_body n.
Proof.
  unfold renameTabBodySchema. intros (fs & _ & (x & _ & (y & _ & (n & _ & [= <-])%bind_Some)%bind_Some)%bind_Some)%bind_Some. by exists n.
Qed.
Lemma reorder_shape v b : reorderTabsBodySchema v = Some b → ∃ n ids, b = Reorder_body n ids.
Proof.
  unfold reorderTabsBodySchema. intros (fs & _ & (x & _ & (y & _ & (ids & _ & Hb)%bind_Some)%bind_Some)%bind_Some)%bind_Some.
  case_match; [|done]. injection Hb as <-. by exists x, ids.
Qed.

(** What the validators left in the locals. *)
Definition admissible (tr : tab_route) (r : HttpRequest) (l : tab_locals) : Prop :=
  (if needs_id tr then isSessionId (params_id r) = true ∧ validatedTabId l = Some (params_id r)
   else validatedTabId l = None) ∧
  match body_schema tr with
  | Some schema => ∃ b, parsed_body r ≫= schema = Some b ∧ validatedTabBody l = Some b
  | None => validatedTabBody l = None
  end.

Lemma tabIdSchema_Some i x : tabIdSchema i = Some x → isSessionId i = true ∧ x = i.
Proof. unfold tabIdSchema. destruct (isSessionId i); [by intros [= <-]|done]. Qed.

(** The handlers of a route between the guards and the last look at the
    session, with what they establish. *)
Definition middle (tr : tab_route) (r : HttpRequest) : list (Locals tab_locals → M state thrown (step tab_locals)) :=
  (if has_body tr then [parse turn r] else []) ++
  (if needs_id tr then [validateId r] else []) ++
  match body_schema tr with Some schema => [validateBody schema r] | None => [] end.
Definition establishes (tr : tab_route) (r : HttpRequest) : list (tab_locals → tab_locals → Prop) :=
  (if has_body tr then [λ b b', b' = b ∧ ∃ v, req_body r = Parsed v] else []) ++
  (if needs_id tr then [λ b b', ∃ x, tabIdSchema (params_id r) = Some x ∧ b' = keep_id x b] else []) ++
  match body_schema tr with
  | Some schema => [λ b b', ∃ x, parsed_body r ≫= schema = Some x ∧ b' = keep_body x b]
  | None => []
  end.
Lemma handlers_guards tr r : handlers h hash o turn options tr r =
  guards h hash o turn options (http_request r) (assertions r) (mutates tr) (middle tr r).
Proof. by destruct tr. Qed.
Lemma middle_benign tr r : Forall2 (benign o) (establishes tr r) (middle tr r).
Proof.
  assert (∀ R (f : Locals tab_locals → M state thrown (step tab_locals)), benign o R f → Forall2 (benign o) [R] [f]) as H1'
    by (intros R f Hf; by apply List.Forall2_cons).
  unfold middle, establishes. repeat apply Forall2_app; case_match; try apply List.Forall2_nil; apply H1';
    [apply parse_benign|apply validated_benign..].
Qed.
Lemma through_admissible tr r b : through (establishes tr r) no_tab_locals b → admissible tr r b.
Proof.
  unfold establishes, admissible.
  destruct tr; cbn [has_body needs_id body_schema app through]; intros Hb;
    repeat match goal with
    | H : ∃ _, _ |- _ => destruct H as [? H]
    | H : _ ∧ _ |- _ => destruct H as [? H]
    end; subst; try done;
    repeat match goal with H : _ ∧ _ |- _ => destruct H as [? H] | H : tabIdSchema _ = Some _ |- _ => apply tabIdSchema_Some in H as [? ->] end; subst;
    split; try done; eexists; (split; [eassumption|done]).
Qed.
Lemma wp_handlers tr r final s t : auth_ok o (comp s) →
  wp (run_chain (handlers h hash o turn options tr r) final (Build_Locals None None no_tab_locals))
    (λ res p', asyn o s p'.1 ∧ p'.2 = t ∧ (∀ resp, res = Ok resp → 400 <= status resp ∧ set_cookies resp = []) ∨
       ∃ l s1, guarded h hash o options (http_request r) (assertions r) (mutates tr) s s1 l ∧
         admissible tr r (local_route l) ∧ asyn o s s1 ∧ final l (s1, t) = (res, p')) (s, t).
Proof.
  intros Hok. rewrite handlers_guards. eapply wp_mono; [apply (wp_guards h hash o turn turn_ok options); [apply middle_benign|done]|].
  intros res p' [?|(l & s1 & Hg & Hth%through_admissible & Ha & Hf)]; [by left|right]. by exists l, s1.
Qed.

Definition ends (cs : list service_call) s t (r : res thrown Response) (p' : state) : Prop :=
  asyn o s p'.1 ∧ ∃ ls, log p'.2 = log t ++ ls ∧ final_post cs ls r.
Lemma wp_last_call (c : service_call) (f : service_resp c → Response) s t :
  immediate c = false → (∀ v, 200 <= status (f v) < 300 ∧ set_cookies (f v) = []) →
  wp (bind (perform turn services c) (λ v, ret (f v))) (ends [c] s t) (s, t).
Proof.
  intros Hc Hf. apply wp_bind, wp_perform. rewrite Hc.
  intros [v|e] w _; [apply wp_ret|]; (split; [apply turn_ok|]); eexists; (split; [reflexivity|]); [|apply final_stop].
  apply (final_one c (Ok (f v))). by intros resp [= <-].
Qed.
Lemma wp_first_call (c1 : service_call) k (Q : res thrown Response → state → Prop) s t :
  immediate c1 = false → (∀ e s' t', asyn o s s' → log t' = log t ++ [(c1, false)] → Q (Throw e) (s', t')) →
  (∀ v s' t', asyn o s s' → log t' = log t ++ [(c1, true)] → wp (k v) Q (s', t')) →
  wp (bind (perform turn services c1) k) Q (s, t).
Proof.
  intros Hc Ht Hk. apply wp_bind, wp_perform. rewrite Hc. intros [v|e] w _; [apply Hk|apply Ht]; first [done|apply turn_ok].
Qed.
Lemma ends_two c1 c2 s t s' t' r p' : asyn o s s' → log t' = log t ++ [(c1, true)] → ends [c2] s' t' r p' → ends [c1; c2] s t r p'.
Proof.
  intros A1 Hl (A2 & ls & Hls & Hf). split; [by etrans|]. exists ((c1, true) :: ls). split; [|by apply final_two].
  by rewrite Hls, Hl, <-app_assoc.
Qed.
Lemma ends_stop c cs s t s' t' e : asyn o s s' → log t' = log t ++ [(c, false)] → ends (c :: cs) s t (Throw e) (s', t').
Proof. intros A1 Hl. split; [done|]. eexists. split; [exact Hl|apply final_stop]. Qed.

Lemma wp_final tr r l s t : admissible tr r (local_route l) →
  wp (final turn services tr l) (λ res p', ∃ created, ends (tab_calls tr (local_route l) created) s t res p') (s, t).
Proof.
  intros [Hi Hb]. unfold final, tab_calls, validatedId, validatedBody.
  destruct tr; cbn [needs_id body_schema] in Hi, Hb; try destruct Hi as [_ Hi]; try destruct Hb as (b & Hb & Hl);
    try rewrite Hi; try rewrite Hl; cbn [of_option default from_option]; repeat (apply wp_bind, wp_ret);
    try (eapply wp_mono; [by apply wp_last_call|intros res p' Hp; by exists []]).
  all: apply bind_Some in Hb as (v & _ & Hb).
  - apply create_shape in Hb as [n ->]. apply wp_first_call; [done|intros e s' t' A1 Hlog; exists []; by eapply ends_stop|].
    intros created s' t' A1 Hlog. eapply wp_mono; [by apply wp_last_call|]. intros res p' Hp. exists created. by eapply ends_two.
  - apply reorder_shape in Hb as (n & ids & ->). apply wp_first_call; [done|intros e s' t' A1 Hlog; exists []; by eapply ends_stop|].
    intros _ s' t' A1 Hlog. eapply wp_mono; [by apply wp_last_call|]. intros res p' Hp. exists []. by eapply ends_two.
  - apply rename_shape in Hb as [n ->]. apply wp_first_call; [done|intros e s' t' A1 Hlog; exists []; by eapply ends_stop|].
    intros _ s' t' A1 Hlog. eapply wp_mono; [by apply wp_last_call|]. intros res p' Hp. exists []. by eapply ends_two.
Qed.
Lemma mapError_status e : 400 <= (mapError e).1.
Proof. unfold mapError. repeat case_match; cbn; lia. Qed.

(** What became of a request to the route [tr]: refused without a call, or
    passed to the services on the authority of its session. *)
Definition routed (tr : tab_route) (r : HttpRequest) s t (resp : Response) (p' : state) : Prop :=
  (p'.2 = t ∧ 400 <= status resp) ∨
  ∃ l s1 created ls, guarded h hash o options (http_request r) (assertions r) (mutates tr) s s1 l ∧
    asyn o s s1 ∧ asyn o s1 p'.1 ∧ admissible tr r (local_route l) ∧
    log p'.2 = log t ++ ls ∧ performed (tab_calls tr (local_route l) created) ls ∧
    (200 <= status resp < 300 ∧ completed (tab_calls tr (local_route l) created) ls ∨
     400 <= status resp ∧ ∃ c, last ls = Some (c, false)).
Lemma wp_tab_router tr r s t : auth_ok o (comp s) →
  wp (tab_router h hash o turn services options (Some tr) r) (λ res p', ∃ resp, res = Ok resp ∧
    asyn o s p'.1 ∧ set_cookies resp = [] ∧ routed tr r s t resp p') (s, t).
Proof.
  intros Hok. assert (∀ code e, 400 <= code → ∃ resp, Ok (sendError code e) = (Ok resp : res thrown Response) ∧
    asyn o s s ∧ set_cookies resp = [] ∧ routed tr r s t resp (s, t)) as Hno.
  { intros code e Hc. exists (sendError code e). split_and!; try done. by left. }
  unfold tab_router. wp_step; [wp_step; by apply Hno|]. wp_step; [wp_step; by apply Hno|].
  unfold route. apply wp_catch. eapply wp_mono; [by apply wp_handlers|].
  intros res [s' t'] [(A & Ht & Hr)|(l & s1 & Hg & Hadm & A1 & Hf)]; cbn [fst snd] in *.
  - subst t'. destruct res as [resp|e].
    + destruct (Hr _ eq_refl). exists resp. split_and!; try done. by left.
    + apply wp_ret. exists (sendError (mapError e).1 (mapError e).2). split_and!; try done. left. split; [done|apply mapError_status].
  - pose proof (wp_final tr r l s1 t Hadm) as Hw. unfold wp in Hw. rewrite Hf in Hw.
    destruct Hw as (created & A2 & ls & Hls & Hp & Hres). cbn [fst snd] in *. destruct res as [resp|e].
    + destruct Hres as (Hc & Hst & Hck). exists resp. split_and!; try done; [by etrans|]. right. exists l, s1, created, ls. split_and!; auto.
    + apply wp_ret. exists (sendError (mapError e).1 (mapError e).2). split_and!; try done; [by etrans|].
      right. exists l, s1, created, ls. split_and!; try done. right. split; [apply mapError_status|done].
Qed.
End facts.

(** C3: A request to a route of the tabs always gets a response, and no service
    is called for it unless its session was recognised from its cookie, of the
    configured mode and matching the identity that the upstream provider
    vouched for during this request, and, for every route that changes
    something, the request has exactly the public origin, a JSON body (or is a
    DELETE) and the CSRF service vouched for its token and that session.  The
    services are then called with the validated id and body, in the order of
    the route, each only after the one before succeeded; the response is a
    success exactly when all of them succeeded. *)
Theorem tab_routes_guarded `{Platform, LowerCase, !UrlParser, !ProxyLibraries} {W T : Type}
    (h : @handler auth W ev error resp) (hash : jsstr → jsstr) (o : AuthServiceOptions) `{!AuthEnv o h}
    (turn : wait → sys auth W ev → sys auth W ev) (services : @handler unit T service_call thrown service_resp)
    (options : AuthMiddlewareOptions) tr (r : HttpRequest) (s : sys auth W ev) (t : sys unit T service_call) :
  (∀ w s, asyn o s (turn w s)) → auth_ok o (comp s) →
  ∃ resp p', tab_router h hash o turn services options (Some tr) r (s, t) = (Ok resp, p') ∧
    asyn o s p'.1 ∧ set_cookies resp = [] ∧ routed h hash o options tr r s t resp p'.
Proof.
  intros turn_ok Hok. pose proof (wp_tab_router h hash o turn turn_ok services options tr r s t Hok) as Hw. unfold wp in Hw.
  destruct (tab_router _ _ _ _ _ _ _ _ _) as [res p']. cbn [fst snd] in Hw. destruct Hw as (resp & -> & Hw). by exists resp, p'.
Qed.

(** * Stopping a session *)

Definition sample_id : jsstr := js "123e4567-e89b-42d3-a456-426614174000".
Definition sample_request : HttpRequest := {|
  http_request := sample_cookie_request;
  assertions := no_assertions;
  originalUrl := js "/api/tabs/"; baseUrl := js "/api"; params_id := sample_id;
  req_body := Parsed (Some (JObj [])); ip := None |}.
Definition sample_services : @handler unit unit service_call thrown service_resp := λ c u w,
  match c as c return res thrown (service_resp c) * (unit * unit) with
  | Sessions_terminate i => (Ok (JStr i), (u, w))
  | _ => (Throw Other_error, (u, w))
  end.
#[local] Existing Instance sample_env.
Theorem tab_routes_guarded_witness :
  let _ := sample_platform in let _ := ascii_lower_case in let _ := sample_provider_urls in let _ := sample_libraries in
  ∃ resp p', tab_router sample_handler (λ s, s) sample_options (λ _ s, s) sample_services sample_http_options
      (Some Post_terminate) sample_request (sample_after, Sys tt tt []) = (Ok resp, p') ∧
    status resp = 200 ∧ log p'.2 = [(Sessions_terminate sample_id, true)] ∧
    routed sample_handler (λ s, s) sample_options sample_http_options Post_terminate sample_request
      sample_after (Sys tt tt []) resp p'.
Proof.
  intros pl lo u li.
  destruct (tab_routes_guarded sample_handler (λ s, s) sample_options (λ _ s, s) sample_services sample_http_options
    Post_terminate sample_request sample_after (Sys tt tt []) (λ _ s, ltac:(apply rtc_refl)) sample_after_ok)
    as (resp & p' & Hr & _ & _ & Hrouted).
  exists resp, p'. split; [exact Hr|]. split; [|split; [|exact Hrouted]].
  - apply (f_equal (λ x, match x.1 with Ok r => status r | Throw _ => 0 end)) in Hr. cbn [fst] in Hr. rewrite <-Hr. by vm_compute.
  - apply (f_equal (λ x, log x.2.2)) in Hr. cbn [fst snd] in Hr. rewrite <-Hr. by vm_compute.
Defined.
