(* ===== verification/AuthRoutes.v ===== *)
(** [apps/server/src/auth-routes.ts]: the routes of the authentication, with
    the request schemas of [packages/shared/src/auth.ts].

    A promise of [bootstrap], [login] or [setup] that is the promise of a
    queued job settles after the jobs before it and its own; the job runs
    between two waits. *)
From S2P Require Import Prelude JsMap SafeString Json Tabs IsoDate Headers Origin Upstream UpstreamFacts WsAuthIndex AuthService AuthFacts.
From S2P Require Import AuthSafety AuthMiddleware MiddlewareFacts Routes TabRoutes.
Open Scope Z_scope.

(** * Schemas *)

Section schemas.
Context `{Platform}.

Definition string_field (k : jsstr) (fs : list (jsstr * json)) : option jsstr := field k fs ≫= as_string.
Definition boundedDisplayString (maximumBytes : Z) : jsstr → option jsstr :=
  safeNormalizedString {| maxUtf8Bytes := Some maximumBytes; opt_trim := false; allowJoinControls := false |}.
Definition secretStringSchema (s : jsstr) : option jsstr :=
  if negb (bool_decide (s = [])) && (utf8ByteLength s <=? 4096) then Some s else None.
Definition loginRequestSchema (v : json) : option (jsstr * jsstr) :=
  fs ← strict_object [js "username"; js "password"] v;
  u ← string_field (js "username") fs ≫= boundedDisplayString 128;
  p ← string_field (js "password") fs ≫= secretStringSchema;
  Some (u, p).
Definition setupRequestSchema (v : json) : option jsstr :=
  fs ← strict_object [js "password"] v;
  p ← string_field (js "password") fs;
  if negb (bool_decide (0 ∈ p)) && (12 <=? utf8ByteLength p) && (utf8ByteLength p <=? 72) then Some p else None.
Definition passwordChangeRequestSchema (v : json) : option (jsstr * jsstr) :=
  fs ← strict_object [js "currentPassword"; js "newPassword"] v;
  c ← string_field (js "currentPassword") fs ≫= secretStringSchema;
  n ← string_field (js "newPassword") fs ≫= secretStringSchema;
  Some (c, n).
Definition emptyBodySchema (v : json) : option unit := _ ← strict_object [] v; Some tt.
End schemas.

(** * Responses *)

Definition mode_name (m : AuthMode) : jsstr :=
  match m with
  | mode_local => js "local"
  | cloudflare_access => js "cloudflare-access"
  | trusted_header => js "trusted-header"
  | mode_none => js "none"
  end.
Definition bootstrap_json (b : AuthBootstrap) : json :=
  match b with
  | Unauthenticated m => JObj [(js "authenticated", JBool false); (js "mode", JStr (mode_name m))]
  | Setup_required u =>
      JObj [(js "authenticated", JBool false); (js "mode", JStr (js "local")); (js "setupRequired", JBool true);
            (js "username", JStr u)]
  | Authenticated m label csrf u =>
      JObj ([(js "authenticated", JBool true); (js "mode", JStr (mode_name m)); (js "identityLabel", JStr label);
             (js "csrfToken", JStr csrf)] ++
            match u with Some e => [(js "upstreamExpiresAt", JStr (iso_string e))] | None => [] end)
  end.
Definition mapError (e : thrown) : Z * jsstr :=
  match e with
  | InvalidRequestError => (400, js "invalid_request")
  | AuthenticationRequiredError => (401, js "authentication_required")
  | AuthenticationFailedError => (401, js "authentication_failed")
  | _ => (500, js "operation_failed")
  end.
Definition INVALID_BODY_ERROR_TYPES : list jsstr :=
  js <$> ["entity.parse.failed"; "entity.too.large"; "encoding.unsupported"; "charset.unsupported";
          "request.aborted"]%string.
Definition isBodyParserClientError (e : parser_error) : bool :=
  match error_type e with Some t => bool_decide (t ∈ INVALID_BODY_ERROR_TYPES) | None => false end ||
  match error_status e with Some s => (400 <=? s) && (s <? 500) | None => false end.
(** [request.ip || request.socket.remoteAddress || 'unknown'] *)
Definition client_address (r : HttpRequest) : jsstr :=
  match ip r with
  | Some (c :: s) => c :: s
  | _ => match req_remoteAddress (http_request r) with Some (c :: s) => c :: s | _ => js "unknown" end
  end.

Inductive auth_route := Get_session | Post_login | Post_setup | Post_refresh | Post_logout | Put_password.

Record AuthRouterOptions := {
  auth_options : AuthMiddlewareOptions;
  basePath : jsstr;
  secureCookie : bool;
}.

Section router.
Context `{Platform, LowerCase, UrlParser, ProxyLibraries} {W T : Type} (h : @handler auth W ev error resp)
  (hash : jsstr → jsstr) (localeCompare : jsstr → jsstr → Z) (o : AuthServiceOptions)
  (turn : wait → sys auth W ev → sys auth W ev)
  (services : @handler unit T service_call thrown service_resp) (router_options : AuthRouterOptions).
Abbreviation options := (auth_options router_options).
Abbreviation SM := (M (sys auth W ev) error).
Abbreviation RM := (M (sys auth W ev * sys unit T service_call) thrown).
Abbreviation handler_of := (Locals unit → RM (step unit)).

(** [await] of what [bootstrap], [login] or [setup] returned. *)
Definition await_answer (a : answer) : SM AuthBootstrapResult :=
  match a with
  | Rejected => do! await_turn turn Await_service in throw AuthServiceError
  | Resolved r => do! await_turn turn Await_service in ret r
  | Enqueued j =>
      do! await_turn turn Await_service in
      let! r := finally (run_job h hash localeCompare o j) (finish_job j) in
      do! await_turn turn Await_service in ret r
  end.

Definition publishBootstrap (result : AuthBootstrapResult) : RM Response :=
  match bootstrap_ result with
  | Authenticated m label _ _ =>
      let! cookie := of_option (cookieValue result) Other_error in
      let! session := on_auth (authenticateCookie h hash (Some cookie)) in
      let! session := of_option session Other_error in
      do! throw_if (negb (bool_decide (view_mode session = m)) || negb (bool_decide (view_identityLabel session = label)))
            Other_error in
      do! catch (perform turn services Ensure_workspace)
            (λ e, do! attempt (on_auth (logout h (view_id session))) in throw e) in
      do! on_auth (touch h o (view_id session) http) in
      let! header := of_option (setSessionCookie cookie (basePath router_options) (secureCookie router_options)) Other_error in
      ret {| status := 200; body := Json (bootstrap_json (bootstrap_ result)); set_cookies := [header] |}
  | b =>
      do! throw_if (bool_decide (is_Some (cookieValue result))) Other_error in
      ret (json_response 200 (bootstrap_json b))
  end.

Definition requireAuth (r : HttpRequest) : handler_of := λ l,
  on_auth (requireAuthentication h hash turn options (http_request r) (assertions r) l).
Definition requireMutation (r : HttpRequest) : handler_of := λ l,
  on_auth (requireMutationSecurity h options (http_request r) l).
Definition requirePublicMutation (r : HttpRequest) : handler_of := λ l,
  on_auth (requirePublicMutationSecurity options (http_request r) l).
Definition touch_activity (r : HttpRequest) : handler_of := λ l,
  on_auth (touchHttpActivity h hash o (http_request r) l).
Definition parse (r : HttpRequest) : handler_of := parseRequestBody turn isBodyParserClientError r.
Definition validateEmptyBody (r : HttpRequest) : handler_of := validated (parsed_body r ≫= emptyBodySchema) (λ _ u, u).
Definition validatePasswordBody (r : HttpRequest) : handler_of :=
  validated (parsed_body r ≫= passwordChangeRequestSchema) (λ _ u, u).
Definition requireLocalSession : handler_of := λ l,
  match authenticatedLocals l with
  | None => throw AuthenticationRequiredError
  | Some locals =>
      ret (if bool_decide (view_mode (authSession locals) = mode_local) then Next l
           else Reply 409 (js "invalid_session_state"))
  end.

Definition handlers (t : auth_route) (r : HttpRequest) : list handler_of :=
  match t with
  | Get_session => []
  | Post_login | Post_setup => [requirePublicMutation r; parse r]
  | Post_refresh | Post_logout => [requireAuth r; requireMutation r; parse r; validateEmptyBody r; touch_activity r]
  | Put_password =>
      [requireAuth r; requireMutation r; parse r; requireLocalSession; validatePasswordBody r; touch_activity r]
  end.

Definition get_session_route (r : HttpRequest) : RM Response :=
  let! existing := attempt (on_auth (resolveAuthentication h hash turn options (http_request r) (assertions r))) in
  match existing with
  | Throw _ => ret (sendError 401 (js "authentication_failed"))
  | Ok (Some existing) =>
      let! resumed := on_auth (resume h (view_id (authSession existing))) in
      match resumed with
      | None => ret (sendError 401 (js "authentication_required"))
      | Some resumed =>
          do! perform turn services Ensure_workspace in
          do! on_auth (touch h o (view_id (authSession existing)) http) in
          ret (json_response 200 (bootstrap_json (bootstrap_ resumed)))
      end
  | Ok None =>
      let! upstream := attempt (on_auth (upstreamAuthentication turn options (http_request r) (assertions r))) in
      match upstream with
      | Throw _ => ret (sendError 401 (js "authentication_failed"))
      | Ok upstream =>
          let! result := on_auth (let! a := bootstrap o upstream in await_answer a) in
          publishBootstrap result
      end
  end.

Definition login_route (r : HttpRequest) : RM Response :=
  if negb (bool_decide (m_mode options = mode_local)) then ret (sendError 409 (js "invalid_session_state"))
  else
    let! ' (u, p) := of_option (parsed_body r ≫= loginRequestSchema) InvalidRequestError in
    let! result := on_auth (let! a := login h o {| username := u; password := p; address := client_address r |} in
                            await_answer a) in
    match bootstrap_ result with
    | Authenticated _ _ _ _ => publishBootstrap result
    | _ =>
        match failure result with
        | Some rate_limited => ret (sendError 429 (js "rate_limited"))
        | Some setup_required => ret (sendError 409 (js "setup_required"))
        | _ => ret (sendError 401 (js "authentication_failed"))
        end
    end.

Definition setup_route (r : HttpRequest) : RM Response :=
  if negb (bool_decide (m_mode options = mode_local)) then ret (sendError 409 (js "invalid_session_state"))
  else
    let! p := of_option (parsed_body r ≫= setupRequestSchema) InvalidRequestError in
    let! result := on_auth (let! a := setup h o {| setup_password := p; setup_address := client_address r |} in
                            await_answer a) in
    match bootstrap_ result with
    | Authenticated _ _ _ _ => publishBootstrap result
    | _ =>
        match failure result with
        | Some already_initialized => ret (sendError 409 (js "setup_already_completed"))
        | Some rate_limited => ret (sendError 429 (js "rate_limited"))
        | _ => throw Other_error
        end
    end.

Definition refresh_route (l : Locals unit) : RM Response :=
  let! locals := of_option (authenticatedLocals l) AuthenticationRequiredError in
  do! (match upstreamIdentity locals with
       | None => ret tt
       | Some i =>
           let! refreshed := on_auth (refresh h (view_id (authSession locals)) i) in
           throw_if (bool_decide (refreshed = None)) AuthenticationFailedError
       end) in
  let! resumed := on_auth (resume h (view_id (authSession locals))) in
  let! resumed := of_option resumed AuthenticationRequiredError in
  ret (json_response 200 (bootstrap_json (bootstrap_ resumed))).

Definition cleared : RM Response :=
  let! header := of_option (clearSessionCookie (basePath router_options) (secureCookie router_options)) Other_error in
  ret {| status := 204; body := Empty; set_cookies := [header] |}.
Definition logout_route (l : Locals unit) : RM Response :=
  let! locals := of_option (authenticatedLocals l) AuthenticationRequiredError in
  do! on_auth (logout h (view_id (authSession locals))) in
  cleared.

Definition password_route (r : HttpRequest) (l : Locals unit) : RM Response :=
  let! locals := of_option (authenticatedLocals l) AuthenticationRequiredError in
  let! ' (c, n) := of_option (parsed_body r ≫= passwordChangeRequestSchema) Other_error in
  let! changed := on_auth (let! b := changePassword h (view_id (authSession locals)) c n in
                           do! await_turn turn Await_service in ret b) in
  if negb changed then ret (sendError 400 (js "password_invalid")) else cleared.

Definition final (t : auth_route) (r : HttpRequest) (l : Locals unit) : RM Response :=
  match t with
  | Get_session => get_session_route r
  | Post_login => login_route r
  | Post_setup => setup_route r
  | Post_refresh => refresh_route l
  | Post_logout => logout_route l
  | Put_password => password_route r l
  end.
Definition auth_router (t : option auth_route) (r : HttpRequest) : RM Response :=
  match t with
  | None => ret (sendError 404 (js "not_found"))
  | Some t => route mapError (run_chain (handlers t r) (final t r) (Build_Locals None None tt))
  end.
End router.

(** * Properties

    When the authentication routes set a session cookie, and when they take it
    back. *)

Section facts.
Context `{Platform, LowerCase, !UrlParser, !ProxyLibraries} {W T : Type} (h : @handler auth W ev error resp)
  (hash : jsstr → jsstr) (localeCompare : jsstr → jsstr → Z) `{!Comparator localeCompare}
  (o : AuthServiceOptions) `{!AuthEnv o h} (max_pos : 1 <= maxSessions o)
  (turn : wait → sys auth W ev → sys auth W ev) (turn_ok : ∀ w s, asyn o s (turn w s))
  (services : @handler unit T service_call thrown service_resp) (router_options : AuthRouterOptions).
Implicit Types (s : sys auth W ev) (t : sys unit T service_call).
Abbreviation state := (sys auth W ev * sys unit T service_call)%type.
Abbreviation options := (auth_options router_options).

(** * What was queued *)

(** The rate limiter admitted an attempt from the address. *)
Definition admitted (address : jsstr) : Prop := ∃ c w x, h (Limiter_consume (boundedAddress address)) c w = (Ok true, x).
Definition login_queued (input : LocalLoginAttempt) (j : job) : Prop :=
  o_mode o = mode_local ∧ admitted (address input) ∧ ∃ label c w r x,
    normalizeLabel (username input) = Some label ∧
    h (Credentials_verify (username input) (password input)) c w = (r, x) ∧
    j = Login_job (match r with
                   | Throw _ => Known Verification_failed
                   | Ok (inl valid) => Known (Verification_ok valid)
                   | Ok (inr p) => Promised p
                   end) label (boundedAddress (address input)).
Definition setup_queued (input : LocalSetupAttempt) (j : job) : Prop :=
  o_mode o = mode_local ∧ admitted (setup_address input) ∧ (∃ c w x, h Credentials_isInitialized c w = (Ok false, x)) ∧
  j = Setup_job (setup_password input) (boundedAddress (setup_address input)).
Definition queued_post (P : job → Prop) (r : res error answer) : Prop :=
  match r with
  | Ok (Enqueued j) => P j
  | Ok (Resolved res) => cookieValue res = None
  | _ => True
  end.

Lemma wp_local_cookie b (Q : res error AuthBootstrap → sys auth W ev → Prop) s :
  (∀ b s', Q (Ok b) s') → (∀ e s', Q (Throw e) s') → wp (localBootstrap h o b) Q s.
Proof.
  intros Ho Ht. unfold localBootstrap. wp_step. destruct b as [b|]; [wp_step; by wp_step|].
  do 2 wp_step. apply (wp_call resp h Credentials_isInitialized). intros [b|e] c w _; wp_step; [by wp_step|done].
Qed.
Lemma wp_admit_queued P ad refused (k : M (sys auth W ev) error answer) s :
  cookieValue refused = None → (admitted ad → ∀ s', wp k (λ r _, queued_post P r) s') →
  wp (admit_attempt h (boundedAddress ad) refused k) (λ r _, queued_post P r) s.
Proof.
  intros Hn Hk. unfold admit_attempt. wp_step. wp_step.
  apply (wp_call resp h (Limiter_consume (boundedAddress ad))). intros [[|]|e] c w Hc; wp_step; apply wp_set_own; [|by wp_step..].
  apply Hk. by eexists _, _, _.
Qed.
Lemma wp_reserved {A} (k : bool → M (sys auth W ev) error A) Q s :
  (∀ b s', wp (k b) Q s') → wp (bind (reserveEstablishment o) k) Q s.
Proof.
  intros Hk. wp_step. unfold reserveEstablishment. wp_step. apply wp_own. wp_step; [wp_step; apply Hk|].
  wp_step. apply wp_set_own. wp_step. apply Hk.
Qed.
Lemma wp_login_queued input s : wp (login h o input) (λ r _, queued_post (login_queued input) r) s.
Proof.
  unfold login. wp_step; [by wp_step|]. breflect. do 2 wp_step.
  apply (wp_call resp h Credentials_isInitialized). intros [[|]|e] c w _; [| |by wp_step].
  2: { wp_step. by apply wp_local_cookie; intros; [wp_step|]. }
  wp_step. apply wp_own. wp_step; [by wp_step|]. apply wp_reserved. intros b s'. wp_step; [by wp_step|].
  destruct (normalizeLabel (username input)) as [label|] eqn:Hl; [|wp_step; apply wp_set_own; by wp_step].
  apply wp_admit_queued; [done|]. intros Ha s2. wp_step. unfold begin_verification. do 2 wp_step.
  apply (wp_call resp h (Credentials_verify (username input) (password input))). intros r c2 w2 Hv.
  wp_step. wp_step. split; [done|]. split; [done|]. by exists label, (comp s2), (world s2), r, (c2, w2).
Qed.
Lemma wp_setup_queued input s : wp (setup h o input) (λ r _, queued_post (setup_queued input) r) s.
Proof.
  unfold setup. wp_step; [by wp_step|]. breflect. do 2 wp_step.
  apply (wp_call resp h Credentials_isInitialized). intros [[|]|e] c w Hi; [| |by wp_step].
  1: { wp_step. by apply wp_local_cookie; intros; [wp_step|]. }
  wp_step. apply wp_local_cookie; [|done]. intros b s2. wp_step. apply wp_own. wp_step; [by wp_step|].
  apply wp_reserved. intros b2 s3. wp_step; [by wp_step|]. apply wp_admit_queued; [done|]. intros Ha s4. wp_step.
  split; [done|]. split; [done|]. split; [by eexists _, _, _|done].
Qed.
Lemma wp_bootstrap_queued input s : wp (bootstrap o input) (λ r _, queued_post (λ j, j = Bootstrap_job input) r) s.
Proof. unfold bootstrap. apply wp_reserved. intros [|] s'; by wp_step. Qed.

(** * What came of it *)

(** A job of the establishment queue, run between [s] and [s'], established a
    session for the cookie of its answer. *)
Definition established_by (P : job → Prop) s s' (res : AuthBootstrapResult) (cookie : jsstr) : Prop :=
  ∃ j s1 s2, P j ∧ asyn o s s1 ∧ run_job h hash localeCompare o j s1 = (Ok res, s2) ∧
    job_outcome h o hash localeCompare j s1 (Ok res) s2 ∧ asyn o s2 s' ∧ cookieValue res = Some cookie.

Lemma wp_await_answer P a s : auth_ok o (comp s) → queued_post P (Ok a) →
  wp (await_answer h hash localeCompare o turn a) (λ r s', asyn o s s' ∧
    ∀ res cookie, r = Ok res → cookieValue res = Some cookie → established_by P s s' res cookie) s.
Proof.
  intros Hok Ha. unfold await_answer. destruct a as [|r0|j]; wp_step; apply wp_await.
  - wp_step. by split.
  - wp_step. split; [apply turn_ok|]. intros res cookie [= <-] Hc. cbn in Ha. congruence.
  - pose proof (turn_ok Await_service s) as A1. set (s1 := turn Await_service s) in *.
    pose proof (asyn_ok o _ _ A1 Hok) as Hok1. do 2 wp_step.
    pose proof (run_job_outcome h o max_pos hash localeCompare j s1 Hok1) as Hout.
    unfold wp at 1. destruct (run_job h hash localeCompare o j s1) as [r s2] eqn:Hrun. unfold wp in Hout. rewrite Hrun in Hout.
    cbn [fst snd] in *. pose proof (job_outcome_asyn h o hash localeCompare j _ _ _ Hout) as A2.
    eapply wp_mono; [apply wp_finish|]. intros r' s3 K3%syn_asyn.
    assert (asyn o s s3) as A3 by (etrans; [exact A1|]; by etrans).
    destruct r' as [[]|e]; [|by split]. destruct r as [res|e]; [|by split].
    wp_step. apply wp_await. wp_step. split; [etrans; [exact A3|apply turn_ok]|].
    intros res' cookie [= <-] Hc. exists j, s1, s2. split_and!; try done. etrans; [exact K3|apply turn_ok].
Qed.
Lemma wp_then_await P (m : M (sys auth W ev) error answer) s : auth_ok o (comp s) →
  wp m (λ r s', syn o s s') s → wp m (λ r _, queued_post P r) s →
  wp (bind m (await_answer h hash localeCompare o turn)) (λ r s', asyn o s s' ∧
    ∀ res cookie, r = Ok res → cookieValue res = Some cookie → established_by P s s' res cookie) s.
Proof.
  intros Hok Hs Hq. wp_step. eapply wp_mono; [exact (wp_and m _ _ s Hs Hq)|].
  intros [a|e] s1 [K1%syn_asyn Ha]; [|by split].
  eapply wp_mono; [apply (wp_await_answer P); [by eapply asyn_ok|done]|]. intros r s2 [A2 Hr]. split; [by etrans|].
  intros res cookie Hres Hc. destruct (Hr _ _ Hres Hc) as (j & s3 & s4 & ? & ? & ?). exists j, s3, s4. split_and!; try done; [by etrans|tauto..].
Qed.

(** A published cookie was accepted again, for a session as announced. *)
Definition published s (result : AuthBootstrapResult) (resp : Response) : Prop :=
  ∃ cookie header st m label csrf u, cookieValue result = Some cookie ∧ bootstrap_ result = Authenticated m label csrf u ∧
    set_cookies resp = [header] ∧ status resp = 200 ∧ body resp = Json (bootstrap_json (bootstrap_ result)) ∧
    setSessionCookie cookie (basePath router_options) (secureCookie router_options) = Some header ∧
    accepted h o hash s (Some cookie) st ∧ mode st = m ∧ identityLabel st = label.
Lemma wp_lift_syn {A} (m : M (sys auth W ev) error A) s t : sync o m → auth_ok o (comp s) →
  wp (on_auth (T := T) m) (λ _ p', asyn o s p'.1 ∧ p'.2 = t) (s, t).
Proof. intros Hm Hok. apply wp_on_auth. eapply wp_mono; [by apply Hm|]. intros r s' K. split; [by apply syn_asyn|done]. Qed.
Lemma wp_publish result s t : auth_ok o (comp s) →
  wp (publishBootstrap h hash o turn services router_options result) (λ r p', asyn o s p'.1 ∧
    ∀ resp, r = Ok resp → set_cookies resp = [] ∨ published s result resp) (s, t).
Proof.
  intros Hok. unfold publishBootstrap.
  destruct (bootstrap_ result) as [m|u|m label csrf u] eqn:Hb;
    [wp_step; wp_step; [by split|]; wp_step; split; [done|]; intros resp [= <-]; by left..|].
  wp_step. wp_step; [|by split]. wp_step. apply wp_on_auth. eapply wp_mono; [by apply (wp_authenticated h hash o)|].
  intros [v|e] s1 [K1 Hv]; [|by split; [apply syn_asyn|]]. wp_step.
  wp_step; [|by split; [apply syn_asyn|]]. subst v. destruct (Hv _ eq_refl) as (st & Hst & -> & C1).
  wp_step. wp_step; [by split; [apply syn_asyn|]|]. breflect. cbn [view view_mode view_identityLabel] in *.
  pose proof (syn_asyn o _ _ K1) as A1. pose proof (asyn_ok o _ _ A1 Hok) as Hok1.
  assert (asyn o s (turn Await_service s1)) as A2 by (etrans; [exact A1|apply turn_ok]).
  pose proof (asyn_ok o _ _ A2 Hok) as Hok2.
  wp_step. wp_step. apply wp_perform. cbn [immediate]. intros [[]|e] w _.
  2: { wp_step. wp_step. eapply wp_mono; [apply wp_lift_syn; [by apply (sync_logout h o)|done]|].
       intros r [s3 t3] [A3 _]. wp_step. split; [by etrans|done]. }
  wp_step. eapply wp_mono; [apply wp_lift_syn; [by apply (sync_touch h o)|done]|]. intros [[]|e] [s3 t3] [A3 _]; [|split; [by etrans|done]].
  wp_step. wp_step; [|split; [by etrans|done]]. wp_step. split; [by etrans|]. intros resp [= <-]. right.
  eexists _, _, st, m, label, csrf, u. rewrite Hb. split_and!; try done.
Qed.

(** The response [resp], given at [s'], sets the cookie of a session that a job
    as [P] demands established after [s]. *)
Definition issued (P : job → Prop) s s' (resp : Response) : Prop :=
  ∃ res cookie s1, established_by P s s1 res cookie ∧ published s1 res resp ∧ asyn o s1 s'.
Definition cookie_post (F : Response → state → Prop) s (r : res thrown Response) (p' : state) : Prop :=
  asyn o s p'.1 ∧ ∀ resp, r = Ok resp → set_cookies resp = [] ∨ F resp p'.
Lemma no_cookie_post F s s' t code e : asyn o s s' → cookie_post F s (Ok (sendError code e)) (s', t).
Proof. intros A. split; [done|]. intros resp [= <-]. by left. Qed.
Lemma throw_post F s s' t e : asyn o s s' → cookie_post F s (Throw e) (s', t).
Proof. by split. Qed.

Lemma wp_established P (m : M (sys auth W ev) error answer) (k : AuthBootstrapResult → M state thrown Response) s t :
  auth_ok o (comp s) → wp m (λ r s', syn o s s') s → wp m (λ r _, queued_post P r) s →
  (∀ res s1 t1, asyn o s s1 → auth_ok o (comp s1) → wp (k res) (λ r p', asyn o s1 p'.1 ∧
     ∀ resp, r = Ok resp → set_cookies resp = [] ∨ published s1 res resp) (s1, t1)) →
  wp (bind (on_auth (bind m (await_answer h hash localeCompare o turn))) k) (cookie_post (λ resp p', issued P s p'.1 resp) s) (s, t).
Proof.
  intros Hok Hs Hq Hk. wp_step. apply wp_on_auth. eapply wp_mono; [by apply (wp_then_await P)|].
  intros [res|e] s1 [A1 Hr]; [|by apply throw_post]. eapply wp_mono; [apply (Hk res s1); [done|by eapply asyn_ok]|].
  intros r p' [A2 Hresp]. split; [by etrans|]. intros resp Heq. destruct (Hresp _ Heq) as [?|Hp]; [by left|right].
  pose proof Hp as (cookie & header & st & m' & label & csrf & u & Hc & _). exists res, cookie, s1. split_and!; try done. by apply Hr.
Qed.

(** What the public guard checks. *)
Definition public_request (r : HttpRequest) : Prop :=
  oneBoundedHeader (req_rawHeaders (http_request r)) (js "origin") 2048 headerAsciiPattern = Some (m_publicOrigin options) ∧
  hasJsonContentType (req_rawHeaders (http_request r)) = true.

Lemma wp_login_route r s t : auth_ok o (comp s) →
  wp (login_route h hash localeCompare o turn services router_options r) (cookie_post (λ resp p', m_mode options = mode_local ∧ ∃ u p,
    parsed_body r ≫= loginRequestSchema = Some (u, p) ∧
    issued (login_queued {| username := u; password := p; address := client_address r |}) s p'.1 resp) s) (s, t).
Proof.
  intros Hok. unfold login_route. wp_step; [wp_step; by apply no_cookie_post|]. breflect. wp_step. wp_step; [|by apply throw_post].
  destruct a as [u p]. eapply wp_mono.
  - apply (wp_established (login_queued {| username := u; password := p; address := client_address r |}));
      [done|apply (wp_login h o)|apply wp_login_queued|].
    intros res s1 t1 A1 Hok1. assert (∀ code e, asyn o s1 (s1, t1).1 ∧ ∀ resp : Response, Ok (sendError code e) = (Ok resp : Prelude.res thrown Response) →
      set_cookies resp = [] ∨ published s1 res resp) as Hno by (intros code e; split; [done|intros resp [= <-]; by left]).
    destruct (bootstrap_ res); [..|by apply wp_publish]; destruct (failure res) as [[]|]; wp_step; apply Hno.
  - intros r' p' [A Hr]. split; [done|]. intros resp Hresp. destruct (Hr _ Hresp) as [?|Hi]; [by left|right].
    split; [done|]. by exists u, p.
Qed.
Lemma wp_setup_route r s t : auth_ok o (comp s) →
  wp (setup_route h hash localeCompare o turn services router_options r) (cookie_post (λ resp p', m_mode options = mode_local ∧ ∃ p,
    parsed_body r ≫= setupRequestSchema = Some p ∧
    issued (setup_queued {| setup_password := p; setup_address := client_address r |}) s p'.1 resp) s) (s, t).
Proof.
  intros Hok. unfold setup_route. wp_step; [wp_step; by apply no_cookie_post|]. breflect. wp_step. wp_step; [|by apply throw_post].
  eapply wp_mono.
  - apply (wp_established (setup_queued {| setup_password := a; setup_address := client_address r |}));
      [done|apply (wp_setup h o)|apply wp_setup_queued|].
    intros res s1 t1 A1 Hok1. assert (∀ code e, asyn o s1 (s1, t1).1 ∧ ∀ resp : Response, Ok (sendError code e) = (Ok resp : Prelude.res thrown Response) →
      set_cookies resp = [] ∨ published s1 res resp) as Hno by (intros code e; split; [done|intros resp [= <-]; by left]).
    destruct (bootstrap_ res); [..|by apply wp_publish]; destruct (failure res) as [[]|]; wp_step; first [apply Hno|done].
  - intros r' p' [A Hr]. split; [done|]. intros resp Hresp. destruct (Hr _ Hresp) as [?|Hi]; [by left|right].
    split; [done|]. by exists a.
Qed.
Definition bootstrap_input (u : option UpstreamIdentity) : UpstreamAuthentication :=
  match u with None => Upstream_none | Some i => AuthService.Upstream i end.
Lemma wp_upstream request asserted s :
  wp (upstreamAuthentication turn options request asserted) (λ r s', asyn o s s' ∧
    ∀ input, r = Ok input → ∃ u, upstream_vouches options request asserted u ∧ input = bootstrap_input u) s.
Proof.
  unfold upstreamAuthentication. wp_step. apply wp_await. wp_step. eapply wp_mono; [apply wp_currentUpstream|].
  intros [u|e] s' [-> Hu]; [wp_step|]; (split; [apply turn_ok|]); [|done]. intros input [= <-]. exists u. split; [by apply Hu|by destruct u].
Qed.
Lemma wp_session_route r s t : auth_ok o (comp s) →
  wp (get_session_route h hash localeCompare o turn services router_options r) (cookie_post (λ resp p', ∃ u,
    upstream_vouches options (http_request r) (assertions r) u ∧
    issued (λ j, j = Bootstrap_job (bootstrap_input u)) s p'.1 resp) s) (s, t).
Proof.
  intros Hok. unfold get_session_route. do 2 wp_step. apply wp_on_auth.
  eapply wp_mono; [by apply (wp_resolve h hash o turn turn_ok)|]. intros [[v|]|e] s1 [A1 _].
  - pose proof (asyn_ok o _ _ A1 Hok) as Hok1. wp_step.
    eapply wp_mono; [apply wp_lift_syn; [apply (sync_resume h o)|done]|]. intros [[b|]|e] [s2 t2] [A2 _];
      [|wp_step; apply no_cookie_post; by etrans|apply throw_post; by etrans].
    assert (asyn o s (turn Await_service s2)) as A3 by (etrans; [exact A1|]; etrans; [exact A2|apply turn_ok]).
    wp_step. apply wp_perform. cbn [immediate]. intros [[]|e] w _; [|by apply throw_post]. wp_step.
    eapply wp_mono; [apply wp_lift_syn; [apply (sync_touch h o)|by eapply asyn_ok]|]. intros [u|e] [s3 t3] [A4 _];
      [|apply throw_post; by etrans]. wp_step. split; [by etrans|]. intros resp [= <-]. by left.
  - pose proof (asyn_ok o _ _ A1 Hok) as Hok1. do 2 wp_step. apply wp_on_auth. eapply wp_mono; [apply wp_upstream|].
    intros [input|e] s2 [A2 Hi]; [|wp_step; apply no_cookie_post; by etrans].
    destruct (Hi _ eq_refl) as (u & Hu & ->).
    assert (asyn o s s2) as A3 by by etrans. pose proof (asyn_ok o _ _ A3 Hok) as Hok2.
    eapply wp_mono; [apply (wp_established (λ j, j = Bootstrap_job (bootstrap_input u)));
      [done|apply (wp_bootstrap o)|apply wp_bootstrap_queued|intros; by apply wp_publish]|].
    intros r' p' [A4 Hr]. split; [by etrans|]. intros resp Hresp. destruct (Hr _ Hresp) as [?|(res & cookie & s3 & He & Hp & A5)]; [by left|right].
    exists u. split; [done|]. destruct He as (j & s4 & s5 & ? & ? & ?).
    exists res, cookie, s3. split_and!; try done. exists j, s4, s5. split_and!; try done; [by etrans|tauto..].
  - wp_step. by apply no_cookie_post.
Qed.

(** * Sessions taken back *)

Lemma wp_logout_gone session s : auth_ok o (comp s) →
  wp (logout h session) (λ _ s', syn o s s' ∧ ∀ g, jm_get session (byId (comp s)) = Some g → ¬ live (comp s') g) s.
Proof.
  intros Hok. apply wp_and; [by apply (sync_logout h o)|]. unfold logout. wp_step.
  apply wp_find; [intros g Hg|intros Hn; wp_step; congruence].
  eapply wp_mono; [apply (wp_revoke h o g R_logout); [done|by eapply live_tidy, found_live]|].
  intros r s' (_ & _ & Hl) g' Hg'. congruence.
Qed.
(** The cookie is cleared for a guarded request. *)
Definition cleared_for (r : HttpRequest) s (resp : Response) (l : Locals unit) s1 : Prop :=
  guarded h hash o options (http_request r) (assertions r) true s s1 l ∧ asyn o s s1 ∧ status resp = 204 ∧
  ∃ header, clearSessionCookie (basePath router_options) (secureCookie router_options) = Some header ∧ set_cookies resp = [header].
Definition logged_out (r : HttpRequest) s (resp : Response) (p' : state) : Prop :=
  ∃ l s1 session, cleared_for r s resp l s1 ∧ local_session l = Some session ∧
    ∀ g, jm_get (view_id session) (byId (comp s1)) = Some g → ¬ live (comp p'.1) g.
Definition password_replaced (r : HttpRequest) s (resp : Response) (p' : state) : Prop :=
  ∃ l s1 session c n s2 s3, cleared_for r s resp l s1 ∧ local_session l = Some session ∧
    parsed_body r ≫= passwordChangeRequestSchema = Some (c, n) ∧
    password_changed h o (view_id session) c n s2 s3 ∧ byId (comp s2) = byId (comp s1) ∧
    ∃ s4, byId (comp s4) = [] ∧ asyn o s4 p'.1.

Lemma wp_logout_route l s t : auth_ok o (comp s) →
  wp (logout_route h router_options l) (cookie_post (λ resp p', ∃ session header, local_session l = Some session ∧
    clearSessionCookie (basePath router_options) (secureCookie router_options) = Some header ∧ set_cookies resp = [header] ∧
    status resp = 204 ∧ ∀ g, jm_get (view_id session) (byId (comp s)) = Some g → ¬ live (comp p'.1) g) s) (s, t).
Proof.
  intros Hok. unfold logout_route. wp_step. wp_step; [|by apply throw_post].
  unfold authenticatedLocals in *. destruct (local_session l) as [session|] eqn:Hl; [|done]. simplify_option_eq. cbn [authSession].
  wp_step. apply wp_on_auth. eapply wp_mono; [by apply wp_logout_gone|]. intros [u|e] s1 [K1%syn_asyn Hg]; [|by apply throw_post].
  unfold cleared. wp_step. wp_step; [|by apply throw_post]. wp_step. split; [done|]. intros resp [= <-]. right. by exists session, a.
Qed.
Lemma wp_password_route r l s t : auth_ok o (comp s) →
  wp (password_route h turn router_options r l) (cookie_post (λ resp p', ∃ session header c n s2 s3, local_session l = Some session ∧
    clearSessionCookie (basePath router_options) (secureCookie router_options) = Some header ∧ set_cookies resp = [header] ∧
    status resp = 204 ∧ parsed_body r ≫= passwordChangeRequestSchema = Some (c, n) ∧
    password_changed h o (view_id session) c n s2 s3 ∧ byId (comp s2) = byId (comp s) ∧
    ∃ s4, byId (comp s4) = [] ∧ asyn o s4 p'.1) s) (s, t).
Proof.
  intros Hok. unfold password_route. wp_step. wp_step; [|by apply throw_post].
  unfold authenticatedLocals in *. destruct (local_session l) as [session|] eqn:Hl; [|done]. simplify_option_eq. cbn [authSession].
  wp_step. wp_step; [|by apply throw_post]. destruct a as [c n]. wp_step. apply wp_on_auth. wp_step.
  eapply wp_mono; [by apply (wp_changePassword h o)|]. intros [b|e] s1 [A1 Hb]; [|by apply throw_post].
  wp_step. apply wp_await. assert (asyn o s (turn Await_service s1)) as A2 by (etrans; [exact A1|apply turn_ok]).
  wp_step. wp_step; [wp_step; by apply no_cookie_post|]. breflect. subst b.
  destruct (Hb eq_refl) as (_ & _ & s2 & s3 & _ & Hsame & Hch & Hnil).
  pose proof Hch as (g & sv & s5 & s6 & r5 & x & _ & _ & _ & _ & _ & _ & _ & _ & _ & Hempty).
  unfold cleared. wp_step. wp_step; [|by apply throw_post]. wp_step. split; [done|]. intros resp [= <-]. right.
  exists session, a, c, n, s2, s3. split_and!; try done. exists s1. split; [congruence|apply turn_ok].
Qed.
Lemma wp_refresh_route l s t : auth_ok o (comp s) →
  wp (refresh_route h l) (cookie_post (λ _ _, False) s) (s, t).
Proof.
  intros Hok. unfold refresh_route. wp_step. wp_step; [|by apply throw_post]. wp_step.
  apply (wp_mono _ (λ _ p', asyn o s p'.1)).
  { destruct (upstreamIdentity a) as [i|]; [|by wp_step]. wp_step.
    eapply wp_mono; [apply wp_lift_syn; [apply (sync_refresh h o)|done]|]. intros [v|e] [s1 t1] [A1 _]; [wp_step; done|done]. }
  intros [u|e] [s1 t1] A1; cbn [fst] in *; [|by apply throw_post]. wp_step.
  eapply wp_mono; [apply wp_lift_syn; [apply (sync_resume h o)|by eapply asyn_ok]|]. intros [b|e] [s2 t2] [A2 _]; cbn [fst] in *;
    [|apply throw_post; by etrans]. wp_step. wp_step; [|apply throw_post; by etrans]. wp_step.
  split; [by etrans|]. intros resp [= <-]. by left.
Qed.

(** * The router *)

Definition cookie_reason (tr : auth_route) (r : HttpRequest) s (resp : Response) (p' : state) : Prop :=
  match tr with
  | Get_session => ∃ u, upstream_vouches options (http_request r) (assertions r) u ∧
      issued (λ j, j = Bootstrap_job (bootstrap_input u)) s p'.1 resp
  | Post_login => public_request r ∧ m_mode options = mode_local ∧ ∃ u p,
      parsed_body r ≫= loginRequestSchema = Some (u, p) ∧
      issued (login_queued {| username := u; password := p; address := client_address r |}) s p'.1 resp
  | Post_setup => public_request r ∧ m_mode options = mode_local ∧ ∃ p,
      parsed_body r ≫= setupRequestSchema = Some p ∧
      issued (setup_queued {| setup_password := p; setup_address := client_address r |}) s p'.1 resp
  | Post_refresh => False
  | Post_logout => logged_out r s resp p'
  | Put_password => password_replaced r s resp p'
  end.
Lemma issued_before P s s1 s' resp : asyn o s s1 → issued P s1 s' resp → issued P s s' resp.
Proof.
  intros A (res & cookie & s2 & (j & s3 & s4 & ? & ? & ?) & ? & ?). exists res, cookie, s2. split_and!; try done.
  exists j, s3, s4. split_and!; try done; [by etrans|tauto..].
Qed.
Lemma wp_public (final : Locals unit → M state thrown Response) F r s t : auth_ok o (comp s) →
  (∀ l s1, asyn o s s1 → auth_ok o (comp s1) → public_request r → wp (final l) (cookie_post F s) (s1, t)) →
  wp (run_chain [requirePublicMutation router_options r; parse turn r] final (Build_Locals None None tt))
    (cookie_post (λ resp p', public_request r ∧ F resp p') s) (s, t).
Proof.
  intros Hok Hf. apply wp_chain, wp_on_auth. unfold requirePublicMutationSecurity. wp_step.
  destruct (hasExactHeader _ _ _) eqn:Ho; cbn [negb]; [|by apply no_cookie_post].
  destruct (hasJsonContentType _) eqn:Hj; cbn [negb]; [|by apply no_cookie_post].
  assert (public_request r) as Hr by (split; [by apply bool_decide_eq_true in Ho|done]).
  apply wp_chain. eapply wp_mono; [by apply (parse_benign o turn turn_ok isBodyParserClientError r)|].
  intros res [s1 t1] (A1 & Ht & Hres); cbn [fst snd] in *; subst t1. destruct res as [[l|code e]|e]; [|by apply no_cookie_post|by apply throw_post].
  cbn [run_chain]. eapply wp_mono; [apply Hf; [done|by eapply asyn_ok|done]|]. intros res p' [A2 Hc]. split; [done|].
  intros resp Heq. destruct (Hc _ Heq) as [?|?]; [by left|by right].
Qed.
Lemma empty_benign r : benign o (λ _ _, True) (validateEmptyBody r : Locals unit → M state thrown (step unit)).
Proof.
  intros l s t Hok. eapply wp_mono; [by apply (validated_benign o (parsed_body r ≫= emptyBodySchema))|].
  intros [[]|] p'; naive_solver.
Qed.
Lemma password_benign r : benign o (λ _ _, True) (validatePasswordBody r : Locals unit → M state thrown (step unit)).
Proof.
  intros l s t Hok. eapply wp_mono; [by apply (validated_benign o (parsed_body r ≫= passwordChangeRequestSchema))|].
  intros [[]|] p'; naive_solver.
Qed.
Lemma local_benign : benign o (λ _ _, True) (requireLocalSession : Locals unit → M state thrown (step unit)).
Proof.
  intros l s t Hok. unfold requireLocalSession. destruct (authenticatedLocals l); [|by apply wp_throw].
  apply wp_ret. by case_bool_decide.
Qed.
Definition guarded_middle (tr : auth_route) (r : HttpRequest) : list (Locals unit → M state thrown (step unit)) :=
  match tr with
  | Put_password => [parse turn r; requireLocalSession; validatePasswordBody r]
  | _ => [parse turn r; validateEmptyBody r]
  end.
Lemma wp_route_guarded tr r s t : auth_ok o (comp s) → (tr = Post_refresh ∨ tr = Post_logout ∨ tr = Put_password) →
  wp (run_chain (handlers h hash o turn router_options tr r) (final h hash localeCompare o turn services router_options tr r)
      (Build_Locals None None tt)) (cookie_post (cookie_reason tr r s) s) (s, t).
Proof.
  intros Hok Htr.
  assert (∃ Rs, Forall2 (benign o) Rs (guarded_middle tr r)) as [Rs Hmid].
  { pose proof (parse_benign (B := unit) (T := T) o turn turn_ok isBodyParserClientError r) as Hp.
    pose proof (empty_benign r). pose proof (password_benign r). pose proof local_benign.
    destruct Htr as [->|[->| ->]]; cbn [guarded_middle]; eexists; repeat (apply List.Forall2_cons; [eassumption|]); apply List.Forall2_nil. }
  assert (handlers h hash o turn router_options tr r =
    guards h hash o turn options (http_request r) (assertions r) true (guarded_middle tr r)) as ->
    by (destruct Htr as [->|[->| ->]]; done).
  eapply wp_mono; [by apply (wp_guards h hash o turn turn_ok options)|].
  intros res p' [(A & _ & Hr)|(l & s1 & Hg & _ & A1 & Hf)].
  { split; [done|]. intros resp Heq. left. by destruct (Hr _ Heq). }
  pose proof (asyn_ok o _ _ A1 Hok) as Hok1.
  destruct Htr as [->|[->| ->]]; cbn [final] in Hf; cbn [cookie_reason].
  - pose proof (wp_refresh_route l s1 t Hok1) as Hw. unfold wp in Hw. rewrite Hf in Hw. destruct Hw as [A2 Hw]. split; [by etrans|done].
  - pose proof (wp_logout_route l s1 t Hok1) as Hw. unfold wp in Hw. rewrite Hf in Hw. destruct Hw as [A2 Hw]. split; [by etrans|].
    intros resp Heq. destruct (Hw _ Heq) as [?|(session & header & ? & ? & ? & ? & ?)]; [by left|right].
    exists l, s1, session. split; [|done]. split_and!; [done..|by exists header].
  - pose proof (wp_password_route r l s1 t Hok1) as Hw. unfold wp in Hw. rewrite Hf in Hw. destruct Hw as [A2 Hw]. split; [by etrans|].
    intros resp Heq. destruct (Hw _ Heq) as [?|(session & header & c & n & s2 & s3 & ? & ? & ? & ? & ? & ? & ? & ?)]; [by left|right].
    exists l, s1, session, c, n, s2, s3. split; [|done]. split_and!; [done..|by exists header].
Qed.
Lemma wp_auth_router tr r s t : auth_ok o (comp s) →
  wp (auth_router h hash localeCompare o turn services router_options (Some tr) r) (λ res p', ∃ resp, res = Ok resp ∧
    asyn o s p'.1 ∧ (set_cookies resp = [] ∨ cookie_reason tr r s resp p')) (s, t).
Proof.
  intros Hok. unfold auth_router, route. apply wp_catch.
  apply (wp_mono _ (cookie_post (cookie_reason tr r s) s)).
  - destruct tr; [| | |apply wp_route_guarded; auto..].
    + by apply wp_session_route.
    + refine (wp_public (λ _, login_route h hash localeCompare o turn services router_options r)
        (λ resp p', m_mode options = mode_local ∧ ∃ u p, parsed_body r ≫= loginRequestSchema = Some (u, p) ∧
           issued (login_queued {| username := u; password := p; address := client_address r |}) s p'.1 resp) r s t Hok _).
      intros l s1 A1 Hok1 _. eapply wp_mono; [by apply wp_login_route|].
      intros res p' [A2 Hc]. split; [by etrans|]. intros resp Heq. destruct (Hc _ Heq) as [?|(? & u & p & ? & ?)]; [by left|right].
      split; [done|]. exists u, p. split; [done|]. by eapply issued_before.
    + refine (wp_public (λ _, setup_route h hash localeCompare o turn services router_options r)
        (λ resp p', m_mode options = mode_local ∧ ∃ p, parsed_body r ≫= setupRequestSchema = Some p ∧
           issued (setup_queued {| setup_password := p; setup_address := client_address r |}) s p'.1 resp) r s t Hok _).
      intros l s1 A1 Hok1 _. eapply wp_mono; [by apply wp_setup_route|].
      intros res p' [A2 Hc]. split; [by etrans|]. intros resp Heq. destruct (Hc _ Heq) as [?|(? & u & ? & ?)]; [by left|right].
      split; [done|]. exists u. split; [done|]. by eapply issued_before.
  - intros [resp|e] [s' t'] [A Hc]; cbn [fst] in *; [|wp_step].
    + exists resp. split_and!; [done|done|]. destruct (Hc _ eq_refl); [by left|by right].
    + eexists. split; [reflexivity|]. split; [done|by left].
Qed.
End facts.


(** * A login *)

Definition sample_router_options : AuthRouterOptions :=
  {| auth_options := sample_http_options; basePath := js "/"; secureCookie := true |}.
Definition sample_login : HttpRequest := {|
  http_request := sample_cookie_request; assertions := no_assertions; originalUrl := js "/api/auth/login"; baseUrl := js "/api";
  params_id := []; ip := None;
  req_body := Parsed (Some (JObj [(js "username", JStr (js "admin")); (js "password", JStr (js "pw"))])) |}.
Definition sample_workspace : @handler unit unit service_call thrown service_resp := λ c u w,
  match c as c return res thrown (service_resp c) * (unit * unit) with
  | Ensure_workspace => (Ok tt, (u, w))
  | _ => (Throw Other_error, (u, w))
  end.
#[local] Existing Instance sample_env.
#[local] Existing Instance no_order_comparator.
