(* ===== verification/SettingsRoutes.v ===== *)
(** [apps/server/src/settings-routes.ts]: the routes of the workspace settings.

    The constraints of the deployment are the object that the parsers of
    [Settings] check again on every use. *)
From S2P Require Import Prelude JsMap SafeString Json Double Headers Origin Upstream Settings SettingsFacts WsAuthIndex AuthService AuthFacts.
From S2P Require Import AuthSafety UpstreamFacts AuthMiddleware MiddlewareFacts Routes TabRoutes.
Open Scope Z_scope.

(** * The answer on the wire *)

Definition limit_json (l : NumericSettingLimit) : json :=
  JObj [(js "min", num_json (limit_min l)); (js "max", num_json (limit_max l)); (js "step", num_json (limit_step l))].
Definition names {A} `{ZodEnum A} (l : list A) : json := JArr ((λ a, JStr (name a)) <$> l).
Definition limits_json (l : WorkspaceSettingsLimits) : json := JObj (zip limits_keys
  [names (fontFamilies l); limit_json (l_fontSize l); limit_json (l_lineHeight l); limit_json (l_letterSpacing l);
   limit_json (l_scrollback l); names (themes l); names (cursorStyles l); names (bellBehaviors l);
   names (reconnectBehaviors l); names (workspaceShortcutModes l); limit_json (l_tmuxHistoryLimit l);
   limit_json (l_staleSessionCleanupHours l)]).
Definition response_json (r : SettingsResponse) : json :=
  JObj [(js "settings", settings_json (r_settings r)); (js "limits", limits_json (r_limits r));
        (js "allowedShells", JArr (JStr <$> r_allowedShells r))].

(** The properties that the router reads from its constraints. *)
Record SettingsConstraints := { c_limits : json; c_allowedShells : json }.
Definition constraints_json (c : SettingsConstraints) : json :=
  JObj [(js "limits", c_limits c); (js "allowedShells", c_allowedShells c)].

Record settings_locals := {
  validatedSettings_ : option WorkspaceSettings;
  authoritativeSettings : option SettingsResponse;
}.
Definition no_settings_locals : settings_locals := {| validatedSettings_ := None; authoritativeSettings := None |}.
Definition keep_settings (s : WorkspaceSettings) (l : settings_locals) : settings_locals :=
  {| validatedSettings_ := Some s; authoritativeSettings := authoritativeSettings l |}.
Definition keep_response (r : SettingsResponse) (l : settings_locals) : settings_locals :=
  {| validatedSettings_ := validatedSettings_ l; authoritativeSettings := Some r |}.

Inductive settings_route := Get_settings | Put_settings.
Definition mapError (e : thrown) : Z * jsstr :=
  match e with
  | InvalidRequestError => (400, js "invalid_request")
  | _ => (500, js "operation_failed")
  end.

Section router.
Context `{Platform, LowerCase, UrlParser, ProxyLibraries} {W T : Type} (h : @handler auth W ev error resp)
  (hash : jsstr → jsstr) (o : AuthServiceOptions) (turn : wait → sys auth W ev → sys auth W ev)
  (services : @handler unit T service_call thrown service_resp) (options : AuthMiddlewareOptions)
  (constraints : SettingsConstraints).
Abbreviation RM := (M (sys auth W ev * sys unit T service_call) thrown).
Abbreviation handler_of := (Locals settings_locals → RM (step settings_locals)).

Definition authoritative_input (s : WorkspaceSettings) : json :=
  JObj [(js "settings", settings_json s); (js "limits", c_limits constraints);
        (js "allowedShells", c_allowedShells constraints)].
Definition buildAuthoritativeResponse : RM SettingsResponse :=
  let! s := perform turn services Settings_snapshot in
  of_option (parseWorkspaceSettingsResponse (authoritative_input s)) Other_error.
Definition prepareAuthoritativeResponse : handler_of := λ l,
  let! r := buildAuthoritativeResponse in ret (Next (set_route (keep_response r (local_route l)) l)).

Definition requireAuth (r : HttpRequest) : handler_of := λ l,
  on_auth (requireAuthentication h hash turn options (http_request r) (assertions r) l).
Definition requireMutation (r : HttpRequest) : handler_of := λ l,
  on_auth (requireMutationSecurity h options (http_request r) l).
Definition touch_activity (r : HttpRequest) : handler_of := λ l,
  on_auth (touchHttpActivity h hash o (http_request r) l).
Definition parseBody (r : HttpRequest) : handler_of := parseRequestBody turn isBodyParserClientError r.
Definition validateMutation (r : HttpRequest) : handler_of :=
  validated (v ← parsed_body r; parseWorkspaceSettingsMutation v (Some (constraints_json constraints))) keep_settings.

Definition handlers (t : settings_route) (r : HttpRequest) : list handler_of :=
  match t with
  | Get_settings => [requireAuth r; prepareAuthoritativeResponse; touch_activity r]
  | Put_settings => [requireAuth r; requireMutation r; parseBody r; validateMutation r; touch_activity r]
  end.

Definition validatedSettings (l : Locals settings_locals) : RM WorkspaceSettings :=
  of_option (validatedSettings_ (local_route l)) Other_error.
Definition authoritativeResponse (l : Locals settings_locals) : RM SettingsResponse :=
  of_option (authoritativeSettings (local_route l)) Other_error.

Definition final (t : settings_route) (l : Locals settings_locals) : RM Response :=
  match t with
  | Get_settings => let! a := authoritativeResponse l in ret (json_response 200 (response_json a))
  | Put_settings =>
      let! s := validatedSettings l in
      let! result := perform turn services (Settings_replace s) in
      match result with
      | not_committed => ret (sendError 500 (js "operation_failed"))
      | committed_durability_uncertain => ret (sendError 500 (js "durability_uncertain"))
      | committed => let! a := buildAuthoritativeResponse in ret (json_response 200 (response_json a))
      end
  end.

Definition settings_router (t : option settings_route) (r : HttpRequest) : RM Response :=
  match t with
  | None => ret (sendError 404 (js "not_found"))
  | Some t => route mapError (run_chain (handlers t r) (final t) (Build_Locals None None no_settings_locals))
  end.
End router.

(** * Properties

    The routes of the settings: who reads and replaces them, with what. *)

(** * What the parsers of the router accept *)

Section parsed.
Context `{NormalForm}.

Lemma mutation_ok v c s : parseWorkspaceSettingsMutation v c = Some s → settings_ok s ∧ canonical s ∧ within s c = true.
Proof.
  unfold parseWorkspaceSettingsMutation, workspaceSettingsMutationSchema.
  intros (s0 & (fs & _ & (x & _ & Hs0)%prop_Some)%bind_Some & Hw)%bind_Some. cbn zeta in Hw.
  case_match eqn:Hc; simplify_eq. apply workspaceSettingsSchema_ok in Hs0 as [Hs0 _].
  by destruct (normalizeCursorAccent_ok _ Hs0).
Qed.
Definition response_ok (a : SettingsResponse) : Prop :=
  settings_ok (r_settings a) ∧ canonical (r_settings a) ∧
  assertWithinDeployment (r_settings a) {| limits := r_limits a; allowedShells := r_allowedShells a |} = true.
Lemma parsed_response_ok v a : parseWorkspaceSettingsResponse v = Some a → response_ok a.
Proof.
  unfold parseWorkspaceSettingsResponse, workspaceSettingsResponseSchema.
  intros (p & (fs & _ & (s & (x & _ & Hs)%prop_Some & (l & _ & (sh & _ & [= <-])%bind_Some)%bind_Some)%bind_Some)%bind_Some & Hw)%bind_Some.
  cbn [r_settings r_limits r_allowedShells] in Hw. cbn zeta in Hw.
  case_match eqn:Hc; [|done]. injection Hw as <-. apply workspaceSettingsSchema_ok in Hs as [Hs _].
  by destruct (normalizeCursorAccent_ok _ Hs).
Qed.

(** Valid settings within the limits are answered as they are. *)
Lemma authoritative_total constraints s : settings_ok s → canonical s → within s (Some (constraints_json constraints)) = true →
  ∃ c, workspaceSettingsConstraintsSchema (constraints_json constraints) = Some c ∧
    parseWorkspaceSettingsResponse (authoritative_input constraints s) =
      Some {| r_settings := s; r_limits := limits c; r_allowedShells := allowedShells c |}.
Proof.
  intros Hok Hc Hw. cbn [within] in Hw.
  destruct (workspaceSettingsConstraintsSchema _) as [c|] eqn:E; [|done]. exists c. split; [done|].
  unfold workspaceSettingsConstraintsSchema, constraints_json in E.
  apply bind_Some in E as (fs & Hfs & (l & (x & Hx & Hl)%prop_Some & (sh & (y & Hy & Hsh)%prop_Some & [= <-])%bind_Some)%bind_Some).
  change (strict_object _ _) with (Some [(js "limits", c_limits constraints); (js "allowedShells", c_allowedShells constraints)]) in Hfs.
  injection Hfs as <-. change (field _ _) with (Some (c_limits constraints)) in Hx. injection Hx as <-.
  change (field _ _) with (Some (c_allowedShells constraints)) in Hy. injection Hy as <-.
  unfold parseWorkspaceSettingsResponse, workspaceSettingsResponseSchema, authoritative_input.
  change (strict_object _ _) with (Some [(js "settings", settings_json s); (js "limits", c_limits constraints);
    (js "allowedShells", c_allowedShells constraints)]). cbn [mbind option_bind].
  change (prop _ "settings" _) with (workspaceSettingsSchema (settings_json s)).
  change (prop _ "limits" _) with (workspaceSettingsLimitsSchema (c_limits constraints)).
  change (prop _ "allowedShells" _) with (uniqueOptions absoluteShellSchema (c_allowedShells constraints)).
  rewrite workspaceSettingsSchema_json by done. rewrite Hl, Hsh. cbn [mbind option_bind r_settings r_limits r_allowedShells].
  cbn zeta. rewrite normalizeCursorAccent_canonical by done. by rewrite Hw.
Qed.
End parsed.

Section facts.
Context `{NormalForm, LowerCase, !UrlParser, !ProxyLibraries} {W T : Type} (h : @handler auth W ev error resp)
  (hash : jsstr → jsstr) (o : AuthServiceOptions) `{!AuthEnv o h} (turn : wait → sys auth W ev → sys auth W ev)
  (turn_ok : ∀ w s, asyn o s (turn w s)) (services : @handler unit T service_call thrown service_resp)
  (options : AuthMiddlewareOptions) (constraints : SettingsConstraints).
Implicit Types (s : sys auth W ev) (t : sys unit T service_call).
Abbreviation state := (sys auth W ev * sys unit T service_call)%type.

(** The store was asked for its settings, and they were answered with the
    limits of the deployment. *)
Definition answers_snapshot t t' (resp : res thrown SettingsResponse) : Prop :=
  (∃ e, called services Settings_snapshot t (Throw e) t' ∧ resp = Throw e) ∨
  ∃ ws, called services Settings_snapshot t (Ok ws) t' ∧
    resp = match parseWorkspaceSettingsResponse (authoritative_input constraints ws) with
           | Some a => Ok a | None => Throw Other_error end.

Lemma wp_build s t : wp (buildAuthoritativeResponse turn services constraints)
  (λ r p', p'.1 = s ∧ answers_snapshot t p'.2 r) (s, t).
Proof.
  unfold buildAuthoritativeResponse. apply wp_bind, wp_called. intros r t1 Hc.
  destruct r as [ws|e]; [|split; [done|left; by exists e]].
  apply wp_of_option; [intros a Ha|intros Ha]; (split; [done|]); right; exists ws; by rewrite Ha.
Qed.

(** What a failure of a service is answered with. *)
Definition failed (e : thrown) (resp : Response) : Prop := resp = sendError (mapError e).1 (mapError e).2.
Definition answered (a : SettingsResponse) (resp : Response) : Prop := resp = json_response 200 (response_json a).

Definition read_post (r : HttpRequest) s t (resp : Response) (p' : state) : Prop :=
  ∃ st s0 s1 a, asyn o s s0 ∧ recognised h hash o (http_request r) s0 st ∧ comp s1 = comp s0 ∧ mode st = m_mode options ∧
    answers_snapshot t p'.2 a ∧ asyn o s1 p'.1 ∧
    match a with
    | Throw e => failed e resp
    | Ok a => 400 <= status resp ∧ set_cookies resp = [] ∨
        answered a resp ∧ ∃ (l : Locals settings_locals) s2, guarded h hash o options (http_request r) (assertions r) false s s2 l ∧ asyn o s2 p'.1
    end.
Definition write_post (r : HttpRequest) s t (resp : Response) (p' : state) : Prop :=
  ∃ (l : Locals settings_locals) s1 ws v x t1, guarded h hash o options (http_request r) (assertions r) true s s1 l ∧ asyn o s s1 ∧ asyn o s1 p'.1 ∧
    parsed_body r = Some v ∧ parseWorkspaceSettingsMutation v (Some (constraints_json constraints)) = Some ws ∧
    called services (Settings_replace ws) t x t1 ∧
    match x with
    | Ok committed => ∃ a, answers_snapshot t1 p'.2 a ∧
        match a with Ok a => answered a resp | Throw e => failed e resp end
    | Ok not_committed => p'.2 = t1 ∧ resp = sendError 500 (js "operation_failed")
    | Ok committed_durability_uncertain => p'.2 = t1 ∧ resp = sendError 500 (js "durability_uncertain")
    | Throw e => p'.2 = t1 ∧ failed e resp
    end.
Definition settings_post (tr : settings_route) (r : HttpRequest) s t (resp : Response) (p' : state) : Prop :=
  (p'.2 = t ∧ 400 <= status resp ∧ set_cookies resp = []) ∨
  match tr with Get_settings => read_post r s t resp p' | Put_settings => write_post r s t resp p' end.
Definition replied (tr : settings_route) (r : HttpRequest) s t (x : res thrown Response) (p' : state) : Prop :=
  ∃ resp, x = Ok resp ∧ asyn o s p'.1 ∧ settings_post tr r s t resp p'.

Lemma mapError_refuses e : 400 <= (mapError e).1.
Proof. destruct e; cbn; lia. Qed.
Lemma refused_replied tr r s t s' code e : asyn o s s' → 400 <= code → replied tr r s t (Ok (sendError code e)) (s', t).
Proof. intros Ha Hc. exists (sendError code e). split_and!; try done. by left. Qed.

Lemma guarded_from {B} r a mutation s s1 s2 (l : Locals B) : asyn o s s1 →
  guarded h hash o options r a mutation s1 s2 l → guarded h hash o options r a mutation s s2 l.
Proof.
  intros A1 [(st & s' & A2 & Hst) Hm]. split.
  - exists st, s'. split; [etrans; [exact A1|exact A2]|done].
  - intros Hmut. destruct (Hm Hmut) as (Hq & session & csrf & s3 & A3 & Hs). split; [done|].
    exists session, csrf, s3. split; [etrans; [exact A1|exact A3]|done].
Qed.
Lemma wp_get_settings r s t : auth_ok o (comp s) →
  wp (settings_router h hash o turn services options constraints (Some Get_settings) r) (replied Get_settings r s t) (s, t).
Proof.
  intros Hok. unfold settings_router, route. apply wp_catch. cbn [handlers]. apply wp_chain, wp_on_auth.
  eapply wp_mono; [by apply (wp_requireAuthentication h hash o turn turn_ok options)|].
  intros x s1 [A1 [(l' & st & -> & Hau & Hl & Hr) | ->]]; [|apply refused_replied; [done|lia]].
  apply wp_chain. unfold prepareAuthoritativeResponse. apply wp_bind. eapply wp_mono; [apply wp_build|].
  intros a [s1' t1] [Hs1 Ha]; cbn [fst snd] in *; subst s1'.
  destruct (au_second _ _ _ _ _ _ _ _ _ _ Hau) as (s0 & A01 & Hrec & Hcomp).
  assert (∀ p' resp, p'.2 = t1 → asyn o s1 p'.1 → match a with
    | Throw e => failed e resp
    | Ok a => 400 <= status resp ∧ set_cookies resp = [] ∨
        answered a resp ∧ ∃ (l : Locals settings_locals) s2, guarded h hash o options (http_request r) (assertions r) false s s2 l ∧ asyn o s2 p'.1
    end → replied Get_settings r s t (Ok resp) p') as Hdone.
  { intros [s2 t2] resp Ht A2 Hm. cbn [fst snd] in *. subst t2. exists resp. split; [done|]. split; [etrans; [exact A1|exact A2]|].
    right. exists st, s0, s1, a. split_and!; try done. by destruct Hau. }
  destruct a as [a|e]; [|apply wp_ret; by apply Hdone].
  apply wp_ret. eapply wp_mono.
  { eapply (wp_last_touch h hash o options (http_request r) (assertions r) false
      (final turn services constraints Get_settings) _ s1 s1 t1 st); [by eapply asyn_ok| | |reflexivity].
    - split_and!; [by apply rtc_refl|exact Hl|by destruct Hau|by destruct Hau].
    - done. }
  intros x [s2 t2] [(A2 & Ht & Hx)|(l2 & s3 & Hg & Hth & A3 & Hf)]; cbn [fst snd] in *.
  - subst t2. destruct x as [resp|e].
    + destruct (Hx _ eq_refl). by apply Hdone; [..|left].
    + apply wp_ret. apply Hdone; [done|done|left]. split; [apply mapError_refuses|done].
  - cbn [through local_route] in Hth. unfold final, authoritativeResponse in Hf. rewrite Hth in Hf. injection Hf as <- <- <-.
    apply Hdone; [done|exact A3|right]. split; [done|]. exists l2, s3. split; [exact (guarded_from _ _ _ _ _ _ _ A1 Hg)|apply rtc_refl].
Qed.
Lemma wp_put_final r s1 t (l : Locals settings_locals) v ws : auth_ok o (comp s1) → validatedSettings_ (local_route l) = Some ws →
  parsed_body r = Some v → parseWorkspaceSettingsMutation v (Some (constraints_json constraints)) = Some ws →
  wp (final turn services constraints Put_settings l) (λ x p', asyn o s1 p'.1 ∧ ∃ y t1, called services (Settings_replace ws) t y t1 ∧
    match y with
    | Ok committed => ∃ a, answers_snapshot t1 p'.2 a ∧
        match a with Ok a => x = Ok (json_response 200 (response_json a)) | Throw e => x = Throw e end
    | Ok not_committed => p'.2 = t1 ∧ x = Ok (sendError 500 (js "operation_failed"))
    | Ok committed_durability_uncertain => p'.2 = t1 ∧ x = Ok (sendError 500 (js "durability_uncertain"))
    | Throw e => p'.2 = t1 ∧ x = Throw e
    end) (s1, t).
Proof.
  intros Hok Hl Hv Hp. unfold final, validatedSettings. rewrite Hl. apply wp_bind, wp_ret, wp_bind, wp_called.
  intros y t1 Hc. cbn [immediate].
  pose proof (turn_ok Await_service s1) as A1. set (s2 := turn Await_service s1) in *.
  destruct y as [[]|e].
  - apply wp_ret. split; [done|]. by exists (Ok not_committed), t1.
  - apply wp_bind. eapply wp_mono; [apply wp_build|]. intros a [s3 t2] [Hs Ha]. cbn [fst snd] in *. subst s3.
    destruct a as [a|e]; [apply wp_ret|]; (split; [done|]); eexists (Ok committed), t1; (split; [done|]); eexists; (split; [exact Ha|done]).
  - apply wp_ret. split; [done|]. by exists (Ok committed_durability_uncertain), t1.
  - split; [done|]. by exists (Throw e), t1.
Qed.
Lemma wp_put_settings r s t : auth_ok o (comp s) →
  wp (settings_router h hash o turn services options constraints (Some Put_settings) r) (replied Put_settings r s t) (s, t).
Proof.
  intros Hok. unfold settings_router, route. apply wp_catch. cbn [handlers].
  eapply wp_mono; [apply (wp_guards h hash o turn turn_ok options (http_request r) (assertions r) true
    [λ b b', b' = b ∧ ∃ v, req_body r = Parsed v;
     λ b b', ∃ x, (v ← parsed_body r; parseWorkspaceSettingsMutation v (Some (constraints_json constraints))) = Some x ∧ b' = keep_settings x b]
    [parseBody turn r; validateMutation constraints r]); [|done]|].
  { apply List.Forall2_cons; [by apply parse_benign|]. apply List.Forall2_cons; [by apply validated_benign|]. apply List.Forall2_nil. }
  intros x [s2 t2] [(A2 & Ht & Hx)|(l & s1 & Hg & Hth & A1 & Hf)]; cbn [fst snd] in *.
  - subst t2. destruct x as [resp|e].
    + destruct (Hx _ eq_refl). exists resp. split_and!; [done|done|]. by left.
    + apply wp_ret. by apply refused_replied; [|apply mapError_refuses].
  - cbn [through local_route] in Hth. destruct Hth as (b1 & [-> _] & b2 & (ws & Hp & ->) & Hb).
    apply bind_Some in Hp as (v & Hv & Hp).
    pose proof (wp_put_final r s1 t l v ws ltac:(by eapply asyn_ok) ltac:(by rewrite Hb) Hv Hp) as Hw.
    unfold wp in Hw. rewrite Hf in Hw. cbn [fst snd] in Hw. destruct Hw as (A2 & y & t1 & Hc & Hy).
    assert (∀ resp, match y with
      | Ok committed => ∃ a, answers_snapshot t1 t2 a ∧ match a with Ok a => answered a resp | Throw e => failed e resp end
      | Ok not_committed => t2 = t1 ∧ resp = sendError 500 (js "operation_failed")
      | Ok committed_durability_uncertain => t2 = t1 ∧ resp = sendError 500 (js "durability_uncertain")
      | Throw e => t2 = t1 ∧ failed e resp
      end → replied Put_settings r s t (Ok resp) (s2, t2)) as Hdone.
    { intros resp Hm. exists resp. split; [done|]. split; [etrans; [exact A1|exact A2]|]. right.
      exists l, s1, ws, v, y, t1. by split_and!. }
    destruct y as [[]|e].
    + destruct Hy as [-> ->]. by apply Hdone.
    + destruct Hy as (a & Ha & Hres). destruct a as [a|e]; subst x; [|apply wp_ret]; apply Hdone; by eexists.
    + destruct Hy as [-> ->]. by apply Hdone.
    + destruct Hy as [-> ->]. apply wp_ret. by apply Hdone.
Qed.
End facts.

(** Every request to a settings route gets a response.  Reading asks the
    store only once the request's cookie was recognised for a session of the
    configured mode, and answers 200 with exactly the store's settings and the
    deployment's limits while the session is still in force; replacing calls
    the store once, behind all guards of a mutation, with the validated body,
    and answers 200 only for a durable commit, with the settings then in force;
    a commit that was refused, failed or is not durable is an error of its own,
    and no service is called for a request that was refused.  What is stored
    and what is answered is well formed, canonical and within the deployment's
    limits, and a store that holds such settings is always answered with them
    unchanged. *)
Theorem settings_routes_exact `{NormalForm, LowerCase, !UrlParser, !ProxyLibraries} {W T : Type}
    (h : @handler auth W ev error resp) (hash : jsstr → jsstr) (o : AuthServiceOptions) `{!AuthEnv o h}
    (turn : wait → sys auth W ev → sys auth W ev) (services : @handler unit T service_call thrown service_resp)
    (options : AuthMiddlewareOptions) (constraints : SettingsConstraints) tr (r : HttpRequest)
    (s : sys auth W ev) (t : sys unit T service_call) :
  (∀ w s, asyn o s (turn w s)) → auth_ok o (comp s) →
  (∃ resp p', settings_router h hash o turn services options constraints (Some tr) r (s, t) = (Ok resp, p') ∧
    asyn o s p'.1 ∧ settings_post h hash o services options constraints tr r s t resp p') ∧
  (∀ v ws, parseWorkspaceSettingsMutation v (Some (constraints_json constraints)) = Some ws →
     settings_ok ws ∧ canonical ws ∧ within ws (Some (constraints_json constraints)) = true) ∧
  (∀ v a, parseWorkspaceSettingsResponse v = Some a → response_ok a) ∧
  (∀ ws, settings_ok ws → canonical ws → within ws (Some (constraints_json constraints)) = true →
     ∃ a, parseWorkspaceSettingsResponse (authoritative_input constraints ws) = Some a ∧ r_settings a = ws).
Proof.
  intros turn_ok Hok. split_and!.
  - assert (wp (settings_router h hash o turn services options constraints (Some tr) r)
      (replied h hash o services options constraints tr r s t) (s, t)) as Hw
      by (destruct tr; [by apply wp_get_settings|by apply wp_put_settings]).
    unfold wp in Hw. destruct (settings_router _ _ _ _ _ _ _ _ _ _) as [x p']. destruct Hw as (resp & Hx & Hp).
    cbn [fst snd] in *. exists resp, p'. by rewrite Hx.
  - intros v ws. apply mutation_ok.
  - apply parsed_response_ok.
  - intros ws Hs Hc Hw. destruct (authoritative_total constraints ws Hs Hc Hw) as (c & _ & Hp). by eexists.
Qed.

(** * Replacing the settings *)

Definition split_constraints : SettingsConstraints :=
  match sample_constraints with
  | JObj [(_, l); (_, a)] => {| c_limits := l; c_allowedShells := a |}
  | _ => {| c_limits := JNull; c_allowedShells := JNull |}
  end.
Definition sample_put : HttpRequest := {|
  http_request := sample_cookie_request; assertions := no_assertions;
  originalUrl := js "/api/settings"; baseUrl := js "/api"; params_id := []; ip := None;
  req_body := Parsed (Some (JObj [(js "settings", settings_json sample_settings)])) |}.
Definition sample_store : @handler unit unit service_call thrown service_resp := λ c u w,
  match c as c return res thrown (service_resp c) * (unit * unit) with
  | Settings_snapshot => (Ok sample_settings, (u, w))
  | Settings_replace _ => (Ok committed, (u, w))
  | _ => (Throw Other_error, (u, w))
  end.
#[local] Existing Instance sample_env.
Theorem settings_routes_exact_witness :
  let _ := sample_platform in let _ := ascii_lower_case in let _ := sample_provider_urls in let _ := sample_libraries in
  ∃ resp p', settings_router sample_handler (λ s, s) sample_options (λ _ s, s) sample_store sample_http_options
      split_constraints (Some Put_settings) sample_put (sample_after, Sys tt tt []) = (Ok resp, p') ∧
    status resp = 200 ∧ (log p'.2).*2 = [true; true] ∧
    settings_post sample_handler (λ s, s) sample_options sample_store sample_http_options split_constraints
      Put_settings sample_put sample_after (Sys tt tt []) resp p'.
Proof.
  intros pl lo u li. assert (@NormalForm sample_platform) as Hn by (split; done).
  destruct (proj1 (@settings_routes_exact sample_platform Hn lo u li _ _ sample_handler (λ s, s) sample_options _ (λ _ s, s) sample_store
    sample_http_options split_constraints Put_settings sample_put sample_after (Sys tt tt []) (λ _ s, ltac:(apply rtc_refl)) sample_after_ok))
    as (resp & p' & Hr & _ & Hpost).
  exists resp, p'. split; [exact Hr|]. split; [|split; [|exact Hpost]].
  - apply (f_equal (λ x, match x.1 with Ok r => status r | Throw _ => 0 end)) in Hr. cbn [fst] in Hr. rewrite <-Hr. by vm_compute.
  - apply (f_equal (λ x, (log x.2.2).*2)) in Hr. cbn [fst snd] in Hr. rewrite <-Hr. by vm_compute.
Defined.
