(* ===== verification/Admin.v ===== *)
(** [packages/shared/src/admin.ts]: the records of the administration view with
    their schemas, as parsers of JSON values.

    The results are immutable copies; [structuredClone] and [deepFreeze] leave
    no trace. *)
From S2P Require Import Prelude JsMap SafeString Json Double Tabs Settings.
Open Scope Z_scope.

Inductive AdminAction := restart_bridge | act_terminate | act_recreate | restart_session.
#[export] Instance AdminAction_eq_dec : EqDecision AdminAction.
Proof. solve_decision. Defined.
#[export] Instance adminActionSchema : ZodEnum AdminAction :=
  {| options := [restart_bridge; act_terminate; act_recreate; restart_session];
     name := λ a, match a with
       | restart_bridge => js "restart_bridge"
       | act_terminate => js "terminate"
       | act_recreate => js "recreate"
       | restart_session => js "restart_session"
       end |}.
#[export] Instance desiredStateSchema : ZodEnum DesiredState :=
  {| options := [active; stopped]; name := λ d, match d with active => js "active" | stopped => js "stopped" end |}.
#[export] Instance sessionStateSchema : ZodEnum SessionState :=
  {| options := [running; state_stopped; unknown];
     name := λ d, match d with running => js "running" | state_stopped => js "stopped" | unknown => js "unknown" end |}.

Record AdminSessionRow := {
  row_id : jsstr;
  row_displayName : jsstr;
  row_tmuxSessionName : jsstr;
  row_desiredState : DesiredState;
  row_observedState : SessionState;
  row_createdAt : jsstr;
  row_lastActivityAt : jsstr;
  row_ageSeconds : num;
  row_connectedWebSockets : Z;
  row_bridgePid : option Z;
  row_cleanupEligible : bool;
  row_lifecycleError : option jsstr;
}.
Record AdminMemory := { mem_rss : Z; mem_heapUsed : Z }.
Record AdminTotals := { tot_tabs : Z; tot_runningSessions : Z; tot_bridges : Z; tot_webSockets : Z }.
Record AdminCleanup := { cl_enabled : bool; cl_running : bool; cl_lastRunAt : option jsstr }.
Record AdminSnapshot := {
  generatedAt : jsstr;
  uptimeSeconds : num;
  memory : AdminMemory;
  totals : AdminTotals;
  cleanup : AdminCleanup;
  sessions : list AdminSessionRow;
}.
Record CleanupAnswer := {
  ans_disabled : bool;
  ans_examined : Z;
  ans_terminated : Z;
  ans_skipped : Z;
  ans_failed : Z;
  ans_startedAt : jsstr;
  ans_finishedAt : jsstr;
}.

(** * Schemas *)

Section schemas.
Context `{Platform}.

Definition utcTimestampSchema (v : json) : option jsstr := s ← as_string v; if iso_datetime s then Some s else None.
Definition boundedDisplayString (maximumBytes : Z) (v : json) : option jsstr :=
  s ← as_string v;
  safeNormalizedString {| maxUtf8Bytes := Some maximumBytes; opt_trim := false; allowJoinControls := false |} s.
Definition nonnegativeIntegerSchema (v : json) : option Z :=
  n ← as_int v; if nonnegative_int n then Some n else None.
Definition positiveIntegerSchema (v : json) : option Z :=
  n ← as_int v; if is_safe_integer n && (0 <? n) then Some n else None.
Definition nonnegativeNumberSchema (v : json) : option num :=
  n ← as_number v; if num_leb (Num 0 0) n then Some n else None.
(** [schema.nullable()] *)
Definition nullable {A} (schema : json → option A) (v : json) : option (option A) :=
  match v with JNull => Some None | _ => Some <$> schema v end.
Definition idSchema (v : json) : option jsstr := s ← as_string v; if isSessionId s then Some s else None.

Definition row_keys : list jsstr := js <$>
  ["id"; "displayName"; "tmuxSessionName"; "desiredState"; "observedState"; "createdAt"; "lastActivityAt";
   "ageSeconds"; "connectedWebSockets"; "bridgePid"; "cleanupEligible"; "lifecycleError"]%string.
Definition adminSessionRowSchema (v : json) : option AdminSessionRow :=
  fs ← strict_object row_keys v;
  i ← prop fs "id" idSchema;
  n ← prop fs "displayName" (λ v, as_string v ≫= persistedDisplayName);
  tm ← prop fs "tmuxSessionName" (boundedDisplayString 128);
  d ← prop fs "desiredState" enum_schema;
  ob ← prop fs "observedState" enum_schema;
  cr ← prop fs "createdAt" utcTimestampSchema;
  la ← prop fs "lastActivityAt" utcTimestampSchema;
  age ← prop fs "ageSeconds" nonnegativeNumberSchema;
  ws ← prop fs "connectedWebSockets" nonnegativeIntegerSchema;
  pid ← prop fs "bridgePid" (nullable positiveIntegerSchema);
  el ← prop fs "cleanupEligible" as_bool;
  err ← prop fs "lifecycleError" (nullable (boundedDisplayString 128));
  Some {| row_id := i; row_displayName := n; row_tmuxSessionName := tm; row_desiredState := d;
          row_observedState := ob; row_createdAt := cr; row_lastActivityAt := la; row_ageSeconds := age;
          row_connectedWebSockets := ws; row_bridgePid := pid; row_cleanupEligible := el; row_lifecycleError := err |}.

Definition memorySchema (v : json) : option AdminMemory :=
  fs ← strict_object (js <$> ["rss"; "heapUsed"]%string) v;
  a ← prop fs "rss" nonnegativeIntegerSchema;
  b ← prop fs "heapUsed" nonnegativeIntegerSchema;
  Some {| mem_rss := a; mem_heapUsed := b |}.
Definition totalsSchema (v : json) : option AdminTotals :=
  fs ← strict_object (js <$> ["tabs"; "runningSessions"; "bridges"; "webSockets"]%string) v;
  a ← prop fs "tabs" nonnegativeIntegerSchema;
  b ← prop fs "runningSessions" nonnegativeIntegerSchema;
  c ← prop fs "bridges" nonnegativeIntegerSchema;
  d ← prop fs "webSockets" nonnegativeIntegerSchema;
  Some {| tot_tabs := a; tot_runningSessions := b; tot_bridges := c; tot_webSockets := d |}.
Definition cleanupSchema (v : json) : option AdminCleanup :=
  fs ← strict_object (js <$> ["enabled"; "running"; "lastRunAt"]%string) v;
  a ← prop fs "enabled" as_bool;
  b ← prop fs "running" as_bool;
  c ← prop fs "lastRunAt" (nullable utcTimestampSchema);
  Some {| cl_enabled := a; cl_running := b; cl_lastRunAt := c |}.

Definition snapshot_keys : list jsstr := js <$>
  ["generatedAt"; "uptimeSeconds"; "memory"; "totals"; "cleanup"; "sessions"]%string.
Definition parseAdminSnapshot (v : json) : option AdminSnapshot :=
  fs ← strict_object snapshot_keys v;
  at_ ← prop fs "generatedAt" utcTimestampSchema;
  up ← prop fs "uptimeSeconds" nonnegativeNumberSchema;
  mem ← prop fs "memory" memorySchema;
  tot ← prop fs "totals" totalsSchema;
  cl ← prop fs "cleanup" cleanupSchema;
  rows ← prop fs "sessions" (λ v, l ← as_array v; mapM adminSessionRowSchema l);
  if (length rows <=? 20)%nat
  then Some {| generatedAt := at_; uptimeSeconds := up; memory := mem; totals := tot; cleanup := cl; sessions := rows |}
  else None.
Definition parseAdminActionRequest (v : json) : option AdminAction :=
  fs ← strict_object [js "action"] v; prop fs "action" enum_schema.

Definition result_keys : list jsstr := js <$>
  ["disabled"; "examined"; "terminated"; "skipped"; "failed"; "startedAt"; "finishedAt"]%string.
Definition parseCleanupResult (v : json) : option CleanupAnswer :=
  fs ← strict_object result_keys v;
  d ← prop fs "disabled" as_bool;
  e ← prop fs "examined" nonnegativeIntegerSchema;
  te ← prop fs "terminated" nonnegativeIntegerSchema;
  sk ← prop fs "skipped" nonnegativeIntegerSchema;
  fa ← prop fs "failed" nonnegativeIntegerSchema;
  st ← prop fs "startedAt" utcTimestampSchema;
  fi ← prop fs "finishedAt" utcTimestampSchema;
  Some {| ans_disabled := d; ans_examined := e; ans_terminated := te; ans_skipped := sk; ans_failed := fa;
          ans_startedAt := st; ans_finishedAt := fi |}.
End schemas.

(** * On the wire *)

Definition or_null {A} (f : A → json) (a : option A) : json := match a with Some a => f a | None => JNull end.
Definition row_json (r : AdminSessionRow) : json := JObj (zip row_keys
  [JStr (row_id r); JStr (row_displayName r); JStr (row_tmuxSessionName r); JStr (name (row_desiredState r));
   JStr (name (row_observedState r)); JStr (row_createdAt r); JStr (row_lastActivityAt r);
   num_json (row_ageSeconds r); JNum (row_connectedWebSockets r); or_null JNum (row_bridgePid r);
   JBool (row_cleanupEligible r); or_null JStr (row_lifecycleError r)]).
Definition memory_json (m : AdminMemory) : json :=
  JObj [(js "rss", JNum (mem_rss m)); (js "heapUsed", JNum (mem_heapUsed m))].
Definition totals_json (t : AdminTotals) : json :=
  JObj [(js "tabs", JNum (tot_tabs t)); (js "runningSessions", JNum (tot_runningSessions t));
        (js "bridges", JNum (tot_bridges t)); (js "webSockets", JNum (tot_webSockets t))].
Definition cleanup_json (c : AdminCleanup) : json :=
  JObj [(js "enabled", JBool (cl_enabled c)); (js "running", JBool (cl_running c));
        (js "lastRunAt", or_null JStr (cl_lastRunAt c))].
Definition snapshot_json (s : AdminSnapshot) : json := JObj (zip snapshot_keys
  [JStr (generatedAt s); num_json (uptimeSeconds s); memory_json (memory s); totals_json (totals s);
   cleanup_json (cleanup s); JArr (row_json <$> sessions s)]).
Definition result_json (a : CleanupAnswer) : json := JObj (zip result_keys
  [JBool (ans_disabled a); JNum (ans_examined a); JNum (ans_terminated a); JNum (ans_skipped a); JNum (ans_failed a);
   JStr (ans_startedAt a); JStr (ans_finishedAt a)]).
