(* ===== verification/AdminRoutes.v ===== *)
(** [apps/server/src/admin-routes.ts]: the routes of the administration.

    The error handler looks at what [validateId] left in the locals.  The only
    failure after it that the handler reports is one of the last handler
    ([validateAction] gives an [InvalidRequestError], which is not reported, and
    [touchHttpActivity] does not fail), so that the report is made there. *)
From S2P Require Import Prelude JsMap SafeString Json Tabs Headers Origin Upstream Settings WsAuthIndex AuthService AuthFacts AuthSafety.
From S2P Require Import UpstreamFacts AuthMiddleware MiddlewareFacts Routes TabRoutes Admin.
Open Scope Z_scope.

Record admin_locals := { validatedAdminId : option jsstr; validatedAdminAction : option AdminAction }.
Definition no_admin_locals : admin_locals := {| validatedAdminId := None; validatedAdminAction := None |}.
Definition keep_admin_id (i : jsstr) (l : admin_locals) : admin_locals :=
  {| validatedAdminId := Some i; validatedAdminAction := validatedAdminAction l |}.
Definition keep_action (a : AdminAction) (l : admin_locals) : admin_locals :=
  {| validatedAdminId := validatedAdminId l; validatedAdminAction := Some a |}.

Inductive admin_route := Get_admin | Post_session | Post_cleanup.

Definition mapError (e : thrown) : Z * jsstr :=
  match e with
  | InvalidRequestError => (400, js "invalid_request")
  | CleanupDisabledError => (409, js "cleanup_disabled")
  | SessionManagerError code =>
      if bool_decide (code = js "tab_not_found") then (404, code)
      else if bool_decide (code = js "invalid_session_state") then (409, code)
      else (500, js "operation_failed")
  | _ => (500, js "operation_failed")
  end.
(** The codes that become the lifecycle error of a session. *)
Definition reportable (code : jsstr) : bool :=
  bool_decide (code = js "invalid_session_state") || bool_decide (code = js "operation_failed").

Section router.
Context `{Platform, LowerCase, UrlParser, ProxyLibraries} {W T : Type} (h : @handler auth W ev error resp)
  (hash : jsstr → jsstr) (o : AuthServiceOptions) (turn : wait → sys auth W ev → sys auth W ev)
  (services : @handler unit T service_call thrown service_resp) (options : AuthMiddlewareOptions).
Abbreviation RM := (M (sys auth W ev * sys unit T service_call) thrown).
Abbreviation handler_of := (Locals admin_locals → RM (step admin_locals)).

Definition tabIdSchema (s : jsstr) : option jsstr := if isSessionId s then Some s else None.
Definition is_empty_object (v : json) : option unit := match v with JObj [] => Some tt | _ => None end.

Definition requireAuth (r : HttpRequest) : handler_of := λ l,
  on_auth (requireAuthentication h hash turn options (http_request r) (assertions r) l).
Definition requireMutation (r : HttpRequest) : handler_of := λ l,
  on_auth (requireMutationSecurity h options (http_request r) l).
Definition touch_activity (r : HttpRequest) : handler_of := λ l,
  on_auth (touchHttpActivity h hash o (http_request r) l).
Definition parse (r : HttpRequest) : handler_of := parseRequestBody turn isBodyParserClientError r.
Definition validateId (r : HttpRequest) : handler_of := validated (tabIdSchema (params_id r)) keep_admin_id.
Definition validateAction (r : HttpRequest) : handler_of :=
  validated (parsed_body r ≫= parseAdminActionRequest) keep_action.
Definition validateEmptyBody (r : HttpRequest) : handler_of := validated (parsed_body r ≫= is_empty_object) (λ _ b, b).

Definition handlers (t : admin_route) (r : HttpRequest) : list handler_of :=
  match t with
  | Get_admin => [requireAuth r; touch_activity r]
  | Post_session => [requireAuth r; requireMutation r; parse r; validateId r; validateAction r; touch_activity r]
  | Post_cleanup => [requireAuth r; requireMutation r; parse r; validateEmptyBody r; touch_activity r]
  end.

Definition validatedId (l : Locals admin_locals) : RM jsstr := of_option (validatedAdminId (local_route l)) Other_error.
Definition validatedAction (l : Locals admin_locals) : RM AdminAction :=
  of_option (validatedAdminAction (local_route l)) Other_error.
Definition action_call (i : jsstr) (a : AdminAction) : service_call :=
  match a with
  | restart_bridge => Sessions_restartBridge i
  | act_terminate => Sessions_terminate i
  | act_recreate => Sessions_recreate i
  | restart_session => Sessions_restart i
  end.
Definition dispatchSessionAction (i : jsstr) (a : AdminAction) : RM unit :=
  let! _ := perform turn services (action_call i a) in ret tt.
(** [contain(() => ...)] *)
Definition contain (m : RM unit) : RM unit := catch m (λ _, ret tt).
(** What the error handler does with the lifecycle errors. *)
Definition report (l : Locals admin_locals) (e : thrown) : RM unit :=
  match validatedAdminId (local_route l) with
  | Some i => if reportable (mapError e).2
              then contain (perform turn services (Admin_recordLifecycleError i (mapError e).2)) else ret tt
  | None => ret tt
  end.

Definition final (t : admin_route) (l : Locals admin_locals) : RM Response :=
  match t with
  | Get_admin =>
      let! v := perform turn services Admin_snapshot in
      let! s := of_option (parseAdminSnapshot v) Other_error in
      ret (json_response 200 (snapshot_json s))
  | Post_session =>
      catch
        (let! i := validatedId l in
         let! a := validatedAction l in
         do! dispatchSessionAction i a in
         do! contain (perform turn services (Admin_clearLifecycleError i)) in
         ret {| status := 204; body := Empty; set_cookies := [] |})
        (λ e, do! report l e in throw e)
  | Post_cleanup =>
      let! v := perform turn services Cleanup_runNow in
      let! a := of_option (parseCleanupResult v) Other_error in
      ret (json_response 200 (result_json a))
  end.

Definition admin_router (t : option admin_route) (r : HttpRequest) : RM Response :=
  if negb (hasCanonicalApiMount r) then ret (sendError 404 (js "not_found"))
  else if hasEncodedPath r then ret (sendError 400 (js "invalid_request"))
  else match t with
       | None => ret (sendError 404 (js "not_found"))
       | Some t => route mapError (run_chain (handlers t r) (final t) (Build_Locals None None no_admin_locals))
       end.
End router.

(** * Properties

    The routes of the administration: who reaches which service, and what is
    recorded of the outcome. *)

Definition admin_mutates (t : admin_route) : bool := match t with Get_admin => false | _ => true end.

Section facts.
Context `{Platform, LowerCase, !UrlParser, !ProxyLibraries} {W T : Type} (h : @handler auth W ev error resp)
  (hash : jsstr → jsstr) (o : AuthServiceOptions) `{!AuthEnv o h} (turn : wait → sys auth W ev → sys auth W ev)
  (turn_ok : ∀ w s, asyn o s (turn w s)) (services : @handler unit T service_call thrown service_resp)
  (options : AuthMiddlewareOptions).
Implicit Types (s : sys auth W ev) (t : sys unit T service_call).
Abbreviation state := (sys auth W ev * sys unit T service_call)%type.
Abbreviation called := (called services).

(** ** The last handlers *)

(** A call whose answer is decoded by a schema. *)
Definition decoded {A} (c : service_call) (schema : service_resp c → option A) (print : A → json) t
    (x : res thrown Response) t' : Prop :=
  ∃ y, called c t y t' ∧ match y with
  | Ok v => x = match schema v with Some a => Ok (json_response 200 (print a)) | None => Throw Other_error end
  | Throw e => x = Throw e
  end.
(** An action on a session: a success clears its lifecycle error, a failure
    of the session's own records one; what comes of that changes nothing. *)
Definition acted (i : jsstr) (a : AdminAction) t (x : res thrown Response) t' : Prop :=
  ∃ y t1, called (action_call i a) t y t1 ∧ match y with
  | Ok _ => x = Ok {| status := 204; body := Empty; set_cookies := [] |} ∧ ∃ z, called (Admin_clearLifecycleError i) t1 z t'
  | Throw e => x = Throw e ∧
      if reportable (mapError e).2 then ∃ z, called (Admin_recordLifecycleError i (mapError e).2) t1 z t' else t' = t1
  end.
Definition admissible_admin (tr : admin_route) (r : HttpRequest) (l : admin_locals) : Prop :=
  match tr with
  | Get_admin => True
  | Post_session => isSessionId (params_id r) = true ∧ validatedAdminId l = Some (params_id r) ∧
      ∃ v a, parsed_body r = Some v ∧ parseAdminActionRequest v = Some a ∧ validatedAdminAction l = Some a
  | Post_cleanup => parsed_body r = Some (JObj [])
  end.
Definition finished (tr : admin_route) (l : admin_locals) t (x : res thrown Response) t' : Prop :=
  match tr with
  | Get_admin => decoded Admin_snapshot parseAdminSnapshot snapshot_json t x t'
  | Post_session => ∃ i a, validatedAdminId l = Some i ∧ validatedAdminAction l = Some a ∧ acted i a t x t'
  | Post_cleanup => decoded Cleanup_runNow parseCleanupResult result_json t x t'
  end.

Lemma wp_decoded {A} (c : service_call) (schema : service_resp c → option A) (print : A → json) s t :
  immediate c = false →
  wp (bind (perform turn services c) (λ v, bind (of_option (schema v) Other_error) (λ a, ret (json_response 200 (print a)))))
    (λ x p', asyn o s p'.1 ∧ decoded c schema print t x p'.2) (s, t).
Proof.
  intros Hi. apply wp_bind, wp_called. rewrite Hi. intros y t1 Hc. pose proof (turn_ok Await_service s) as A1.
  destruct y as [v|e]; [|split; [done|]; by exists (Throw e)].
  apply wp_bind, wp_of_option; [intros a Ha; apply wp_ret|intros Ha]; (split; [done|]); exists (Ok v); by rewrite Ha.
Qed.
Lemma wp_acted i a l s t : validatedAdminId (local_route l) = Some i → validatedAdminAction (local_route l) = Some a →
  wp (final turn services Post_session l) (λ x p', asyn o s p'.1 ∧ acted i a t x p'.2) (s, t).
Proof.
  intros Hi Ha. unfold final, validatedId, validatedAction, report. rewrite Hi, Ha.
  apply wp_catch, wp_bind, wp_ret, wp_bind, wp_ret, wp_bind. unfold dispatchSessionAction. apply wp_bind, wp_called.
  assert (immediate (action_call i a) = false) as -> by by destruct a.
  pose proof (turn_ok Await_service s) as A1. intros y t1 Hc. destruct y as [v|e].
  - apply wp_ret, wp_bind. unfold contain. apply wp_catch, (wp_called turn services (Admin_clearLifecycleError i)). cbn [immediate]. intros z t2 Hz.
    assert (acted i a t (Ok {| status := 204; body := Empty; set_cookies := [] |}) t2) as Hac.
    { exists (Ok v), t1. split_and!; [done..|]. by exists z. }
    destruct z; repeat apply wp_ret; by split.
  - apply wp_bind, wp_if; intros Hr.
    + unfold contain. apply wp_catch, (wp_called turn services (Admin_recordLifecycleError i (mapError e).2)). cbn [immediate]. intros z t2 Hz.
      assert (acted i a t (Throw e) t2) as Hac.
      { exists (Throw e), t1. split_and!; [done..|]. rewrite Hr. by exists z. }
      destruct z; [|apply wp_ret]; apply wp_throw; by split.
    + apply wp_ret, wp_throw. split; [done|]. exists (Throw e), t1. split_and!; [done..|]. by rewrite Hr.
Qed.
Lemma wp_admin_final tr r l s t : admissible_admin tr r (local_route l) →
  wp (final turn services tr l) (λ x p', asyn o s p'.1 ∧ finished tr (local_route l) t x p'.2) (s, t).
Proof.
  intros Had. destruct tr; [by apply wp_decoded| |by apply wp_decoded].
  destruct Had as (_ & Hi & v & a & _ & _ & Ha). eapply wp_mono; [by apply (wp_acted (params_id r) a)|].
  intros x p' [? ?]. split; [done|]. by exists (params_id r), a.
Qed.

(** ** The chains *)

Definition admin_middle (tr : admin_route) (r : HttpRequest) : list (Locals admin_locals → M state thrown (step admin_locals)) :=
  match tr with
  | Get_admin => []
  | Post_session => [parse turn r; validateId r; validateAction r]
  | Post_cleanup => [parse turn r; validateEmptyBody r]
  end.
Definition admin_establishes (tr : admin_route) (r : HttpRequest) : list (admin_locals → admin_locals → Prop) :=
  let parsed := λ b b', b' = b ∧ ∃ v, req_body r = Parsed v in
  match tr with
  | Get_admin => []
  | Post_session => [parsed; λ b b', ∃ x, tabIdSchema (params_id r) = Some x ∧ b' = keep_admin_id x b;
      λ b b', ∃ x, parsed_body r ≫= parseAdminActionRequest = Some x ∧ b' = keep_action x b]
  | Post_cleanup => [parsed; λ b b', ∃ x, parsed_body r ≫= is_empty_object = Some x ∧ b' = b]
  end.
Lemma admin_handlers tr r : handlers h hash o turn options tr r =
  guards h hash o turn options (http_request r) (assertions r) (admin_mutates tr) (admin_middle tr r).
Proof. by destruct tr. Qed.
Lemma admin_middle_benign tr r : Forall2 (benign o) (admin_establishes tr r) (admin_middle tr r).
Proof.
  destruct tr; cbn [admin_establishes admin_middle]; repeat apply List.Forall2_cons; try apply List.Forall2_nil;
    first [by apply parse_benign|by apply validated_benign].
Qed.
Lemma admin_admissible tr r b : through (admin_establishes tr r) no_admin_locals b → admissible_admin tr r b.
Proof.
  destruct tr; cbn [admin_establishes through admissible_admin]; [done| |].
  - intros (b1 & [-> _] & b2 & (i & Hi & ->) & b3 & (a & Ha & ->) & ->). unfold tabIdSchema in Hi.
    destruct (isSessionId (params_id r)); [|done]. injection Hi as <-. split_and!; [done..|].
    apply bind_Some in Ha as (v & Hv & Ha). by exists v, a.
  - intros (b1 & [-> _] & b2 & (x & Hx & ->) & ->). apply bind_Some in Hx as (v & -> & Hx). by destruct v as [| | | | | |[|]].
Qed.

Lemma admin_refuses e : 400 <= (mapError e).1.
Proof. unfold mapError. repeat case_match; cbn; lia. Qed.

(** What became of a request. *)
Definition administered (tr : admin_route) (r : HttpRequest) s t (resp : Response) (p' : state) : Prop :=
  (p'.2 = t ∧ 400 <= status resp) ∨
  ∃ (l : Locals admin_locals) s1 x, guarded h hash o options (http_request r) (assertions r) (admin_mutates tr) s s1 l ∧
    asyn o s s1 ∧ asyn o s1 p'.1 ∧ admissible_admin tr r (local_route l) ∧ finished tr (local_route l) t x p'.2 ∧
    match x with Ok resp' => resp = resp' | Throw e => resp = sendError (mapError e).1 (mapError e).2 end.
Lemma wp_admin_router tr r s t : auth_ok o (comp s) →
  wp (admin_router h hash o turn services options (Some tr) r) (λ x p', ∃ resp, x = Ok resp ∧
    asyn o s p'.1 ∧ administered tr r s t resp p') (s, t).
Proof.
  intros Hok. assert (∀ code e s', asyn o s s' → 400 <= code → ∃ resp, Ok (sendError code e) = (Ok resp : res thrown Response) ∧
    asyn o s s' ∧ administered tr r s t resp (s', t)) as Hno.
  { intros code e s' Ha Hc. exists (sendError code e). split_and!; try done. by left. }
  unfold admin_router. wp_step; [wp_step; by apply Hno|]. wp_step; [wp_step; by apply Hno|].
  unfold route. apply wp_catch. rewrite admin_handlers.
  eapply wp_mono; [apply (wp_guards h hash o turn turn_ok options); [apply admin_middle_benign|done]|].
  intros x [s' t'] [(A & Ht & Hr)|(l & s1 & Hg & Hth%admin_admissible & A1 & Hf)]; cbn [fst snd] in *.
  - subst t'. destruct x as [resp|e].
    + destruct (Hr _ eq_refl). exists resp. split_and!; try done. by left.
    + apply wp_ret, Hno; [done|apply admin_refuses].
  - pose proof (wp_admin_final tr r l s1 t Hth) as Hw. unfold wp in Hw. rewrite Hf in Hw. destruct Hw as [A2 Hfin]. cbn [fst snd] in *.
    assert (asyn o s s') as A3 by (etrans; [exact A1|exact A2]).
    destruct x as [resp|e].
    + exists resp. split_and!; [done..|]. right. by exists l, s1, (Ok resp).
    + apply wp_ret. eexists. split; [done|]. split; [done|]. right. by exists l, s1, (Throw e).
Qed.
End facts.

(** Every request to an administration route gets a response, and no
    service is called unless the guards of the route passed (for the actions
    and the clean-up: exact origin, JSON and a CSRF token vouched for) and the
    id and the body were valid.  An action then calls exactly the method it
    names, for exactly the id of the path: a success answers 204 and clears the
    session's lifecycle error, a failure answers its mapped error and records it
    as the lifecycle error just when it is one of the session's own
    (an invalid state or a failed operation, not an unknown tab); recording and
    clearing cannot change the answer.  What the inventory or the clean-up
    answered is passed on only if it meets the schema. *)
Theorem admin_routes_guarded `{Platform, LowerCase, !UrlParser, !ProxyLibraries} {W T : Type}
    (h : @handler auth W ev error resp) (hash : jsstr → jsstr) (o : AuthServiceOptions) `{!AuthEnv o h}
    (turn : wait → sys auth W ev → sys auth W ev) (services : @handler unit T service_call thrown service_resp)
    (options : AuthMiddlewareOptions) tr (r : HttpRequest) (s : sys auth W ev) (t : sys unit T service_call) :
  (∀ w s, asyn o s (turn w s)) → auth_ok o (comp s) →
  ∃ resp p', admin_router h hash o turn services options (Some tr) r (s, t) = (Ok resp, p') ∧
    asyn o s p'.1 ∧ administered h hash o services options tr r s t resp p'.
Proof.
  intros turn_ok Hok. pose proof (wp_admin_router h hash o turn turn_ok services options tr r s t Hok) as Hw. unfold wp in Hw.
  destruct (admin_router _ _ _ _ _ _ _ _ _) as [x p']. cbn [fst snd] in Hw. destruct Hw as (resp & -> & Hw). by exists resp, p'.
Qed.

(** * A restart that fails *)

Definition sample_admin : HttpRequest := {|
  http_request := sample_cookie_request; assertions := no_assertions;
  originalUrl := js "/api/admin/sessions/"; baseUrl := js "/api"; params_id := sample_id; ip := None;
  req_body := Parsed (Some (JObj [(js "action", JStr (js "restart_session"))])) |}.
Definition sample_failing : @handler unit unit service_call thrown service_resp := λ c u w,
  match c as c return res thrown (service_resp c) * (unit * unit) with
  | Sessions_restart _ => (Throw (SessionManagerError (js "invalid_session_state")), (u, w))
  | Admin_recordLifecycleError _ _ => (Ok tt, (u, w))
  | _ => (Throw Other_error, (u, w))
  end.
#[local] Existing Instance sample_env.
Theorem admin_routes_guarded_witness :
  let _ := sample_platform in let _ := ascii_lower_case in let _ := sample_provider_urls in let _ := sample_libraries in
  ∃ resp p', admin_router sample_handler (λ s, s) sample_options (λ _ s, s) sample_failing sample_http_options
      (Some Post_session) sample_admin (sample_after, Sys tt tt []) = (Ok resp, p') ∧
    status resp = 409 ∧
    log p'.2 = [(Sessions_restart sample_id, false); (Admin_recordLifecycleError sample_id (js "invalid_session_state"), true)] ∧
    administered sample_handler (λ s, s) sample_options sample_failing sample_http_options Post_session sample_admin
      sample_after (Sys tt tt []) resp p'.
Proof.
  intros pl lo u li.
  destruct (admin_routes_guarded sample_handler (λ s, s) sample_options (λ _ s, s) sample_failing sample_http_options
    Post_session sample_admin sample_after (Sys tt tt []) (λ _ s, ltac:(apply rtc_refl)) sample_after_ok)
    as (resp & p' & Hr & _ & Hadm).
  exists resp, p'. split; [exact Hr|]. split; [|split; [|exact Hadm]].
  - apply (f_equal (λ x, match x.1 with Ok r => status r | Throw _ => 0 end)) in Hr. cbn [fst] in Hr. rewrite <-Hr. by vm_compute.
  - apply (f_equal (λ x, log x.2.2)) in Hr. cbn [fst snd] in Hr. rewrite <-Hr. by vm_compute.
Defined.
