(* ===== verification/Config.v ===== *)
(** [apps/server/src/config.ts] and [packages/shared/src/client-config.ts]: the
    configuration, from the environment, the optional file and the defaults.

    A value is a JSON value: a string of the environment, or what the file
    holds.  Every issue of a schema ends as the one error of [loadConfig],
    [None].  [ipaddr.js] and [proxy-addr] are interfaces. *)
From S2P Require Import Prelude JsMap SafeString Json Double Settings AuthService Headers Origin Upstream.
Open Scope Z_scope.

Definition MIN_RESIZE_DEBOUNCE_MS : Z := 25.
Definition MAX_RESIZE_DEBOUNCE_MS : Z := 1000.
Definition MIN_RECONNECT_SECONDS : Z := 1.
Definition MAX_RECONNECT_SECONDS : Z := 60.
Definition MAX_WS_BUFFER_BYTES : Z := 1048576.
Definition MAX_PATH_BYTES : Z := 4096.
Definition MAX_TRUST_PROXY_ENTRIES : nat := 64.

Inductive LogLevel := trace | debug | info | warn | level_error | fatal | silent.
#[export] Instance LogLevel_eq_dec : EqDecision LogLevel.
Proof. solve_decision. Defined.
#[export] Instance logLevels : ZodEnum LogLevel :=
  {| options := [trace; debug; info; warn; level_error; fatal; silent];
     name := λ l, match l with
       | trace => js "trace" | debug => js "debug" | info => js "info" | warn => js "warn"
       | level_error => js "error" | fatal => js "fatal" | silent => js "silent"
       end |}.
#[export] Instance authModeSchema : ZodEnum AuthMode :=
  {| options := [mode_local; cloudflare_access; trusted_header; mode_none];
     name := λ m, match m with
       | mode_local => js "local" | cloudflare_access => js "cloudflare-access"
       | trusted_header => js "trusted-header" | mode_none => js "none"
       end |}.

(** An address of [ipaddr.js]. *)
Class AddressLibrary := {
  ip_address : Type;
  ip_parse : jsstr → option ip_address;
  ip_parseCIDR : jsstr → option (ip_address * Z);
  ip_is_v4 : ip_address → bool;
  ip_isIPv4Mapped : ip_address → bool;
  ip_toIPv4 : ip_address → ip_address;
  ip_toString : ip_address → jsstr;
  (** [IPv4.networkAddressFromCIDR] and [IPv6.networkAddressFromCIDR] *)
  ip_networkAddress : bool → jsstr → option ip_address;
}.

(** * Schemas *)

Definition decimal_digit (c : Z) : bool := (48 <=? c) && (c <=? 57).
Definition decimal_value (s : jsstr) : Z := foldl (λ n c, n * 10 + (c - 48)) 0 s.
(** [/^-?\d+$/] and then [Number] *)
Definition decimal_string (s : jsstr) : option Z :=
  match s with
  | 45 :: digits => if all_chars decimal_digit digits then Some (- decimal_value digits) else None
  | _ => if all_chars decimal_digit s then Some (decimal_value s) else None
  end.
(** [z.number().int()] *)
Definition int_value (v : json) : option Z := n ← as_int v; if is_safe_integer n then Some n else None.
(** A number, or a string that denotes one. *)
Definition int_or_string (v : json) : option Z :=
  match v with
  | JStr s => n ← decimal_string s; int_value (JNum n)
  | _ => int_value v
  end.
Definition integerInput (minimum maximum : Z) (v : json) : option Z :=
  n ← int_or_string v; if (minimum <=? n) && (n <=? maximum) then Some n else None.
Definition clampedIntegerInput (minimum maximum : Z) (v : json) : option Z :=
  n ← int_or_string v; Some (Z.min maximum (Z.max minimum n)).

Definition is_false (v : json) : bool := match v with JBool b => negb b | _ => false end.
Definition is_false_string (v : json) : bool := match v with JStr s => bool_decide (s = js "false") | _ => false end.

(** [z.string().min(1).max(n).regex(p)] *)
Definition boundedString (maximum : nat) (p : jsstr → bool) (v : json) : option jsstr :=
  s ← as_string v; if (1 <=? length s)%nat && (length s <=? maximum)%nat && p s then Some s else None.
Definition httpTokenPattern : jsstr → bool := headerNamePattern.
Definition safeTokenPattern : jsstr → bool := all_chars token_char.
Definition usernamePattern : jsstr → bool := all_chars (λ c, token_char c || (c =? 46) || (c =? 64)).
Definition lower_alnum (c : Z) : bool := decimal_digit c || ((97 <=? c) && (c <=? 122)).
(** [/^[a-z0-9](?:[a-z0-9-]{0,61}[a-z0-9])?$/] *)
Definition cloudflareTeamLabelPattern (s : jsstr) : bool :=
  match s with
  | [] => false
  | [c] => lower_alnum c
  | c :: rest => lower_alnum c && (length rest <=? 62)%nat && forallb (λ c, lower_alnum c || (c =? 45)) (removelast rest) &&
                 match last rest with Some d => lower_alnum d | None => false end
  end.

Section schemas.
Context `{Platform, LowerCase, UrlParser, ProxyLibraries, AddressLibrary}.

Definition safe_path (s : jsstr) : option jsstr :=
  let value := nfc s in
  if bool_decide (head value = Some 47) && (utf8ByteLength value <=? MAX_PATH_BYTES) &&
     forallb (λ c, negb (forbiddenCharacterPattern c || formatControlPattern c)) (code_points value)
  then Some value else None.
Definition safeAbsolutePathSchema (v : json) : option jsstr := as_string v ≫= safe_path.

(** What a URL must be to stand for its origin. *)
Definition bare_url (url : URL) : bool :=
  bool_decide (pathname url = js "/") && bool_decide (search url = []) && bool_decide (hash url = []) &&
  bool_decide (url_username url = []) && bool_decide (url_password url = []).
Definition originSchema (protocols : list jsstr) (v : json) : option jsstr :=
  s ← as_string v;
  url ← parse_url s None;
  if bool_decide (protocol url ∈ protocols) && bare_url url then Some (url_origin url) else None.
Definition publicUrlSchema : json → option jsstr := originSchema [js "http:"; js "https:"].
Definition cloudflareDomainSchema (v : json) : option jsstr :=
  s ← as_string v;
  url ← parse_url s None;
  match split 46 (hostname url) with
  | [team; domain; top] =>
      if bool_decide (protocol url = js "https:") && bare_url url && bool_decide (port url = []) &&
         cloudflareTeamLabelPattern team && bool_decide (domain = js "cloudflareaccess") && bool_decide (top = js "com")
      then Some (url_origin url) else None
  | _ => None
  end.

(** ** Proxies *)

(** A template [`${address}/${prefix}`] *)
Definition cidr_string (address : ip_address) (prefix : Z) : jsstr := ip_toString address ++ [47] ++ number_to_string prefix.
Definition normalizeProxyEntry (value : jsstr) : option jsstr :=
  '(address, prefix) ←
    (if bool_decide (47 ∈ value)
     then match split 47 value with [_; _] => ip_parseCIDR value | _ => None end
     else a ← ip_parse value; Some (a, if ip_is_v4 a then 32 else 128));
  let '(address, prefix) :=
    if negb (ip_is_v4 address) && ip_isIPv4Mapped address && (96 <=? prefix)
    then (ip_toIPv4 address, prefix - 96) else (address, prefix) in
  network ← ip_networkAddress (ip_is_v4 address) (cidr_string address prefix);
  Some (cidr_string network prefix).
(** [[...new Set(l)]] *)
Fixpoint unique (seen l : list jsstr) : list jsstr :=
  match l with
  | [] => []
  | x :: l => if bool_decide (x ∈ seen) then unique seen l else x :: unique (x :: seen) l
  end.
Definition parseProxyList (values : list jsstr) : option (list jsstr) :=
  let candidates := (λ value, to_lower (trim value)) <$> values in
  if (length candidates =? 0)%nat || (MAX_TRUST_PROXY_ENTRIES <? length candidates)%nat then None
  else
    normalized ← mapM normalizeProxyEntry candidates;
    let normalized := unique [] normalized in
    _ ← proxyaddr_compile normalized;
    Some normalized.
Definition string_list (v : json) : option (list jsstr) := l ← as_array v; mapM as_string l.
Definition trustProxySchema (v : json) : option TrustProxy :=
  if is_false v || is_false_string v then Some TrustOff
  else match integerInput 1 8 v with
       | Some n => Some (TrustHops n)
       | None =>
           match v with
           | JStr s => TrustRanges <$> parseProxyList (split 44 s)
           | _ => TrustRanges <$> (string_list v ≫= parseProxyList)
           end
       end.

Definition allowedShellsSchema (v : json) : option (list jsstr) :=
  values ← match v with JStr s => Some (split 44 s) | _ => string_list v end;
  shells ← mapM (λ value, safe_path (trim value)) values;
  if bool_decide (shells = []) || negb (bool_decide (NoDup shells)) then None else Some shells.
Definition localUsernameSchema (v : json) : option jsstr :=
  s ← as_string v;
  let value := nfc s in
  let n := length (code_points value) in
  if (1 <=? n)%nat && (n <=? 64)%nat && usernamePattern value then Some value else None.
Definition basePathSchema (v : json) : option jsstr := as_string v ≫= normalizeBasePath.
End schemas.

(** * The file *)

Inductive file_type := F_int | F_string | F_proxy | F_strings.
Definition fileValues : list (string * file_type) :=
  [("port", F_int); ("bindHost", F_string); ("basePath", F_string); ("publicUrl", F_string); ("defaultShell", F_string);
   ("defaultFontSize", F_int); ("xtermScrollback", F_int); ("tmuxHistoryLimit", F_int); ("wsHeartbeatSeconds", F_int);
   ("wsMaxBufferBytes", F_int); ("resizeDebounceMs", F_int); ("reconnectMaxSeconds", F_int); ("logLevel", F_string);
   ("homeDir", F_string); ("dataDir", F_string); ("sessionMaxCount", F_int); ("authMode", F_string);
   ("localAuthUsername", F_string); ("bcryptCost", F_int); ("authIdleMinutes", F_int); ("authAbsoluteHours", F_int);
   ("authSessionMaxCount", F_int); ("cloudflareTeamDomain", F_string); ("cloudflareAccessAud", F_string);
   ("trustProxy", F_proxy); ("trustedAuthHeader", F_string); ("allowedShells", F_strings); ("maxFontSize", F_int);
   ("maxXtermScrollback", F_int); ("maxTmuxHistoryLimit", F_int); ("maxStaleSessionCleanupHours", F_int);
   ("sessionCleanupIntervalMinutes", F_int)]%string.
Definition has_file_type (t : file_type) (v : json) : bool :=
  match t with
  | F_int => bool_decide (is_Some (int_value v))
  | F_string => bool_decide (is_Some (as_string v))
  | F_strings => bool_decide (is_Some (string_list v))
  | F_proxy => is_false v || bool_decide (is_Some (int_value v)) || bool_decide (is_Some (string_list v))
  end.
Definition type_of_key (k : jsstr) : option file_type := snd ∘ snd <$> list_find (λ p, js p.1 = k) fileValues.
(** Every property is one of the schema's, with its type. *)
Definition fileValuesSchema (fs : list (jsstr * json)) : bool :=
  forallb (λ p, match type_of_key p.1 with Some t => has_file_type t p.2 | None => false end) fs.

(** * The configuration *)

Record AppConfig := {
  app_port : Z;
  bindHost : jsstr;
  app_basePath : jsstr;
  publicUrl : jsstr;
  app_publicOrigin : jsstr;
  publicHost : jsstr;
  app_defaultShell : jsstr;
  defaultFontSize : Z;
  xtermScrollback : Z;
  app_tmuxHistoryLimit : Z;
  wsHeartbeatSeconds : Z;
  wsMaxBufferBytes : Z;
  resizeDebounceMs : Z;
  reconnectMaxSeconds : Z;
  logLevel : LogLevel;
  homeDir : jsstr;
  dataDir : jsstr;
  sessionMaxCount : Z;
  appConfigFile : option jsstr;
  authMode : AuthMode;
  localAuthUsername : jsstr;
  bcryptCost : Z;
  authIdleMinutes : Z;
  authAbsoluteHours : Z;
  authSessionMaxCount : Z;
  cloudflareTeamDomain : option jsstr;
  cloudflareAccessAud : option jsstr;
  app_trustProxy : TrustProxy;
  trustedAuthHeader : jsstr;
  app_allowedShells : list jsstr;
  maxFontSize : Z;
  maxXtermScrollback : Z;
  maxTmuxHistoryLimit : Z;
  maxStaleSessionCleanupHours : Z;
  sessionCleanupIntervalMinutes : Z;
}.

(** [url.host] *)
Definition url_host (url : URL) : jsstr :=
  hostname url ++ match port url with [] => [] | p => [58] ++ p end.

Section load.
Context `{Platform, LowerCase, UrlParser, ProxyLibraries, AddressLibrary}.
Context (env : jsstr → option jsstr).

(** [env[environmentKey] ?? file[fileKey] ?? fallback] *)
Definition pick_optional (file : list (jsstr * json)) (environmentKey fileKey : string) : option json :=
  match env (js environmentKey) with Some s => Some (JStr s) | None => field (js fileKey) file end.
Definition pick (file : list (jsstr * json)) (environmentKey fileKey : string) (fallback : json) : json :=
  default fallback (pick_optional file environmentKey fileKey).
(** [schema.optional()] *)
Definition optional {A} (schema : json → option A) (v : option json) : option (option A) :=
  match v with None => Some None | Some v => Some <$> schema v end.

Definition loadConfig (fs : list (jsstr * json)) : option AppConfig :=
  if negb (fileValuesSchema fs) then None
  else
    file ← optional safeAbsolutePathSchema (JStr <$> env (js "APP_CONFIG_FILE"));
    prt ← integerInput 1 65535 (pick fs "APP_PORT" "port" (JNum 3000));
    bind_host ← boundedString 255 (λ _, true) (pick fs "APP_BIND_HOST" "bindHost" (JStr (js "0.0.0.0")));
    base_path ← basePathSchema (pick fs "APP_BASE_PATH" "basePath" (JStr (js "/")));
    public_url ← publicUrlSchema (pick fs "APP_PUBLIC_URL" "publicUrl" (JStr (js "http://localhost:3000")));
    shell ← safeAbsolutePathSchema (pick fs "DEFAULT_SHELL" "defaultShell" (JStr (js "/bin/bash")));
    font_size ← integerInput 8 32 (pick fs "DEFAULT_FONT_SIZE" "defaultFontSize" (JNum 14));
    scroll ← clampedIntegerInput 0 100000 (pick fs "XTERM_SCROLLBACK" "xtermScrollback" (JNum 10000));
    history ← integerInput 0 1000000 (pick fs "TMUX_HISTORY_LIMIT" "tmuxHistoryLimit" (JNum 20000));
    heartbeat ← integerInput 5 300 (pick fs "WS_HEARTBEAT_SECONDS" "wsHeartbeatSeconds" (JNum 30));
    ws_buffer ← integerInput 65536 MAX_WS_BUFFER_BYTES (pick fs "WS_MAX_BUFFER_BYTES" "wsMaxBufferBytes" (JNum 1048576));
    resize ← integerInput MIN_RESIZE_DEBOUNCE_MS MAX_RESIZE_DEBOUNCE_MS
               (pick fs "RESIZE_DEBOUNCE_MS" "resizeDebounceMs" (JNum 100));
    reconnect ← integerInput MIN_RECONNECT_SECONDS MAX_RECONNECT_SECONDS
               (pick fs "RECONNECT_MAX_SECONDS" "reconnectMaxSeconds" (JNum 15));
    level ← enum_schema (pick fs "LOG_LEVEL" "logLevel" (JStr (js "info")));
    home ← safeAbsolutePathSchema (pick fs "HOME_DIR" "homeDir" (JStr (js "/home/webterm")));
    data ← safeAbsolutePathSchema (pick fs "DATA_DIR" "dataDir" (JStr (js "/app/data")));
    sessions ← integerInput 1 20 (pick fs "SESSION_MAX_COUNT" "sessionMaxCount" (JNum 10));
    md ← enum_schema (pick fs "AUTH_MODE" "authMode" (JStr (js "local")));
    user ← localUsernameSchema (pick fs "LOCAL_AUTH_USERNAME" "localAuthUsername" (JStr (js "webterm")));
    cost ← integerInput 10 15 (pick fs "BCRYPT_COST" "bcryptCost" (JNum 12));
    idle ← integerInput 5 1440 (pick fs "AUTH_IDLE_MINUTES" "authIdleMinutes" (JNum 60));
    absolute ← integerInput 1 168 (pick fs "AUTH_ABSOLUTE_HOURS" "authAbsoluteHours" (JNum 24));
    auth_sessions ← integerInput 1 256 (pick fs "AUTH_SESSION_MAX_COUNT" "authSessionMaxCount" (JNum 32));
    team ← optional cloudflareDomainSchema (pick_optional fs "CLOUDFLARE_TEAM_DOMAIN" "cloudflareTeamDomain");
    aud ← optional (boundedString 256 safeTokenPattern) (pick_optional fs "CLOUDFLARE_ACCESS_AUD" "cloudflareAccessAud");
    proxies ← trustProxySchema (pick fs "TRUST_PROXY" "trustProxy" (JBool false));
    auth_header ← boundedString 128 httpTokenPattern (pick fs "TRUSTED_AUTH_HEADER" "trustedAuthHeader" (JStr (js "X-Auth-User")));
    shells ← allowedShellsSchema (pick fs "ALLOWED_SHELLS" "allowedShells" (JArr [JStr (js "/bin/bash")]));
    max_font ← integerInput 8 32 (pick fs "MAX_FONT_SIZE" "maxFontSize" (JNum 32));
    max_scroll ← integerInput 0 100000 (pick fs "MAX_XTERM_SCROLLBACK" "maxXtermScrollback" (JNum 100000));
    max_history ← integerInput 0 1000000 (pick fs "MAX_TMUX_HISTORY_LIMIT" "maxTmuxHistoryLimit" (JNum 1000000));
    max_cleanup ← integerInput 0 8760 (pick fs "MAX_STALE_SESSION_CLEANUP_HOURS" "maxStaleSessionCleanupHours" (JNum 8760));
    interval ← integerInput 5 1440 (pick fs "SESSION_CLEANUP_INTERVAL_MINUTES" "sessionCleanupIntervalMinutes" (JNum 15));
    (* superRefine *)
    if (bool_decide (md = cloudflare_access) && (bool_decide (team = None) || bool_decide (aud = None))) ||
       (bool_decide (md = trusted_header) && match proxies with TrustRanges _ => false | _ => true end) ||
       negb (bool_decide (shell ∈ shells))
    then None
    else
      url ← parse_url public_url None;
      Some {| app_port := prt; bindHost := bind_host; app_basePath := base_path; publicUrl := public_url;
              app_publicOrigin := url_origin url; publicHost := url_host url; app_defaultShell := shell;
              defaultFontSize := font_size; xtermScrollback := scroll; app_tmuxHistoryLimit := history;
              wsHeartbeatSeconds := heartbeat; wsMaxBufferBytes := ws_buffer; resizeDebounceMs := resize;
              reconnectMaxSeconds := reconnect; logLevel := level; homeDir := home; dataDir := data;
              sessionMaxCount := sessions; appConfigFile := file; authMode := md; localAuthUsername := user;
              bcryptCost := cost; authIdleMinutes := idle; authAbsoluteHours := absolute;
              authSessionMaxCount := auth_sessions; cloudflareTeamDomain := team; cloudflareAccessAud := aud;
              app_trustProxy := proxies; trustedAuthHeader := auth_header; app_allowedShells := shells;
              maxFontSize := max_font; maxXtermScrollback := max_scroll; maxTmuxHistoryLimit := max_history;
              maxStaleSessionCleanupHours := max_cleanup; sessionCleanupIntervalMinutes := interval |}.
End load.

(** * The client's part *)

Record ClientConfig := { cc_basePath : jsstr; cc_resizeDebounceMs : Z; cc_reconnectMaxSeconds : Z }.
Definition client_keys : list jsstr := js <$> ["basePath"; "resizeDebounceMs"; "reconnectMaxSeconds"]%string.
Definition client_json (c : ClientConfig) : json := JObj (zip client_keys
  [JStr (cc_basePath c); JNum (cc_resizeDebounceMs c); JNum (cc_reconnectMaxSeconds c)]).
Definition parseClientConfig `{UrlParser} (v : json) : option ClientConfig :=
  fs ← strict_object client_keys v;
  b ← prop fs "basePath" basePathSchema;
  d ← prop fs "resizeDebounceMs" (int_schema MIN_RESIZE_DEBOUNCE_MS MAX_RESIZE_DEBOUNCE_MS);
  s ← prop fs "reconnectMaxSeconds" (int_schema MIN_RECONNECT_SECONDS MAX_RECONNECT_SECONDS);
  Some {| cc_basePath := b; cc_resizeDebounceMs := d; cc_reconnectMaxSeconds := s |}.
Definition toClientConfig `{UrlParser} (c : AppConfig) : option ClientConfig :=
  parseClientConfig (client_json {| cc_basePath := app_basePath c; cc_resizeDebounceMs := resizeDebounceMs c;
                                    cc_reconnectMaxSeconds := reconnectMaxSeconds c |}).
