(* ===== verification/ConfigFacts.v ===== *)
(** The configuration: what [loadConfig] guarantees, and that the environment
    wins over the file. *)
From S2P Require Import Prelude JsMap SafeString Json JsonText Protocol Double Settings SettingsFacts AuthService Headers Origin Upstream UpstreamFacts Config.
Open Scope Z_scope.

#[export] Instance level_laws : EnumLaws LogLevel.
Proof. split; [intros []; vm_compute; reflexivity|intros []; apply units_ok_literal; vm_compute; reflexivity]. Qed.
#[export] Instance auth_mode_laws : EnumLaws AuthMode.
Proof. split; [intros []; vm_compute; reflexivity|intros []; apply units_ok_literal; vm_compute; reflexivity]. Qed.

(** Parsing the origin of an HTTP URL gives that origin and nothing else. *)
Class UrlLaws `{UrlParser} : Prop :=
  parse_origin : ∀ s base url, parse_url s base = Some url → protocol url ∈ [js "http:"; js "https:"] →
    ∃ u, parse_url (url_origin url) None = Some u ∧ protocol u = protocol url ∧ hostname u = hostname url ∧
      port u = port url ∧ url_origin u = url_origin url ∧ bare_url u = true.
(** The characters of a printed address. *)
Definition address_char (c : Z) : bool := decimal_digit c || ((97 <=? c) && (c <=? 102)) || (c =? 46) || (c =? 58).
(** A network is printed as it is parsed, is its own network, and keeps the
    family and a prefix of at least 96 bits of its address. *)
Class AddressLaws `{AddressLibrary} : Prop := {
  address_chars : ∀ a, forallb address_char (ip_toString a) = true;
  network_laws : ∀ v4 a p n, ip_networkAddress v4 (cidr_string a p) = Some n → v4 = ip_is_v4 a →
    0 <= p <= 128 ∧ ip_is_v4 n = v4 ∧ ip_parseCIDR (cidr_string n p) = Some (n, p) ∧
    ip_networkAddress v4 (cidr_string n p) = Some n ∧ (96 <= p → ip_isIPv4Mapped n = ip_isIPv4Mapped a);
  mapped_v4 : ∀ a, ip_is_v4 (ip_toIPv4 a) = true;
}.
(** Composing characters puts no space at an end. *)
Class NormalTrim `{Platform} : Prop := nfc_trim : ∀ s, trim s = s → trim (nfc s) = nfc s.

(** * Schemas accept their results *)

Lemma drop_while_id f s : (∀ c r, s = c :: r → f c = false) → drop_while f s = s.
Proof. destruct s as [|c s]; [done|]. intros Hf. cbn. by rewrite (Hf c s). Qed.
Lemma drop_while_suffix f s : ∃ a, s = a ++ drop_while f s.
Proof.
  induction s as [|c s [a IH]]; [by exists []|]. cbn. destruct (f c); [exists (c :: a); cbn; by f_equal|by exists []].
Qed.
Lemma drop_while_first f s c r : drop_while f s = c :: r → f c = false.
Proof. induction s as [|d s IH]; [done|]. cbn. destruct (f d) eqn:E; [done|]. by intros [= <- _]. Qed.
Lemma trim_trim s : trim (trim s) = trim s.
Proof.
  unfold trim. set (a := drop_while is_js_space s). set (b := drop_while is_js_space (reverse a)).
  assert (drop_while is_js_space (reverse b) = reverse b) as ->.
  { apply drop_while_id. intros c r Hc. destruct (drop_while_suffix is_js_space (reverse a)) as [x Hx]. fold b in Hx.
    apply (f_equal reverse) in Hx. rewrite reverse_involutive, reverse_app, Hc in Hx. subst a. by eapply drop_while_first. }
  rewrite reverse_involutive. rewrite (drop_while_id _ b); [done|]. intros c r Hc. by eapply drop_while_first.
Qed.

Lemma int_value_num n : is_safe_integer n = true → int_value (JNum n) = Some n.
Proof. intros Hn. unfold int_value. cbn [as_int mbind option_bind]. by rewrite Hn. Qed.
Lemma int_or_string_safe v n : int_or_string v = Some n → is_safe_integer n = true.
Proof.
  unfold int_or_string, int_value. destruct v; cbn [as_int mbind option_bind]; try done.
  - case_match; by intros [= <-].
  - intros (m & _ & Hm)%bind_Some. cbn [as_int mbind option_bind] in Hm. case_match; [|done]. by injection Hm as <-.
Qed.
Lemma integerInput_Some lo hi v n : integerInput lo hi v = Some n → lo <= n <= hi ∧ is_safe_integer n = true.
Proof.
  unfold integerInput. intros (m & Hm & Hn)%bind_Some. apply int_or_string_safe in Hm. case_match eqn:E; [|done].
  injection Hn as <-. apply andb_true_iff in E as [E1%Z.leb_le E2%Z.leb_le]. done.
Qed.
Lemma integerInput_again lo hi n : lo <= n <= hi → is_safe_integer n = true → integerInput lo hi (JNum n) = Some n.
Proof.
  intros [H1 H2] Hs. unfold integerInput, int_or_string. rewrite int_value_num by done. cbn [mbind option_bind].
  by rewrite (proj2 (Z.leb_le _ _) H1), (proj2 (Z.leb_le _ _) H2).
Qed.
Lemma clamped_Some lo hi v n : clampedIntegerInput lo hi v = Some n → lo <= hi → lo <= n <= hi.
Proof. unfold clampedIntegerInput. intros (m & _ & [= <-])%bind_Some Hl. lia. Qed.
Lemma clamped_again lo hi n : lo <= n <= hi → is_safe_integer n = true → clampedIntegerInput lo hi (JNum n) = Some n.
Proof.
  intros Hn Hs. unfold clampedIntegerInput, int_or_string. rewrite int_value_num by done. cbn [mbind option_bind].
  f_equal. lia.
Qed.
Lemma boundedString_again m p v s : boundedString m p v = Some s → boundedString m p (JStr s) = Some s ∧ (1 <= length s)%nat ∧ p s = true.
Proof.
  unfold boundedString. intros (t & _ & Ht)%bind_Some. cbn [as_string mbind option_bind]. case_match eqn:E; [|done].
  injection Ht as <-. rewrite E. by apply andb_true_iff in E as [[E%Nat.leb_le _]%andb_true_iff ?].
Qed.

Section again.
Context `{NormalForm, !NormalTrim, LowerCase, UrlParser, ProxyLibraries, AddressLibrary}.

Lemma safe_path_again s p : safe_path s = Some p → safe_path p = Some p ∧ p = nfc s ∧ head p = Some 47.
Proof.
  unfold safe_path. cbn zeta. case_match eqn:E; [|done]. intros [= <-]. rewrite nfc_idempotent, E. split_and!; [done..|].
  by apply andb_true_iff in E as [[E%bool_decide_eq_true _]%andb_true_iff _].
Qed.
Lemma path_schema_again v p : safeAbsolutePathSchema v = Some p → safeAbsolutePathSchema (JStr p) = Some p ∧ head p = Some 47.
Proof. unfold safeAbsolutePathSchema. intros (s & _ & Hs)%bind_Some. by apply safe_path_again in Hs as (? & _ & ?). Qed.
Lemma shells_again v l : allowedShellsSchema v = Some l →
  allowedShellsSchema (JArr (JStr <$> l)) = Some l ∧ l ≠ [] ∧ NoDup l ∧ Forall (λ p, head p = Some 47) l.
Proof.
  unfold allowedShellsSchema. intros (vs & _ & (ps & Hps & Hl)%bind_Some)%bind_Some. case_match eqn:E; [done|].
  injection Hl as <-. apply orb_false_iff in E as [E1%bool_decide_eq_false E2%negb_false_iff]. apply bool_decide_eq_true in E2.
  assert (Forall (λ p, safe_path (trim p) = Some p ∧ head p = Some 47) ps) as Hall.
  { apply mapM_Some in Hps. clear E1 E2. induction Hps as [|s p ss ps Hs _ IH]; constructor; [|done].
    apply safe_path_again in Hs as (Hp & -> & Hh). split; [|done]. rewrite nfc_trim; [done|]. apply trim_trim. }
  assert (string_list (JArr (JStr <$> ps)) = Some ps) as ->.
  { unfold string_list. cbn [as_array mbind option_bind]. apply mapM_Some, Forall2_fmap_l, Forall_Forall2_diag, Forall_true. by intros. }
  cbn [mbind option_bind]. assert (mapM (λ value, safe_path (trim value)) ps = Some ps) as ->.
  { apply mapM_Some, Forall_Forall2_diag. eapply Forall_impl; [exact Hall|]. by intros p [? _]. }
  cbn [mbind option_bind]. rewrite bool_decide_false, bool_decide_true by done. split_and!; try done.
  eapply Forall_impl; [exact Hall|]. by intros p [_ ?].
Qed.
Lemma username_again v u : localUsernameSchema v = Some u → localUsernameSchema (JStr u) = Some u ∧ u ≠ [] ∧ usernamePattern u = true.
Proof.
  unfold localUsernameSchema. intros (s & _ & Hs)%bind_Some. cbn zeta in Hs. case_match eqn:E; [|done]. injection Hs as <-.
  cbn [as_string mbind option_bind]. rewrite nfc_idempotent, E. apply andb_true_iff in E as [[E%Nat.leb_le _]%andb_true_iff ?].
  split_and!; try done. intros Hn. rewrite Hn in E. cbn in E. lia.
Qed.

Context `{!UrlLaws}.
Lemma bare_laws url : bare_url url = true ↔ pathname url = js "/" ∧ search url = [] ∧ hash url = [] ∧
  url_username url = [] ∧ url_password url = [].
Proof. unfold bare_url. rewrite !andb_true_iff, !bool_decide_eq_true. tauto. Qed.
Lemma public_url_again v o : publicUrlSchema v = Some o → publicUrlSchema (JStr o) = Some o ∧
  ∃ u, parse_url o None = Some u ∧ url_origin u = o ∧ protocol u ∈ [js "http:"; js "https:"].
Proof.
  unfold publicUrlSchema, originSchema. intros (s & _ & (u & Hu & Ho)%bind_Some)%bind_Some. case_match eqn:E; [|done].
  injection Ho as <-. apply andb_true_iff in E as [E%bool_decide_eq_true _].
  destruct (parse_origin _ _ _ Hu E) as (u' & Hu' & Hp & Hh & Hpt & Ho & Hb).
  cbn [as_string mbind option_bind]. rewrite Hu'. cbn [mbind option_bind]. rewrite Hp, Ho, Hb, bool_decide_true by done.
  split; [done|]. exists u'. rewrite Hp. by split_and!.
Qed.
Lemma cloudflare_again v o : cloudflareDomainSchema v = Some o → cloudflareDomainSchema (JStr o) = Some o.
Proof.
  unfold cloudflareDomainSchema. intros (s & _ & (u & Hu & Ho)%bind_Some)%bind_Some.
  destruct (split 46 (hostname u)) as [|team [|domain [|top [|? ?]]]] eqn:Hl; try done.
  case_match eqn:E; [|done]. injection Ho as <-. rewrite !andb_true_iff, !bool_decide_eq_true in E.
  destruct E as [[[[[Hpr _] Hpo] Ht] Hd] Htop].
  destruct (parse_origin _ _ _ Hu) as (u' & Hu' & Hp & Hh & Hpt & Ho & Hb); [rewrite Hpr; set_solver|].
  cbn [as_string mbind option_bind]. rewrite Hu'. cbn [mbind option_bind].
  rewrite Hh, Hl, Hp, Hpr, Hpt, Hpo, Ho, Hb, Ht, Hd, Htop. by vm_compute.
Qed.
Lemma base_path_again v p : basePathSchema v = Some p → basePathSchema (JStr p) = Some p.
Proof.
  unfold basePathSchema. intros (s & _ & Hs)%bind_Some. cbn [as_string mbind option_bind].
  destruct (normalizeBasePath_Some s p Hs) as [[-> ->]|(segments & n & Hne & Hsegs & -> & ->)]; [done|].
  unfold normalizeBasePath in Hs. case_match; [done|]. rewrite strip_path in Hs by done.
  destruct (path_not_root _ Hsegs Hne) as [Hr Hn].
  destruct (path_of segments) as [|c r] eqn:E; [done|]. rewrite <-E in *. cbn zeta in Hs.
  rewrite bool_decide_false in Hs by (by rewrite E in *). case_match; [done|].
  apply bind_Some in Hs as (pu & Hp & (b & Hb & Hpb)%bind_Some). case_match eqn:Ec; [|done].
  rewrite !andb_true_iff, !bool_decide_eq_true in Ec. destruct Ec as [[[? ?] ?] ?].
  pose proof (normalize_path segments 0 pu b Hne Hsegs Hp Hb) as Hn0. cbn [repeat] in Hn0. rewrite app_nil_r in Hn0. auto.
Qed.

(** ** Proxies *)

Context `{!LowerCaseLaws, !AddressLaws}.
Lemma prefix_digits p : 0 <= p <= 128 → forallb decimal_digit (number_to_string p) = true ∧ number_to_string p ≠ [].
Proof.
  intros Hp. assert (forallb (λ k, let s := number_to_string (Z.of_nat k) in forallb decimal_digit s && negb (bool_decide (s = []))) (seq 0 129) = true)
    as Hall by (vm_compute; reflexivity).
  assert (Z.to_nat p ∈ seq 0 129) as Hin by (apply elem_of_seq; lia).
  pose proof (proj1 (forallb_forall _ _) Hall (Z.to_nat p) (proj1 (list_elem_of_In _ _) Hin)) as Hk. cbn beta in Hk.
  rewrite Z2Nat.id in Hk by lia. apply andb_true_iff in Hk as [? Hk]. apply negb_true_iff, bool_decide_eq_false in Hk. done.
Qed.
Definition cidr_char (c : Z) : bool := address_char c || (c =? 47).
Lemma cidr_chars n p : 0 <= p <= 128 → Forall (λ c, cidr_char c = true) (cidr_string n p).
Proof.
  intros Hp. unfold cidr_string, cidr_char. rewrite !Forall_app. destruct (prefix_digits p Hp) as [Hd _]. split_and!.
  - apply Forall_forall. intros c Hc. apply orb_true_iff. left.
    exact (proj1 (forallb_forall _ _) (address_chars n) c (proj1 (list_elem_of_In _ _) Hc)).
  - by repeat constructor.
  - apply Forall_forall. intros c Hc. pose proof (proj1 (forallb_forall _ _) Hd c (proj1 (list_elem_of_In _ _) Hc)) as Hx.
    unfold address_char. by rewrite Hx.
Qed.
Lemma cidr_char_range c : cidr_char c = true → 46 <= c <= 102 ∧ (c < 65 ∨ 90 < c).
Proof.
  unfold cidr_char, address_char, decimal_digit. intros Hc. rewrite !orb_true_iff, !andb_true_iff, !Z.leb_le, !Z.eqb_eq in Hc. lia.
Qed.
Lemma cidr_lower n p : 0 <= p <= 128 → to_lower (trim (cidr_string n p)) = cidr_string n p.
Proof.
  intros Hp. pose proof (cidr_chars n p Hp) as Hc. set (s := cidr_string n p) in *. clearbody s.
  assert (∀ l, Forall (λ c, cidr_char c = true) l → drop_while is_js_space l = l) as Hd.
  { intros l Hl. apply drop_while_id. intros c r ->. apply Forall_cons in Hl as [Hx%cidr_char_range _].
    unfold is_js_space, in_ranges. cbn [existsb fst snd]. rewrite !orb_false_iff, !andb_false_iff, !Z.leb_gt. lia. }
  unfold trim. rewrite (Hd s) by done. rewrite (Hd (reverse s)) by by apply Forall_reverse. rewrite reverse_involutive.
  rewrite to_lower_ascii by (eapply Forall_impl; [exact Hc|]; intros c ?%cidr_char_range; lia).
  clear Hd. induction Hc as [|c l Hx _ IH]; [done|]. rewrite fmap_cons, IH. apply cidr_char_range in Hx. unfold ascii_lower.
  destruct (Z.leb_spec 65 c), (Z.leb_spec c 90); try done. lia.
Qed.
Lemma cidr_split n p : 0 <= p <= 128 → 47 ∈ cidr_string n p ∧ ∃ a b, split 47 (cidr_string n p) = [a; b].
Proof.
  intros Hp. unfold cidr_string. split; [apply elem_of_app; right; apply elem_of_cons; by left|]. destruct (prefix_digits p Hp) as [Hd _].
  exists (ip_toString n), (number_to_string p). unfold split. cbn [app].
  rewrite split_on_app, split_on_plain; [done| |].
  - intros Hin. pose proof (proj1 (forallb_forall _ _) Hd _ (proj1 (list_elem_of_In _ _) Hin)). done.
  - intros Hin. pose proof (proj1 (forallb_forall _ _) (address_chars n) _ (proj1 (list_elem_of_In _ _) Hin)). done.
Qed.
Definition stable_entry (e : jsstr) : Prop := to_lower (trim e) = e ∧ normalizeProxyEntry e = Some e.
Lemma proxy_entry_again v e : normalizeProxyEntry v = Some e → stable_entry e.
Proof.
  unfold normalizeProxyEntry at 1. intros ([a p] & _ & He)%bind_Some.
  set (mapped := negb (ip_is_v4 a) && ip_isIPv4Mapped a && (96 <=? p)) in He.
  assert (∃ a' p' n, ip_networkAddress (ip_is_v4 a') (cidr_string a' p') = Some n ∧ e = cidr_string n p' ∧
    (ip_is_v4 a' = false → ip_isIPv4Mapped a' = true → p' < 96)) as (a' & p' & n & Hn & -> & Hmap).
  { destruct mapped eqn:E; apply bind_Some in He as (n & Hn & [= <-]).
    - exists (ip_toIPv4 a), (p - 96), n. split_and!; [done..|]. intros Hv. by rewrite mapped_v4 in Hv.
    - exists a, p, n. split_and!; [done..|]. intros Hv Hm. subst mapped. rewrite Hv, Hm in E. cbn in E. by apply Z.leb_gt in E. }
  destruct (network_laws _ _ _ _ Hn eq_refl) as (Hp & Hv & Hparse & Hnet & Hk).
  split; [by apply cidr_lower|]. destruct (cidr_split n p' Hp) as (Hin & x & y & Hs).
  unfold normalizeProxyEntry. rewrite bool_decide_true, Hs by done. rewrite Hparse. cbn [mbind option_bind].
  assert (negb (ip_is_v4 n) && ip_isIPv4Mapped n && (96 <=? p') = false) as ->.
  { destruct (ip_is_v4 n) eqn:En; [done|]. cbn [negb andb]. destruct (ip_isIPv4Mapped n) eqn:Em; [|done]. apply Z.leb_gt.
    destruct (Z.lt_ge_cases p' 96) as [?|Hge]; [done|]. apply Hmap; [congruence|]. by rewrite <-(Hk Hge). }
  rewrite Hv, Hnet. done.
Qed.
Lemma unique_spec l : ∀ seen, NoDup (unique seen l) ∧ (∀ x, x ∈ unique seen l ↔ x ∈ l ∧ x ∉ seen) ∧ (length (unique seen l) <= length l)%nat.
Proof.
  induction l as [|x l IH]; intros seen; cbn [unique]; [split_and!; [constructor|set_solver|done]|]. case_bool_decide as Hx.
  - destruct (IH seen) as (? & He & ?). split_and!; [done| |cbn; lia]. intros y. rewrite He, elem_of_cons. split; [tauto|].
    intros [[->|?] ?]; done.
  - destruct (IH (x :: seen)) as (? & He & ?). split_and!; [|intros y|cbn; lia].
    + constructor; [|done]. rewrite He. set_solver.
    + rewrite !elem_of_cons, He, elem_of_cons. destruct (decide (y = x)) as [->|]; [tauto|naive_solver].
Qed.
Lemma unique_NoDup l : ∀ seen, NoDup l → (∀ x, x ∈ l → x ∉ seen) → unique seen l = l.
Proof.
  induction l as [|x l IH]; intros seen Hnd Hs; [done|]. apply NoDup_cons in Hnd as [? ?]. cbn.
  rewrite bool_decide_false by (apply Hs; set_solver). f_equal. apply IH; [done|]. intros y Hy. specialize (Hs y). set_solver.
Qed.
Definition proxies_ok (l : list jsstr) : Prop :=
  l ≠ [] ∧ (length l <= MAX_TRUST_PROXY_ENTRIES)%nat ∧ NoDup l ∧ Forall stable_entry l ∧ is_Some (proxyaddr_compile l).
Lemma proxies_Some vs l : parseProxyList vs = Some l → proxies_ok l.
Proof.
  unfold parseProxyList. cbn zeta. case_match eqn:E; [done|]. intros (es & Hes & (f & Hf & [= <-])%bind_Some)%bind_Some.
  apply orb_false_iff in E as [E1%Nat.eqb_neq E2%Nat.ltb_ge].
  pose proof (length_mapM _ _ _ Hes) as Hl. destruct (unique_spec es []) as (Hnd & He & Hle). split_and!; [|lia|done| |by eexists].
  - intros Hn. destruct es as [|x es]; [cbn in Hl; lia|]. assert (x ∈ unique [] (x :: es)) as Hx by (apply He; set_solver).
    rewrite Hn in Hx. by apply elem_of_nil in Hx.
  - apply Forall_forall. intros x [Hx _]%He. apply mapM_Some in Hes.
    apply list_elem_of_lookup in Hx as [i Hi]. eapply Forall2_lookup_r in Hes as (v & _ & Hv); [|exact Hi].
    by apply proxy_entry_again in Hv.
Qed.
Lemma proxies_again l : proxies_ok l → parseProxyList l = Some l.
Proof.
  intros (Hne & Hlen & Hnd & Hst & [f Hf]). unfold parseProxyList. cbn zeta.
  assert ((λ value, to_lower (trim value)) <$> l = l) as ->.
  { clear -Hst. induction Hst as [|x l [Hx _] _ IH]; [done|]. by rewrite fmap_cons, Hx, IH. }
  rewrite (proj2 (Nat.eqb_neq _ _)) by (by destruct l). rewrite (proj2 (Nat.ltb_ge _ _)) by lia. cbn [orb].
  assert (mapM normalizeProxyEntry l = Some l) as ->.
  { apply mapM_Some, Forall_Forall2_diag. eapply Forall_impl; [exact Hst|]. by intros x [_ ?]. }
  cbn [mbind option_bind]. rewrite unique_NoDup by (done || set_solver). by rewrite Hf.
Qed.
Definition trust_ok (t : TrustProxy) : Prop :=
  match t with TrustOff => True | TrustHops n => 1 <= n <= 8 | TrustRanges l => proxies_ok l end.
Definition trust_json (t : TrustProxy) : json :=
  match t with TrustOff => JBool false | TrustHops n => JNum n | TrustRanges l => JArr (JStr <$> l) end.
Lemma ranges_Some o t : TrustRanges <$> o = Some t → (∀ l, o = Some l → proxies_ok l) → trust_ok t.
Proof. destruct o as [l|]; [|done]. intros [= <-] Hl. by apply Hl. Qed.
Lemma trust_Some v t : trustProxySchema v = Some t → trust_ok t.
Proof.
  unfold trustProxySchema. case_match; [by intros [= <-]|]. destruct (integerInput 1 8 v) as [n|] eqn:En.
  { intros [= <-]. by apply integerInput_Some in En as [? _]. }
  intros Ht. destruct v; apply (ranges_Some _ _ Ht); intros ranges Hl;
    first [exact (proxies_Some _ _ Hl)|apply bind_Some in Hl as (vs & _ & Hl); exact (proxies_Some _ _ Hl)].
Qed.
Lemma string_list_strings l : string_list (JArr (JStr <$> l)) = Some l.
Proof. unfold string_list. cbn [as_array mbind option_bind]. apply mapM_Some, Forall2_fmap_l, Forall_Forall2_diag, Forall_true. by intros. Qed.
Lemma trust_again t : trust_ok t → trustProxySchema (trust_json t) = Some t.
Proof.
  destruct t as [|n|l]; cbn [trust_ok trust_json]; intros Ht; unfold trustProxySchema; [done| |].
  - rewrite integerInput_again; [done|done|]. unfold is_safe_integer, MAX_SAFE_INTEGER. rewrite andb_true_iff, !Z.leb_le. lia.
  - cbn [is_false is_false_string orb]. change (integerInput 1 8 (JArr (JStr <$> l))) with (@None Z). cbn iota.
    rewrite string_list_strings. cbn [mbind option_bind]. by rewrite proxies_again.
Qed.
End again.

(** * The configuration as a whole *)

(** Whether the environment or the file is asked, by name. *)
Definition config_keys : list (string * string) :=
  [("APP_PORT", "port"); ("APP_BIND_HOST", "bindHost"); ("APP_BASE_PATH", "basePath"); ("APP_PUBLIC_URL", "publicUrl");
   ("DEFAULT_SHELL", "defaultShell"); ("DEFAULT_FONT_SIZE", "defaultFontSize"); ("XTERM_SCROLLBACK", "xtermScrollback");
   ("TMUX_HISTORY_LIMIT", "tmuxHistoryLimit"); ("WS_HEARTBEAT_SECONDS", "wsHeartbeatSeconds");
   ("WS_MAX_BUFFER_BYTES", "wsMaxBufferBytes"); ("RESIZE_DEBOUNCE_MS", "resizeDebounceMs");
   ("RECONNECT_MAX_SECONDS", "reconnectMaxSeconds"); ("LOG_LEVEL", "logLevel"); ("HOME_DIR", "homeDir");
   ("DATA_DIR", "dataDir"); ("SESSION_MAX_COUNT", "sessionMaxCount"); ("AUTH_MODE", "authMode");
   ("LOCAL_AUTH_USERNAME", "localAuthUsername"); ("BCRYPT_COST", "bcryptCost"); ("AUTH_IDLE_MINUTES", "authIdleMinutes");
   ("AUTH_ABSOLUTE_HOURS", "authAbsoluteHours"); ("AUTH_SESSION_MAX_COUNT", "authSessionMaxCount");
   ("CLOUDFLARE_TEAM_DOMAIN", "cloudflareTeamDomain"); ("CLOUDFLARE_ACCESS_AUD", "cloudflareAccessAud");
   ("TRUST_PROXY", "trustProxy"); ("TRUSTED_AUTH_HEADER", "trustedAuthHeader"); ("ALLOWED_SHELLS", "allowedShells");
   ("MAX_FONT_SIZE", "maxFontSize"); ("MAX_XTERM_SCROLLBACK", "maxXtermScrollback");
   ("MAX_TMUX_HISTORY_LIMIT", "maxTmuxHistoryLimit"); ("MAX_STALE_SESSION_CLEANUP_HOURS", "maxStaleSessionCleanupHours");
   ("SESSION_CLEANUP_INTERVAL_MINUTES", "sessionCleanupIntervalMinutes")]%string.

(** A configuration as the values of a file. *)
Definition config_file (c : AppConfig) : list (jsstr * json) :=
  [(js "port", JNum (app_port c)); (js "bindHost", JStr (bindHost c)); (js "basePath", JStr (app_basePath c));
   (js "publicUrl", JStr (publicUrl c)); (js "defaultShell", JStr (app_defaultShell c));
   (js "defaultFontSize", JNum (defaultFontSize c)); (js "xtermScrollback", JNum (xtermScrollback c));
   (js "tmuxHistoryLimit", JNum (app_tmuxHistoryLimit c)); (js "wsHeartbeatSeconds", JNum (wsHeartbeatSeconds c));
   (js "wsMaxBufferBytes", JNum (wsMaxBufferBytes c)); (js "resizeDebounceMs", JNum (resizeDebounceMs c));
   (js "reconnectMaxSeconds", JNum (reconnectMaxSeconds c)); (js "logLevel", JStr (name (logLevel c)));
   (js "homeDir", JStr (homeDir c)); (js "dataDir", JStr (dataDir c)); (js "sessionMaxCount", JNum (sessionMaxCount c));
   (js "authMode", JStr (name (authMode c))); (js "localAuthUsername", JStr (localAuthUsername c));
   (js "bcryptCost", JNum (bcryptCost c)); (js "authIdleMinutes", JNum (authIdleMinutes c));
   (js "authAbsoluteHours", JNum (authAbsoluteHours c)); (js "authSessionMaxCount", JNum (authSessionMaxCount c));
   (js "trustProxy", trust_json (app_trustProxy c)); (js "trustedAuthHeader", JStr (trustedAuthHeader c));
   (js "allowedShells", JArr (JStr <$> app_allowedShells c)); (js "maxFontSize", JNum (maxFontSize c));
   (js "maxXtermScrollback", JNum (maxXtermScrollback c)); (js "maxTmuxHistoryLimit", JNum (maxTmuxHistoryLimit c));
   (js "maxStaleSessionCleanupHours", JNum (maxStaleSessionCleanupHours c));
   (js "sessionCleanupIntervalMinutes", JNum (sessionCleanupIntervalMinutes c))] ++
  match cloudflareTeamDomain c with Some d => [(js "cloudflareTeamDomain", JStr d)] | None => [] end ++
  match cloudflareAccessAud c with Some a => [(js "cloudflareAccessAud", JStr a)] | None => [] end.
Definition without_file (c : AppConfig) : AppConfig :=
  {| app_port := app_port c; bindHost := bindHost c; app_basePath := app_basePath c; publicUrl := publicUrl c;
     app_publicOrigin := app_publicOrigin c; publicHost := publicHost c; app_defaultShell := app_defaultShell c;
     defaultFontSize := defaultFontSize c; xtermScrollback := xtermScrollback c;
     app_tmuxHistoryLimit := app_tmuxHistoryLimit c; wsHeartbeatSeconds := wsHeartbeatSeconds c;
     wsMaxBufferBytes := wsMaxBufferBytes c; resizeDebounceMs := resizeDebounceMs c;
     reconnectMaxSeconds := reconnectMaxSeconds c; logLevel := logLevel c; homeDir := homeDir c; dataDir := dataDir c;
     sessionMaxCount := sessionMaxCount c; appConfigFile := None; authMode := authMode c;
     localAuthUsername := localAuthUsername c; bcryptCost := bcryptCost c; authIdleMinutes := authIdleMinutes c;
     authAbsoluteHours := authAbsoluteHours c; authSessionMaxCount := authSessionMaxCount c;
     cloudflareTeamDomain := cloudflareTeamDomain c; cloudflareAccessAud := cloudflareAccessAud c;
     app_trustProxy := app_trustProxy c; trustedAuthHeader := trustedAuthHeader c;
     app_allowedShells := app_allowedShells c; maxFontSize := maxFontSize c; maxXtermScrollback := maxXtermScrollback c;
     maxTmuxHistoryLimit := maxTmuxHistoryLimit c; maxStaleSessionCleanupHours := maxStaleSessionCleanupHours c;
     sessionCleanupIntervalMinutes := sessionCleanupIntervalMinutes c |}.

Section whole.
Context `{NormalForm, !NormalTrim, LowerCase, UrlParser, ProxyLibraries, AddressLibrary, !UrlLaws, !LowerCaseLaws, !AddressLaws}.

(** Every bound of the configuration. *)
Definition int_ok (lo hi n : Z) : Prop := lo <= n <= hi ∧ is_safe_integer n = true.
Record config_ok (c : AppConfig) : Prop := {
  ok_port : int_ok 1 65535 (app_port c);
  ok_host : boundedString 255 (λ _, true) (JStr (bindHost c)) = Some (bindHost c);
  ok_base : basePathSchema (JStr (app_basePath c)) = Some (app_basePath c);
  ok_url : publicUrlSchema (JStr (publicUrl c)) = Some (publicUrl c);
  ok_origin : ∃ u, parse_url (publicUrl c) None = Some u ∧ app_publicOrigin c = url_origin u ∧ publicUrl c = url_origin u ∧
    publicHost c = url_host u ∧ protocol u ∈ [js "http:"; js "https:"];
  ok_shell : safeAbsolutePathSchema (JStr (app_defaultShell c)) = Some (app_defaultShell c);
  ok_font : int_ok 8 32 (defaultFontSize c);
  ok_scroll : int_ok 0 100000 (xtermScrollback c);
  ok_history : int_ok 0 1000000 (app_tmuxHistoryLimit c);
  ok_heartbeat : int_ok 5 300 (wsHeartbeatSeconds c);
  ok_buffer : int_ok 65536 MAX_WS_BUFFER_BYTES (wsMaxBufferBytes c);
  ok_resize : int_ok MIN_RESIZE_DEBOUNCE_MS MAX_RESIZE_DEBOUNCE_MS (resizeDebounceMs c);
  ok_reconnect : int_ok MIN_RECONNECT_SECONDS MAX_RECONNECT_SECONDS (reconnectMaxSeconds c);
  ok_home : safeAbsolutePathSchema (JStr (homeDir c)) = Some (homeDir c);
  ok_data : safeAbsolutePathSchema (JStr (dataDir c)) = Some (dataDir c);
  ok_sessions : int_ok 1 20 (sessionMaxCount c);
  ok_username : localUsernameSchema (JStr (localAuthUsername c)) = Some (localAuthUsername c);
  ok_cost : int_ok 10 15 (bcryptCost c);
  ok_idle : int_ok 5 1440 (authIdleMinutes c);
  ok_absolute : int_ok 1 168 (authAbsoluteHours c);
  ok_auth_sessions : int_ok 1 256 (authSessionMaxCount c);
  ok_team : ∀ d, cloudflareTeamDomain c = Some d → cloudflareDomainSchema (JStr d) = Some d;
  ok_aud : ∀ a, cloudflareAccessAud c = Some a → boundedString 256 safeTokenPattern (JStr a) = Some a;
  ok_trust : trust_ok (app_trustProxy c);
  ok_auth_header : boundedString 128 httpTokenPattern (JStr (trustedAuthHeader c)) = Some (trustedAuthHeader c);
  ok_shells : allowedShellsSchema (JArr (JStr <$> app_allowedShells c)) = Some (app_allowedShells c);
  ok_max_font : int_ok 8 32 (maxFontSize c);
  ok_max_scroll : int_ok 0 100000 (maxXtermScrollback c);
  ok_max_history : int_ok 0 1000000 (maxTmuxHistoryLimit c);
  ok_max_cleanup : int_ok 0 8760 (maxStaleSessionCleanupHours c);
  ok_interval : int_ok 5 1440 (sessionCleanupIntervalMinutes c);
  ok_default_allowed : app_defaultShell c ∈ app_allowedShells c;
  ok_cloudflare : authMode c = cloudflare_access → is_Some (cloudflareTeamDomain c) ∧ is_Some (cloudflareAccessAud c);
  ok_trusted : authMode c = trusted_header → ∃ l, app_trustProxy c = TrustRanges l;
}.

Lemma int_ok_input lo hi v n : integerInput lo hi v = Some n → int_ok lo hi n.
Proof. apply integerInput_Some. Qed.
Lemma clamped_ok lo hi v n : clampedIntegerInput lo hi v = Some n → lo <= hi → is_safe_integer lo = true → is_safe_integer hi = true → int_ok lo hi n.
Proof.
  intros Hn Hl E1 E2. pose proof (clamped_Some _ _ _ _ Hn Hl) as Hb. split; [done|].
  unfold is_safe_integer in *. rewrite !andb_true_iff, !Z.leb_le in *. lia.
Qed.
Lemma optional_Some {A} (schema : json → option A) v r : optional schema v = Some r → ∀ a, r = Some a → ∃ x, schema x = Some a.
Proof.
  destruct v as [v|]; cbn; [|by intros [= <-]]. destruct (schema v) as [x|] eqn:E; [|done]. intros [= <-] a [= <-]. by exists v.
Qed.

Ltac cbn_config := cbn [app_port bindHost app_basePath publicUrl app_publicOrigin publicHost app_defaultShell
  defaultFontSize xtermScrollback app_tmuxHistoryLimit wsHeartbeatSeconds wsMaxBufferBytes resizeDebounceMs
  reconnectMaxSeconds logLevel homeDir dataDir sessionMaxCount appConfigFile authMode localAuthUsername bcryptCost
  authIdleMinutes authAbsoluteHours authSessionMaxCount cloudflareTeamDomain cloudflareAccessAud app_trustProxy
  trustedAuthHeader app_allowedShells maxFontSize maxXtermScrollback maxTmuxHistoryLimit maxStaleSessionCleanupHours
  sessionCleanupIntervalMinutes].
(** What a schema accepted is accepted again, by the lemma of the schema. *)
Ltac again_from :=
  lazymatch goal with
  | H : ?schema _ = Some ?x |- ?schema _ = Some ?x =>
      first [eapply proj1, boundedString_again, H|eapply proj1, path_schema_again, H|eapply base_path_again, H
            |eapply proj1, public_url_again, H|eapply proj1, username_again, H|eapply proj1, shells_again, H]
  | H : integerInput _ _ _ = Some ?x |- int_ok _ _ ?x => eapply int_ok_input, H
  | H : clampedIntegerInput _ _ _ = Some ?x |- int_ok _ _ ?x => eapply clamped_ok; [exact H|done..]
  | H : trustProxySchema _ = Some ?x |- trust_ok ?x => eapply trust_Some, H
  end.
Lemma loadConfig_ok env fs c : loadConfig env fs = Some c → config_ok c.
Proof.
  unfold loadConfig. intros Hc. case_match; [done|].
  repeat match type of Hc with (_ ≫= _) = Some _ => apply bind_Some in Hc as (? & ? & Hc) end.
  destruct (_ || _) eqn:Er in Hc; [done|]. apply bind_Some in Hc as (url & Hurl & [= <-]).
  rewrite !orb_false_iff, !andb_false_iff, !orb_false_iff, !bool_decide_eq_false, negb_false_iff, bool_decide_eq_true in Er.
  destruct Er as [[Hcf Hth] Hin].
  split; cbn_config; try again_from.
  - match goal with H : publicUrlSchema _ = Some ?x |- _ => destruct (public_url_again _ _ H) as (_ & u & Hu & Ho & Hp) end.
    rewrite Hu in Hurl. injection Hurl as ->. by exists url.
  - intros d ->. match goal with H : optional cloudflareDomainSchema _ = _ |- _ => destruct (optional_Some _ _ _ H d eq_refl) as (v & Hv) end.
    by eapply cloudflare_again.
  - intros a ->. match goal with H : optional (boundedString _ _) _ = _ |- _ => destruct (optional_Some _ _ _ H a eq_refl) as (v & Hv) end.
    eapply proj1, boundedString_again, Hv.
  - done.
  - intros Hm. destruct Hcf as [?|[? ?]]; [done|]. by rewrite <-!not_eq_None_Some.
  - intros Hm. destruct Hth as [?|Ht]; [done|]. by case_match; [..|eexists].
Qed.

(** ** The same configuration from a file *)

Lemma js_inj a b : js a = js b → a = b.
Proof.
  unfold js. intros E. rewrite <-(String.string_of_list_ascii_of_string a), <-(String.string_of_list_ascii_of_string b). f_equal.
  revert E. generalize (String.list_ascii_of_string a), (String.list_ascii_of_string b).
  induction l as [|x l IH]; intros [|y m] E; try done. rewrite !fmap_cons in E. injection E as E1 E2. f_equal; [|by apply IH].
  apply Nat2Z.inj in E1. by rewrite <-(Ascii.ascii_nat_embedding x), E1, Ascii.ascii_nat_embedding.
Qed.
Lemma field_cons k k' v fs : field (js k) ((js k', v) :: fs) = if String.eqb k k' then Some v else field (js k) fs.
Proof.
  cbn. destruct (String.eqb_spec k k') as [->|Hn]; [by rewrite decide_True|]. rewrite decide_False; [done|].
  intros E. by apply js_inj in E.
Qed.
(** An entry of a file, with its type. *)
Lemma file_entry k v (t : file_type) fs : type_of_key (js k) = Some t → has_file_type t v = true →
  fileValuesSchema fs = true → fileValuesSchema ((js k, v) :: fs) = true.
Proof. intros Ht Hv Hfs. unfold fileValuesSchema. cbn [forallb fst snd]. by rewrite Ht, Hv. Qed.
Lemma int_type lo hi n : int_ok lo hi n → has_file_type F_int (JNum n) = true.
Proof. intros [_ Hs]. unfold has_file_type. rewrite int_value_num by done. done. Qed.
Lemma strings_type l : has_file_type F_strings (JArr (JStr <$> l)) = true.
Proof. unfold has_file_type. rewrite string_list_strings. done. Qed.
Lemma trust_type t : trust_ok t → has_file_type F_proxy (trust_json t) = true.
Proof.
  intros Ht. unfold has_file_type. destruct t as [|n|l]; cbn [trust_json trust_ok] in *; [done| |].
  - rewrite int_value_num; [done|]. unfold is_safe_integer, MAX_SAFE_INTEGER. rewrite andb_true_iff, !Z.leb_le. lia.
  - rewrite string_list_strings. by rewrite orb_true_r.
Qed.
Lemma config_file_types c : config_ok c → fileValuesSchema (config_file c) = true.
Proof.
  intros Hc. unfold config_file. cbn [app].
  repeat (eapply file_entry; [vm_compute; reflexivity|first [by eapply int_type, Hc|apply strings_type|apply trust_type, Hc|reflexivity]|]).
  destruct (cloudflareTeamDomain c), (cloudflareAccessAud c); cbn [app];
    repeat (eapply file_entry; [vm_compute; reflexivity|reflexivity|]); done.
Qed.
Lemma pick_file c ek fk d v : field (js fk) (config_file c) = Some v → pick (λ _, None) (config_file c) ek fk d = v.
Proof. intros Hf. unfold pick, pick_optional. by rewrite Hf. Qed.
Lemma optional_again {A} (schema : json → option A) (print : A → json) r :
  (∀ a, r = Some a → schema (print a) = Some a) → optional schema (print <$> r) = Some r.
Proof. destruct r as [a|]; [|done]. intros Hr. cbn. by rewrite Hr. Qed.
Lemma int_again lo hi n : int_ok lo hi n → integerInput lo hi (JNum n) = Some n.
Proof. intros []. by apply integerInput_again. Qed.
Lemma clamp_again lo hi n : int_ok lo hi n → clampedIntegerInput lo hi (JNum n) = Some n.
Proof. intros []. by apply clamped_again. Qed.
Lemma config_file_optional c :
  pick_optional (λ _, None) (config_file c) "CLOUDFLARE_TEAM_DOMAIN" "cloudflareTeamDomain" = JStr <$> cloudflareTeamDomain c ∧
  pick_optional (λ _, None) (config_file c) "CLOUDFLARE_ACCESS_AUD" "cloudflareAccessAud" = JStr <$> cloudflareAccessAud c.
Proof. unfold pick_optional, config_file. destruct (cloudflareTeamDomain c), (cloudflareAccessAud c); split; reflexivity. Qed.
Lemma bind_step {A B} (m : option A) (f : A → option B) a r : m = Some a → f a = r → m ≫= f = r.
Proof. by intros -> <-. Qed.
Lemma loadConfig_again c : config_ok c → loadConfig (λ _, None) (config_file c) = Some (without_file c).
Proof.
  intros Hc. destruct (config_file_optional c) as [Ht Ha]. unfold loadConfig. rewrite config_file_types by done.
  cbn [negb fmap option_fmap option_map].
  repeat lazymatch goal with
  | |- context [pick _ (config_file c) ?ek ?fk ?d] => erewrite (pick_file c ek fk d) by reflexivity
  end.
  rewrite Ht, Ha.
  eapply bind_step; [reflexivity|]; cbn beta.
  repeat (eapply bind_step; [first [apply int_again, Hc|apply clamp_again, Hc|apply enum_print|apply trust_again, Hc
    |apply optional_again, Hc|apply Hc]|]; cbn beta).
  rewrite (bool_decide_true (app_defaultShell c ∈ app_allowedShells c)) by apply Hc.
  assert (bool_decide (authMode c = cloudflare_access) && (bool_decide (cloudflareTeamDomain c = None) || bool_decide (cloudflareAccessAud c = None)) = false)
    as ->.
  { case_bool_decide as Hm; [|done]. destruct (ok_cloudflare c Hc Hm) as [[? ->] [? ->]]. done. }
  assert (bool_decide (authMode c = trusted_header) && match app_trustProxy c with TrustRanges _ => false | _ => true end = false) as ->.
  { case_bool_decide as Hm; [|done]. by destruct (ok_trusted c Hc Hm) as [? ->]. }
  cbn [negb orb]. destruct (ok_origin c Hc) as (u & Hu & Ho & _ & Hh & _).
  rewrite Hu. cbn [mbind option_bind]. unfold without_file. by rewrite Ho, Hh.
Qed.

(** ** The environment wins *)

Definition drop_key (k : string) (fs : list (jsstr * json)) : list (jsstr * json) := filter (λ p, p.1 ≠ js k) fs.
Lemma field_drop k k' fs : k ≠ k' → field (js k) (drop_key k' fs) = field (js k) fs.
Proof.
  intros Hk. induction fs as [|[j v] fs IH]; [done|]. unfold drop_key. rewrite filter_cons. cbn [fst].
  destruct (decide (j ≠ js k')) as [Hj|Hj]; cbn [field].
  - destruct (decide (js k = j)); [done|exact IH].
  - fold (drop_key k' fs). rewrite IH. destruct (decide (js k = j)) as [<-|]; [|done]. exfalso. apply Hj. by intros ?%js_inj.
Qed.
Lemma pick_drop env fs ek fk s : (ek, fk) ∈ config_keys → env (js ek) = Some s → ∀ ek' fk', (ek', fk') ∈ config_keys →
  pick_optional env (drop_key fk fs) ek' fk' = pick_optional env fs ek' fk'.
Proof.
  intros Hin He ek' fk' Hin'. unfold pick_optional. destruct (decide (fk' = fk)) as [->|Hn].
  - assert (ek' = ek) as ->; [|by rewrite He].
    apply list_elem_of_lookup in Hin as [i Hi], Hin' as [j Hj].
    assert (NoDup config_keys.*2) as Hnd by (apply (bool_decide_eq_true_1 _); vm_compute; reflexivity).
    assert (i = j) as ->; [|by congruence].
    eapply NoDup_lookup; [exact Hnd|rewrite list_lookup_fmap, Hi; done|rewrite list_lookup_fmap, Hj; done].
  - by rewrite field_drop.
Qed.
Lemma types_drop k fs : fileValuesSchema fs = true → fileValuesSchema (drop_key k fs) = true.
Proof.
  unfold fileValuesSchema. rewrite !forallb_forall. intros Hfs p Hp. apply Hfs, list_elem_of_In.
  apply list_elem_of_In, list_elem_of_filter in Hp as [_ ?]. done.
Qed.
Lemma environment_wins env fs ek fk s : (ek, fk) ∈ config_keys → env (js ek) = Some s → fileValuesSchema fs = true →
  loadConfig env (drop_key fk fs) = loadConfig env fs.
Proof.
  intros Hin He Hfs. pose proof (pick_drop env fs ek fk s Hin He) as Hp. unfold loadConfig. rewrite types_drop, Hfs by done.
  unfold pick.
  repeat lazymatch goal with
  | |- context [pick_optional env (drop_key fk fs) ?e ?k] =>
      rewrite (Hp e k) by (apply (bool_decide_eq_true_1 _); vm_compute; reflexivity)
  end.
  reflexivity.
Qed.

(** ** What the client gets *)

Lemma toClientConfig_ok c : config_ok c → toClientConfig c =
  Some {| cc_basePath := app_basePath c; cc_resizeDebounceMs := resizeDebounceMs c; cc_reconnectMaxSeconds := reconnectMaxSeconds c |}.
Proof.
  intros Hc. unfold toClientConfig, parseClientConfig.
  set (cc := {| cc_basePath := _ |}).
  change (strict_object client_keys (client_json cc)) with (Some (zip client_keys
    [JStr (app_basePath c); JNum (resizeDebounceMs c); JNum (reconnectMaxSeconds c)])). cbn [mbind option_bind].
  change (prop _ "basePath" basePathSchema) with (basePathSchema (JStr (app_basePath c))).
  change (prop _ "resizeDebounceMs" ?s) with (s (JNum (resizeDebounceMs c))).
  change (prop _ "reconnectMaxSeconds" ?s) with (s (JNum (reconnectMaxSeconds c))).
  rewrite (ok_base c Hc), !int_schema_json by apply Hc. done.
Qed.
End whole.


(** * A deployment behind a proxy *)

Definition sample_config_urls : UrlParser := {| parse_url := λ s _,
  if bool_decide (s = js "http://localhost:3000") then Some
    {| protocol := js "http:"; url_username := []; url_password := []; hostname := js "localhost"; port := js "3000";
       pathname := js "/"; search := []; hash := []; url_origin := js "http://localhost:3000" |}
  else None |}.
Definition sample_addresses : AddressLibrary := {|
  ip_address := unit;
  ip_parse := λ s, if bool_decide (s = js "10.0.0.0") then Some tt else None;
  ip_parseCIDR := λ s, if bool_decide (s = js "10.0.0.0/8") then Some (tt, 8) else None;
  ip_is_v4 := λ _, true;
  ip_isIPv4Mapped := λ _, false;
  ip_toIPv4 := λ a, a;
  ip_toString := λ _, js "10.0.0.0";
  ip_networkAddress := λ v4 s, if v4 && bool_decide (s = js "10.0.0.0/8") then Some tt else None |}.
Lemma prefix_eight p : number_to_string p = js "8" → p = 8.
Proof.
  intros Hp. destruct (Z.lt_ge_cases (Z.abs p) (10 ^ 21)) as [Hl|Hg].
  - pose proof (number_roundtrip p [] Hl I) as Hr. rewrite Hp in Hr.
    assert (parse_number (js "8" ++ []) = Some (JNum 8, [])) as E by (vm_compute; reflexivity). congruence.
  - apply (f_equal length) in Hp. unfold number_to_string in Hp. rewrite (proj2 (Z.ltb_ge _ _) Hg), !length_app in Hp.
    change (length (js "e+")) with 2%nat in Hp. change (length (js "8")) with 1%nat in Hp. lia.
Qed.
Lemma sample_address_laws : @AddressLaws sample_addresses.
Proof.
  split; [by intros []| |done]. intros v4 a p n Hn ->. cbn in Hn. case_bool_decide as Hs; [|done].
  assert (p = 8) as ->.
  { apply prefix_eight. unfold cidr_string in Hs. cbn [ip_toString sample_addresses] in Hs.
    change (js "10.0.0.0/8") with (js "10.0.0.0" ++ [47] ++ js "8") in Hs. by apply (inj (app (js "10.0.0.0"))), (inj (app [47])) in Hs. }
  destruct n. split_and!; done.
Qed.
Lemma sample_url_laws : @UrlLaws sample_config_urls.
Proof.
  intros s base url Hu _. cbn in Hu. case_bool_decide; [|done]. injection Hu as <-. by eexists.
Qed.
Definition sample_environment (k : jsstr) : option jsstr :=
  if bool_decide (k = js "APP_PORT") then Some (js "8080")
  else if bool_decide (k = js "AUTH_MODE") then Some (js "trusted-header")
  else if bool_decide (k = js "TRUST_PROXY") then Some (js "10.0.0.0, 10.0.0.0/8 ")
  else None.
Definition sample_config_file : list (jsstr * json) :=
  [(js "port", JNum 9000); (js "logLevel", JStr (js "debug")); (js "trustProxy", JNum 3)].
Definition sample_environment2 (k : jsstr) : option jsstr :=
  if bool_decide (k = js "TRUST_PROXY") then Some (js "10.0.0.0/8, 10.0.0.0/8 ") else sample_environment k.
