(* ===== verification/ConfigFile.v ===== *)
(** [apps/server/src/config-file.ts]: reading the optional configuration file.

    The [ConfigFileSystem] is a handler of its calls; a [read] answers with the
    bytes that it put into the buffer.  Every failure is the one error of the
    function. *)
From S2P Require Import Prelude JsMap SafeString Json JsonText Double Settings AuthService Headers Origin Upstream Config SecureFile.
Open Scope Z_scope.

Definition MAX_CONFIG_FILE_BYTES : Z := 64 * 1024.

Inductive file_call := Open_file (path : jsstr) | Stat_file | Read_file (offset len : Z) | Close_file.
Record file_stat := { size : Z; isFile : bool }.
Definition file_resp (c : file_call) : Type :=
  match c with Stat_file => file_stat | Read_file _ _ => list Z | _ => unit end.
Inductive config_error := Invalid_configuration | Out_of_fuel.

Definition ALLOWED_CONFIG_KEYS : list jsstr := js <$>
  ["port"; "bindHost"; "basePath"; "publicUrl"; "defaultShell"; "defaultFontSize"; "xtermScrollback"; "tmuxHistoryLimit";
   "wsHeartbeatSeconds"; "wsMaxBufferBytes"; "resizeDebounceMs"; "reconnectMaxSeconds"; "logLevel"; "homeDir"; "dataDir";
   "sessionMaxCount"; "authMode"; "localAuthUsername"; "bcryptCost"; "authIdleMinutes"; "authAbsoluteHours";
   "authSessionMaxCount"; "cloudflareTeamDomain"; "cloudflareAccessAud"; "trustProxy"; "trustedAuthHeader";
   "allowedShells"; "maxFontSize"; "maxXtermScrollback"; "maxTmuxHistoryLimit"; "maxStaleSessionCleanupHours";
   "sessionCleanupIntervalMinutes"]%string.

(** [s.includes(t)] *)
Fixpoint includes (t s : jsstr) : bool :=
  bool_decide (take (length t) s = t) || match s with [] => false | _ :: s => includes t s end.
(** [/(password|secret|token|cookie|privatekey)/i] *)
Definition SECRET_KEY_PATTERN (key : jsstr) : bool :=
  existsb (λ w, includes (js w) (ascii_lower <$> key)) ["password"; "secret"; "token"; "cookie"; "privatekey"]%string.
Definition valid_key (key : jsstr) : bool := negb (SECRET_KEY_PATTERN key || negb (bool_decide (key ∈ ALLOWED_CONFIG_KEYS))).
Definition isPlainObject (v : json) : option (list (jsstr * json)) := match v with JObj fs => Some fs | _ => None end.

Section load.
Context {W : Type} (h : @handler unit W file_call config_error file_resp).
Abbreviation FM := (M (sys unit W file_call) config_error).

(** Whatever a call rejects with becomes the error of the function. *)
Definition io (c : file_call) : FM (file_resp c) := catch (call file_resp h c) (λ _, throw Invalid_configuration).

Fixpoint read_loop (fuel : nat) (buffer : list Z) : FM (list Z) :=
  let offset := Z.of_nat (length buffer) in
  match fuel with
  | O => throw Out_of_fuel
  | S fuel =>
      if offset <? MAX_CONFIG_FILE_BYTES + 1 then
        let! bytes := io (Read_file offset (MAX_CONFIG_FILE_BYTES + 1 - offset)) in
        if bool_decide (bytes = []) then ret buffer else read_loop fuel (buffer ++ bytes)
      else ret buffer
  end.
Definition readBounded (fuel : nat) : FM (list Z) :=
  let! buffer := read_loop fuel [] in
  do! throw_if (MAX_CONFIG_FILE_BYTES <? Z.of_nat (length buffer)) Invalid_configuration in
  ret buffer.

(** The body of the [try], once the file is open. *)
Definition read_document (fuel : nat) : FM (list (jsstr * json)) :=
  let! st := io Stat_file in
  do! throw_if (negb (isFile st) || (MAX_CONFIG_FILE_BYTES <? size st)) Invalid_configuration in
  let! bytes := readBounded fuel in
  let! v := of_option (decode_file bytes) Invalid_configuration in
  let! fs := of_option (isPlainObject v) Invalid_configuration in
  do! throw_if (negb (forallb (λ p, valid_key p.1) fs)) Invalid_configuration in
  ret fs.

Definition loadOptionalConfigFile (fuel : nat) (path : option jsstr) : FM (list (jsstr * json)) :=
  match path with
  | None | Some [] => ret []
  | Some path =>
      if negb (isAbsolute path) then throw Invalid_configuration
      else
        let! opened := attempt (io (Open_file path)) in
        match opened with
        | Throw _ => throw Invalid_configuration
        | Ok _ =>
            let! result := attempt (read_document fuel) in
            let! closed := attempt (io Close_file) in
            match result, closed with
            | Ok fs, Ok _ => ret fs
            | Throw Out_of_fuel, _ => throw Out_of_fuel
            | _, _ => throw Invalid_configuration
            end
        end
  end.

End load.

(** * Facts *)

Lemma valid_key_spec k : valid_key k = true ↔ k ∈ ALLOWED_CONFIG_KEYS.
Proof.
  unfold valid_key. rewrite negb_true_iff, orb_false_iff, negb_false_iff, bool_decide_eq_true. split; [tauto|]. intros Hk. split; [|done].
  assert (forallb (λ k, negb (SECRET_KEY_PATTERN k)) ALLOWED_CONFIG_KEYS = true) as Hall by (vm_compute; reflexivity).
  apply negb_true_iff. exact (proj1 (forallb_forall _ _) Hall k (proj1 (list_elem_of_In _ _) Hk)).
Qed.

Section facts.
Context {W : Type} (h : @handler unit W file_call config_error file_resp).
Implicit Types (s : sys unit W file_call).
(** A [read] puts at most as many bytes into the buffer as it may. *)
Definition honest_reads : Prop := ∀ offset len c w bytes x,
  0 <= len → h (Read_file offset len) c w = (Ok bytes, x) → Z.of_nat (length bytes) <= len.
Context (reads : honest_reads).

(** A call that answered [r]. *)
Definition answered (c : file_call) s (r : res config_error (file_resp c)) s' : Prop :=
  ∃ r0 w, h c (comp s) (world s) = (r0, (tt, w)) ∧ s' = Sys tt w (log s ++ [(c, is_ok r0)]) ∧
    r = match r0 with Ok a => Ok a | Throw _ => Throw Invalid_configuration end.
Lemma wp_io c (Q : res config_error (file_resp c) → sys unit W file_call → Prop) s :
  (∀ r s', answered c s r s' → Q r s') → wp (io h c) Q s.
Proof.
  intros HQ. unfold io. apply wp_catch, wp_call. intros r [] w Hr.
  assert (answered c s (match r with Ok a => Ok a | Throw _ => Throw Invalid_configuration end) (Sys tt w (log s ++ [(c, is_ok r)])))
    as Ha by by exists r, w.
  destruct r; [|apply wp_throw]; by apply HQ.
Qed.
Lemma answered_log c s r s' : answered c s r s' → log s' = log s ++ [(c, is_ok r)].
Proof. intros (r0 & w & _ & -> & ->). by destruct r0. Qed.
Lemma answered_throw c s e s' : answered c s (Throw e) s' → e = Invalid_configuration.
Proof. intros ([] & w & _ & _ & E); [done|]. by injection E. Qed.
Definition calls_of (P : file_call → Prop) s s' : Prop := ∃ ls, log s' = log s ++ ls ∧ Forall (λ p : file_call * bool, P p.1) ls.
Lemma calls_one (P : file_call → Prop) c s r s' : P c → answered c s r s' → calls_of P s s'.
Proof. intros Hc Hl%answered_log. exists [(c, is_ok r)]. split; [exact Hl|]. by repeat constructor. Qed.
Lemma calls_trans P s1 s2 s3 : calls_of P s1 s2 → calls_of P s2 s3 → calls_of P s1 s3.
Proof. intros (l1 & H1 & F1) (l2 & H2 & F2). exists (l1 ++ l2). rewrite H2, H1, <-app_assoc. split; [done|]. by apply Forall_app. Qed.
Lemma calls_refl P s : calls_of P s s.
Proof. exists []. by rewrite app_nil_r. Qed.

(** What the reads from an offset on yield, up to the first empty one or a
    full buffer. *)
Inductive content : nat → sys unit W file_call → list Z → sys unit W file_call → Prop :=
| content_full n s : Z.of_nat n = MAX_CONFIG_FILE_BYTES + 1 → content n s [] s
| content_end n s s' : answered (Read_file (Z.of_nat n) (MAX_CONFIG_FILE_BYTES + 1 - Z.of_nat n)) s (Ok []) s' → content n s [] s'
| content_more n s bytes s1 rest s' : bytes ≠ [] →
    answered (Read_file (Z.of_nat n) (MAX_CONFIG_FILE_BYTES + 1 - Z.of_nat n)) s (Ok bytes) s1 →
    content (n + length bytes) s1 rest s' → content n s (bytes ++ rest) s'.
Definition only_reads (c : file_call) : Prop := match c with Read_file _ _ => True | _ => False end.
Definition no_close (c : file_call) : Prop := match c with Stat_file | Read_file _ _ => True | _ => False end.

Lemma wp_config_reads fuel : ∀ buffer s, Z.of_nat (length buffer) <= MAX_CONFIG_FILE_BYTES + 1 →
  MAX_CONFIG_FILE_BYTES + 2 < Z.of_nat fuel + Z.of_nat (length buffer) →
  wp (read_loop h fuel buffer) (λ r s', calls_of only_reads s s' ∧ r ≠ Throw Out_of_fuel ∧
    ∀ out, r = Ok out → ∃ more, out = buffer ++ more ∧ content (length buffer) s more s') s.
Proof.
  induction fuel as [|fuel IH]; intros buffer s Hb Hf; [lia|]. cbn [read_loop]. apply wp_if; intros Ho.
  - apply Z.ltb_lt in Ho. apply wp_bind, (wp_io (Read_file _ _)). intros r s1 Ha.
    pose proof (calls_one only_reads (Read_file _ _) _ _ _ I Ha) as C1. destruct r as [bytes|e]; cycle 1.
    { split; [done|]. apply answered_throw in Ha as ->. by split. }
    apply wp_if; intros Hbytes; breflect.
    + subst bytes. apply wp_ret. split_and!; [done..|]. intros out [= <-]. exists []. rewrite app_nil_r. split; [done|]. by apply content_end.
    + assert (Z.of_nat (length bytes) <= MAX_CONFIG_FILE_BYTES + 1 - Z.of_nat (length buffer)) as Hl.
      { destruct Ha as ([b|] & w & Hh & _ & E); [|done]. injection E as ->. eapply reads; [lia|exact Hh]. }
      assert (1 <= length bytes)%nat by (destruct bytes; [done|cbn; lia]).
      eapply wp_mono; [apply IH; rewrite length_app; lia|]. intros r s2 (C2 & Hr & Hout).
      split; [by eapply calls_trans|]. split; [done|]. intros out Ho2. destruct (Hout out Ho2) as (more & -> & Hc).
      exists (bytes ++ more). rewrite app_assoc. split; [done|]. rewrite length_app in Hc. by eapply content_more.
  - apply Z.ltb_ge in Ho. apply wp_ret. split; [apply calls_refl|]. split; [done|]. intros out [= <-].
    exists []. rewrite app_nil_r. split; [done|]. apply content_full. lia.
Qed.

(** The open file holds a document of the allowed keys. *)
Definition document_of s (fs : list (jsstr * json)) s' : Prop :=
  ∃ st s1 bytes, answered Stat_file s (Ok st) s1 ∧ isFile st = true ∧ size st <= MAX_CONFIG_FILE_BYTES ∧
    content 0 s1 bytes s' ∧ Z.of_nat (length bytes) <= MAX_CONFIG_FILE_BYTES ∧ decode_file bytes = Some (JObj fs) ∧
    Forall (λ p, p.1 ∈ ALLOWED_CONFIG_KEYS) fs.
Lemma only_reads_no_close s s' : calls_of only_reads s s' → calls_of no_close s s'.
Proof. intros (ls & Hl & Hf). exists ls. split; [done|]. eapply Forall_impl; [exact Hf|]. by intros [[] b]. Qed.
Lemma wp_read_document fuel s : MAX_CONFIG_FILE_BYTES + 2 < Z.of_nat fuel →
  wp (read_document h fuel) (λ r s', calls_of no_close s s' ∧ r ≠ Throw Out_of_fuel ∧
    ∀ fs, r = Ok fs → document_of s fs s') s.
Proof.
  intros Hf. unfold read_document. apply wp_bind, (wp_io Stat_file). intros r s1 Ha.
  pose proof (calls_one no_close Stat_file _ _ _ I Ha) as C1. destruct r as [st|e]; cycle 1.
  { split; [done|]. apply answered_throw in Ha as ->. by split. }
  apply wp_bind, wp_throw_if; intros Hst; [done|]. apply orb_false_iff in Hst as [Hst%negb_false_iff Hsz%Z.ltb_ge].
  apply wp_bind. unfold readBounded. apply wp_bind. eapply wp_mono; [apply (wp_config_reads fuel []); [done|cbn [length]; lia]|].
  intros r s2 (C2%only_reads_no_close & Hr & Hout). assert (calls_of no_close s s2) as C by by eapply calls_trans.
  destruct r as [bytes|e]; [|split; [done|]; split; [by intros [= ->]|done]].
  destruct (Hout bytes eq_refl) as (more & Hm & Hc). cbn in Hm. subst more.
  apply wp_bind, wp_throw_if; intros Hl; [done|]. apply Z.ltb_ge in Hl. apply wp_ret.
  apply wp_bind, wp_of_option; [intros v Hv|done]. apply wp_bind, wp_of_option; [intros fs Hfs|done].
  apply wp_bind, wp_throw_if; intros Hk; [done|]. apply wp_ret. split; [done|]. split; [done|]. intros fs' [= <-].
  exists st, s1, bytes. destruct v; try done. injection Hfs as <-. apply negb_false_iff in Hk. split_and!; try done.
  apply Forall_forall. intros p Hp. apply valid_key_spec. exact (proj1 (forallb_forall _ _) Hk p (proj1 (list_elem_of_In _ _) Hp)).
Qed.

(** What became of a path. *)
Definition file_post (path : option jsstr) s (r : res config_error (list (jsstr * json))) s' : Prop :=
  r ≠ Throw Out_of_fuel ∧
  match path with
  | None | Some [] => r = Ok [] ∧ s' = s
  | Some p =>
      (isAbsolute p = false ∧ s' = s ∧ r = Throw Invalid_configuration) ∨
      ∃ x s1, isAbsolute p = true ∧ answered (Open_file p) s x s1 ∧
        match x with
        | Throw _ => s' = s1 ∧ r = Throw Invalid_configuration
        | Ok _ => ∃ s2 y, calls_of no_close s1 s2 ∧ answered Close_file s2 y s' ∧
            (r = Throw Invalid_configuration ∨ ∃ fs, r = Ok fs ∧ is_ok y = true ∧ document_of s1 fs s2)
        end
  end.
Lemma wp_loadOptionalConfigFile fuel path s : MAX_CONFIG_FILE_BYTES + 2 < Z.of_nat fuel →
  wp (loadOptionalConfigFile h fuel path) (file_post path s) s.
Proof.
  intros Hf. unfold loadOptionalConfigFile, file_post. destruct path as [[|c p]|]; [by apply wp_ret| |by apply wp_ret].
  set (path := c :: p). apply wp_if; intros Hp.
  { apply negb_true_iff in Hp. apply wp_throw. split; [done|]. by left. }
  apply negb_false_iff in Hp. apply wp_bind, wp_attempt, (wp_io (Open_file path)). intros x s1 Hx. cbn beta iota.
  destruct x as [u|e]; [|apply wp_throw; split; [done|]; right; by exists (Throw e), s1].
  apply wp_bind, wp_attempt. eapply wp_mono; [by apply wp_read_document|]. intros r s2 (C & Hr & Hd). cbn beta iota.
  apply wp_bind, wp_attempt, (wp_io Close_file). intros y s3 Hy. cbn beta iota.
  assert (∀ q, q ≠ Throw Out_of_fuel → (q = Throw Invalid_configuration ∨ ∃ fs, q = Ok fs ∧ is_ok y = true ∧ document_of s1 fs s2) →
    q ≠ Throw Out_of_fuel ∧ (isAbsolute path = false ∧ s3 = s ∧ q = Throw Invalid_configuration ∨
    ∃ x s1, isAbsolute path = true ∧ answered (Open_file path) s x s1 ∧ match x with
        | Throw _ => s3 = s1 ∧ q = Throw Invalid_configuration
        | Ok _ => ∃ s2 y, calls_of no_close s1 s2 ∧ answered Close_file s2 y s3 ∧
            (q = Throw Invalid_configuration ∨ ∃ fs, q = Ok fs ∧ is_ok y = true ∧ document_of s1 fs s2)
        end)) as Hdone.
  { intros q Hq Hcase. split; [done|]. right. exists (Ok u), s1. split_and!; [done..|]. by exists s2, y. }
  destruct r as [fs|[|]]; [destruct y as [v|e]| |done].
  - apply wp_ret, Hdone; [done|]. right. exists fs. split_and!; [done..|]. by apply Hd.
  - apply wp_throw, Hdone; [done|]. by left.
  - destruct y; apply wp_throw, Hdone; [done|by left|done|by left].
Qed.
End facts.

(** Reading the optional configuration file always ends, without a path
    without a call, and otherwise with the file closed exactly once if it was
    opened, after every other call, whatever failed in between.  It succeeds
    only for an absolute path whose open file is a regular file of at most 64
    KiB that was read to its end, holds the UTF-8 text of one JSON object and
    has no key besides those that the configuration knows (none of which names
    a secret); every other outcome is the one error. *)
Theorem config_file_exact {W : Type} (h : @handler unit W file_call config_error file_resp) (fuel : nat)
    (path : option jsstr) (s : sys unit W file_call) :
  honest_reads h → MAX_CONFIG_FILE_BYTES + 2 < Z.of_nat fuel →
  (∃ r s', loadOptionalConfigFile h fuel path s = (r, s') ∧ file_post h path s r s') ∧
  (∀ k, valid_key k = true ↔ ∃ p, p ∈ fileValues ∧ k = js p.1).
Proof.
  intros Hh Hf. split.
  - pose proof (wp_loadOptionalConfigFile h Hh fuel path s Hf) as Hw. unfold wp in Hw.
    destruct (loadOptionalConfigFile h fuel path s) as [r s']. by exists r, s'.
  - intros k. rewrite valid_key_spec. assert (ALLOWED_CONFIG_KEYS = (λ p, js p.1) <$> fileValues) as -> by reflexivity.
    rewrite list_elem_of_fmap. naive_solver.
Qed.

(** ** A file that is read in two pieces *)

Definition sample_bytes : list Z := stringify (JObj [(js "port", JNum 9000)]).
Definition sample_file : @handler unit (list (list Z)) file_call config_error file_resp := λ c u w,
  match c as c return res config_error (file_resp c) * (unit * list (list Z)) with
  | Stat_file => (Ok {| size := 13; isFile := true |}, (u, w))
  | Read_file _ len => match w with
                       | b :: w => (Ok (take (Z.to_nat len) b), (u, w))
                       | [] => (Ok [], (u, w))
                       end
  | _ => (Ok tt, (u, w))
  end.
Lemma sample_reads : honest_reads sample_file.
Proof.
  intros offset len c w bytes x Hl Hr. cbn in Hr. destruct w as [|b w]; injection Hr as <- _; [exact Hl|rewrite length_take; lia].
Qed.
Theorem config_file_exact_witness :
  let before : sys unit (list (list Z)) file_call := Sys tt [take 5 sample_bytes; drop 5 sample_bytes] [] in
  ∃ s', loadOptionalConfigFile sample_file (Z.to_nat 65540) (Some (js "/etc/f.json")) before = (Ok [(js "port", JNum 9000)], s') ∧
    length (log s') = 6%nat ∧ file_post sample_file (Some (js "/etc/f.json")) before (Ok [(js "port", JNum 9000)]) s'.
Proof.
  intros before.
  destruct (proj1 (config_file_exact sample_file (Z.to_nat 65540) (Some (js "/etc/f.json")) before sample_reads ltac:(unfold MAX_CONFIG_FILE_BYTES; lia)))
    as (r & s' & Hr & Hp).
  assert (r = Ok [(js "port", JNum 9000)]) as ->.
  { apply (f_equal fst) in Hr. cbn [fst] in Hr. rewrite <-Hr. by vm_compute. }
  exists s'. split; [exact Hr|]. split; [|exact Hp].
  apply (f_equal (λ x, length (log x.2))) in Hr. cbn [snd] in Hr. rewrite <-Hr. by vm_compute.
Defined.
