(* ===== verification/App.v ===== *)
(** [apps/server/src/app.ts]: the HTTP application, which checks the path of a
    request and hands it to the health checks, a router, the static files or
    the page of the client.

    Express's path matching is outside: an interface that says which
    registrations of the application and of its routers match a method and a
    path.  [express.static] is outside too. *)
From S2P Require Import Prelude JsMap SafeString Json JsonText Double Settings Headers Origin Upstream AuthService AuthMiddleware Routes.
From S2P Require Import TabRoutes AuthRoutes SettingsRoutes AdminRoutes Config.
Open Scope Z_scope.

(** * Paths *)

(** [decodeURIComponent]: each escape or run of escapes is the UTF-8 encoding
    of one code point; [None] is a [URIError]. *)
Definition hex_pair (s : jsstr) : option (Z * jsstr) :=
  match s with
  | 37 :: a :: b :: s => x ← hex_value a; y ← hex_value b; Some (x * 16 + y, s)
  | _ => None
  end.
(** The escapes that continue a first byte, and what follows. *)
Fixpoint hex_pairs (n : nat) (s : jsstr) : option (list Z * jsstr) :=
  match n with
  | O => Some ([], s)
  | S n => '(b, s) ← hex_pair s; '(bs, s) ← hex_pairs n s; Some (b :: bs, s)
  end.
Definition continuations (b : Z) : option nat :=
  if b <? 0x80 then Some 0%nat else if (0xC0 <=? b) && (b <? 0xE0) then Some 1%nat
  else if (0xE0 <=? b) && (b <? 0xF0) then Some 2%nat else if (0xF0 <=? b) && (b <? 0xF8) then Some 3%nat else None.
Fixpoint decode_uri (fuel : nat) (s : jsstr) : option jsstr :=
  match fuel with
  | O => None
  | S fuel =>
      match s with
      | [] => Some []
      | c :: rest =>
          if c =? 37 then
            '(b, rest) ← hex_pair s;
            n ← continuations b;
            '(bs, rest) ← hex_pairs n rest;
            '(cp, tail) ← decode_char (b :: bs);
            match tail with
            | [] => r ← decode_uri fuel rest; Some (utf16 cp ++ r)
            | _ => None
            end
          else r ← decode_uri fuel rest; Some (c :: r)
      end
  end.
Definition decodeURIComponent (s : jsstr) : option jsstr := decode_uri (S (length s)) s.

(** [/%(?:2f|5c)/i.test(s)] *)
Fixpoint encoded_slash (s : jsstr) : bool :=
  match s with
  | [] => false
  | c :: rest =>
      bool_decide (ascii_lower <$> take 3 s = js "%2f") || bool_decide (ascii_lower <$> take 3 s = js "%5c") || encoded_slash rest
  end.
Definition raw_pathname (originalUrl : jsstr) : jsstr := match split 63 originalUrl with p :: _ => p | [] => [] end.
Definition canonicalPath (originalUrl : jsstr) : option jsstr :=
  let rawPathname := raw_pathname originalUrl in
  if encoded_slash rawPathname then None
  else decoded ← decodeURIComponent rawPathname; if bool_decide (decoded = rawPathname) then Some decoded else None.

Definition segments_of (s : jsstr) : list jsstr := filter (λ x, x ≠ []) (split 47 s).
Definition unsafe_path_segment (segment : jsstr) : bool :=
  bool_decide (segment ∈ js <$> ["."; ".."; "home"; ".ssh"; "keys"; "id_rsa"; "id_ed25519"]%string) ||
  ends_with (js ".key") segment || ends_with (js ".pem") segment.
Definition isUnsafePath `{LowerCase} (pathname : jsstr) : bool :=
  bool_decide (92 ∈ pathname) || bool_decide (0 ∈ pathname) || existsb unsafe_path_segment (segments_of (to_lower pathname)).

Definition withBase (basePath path : jsstr) : jsstr := if bool_decide (basePath = js "/") then path else basePath ++ path.
Definition isWithinBase (pathname basePath : jsstr) : bool :=
  bool_decide (basePath = js "/") || bool_decide (pathname = basePath) || Routes.starts_with (basePath ++ [47]) pathname.
Definition isReservedPath (pathname basePath : jsstr) : bool :=
  if negb (isWithinBase pathname basePath) then false
  else
    let relative := if bool_decide (basePath = js "/") then pathname else drop (length basePath) pathname in
    match segments_of relative with
    | namespace :: _ => bool_decide (namespace ∈ js <$> ["api"; "assets"; "static"; "ws"]%string)
    | [] => false
    end.
(** [path.extname] of a segment: from its last dot, unless that is its first
    character or the segment is [..]. *)
Fixpoint last_dot (i : nat) (s : jsstr) (found : option nat) : option nat :=
  match s with [] => found | c :: s => last_dot (S i) s (if c =? 46 then Some i else found) end.
Definition has_extname (segment : jsstr) : bool :=
  match last_dot 0 segment None with
  | Some (S _) => negb (bool_decide (segment = js ".."))
  | _ => false
  end.
Definition hasExtension (pathname : jsstr) : bool :=
  has_extname (match last (split 47 pathname) with Some s => s | None => [] end).

(** * Metrics and headers *)

(** What [read()] does: [None] is a throw, [Some None] a number that is no
    integer. *)
Definition safeMetric (read : option (option Z)) (maximum : Z) : bool * Z :=
  match read with
  | Some (Some value) => if negb (is_safe_integer value) || (value <? 0) || (maximum <? value) then (false, 0) else (true, value)
  | _ => (false, 0)
  end.

Definition websocketEndpoint (url : URL) (basePath : jsstr) : jsstr :=
  (if bool_decide (protocol url = js "https:") then js "wss:" else js "ws:") ++ js "//" ++ url_host url ++
  withBase basePath (js "/ws") ++ js "/".
(** The directives given to [helmet], and whether it adds
    [Strict-Transport-Security]. *)
Definition securityHeaders (url : URL) (basePath : jsstr) : list (jsstr * list jsstr) * bool :=
  let self := js "'self'" in
  ([(js "defaultSrc", [self]); (js "baseUri", [self]); (js "connectSrc", [self; websocketEndpoint url basePath]);
    (js "fontSrc", [self]); (js "formAction", [self]); (js "frameAncestors", [js "'none'"]); (js "imgSrc", [self]);
    (js "objectSrc", [js "'none'"]); (js "scriptSrc", [self]); (js "scriptSrcAttr", [js "'none'"]);
    (js "styleSrc", [self; js "'unsafe-inline'"])],
   bool_decide (protocol url = js "https:")).

(** * The application *)

(** What matches a method and a path. *)
Class Express := {
  (** [app.get(path, ...)] *)
  get_match : jsstr → jsstr → jsstr → bool;
  (** [app.use(prefix, ...)]: the path below the prefix *)
  use_match : jsstr → jsstr → option jsstr;
  (** the registrations of the routers, on the path below the prefix, with
      [params.id] *)
  auth_match : jsstr → jsstr → option auth_route;
  settings_match : jsstr → jsstr → option settings_route;
  tab_match : jsstr → jsstr → option (tab_route * jsstr);
  admin_match : jsstr → jsstr → option (admin_route * jsstr);
  (** the file of [express.static], if it has one *)
  static_match : jsstr → jsstr → option jsstr;
}.

(** What is sent. *)
Inductive served :=
| Status (code : Z)
| Answer (r : Response)
| Health (ok : bool) (activeSessions connectedWebSockets : Z)
| Readiness (ready : bool)
| Static_file (path : jsstr)
| Redirect (code : Z) (location : jsstr)
| Client_page.

(** What the dependencies answer during the request. *)
Record probes := {
  activeSessionCount : option (option Z);
  connectedWebSocketCount : option (option Z);
  (** [None]: [isReady] throws or rejects *)
  isReady : option bool;
}.
Definition health (c : AppConfig) (p : probes) : served :=
  let activeSessions := safeMetric (activeSessionCount p) (sessionMaxCount c) in
  let connectedWebSockets := safeMetric (connectedWebSocketCount p) 1024 in
  Health (activeSessions.1 && connectedWebSockets.1) activeSessions.2 connectedWebSockets.2.
Definition readiness (p : probes) : served := Readiness (match isReady p with Some b => b | None => false end).

(** Whether a path below the prefix belongs to a namespace. *)
Definition in_namespace (namespace path : jsstr) : bool :=
  bool_decide (path = namespace) || Routes.starts_with (namespace ++ [47]) path.

(** What [createApp] is given for the routers. *)
Record HttpOptions := {
  http_mode : AuthMode;
  http_cloudflare : option CloudflareAccessProvider;
  http_trusted : option TrustedHeaderAuthProvider;
  http_constraints : SettingsConstraints;
}.

Section app.
Context `{Platform, LowerCase, UrlParser, ProxyLibraries, Express} {W T : Type} (h : @handler auth W ev error resp)
  (hash : jsstr → jsstr) (localeCompare : jsstr → jsstr → Z) (o : AuthServiceOptions)
  (turn : wait → sys auth W ev → sys auth W ev) (services : @handler unit T service_call thrown service_resp)
  (config : AppConfig) (http : HttpOptions) (public : URL) (clientConfig : ClientConfig).
Abbreviation RM := (M (sys auth W ev * sys unit T service_call) thrown).

Definition sharedAuth : AuthMiddlewareOptions :=
  {| m_mode := http_mode http; m_publicOrigin := app_publicOrigin config;
     cloudflareAccessProvider := http_cloudflare http; trustedHeaderProvider := http_trusted http |}.
Definition authOptions : AuthRouterOptions :=
  {| auth_options := sharedAuth; AuthRoutes.basePath := app_basePath config;
     secureCookie := bool_decide (protocol public = js "https:") |}.
Definition apiPrefix : jsstr := withBase (app_basePath config) (js "/api").
(** A request as a router below the prefix sees it. *)
Definition mounted (r : HttpRequest) (id : jsstr) : HttpRequest :=
  {| http_request := http_request r; assertions := assertions r; originalUrl := originalUrl r; baseUrl := apiPrefix;
     params_id := id; req_body := req_body r; ip := ip r |}.
Definition method_of (r : HttpRequest) : jsstr := method (http_request r).

(** [GET /api/config] *)
Definition config_route (r : HttpRequest) : RM Response :=
  route (λ _, (500, js "operation_failed"))
    (run_chain
       [λ l, on_auth (requireAuthentication h hash turn sharedAuth (http_request r) (assertions r) l);
        λ l, on_auth (touchHttpActivity h hash o (http_request r) l)]
       (λ _ : Locals unit, ret (json_response 200 (client_json clientConfig))) (Build_Locals None None tt)).

(** The registrations of the API in their order; [path] is the path below the
    prefix, if it is below it, and [None] is [next()]. *)
Definition dispatchNamespace (namespace : string) (path : option jsstr) : option jsstr :=
  path ← path; if in_namespace (js namespace) path then Some path else None.
Definition api (r : HttpRequest) (pathname : jsstr) : option (RM Response) :=
  let m := method_of r in
  let path := use_match apiPrefix pathname in
  match dispatchNamespace "/auth" path with
  | Some path => Some (auth_router h hash localeCompare o turn services authOptions (auth_match m path) (mounted r []))
  | None =>
  if get_match (withBase (app_basePath config) (js "/api/config")) m pathname then Some (config_route r) else
  match dispatchNamespace "/settings" path with
  | Some path =>
      Some (settings_router h hash o turn services sharedAuth (http_constraints http) (settings_match m path) (mounted r []))
  | None =>
  match dispatchNamespace "/tabs" path with
  | Some path =>
      let t := tab_match m path in
      Some (tab_router h hash o turn services sharedAuth (fst <$> t) (mounted r (from_option snd [] t)))
  | None =>
  match dispatchNamespace "/admin" path with
  | Some path =>
      let t := admin_match m path in
      Some (admin_router h hash o turn services sharedAuth (fst <$> t) (mounted r (from_option snd [] t)))
  | None => None
  end end end end.

(** After the routers: static files, reserved paths and the client's page. *)
Definition fallback (r : HttpRequest) (pathname : jsstr) : served :=
  match static_match (method_of r) pathname with
  | Some file => Static_file file
  | None =>
      if isReservedPath pathname (app_basePath config) then Answer (sendError 404 (js "not_found"))
      else if negb (get_match (js "*path") (method_of r) pathname) then Status 404
      else
        let workspaceRoot := if bool_decide (app_basePath config = js "/") then js "/" else app_basePath config ++ js "/" in
        if negb (isWithinBase pathname (app_basePath config)) || bool_decide (pathname = apiPrefix) ||
           Routes.starts_with (apiPrefix ++ js "/") pathname || hasExtension pathname
        then Status 404
        else if negb (bool_decide (pathname = workspaceRoot)) then Redirect 308 workspaceRoot
        else Client_page
  end.

Definition app (p : probes) (r : HttpRequest) : RM served :=
  match canonicalPath (originalUrl r) with
  | None => ret (Status 404)
  | Some pathname =>
      if isUnsafePath pathname then ret (Status 404)
      else if get_match (js "/health") (method_of r) pathname then ret (health config p)
      else if get_match (js "/ready") (method_of r) pathname then
        do! on_auth (await_turn turn Await_service) in ret (readiness p)
      else
        match api r pathname with
        | Some m => let! answer := m in ret (Answer answer)
        | None => ret (fallback r pathname)
        end
  end.
End app.

(** [createApp]: throws when the configuration has no client part or no
    public URL. *)
Definition createApp `{Platform, LowerCase, UrlParser, ProxyLibraries, Express} {W T : Type}
    (h : @handler auth W ev error resp) (hash : jsstr → jsstr) (localeCompare : jsstr → jsstr → Z) (o : AuthServiceOptions)
    (turn : wait → sys auth W ev → sys auth W ev) (services : @handler unit T service_call thrown service_resp)
    (config : AppConfig) (http : HttpOptions)
    : option (probes → HttpRequest → M (sys auth W ev * sys unit T service_call) thrown served) :=
  clientConfig ← toClientConfig config;
  public ← parse_url (publicUrl config) None;
  Some (app h hash localeCompare o turn services config http public clientConfig).
