(* ===== verification/AppFacts.v ===== *)
(** The application: which paths are served at all, and what may come of a
    request. *)
From S2P Require Import Prelude JsMap SafeString Json JsonText Double Tabs Settings SettingsFacts Headers Origin Upstream UpstreamFacts WsAuthIndex AuthService AuthFacts AuthSafety AuthMiddleware MiddlewareFacts Routes.
From S2P Require Import TabRoutes AuthRoutes SettingsRoutes AdminRoutes Config ConfigFacts App.
Open Scope Z_scope.

(** * Paths *)

Lemma utf16_length c : (length (utf16 c) <= 2)%nat.
Proof. unfold utf16. by case_match; cbn; lia. Qed.
Lemma hex_pair_length s b r : hex_pair s = Some (b, r) → length s = (3 + length r)%nat.
Proof.
  unfold hex_pair. destruct s as [|c [|x [|y s]]]; try (by repeat case_match).
  case_match; try done; repeat case_match; try done. all: intros (u & _ & (v & _ & [= _ <-])%bind_Some)%bind_Some; cbn; lia.
Qed.
Lemma hex_pairs_length n : ∀ s bs r, hex_pairs n s = Some (bs, r) → (length r <= length s)%nat.
Proof.
  induction n as [|n IH]; intros s bs r Hs; cbn in Hs; [by injection Hs as _ <-|].
  apply bind_Some in Hs as ([b s1] & H1%hex_pair_length & ([bs' s2] & H2%IH & [= _ <-])%bind_Some). lia.
Qed.
Lemma decode_uri_length fuel : ∀ s r, decode_uri fuel s = Some r → (length r <= length s)%nat ∧ (37%Z ∈ s → length r < length s)%nat.
Proof.
  induction fuel as [|fuel IH]; intros s r Hs; cbn [decode_uri] in Hs; [done|].
  destruct s as [|c rest]; [injection Hs as <-; split; [done|]; intros Hin; by apply elem_of_nil in Hin|].
  destruct (Z.eqb_spec c 37) as [->|Hc].
  - apply bind_Some in Hs as ([b s1] & H1%hex_pair_length & (n & _ & ([bs s2] & H2%hex_pairs_length & ([cp tail] & _ & Ht)%bind_Some)%bind_Some)%bind_Some).
    destruct tail; [|done]. apply bind_Some in Ht as (r' & [Hr _]%IH & [= <-]). rewrite length_app. pose proof (utf16_length cp). lia.
  - apply bind_Some in Hs as (r' & [Hr Hp]%IH & [= <-]). cbn [length]. split; [lia|]. intros [?|Hin]%elem_of_cons; [done|]. specialize (Hp Hin). lia.
Qed.
Lemma decode_plain fuel : ∀ s, (length s < fuel)%nat → 37 ∉ s → decode_uri fuel s = Some s.
Proof.
  induction fuel as [|fuel IH]; intros s Hl Hs; [lia|]. cbn [decode_uri]. destruct s as [|c rest]; [done|].
  apply not_elem_of_cons in Hs as [Hc Hs]. rewrite (proj2 (Z.eqb_neq c 37)) by congruence. cbn in Hl. by rewrite IH by (lia || done).
Qed.
Lemma encoded_slash_plain s : 37 ∉ s → encoded_slash s = false.
Proof.
  induction s as [|c s IH]; [done|]. intros [Hc Hs]%not_elem_of_cons. cbn [encoded_slash]. rewrite IH by done. rewrite !orb_false_iff.
  assert (ascii_lower c ≠ 37) as Hl.
  { unfold ascii_lower. destruct (Z.leb_spec 65 c), (Z.leb_spec c 90); cbn; lia. }
  split_and!; [..|done]; apply bool_decide_eq_false; cbn; intros [= E _]; by apply Hl.
Qed.
(** A canonical path is one without escapes. *)
Lemma canonicalPath_spec url p : canonicalPath url = Some p ↔ p = raw_pathname url ∧ 37 ∉ p.
Proof.
  unfold canonicalPath. cbn zeta. split.
  - destruct (encoded_slash _); [done|]. intros (d & Hd & Hp)%bind_Some. case_bool_decide as E; [|done]. injection Hp as <-.
    split; [done|]. intros Hin. destruct (decode_uri_length _ _ _ Hd) as [_ Hlt]. rewrite E in Hlt, Hin. specialize (Hlt Hin). lia.
  - intros [-> Hp]. rewrite encoded_slash_plain by done. unfold decodeURIComponent. rewrite decode_plain by (lia || done).
    cbn [mbind option_bind]. by rewrite bool_decide_true.
Qed.

(** A path that is served has no backslash, no NUL and none of the unsafe
    segments, in any case of letters. *)
Record safe_path_ok `{LowerCase} (p : jsstr) : Prop := {
  sp_backslash : 92 ∉ p;
  sp_nul : 0 ∉ p;
  sp_segments : ∀ x, x ∈ split 47 (to_lower p) → x ∉ js <$> ["."; ".."; "home"; ".ssh"; "keys"; "id_rsa"; "id_ed25519"]%string ∧
    ends_with (js ".key") x = false ∧ ends_with (js ".pem") x = false;
}.
Lemma isUnsafePath_false `{LowerCase} p : isUnsafePath p = false ↔ safe_path_ok p.
Proof.
  unfold isUnsafePath. rewrite !orb_false_iff, !bool_decide_eq_false. split.
  - intros [[Hb Hn] Hs]. split; [done..|]. intros x Hx. destruct (decide (x = [])) as [->|Hne]; [split_and!; [apply (bool_decide_eq_false_1 _); vm_compute; reflexivity|vm_compute; reflexivity..]|].
    assert (unsafe_path_segment x = false) as Hu.
    { apply not_true_iff_false. intros Hu. apply not_true_iff_false in Hs. apply Hs, existsb_exists. exists x.
      split; [|done]. by apply list_elem_of_In, list_elem_of_filter. }
    unfold unsafe_path_segment in Hu. rewrite !orb_false_iff, bool_decide_eq_false in Hu. tauto.
  - intros [Hb Hn Hs]. split; [done|]. apply not_true_iff_false. intros (x & Hx%list_elem_of_In & Hu)%existsb_exists.
    apply list_elem_of_filter in Hx as [_ Hx]. destruct (Hs x Hx) as (E1 & E2 & E3). unfold unsafe_path_segment in Hu.
    by rewrite bool_decide_false, E2, E3 in Hu.
Qed.

Lemma safeMetric_bounds read maximum : 0 <= maximum →
  0 <= (safeMetric read maximum).2 <= maximum ∧
  ((safeMetric read maximum).1 = true ↔ ∃ v, read = Some (Some v) ∧ 0 <= v <= maximum ∧ is_safe_integer v = true ∧ (safeMetric read maximum).2 = v).
Proof.
  intros Hm. unfold safeMetric. destruct read as [[v|]|]; cbn [fst snd]; [|split; [lia|split; [done|naive_solver]]..].
  destruct (is_safe_integer v) eqn:Hs; cbn [negb orb]; [|split; [cbn; lia|split; [done|]; cbn; intros (w & [= <-] & _ & E & _); congruence]].
  destruct (Z.ltb_spec v 0); cbn [orb fst snd]; [split; [lia|split; [done|]; intros (w & [= <-] & ? & _); lia]|].
  destruct (Z.ltb_spec maximum v); cbn [fst snd]; [split; [lia|split; [done|]; intros (w & [= <-] & ? & _); lia]|].
  split; [lia|]. split; [|done]. intros _. by exists v.
Qed.

(** * Handlers that make one kind of calls only *)

Section frames.
Context {W T : Type} (turn : wait → sys auth W ev → sys auth W ev)
  (services : @handler unit T service_call thrown service_resp).
Abbreviation RM := (M (sys auth W ev * sys unit T service_call) thrown).

(** The services were called by [m] for the workspace only. *)
Definition workspace_calls (t t' : sys unit T service_call) : Prop :=
  ∃ ls, log t' = log t ++ ls ∧ Forall (λ p : service_call * bool, p.1 = Ensure_workspace) ls.
Definition frames {A} (m : RM A) : Prop := ∀ p, workspace_calls p.2 (m p).2.2.
Lemma workspace_refl t : workspace_calls t t.
Proof. exists []. by rewrite app_nil_r. Qed.
Lemma workspace_trans t1 t2 t3 : workspace_calls t1 t2 → workspace_calls t2 t3 → workspace_calls t1 t3.
Proof. intros (l1 & E1 & F1) (l2 & E2 & F2). exists (l1 ++ l2). rewrite E2, E1, <-app_assoc. split; [done|]. by apply Forall_app. Qed.
Lemma frames_ret {A} (a : A) : frames (ret a).
Proof. intros p. apply workspace_refl. Qed.
Lemma frames_throw {A} e : frames (throw e : RM A).
Proof. intros p. apply workspace_refl. Qed.
Lemma frames_bind {A B} (m : RM A) (k : A → RM B) : frames m → (∀ a, frames (k a)) → frames (bind m k).
Proof.
  intros Hm Hk p. specialize (Hm p). unfold bind. destruct (m p) as [[a|e] p']; [|done]. cbn [snd] in *.
  eapply workspace_trans; [exact Hm|apply Hk].
Qed.
Lemma frames_catch {A} (m : RM A) k : frames m → (∀ e, frames (k e)) → frames (catch m k).
Proof.
  intros Hm Hk p. specialize (Hm p). unfold catch. destruct (m p) as [[a|e] p']; [done|]. cbn [snd] in *.
  eapply workspace_trans; [exact Hm|apply Hk].
Qed.
Lemma frames_attempt {A} (m : RM A) : frames m → frames (attempt m).
Proof. intros Hm p. specialize (Hm p). unfold attempt. by destruct (m p). Qed.
Lemma frames_on_auth {A} (m : M (sys auth W ev) error A) : frames (on_auth m : RM A).
Proof. intros p. unfold on_auth. destruct (m p.1). apply workspace_refl. Qed.
Lemma frames_of_option {A} (x : option A) e : frames (of_option x e : RM A).
Proof. destruct x; [apply frames_ret|apply frames_throw]. Qed.
Lemma frames_throw_if b e : frames (throw_if b e : RM unit).
Proof. destruct b; [apply frames_throw|apply frames_ret]. Qed.
Lemma frames_workspace : frames (perform turn services Ensure_workspace).
Proof.
  intros p. unfold perform, call. destruct (services Ensure_workspace _ _) as [r [u w]]. cbn [snd log].
  eexists. split; [reflexivity|]. by repeat constructor.
Qed.
Lemma frames_validated {B X} (x : option X) (keep : X → B → B) l : frames (validated x keep l : RM (step B)).
Proof. unfold validated. destruct x; [apply frames_ret|apply frames_throw]. Qed.
Lemma frames_parse {B} ce r (l : Locals B) : frames (parseRequestBody turn ce r l : RM (step B)).
Proof.
  unfold parseRequestBody. apply frames_bind; [apply frames_on_auth|]. intros _. destruct (req_body r); [apply frames_ret|].
  apply frames_throw.
Qed.
Lemma frames_chain {B} (fs : list (Locals B → RM (step B))) final :
  Forall (λ f, ∀ l, frames (f l)) fs → (∀ l, frames (final l)) → ∀ l, frames (run_chain fs final l).
Proof.
  intros Hfs Hf. induction Hfs as [|f fs Hx _ IH]; intros l; cbn [run_chain]; [apply Hf|].
  apply frames_bind; [apply Hx|]. intros [l'|c e]; [apply IH|apply frames_ret].
Qed.
End frames.
Ltac frames_step :=
  lazymatch goal with
  | |- frames (ret _) => apply frames_ret
  | |- frames (throw _) => apply frames_throw
  | |- frames (bind _ _) => apply frames_bind; [|intros ?]
  | |- frames (catch _ _) => apply frames_catch; [|intros ?]
  | |- frames (attempt _) => apply frames_attempt
  | |- frames (on_auth _) => apply frames_on_auth
  | |- frames (of_option _ _) => apply frames_of_option
  | |- frames (throw_if _ _) => apply frames_throw_if
  | |- frames (perform _ _ Ensure_workspace) => apply frames_workspace
  | |- frames (if ?b then _ else _) => destruct b
  | |- frames (match ?x with _ => _ end) => destruct x
  | |- frames (let _ := _ in _) => cbv zeta
  end.

Section auth_frames.
Context `{Platform, LowerCase, UrlParser, ProxyLibraries} {W T : Type} (h : @handler auth W ev error resp)
  (hash : jsstr → jsstr) (localeCompare : jsstr → jsstr → Z) (o : AuthServiceOptions)
  (turn : wait → sys auth W ev → sys auth W ev)
  (services : @handler unit T service_call thrown service_resp) (router_options : AuthRouterOptions).
Lemma frames_publish res : frames (publishBootstrap h hash o turn services router_options res).
Proof. unfold publishBootstrap. repeat frames_step. Qed.
Lemma frames_auth_router tr r :
  frames (auth_router h hash localeCompare o turn services router_options tr r).
Proof.
  unfold auth_router, route. destruct tr as [tr|]; [|apply frames_ret]. apply frames_catch; [|intros e; apply frames_ret].
  apply frames_chain.
  - destruct tr; cbn [AuthRoutes.handlers]; repeat constructor; intros l;
      first [apply frames_on_auth|apply frames_parse|apply frames_validated|unfold requireLocalSession; repeat frames_step].
  - intros l. destruct tr; cbn [AuthRoutes.final];
      unfold get_session_route, login_route, setup_route, refresh_route, logout_route, password_route, cleared;
      repeat first [apply frames_publish|frames_step].
Qed.
End auth_frames.

(** * The application *)

Section app.
Context `{Platform, LowerCase, !UrlParser, !ProxyLibraries, Express} {W T : Type} (h : @handler auth W ev error resp)
  (hash : jsstr → jsstr) (localeCompare : jsstr → jsstr → Z) `{!Comparator localeCompare}
  (o : AuthServiceOptions) `{!AuthEnv o h} (max_pos : 1 <= maxSessions o)
  (turn : wait → sys auth W ev → sys auth W ev) (turn_ok : ∀ w s, asyn o s (turn w s))
  (services : @handler unit T service_call thrown service_resp)
  (config : AppConfig) (http : HttpOptions) (public : URL) (clientConfig : ClientConfig).
Implicit Types (s : sys auth W ev) (t : sys unit T service_call).
Abbreviation state := (sys auth W ev * sys unit T service_call)%type.
Abbreviation shared := (sharedAuth config http).
Abbreviation at_prefix := (mounted config).

(** The path of the request below the prefix of the API is in the
    namespace. *)
Definition below (namespace : string) (pathname path : jsstr) : Prop :=
  use_match (apiPrefix config) pathname = Some path ∧ in_namespace (js namespace) path = true.
(** A response of a router. *)
Inductive api_answer (r : HttpRequest) (pathname : jsstr) s t : Response → state → Prop :=
| from_auth path resp p' : below "/auth" pathname path → workspace_calls t p'.2 →
    (set_cookies resp = [] ∨ ∃ tr, auth_match (method_of r) path = Some tr ∧
       cookie_reason h hash localeCompare o (authOptions config http public) tr (at_prefix r []) s resp p') →
    api_answer r pathname s t resp p'
| from_config resp p' : p'.2 = t → set_cookies resp = [] →
    (400 <= status resp ∨ resp = json_response 200 (client_json clientConfig) ∧ ∃ (l : Locals unit) s1,
       guarded h hash o shared (http_request r) (assertions r) false s s1 l ∧ asyn o s1 p'.1) →
    api_answer r pathname s t resp p'
| from_settings path tr resp p' : below "/settings" pathname path → settings_match (method_of r) path = Some tr →
    settings_post h hash o services shared (http_constraints http) tr (at_prefix r []) s t resp p' →
    api_answer r pathname s t resp p'
| from_tabs path tr i resp p' : below "/tabs" pathname path → tab_match (method_of r) path = Some (tr, i) →
    routed h hash o shared tr (at_prefix r i) s t resp p' → api_answer r pathname s t resp p'
| from_admin path tr i resp p' : below "/admin" pathname path → admin_match (method_of r) path = Some (tr, i) →
    administered h hash o services shared tr (at_prefix r i) s t resp p' → api_answer r pathname s t resp p'
| not_matched resp : 400 <= status resp → set_cookies resp = [] → api_answer r pathname s t resp (s, t).
Definition api_result (r : HttpRequest) (pathname : jsstr) s t (x : res thrown Response) (p' : state) : Prop :=
  ∃ resp, x = Ok resp ∧ asyn o s p'.1 ∧ api_answer r pathname s t resp p'.

Lemma in_namespace_dispatch ns path p : dispatchNamespace ns path = Some p → path = Some p ∧ in_namespace (js ns) p = true.
Proof. unfold dispatchNamespace. intros (q & -> & Hq)%bind_Some. case_match eqn:E; [|done]. by injection Hq as <-. Qed.
Lemma wp_refused r pathname s t code e : 400 <= code →
  wp (ret (sendError code e) : M state thrown Response) (api_result r pathname s t) (s, t).
Proof. intros Hc. apply wp_ret. exists (sendError code e). split; [done|]. split; [apply rtc_refl|]. by apply not_matched. Qed.

Lemma wp_config_route r pathname s t : auth_ok o (comp s) →
  wp (config_route h hash o turn config http clientConfig r) (api_result r pathname s t) (s, t).
Proof.
  intros Hok. unfold config_route, route. apply wp_catch.
  eapply wp_mono; [apply (wp_guards h hash o turn turn_ok shared (http_request r) (assertions r) false [] []); [apply List.Forall2_nil|done]|].
  intros x [s1 t1] [(A & Ht & Hx)|(l & s2 & Hg & _ & A & Hf)]; cbn [fst snd] in *.
  - subst t1. destruct x as [resp|e].
    + destruct (Hx _ eq_refl). exists resp. split_and!; [done..|]. apply from_config; [done..|by left].
    + apply wp_ret. eexists. split; [done|]. split; [done|]. by apply from_config; [..|left].
  - injection Hf as <- <- <-. eexists. split; [done|]. split; [done|]. apply from_config; [done..|]. right. split; [done|].
    exists l, s2. split; [done|apply rtc_refl].
Qed.
Lemma wp_auth_api r pathname path s t : auth_ok o (comp s) → below "/auth" pathname path →
  wp (auth_router h hash localeCompare o turn services (authOptions config http public) (auth_match (method_of r) path)
        (at_prefix r [])) (api_result r pathname s t) (s, t).
Proof.
  intros Hok Hb. destruct (auth_match (method_of r) path) as [tr|] eqn:Hm; [|by apply wp_refused].
  pose proof (frames_auth_router h hash localeCompare o turn services (authOptions config http public) (Some tr) (at_prefix r []) (s, t)) as Hfr.
  pose proof (wp_auth_router h hash localeCompare o max_pos turn turn_ok services (authOptions config http public) tr (at_prefix r []) s t Hok) as Hw.
  unfold wp in *. destruct (auth_router _ _ _ _ _ _ _ _ _) as [x p']. cbn [fst snd] in *. destruct Hw as (resp & -> & A & Hc).
  exists resp. split_and!; [done..|]. apply (from_auth _ _ _ _ path); [done..|]. destruct Hc; [by left|right; by exists tr].
Qed.
Lemma wp_settings_api r pathname path s t : auth_ok o (comp s) → below "/settings" pathname path →
  wp (settings_router h hash o turn services shared (http_constraints http) (settings_match (method_of r) path) (at_prefix r []))
    (api_result r pathname s t) (s, t).
Proof.
  intros Hok Hb. destruct (settings_match (method_of r) path) as [tr|] eqn:Hm; [|by apply wp_refused].
  assert (wp (settings_router h hash o turn services shared (http_constraints http) (Some tr) (at_prefix r []))
    (replied h hash o services shared (http_constraints http) tr (at_prefix r []) s t) (s, t)) as Hw
    by (destruct tr; [by apply wp_get_settings|by apply wp_put_settings]).
  eapply wp_mono; [exact Hw|]. intros x p' (resp & -> & A & Hp). exists resp. split_and!; [done..|]. by eapply from_settings.
Qed.
Lemma wp_tabs_api r pathname path s t : auth_ok o (comp s) → below "/tabs" pathname path →
  wp (tab_router h hash o turn services shared (fst <$> tab_match (method_of r) path)
        (at_prefix r (from_option snd [] (tab_match (method_of r) path)))) (api_result r pathname s t) (s, t).
Proof.
  intros Hok Hb. destruct (tab_match (method_of r) path) as [[tr i]|] eqn:Hm; cbn [fmap option_fmap option_map from_option fst snd].
  - eapply wp_mono; [by apply (wp_tab_router h hash o turn turn_ok services shared tr)|].
    intros x p' (resp & -> & A & _ & Hr). exists resp. split_and!; [done..|]. by eapply from_tabs.
  - unfold tab_router. repeat (apply wp_if; intros _); by apply wp_refused.
Qed.
Lemma wp_admin_api r pathname path s t : auth_ok o (comp s) → below "/admin" pathname path →
  wp (admin_router h hash o turn services shared (fst <$> admin_match (method_of r) path)
        (at_prefix r (from_option snd [] (admin_match (method_of r) path)))) (api_result r pathname s t) (s, t).
Proof.
  intros Hok Hb. destruct (admin_match (method_of r) path) as [[tr i]|] eqn:Hm; cbn [fmap option_fmap option_map from_option fst snd].
  - eapply wp_mono; [by apply (wp_admin_router h hash o turn turn_ok services shared tr)|].
    intros x p' (resp & -> & A & Hr). exists resp. split_and!; [done..|]. by eapply from_admin.
  - unfold admin_router. repeat (apply wp_if; intros _); by apply wp_refused.
Qed.
Lemma wp_api r pathname m s t : auth_ok o (comp s) →
  api h hash localeCompare o turn services config http public clientConfig r pathname = Some m →
  wp m (api_result r pathname s t) (s, t).
Proof.
  intros Hok. unfold api. cbv zeta.
  destruct (dispatchNamespace "/auth" _) as [p1|] eqn:E1; [apply in_namespace_dispatch in E1; intros [= <-]; by apply wp_auth_api|].
  destruct (get_match _ _ _); [intros [= <-]; by apply wp_config_route|].
  destruct (dispatchNamespace "/settings" _) as [p2|] eqn:E2; [apply in_namespace_dispatch in E2; intros [= <-]; by apply wp_settings_api|].
  destruct (dispatchNamespace "/tabs" _) as [p3|] eqn:E3; [apply in_namespace_dispatch in E3; intros [= <-]; by apply wp_tabs_api|].
  destruct (dispatchNamespace "/admin" _) as [p4|] eqn:E4; [apply in_namespace_dispatch in E4; intros [= <-]; by apply wp_admin_api|].
  done.
Qed.

(** What is sent without a router: no private data. *)
Definition public_answer (p : probes) (r : HttpRequest) (pathname : jsstr) (x : served) : Prop :=
  match x with
  | Health ok a c => 0 <= a <= sessionMaxCount config ∧ 0 <= c <= 1024 ∧
      (ok = true ↔ activeSessionCount p = Some (Some a) ∧ connectedWebSocketCount p = Some (Some c))
  | Readiness b => b = true ↔ isReady p = Some true
  | Static_file f => static_match (method_of r) pathname = Some f
  | Client_page => isWithinBase pathname (app_basePath config) = true ∧ hasExtension pathname = false ∧
      isReservedPath pathname (app_basePath config) = false ∧
      pathname = withBase (app_basePath config) (js "/")
  | Redirect code l => code = 308 ∧ l = withBase (app_basePath config) (js "/") ∧ pathname ≠ l ∧
      isWithinBase pathname (app_basePath config) = true ∧ isReservedPath pathname (app_basePath config) = false
  | Answer resp => resp = sendError 404 (js "not_found")
  | Status code => code = 404
  end.
Lemma fallback_public p r pathname : public_answer p r pathname (fallback config r pathname).
Proof.
  unfold fallback. destruct (static_match _ _) eqn:Hs; [done|]. destruct (isReservedPath _ _) eqn:Hr; [done|].
  destruct (get_match _ _ _); [|done]. cbn [negb]. cbv zeta.
  assert ((if bool_decide (app_basePath config = js "/") then js "/" else app_basePath config ++ js "/") =
    withBase (app_basePath config) (js "/")) as ->; [done|].
  destruct (_ || _) eqn:E; [done|]. rewrite !orb_false_iff, negb_false_iff in E. destruct E as [[[? _] _] ?].
  unfold public_answer. case_bool_decide as Hp; cbn [negb]; by split_and!.
Qed.
Lemma metric_valid read maximum : 0 <= maximum <= MAX_SAFE_INTEGER →
  (safeMetric read maximum).1 = true ↔ read = Some (Some (safeMetric read maximum).2).
Proof.
  intros Hm. destruct (safeMetric_bounds read maximum) as [B V]; [lia|]. rewrite V. split.
  - by intros (v & -> & _ & _ & ->).
  - intros Hr. eexists. split; [exact Hr|]. split; [done|]. split; [|done].
    unfold is_safe_integer. rewrite andb_true_iff, !Z.leb_le. unfold MAX_SAFE_INTEGER in *. lia.
Qed.
Lemma health_public p r pathname : 0 <= sessionMaxCount config <= MAX_SAFE_INTEGER → public_answer p r pathname (health config p).
Proof.
  intros Hmax. unfold health, public_answer. cbv zeta.
  destruct (safeMetric_bounds (activeSessionCount p) (sessionMaxCount config)) as [B1 _]; [lia|].
  destruct (safeMetric_bounds (connectedWebSocketCount p) 1024 ltac:(lia)) as [B2 _].
  split; [done|]. split; [done|]. rewrite andb_true_iff, !metric_valid by (unfold MAX_SAFE_INTEGER in *; lia). done.
Qed.
Lemma readiness_public p r pathname : public_answer p r pathname (readiness p).
Proof. unfold readiness, public_answer. destruct (isReady p) as [[]|]; naive_solver. Qed.

(** What becomes of a request. *)
Definition app_post (p : probes) (r : HttpRequest) s t (x : served) (p' : state) : Prop :=
  (x = Status 404 ∧ p' = (s, t)) ∨
  ∃ pathname, pathname = raw_pathname (originalUrl r) ∧ 37 ∉ pathname ∧ safe_path_ok pathname ∧
    (public_answer p r pathname x ∧ p'.2 = t ∨ ∃ resp, x = Answer resp ∧ api_answer r pathname s t resp p').
Lemma wp_app p r s t : auth_ok o (comp s) → 0 <= sessionMaxCount config <= MAX_SAFE_INTEGER →
  wp (app h hash localeCompare o turn services config http public clientConfig p r)
    (λ x p', ∃ a, x = Ok a ∧ asyn o s p'.1 ∧ app_post p r s t a p') (s, t).
Proof.
  intros Hok Hmax. unfold app. assert (asyn o s s) as Hrefl by apply rtc_refl.
  destruct (canonicalPath (originalUrl r)) as [pathname|] eqn:Hp; [|apply wp_ret; eexists; split_and!; [done..|by left]].
  apply canonicalPath_spec in Hp as [Hp Hpct]. destruct (isUnsafePath pathname) eqn:Hu;
    [apply wp_ret; eexists; split_and!; [done..|by left]|]. apply isUnsafePath_false in Hu.
  assert (∀ a p', asyn o s p'.1 → (public_answer p r pathname a ∧ p'.2 = t ∨ ∃ resp, a = Answer resp ∧ api_answer r pathname s t resp p') →
    ∃ a', Ok a = (Ok a' : res thrown served) ∧ asyn o s p'.1 ∧ app_post p r s t a' p') as Hdone.
  { intros a p' A Ha. exists a. split_and!; [done..|]. right. by exists pathname. }
  apply wp_if; intros _; [apply wp_ret, Hdone; [done|]; left; split; [by apply health_public|done]|].
  apply wp_if; intros _.
  { apply wp_bind, wp_on_auth, wp_await, wp_ret, Hdone; [apply turn_ok|]. left. split; [apply readiness_public|done]. }
  destruct (api _ _ _ _ _ _ _ _ _ _ r pathname) as [m|] eqn:Hm.
  - apply wp_bind. eapply wp_mono; [by eapply wp_api|]. intros x p' (resp & -> & A & Ha). apply wp_ret, Hdone; [done|].
    right. by exists resp.
  - apply wp_ret, Hdone; [done|]. left. split; [apply fallback_public|done].
Qed.
End app.


(** * Stopping a session, and a path that climbs *)

Definition sample_express : Express := {|
  get_match := λ pattern m path, bool_decide (m = js "GET") && (bool_decide (pattern = js "*path") || bool_decide (pattern = path));
  use_match := λ prefix path, if Routes.starts_with prefix path then Some (drop (length prefix) path) else None;
  auth_match := λ _ _, None;
  settings_match := λ _ _, None;
  tab_match := λ m path, if bool_decide (m = js "POST") && ends_with (js "/terminate") path
                         then Some (TabRoutes.Post_terminate, sample_id) else None;
  admin_match := λ _ _, None;
  static_match := λ _ _, None |}.
Definition sample_app_config : AppConfig := {|
  app_port := 3000; bindHost := js "0.0.0.0"; app_basePath := js "/"; publicUrl := js "https://t.example";
  app_publicOrigin := js "https://t.example"; publicHost := js "t.example"; app_defaultShell := js "/bin/bash";
  defaultFontSize := 14; xtermScrollback := 10000; app_tmuxHistoryLimit := 20000; wsHeartbeatSeconds := 30;
  wsMaxBufferBytes := 1048576; resizeDebounceMs := 100; reconnectMaxSeconds := 15; logLevel := info;
  homeDir := js "/home/webterm"; dataDir := js "/app/data"; sessionMaxCount := 10; appConfigFile := None;
  authMode := mode_local; localAuthUsername := js "webterm"; bcryptCost := 12; authIdleMinutes := 60;
  authAbsoluteHours := 24; authSessionMaxCount := 32; cloudflareTeamDomain := None; cloudflareAccessAud := None;
  app_trustProxy := TrustOff; trustedAuthHeader := js "X-Auth-User"; app_allowedShells := [js "/bin/bash"];
  maxFontSize := 32; maxXtermScrollback := 100000; maxTmuxHistoryLimit := 1000000; maxStaleSessionCleanupHours := 8760;
  sessionCleanupIntervalMinutes := 15 |}.
Definition sample_http : HttpOptions :=
  {| http_mode := mode_local; http_cloudflare := None; http_trusted := None; http_constraints := split_constraints |}.
Definition at_path (path : string) (r : HttpRequest) : HttpRequest :=
  {| http_request := http_request r; assertions := assertions r; originalUrl := js path; baseUrl := []; params_id := [];
     req_body := req_body r; ip := None |}.
Definition no_probes : probes := {| activeSessionCount := None; connectedWebSocketCount := None; isReady := None |}.
Lemma provider_url_laws : @UrlLaws sample_provider_urls.
Proof.
  intros s base url Hu _. cbn in Hu. repeat (case_bool_decide; [injection Hu as <-; by eexists|]). done.
Qed.
#[local] Existing Instance sample_env.
#[local] Existing Instance no_order_comparator.
