(* ===== verification/Teardown.v ===== *)
(** The bounded teardown of the server's resources
    ([performBoundedTeardown] of [apps/server/src/index.ts]): four phases run
    one after the other against a deadline, and every resource is torn down
    once, in order, whatever fails and however long it takes.

    A call on a resource is an [operation]; whether it throws where it is made
    is a parameter, and the promise of an asynchronous one settles by an event,
    or never.  The teardown is a state machine whose events are the settlement
    of a promise, the timer of the deadline and the continuation of an
    [await]. *)
From S2P Require Import Prelude.

(** [TeardownResources]: the resources that are not [undefined]. *)
Record resources := Resources {
  httpServer : bool; websocket : bool; cleaner : bool;
  activity : bool; registry : bool; disposeServices : bool;
}.
Inductive operation :=
| StopAccepting | CloseHttp | ShutdownCleaner | StopHeartbeat | ShutdownActivity
| CloseClients | CloseRegistry | CloseWebsocket | DisposeServices
| SetTimer | CloseAllConnections | ClearTimer.
#[export] Instance operation_eq_dec : EqDecision operation.
Proof. solve_decision. Defined.

(** What [errors] collects: a failed call, or the deadline. *)
Inductive failure := Failed (o : operation) | DeadlineExceeded.
#[export] Instance failure_eq_dec : EqDecision failure.
Proof. solve_decision. Defined.

(** Where the function is: at the [await] of a phase, at the one of the HTTP
    server, or returned ([false]: it threw). *)
Inductive place := AtPhase (k : nat) | AtHttp | Finished (ok : bool).

Record teardown := Teardown {
  calls : list operation;        (* the calls made, in order *)
  errors : list failure;
  open : list operation;         (* the promises that have not settled *)
  deadlineReached : bool;
  timer : bool;                  (* armed *)
  at_place : place;
}.

(** How [scheduler.setTimeout] behaves: it arms the timer, it throws, or it
    runs the callback before it returns. *)
Inductive arming := Arms | Refuses | FiresAtOnce.

Section teardown.
Variable throws : operation → bool.
Variable arm : arming.
Variable rs : resources.

Definition made (o : operation) (t : teardown) : teardown :=
  Teardown (calls t ++ [o]) (errors t) (open t) (deadlineReached t) (timer t) (at_place t).
Definition push (e : failure) (t : teardown) : teardown :=
  Teardown (calls t) (errors t ++ [e]) (open t) (deadlineReached t) (timer t) (at_place t).
Definition opened (o : operation) (t : teardown) : teardown :=
  Teardown (calls t) (errors t) (open t ++ [o]) (deadlineReached t) (timer t) (at_place t).
Definition moved (p : place) (t : teardown) : teardown :=
  Teardown (calls t) (errors t) (open t) (deadlineReached t) (timer t) p.
Definition with_timer (b : bool) (t : teardown) : teardown :=
  Teardown (calls t) (errors t) (open t) (deadlineReached t) b (at_place t).
Definition reached (t : teardown) : teardown :=
  Teardown (calls t) (errors t) (open t) true (timer t) (at_place t).

Definition runCleanup (o : operation) (t : teardown) : teardown :=
  if throws o then push (Failed o) (made o t) else made o t.
Definition startAsyncCleanup (o : operation) (t : teardown) : teardown :=
  if throws o then push (Failed o) (made o t) else opened o (made o t).
(** [beginHttpClose]: a throw of [server.close] rejects the promise, which
    [startAsyncCleanup] records as well (a microtask later, and before [errors]
    is read, unless the deadline has made it non-empty). *)
Definition beginHttpClose (t : teardown) : teardown := startAsyncCleanup CloseHttp t.
(** [resource?.method()] *)
Definition given (present : bool) (f : teardown → teardown) (t : teardown) : teardown :=
  if present then f t else t.

Definition reachDeadline (t : teardown) : teardown :=
  if deadlineReached t then t
  else given (httpServer rs) (runCleanup CloseAllConnections) (reached t).

(** The four entries of [phases]: the promises they await. *)
Definition phase_ops (k : nat) : list operation :=
  match k with
  | 0 => (if cleaner rs then [ShutdownCleaner] else []) ++ (if websocket rs then [StopHeartbeat] else [])
         ++ (if activity rs then [ShutdownActivity] else [])
  | 1 => (if websocket rs then [CloseClients] else []) ++ (if registry rs then [CloseRegistry] else [])
  | 2 => if websocket rs then [CloseWebsocket] else []
  | 3 => if disposeServices rs then [DisposeServices] else []
  | _ => []
  end%nat.
Definition asynchronous (o : operation) : bool :=
  match o with
  | CloseHttp | ShutdownCleaner | ShutdownActivity | CloseRegistry | CloseWebsocket => true
  | _ => false
  end.
Definition run_operation (o : operation) : teardown → teardown :=
  if asynchronous o then startAsyncCleanup o else runCleanup o.
Definition run_phase (k : nat) (t : teardown) : teardown := foldl (flip run_operation) t (phase_ops k).

(** The rest of the function once the deadline is reached: the phases from
    [nextPhase] on are started and not awaited. *)
Definition run_phases (from : nat) (t : teardown) : teardown :=
  foldl (flip run_phase) t (seq from (4 - from)).
Definition verdict (t : teardown) : teardown := moved (Finished (bool_decide (errors t = []))) t.
Definition expire (nextPhase : nat) (t : teardown) : teardown :=
  verdict (push DeadlineExceeded (run_phases nextPhase t)).
Definition complete (t : teardown) : teardown :=
  verdict (given (timer t) (λ t, with_timer (throws ClearTimer) (runCleanup ClearTimer t)) t).

(** The loop from [nextPhase], to the next [await]. *)
Definition proceed (nextPhase : nat) (t : teardown) : teardown :=
  if deadlineReached t then expire nextPhase t
  else if (nextPhase <? 4)%nat then moved (AtPhase nextPhase) (run_phase nextPhase t)
  else moved AtHttp t.

Definition arm_timer (t : teardown) : teardown :=
  match arm with
  | Arms => with_timer true (made SetTimer t)
  | Refuses => reachDeadline (push (Failed SetTimer) (made SetTimer t))
  | FiresAtOnce => with_timer true (reachDeadline (made SetTimer t))
  end.
Definition initial : teardown := Teardown [] [] [] false false (AtPhase 0).
(** [performBoundedTeardown], to its first [await]. *)
Definition performBoundedTeardown : teardown :=
  proceed 0 (arm_timer (given (httpServer rs) beginHttpClose
    (given (websocket rs) (runCleanup StopAccepting) initial))).

(** A promise settles; a rejection is recorded. *)
Definition settled (o : operation) (ok : bool) (t : teardown) : teardown :=
  let t' := Teardown (calls t) (errors t) (filter (λ p, p ≠ o) (open t)) (deadlineReached t) (timer t) (at_place t) in
  if ok then t' else push (Failed o) t'.
(** What the [await] waits for has settled. *)
Definition phase_done (k : nat) (t : teardown) : bool :=
  forallb (λ o, negb (bool_decide (o ∈ open t))) (phase_ops k).
Definition ready (t : teardown) : bool :=
  match at_place t with
  | AtPhase k => deadlineReached t || phase_done k t
  | AtHttp => deadlineReached t || negb (bool_decide (CloseHttp ∈ open t))
  | Finished _ => false
  end.
(** The continuation of the [await]: [Promise.race] has settled. *)
Definition resume (t : teardown) : teardown :=
  match at_place t with
  | AtPhase k => proceed (S k) t
  | AtHttp => if deadlineReached t then expire 4 t else complete t
  | Finished _ => t
  end.
Definition finished (t : teardown) : bool := match at_place t with Finished _ => true | _ => false end.
(** The callback of the timer: it may still run when clearing it failed. *)
Definition fire (t : teardown) : teardown := reachDeadline t.

Inductive tstep : teardown → teardown → Prop :=
| t_settled o ok t : o ∈ open t → tstep t (settled o ok t)
| t_fire t : timer t = true → tstep t (fire t)
| t_resume t : ready t = true → tstep t (resume t).

(** * What a teardown does *)

(** The whole sequence of calls on the resources. *)
Definition plan : list operation :=
  (if websocket rs then [StopAccepting] else []) ++ (if httpServer rs then [CloseHttp] else [])
  ++ phase_ops 0 ++ phase_ops 1 ++ phase_ops 2 ++ phase_ops 3.
Definition is_resource (o : operation) : Prop :=
  match o with SetTimer | CloseAllConnections | ClearTimer => False | _ => True end.
#[global] Instance is_resource_dec o : Decision (is_resource o).
Proof. destruct o; apply _. Defined.
Definition resource_calls (t : teardown) : list operation := filter is_resource (calls t).
Definition started : list operation :=
  (if websocket rs then [StopAccepting] else []) ++ (if httpServer rs then [CloseHttp] else []).
(** The calls made when the phases before [k] have been started. *)
Definition plan_to (k : nat) : list operation := started ++ flat_map phase_ops (seq 0 k).

(** ** The calls *)

Lemma resource_calls_push e t : resource_calls (push e t) = resource_calls t.
Proof. done. Qed.
Lemma resource_calls_made o t :
  resource_calls (made o t) = resource_calls t ++ (if decide (is_resource o) then [o] else []).
Proof. unfold resource_calls. cbn. rewrite filter_app. cbn. by destruct (decide _). Qed.
Lemma run_operation_calls o t : calls (run_operation o t) = calls t ++ [o].
Proof. unfold run_operation, startAsyncCleanup, runCleanup. by repeat case_match. Qed.
Lemma run_operation_frame o t :
  deadlineReached (run_operation o t) = deadlineReached t ∧ timer (run_operation o t) = timer t ∧
  at_place (run_operation o t) = at_place t.
Proof. unfold run_operation, startAsyncCleanup, runCleanup. by repeat case_match. Qed.
Lemma run_operations_calls l t : calls (foldl (flip run_operation) t l) = calls t ++ l.
Proof.
  revert t. induction l as [|o l IH]; intros t; cbn; [by rewrite app_nil_r|].
  by rewrite IH, run_operation_calls, <-(assoc_L (++)).
Qed.
Lemma run_operations_frame l t : let t' := foldl (flip run_operation) t l in
  deadlineReached t' = deadlineReached t ∧ timer t' = timer t ∧ at_place t' = at_place t.
Proof.
  revert t. induction l as [|o l IH]; intros t; cbn; [done|]. destruct (IH (run_operation o t)) as (-> & -> & ->).
  apply run_operation_frame.
Qed.
(** The promises that running operations leaves, and the failures. *)
Lemma run_operations_open l t o : o ∈ open (foldl (flip run_operation) t l) →
  o ∈ open t ∨ (o ∈ l ∧ asynchronous o = true ∧ throws o = false).
Proof.
  revert t. induction l as [|p l IH]; intros t; cbn; [by left|]. intros [Ho|(?&?&?)]%IH.
  - unfold run_operation, startAsyncCleanup, runCleanup in Ho. cbn in Ho.
    destruct (asynchronous p) eqn:Ha, (throws p) eqn:Ht; cbn in Ho; try by left.
    apply elem_of_app in Ho as [Ho|Ho]; [by left|]. apply list_elem_of_singleton in Ho as ->. right. by split; [left|].
  - right. by split; [right|].
Qed.
Lemma run_operations_errors l t : (∀ e, e ∈ errors t → e ∈ errors (foldl (flip run_operation) t l)) ∧
  (∀ o, o ∈ l → throws o = true → Failed o ∈ errors (foldl (flip run_operation) t l)) ∧
  (∀ o, Failed o ∈ errors (foldl (flip run_operation) t l) → Failed o ∈ errors t ∨ throws o = true).
Proof.
  revert t. induction l as [|p l IH]; intros t; cbn; [split_and!; [done|by intros ? ?%not_elem_of_nil|by left]|].
  destruct (IH (run_operation p t)) as (H1 & H2 & H3). split_and!.
  - intros e He. apply H1. unfold run_operation, startAsyncCleanup, runCleanup.
    repeat case_match; cbn; rewrite ?elem_of_app; auto.
  - intros o Ho Ht. apply elem_of_cons in Ho as [->|Ho]; [|by apply H2]. apply H1.
    unfold run_operation, startAsyncCleanup, runCleanup. rewrite Ht. case_match; cbn; rewrite elem_of_app, list_elem_of_singleton; auto.
  - intros o [Ho| ?]%H3; [|by right]. revert Ho. unfold run_operation, startAsyncCleanup, runCleanup.
    repeat case_match; cbn; rewrite ?elem_of_app, ?list_elem_of_singleton; try (by left).
    all: intros [?|[= ->]]; auto.
Qed.

Definition progress (t : teardown) : nat := match at_place t with AtPhase k => S k | _ => 4 end.
Definition connections_ok (t : teardown) : Prop :=
  filter (λ o, o = CloseAllConnections) (calls t) =
  if deadlineReached t && httpServer rs then [CloseAllConnections] else [].
Definition failures_ok (t : teardown) : Prop :=
  ∀ o, o ∈ calls t → o ≠ SetTimer → throws o = true → Failed o ∈ errors t.

(** Before phase [n] is started, or at the [await] of the HTTP server. *)
Record before (n : nat) (t : teardown) : Prop := {
  b_calls : resource_calls t = plan_to n;
  b_connections : connections_ok t;
  b_timer : deadlineReached t = false → timer t = true;
  b_waits : deadlineReached t = false → ∀ o, o ∈ open t → o = CloseHttp;
  b_failures : failures_ok t;
  b_open : ∀ o, o ∈ open t → o ∈ calls t;
}.
Record teardown_ok (t : teardown) : Prop := {
  ok_calls : resource_calls t = plan_to (progress t);
  ok_place : ∀ k, at_place t = AtPhase k → (k < 4)%nat;
  ok_connections : connections_ok t;
  ok_timer : finished t = false → deadlineReached t = false → timer t = true;
  ok_waits : deadlineReached t = false → ∀ o, o ∈ open t →
    match at_place t with
    | AtPhase k => o = CloseHttp ∨ o ∈ phase_ops k
    | AtHttp => o = CloseHttp
    | Finished _ => False
    end;
  ok_failures : failures_ok t;
  ok_open : ∀ o, o ∈ open t → o ∈ calls t;
  ok_verdict : match at_place t with
    | Finished true => errors t = [] ∧ deadlineReached t = false ∧ timer t = false ∧ ClearTimer ∈ calls t
    | Finished false => errors t ≠ []
    | _ => True
    end;
}.

Lemma phase_ops_resource k : filter is_resource (phase_ops k) = phase_ops k.
Proof. destruct k as [|[|[|[|]]]]; cbn; repeat case_match; done. Qed.
Lemma phase_ops_connections k : filter (λ o, o = CloseAllConnections) (phase_ops k) = [].
Proof. destruct k as [|[|[|[|]]]]; cbn; repeat case_match; done. Qed.
Lemma phase_ops_timer k o : o ∈ phase_ops k → o ≠ SetTimer.
Proof. rewrite <-phase_ops_resource. intros [? _]%list_elem_of_filter. by intros ->. Qed.
Lemma plan_to_S k : plan_to (S k) = plan_to k ++ phase_ops k.
Proof. unfold plan_to. rewrite seq_S, flat_map_app. cbn [flat_map Nat.add]. by rewrite app_nil_r, (assoc_L (++)). Qed.
Lemma plan_to_4 : plan_to 4 = plan.
Proof. unfold plan_to, plan, started. cbn [seq flat_map]. by rewrite app_nil_r, <-!(assoc_L (++)). Qed.

Lemma run_phase_calls k t : calls (run_phase k t) = calls t ++ phase_ops k.
Proof. apply run_operations_calls. Qed.
Lemma failures_run_phase k t : failures_ok t → failures_ok (run_phase k t).
Proof.
  intros Hf o Ho Hn Ht. destruct (run_operations_errors (phase_ops k) t) as (H1 & H2 & _).
  rewrite run_phase_calls in Ho. apply elem_of_app in Ho as [Ho|Ho]; [apply H1|apply H2]; auto.
Qed.
Lemma open_run_phase k t : (∀ o, o ∈ open t → o ∈ calls t) → ∀ o, o ∈ open (run_phase k t) → o ∈ calls (run_phase k t).
Proof.
  intros Ht o Ho. rewrite run_phase_calls, elem_of_app. apply run_operations_open in Ho as [?|[? _]]; [left; auto|by right].
Qed.
Lemma connections_run_phase k t : connections_ok t → connections_ok (run_phase k t).
Proof.
  unfold connections_ok. destruct (run_operations_frame (phase_ops k) t) as (Hd & _).
  unfold run_phase. rewrite Hd, run_operations_calls, filter_app, phase_ops_connections, app_nil_r. done.
Qed.
Lemma resource_run_phase k t : resource_calls (run_phase k t) = resource_calls t ++ phase_ops k.
Proof. unfold resource_calls. by rewrite run_phase_calls, filter_app, phase_ops_resource. Qed.

(** Phases that are started after the deadline. *)
Lemma before_expired_phase n t : deadlineReached t = true → before n t →
  deadlineReached (run_phase n t) = true ∧ before (S n) (run_phase n t).
Proof.
  intros Hd [H1 H2 _ _ H5 H6]. destruct (run_operations_frame (phase_ops n) t) as (Hd' & _). fold (run_phase n t) in Hd'.
  rewrite Hd in Hd'. split; [done|]. split; rewrite ?Hd'; try done.
  - by rewrite resource_run_phase, plan_to_S, H1.
  - by apply connections_run_phase.
  - by apply failures_run_phase.
  - by apply open_run_phase.
Qed.
Lemma before_run_phases n t : (n ≤ 4)%nat → deadlineReached t = true → before n t →
  deadlineReached (run_phases n t) = true ∧ before 4 (run_phases n t).
Proof.
  unfold run_phases. intros Hn. assert (∃ m, (m + n)%nat = 4%nat) as [m Hm] by (exists (4 - n)%nat; lia).
  replace (4 - n)%nat with m by lia. clear Hn. revert n t Hm.
  induction m as [|m IH]; intros n t Hm Hd Hb; cbn; [cbn in Hm; by subst n|].
  destruct (before_expired_phase n t Hd Hb) as [Hd' Hb']. apply (IH (S n)); [lia|done|done].
Qed.
Lemma expire_ok n t : (n ≤ 4)%nat → deadlineReached t = true → before n t → teardown_ok (expire n t).
Proof.
  intros Hn Hd Hb. destruct (before_run_phases n t Hn Hd Hb) as [Hd' [H1 H2 _ _ H5 H6]].
  unfold expire, verdict, moved, push. cbn [errors].
  rewrite bool_decide_false by (by intros [? ?]%app_nil). split; cbn; try done.
  - by rewrite Hd'.
  - intros o Ho ? ?. apply elem_of_app. left. by apply H5.
  - by intros [? ?]%app_nil.
Qed.
Lemma proceed_ok n t : (n ≤ 4)%nat → before n t → teardown_ok (proceed n t).
Proof.
  intros Hn Hb. unfold proceed. destruct (deadlineReached t) eqn:Hd; [by apply expire_ok|].
  destruct Hb as [H1 H2 H3 H4 H5 H6]. destruct (Nat.ltb_spec n 4).
  - destruct (run_operations_frame (phase_ops n) t) as (Hd' & Ht' & _). fold (run_phase n t) in Hd', Ht'.
    split; cbn [moved calls errors open deadlineReached timer at_place].
    + unfold progress. cbn. rewrite plan_to_S, <-H1. apply resource_run_phase.
    + by intros k [= <-].
    + by apply connections_run_phase.
    + intros _ _. rewrite Ht'. by apply H3.
    + intros _ o [?|[? _]]%run_operations_open; [left; by apply H4|by right].
    + by apply failures_run_phase.
    + by apply open_run_phase.
    + done.
  - replace n with 4%nat in * by lia. by split.
Qed.

(** ** The steps keep the invariant *)

Lemma runCleanup_before o n t : ¬ is_resource o → o ≠ SetTimer → o ≠ CloseAllConnections →
  before n t → before n (runCleanup o t).
Proof.
  intros Hr Hs Hc [H1 H2 H3 H4 H5 H6].
  assert (∀ t', calls t' = calls t ++ [o] → deadlineReached t' = deadlineReached t → timer t' = timer t →
    open t' = open t → (∀ e, e ∈ errors t → e ∈ errors t') → (throws o = true → Failed o ∈ errors t') → before n t') as Hb.
  { intros t' Ec Ed Et Eo Ee Ef. split; unfold resource_calls, connections_ok, failures_ok in *; rewrite ?Ec, ?Ed, ?Et, ?Eo, ?filter_app; try done.
    - rewrite H1. cbn. rewrite decide_False by done. apply app_nil_r.
    - rewrite H2. cbn. rewrite decide_False by done. apply app_nil_r.
    - intros p [Hp|Hp%list_elem_of_singleton]%elem_of_app Hn Ht; [apply Ee; auto|subst; auto].
    - intros p Hp. rewrite elem_of_app. auto. }
  unfold runCleanup. destruct (throws o); apply Hb; cbn; try done; intros; rewrite elem_of_app, ?list_elem_of_singleton; auto.
Qed.
Lemma reachDeadline_before n t : deadlineReached t = false → resource_calls t = plan_to n → connections_ok t →
  failures_ok t → (∀ o, o ∈ open t → o ∈ calls t) → before n (reachDeadline t).
Proof.
  intros Hd Hr Hc Hf Ho. unfold connections_ok in Hc. rewrite Hd in Hc. cbn in Hc.
  unfold reachDeadline, given, runCleanup. rewrite Hd.
  destruct (httpServer rs) eqn:Hh; [destruct (throws CloseAllConnections) eqn:Ht|];
    (split; unfold resource_calls, connections_ok, failures_ok in *; cbn; rewrite ?Hh, ?filter_app, ?Hr, ?Hc; try done).
  - cbn. apply app_nil_r.
  - intros p [Hp|Hp%list_elem_of_singleton]%elem_of_app Hn Hp'; apply elem_of_app; [left; auto|right; subst; by left].
  - intros p Hp. rewrite elem_of_app. auto.
  - cbn. apply app_nil_r.
  - intros p [Hp|Hp%list_elem_of_singleton]%elem_of_app Hn Hp'; [auto|congruence].
  - intros p Hp. rewrite elem_of_app. auto.
Qed.
Lemma reachDeadline_reached t : deadlineReached (reachDeadline t) = true.
Proof. unfold reachDeadline, given, runCleanup. repeat case_match; done. Qed.
Lemma reachDeadline_frame t : at_place (reachDeadline t) = at_place t ∧ open (reachDeadline t) = open t ∧
  timer (reachDeadline t) = timer t ∧ ∀ e, e ∈ errors t → e ∈ errors (reachDeadline t).
Proof.
  unfold reachDeadline, given, runCleanup. repeat case_match; cbn; split_and!; try done.
  intros. rewrite elem_of_app. auto.
Qed.

Definition prologue : teardown :=
  given (httpServer rs) beginHttpClose (given (websocket rs) (runCleanup StopAccepting) initial).
Lemma prologue_ok : let t := prologue in
  resource_calls t = plan_to 0 ∧ connections_ok t ∧ deadlineReached t = false ∧ failures_ok t ∧
  (∀ o, o ∈ open t → o ∈ calls t ∧ o = CloseHttp) ∧ timer t = false.
Proof.
  unfold prologue, given, beginHttpClose, startAsyncCleanup, runCleanup, plan_to, started, resource_calls, connections_ok, failures_ok.
  destruct (httpServer rs), (websocket rs), (throws StopAccepting) eqn:H1, (throws CloseHttp) eqn:H2;
    cbn; split_and!; try done; intros o; rewrite ?elem_of_cons; intros; destruct_or?; simplify_eq; rewrite ?elem_of_cons; auto; try congruence;
    try by match goal with H : _ ∈ [] |- _ => apply not_elem_of_nil in H end.
Qed.
Lemma arm_before : before 0 (arm_timer prologue).
Proof.
  destruct prologue_ok as (H1 & H2 & H3 & H4 & H5 & H6).
  assert (resource_calls (made SetTimer prologue) = plan_to 0) as R by (rewrite resource_calls_made; cbn; by rewrite app_nil_r, H1).
  assert (connections_ok (made SetTimer prologue)) as C.
  { unfold connections_ok in *. cbn. rewrite filter_app, H2, H3. done. }
  assert (failures_ok (made SetTimer prologue)) as F.
  { intros o [Ho|Ho%list_elem_of_singleton]%elem_of_app Hn Ht; [by apply H4|done]. }
  assert (∀ o, o ∈ open (made SetTimer prologue) → o ∈ calls (made SetTimer prologue)) as O.
  { intros o Ho. apply elem_of_app. left. by apply H5. }
  unfold arm_timer. destruct arm.
  - split; cbn; try done. intros _ o Ho. by apply H5.
  - apply reachDeadline_before; try done. intros o Ho Hn Ht. apply elem_of_app. left. by apply F.
  - assert (before 0 (reachDeadline (made SetTimer prologue))) as [B1 B2 B3 B4 B5 B6] by by apply reachDeadline_before.
    split; try done.
Qed.
Theorem teardown_initial_ok : teardown_ok performBoundedTeardown.
Proof. apply proceed_ok; [lia|]. apply arm_before. Qed.

Lemma teardown_settled_ok o ok t : o ∈ open t → teardown_ok t → teardown_ok (settled o ok t).
Proof.
  intros Ho [H1 H2 H3 H4 H5 H6 H7 H8].
  assert (∀ b, at_place t = Finished b → b = true → False) as Hfin.
  { intros b Hb ->. rewrite Hb in H8. destruct H8 as (_ & Hd & _). specialize (H5 Hd o Ho). by rewrite Hb in H5. }
  assert (∀ p, p ∈ filter (λ p, p ≠ o) (open t) → p ∈ open t) as Hsub by (by intros p [_ ?]%list_elem_of_filter).
  unfold settled. destruct ok; split; unfold failures_ok, push; cbn; auto; try (intros Hd p Hp%Hsub; by apply H5).
  - intros p Hp Hn Ht. apply elem_of_app. left. by apply H6.
  - destruct (at_place t) as [| |[]] eqn:Hp; try done; [by destruct (Hfin true)|by intros [? ?]%app_nil].
Qed.
Lemma fire_ok t : timer t = true → teardown_ok t → teardown_ok (fire t).
Proof.
  intros Htm [H1 H2 H3 H4 H5 H6 H7 H8]. unfold fire.
  destruct (deadlineReached t) eqn:Hd; [unfold reachDeadline; rewrite Hd; by split; rewrite ?Hd|].
  destruct (reachDeadline_before _ t Hd H1 H3 H6 H7) as [B1 B2 B3 B4 B5 B6].
  destruct (reachDeadline_frame t) as (Fp & Fo & Ft & Fe).
  split; rewrite ?reachDeadline_reached; unfold progress, finished in *; rewrite ?Fp; try done.
  destruct (at_place t) as [| |[]]; try done.
  - destruct H8 as (_ & _ & ? & _). congruence.
  - intros He. destruct (errors t) as [|e l] eqn:Hl; [done|]. specialize (Fe e). rewrite He in Fe.
    by apply (not_elem_of_nil e), Fe; left.
Qed.
Lemma resume_ok t : ready t = true → teardown_ok t → teardown_ok (resume t).
Proof.
  intros Hr [H1 H2 H3 H4 H5 H6 H7 H8]. unfold ready, resume in *. destruct (at_place t) as [k| |b] eqn:Hp; [| |done].
  - apply proceed_ok; [by specialize (H2 _ eq_refl)|]. unfold progress in H1. rewrite Hp in H1. split; try done.
    + intros Hd. apply H4; [unfold finished; by rewrite Hp|done].
    + intros Hd o Ho. specialize (H5 Hd o Ho) as [?|Hk]; [done|]. rewrite Hd in Hr. cbn in Hr.
      unfold phase_done in Hr. rewrite forallb_forall in Hr. specialize (Hr o).
      rewrite <-list_elem_of_In, bool_decide_true in Hr by done. by specialize (Hr Hk).
  - unfold progress in H1. rewrite Hp in H1. destruct (deadlineReached t) eqn:Hd.
    { apply expire_ok; [lia|done|]. split; rewrite ?Hd; try done. }
    specialize (H4 (f_equal (λ p, match p with Finished _ => true | _ => false end) Hp) eq_refl). specialize (H5 eq_refl).
    unfold complete, given. rewrite H4. unfold runCleanup, verdict. cbn in Hr.
    assert (∀ o, o ∉ open t) as Hopen.
    { intros o Ho. specialize (H5 o Ho) as ->. by rewrite bool_decide_true in Hr. }
    destruct (throws ClearTimer) eqn:Ht; (split; unfold failures_ok, connections_ok, progress, resource_calls in *; cbn; try done; try (by intros; exfalso; eapply Hopen)).
    + rewrite filter_app. cbn. by rewrite app_nil_r.
    + by rewrite filter_app, H3, Hd.
    + intros p [Hq|Hq%list_elem_of_singleton]%elem_of_app Hn Hthr; apply elem_of_app; [left; auto|right; subst; by left].
    + rewrite bool_decide_false; by intros [? [=]]%app_nil.
    + rewrite filter_app. cbn. by rewrite app_nil_r.
    + by rewrite filter_app, H3, Hd.
    + intros p [Hq|Hq%list_elem_of_singleton]%elem_of_app Hn Hthr; [auto|congruence].
    + destruct (bool_decide (errors t = [])) eqn:He; [apply bool_decide_eq_true in He|by apply bool_decide_eq_false in He]. split_and!; try done. apply elem_of_app. right. by left.
Qed.
Lemma tstep_ok t t' : tstep t t' → teardown_ok t → teardown_ok t'.
Proof. intros [? ? ? ?|? ?|? ?]; [by apply teardown_settled_ok|by apply fire_ok|by apply resume_ok]. Qed.
Lemma steps_ok t : rtc tstep performBoundedTeardown t → teardown_ok t.
Proof.
  intros Hs. cut (∀ u v, rtc tstep u v → teardown_ok u → teardown_ok v); [intros H; apply (H _ _ Hs teardown_initial_ok)|].
  induction 1 as [|? ? ? Hstep ? IH]; [done|]. intros Hu. by apply IH, (tstep_ok _ _ Hstep).
Qed.
End teardown.

Lemma plan_NoDup rs : NoDup (plan rs).
Proof. destruct rs as [[] [] [] [] [] []]; unfold plan; cbn; apply (bool_decide_unpack _); vm_compute; exact I. Qed.
Lemma plan_to_prefix rs n : (n ≤ 4)%nat → plan_to rs n `prefix_of` plan rs.
Proof.
  intros Hn. rewrite <-plan_to_4. unfold plan_to. apply prefix_app.
  replace 4%nat with (n + (4 - n))%nat by lia. rewrite seq_app, flat_map_app. by apply prefix_app_r.
Qed.
Lemma expire_finished throws rs n t : finished (expire throws rs n t) = true.
Proof. done. Qed.
Lemma stopped_plan throws arm rs t : rtc (tstep throws rs) (performBoundedTeardown throws arm rs) t →
  finished t = true → resource_calls t = plan rs.
Proof.
  intros [H1 _ _ _ _ _ _ _]%steps_ok Hf. unfold progress, finished in *. destruct (at_place t); try done.
  by rewrite H1, plan_to_4.
Qed.
(** An expired deadline ends the teardown with the next continuation. *)
Lemma expired_ends throws rs t : finished t = false →
  ready rs (fire throws rs t) = true ∧ finished (resume throws rs (fire throws rs t)) = true.
Proof.
  intros Hf. pose proof (reachDeadline_reached throws rs t) as Hd.
  destruct (reachDeadline_frame throws rs t) as (Hp & _). unfold fire, ready, resume, finished in *. rewrite Hp, Hd.
  destruct (at_place t); [|done|done]. split; [done|]. unfold proceed. by rewrite Hd.
Qed.


(** A shutdown whose cleaner never settles and whose registry throws: the
    deadline fires, and every resource is torn down. *)
Definition all_resources : resources := Resources true true true true true true.
Definition registry_throws (o : operation) : bool := bool_decide (o = CloseRegistry).
Definition stuck : teardown := performBoundedTeardown registry_throws Arms all_resources.
Definition expired : teardown :=
  resume registry_throws all_resources (fire registry_throws all_resources stuck).
