(* ===== verification/Lifecycle.v ===== *)
(** The life of the HTTP server ([createServerLifecycle], [createListenAttempt]
    and [registerShutdownSignals] of [apps/server/src/index.ts]): it is started
    at most once, is ready only while it runs, and is shut down once, by the
    teardown of [Teardown].

    [start] is the stretch up to [await attempt.promise] and two continuations,
    [resume_start] and [resume_failed]; [finish_shutdown] is the callback of
    the shutdown promise.  The events of the HTTP server, the steps of the
    teardown and the calls of the owner interleave in any order; a resource
    that calls the lifecycle back while [shutdown] is calling it is not
    modelled. *)
From S2P Require Import Prelude Teardown.

Inductive phase := New | Starting | Running | Stopping | Stopped.
#[export] Instance phase_eq_dec : EqDecision phase.
Proof. solve_decision. Defined.

(** The promise of a [ListenAttempt]. *)
Inductive listening := Unsettled | Listened | Refused.
#[export] Instance listening_eq_dec : EqDecision listening.
Proof. solve_decision. Defined.
(** The promise that [start] returned. *)
Inductive start_call := NotCalled | AwaitListen | AwaitShutdown | StartResolved | StartRejected.
#[export] Instance start_call_eq_dec : EqDecision start_call.
Proof. solve_decision. Defined.

Record lifecycle := Lifecycle {
  state : phase;
  listenPromise : option listening;
  listenAttempt : bool;            (* the variable is set *)
  starting : start_call;
  operation : option teardown;     (* [performShutdown], behind [shutdownPromise] *)
  unavailable : nat;               (* calls of [start] that were refused *)
}.
Definition createServerLifecycle : lifecycle := Lifecycle New None false NotCalled None 0.

Section lifecycle.
Variable throws : Teardown.operation → bool.
Variable arm : arming.
Variable rs : resources.

(** ** [createListenAttempt] *)

(** A listener or [cancel]: the first one settles the promise. *)
Definition settle_listen (r : listening) (p : listening) : listening :=
  match p with Unsettled => r | _ => p end.
(** [fails]: a call on the server throws. *)
Definition createListenAttempt (fails : bool) : listening :=
  if fails then settle_listen Refused Unsettled else Unsettled.
Definition on_listen (r : listening) (l : lifecycle) : lifecycle :=
  Lifecycle (state l) (settle_listen r <$> listenPromise l) (listenAttempt l) (starting l) (operation l) (unavailable l).
Definition onError : lifecycle → lifecycle := on_listen Refused.
Definition onListening : lifecycle → lifecycle := on_listen Listened.
(** [listenAttempt?.cancel()] *)
Definition cancel (l : lifecycle) : lifecycle := if listenAttempt l then on_listen Refused l else l.

(** ** The operations *)

Definition shutdown (l : lifecycle) : lifecycle :=
  match operation l with
  | Some _ => l
  | None => let l := cancel l in
      Lifecycle Stopping (listenPromise l) (listenAttempt l) (starting l)
        (Some (performBoundedTeardown throws arm rs)) (unavailable l)
  end.
(** The callback of [operation.then]. *)
Definition finish_shutdown (l : lifecycle) : lifecycle :=
  Lifecycle Stopped (listenPromise l) (listenAttempt l) (starting l) (operation l) (unavailable l).
Definition shutdown_done (l : lifecycle) : bool :=
  match operation l with Some t => finished t | None => false end.

Definition start (fails : bool) (l : lifecycle) : lifecycle :=
  if decide (state l = New)
  then Lifecycle Starting (Some (createListenAttempt fails)) true AwaitListen (operation l) (unavailable l)
  else Lifecycle (state l) (listenPromise l) (listenAttempt l) (starting l) (operation l) (S (unavailable l)).
(** After [await attempt.promise]. *)
Definition resume_start (l : lifecycle) : lifecycle :=
  if decide (listenPromise l = Some Listened ∧ state l = Starting)
  then Lifecycle Running (listenPromise l) false StartResolved (operation l) (unavailable l)
  else let l := shutdown l in
    Lifecycle (state l) (listenPromise l) (listenAttempt l) AwaitShutdown (operation l) (unavailable l).
(** After [await shutdown()] of the [catch] block. *)
Definition resume_failed (l : lifecycle) : lifecycle :=
  Lifecycle (state l) (listenPromise l) false StartRejected (operation l) (unavailable l).
(** The answer of [durabilityReady], or its throw. *)
Definition isReady (durabilityReady : res unit bool) (l : lifecycle) : bool :=
  if decide (state l = Running) then match durabilityReady with Ok b => b | Throw _ => false end else false.

Definition with_operation (t : teardown) (l : lifecycle) : lifecycle :=
  Lifecycle (state l) (listenPromise l) (listenAttempt l) (starting l) (Some t) (unavailable l).

(** The steps that need no resource to answer: the timer and the
    continuations. *)
Inductive own_step : lifecycle → lifecycle → Prop :=
| s_timer t l : operation l = Some t → timer t = true → own_step l (with_operation (fire throws rs t) l)
| s_continue t l : operation l = Some t → ready rs t = true → own_step l (with_operation (resume throws rs t) l)
| s_finish l : shutdown_done l = true → state l ≠ Stopped → own_step l (finish_shutdown l)
| s_start l p : starting l = AwaitListen → listenPromise l = Some p → p ≠ Unsettled → own_step l (resume_start l)
| s_failed l : starting l = AwaitShutdown → state l = Stopped → own_step l (resume_failed l).
Inductive lstep : lifecycle → lifecycle → Prop :=
| l_own l l' : own_step l l' → lstep l l'
| l_settled t o ok l : operation l = Some t → o ∈ open t → lstep l (with_operation (settled o ok t) l)
| l_start fails l : lstep l (start fails l)
| l_shutdown l : lstep l (shutdown l)
| l_error l : lstep l (onError l)
| l_listening l : lstep l (onListening l).

(** * The invariant *)

Record lifecycle_ok (l : lifecycle) : Prop := {
  ok_operation : ∀ t, operation l = Some t → rtc (tstep throws rs) (performBoundedTeardown throws arm rs) t;
  ok_state : operation l = None ↔ state l = New ∨ state l = Starting ∨ state l = Running;
  ok_stopped : state l = Stopped → shutdown_done l = true;
  ok_new : state l = New → starting l = NotCalled;
  ok_starting : state l = Starting → starting l = AwaitListen ∧ listenPromise l ≠ None ∧ listenAttempt l = true;
  ok_running : state l = Running → starting l = StartResolved;
  ok_await : starting l = AwaitListen → listenPromise l ≠ None ∧ (state l = Starting ∨ operation l ≠ None);
  ok_failed : starting l = AwaitShutdown → operation l ≠ None;
  ok_rejected : starting l = StartRejected → state l = Stopped;
  ok_resolved : starting l = StartResolved → listenPromise l = Some Listened;
}.

Lemma created_ok : lifecycle_ok createServerLifecycle.
Proof. split; cbn; try done. split; auto. Qed.
Lemma with_operation_ok t t' l : lifecycle_ok l → operation l = Some t →
  tstep throws rs t t' → (finished t = true → finished t' = true) → lifecycle_ok (with_operation t' l).
Proof.
  intros [H1 H2 H3 H4 H5 H6 H7 H8 H9 H10] Ht Hs Hf. split; cbn; try done.
  - intros ? [= <-]. eapply rtc_r; [by apply H1|done].
  - rewrite <-H2, Ht. done.
  - intros Hst. apply H3 in Hst. unfold shutdown_done in *. rewrite Ht in Hst. cbn. auto.
  - intros [? ?]%H7. split; auto.
Qed.
Lemma shutdown_ok l : lifecycle_ok l → lifecycle_ok (shutdown l).
Proof.
  intros Hl. pose proof Hl as [H1 H2 H3 H4 H5 H6 H7 H8 H9 H10]. unfold shutdown. destruct (operation l) eqn:Ho; [done|].
  assert (state l = New ∨ state l = Starting ∨ state l = Running) as Hst by by apply H2.
  unfold cancel. destruct (listenAttempt l); split; cbn; try done.
  all: try by intros ? [= <-]; apply rtc_refl.
  all: try by split; [done|intros [|[|]]].
  - intros [? _]%H7. split; [|by right]. by destruct (listenPromise l).
  - intros ?%H9. destruct_or!; congruence.
  - intros ->%H10. done.
  - intros [? _]%H7. split; [done|by right].
  - intros ?%H9. destruct_or!; congruence.
Qed.
Lemma on_listen_ok r l : lifecycle_ok l → lifecycle_ok (on_listen r l).
Proof.
  intros [H1 H2 H3 H4 H5 H6 H7 H8 H9 H10]. split; cbn; try done.
  - intros (?&?&?)%H5. split_and!; try done. by destruct (listenPromise l).
  - intros [? ?]%H7. split; [|done]. by destruct (listenPromise l).
  - by intros ->%H10.
Qed.
Lemma lifecycle_start_ok fails l : lifecycle_ok l → lifecycle_ok (start fails l).
Proof.
  intros [H1 H2 H3 H4 H5 H6 H7 H8 H9 H10]. unfold start. destruct (decide _) as [Hs|]; [|by split].
  assert (operation l = None) as Ho by (apply H2; auto).
  split; cbn; try done; rewrite ?Ho; try done. split; auto. split; auto.
Qed.
Lemma resume_start_ok l p : lifecycle_ok l → starting l = AwaitListen → listenPromise l = Some p →
  p ≠ Unsettled → lifecycle_ok (resume_start l).
Proof.
  intros Hl Ha Hp Hn. unfold resume_start. destruct (decide _) as [[Hli Hst]|_].
  - destruct Hl as [H1 H2 H3 H4 H5 H6 H7 H8 H9 H10]. split; cbn; try done.
    rewrite H2, Hst. split; auto.
  - pose proof (shutdown_ok l Hl) as [H1 H2 H3 H4 H5 H6 H7 H8 H9 H10].
    assert (operation (shutdown l) ≠ None) as Ho.
    { unfold shutdown. destruct (operation l) eqn:E; [by rewrite E|done]. }
    split; cbn; try done.
    + intros Hx. destruct Ho. apply H2. auto.
    + intros Hx. destruct Ho. apply H2. auto.
    + intros Hx. destruct Ho. apply H2. auto.
Qed.

Lemma tstep_finished t t' : tstep throws rs t t' → finished t = true → finished t' = true.
Proof.
  intros [o ok t0 _|t0 _|t0 Hr] Hf; unfold finished in *.
  - by destruct ok.
  - unfold fire. by rewrite (proj1 (reachDeadline_frame throws rs t0)).
  - unfold ready in Hr. by destruct (at_place t0).
Qed.
Lemma own_step_ok l l' : own_step l l' → lifecycle_ok l → lifecycle_ok l'.
Proof.
  intros [t l0 Ho Ht|t l0 Ho Hr|l0 Hd Hs|l0 p Ha Hp Hn|l0 Ha Hs] Hl.
  - apply (with_operation_ok t); try done; [by apply t_fire|]. by apply tstep_finished, t_fire.
  - apply (with_operation_ok t); try done; [by apply t_resume|]. by apply tstep_finished, t_resume.
  - destruct Hl as [H1 H2 H3 H4 H5 H6 H7 H8 H9 H10].
    assert (operation l0 ≠ None) as Ho by (unfold shutdown_done in Hd; by destruct (operation l0)).
    split; cbn; try done.
    + split; [done|by intros [|[|]]].
    + intros [? _]%H7. auto.
  - by apply (resume_start_ok l0 p).
  - destruct Hl as [H1 H2 H3 H4 H5 H6 H7 H8 H9 H10]. split; cbn; try done; rewrite ?Hs; try done.
Qed.
Lemma lstep_ok l l' : lstep l l' → lifecycle_ok l → lifecycle_ok l'.
Proof.
  intros [? ? Hs|t o ok l0 Ho Hi|fails l0|l0|l0|l0] Hl.
  - by apply (own_step_ok _ _ Hs).
  - apply (with_operation_ok t); try done; [by apply t_settled|]. by apply tstep_finished, t_settled.
  - by apply lifecycle_start_ok.
  - by apply shutdown_ok.
  - by apply on_listen_ok.
  - by apply on_listen_ok.
Qed.
Lemma lsteps_ok l l' : rtc lstep l l' → lifecycle_ok l → lifecycle_ok l'.
Proof. induction 1 as [|? ? ? Hs ? IH]; [done|]. intros Hl. by apply IH, (lstep_ok _ _ Hs). Qed.

(** Once a shutdown has begun, the lifecycle stays in its last two states. *)
Lemma shutdown_final l l' : rtc lstep l l' → operation l ≠ None → operation l' ≠ None.
Proof.
  induction 1 as [|l l1 l2 Hs ? IH]; [done|]. intros Ho. apply IH. clear IH H.
  destruct Hs as [? ? [ | | | |]| | | | |]; cbn; try done.
  - unfold resume_start. case_decide; [done|]. unfold shutdown. cbn. by destruct (operation _) eqn:E; rewrite ?E.
  - unfold start. by case_decide.
  - unfold shutdown. by destruct (operation _) eqn:E; rewrite ?E.
Qed.

(** ** A shutdown ends without help *)
Lemma teardown_ends l t : lifecycle_ok l → operation l = Some t →
  ∃ t', rtc own_step l (with_operation t' l) ∧ finished t' = true.
Proof.
  intros Hl Ho. assert (l = with_operation t l) as El by (destruct l; cbn in *; by subst).
  destruct (finished t) eqn:Hf; [exists t; split; [rewrite <-El; apply rtc_refl|done]|].
  destruct (expired_ends throws rs t Hf) as [Hr Hd].
  pose proof (steps_ok _ _ _ _ (ok_operation l Hl t Ho)) as Ht.
  destruct (timer t) eqn:Htm.
  - exists (resume throws rs (fire throws rs t)). split; [|done].
    apply (rtc_l _ _ (with_operation (fire throws rs t) l)); [by apply s_timer|].
    apply rtc_once, (s_continue (fire throws rs t) (with_operation (fire throws rs t) l)); done.
  - assert (deadlineReached t = true) as Hdl.
    { destruct (deadlineReached t) eqn:E; [done|]. rewrite (ok_timer throws rs t Ht Hf E) in Htm. done. }
    assert (fire throws rs t = t) as Ef by (unfold fire, reachDeadline; by rewrite Hdl). rewrite Ef in Hr, Hd.
    exists (resume throws rs t). split; [|done]. apply rtc_once. by apply s_continue.
Qed.
Lemma shutdown_ends l : lifecycle_ok l → operation l ≠ None → ∃ l', rtc own_step l l' ∧ state l' = Stopped ∧ starting l' = starting l.
Proof.
  intros Hl Ho. destruct (operation l) as [t|] eqn:E; [|done].
  destruct (teardown_ends l t Hl E) as (t' & Hs & Hf).
  destruct (decide (state l = Stopped)) as [Hst|Hst]; [exists l; split_and!; [apply rtc_refl|done..]|].
  exists (finish_shutdown (with_operation t' l)). split_and!; [|done..].
  eapply rtc_r; [exact Hs|]. by apply s_finish.
Qed.
End lifecycle.


(** A server that starts, serves, and is shut down while its cleaner hangs. *)
Definition serving : lifecycle :=
  resume_start registry_throws Arms all_resources (onListening (start false createServerLifecycle)).
Lemma serving_reachable : rtc (lstep registry_throws Arms all_resources) createServerLifecycle serving.
Proof.
  apply (rtc_l _ _ (start false createServerLifecycle)); [apply l_start|].
  apply (rtc_l _ _ (onListening (start false createServerLifecycle))); [apply l_listening|].
  apply rtc_once, l_own, (s_start _ _ _ _ Listened); done.
Qed.
