(* ===== verification/Production.v ===== *)
(** Start-up of the production server ([createProductionRuntime],
    [rollbackProductionResources], [registerShutdownSignals],
    [verifyRuntimeExecutables] and the small ports of
    [apps/server/src/index.ts]).

    The stages of the factory are calls that succeed or throw; the variables
    that [createProductionRuntime] has assigned when one throws determine what
    is rolled back.  The teardown that follows is that of [Teardown], or the
    shutdown of [Lifecycle] once there is a lifecycle. *)
From S2P Require Import Prelude Teardown Lifecycle.

(** * Signals *)

Inductive signal := SIGTERM | SIGINT.
#[export] Instance signal_eq_dec : EqDecision signal.
Proof. solve_decision. Defined.
Inductive signal_call := On (s : signal) | Off (s : signal).

(** What the calls left: the calls made, in order. *)
Definition off_both : list signal_call := [Off SIGTERM; Off SIGINT].
(** [registerShutdownSignals]: whether it returned its disposer, and the calls
    on the signal source; the disposer makes [off_both], and ignores throws. *)
Definition registerShutdownSignals (throws : signal → bool) : bool * list signal_call :=
  if throws SIGTERM then (false, On SIGTERM :: off_both)
  else if throws SIGINT then (false, [On SIGTERM; On SIGINT] ++ off_both)
  else (true, [On SIGTERM; On SIGINT]).

(** The listener: the closure's [requested], the calls of [lifecycle.shutdown]
    and whether [process.exitCode] has been set to 1. *)
Record listener := Listener { requested : bool; shutdowns : nat; failed_exit : bool }.
Definition new_listener : listener := Listener false 0 false.
Definition on_signal (l : listener) : listener :=
  if requested l then l else Listener true (S (shutdowns l)) (failed_exit l).
(** The shutdown promise rejects. *)
Definition shutdown_rejected (l : listener) : listener := Listener (requested l) (shutdowns l) true.

(** * The stages *)

Inductive stage :=
| LoadConfigFile | LoadConfig | CreateLogger | InitializeSettings | InitializeAuthentication
| InitializeTabs | VerifyExecutables | CreateServices | CreateHttp | CreateWebsocket | CreateCleaner
| CreateLifecycle | BindLifecycle | StartLifecycle | RegisterSignals.
#[export] Instance stage_eq_dec : EqDecision stage.
Proof. solve_decision. Defined.
Definition stages : list stage :=
  [LoadConfigFile; LoadConfig; CreateLogger; InitializeSettings; InitializeAuthentication;
   InitializeTabs; VerifyExecutables; CreateServices; CreateHttp; CreateWebsocket; CreateCleaner;
   CreateLifecycle; BindLifecycle; StartLifecycle; RegisterSignals].

(** The variables of the function that its [catch] block reads. *)
Record variables := Variables {
  v_services : bool; v_httpServer : bool; v_websocket : bool; v_cleaner : bool;
  v_lifecycle : bool; v_disposeSignals : bool;
}.
Definition no_variables : variables := Variables false false false false false false.
Definition assign (s : stage) (v : variables) : variables :=
  match s with
  | CreateServices => Variables true (v_httpServer v) (v_websocket v) (v_cleaner v) (v_lifecycle v) (v_disposeSignals v)
  | CreateHttp => Variables (v_services v) true (v_websocket v) (v_cleaner v) (v_lifecycle v) (v_disposeSignals v)
  | CreateWebsocket => Variables (v_services v) (v_httpServer v) true (v_cleaner v) (v_lifecycle v) (v_disposeSignals v)
  | CreateCleaner => Variables (v_services v) (v_httpServer v) (v_websocket v) true (v_lifecycle v) (v_disposeSignals v)
  | CreateLifecycle => Variables (v_services v) (v_httpServer v) (v_websocket v) (v_cleaner v) true (v_disposeSignals v)
  | RegisterSignals => Variables (v_services v) (v_httpServer v) (v_websocket v) (v_cleaner v) (v_lifecycle v) true
  | _ => v
  end.
(** The resources given to [createServerLifecycle]. *)
Definition owned : resources := Resources true true true true true true.
(** [rollbackProductionResources] *)
Definition rollback_resources (v : variables) : resources :=
  Resources (v_httpServer v) (v_websocket v) (v_cleaner v) (v_services v) (v_services v) (v_services v).

(** How the promise of [createProductionRuntime] settles: with the public
    lifecycle; or it rejects with the error of a stage, after the rollback of
    some resources, or after the shutdown of the lifecycle that owns all. *)
Inductive outcome :=
| Started
| RolledBack (rs : resources)
| ShutDown.

Section startup.
(** [createServerLifecycle] itself does not throw. *)
Variable fails : stage → bool.
Definition stage_fails (s : stage) : bool := negb (bool_decide (s = CreateLifecycle)) && fails s.

(** The stages entered, and the variables when the first one throws. *)
Fixpoint run_stages (l : list stage) (v : variables) : list stage * option variables :=
  match l with
  | [] => ([], None)
  | s :: l => if stage_fails s then ([s], Some v)
              else let '(entered, r) := run_stages l (assign s v) in (s :: entered, r)
  end.
Definition catch_block (v : variables) : outcome :=
  if v_lifecycle v then ShutDown else RolledBack (rollback_resources v).
Definition createProductionRuntime : list stage * outcome :=
  let '(entered, r) := run_stages stages no_variables in
  (entered, match r with None => Started | Some v => catch_block v end).
End startup.

(** [publicLifecycle.shutdown]: the signals are disposed of once, before the
    shutdown of the lifecycle. *)
Record public_lifecycle := PublicLifecycle { disposedSignals : bool; signal_calls : list signal_call; inner : lifecycle }.
Definition disposeSignalRegistration (p : public_lifecycle) : public_lifecycle :=
  if disposedSignals p then p else PublicLifecycle true (signal_calls p ++ off_both) (inner p).
Definition public_shutdown throws arm (p : public_lifecycle) : public_lifecycle :=
  let p := disposeSignalRegistration p in
  PublicLifecycle (disposedSignals p) (signal_calls p) (shutdown throws arm owned (inner p)).

(** * Small ports *)

(** [verifyRuntimeExecutables]: every path must be executable. *)
Definition verifyRuntimeExecutables (access : jsstr → bool) (paths : list jsstr) : bool := forallb access paths.

(** [bindLifecycle], [runtimeReady] and [durabilityReady] of the services. *)
Definition bindLifecycle (value : nat) (bound : option nat) : option nat + unit :=
  match bound with None => inl (Some value) | Some _ => inr tt end.
Definition runtimeReady (isReady : bool) (bound : option nat) : bool :=
  match bound with Some _ => isReady | None => false end.
Definition durabilityReady (tabs settings : bool) : bool := tabs && settings.

(** * Properties *)

(** The stage that creates the resource of an operation. *)
Definition creator (o : Teardown.operation) : option stage :=
  match o with
  | StopAccepting | StopHeartbeat | CloseClients | CloseWebsocket => Some CreateWebsocket
  | CloseHttp => Some CreateHttp
  | ShutdownCleaner => Some CreateCleaner
  | ShutdownActivity | CloseRegistry | DisposeServices => Some CreateServices
  | SetTimer | CloseAllConnections | ClearTimer => None
  end.
Definition created_by (l : list stage) (o : Teardown.operation) : bool :=
  match creator o with Some s => bool_decide (s ∈ l) | None => false end.
Lemma run_stages_entered fails l v : ∃ rest, (run_stages fails l v).1 ++ rest = l ∧
  match (run_stages fails l v).2 with
  | None => rest = [] ∧ ∀ s, s ∈ l → stage_fails fails s = false
  | Some v' => ∃ before s, (run_stages fails l v).1 = before ++ [s] ∧ stage_fails fails s = true ∧
      (∀ s, s ∈ before → stage_fails fails s = false) ∧ v' = foldl (flip assign) v before
  end.
Proof.
  revert v. induction l as [|s l IH]; intros v; cbn; [exists []; repeat split; by intros ? ?%not_elem_of_nil|].
  destruct (stage_fails fails s) eqn:Hs; cbn.
  - exists l. split; [done|]. exists [], s. split_and!; try done. by intros ? ?%not_elem_of_nil.
  - destruct (IH (assign s v)) as (rest & Hr & Hm). destruct (run_stages fails l (assign s v)) as [entered r]. cbn in *.
    exists rest. split; [by rewrite Hr|]. destruct r as [v'|].
    + destruct Hm as (before & s' & -> & Hf & Hb & ->). exists (s :: before), s'. split_and!; try done.
      intros x [->|Hx]%elem_of_cons; [done|by apply Hb].
    + destruct Hm as [-> Hb]. split; [done|]. intros x [->|Hx]%elem_of_cons; [done|by apply Hb].
Qed.
Lemma entered_stages fails v' : (run_stages fails stages no_variables).2 = Some v' →
  ∃ n s, (n < 15)%nat ∧ (run_stages fails stages no_variables).1 = take n stages ++ [s] ∧ stages !! n = Some s ∧
    stage_fails fails s = true ∧ (∀ x, x ∈ take n stages → stage_fails fails x = false) ∧
    v' = foldl (flip assign) no_variables (take n stages).
Proof.
  intros Hr. destruct (run_stages_entered fails stages no_variables) as (rest & He & Hm). rewrite Hr in Hm.
  destruct Hm as (before & s & Hb & Hf & Hn & Hv). rewrite Hb, <-(assoc_L (++)) in He. exists (length before), s.
  assert (take (length before) stages = before) as Ht by (rewrite <-He; by rewrite take_app_length).
  assert (length stages = 15%nat) as Hl by done.
  split_and!.
  - apply (f_equal length) in He. rewrite !length_app in He. cbn in He. lia.
  - by rewrite Ht.
  - rewrite <-He. cbn [app]. by rewrite list_lookup_middle.
  - done.
  - by rewrite Ht.
  - by rewrite Ht.
Qed.
(** The resources of the variables are those that the passed stages created. *)
Lemma rollback_plan n o : (n < 15)%nat →
  bool_decide (o ∈ plan (rollback_resources (foldl (flip assign) no_variables (take n stages)))) =
  created_by (take n stages) o.
Proof.
  intros Hn. do 15 (destruct n as [|n]; [by destruct o; vm_compute|]). lia.
Qed.
Lemma lifecycle_assigned n : (n < 15)%nat →
  v_lifecycle (foldl (flip assign) no_variables (take n stages)) = (12 <=? n)%nat.
Proof. intros Hn. do 15 (destruct n as [|n]; [by vm_compute|]). lia. Qed.
Lemma all_created n o : (12 ≤ n < 15)%nat → is_resource o → created_by (take n stages) o = true.
Proof.
  intros Hn Ho. assert (n = 12 ∨ n = 13 ∨ n = 14)%nat as [->|[->| ->]] by lia; destruct o; try done; by vm_compute.
Qed.


(** Two signals, or a signal and the owner, make one shutdown; and a failed
    registration leaves no listener behind. *)
Lemma signals_once l : requested (on_signal l) = true ∧ (requested l = true → on_signal l = l) ∧
  on_signal (on_signal l) = on_signal l.
Proof. unfold on_signal. destruct (requested l) eqn:Hr; rewrite ?Hr; done. Qed.
Lemma signals_registered throws : (registerShutdownSignals throws).1 = negb (throws SIGTERM || throws SIGINT) ∧
  ((registerShutdownSignals throws).1 = false → ∃ l, (registerShutdownSignals throws).2 = l ++ off_both).
Proof.
  unfold registerShutdownSignals. destruct (throws SIGTERM), (throws SIGINT); cbn; split; try done; intros _.
  - by exists [On SIGTERM].
  - by exists [On SIGTERM].
  - by exists [On SIGTERM; On SIGINT].
Qed.
Lemma public_shutdown_once throws arm p :
  public_shutdown throws arm (public_shutdown throws arm p) = public_shutdown throws arm p.
Proof.
  unfold public_shutdown, disposeSignalRegistration. destruct p as [[] cs l]; cbn; f_equal;
    unfold shutdown; destruct (operation l) eqn:Ho; cbn; by rewrite ?Ho.
Qed.
