(* ===== verification/ProbeGate.v ===== *)
(** The probes of the administration view ([ProbeGate] and [boundedProbe] of
    [apps/server/src/admin-service.ts]): at most [capacity] operations at a
    time, in the order of the calls, each against a timer.

    A probe is numbered by its call.  The events are the call
    ([boundedProbe]), its timer, the callback of [lease.granted]
    ([on_granted]) and the settlement of the underlying operation; grants and
    releases happen inside of them, where the source makes them.  The timer of
    a probe may run its callback as long as it is armed, also when clearing it
    has failed. *)
From S2P Require Import Prelude Teardown.
(** [Arms], [Refuses] and [FiresAtOnce] are those of [Teardown.arming]. *)

Inductive outcome := Resolved | Rejected | TimedOut.
#[export] Instance outcome_eq_dec : EqDecision outcome.
Proof. solve_decision. Defined.
(** The underlying operation. *)
Inductive underlying := NotStarted | Pending | Settled.
#[export] Instance underlying_eq_dec : EqDecision underlying.
Proof. solve_decision. Defined.

(** [ProbeWaiter] with the closure of its release, and the variables of
    [boundedProbe]; [returned] is how its promise settled. *)
Record probe := Probe {
  entered : bool;        (* [gate.acquire()] has been called *)
  cancelled : bool;
  granted : bool;
  released : bool;
  delivered : bool;      (* the callback of [lease.granted] has run *)
  operation : underlying;
  timer : bool;
  returned : option outcome;
}.
Definition started (p : probe) : bool := negb (bool_decide (operation p = NotStarted)).

Record gate := Gate { active : nat; waiters : list nat; probes : list probe }.
Definition new_gate : gate := Gate 0 [] [].

Section gate.
Variable capacity : nat.

Definition set_cancelled (p : probe) : probe :=
  Probe (entered p) true (granted p) (released p) (delivered p) (operation p) (timer p) (returned p).
Definition set_granted (p : probe) : probe :=
  Probe (entered p) (cancelled p) true (released p) (delivered p) (operation p) (timer p) (returned p).
Definition set_released (p : probe) : probe :=
  Probe (entered p) (cancelled p) (granted p) true (delivered p) (operation p) (timer p) (returned p).
Definition set_delivered (p : probe) : probe :=
  Probe (entered p) (cancelled p) (granted p) (released p) true (operation p) (timer p) (returned p).
Definition set_operation (u : underlying) (p : probe) : probe :=
  Probe (entered p) (cancelled p) (granted p) (released p) (delivered p) u (timer p) (returned p).
Definition set_timer (b : bool) (p : probe) : probe :=
  Probe (entered p) (cancelled p) (granted p) (released p) (delivered p) (operation p) b (returned p).
Definition set_returned (o : outcome) (p : probe) : probe :=
  Probe (entered p) (cancelled p) (granted p) (released p) (delivered p) (operation p) (timer p) (Some o).
Definition update (i : nat) (f : probe → probe) (g : gate) : gate :=
  Gate (active g) (waiters g) (alter f i (probes g)).
Definition cancelled_at (g : gate) (i : nat) : bool :=
  match probes g !! i with Some p => cancelled p | None => false end.

(** ** [ProbeGate] *)

(** [drain], on its queue. *)
Fixpoint drain_from (ws : list nat) (g : gate) : gate :=
  match ws with
  | [] => Gate (active g) [] (probes g)
  | w :: rest =>
      if (active g <? capacity)%nat then
        if cancelled_at g w then drain_from rest g
        else drain_from rest (Gate (S (active g)) rest (alter set_granted w (probes g)))
      else Gate (active g) ws (probes g)
  end.
Definition drain (g : gate) : gate := drain_from (waiters g) g.
Definition acquire (i : nat) (g : gate) : gate := drain (Gate (active g) (waiters g ++ [i]) (probes g)).
(** The closure that a grant hands out. *)
Definition release (i : nat) (g : gate) : gate :=
  match probes g !! i with
  | Some p => if released p then g
              else drain (Gate (active g - 1) (waiters g) (alter set_released i (probes g)))
  | None => g
  end.
Definition cancel (i : nat) (g : gate) : gate :=
  match probes g !! i with
  | Some p =>
      if cancelled p then g
      else
        let g := update i set_cancelled g in
        if granted p then release i g
        else Gate (active g) (filter (λ w, w ≠ i) (waiters g)) (probes g)
  | None => g
  end.

(** ** [boundedProbe] *)

(** [clears]: [scheduler.clearTimeout] disarms the timer. *)
Definition finish (i : nat) (o : outcome) (clears : bool) (g : gate) : gate :=
  match probes g !! i with
  | Some p => match returned p with
              | Some _ => g
              | None => update i (λ p, set_returned o (set_timer (timer p && negb clears) p)) g
              end
  | None => g
  end.
Definition fresh (t : bool) (r : option outcome) (e : bool) : probe :=
  Probe e false false false false NotStarted t r.
Definition boundedProbe (arm : arming) (g : gate) : gate :=
  let i := length (probes g) in
  match arm with
  | Refuses => Gate (active g) (waiters g) (probes g ++ [fresh false (Some TimedOut) false])
  | Arms => acquire i (Gate (active g) (waiters g) (probes g ++ [fresh true None true]))
  | FiresAtOnce => acquire i (Gate (active g) (waiters g) (probes g ++ [fresh false (Some TimedOut) true]))
  end.
(** The callback of the timer. *)
Definition on_timer (i : nat) (g : gate) : gate :=
  let g := update i (set_timer false) g in
  match probes g !! i with
  | Some p => finish i TimedOut true (if started p then g else cancel i g)
  | None => g
  end.
(** The callback of [lease.granted]. *)
Definition on_granted (i : nat) (g : gate) : gate :=
  match probes g !! i with
  | Some p => if returned p then release i (update i set_delivered g)
              else update i (λ p, set_operation Pending (set_delivered p)) g
  | None => g
  end.
Definition on_settled (i : nat) (ok clears : bool) (g : gate) : gate :=
  finish i (if ok then Resolved else Rejected) clears (release i (update i (set_operation Settled) g)).

Inductive gstep : gate → gate → Prop :=
| g_probe arm g : gstep g (boundedProbe arm g)
| g_timer i p g : probes g !! i = Some p → timer p = true → gstep g (on_timer i g)
| g_granted i p g : probes g !! i = Some p → granted p = true → delivered p = false → gstep g (on_granted i g)
| g_settled i p ok clears g : probes g !! i = Some p → operation p = Pending → gstep g (on_settled i ok clears g).

(** * The invariant *)

(** Waiting: entered, neither granted nor cancelled. *)
Definition waiting (p : probe) : bool := entered p && negb (granted p) && negb (cancelled p).
Definition holding (p : probe) : bool := granted p && negb (released p).
Definition at_ (f : probe → bool) (ps : list probe) (i : nat) : bool :=
  match ps !! i with Some p => f p | None => false end.
Definition indices (f : probe → bool) (ps : list probe) : list nat :=
  filter (λ i, at_ f ps i = true) (seq 0 (length ps)).
Arguments indices : simpl never.

Definition has_returned (p : probe) : bool := match returned p with Some _ => true | None => false end.
(** A slot is given back only when the operation has settled, or was never
    started; only a returned probe can be cancelled; every unreturned probe
    has its timer. *)
Definition probe_okb (p : probe) : bool :=
  implb (granted p) (entered p) &&
  implb (cancelled p) (negb (started p) && has_returned p && implb (granted p) (released p)) &&
  implb (released p) (granted p && negb (bool_decide (operation p = Pending)) && (delivered p || cancelled p)) &&
  implb (delivered p) (granted p) && implb (started p) (delivered p) &&
  implb (bool_decide (operation p = Settled)) (released p && has_returned p) &&
  implb (delivered p && negb (released p)) (bool_decide (operation p = Pending)) &&
  implb (negb (has_returned p)) (timer p && entered p) &&
  implb (match returned p with Some Resolved | Some Rejected => true | _ => false end)
    (bool_decide (operation p = Settled)) &&
  implb (timer p) (entered p).
Definition probe_ok (p : probe) : Prop := probe_okb p = true.
Record queue_ok (g : gate) : Prop := {
  ok_active : active g = length (indices holding (probes g));
  ok_capacity : (active g ≤ capacity)%nat;
  ok_waiters : waiters g = indices waiting (probes g);
  ok_fresh : ∀ i p, probes g !! i = Some p → granted p = false → released p = false;
}.
Definition busy (g : gate) : Prop := waiters g ≠ [] → active g = capacity.
Record gate_ok (g : gate) : Prop := {
  ok_probes : ∀ i p, probes g !! i = Some p → probe_ok p;
  ok_queue : queue_ok g;
  ok_busy : busy g;
}.

(** What no step undoes: how a probe has settled, and that it was cancelled
    before its operation started. *)
Definition laterb (p p' : probe) : bool :=
  implb (has_returned p) (bool_decide (returned p' = returned p)) &&
  implb (cancelled p) (cancelled p' && bool_decide (operation p' = operation p)).
Definition good (p p' : probe) : Prop := probe_okb p' && laterb p p' = true.
Definition advances (g g' : gate) : Prop := ∀ j p, probes g !! j = Some p →
  ∃ p', probes g' !! j = Some p' ∧ laterb p p' = true.
(** Reasoning on one probe is by cases on its fields. *)
Ltac probe_fields p :=
  unfold good, probe_ok, probe_okb, laterb, has_returned, started, waiting, holding in *;
  destruct p as [xe xc xg xr xd xo xt xu]; cbn in *; subst;
  repeat match goal with
  | x : bool |- _ => destruct x; cbn in *; try done
  | x : underlying |- _ => destruct x; cbn in *; try done
  | x : outcome |- _ => destruct x; cbn in *; try done
  | x : option outcome |- _ => destruct x as [[]|]; cbn in *; try done
  end.
(** ** Lists of probes *)

Lemma filter_iff_in {A} (P Q : A → Prop) `{∀ x, Decision (P x), ∀ x, Decision (Q x)} (l : list A) :
  (∀ x, x ∈ l → P x ↔ Q x) → filter P l = filter Q l.
Proof.
  induction l as [|x l IH]; intros Hl; [done|]. assert (filter P l = filter Q l) as E.
  { apply IH. intros y Hy. apply Hl. by right. }
  specialize (Hl x ltac:(by left)). rewrite !filter_cons, E. repeat case_decide; tauto.
Qed.
Lemma filter_all {A} (P : A → Prop) `{∀ x, Decision (P x)} (l : list A) : (∀ x, x ∈ l → P x) → filter P l = l.
Proof.
  induction l as [|x l IH]; intros Hl; [done|]. rewrite filter_cons, decide_True by (apply Hl; by left).
  f_equal. apply IH. intros y Hy. apply Hl. by right.
Qed.
Lemma indices_NoDup f ps : NoDup (indices f ps).
Proof. apply NoDup_filter, NoDup_seq. Qed.
Lemma indices_ext f g ps qs : length ps = length qs → (∀ i, at_ f ps i = at_ g qs i) → indices f ps = indices g qs.
Proof. intros Hl Hi. unfold indices. rewrite Hl. apply list_filter_iff. intros i. by rewrite Hi. Qed.
Lemma at_alter f h i ps j : at_ f (alter h i ps) j = if decide (i = j) then at_ (f ∘ h) ps j else at_ f ps j.
Proof.
  unfold at_. case_decide as Hij; [subst; rewrite list_lookup_alter_eq; by destruct (ps !! j)|by rewrite list_lookup_alter_ne].
Qed.
Lemma indices_alter_same f h i ps : (∀ p, ps !! i = Some p → f (h p) = f p) → indices f (alter h i ps) = indices f ps.
Proof.
  intros Hf. apply indices_ext; [apply length_alter|]. intros j. rewrite at_alter. case_decide; [subst|done].
  unfold at_. cbn. destruct (ps !! j) eqn:Hj; [by apply Hf|done].
Qed.
Lemma indices_alter_down f h i ps p : ps !! i = Some p → f (h p) = false →
  indices f (alter h i ps) = filter (λ j, j ≠ i) (indices f ps).
Proof.
  intros Hp Hf. unfold indices. rewrite length_alter, list_filter_filter. apply list_filter_iff. intros j.
  rewrite at_alter. case_decide as Hij; [subst|naive_solver]. unfold at_. rewrite Hp. cbn. rewrite Hf. naive_solver.
Qed.
Lemma length_filter_ne (l : list nat) i : NoDup l → i ∈ l → length l = S (length (filter (λ j, j ≠ i) l)).
Proof.
  induction 1 as [|x l Hx Hl IH]; [by intros ?%not_elem_of_nil|]. intros [->|Hi]%elem_of_cons; rewrite filter_cons.
  - rewrite decide_False by tauto. cbn [length]. f_equal. rewrite filter_all; [done|]. by intros y Hy ->.
  - rewrite decide_True by (intros ->; done). cbn [length]. by rewrite <-IH.
Qed.
Lemma elem_of_indices f ps i : i ∈ indices f ps ↔ at_ f ps i = true.
Proof.
  unfold indices. rewrite list_elem_of_filter. split; [tauto|]. intros Hi. split; [done|]. apply elem_of_seq.
  unfold at_ in Hi. destruct (ps !! i) eqn:Hp; [|done]. apply lookup_lt_Some in Hp. lia.
Qed.
Lemma length_alter_down f h i ps p : ps !! i = Some p → f p = true → f (h p) = false →
  length (indices f ps) = S (length (indices f (alter h i ps))).
Proof.
  intros Hp Hf Hh. rewrite (indices_alter_down f h i ps p Hp Hh). apply length_filter_ne; [apply indices_NoDup|].
  apply elem_of_indices. unfold at_. by rewrite Hp.
Qed.
Lemma length_alter_up f h i ps p : ps !! i = Some p → f p = false → f (h p) = true →
  length (indices f (alter h i ps)) = S (length (indices f ps)).
Proof.
  intros Hp Hf Hh. assert (indices f ps = filter (λ j, j ≠ i) (indices f (alter h i ps))) as ->.
  - rewrite <-(indices_alter_down f (λ _, p) i (alter h i ps) (h p)); [|by rewrite list_lookup_alter_eq, Hp|done].
    f_equal. apply list_eq. intros j. destruct (decide (i = j)) as [->|Hij].
    + by rewrite !list_lookup_alter_eq, Hp.
    + by rewrite !list_lookup_alter_ne.
  - apply length_filter_ne; [apply indices_NoDup|]. apply elem_of_indices. rewrite at_alter, decide_True by done.
    unfold at_. by rewrite Hp.
Qed.
Lemma indices_app f ps p : indices f (ps ++ [p]) = indices f ps ++ (if f p then [length ps] else []).
Proof.
  unfold indices. rewrite length_app, Nat.add_1_r, seq_S, filter_app. f_equal.
  - apply filter_iff_in. intros i Hi%elem_of_seq. unfold at_. by rewrite lookup_app_l by lia.
  - cbn. unfold at_. rewrite list_lookup_middle by done. by destruct (f p).
Qed.

(** ** [drain] *)

(** What [drain] does to a probe. *)
Definition grants (p p' : probe) : Prop := p' = p ∨ (waiting p = true ∧ p' = set_granted p).
Lemma drain_from_ok ws g : queue_ok (Gate (active g) ws (probes g)) →
  let g' := drain_from ws g in
  queue_ok g' ∧ busy g' ∧ ∀ j, match probes g !! j, probes g' !! j with
    | Some p, Some p' => grants p p' | None, None => True | _, _ => False end.
Proof.
  revert g. induction ws as [|w rest IH]; intros g Hq; cbn -[Nat.ltb].
  { split_and!; [done|by intros []|]. intros j. cbn. destruct (probes g !! j); [by left|done]. }
  destruct (Nat.ltb_spec (active g) capacity) as [Hlt|Hge].
  2:{ split_and!; [exact Hq| |].
      - intros _. destruct Hq as [_ Hc _ _]. cbn in *. lia.
      - intros j. cbn. destruct (probes g !! j); [by left|done]. }
  destruct Hq as [Ha Hc Hw Hfr]. cbn [active waiters probes] in Ha, Hc, Hw, Hfr.
  assert (at_ waiting (probes g) w = true) as Hat by (apply elem_of_indices; rewrite <-Hw; by left).
  unfold at_ in Hat. destruct (probes g !! w) as [p|] eqn:Hp; [|done].
  assert (cancelled_at g w = false) as Hcan.
  { unfold cancelled_at. rewrite Hp. unfold waiting in Hat. by destruct (entered p), (granted p), (cancelled p). }
  rewrite Hcan.
  assert (holding p = false ∧ holding (set_granted p) = true ∧ waiting (set_granted p) = false) as (Hh & Hh' & Hw').
  { pose proof (Hfr w p Hp) as Hr. unfold holding, waiting in *. cbn.
    by destruct (entered p), (granted p); try done; rewrite Hr. }
  destruct (IH (Gate (S (active g)) rest (alter set_granted w (probes g)))) as (H1 & H2 & H3).
  { split; cbn [active waiters probes]; [by rewrite (length_alter_up _ _ _ _ p Hp Hh Hh'), Ha|lia| |].
    - rewrite (indices_alter_down _ _ _ _ p Hp Hw'), <-Hw. rewrite filter_cons, decide_False by tauto.
      rewrite filter_all; [done|]. intros y Hy ->. pose proof (indices_NoDup waiting (probes g)) as Hn.
      rewrite <-Hw in Hn. by apply NoDup_cons in Hn as [? _].
    - intros j q Hj. destruct (decide (w = j)) as [->|Hne].
      + rewrite list_lookup_alter_eq, Hp in Hj. by injection Hj as <-.
      + rewrite list_lookup_alter_ne in Hj by done. by apply (Hfr j). }
  split_and!; [done..|]. cbn in H3. intros j. specialize (H3 j). destruct (decide (w = j)) as [<-|Hne].
  - rewrite list_lookup_alter_eq, Hp in H3. rewrite Hp. cbn in H3. destruct (probes (drain_from _ _) !! w); [|done].
    right. destruct H3 as [->|[Hx _]]; [done|congruence].
  - by rewrite list_lookup_alter_ne in H3.
Qed.

(** What a step does to the probes other than its own. *)
Definition others (i : nat) (g g' : gate) : Prop := ∀ j, j ≠ i →
  match probes g !! j, probes g' !! j with
  | Some p, Some p' => grants p p' | None, None => True | _, _ => False end.
Lemma others_refl i g g' : (∀ j, j ≠ i → probes g' !! j = probes g !! j) → others i g g'.
Proof. intros Hg j Hj. rewrite Hg by done. destruct (probes g !! j); [by left|done]. Qed.
Lemma others_r i g g' g'' : others i g g' → (∀ j, j ≠ i → probes g'' !! j = probes g' !! j) → others i g g''.
Proof. intros Ho Hg j Hj. specialize (Ho j Hj). by rewrite Hg by done. Qed.
Lemma others_l i g g' g'' : (∀ j, j ≠ i → probes g' !! j = probes g !! j) → others i g' g'' → others i g g''.
Proof. intros Hg Ho j Hj. specialize (Ho j Hj). by rewrite <-Hg by done. Qed.
Lemma update_lookup i f g : probes (update i f g) !! i = f <$> probes g !! i ∧
  ∀ j, j ≠ i → probes (update i f g) !! j = probes g !! j.
Proof. unfold update. cbn. split; [apply list_lookup_alter_eq|]. intros j Hj. by apply list_lookup_alter_ne. Qed.
Lemma grants_ok p p' : grants p p' → probe_ok p → probe_ok p'.
Proof. intros [->|[Hw ->]] Hp; [done|]. by probe_fields p. Qed.
Lemma laterb_refl p : laterb p p = true.
Proof. unfold laterb. rewrite !bool_decide_true by done. by destruct (has_returned p), (cancelled p). Qed.
Lemma grants_later p p' : grants p p' → laterb p p' = true.
Proof. intros [->|[Hw ->]]; [apply laterb_refl|]. unfold laterb. rewrite !bool_decide_true by done. cbn. by destruct (has_returned p), (cancelled p). Qed.
Definition steps_to (g g' : gate) : Prop := gate_ok g' ∧ advances g g'.
Lemma gate_ok_intro i p p' g g' : probes g !! i = Some p → gate_ok g → queue_ok g' → busy g' →
  probes g' !! i = Some p' → good p p' → others i g g' → steps_to g g'.
Proof.
  intros Hpi [Hp _ _] Hq Hb Hi [Hok Hl]%andb_prop Ho. split; [split; [|done..]|].
  - intros j q Hj. destruct (decide (j = i)) as [->|Hne]; [congruence|].
    specialize (Ho j Hne). rewrite Hj in Ho. destruct (probes g !! j) as [r|] eqn:E; [|done].
    by apply (grants_ok r); [|apply (Hp j)].
  - intros j q Hj. destruct (decide (j = i)) as [->|Hne]; [exists p'; split; congruence|].
    specialize (Ho j Hne). rewrite Hj in Ho. destruct (probes g' !! j) as [r|]; [|done]. exists r. split; [done|by apply grants_later].
Qed.
(** An update that changes neither who waits nor who holds a slot. *)
Lemma update_queue i f p g : probes g !! i = Some p → waiting (f p) = waiting p → holding (f p) = holding p →
  (granted (f p) = false → released (f p) = false) → queue_ok g → queue_ok (update i f g).
Proof.
  intros Hp Hw Hh Hf [H1 H2 H3 H4]. split; unfold update; cbn [active waiters probes].
  - rewrite H1. f_equal. symmetry. apply indices_alter_same. intros q Hq. congruence.
  - done.
  - rewrite H3. symmetry. apply indices_alter_same. intros q Hq. congruence.
  - intros j q Hj. destruct (decide (i = j)) as [<-|Hne].
    + rewrite list_lookup_alter_eq, Hp in Hj. by injection Hj as <-.
    + rewrite list_lookup_alter_ne in Hj by done. by apply (H4 j).
Qed.
Lemma gate_release_ok i p g : probes g !! i = Some p → granted p = true → released p = false → queue_ok g →
  queue_ok (release i g) ∧ busy (release i g) ∧ probes (release i g) !! i = Some (set_released p) ∧
  others i g (release i g).
Proof.
  intros Hp Hg Hr [H1 H2 H3 H4]. unfold release. rewrite Hp, Hr.
  set (g1 := Gate (active g - 1) (waiters g) (alter set_released i (probes g))).
  assert (holding p = true ∧ holding (set_released p) = false) as [Hh Hh'] by (unfold holding; cbn; by rewrite Hg, Hr).
  destruct (drain_from_ok (waiters g1) g1) as (Q & B & P).
  { pose proof (length_alter_down holding set_released i (probes g) p Hp Hh Hh') as Hl.
    split; unfold g1; cbn [active waiters probes]; [lia|lia| |].
    - rewrite H3. symmetry. apply indices_alter_same. intros q Hq. done.
    - intros j q Hj. destruct (decide (i = j)) as [<-|Hne].
      + rewrite list_lookup_alter_eq, Hp in Hj. injection Hj as <-. cbn. congruence.
      + rewrite list_lookup_alter_ne in Hj by done. by apply (H4 j). }
  fold (drain g1) in *. split_and!; [done..| |].
  - specialize (P i). unfold g1 at 1 in P. cbn [probes] in P. rewrite list_lookup_alter_eq, Hp in P. cbn [fmap option_fmap option_map] in P.
    destruct (probes (drain g1) !! i); [|done]. destruct P as [->|[Hw _]]; [done|].
    unfold waiting in Hw. cbn in Hw. rewrite Hg in Hw. by destruct (entered p).
  - apply (others_l i g g1); [|intros j _; apply P]. intros j Hj. unfold g1. cbn. by apply list_lookup_alter_ne.
Qed.
Lemma release_noop i p g : probes g !! i = Some p → released p = true → release i g = g.
Proof. unfold release. by intros -> ->. Qed.
Lemma finish_update i p o clears g : probes g !! i = Some p →
  finish i o clears g = match returned p with Some _ => g
    | None => update i (λ p, set_returned o (set_timer (timer p && negb clears) p)) g end.
Proof. unfold finish. by intros ->. Qed.
Lemma probe_finish_ok i p o clears g : probes g !! i = Some p → queue_ok g →
  queue_ok (finish i o clears g) ∧ (busy g → busy (finish i o clears g)) ∧
  (∀ j, j ≠ i → probes (finish i o clears g) !! j = probes g !! j) ∧
  probes (finish i o clears g) !! i = Some (match returned p with Some _ => p
    | None => set_returned o (set_timer (timer p && negb clears) p) end).
Proof.
  intros Hp Hq. rewrite (finish_update i p) by done. destruct (returned p) eqn:Hr; [done|].
  destruct (update_lookup i (λ p, set_returned o (set_timer (timer p && negb clears) p)) g) as [E1 E2].
  split_and!; [|done|done|by rewrite E1, Hp].
  apply (update_queue i _ p); try done. apply (ok_fresh g Hq i p Hp).
Qed.

(** ** The steps *)

Lemma acquire_ok t r ps g : gate_ok g → ps = probes g ++ [fresh t r true] → probe_ok (fresh t r true) →
  steps_to g (acquire (length (probes g)) (Gate (active g) (waiters g) ps)).
Proof.
  intros Hg -> Hf. pose proof Hg as [Hp [H1 H2 H3 H4] Hb]. unfold acquire, drain. cbn [active waiters probes].
  set (g1 := Gate (active g) (waiters g ++ [length (probes g)]) (probes g ++ [fresh t r true])).
  destruct (drain_from_ok (waiters g ++ [length (probes g)]) g1) as (Q & B & P).
  { split; unfold g1; cbn [active waiters probes]; rewrite ?indices_app, ?length_app; cbn; rewrite ?app_nil_r, ?Nat.add_0_r; try done.
    - by rewrite H3.
    - intros j q [Hj|[_ Hj]]%lookup_app_Some; [by apply (H4 j)|]. by apply list_lookup_singleton_Some in Hj as [_ <-]. }
  assert (∀ j p, (probes g ++ [fresh t r true]) !! j = Some p → probe_ok p) as Hall.
  { intros j p [E|[_ E]]%lookup_app_Some; [by apply (Hp j)|]. by apply list_lookup_singleton_Some in E as [_ <-]. }
  unfold g1 in P at 1. cbn [probes] in P.
  split; [split; [|done..]|]; intros j q Hj; specialize (P j).
  - rewrite Hj in P. destruct ((probes g ++ [fresh t r true]) !! j) as [p|] eqn:E; [|done].
    apply (grants_ok p); [done|by apply (Hall j)].
  - rewrite (lookup_app_l_Some _ _ _ _ Hj) in P. destruct (probes (drain_from _ _) !! j) as [p'|]; [|done].
    exists p'. split; [done|by apply grants_later].
Qed.
Lemma boundedProbe_ok arm g : gate_ok g → steps_to g (boundedProbe arm g).
Proof.
  intros Hg. unfold boundedProbe. destruct arm.
  - by apply (acquire_ok true None); [| |].
  - destruct Hg as [Hp [H1 H2 H3 H4] Hb]. split; [split; [|split|]|]; cbn [active waiters probes]; rewrite ?indices_app; cbn; rewrite ?app_nil_r, ?Nat.add_0_r; try done.
    + intros j q [Hj|[_ Hj]]%lookup_app_Some; [by apply (Hp j)|]. apply list_lookup_singleton_Some in Hj as [_ <-]. done.
    + intros j q [Hj|[_ Hj]]%lookup_app_Some; [by apply (H4 j)|]. by apply list_lookup_singleton_Some in Hj as [_ <-].
    + intros j q Hj. exists q. split; [by apply lookup_app_l_Some|apply laterb_refl].
  - by apply (acquire_ok false (Some TimedOut)); [| |].
Qed.

(** A grant is delivered: to a probe that has returned, which gives its slot
    back, or to one that starts its operation. *)
Lemma on_granted_ok i p g : probes g !! i = Some p → granted p = true → delivered p = false →
  gate_ok g → steps_to g (on_granted i g).
Proof.
  intros Hp Hgr Hd Hg. pose proof Hg as [Ha Hq Hb]. pose proof (Ha i p Hp) as Pok.
  unfold on_granted. rewrite Hp. destruct (returned p) as [r|] eqn:Hret.
  - destruct (update_lookup i set_delivered g) as [E1 E2]. rewrite Hp in E1. cbn [fmap option_fmap option_map] in E1.
    assert (queue_ok (update i set_delivered g)) as Hq1.
    { apply (update_queue i _ p); try done. apply (ok_fresh g Hq i p Hp). }
    destruct (released p) eqn:Hr.
    + rewrite (release_noop i _ _ E1) by done. apply (gate_ok_intro i p (set_delivered p) g); try done.
      * clear - Pok Hd Hr Hret Hgr. by probe_fields p.
      * by apply others_refl.
    + destruct (gate_release_ok i _ _ E1 Hgr Hr Hq1) as (Q & B & P & O).
      apply (gate_ok_intro i p _ g _ Hp Hg Q B P); [|by apply (others_l i g (update i set_delivered g))].
      clear - Pok Hd Hr Hret Hgr. by probe_fields p.
  - destruct (update_lookup i (λ p, set_operation Pending (set_delivered p)) g) as [E1 E2]. rewrite Hp in E1. cbn [fmap option_fmap option_map] in E1.
    assert (released p = false) as Hr.
    { clear - Pok Hd Hret. by probe_fields p. }
    apply (gate_ok_intro i p (set_operation Pending (set_delivered p)) g); try done.
    + apply (update_queue i _ p); try done.
    + clear - Pok Hd Hr Hret Hgr. by probe_fields p.
    + by apply others_refl.
Qed.
Lemma on_settled_ok i p ok clears g : probes g !! i = Some p → operation p = Pending →
  gate_ok g → steps_to g (on_settled i ok clears g).
Proof.
  intros Hp Hop Hg. pose proof Hg as [Ha Hq Hb]. pose proof (Ha i p Hp) as Pok. unfold on_settled.
  destruct (update_lookup i (set_operation Settled) g) as [E1 E2]. rewrite Hp in E1. cbn [fmap option_fmap option_map] in E1.
  assert (delivered p = true ∧ granted p = true ∧ released p = false) as (Hd & Hgr & Hr) by (clear - Pok Hop; by probe_fields p).
  assert (queue_ok (update i (set_operation Settled) g)) as Hq1.
  { apply (update_queue i _ p); try done. }
  destruct (gate_release_ok i _ _ E1 Hgr Hr Hq1) as (Q & B & P & O).
  destruct (probe_finish_ok i _ (if ok then Resolved else Rejected) clears _ P Q) as (Q' & B' & O' & P').
  apply (gate_ok_intro i p _ g _ Hp Hg Q' (B' B) P').
  - clear - Pok Hop. destruct ok; by probe_fields p.
  - apply (others_r i g _ _ (others_l i g _ _ E2 O)). exact O'.
Qed.
Lemma gate_cancel_ok i p g : probes g !! i = Some p → cancelled p = false → entered p = true → queue_ok g → busy g →
  queue_ok (cancel i g) ∧ busy (cancel i g) ∧ others i g (cancel i g) ∧
  probes (cancel i g) !! i = Some (if granted p && negb (released p) then set_released (set_cancelled p) else set_cancelled p).
Proof.
  intros Hp Hc He Hq Hb. unfold cancel. rewrite Hp, Hc. destruct (update_lookup i set_cancelled g) as [E1 E2]. rewrite Hp in E1. cbn [fmap option_fmap option_map] in E1.
  destruct (granted p) eqn:Hgr.
  - assert (queue_ok (update i set_cancelled g)) as Hq1.
    { apply (update_queue i _ p); try done; [|apply (ok_fresh g Hq i p Hp)]. unfold waiting. cbn. by rewrite Hgr, !andb_false_r. }
    destruct (released p) eqn:Hr; cbn.
    + rewrite (release_noop i _ _ E1) by done. split_and!; try done. by apply others_refl.
    + destruct (gate_release_ok i _ _ E1 Hgr Hr Hq1) as (Q & B & P & O). split_and!; try done.
      by apply (others_l i g (update i set_cancelled g)).
  - cbn [andb]. destruct Hq as [H1 H2 H3 H4].
    assert (waiting (set_cancelled p) = false) as Hw by (unfold waiting; cbn; by rewrite andb_false_r).
    split_and!; [split|..|]; unfold update; cbn [active waiters probes].
    + rewrite H1. f_equal. symmetry. apply indices_alter_same. intros q Hq. done.
    + done.
    + by rewrite H3, (indices_alter_down _ _ _ _ p Hp Hw).
    + intros j q Hj. destruct (decide (i = j)) as [<-|Hne].
      * rewrite list_lookup_alter_eq, Hp in Hj. injection Hj as <-. apply (H4 i p Hp).
      * rewrite list_lookup_alter_ne in Hj by done. by apply (H4 j).
    + intros Hn. apply Hb. cbn in Hn. by intros E; rewrite E in Hn.
    + by apply others_refl.
    + exact E1.
Qed.
Lemma on_timer_ok i p g : probes g !! i = Some p → timer p = true → gate_ok g → steps_to g (on_timer i g) ∧
  (returned p = None → ∃ p', probes (on_timer i g) !! i = Some p' ∧ returned p' = Some TimedOut).
Proof.
  intros Hp Ht Hg. pose proof Hg as [Ha Hq Hb]. pose proof (Ha i p Hp) as Pok. unfold on_timer.
  destruct (update_lookup i (set_timer false) g) as [E1 E2]. rewrite Hp in E1. cbn [fmap option_fmap option_map] in E1.
  rewrite E1. set (g1 := update i (set_timer false) g) in *.
  assert (queue_ok g1) as Hq1 by (apply (update_queue i _ p); try done; apply (ok_fresh g Hq i p Hp)).
  assert (busy g1) as Hb1 by exact Hb.
  assert (others i g g1) as Ho1 by by apply others_refl.
  assert (started (set_timer false p) = started p) as -> by done. destruct (started p) eqn:Hst.
  - destruct (probe_finish_ok i _ TimedOut true _ E1 Hq1) as (Q & B & O & P).
    split; [|intros Hr; eexists; split; [exact P|cbn; by rewrite Hr]].
    apply (gate_ok_intro i p _ g _ Hp Hg Q (B Hb1) P); [|by apply (others_r i g g1)].
    clear - Pok Hst. by probe_fields p.
  - destruct (cancelled p) eqn:Hc.
    + assert (cancel i g1 = g1) as -> by (unfold cancel; rewrite E1; cbn; by rewrite Hc).
      destruct (probe_finish_ok i _ TimedOut true _ E1 Hq1) as (Q & B & O & P).
      split; [|intros Hr; eexists; split; [exact P|cbn; by rewrite Hr]].
      apply (gate_ok_intro i p _ g _ Hp Hg Q (B Hb1) P); [|by apply (others_r i g g1)].
      clear - Pok Hst. by probe_fields p.
    + assert (entered p = true) as He by (clear - Pok Ht; by probe_fields p).
      destruct (gate_cancel_ok i _ _ E1 Hc He Hq1 Hb1) as (Q1 & B1 & O1 & P1).
      destruct (probe_finish_ok i _ TimedOut true _ P1 Q1) as (Q & B & O & P).
      split; [|intros Hr; eexists; split; [exact P|destruct (granted (set_timer false p) && negb (released (set_timer false p))); cbn; by rewrite Hr]].
      apply (gate_ok_intro i p _ g _ Hp Hg Q (B B1) P); [|apply (others_r i g _ _ (others_l i g g1 _ E2 O1) O)].
      clear - Pok Hst Hc Ht. by probe_fields p.
Qed.

Lemma gstep_ok g g' : gstep g g' → gate_ok g → steps_to g g'.
Proof.
  intros [arm g0|i p g0 Hp Ht|i p g0 Hp Hg Hd|i p ok clears g0 Hp Ho].
  - apply boundedProbe_ok.
  - intros Hg. by apply (on_timer_ok i p).
  - by apply (on_granted_ok i p).
  - by apply (on_settled_ok i p).
Qed.
Lemma new_gate_ok : gate_ok new_gate.
Proof. split; [done| |by intros []]. split; try done. cbn. lia. Qed.
Lemma laterb_trans p q r : laterb p q = true → laterb q r = true → laterb p r = true.
Proof.
  unfold laterb, has_returned. intros [H1 H2]%andb_prop [H3 H4]%andb_prop. apply andb_true_intro. split.
  - destruct (returned p) eqn:Ep; [|done]. cbn in *. apply bool_decide_eq_true in H1. rewrite H1 in H3. cbn in H3.
    apply bool_decide_eq_true in H3. apply bool_decide_eq_true. congruence.
  - destruct (cancelled p); [|done]. cbn in *. apply andb_prop in H2 as [Hc H2%bool_decide_eq_true].
    rewrite Hc in H4. cbn in H4. apply andb_prop in H4 as [Hc' H4%bool_decide_eq_true]. rewrite Hc'. cbn.
    apply bool_decide_eq_true. congruence.
Qed.
Lemma gsteps_ok g g' : rtc gstep g g' → gate_ok g → steps_to g g'.
Proof.
  induction 1 as [g|g g1 g2 Hs _ IH]; intros Hg.
  - split; [done|]. intros j p Hj. exists p. split; [done|apply laterb_refl].
  - destruct (gstep_ok _ _ Hs Hg) as [Hg1 A1]. destruct (IH Hg1) as [Hg2 A2]. split; [done|]. intros j p Hj.
    destruct (A1 j p Hj) as (p1 & H1 & L1). destruct (A2 j p1 H1) as (p2 & H2 & L2). exists p2. split; [done|by eapply laterb_trans].
Qed.
Lemma indices_nil f ps : (∀ i p, ps !! i = Some p → f p = false) → indices f ps = [].
Proof.
  intros Hf. destruct (indices f ps) as [|i l] eqn:E; [done|].
  assert (i ∈ indices f ps) as Hi by (rewrite E; by left). apply elem_of_indices in Hi. unfold at_ in Hi.
  destruct (ps !! i) eqn:Hp; [|done]. by rewrite (Hf i _ Hp) in Hi.
Qed.
Lemma indices_le f h ps : (∀ i p, ps !! i = Some p → f p = true → h p = true) → (length (indices f ps) ≤ length (indices h ps))%nat.
Proof.
  intros Hf. apply submseteq_length, NoDup_submseteq; [apply indices_NoDup|]. intros i. rewrite !elem_of_indices.
  unfold at_. destruct (ps !! i) eqn:Hp; [|done]. by apply (Hf i).
Qed.

Definition executing (p : probe) : bool := bool_decide (operation p = Pending).

End gate.

(** Three probes on two slots: the third starts when an operation settles,
    although its probe has timed out before. *)
Definition contended : gate :=
  boundedProbe 2 Arms (boundedProbe 2 Arms (boundedProbe 2 Arms new_gate)).
Definition timed_out : gate := on_timer 2 0 (on_granted 2 0 contended).
Lemma timed_out_reachable : rtc (gstep 2) new_gate timed_out.
Proof.
  apply (rtc_l _ _ (boundedProbe 2 Arms new_gate)); [apply g_probe|].
  apply (rtc_l _ _ (boundedProbe 2 Arms (boundedProbe 2 Arms new_gate))); [apply g_probe|].
  apply (rtc_l _ _ contended); [apply g_probe|].
  apply (rtc_l _ _ (on_granted 2 0 contended)); [by eapply g_granted|]. apply rtc_once. by eapply g_timer.
Qed.
