(* ===== verification/AdminService.v ===== *)
(** The class [AdminService] of [apps/server/src/admin-service.ts]: the bounded
    table of lifecycle errors, and the snapshot of the running server, built
    once at a time by a few concurrent workers ([mapConcurrent]) whose probes
    go through the gate of [ProbeGate].

    What the sources of the snapshot answer is an input of the events:
    [None] stands for a throw (of a probe: a rejection, a timeout, or an answer
    of the wrong type).  A number is read as [option num], [None] when the
    source throws or it is not finite. *)
From S2P Require Import Prelude JsMap SafeString Json JsonText Double Tabs Settings Eligibility IsoDate Tmux Admin.
Open Scope Z_scope.

Definition HARD_MAX_SESSIONS : Z := 20.
Definition DEFAULT_PROBE_CONCURRENCY : Z := 4.
Definition MAX_PROBE_TIMEOUT_MS : Z := 60000.
Definition MAX_THRESHOLD_HOURS : Z := 8760.
Definition HOUR_MS : Z := 60 * 60 * 1000.
Definition MAX_DATE_MS : Z := 253402300799999.

Inductive AdminLifecycleError :=
| invalid_session_state | operation_failed | session_status_unavailable | cleanup_status_unavailable.
#[export] Instance lifecycle_error_eq_dec : EqDecision AdminLifecycleError.
Proof. solve_decision. Defined.
Definition error_name (e : AdminLifecycleError) : jsstr :=
  match e with
  | invalid_session_state => js "invalid_session_state"
  | operation_failed => js "operation_failed"
  | session_status_unavailable => js "session_status_unavailable"
  | cleanup_status_unavailable => js "cleanup_status_unavailable"
  end.

Record AdminServiceOptions := {
  maxSessions : Z;
  probeConcurrency : option Z;
  probeTimeoutMs : option Z;
}.
Definition concurrency (o : AdminServiceOptions) : Z := default DEFAULT_PROBE_CONCURRENCY (probeConcurrency o).
(** The checks of the constructor. *)
Definition valid_options (o : AdminServiceOptions) : bool :=
  (1 <=? maxSessions o) && (maxSessions o <=? HARD_MAX_SESSIONS) &&
  (1 <=? concurrency o) && (concurrency o <=? HARD_MAX_SESSIONS) &&
  match probeTimeoutMs o with
  | None => true
  | Some t => is_safe_integer t && (1 <=? t) && (t <=? MAX_PROBE_TIMEOUT_MS)
  end.

(** * Readings *)

(** [Number.isSafeInteger], on the decimal of a double. *)
Definition as_safe_integer (v : num) : option Z :=
  if (exponent v =? 0) && is_safe_integer (mantissa v) then Some (mantissa v) else None.
(** [Math.floor] *)
Definition floor (v : num) : Z :=
  if 0 <=? exponent v then mantissa v * 10 ^ exponent v else mantissa v / 10 ^ (- exponent v).

Definition safePid (value : option num) : option Z :=
  v ← value; n ← as_safe_integer v; if 0 <? n then Some n else None.
Definition safeEpoch (value : option num) : Z :=
  default 0 (v ← value; n ← as_safe_integer v; if (0 <=? n) && (n <=? MAX_DATE_MS) then Some n else None).
Definition safeNonnegativeInteger (value : option num) : Z :=
  match value with
  | Some v => if mantissa v <=? 0 then 0 else Z.min (floor v) MAX_SAFE_INTEGER
  | None => 0
  end.
Definition safeNonnegativeNumber (value : option num) : num :=
  match value with Some v => if 0 <=? mantissa v then v else Num 0 0 | None => Num 0 0 end.

(** [Date.parse]: the ISO format is the language's; what else it accepts is
    the implementation's. *)
Class DateParser := { date_parse_other : jsstr → option Z }.
Definition Date_parse `{DateParser} (s : jsstr) : option Z :=
  match parseUtcTimestamp s with Some ms => Some ms | None => date_parse_other s end.
(** [ms / 1_000], as the shortest decimal of the quotient. *)
Definition seconds (ms : Z) : option num := as_number (make_number ms (-3)).
Definition ageSeconds `{DateParser} (createdAt : jsstr) (now : Z) : num :=
  match Date_parse createdAt with
  | None => Num 0 0
  | Some created => safeNonnegativeNumber (seconds (now - created))
  end.
(** [new Date(Date.parse(value)).toISOString() === value] *)
Definition canonicalTimestamp (value : option jsstr) : option jsstr :=
  v ← value; match iso_ms v with Some _ => Some v | None => None end.

(** [BridgeRuntimeSnapshot], as far as it is read. *)
Record BridgeEntry := { be_sessionId : jsstr; be_attached : bool; be_pid : option num }.
Definition bridgeMap (entries : list BridgeEntry) : list (jsstr * option Z) :=
  foldl (λ m e, if negb (isSessionId (be_sessionId e)) || negb (be_attached e) then m
                else jm_set (be_sessionId e) (safePid (be_pid e)) m) [] entries.

(** * [mapConcurrent] *)

Section map.
Context {A R : Type}.
(** The shared [next], what each worker awaits, the results, and the indices
    for which the operation was called, in order. *)
Record mapping := Mapping {
  next : nat;
  workers : list (option (nat * A));
  results : list (option R);
  called : list nat;
}.
(** A worker's loop up to its next [await]; the operation begins with [first]. *)
Definition take_next (first : A) (k : nat) (m : mapping) : mapping :=
  if (next m <? length (results m))%nat
  then Mapping (S (next m)) (<[k := Some (next m, first)]> (workers m)) (results m) (called m ++ [next m])
  else Mapping (next m) (<[k := None]> (workers m)) (results m) (called m).
Definition mapConcurrent (first : A) (n : nat) (concurrency : nat) : mapping :=
  let w := Nat.min concurrency n in
  foldl (λ m k, take_next first k m) (Mapping 0 (replicate w None) (replicate n None) []) (seq 0 w).
(** The operation of worker [k] reaches its next [await], or returns. *)
Definition worker_awaits (k i : nat) (a : A) (m : mapping) : mapping :=
  Mapping (next m) (<[k := Some (i, a)]> (workers m)) (results m) (called m).
Definition worker_returns (first : A) (k i : nat) (r : R) (m : mapping) : mapping :=
  take_next first k (Mapping (next m) (workers m) (<[i := Some r]> (results m)) (called m)).
(** [Promise.all(workers)] has resolved. *)
Definition mapped (m : mapping) : bool := forallb (λ w, match w with None => true | Some _ => false end) (workers m).

Record mapping_ok (n : nat) (m : mapping) : Prop := {
  ok_length : length (results m) = n;
  ok_next : (next m ≤ n)%nat;
  ok_called : called m = seq 0 (next m);
  ok_result : ∀ i, is_Some (results m !! i ≫= id) ↔ (i < next m)%nat ∧ ∀ k a, workers m !! k ≠ Some (Some (i, a));
  ok_worker : ∀ k i a, workers m !! k = Some (Some (i, a)) → (i < next m)%nat;
  ok_unique : ∀ k k' i a a', workers m !! k = Some (Some (i, a)) → workers m !! k' = Some (Some (i, a')) → k = k';
}.
End map.
Arguments mapping : clear implicits.

(** * A row *)

Record RowHealth := { h_observedState : SessionState; h_cleanupEligible : bool; h_dependencyError : option AdminLifecycleError }.
(** What [readHealth] awaits. *)
Inductive health_wait := AwaitExists | AwaitEligible.

(** The arguments of [readHealth] that all rows share. *)
Record thresholds := { thresholdHours : Z; thresholdMs : Z; cutoffMs : Z }.
(** After the first probe: the row, or the second probe. *)
Definition after_exists (t : thresholds) (tab : TabRecord) (exists_ : option bool) : RowHealth + health_wait :=
  match exists_ with
  | None => inl {| h_observedState := unknown; h_cleanupEligible := false;
                   h_dependencyError := Some session_status_unavailable |}
  | Some b =>
      let observed := if b then running else state_stopped in
      if (0 <? thresholdHours t) && bool_decide (desiredState tab = active) && bool_decide (observed = running)
      then inr AwaitEligible
      else inl {| h_observedState := observed; h_cleanupEligible := false; h_dependencyError := None |}
  end.
Definition after_eligible (t : thresholds) (tab : TabRecord) (e : option EligibilitySnapshot) : RowHealth :=
  match e with
  | None => {| h_observedState := running; h_cleanupEligible := false;
               h_dependencyError := Some cleanup_status_unavailable |}
  | Some s => {| h_observedState := running;
      h_cleanupEligible := bool_decide (snap_id s = tab_id tab) && (snap_thresholdMs s =? thresholdMs t) &&
                           (snap_cutoffMs s =? cutoffMs t) && eligible s;
      h_dependencyError := None |}
  end.
(** [readHealth] as a whole, on the answers of its probes. *)
Definition readHealth (t : thresholds) (tab : TabRecord) (exists_ : option bool) (e : option EligibilitySnapshot) : RowHealth :=
  match after_exists t tab exists_ with inl h => h | inr _ => after_eligible t tab e end.

(** * The service *)

Record CleanupStatusReading := { cs_enabled : bool; cs_running : bool; cs_lastRunAt : option jsstr }.
(** What the sources answer when a snapshot begins. *)
Record readings := {
  r_now : option num;
  r_tabs : option (list TabRecord);
  r_bridges : list jsstr → option (list BridgeEntry);
  r_sockets : jsstr → option num;
  r_bridgeTotal : option num;
  r_socketTotal : option num;
  r_cleanup : option CleanupStatusReading;
  r_threshold : option num;
}.
(** The locals of [buildSnapshot] at its [await]. *)
Record building := {
  b_now : Z;
  b_tabs : list TabRecord;
  b_bridges : list (jsstr * option Z);
  b_sockets : list (jsstr * Z);
  b_bridgeTotal : Z;
  b_socketTotal : Z;
  b_cleanup : AdminCleanup;
  b_thresholds : thresholds;
  b_health : mapping health_wait RowHealth;
}.
Inductive in_flight := Building (b : building) | Settled (r : option AdminSnapshot).
Record service := Service {
  errors : list (jsstr * AdminLifecycleError);
  inFlightSnapshot : option in_flight;
  builds : nat;                                  (* the snapshots begun *)
  callers : list nat;                            (* for each call, its build *)
}.
Definition new_service : service := Service [] None 0 [].

Section service.
Context `{Platform, DateParser}.
Variable o : AdminServiceOptions.

(** ** The errors *)

Definition set_errors (m : list (jsstr * AdminLifecycleError)) (s : service) : service :=
  Service m (inFlightSnapshot s) (builds s) (callers s).
(** [while (size > maxSessions) delete the oldest] *)
Definition evict (m : list (jsstr * AdminLifecycleError)) : list (jsstr * AdminLifecycleError) :=
  drop (length m - Z.to_nat (maxSessions o)) m.
Definition recordLifecycleError (i : jsstr) (e : AdminLifecycleError) (s : service) : service :=
  if isSessionId i then set_errors (evict (jm_delete i (errors s) ++ [(i, e)])) s else s.
Definition clearLifecycleError (i : jsstr) (s : service) : service :=
  if isSessionId i then set_errors (jm_delete i (errors s)) s else s.
Definition lifecycleErrorCount (s : service) : nat := length (errors s).
Definition retainCurrentErrors (ids : list jsstr) (s : service) : service :=
  set_errors (filter (λ e, e.1 ∈ ids) (errors s)) s.

(** ** The readings of a snapshot *)

(** [[...tabs].sort((l, r) => l.position - r.position).slice(0, maxSessions)],
    a stable sort. *)
Fixpoint insert_tab (t : TabRecord) (l : list TabRecord) : list TabRecord :=
  match l with
  | [] => [t]
  | u :: l' => if position u <=? position t then u :: insert_tab t l' else t :: l
  end.
Definition orderedTabs (l : list TabRecord) : list TabRecord :=
  take (Z.to_nat (maxSessions o)) (foldl (λ acc t, insert_tab t acc) [] l).
Definition readBridgeEntries (e : option (list BridgeEntry)) : list BridgeEntry :=
  take (Z.to_nat (maxSessions o)) (default [] e).
Definition readSocketCounts (read : jsstr → option num) (ids : list jsstr) : list (jsstr * Z) :=
  foldl (λ m i, jm_set i (safeNonnegativeInteger (read i)) m) [] (take (Z.to_nat (maxSessions o)) ids).
Definition readCleanupThreshold (v : option num) : Z :=
  default 0 (v ← v; if (exponent v =? 0) && (0 <=? mantissa v) && (mantissa v <=? MAX_THRESHOLD_HOURS)
                    then Some (mantissa v) else None).
Definition readCleanupStatus (c : option CleanupStatusReading) : AdminCleanup :=
  match c with
  | Some c => {| cl_enabled := cs_enabled c; cl_running := cs_running c; cl_lastRunAt := canonicalTimestamp (cs_lastRunAt c) |}
  | None => {| cl_enabled := false; cl_running := false; cl_lastRunAt := None |}
  end.

(** [buildSnapshot] up to its [await]. *)
Definition begin_build (r : readings) (tabs : list TabRecord) : building :=
  let now := safeEpoch (r_now r) in
  let tabs := orderedTabs tabs in
  let tabIds := tab_id <$> tabs in
  let hours := readCleanupThreshold (r_threshold r) in
  {| b_now := now;
     b_tabs := tabs;
     b_bridges := bridgeMap (readBridgeEntries (r_bridges r tabIds));
     b_sockets := readSocketCounts (r_sockets r) tabIds;
     b_bridgeTotal := safeNonnegativeInteger (r_bridgeTotal r);
     b_socketTotal := safeNonnegativeInteger (r_socketTotal r);
     b_cleanup := readCleanupStatus (r_cleanup r);
     b_thresholds := {| thresholdHours := hours; thresholdMs := hours * HOUR_MS; cutoffMs := now - hours * HOUR_MS |};
     b_health := mapConcurrent AwaitExists (length tabs) (Z.to_nat (concurrency o)) |}.

Definition no_health : RowHealth :=
  {| h_observedState := unknown; h_cleanupEligible := false; h_dependencyError := Some session_status_unavailable |}.
Definition build_row (s : service) (b : building) (tab : TabRecord) (health : option RowHealth) : option AdminSessionRow :=
  let current := default no_health health in
  tmux ← tmuxSessionName (tab_id tab);
  Some {| row_id := tab_id tab;
     row_displayName := displayName tab;
     row_tmuxSessionName := tmux;
     row_desiredState := desiredState tab;
     row_observedState := h_observedState current;
     row_createdAt := createdAt tab;
     row_lastActivityAt := lastActivityAt tab;
     row_ageSeconds := ageSeconds (createdAt tab) (b_now b);
     row_connectedWebSockets := default 0 (jm_get (tab_id tab) (b_sockets b));
     row_bridgePid := default None (jm_get (tab_id tab) (b_bridges b));
     row_cleanupEligible := h_cleanupEligible current;
     row_lifecycleError := error_name <$> (match jm_get (tab_id tab) (errors s) with Some e => Some e | None => h_dependencyError current end) |}.
(** The rest of [buildSnapshot]; [None]: it throws. *)
Definition end_build (s : service) (b : building) (uptime : option num) (mem : option (option num * option num)) : option AdminSnapshot :=
  rows ← mapM (λ p, build_row s b p.1 p.2) (zip (b_tabs b) (results (b_health b)));
  at_ ← toISOString (b_now b);
  parseAdminSnapshot (snapshot_json
    {| generatedAt := iso_string at_;
       uptimeSeconds := safeNonnegativeNumber uptime;
       memory := match mem with
         | Some (rss, heap) => {| mem_rss := safeNonnegativeInteger rss; mem_heapUsed := safeNonnegativeInteger heap |}
         | None => {| mem_rss := 0; mem_heapUsed := 0 |}
         end;
       totals := {| tot_tabs := Z.of_nat (length rows);
                    tot_runningSessions := Z.of_nat (length (filter (λ r, row_observedState r = running) rows));
                    tot_bridges := b_bridgeTotal b; tot_webSockets := b_socketTotal b |};
       cleanup := b_cleanup b;
       sessions := rows |}).

(** ** The events *)

(** [snapshot()] *)
Definition snapshot (r : readings) (s : service) : service :=
  match inFlightSnapshot s with
  | Some _ => Service (errors s) (inFlightSnapshot s) (builds s) (callers s ++ [(builds s - 1)%nat])
  | None =>
      let s := Service (errors s) None (S (builds s)) (callers s ++ [builds s]) in
      match r_tabs r with
      | None => Service (errors s) (Some (Settled None)) (builds s) (callers s)
      | Some tabs =>
          let b := begin_build r tabs in
          let s := retainCurrentErrors (tab_id <$> b_tabs b) s in
          Service (errors s) (Some (Building b)) (builds s) (callers s)
      end
  end.
Definition with_health (m : mapping health_wait RowHealth) (b : building) : building :=
  {| b_now := b_now b; b_tabs := b_tabs b; b_bridges := b_bridges b; b_sockets := b_sockets b;
     b_bridgeTotal := b_bridgeTotal b; b_socketTotal := b_socketTotal b; b_cleanup := b_cleanup b;
     b_thresholds := b_thresholds b; b_health := m |}.
Definition in_build (f : building → building) (s : service) : service :=
  match inFlightSnapshot s with
  | Some (Building b) => Service (errors s) (Some (Building (f b))) (builds s) (callers s)
  | _ => s
  end.
(** The first probe of worker [k] settles, or the second one. *)
Definition on_exists (k : nat) (answer : option bool) (b : building) : building :=
  match workers (b_health b) !! k with
  | Some (Some (i, AwaitExists)) =>
      match b_tabs b !! i with
      | Some tab => match after_exists (b_thresholds b) tab answer with
                    | inl h => with_health (worker_returns AwaitExists k i h (b_health b)) b
                    | inr a => with_health (worker_awaits k i a (b_health b)) b
                    end
      | None => b
      end
  | _ => b
  end.
Definition on_eligible (k : nat) (answer : option EligibilitySnapshot) (b : building) : building :=
  match workers (b_health b) !! k with
  | Some (Some (i, AwaitEligible)) =>
      match b_tabs b !! i with
      | Some tab => with_health (worker_returns AwaitExists k i (after_eligible (b_thresholds b) tab answer) (b_health b)) b
      | None => b
      end
  | _ => b
  end.
(** After [await mapConcurrent(...)]. *)
Definition on_mapped (uptime : option num) (mem : option (option num * option num)) (s : service) : service :=
  match inFlightSnapshot s with
  | Some (Building b) =>
      if mapped (b_health b)
      then Service (errors s) (Some (Settled (end_build s b uptime mem))) (builds s) (callers s)
      else s
  | _ => s
  end.
Definition finishSnapshot (s : service) : service :=
  match inFlightSnapshot s with
  | Some (Settled _) => Service (errors s) None (builds s) (callers s)
  | _ => s
  end.

Inductive sstep : service → service → Prop :=
| a_snapshot r s : sstep s (snapshot r s)
| a_exists k a s : sstep s (in_build (on_exists k a) s)
| a_eligible k a s : sstep s (in_build (on_eligible k a) s)
| a_mapped u m s : sstep s (on_mapped u m s)
| a_finish s : sstep s (finishSnapshot s)
| a_record i e s : sstep s (recordLifecycleError i e s)
| a_clear i s : sstep s (clearLifecycleError i s).
End service.
