(* ===== verification/AdminFacts.v ===== *)
(** What [AdminService] keeps and answers: the errors it remembers, the work
    its workers do, and that its snapshots are always accepted by the schema
    of the wire. *)
From Stdlib Require Import Floats.SpecFloat Sorting.Sorted.
From S2P Require Import Prelude JsMap SafeString Json JsonText Double Tabs Settings SettingsFacts Eligibility IsoDate Tmux Admin ConfigFacts AdminService.
Open Scope Z_scope.

(** * The sign of a double *)

Lemma iter_pos_ind {A} (P : A → Prop) (f : A → A) p : (∀ a, P a → P (f a)) → ∀ a, P a → P (SpecFloat.iter_pos f p a).
Proof. intros Hf. induction p as [p IH|p IH|]; intros a Ha; cbn; auto. Qed.
Lemma shr_nonneg m e n : 0 <= shr_m m → 0 <= shr_m (shr m e n).1.
Proof.
  intros Hm. destruct n as [|p|p]; cbn; [done| |done]. apply iter_pos_ind; [|done].
  intros [[|[q|q|]|q] r s]; cbn; try done.
Qed.
Lemma round_sign mx ex lx : 0 <= mx →
  SFleb (S754_zero false) (binary_round_aux 53 1024 false mx ex lx) = true.
Proof.
  intros Hm. unfold binary_round_aux, shr_fexp.
  assert (∀ m l, 0 <= m → 0 <= shr_m (shr_record_of_loc m l)) as Hl by (intros m [|[]] ?; done).
  pose proof (shr_nonneg (shr_record_of_loc mx lx) ex (fexp 53 1024 (Zdigits2 mx + ex) - ex) (Hl _ _ Hm)) as H1.
  destruct (shr _ ex _) as [mrs e']. cbn in H1.
  assert (0 <= round_nearest_even (shr_m mrs) (loc_of_shr_record mrs)) as Hr.
  { unfold round_nearest_even. destruct (loc_of_shr_record mrs) as [|[]]; repeat case_match; lia. }
  set (m2 := round_nearest_even (shr_m mrs) (loc_of_shr_record mrs)) in *.
  pose proof (shr_nonneg (shr_record_of_loc m2 loc_Exact) e' (fexp 53 1024 (Zdigits2 m2 + e') - e') (Hl _ _ Hr)) as H2.
  destruct (shr (shr_record_of_loc m2 _) e' _) as [mrs' e'']. cbn in H2.
  destruct (shr_m mrs') as [|q|q]; [done| |lia]. by destruct (_ <=? _).
Qed.
Lemma num_nonneg (v : num) : 0 <= mantissa v → num_leb (Num 0 0) v = true.
Proof.
  intros Hm. unfold num_leb. change (to_double (Num 0 0)) with (S754_zero false). unfold to_double.
  destruct (Z.leb_spec 0 (exponent v)).
  - unfold binary_normalize. assert (0 <= mantissa v * 10 ^ exponent v) as Hp by (apply Z.mul_nonneg_nonneg; [done|by apply Z.pow_nonneg]).
    destruct (mantissa v * 10 ^ exponent v) as [|p|p]; [done| |lia].
    unfold binary_round. destruct (shl_align p 0 _) as [mz ez]. by apply round_sign.
  - destruct (mantissa v) as [|p|p]; [done| |lia]. unfold SFdiv.
    destruct (SFdiv_core_binary 53 1024 (Zpos p) 0 (Zpos (Z.to_pos (10 ^ (- exponent v)))) 0) as [[mz ez] lz] eqn:E.
    apply round_sign. unfold SFdiv_core_binary in E.
    set (s := 0 - 0 - _) in E. set (m' := match s with Z0 => _ | _ => _ end) in E.
    assert (0 <= m') as Hm' by (unfold m'; destruct s; [done|by apply Z.shiftl_nonneg|done]).
    pose proof (Z.div_pos m' (Zpos (Z.to_pos (10 ^ (- exponent v)))) Hm' eq_refl) as Hd.
    unfold Z.div in Hd. destruct (Z.div_eucl m' _) as [q r]. by injection E as <- _ _.
Qed.

(** * [mapConcurrent] *)

Section map.
Context {A R : Type} (first : A).
Implicit Type m : mapping A R.

(** A worker that awaits nothing takes the next value. *)
Lemma take_next_ok n k m : mapping_ok n m → (k < length (workers m))%nat →
  (∀ i a, workers m !! k ≠ Some (Some (i, a))) → mapping_ok n (take_next first k m).
Proof.
  intros [H1 H2 H3 H4 H5 H6] Hk Hn. unfold take_next. rewrite H1.
  assert (∀ (w : option (nat * A)) k', <[k := w]> (workers m) !! k' = if decide (k = k') then Some w else workers m !! k') as Hl.
  { intros w k'. case_decide; [subst; by apply list_lookup_insert_eq|by apply list_lookup_insert_ne]. }
  destruct (Nat.ltb_spec (next m) n) as [Hlt|Hge]; split; cbn [next workers results called]; try done.
  - by rewrite seq_S, H3.
  - intros i. rewrite H4. split.
    + intros [Hi Hw]. split; [lia|]. intros k' a. rewrite Hl. case_decide; [intros [= ? ?]; lia|apply Hw].
    + intros [Hi Hw]. assert (i ≠ next m) as Hne.
      { intros ->. apply (Hw k first). rewrite Hl. by rewrite decide_True. }
      split; [lia|]. intros k' a Hk'. apply (Hw k' a). rewrite Hl. case_decide; [subst; by apply Hn in Hk'|done].
  - intros k' i a. rewrite Hl. case_decide; [intros [= <- _]; lia|]. intros Hk'. specialize (H5 _ _ _ Hk'). lia.
  - intros k' k'' i a a'. rewrite !Hl. repeat case_decide; subst; try done.
    + intros [= <- _] Hk'. specialize (H5 _ _ _ Hk'). lia.
    + intros Hk' [= <- _]. specialize (H5 _ _ _ Hk'). lia.
    + apply H6.
  - intros i. rewrite H4. apply and_iff_compat_l. apply forall_proper; intros k'. apply forall_proper; intros a.
    rewrite Hl. case_decide; [subst; split; [done|intros _; apply Hn]|done].
  - intros k' i a. rewrite Hl. case_decide; [done|apply H5].
  - intros k' k'' i a a'. rewrite !Hl. repeat case_decide; try done. apply H6.
Qed.
Lemma worker_awaits_ok n k i a a' m : mapping_ok n m → workers m !! k = Some (Some (i, a)) →
  mapping_ok n (worker_awaits k i a' m).
Proof.
  intros [H1 H2 H3 H4 H5 H6] Hk.
  assert (∀ k' j b, <[k := Some (i, a')]> (workers m) !! k' = Some (Some (j, b)) → ∃ b', workers m !! k' = Some (Some (j, b'))) as Hl.
  { intros k' j b. destruct (decide (k = k')) as [<-|]; [|rewrite list_lookup_insert_ne by done; eauto].
    rewrite list_lookup_insert_eq by (by eapply lookup_lt_Some). intros [= <- <-]. eauto. }
  split; cbn; try done.
  - intros j. rewrite H4. apply and_iff_compat_l. split; intros Hj k' b Hk'.
    + apply Hl in Hk' as [b' ?]. by apply (Hj k' b').
    + destruct (decide (k = k')) as [<-|Hne].
      * apply (Hj k a'). rewrite list_lookup_insert_eq by (by eapply lookup_lt_Some). rewrite Hk in Hk'. by simplify_eq.
      * apply (Hj k' b). by rewrite list_lookup_insert_ne.
  - intros k' j b [b' Hk']%Hl. by apply (H5 k' j b').
  - intros k' k'' j b b' [c Hc]%Hl [c' Hc']%Hl. by apply (H6 k' k'' j c c').
Qed.
Lemma worker_returns_ok n k i a r m : mapping_ok n m → workers m !! k = Some (Some (i, a)) →
  mapping_ok n (worker_returns first k i r m).
Proof.
  intros Hm Hk. pose proof Hm as [H1 H2 H3 H4 H5 H6]. unfold worker_returns.
  set (m1 := Mapping (next m) (<[k := None]> (workers m)) (<[i := Some r]> (results m)) (called m)).
  assert (mapping_ok n m1) as Hm1.
  { assert (k < length (workers m))%nat as Hlk by (by eapply lookup_lt_Some).
    assert (i < length (results m))%nat as Hi by (rewrite H1; specialize (H5 _ _ _ Hk); lia).
    assert (∀ k' j b, <[k := None]> (workers m) !! k' = Some (Some (j, b)) ↔ k ≠ k' ∧ workers m !! k' = Some (Some (j, b))) as Hl.
    { intros k' j b. destruct (decide (k = k')) as [<-|]; [rewrite list_lookup_insert_eq by done; naive_solver|].
      rewrite list_lookup_insert_ne by done. naive_solver. }
    split; unfold m1; cbn; try done.
    - by rewrite length_insert.
    - intros j. destruct (decide (i = j)) as [<-|Hne].
      + rewrite list_lookup_insert_eq by done. cbn. split; [|by eauto]. intros _. split; [by apply (H5 k i a)|].
        intros k' b [Hn Hk']%Hl. by apply Hn, (H6 k k' i a b).
      + rewrite list_lookup_insert_ne by done. rewrite H4. apply and_iff_compat_l. split; intros Hj k' b Hk'.
        * apply Hl in Hk' as [_ ?]. by apply (Hj k' b).
        * apply (Hj k' b), Hl. split; [|done]. intros <-. congruence.
    - intros k' j b [_ Hk']%Hl. by apply (H5 k' j b).
    - intros k' k'' j b b' [_ Hc]%Hl [_ Hc']%Hl. by apply (H6 k' k'' j b b'). }
  assert (take_next first k (Mapping (next m) (workers m) (<[i := Some r]> (results m)) (called m)) = take_next first k m1) as ->.
  { unfold take_next, m1. cbn. by rewrite !list_insert_insert_eq. }
  apply take_next_ok; [done|unfold m1; cbn; rewrite length_insert; by eapply lookup_lt_Some|].
  intros j b. unfold m1. cbn. by rewrite list_lookup_insert_eq by (by eapply lookup_lt_Some).
Qed.
Lemma take_next_workers k k' m : k ≠ k' → workers (take_next first k m) !! k' = workers m !! k'.
Proof. intros Hk. unfold take_next. by case_match; apply list_lookup_insert_ne. Qed.
Lemma take_next_length k m : length (workers (take_next first k m)) = length (workers m) ∧
  length (results (take_next first k m)) = length (results m).
Proof. unfold take_next. by case_match; cbn; rewrite length_insert. Qed.

(** Of the first [p] workers, none idles while there are values left. *)
Definition busy (p : nat) m : Prop := ∀ k, (k < p)%nat → workers m !! k = Some None → (length (results m) ≤ next m)%nat.
Lemma take_next_busy p k m : busy p m → busy p (take_next first k m) ∧
  (k < length (workers m) → (workers (take_next first k m) !! k = Some None → length (results m) ≤ next m))%nat.
Proof.
  intros Hb. assert (k < length (workers m) → (workers (take_next first k m) !! k = Some None → length (results m) ≤ next m))%nat as Hk.
  { unfold take_next. intros Hk. destruct (Nat.ltb_spec (next m) (length (results m))); cbn; [|lia].
    by rewrite list_lookup_insert_eq. }
  split; [|done]. intros k' Hk' Hn. rewrite (proj2 (take_next_length k m)).
  assert (next m ≤ next (take_next first k m))%nat as Hle by (unfold take_next; case_match; cbn; lia).
  destruct (decide (k = k')) as [<-|Hne].
  - assert (k < length (workers m))%nat as Hl.
    { rewrite <-(proj1 (take_next_length k m)). by eapply lookup_lt_Some. }
    specialize (Hk Hl Hn). lia.
  - rewrite take_next_workers in Hn by done. specialize (Hb k' Hk' Hn). lia.
Qed.
Lemma mapConcurrent_ok n c : mapping_ok n (mapConcurrent first n c : mapping A R) ∧
  length (workers (mapConcurrent first n c : mapping A R)) = Nat.min c n ∧
  busy (Nat.min c n) (mapConcurrent first n c : mapping A R).
Proof.
  unfold mapConcurrent. set (w := Nat.min c n). set (m0 := Mapping 0 (replicate w None) (replicate n None) []).
  assert (∀ p, (p ≤ w)%nat → let m := foldl (λ m k, take_next first k m) m0 (seq 0 p) : mapping A R in
    mapping_ok n m ∧ length (workers m) = w ∧ busy p m ∧ ∀ k, (p ≤ k < w)%nat → workers m !! k = Some None) as H.
  { induction p as [|p IH]; intros Hp.
    - cbn. split_and!; try by rewrite length_replicate.
      + split; cbn; try done; try by rewrite length_replicate. { lia. }
        * intros i. split; [|lia]. intros [r Hr]. destruct (replicate n None !! i) eqn:E; [|done].
          apply lookup_replicate in E as [-> _]. done.
        * intros k i a [? _]%lookup_replicate. done.
        * intros k k' i a a' [? _]%lookup_replicate. done.
      + intros k. lia.
      + intros k Hk. apply lookup_replicate. split; [done|lia].
    - destruct IH as (Hm & Hl & Hb & Hr); [lia|]. rewrite seq_S, foldl_app. cbn [foldl Nat.add].
      set (m := foldl _ m0 (seq 0 p)) in *.
      destruct (take_next_busy p p m Hb) as [Hb' Hn]. split_and!.
      + apply take_next_ok; [done|lia|]. intros i a. rewrite Hr by lia. done.
      + by rewrite (proj1 (take_next_length p m)).
      + intros k Hk Hi. destruct (decide (k = p)) as [->|]; [|apply (Hb' k); [lia|done]].
        rewrite (proj2 (take_next_length p m)). rewrite Hl in Hn. specialize (Hn ltac:(lia) Hi).
        unfold take_next. case_match; cbn; lia.
      + intros k Hk. rewrite take_next_workers by lia. apply Hr. lia. }
  destruct (H w ltac:(lia)) as (? & ? & ? & _). split_and!; done.
Qed.
Lemma unmapped_worker m : mapped m = false → ∃ k w, workers m !! k = Some (Some w).
Proof.
  unfold mapped. induction (workers m) as [|[w|] l IH]; [done|intros _; by exists 0%nat, w|]. intros (k & w & Hk)%IH. by exists (S k), w.
Qed.
(** When all workers have ended, every value has its result. *)
Lemma mapped_results n m : mapping_ok n m → busy (length (workers m)) m → (n = 0 ∨ 0 < length (workers m))%nat → mapped m = true →
  called m = seq 0 n ∧ ∀ i, (i < n)%nat → is_Some (results m !! i ≫= id).
Proof.
  intros [H1 H2 H3 H4 H5 H6] Hb Hw Hm. unfold mapped in Hm. rewrite forallb_forall in Hm.
  assert (∀ k a i, workers m !! k ≠ Some (Some (i, a))) as Hnone.
  { intros k a i Hk. specialize (Hm (Some (i, a))). rewrite <-list_elem_of_In in Hm. by specialize (Hm (list_elem_of_lookup_2 _ _ _ Hk)). }
  assert (next m = n) as Hn.
  { destruct Hw as [->|Hw]; [lia|]. destruct (lookup_lt_is_Some_2 (workers m) 0%nat Hw) as [[[i a]|] Hk]; [by apply Hnone in Hk|].
    specialize (Hb 0%nat Hw Hk). lia. }
  rewrite H3, Hn. split; [done|]. intros i Hi. apply H4. split; [lia|]. intros k a. apply Hnone.
Qed.
End map.

(** * The wire *)

(** What the theorem on snapshots takes from Unicode and zod: ASCII text is in
    normal form, and the dates that [toISOString] prints are accepted. *)
Class WireLaws `{Platform} : Prop := {
  nfc_ascii : ∀ s, Forall (λ c, 0 <= c < 128) s → nfc s = s;
  iso_printed : ∀ ms, 0 <= ms <= MAX_DATE_MS → iso_datetime (iso_string ms) = true;
}.

Section wire.
Context `{WireLaws}.

Definition printable (s : jsstr) : bool := forallb (λ c, (32 <=? c) && (c <? 127)) s.
Lemma printable_ascii s : printable s = true → Forall (λ c, 0 <= c < 128) s.
Proof.
  unfold printable. intros Hp. apply Forall_forall. intros c Hc. rewrite forallb_forall in Hp.
  specialize (Hp c). rewrite <-list_elem_of_In in Hp. specialize (Hp Hc). breflect. lia.
Qed.
Lemma ascii_code_points s : Forall (λ c, 0 <= c < 128) s → code_points s = s.
Proof.
  induction 1 as [|c s Hc _ IH]; [done|]. assert (code_points (c :: s) = c :: code_points s) as ->; [|by rewrite IH].
  destruct s; [done|]. cbn. unfold is_high_surrogate. by rewrite (proj2 (Z.leb_gt _ _)) by lia.
Qed.
Lemma printable_safe o c : 32 <= c < 127 → safe_character o c = true.
Proof.
  intros Hc. unfold safe_character, forbiddenCharacterPattern, formatControlPattern, in_ranges.
  cbn -[Z.leb]. repeat match goal with |- context [(?a <=? c) && (c <=? ?b)] =>
    replace ((a <=? c) && (c <=? b)) with false
      by (symmetry; apply andb_false_iff; rewrite !Z.leb_gt; lia) end. done.
Qed.
Lemma printable_string s : printable s = true → (1 <= Z.of_nat (length s) <= 128) → boundedDisplayString 128 (JStr s) = Some s.
Proof.
  intros Hp Hl. pose proof (printable_ascii s Hp) as Ha. unfold boundedDisplayString. cbn [as_string mbind option_bind].
  unfold safeNormalizedString. cbn [opt_trim maxUtf8Bytes].
  rewrite nfc_ascii, ascii_code_points, utf8ByteLength_ascii by done.
  assert (forallb (safe_character {| maxUtf8Bytes := Some 128; opt_trim := false; allowJoinControls := false |}) s = true) as ->.
  { apply forallb_forall. intros c Hc%list_elem_of_In. unfold printable in Hp. rewrite forallb_forall in Hp.
    specialize (Hp c). rewrite <-list_elem_of_In in Hp. specialize (Hp Hc). apply printable_safe. breflect. lia. }
  cbn [negb]. rewrite (proj2 (Z.leb_le 1 _)) by lia. cbn [negb]. by rewrite (proj2 (Z.leb_le _ 128)) by lia.
Qed.
Lemma tmux_name_wire i n : tmuxSessionName i = Some n → boundedDisplayString 128 (JStr n) = Some n ∧ isSessionId i = true.
Proof.
  unfold tmuxSessionName. destruct (isSessionId i) eqn:Hi; [|done]. intros Hn. assert (n = js "webterm-tab-" ++ undashed i) as -> by congruence.
  clear Hn. split; [|done].
  destruct (isSessionId_groups i Hi) as (a & b & c & d & e & Hg). rewrite (undashed_groups _ _ _ _ _ _ Hg).
  destruct Hg as (_ & La & Lb & Lc & Ld & Le & Ha & Hb & Hc & Hd & He). apply printable_string.
  - unfold printable. rewrite !forallb_app. change (forallb _ (js "webterm-tab-")) with true. cbn [andb].
    assert (∀ s, hexes s → forallb (λ c, (32 <=? c) && (c <? 127)) s = true) as Hh.
    { induction 1 as [|x l Hx _ IH]; [done|]. cbn [forallb]. rewrite IH, andb_true_r. unfold is_lower_hex in Hx. clear - Hx. breflect.
      apply orb_true_iff in Hx. rewrite !andb_true_iff, !Z.leb_le in Hx. rewrite andb_true_iff, Z.leb_le, Z.ltb_lt. lia. }
    by rewrite !Hh.
  - rewrite !length_app, La, Lb, Lc, Ld, Le. done.
Qed.

Record row_ok (r : AdminSessionRow) : Prop := {
  row_id_ok : isSessionId (row_id r) = true;
  row_name_ok : persistedDisplayName (row_displayName r) = Some (row_displayName r);
  row_tmux_ok : boundedDisplayString 128 (JStr (row_tmuxSessionName r)) = Some (row_tmuxSessionName r);
  row_created_ok : iso_datetime (row_createdAt r) = true;
  row_activity_ok : iso_datetime (row_lastActivityAt r) = true;
  row_age_ok : 0 <= mantissa (row_ageSeconds r);
  row_sockets_ok : nonnegative_int (row_connectedWebSockets r) = true;
  row_pid_ok : ∀ p, row_bridgePid r = Some p → is_safe_integer p = true ∧ 0 < p;
  row_error_ok : ∀ e, row_lifecycleError r = Some e → boundedDisplayString 128 (JStr e) = Some e;
}.
Lemma number_wire v : 0 <= mantissa v → nonnegativeNumberSchema (num_json v) = Some v.
Proof.
  intros Hm. unfold nonnegativeNumberSchema. rewrite as_number_num_json. cbn [mbind option_bind].
  by rewrite num_nonneg.
Qed.
Lemma int_wire z : nonnegative_int z = true → nonnegativeIntegerSchema (JNum z) = Some z.
Proof. intros Hz. unfold nonnegativeIntegerSchema. cbn. by rewrite Hz. Qed.
Lemma desired_wire (d : DesiredState) : enum_schema (JStr (name d)) = Some d.
Proof. destruct d; vm_compute; reflexivity. Qed.
Lemma observed_wire (d : SessionState) : enum_schema (JStr (name d)) = Some d.
Proof. destruct d; vm_compute; reflexivity. Qed.
Lemma row_wire r : row_ok r → adminSessionRowSchema (row_json r) = Some r.
Proof.
  intros [H1 H2 H3 H4 H5 H6 H7 H8 H9]. unfold adminSessionRowSchema, row_json.
  rewrite <-(app_nil_r (zip _ _)), strict_zip; [|by apply Forall_forall|constructor].
  cbn [mbind option_bind]. rewrite app_nil_r.
  change (prop _ "id" idSchema) with (idSchema (JStr (row_id r))).
  change (prop _ "displayName" ?f) with (f (JStr (row_displayName r))).
  change (prop _ "tmuxSessionName" ?f) with (f (JStr (row_tmuxSessionName r))).
  change (prop _ "desiredState" ?f) with (f (JStr (name (row_desiredState r)))).
  change (prop _ "observedState" ?f) with (f (JStr (name (row_observedState r)))).
  change (prop _ "createdAt" ?f) with (f (JStr (row_createdAt r))).
  change (prop _ "lastActivityAt" ?f) with (f (JStr (row_lastActivityAt r))).
  change (prop _ "ageSeconds" ?f) with (f (num_json (row_ageSeconds r))).
  change (prop _ "connectedWebSockets" ?f) with (f (JNum (row_connectedWebSockets r))).
  change (prop _ "bridgePid" ?f) with (f (or_null JNum (row_bridgePid r))).
  change (prop _ "cleanupEligible" ?f) with (f (JBool (row_cleanupEligible r))).
  change (prop _ "lifecycleError" ?f) with (f (or_null JStr (row_lifecycleError r))).
  rewrite desired_wire, observed_wire, number_wire, int_wire by done.
  unfold idSchema, utcTimestampSchema. cbn [as_string mbind option_bind as_bool]. rewrite H1, H2, H4, H5, H3. cbn [mbind option_bind].
  assert (nullable positiveIntegerSchema (or_null JNum (row_bridgePid r)) = Some (row_bridgePid r)) as ->.
  { destruct (row_bridgePid r) as [p|]; [|done]. destruct (H8 p eq_refl) as [Hs Hp]. cbn. unfold positiveIntegerSchema. cbn.
    by rewrite Hs, (proj2 (Z.ltb_lt _ _)). }
  assert (nullable (boundedDisplayString 128) (or_null JStr (row_lifecycleError r)) = Some (row_lifecycleError r)) as ->.
  { destruct (row_lifecycleError r) as [e|]; [|done]. cbn [or_null nullable]. by rewrite H9. }
  cbn. by destruct r.
Qed.
End wire.

(** ** The whole snapshot *)

Record snapshot_ok `{Platform} (s : AdminSnapshot) : Prop := {
  sn_at : iso_datetime (generatedAt s) = true;
  sn_uptime : 0 <= mantissa (uptimeSeconds s);
  sn_memory : nonnegative_int (mem_rss (memory s)) = true ∧ nonnegative_int (mem_heapUsed (memory s)) = true;
  sn_totals : nonnegative_int (tot_tabs (totals s)) = true ∧ nonnegative_int (tot_runningSessions (totals s)) = true ∧
    nonnegative_int (tot_bridges (totals s)) = true ∧ nonnegative_int (tot_webSockets (totals s)) = true;
  sn_cleanup : ∀ v, cl_lastRunAt (cleanup s) = Some v → iso_datetime v = true;
  sn_rows : Forall row_ok (sessions s);
  sn_bound : (length (sessions s) ≤ 20)%nat;
}.
Lemma strict_full keys vs : strict_object keys (JObj (zip keys vs)) = Some (zip keys vs).
Proof. rewrite <-(app_nil_r (zip _ _)), strict_zip; [done|by apply Forall_forall|constructor]. Qed.
Lemma rows_wire `{WireLaws} l : Forall row_ok l → mapM adminSessionRowSchema (row_json <$> l) = Some l.
Proof.
  intros Hl. apply mapM_Some_2, Forall2_fmap_l, Forall2_same_length_lookup. split; [done|].
  intros i x y Hx Hy. simplify_eq. apply row_wire. by eapply Forall_lookup_1.
Qed.
Lemma snapshot_wire `{WireLaws} s : snapshot_ok s → parseAdminSnapshot (snapshot_json s) = Some s.
Proof.
  intros [H1 H2 [H3 H4] (H5 & H6 & H7 & H8) H9 H10 H11]. unfold parseAdminSnapshot, snapshot_json.
  rewrite strict_full. cbn [mbind option_bind].
  change (prop _ "generatedAt" ?f) with (f (JStr (generatedAt s))).
  change (prop _ "uptimeSeconds" ?f) with (f (num_json (uptimeSeconds s))).
  change (prop _ "memory" ?f) with (f (memory_json (memory s))).
  change (prop _ "totals" ?f) with (f (totals_json (totals s))).
  change (prop _ "cleanup" ?f) with (f (cleanup_json (cleanup s))).
  change (prop _ "sessions" (λ v, l ← as_array v; mapM adminSessionRowSchema l)) with
    (mapM adminSessionRowSchema (row_json <$> sessions s)).
  rewrite number_wire, rows_wire by done. unfold utcTimestampSchema. cbn [as_string mbind option_bind]. rewrite H1.
  assert (memorySchema (memory_json (memory s)) = Some (memory s)) as ->.
  { unfold memorySchema, memory_json.
    change (strict_object _ _) with (Some [(js "rss", JNum (mem_rss (memory s))); (js "heapUsed", JNum (mem_heapUsed (memory s)))]).
    cbn [mbind option_bind]. change (prop _ "rss" ?f) with (f (JNum (mem_rss (memory s)))).
    change (prop _ "heapUsed" ?f) with (f (JNum (mem_heapUsed (memory s)))).
    rewrite !int_wire by done. cbn. by destruct (memory s). }
  assert (totalsSchema (totals_json (totals s)) = Some (totals s)) as ->.
  { unfold totalsSchema, totals_json. change (strict_object _ ?v) with (match v with JObj fs => Some fs | _ => None end).
    cbn [mbind option_bind]. change (prop _ "tabs" ?f) with (f (JNum (tot_tabs (totals s)))).
    change (prop _ "runningSessions" ?f) with (f (JNum (tot_runningSessions (totals s)))).
    change (prop _ "bridges" ?f) with (f (JNum (tot_bridges (totals s)))).
    change (prop _ "webSockets" ?f) with (f (JNum (tot_webSockets (totals s)))).
    rewrite !int_wire by done. cbn. by destruct (totals s). }
  assert (cleanupSchema (cleanup_json (cleanup s)) = Some (cleanup s)) as ->.
  { unfold cleanupSchema, cleanup_json. change (strict_object _ ?v) with (match v with JObj fs => Some fs | _ => None end).
    cbn [mbind option_bind]. change (prop _ "enabled" ?f) with (f (JBool (cl_enabled (cleanup s)))).
    change (prop _ "running" ?f) with (f (JBool (cl_running (cleanup s)))).
    change (prop _ "lastRunAt" ?f) with (f (or_null JStr (cl_lastRunAt (cleanup s)))). cbn [as_bool mbind option_bind].
    assert (nullable utcTimestampSchema (or_null JStr (cl_lastRunAt (cleanup s))) = Some (cl_lastRunAt (cleanup s))) as ->.
    { destruct (cl_lastRunAt (cleanup s)) as [v|] eqn:Hv; [|done]. cbn. unfold utcTimestampSchema. cbn. by rewrite H9. }
    cbn. by destruct (cleanup s). }
  cbn [mbind option_bind]. assert ((length (sessions s) <=? 20)%nat = true) as -> by by apply Nat.leb_le. by destruct s.
Qed.

(** ** The readings are in range *)

Lemma floor_nonneg v : 0 < mantissa v → 0 <= floor v.
Proof.
  intros Hv. unfold floor. destruct (Z.leb_spec 0 (exponent v)).
  - apply Z.mul_nonneg_nonneg; [lia|by apply Z.pow_nonneg].
  - apply Z.div_pos; [lia|]. apply Z.pow_pos_nonneg; lia.
Qed.
Lemma safeNonnegativeInteger_ok v : nonnegative_int (safeNonnegativeInteger v) = true.
Proof.
  unfold safeNonnegativeInteger. destruct v as [v|]; [|done]. destruct (Z.leb_spec (mantissa v) 0); [done|].
  pose proof (floor_nonneg v ltac:(lia)). unfold nonnegative_int, is_safe_integer. rewrite !andb_true_iff, !Z.leb_le.
  unfold MAX_SAFE_INTEGER. lia.
Qed.
Lemma safeNonnegativeNumber_ok v : 0 <= mantissa (safeNonnegativeNumber v).
Proof. unfold safeNonnegativeNumber. destruct v as [v|]; [|done]. destruct (Z.leb_spec 0 (mantissa v)); done. Qed.
Lemma safePid_ok v p : safePid v = Some p → is_safe_integer p = true ∧ 0 < p.
Proof.
  unfold safePid, as_safe_integer. intros (x & _ & (n & Hn & Hp)%bind_Some)%bind_Some.
  destruct (_ && _) eqn:E; [|done]. injection Hn as <-. breflect. destruct (Z.ltb_spec 0 (mantissa x)); [|done].
  injection Hp as <-. done.
Qed.
Lemma ageSeconds_ok `{DateParser} s now : 0 <= mantissa (ageSeconds s now).
Proof. unfold ageSeconds. destruct (Date_parse s); [apply safeNonnegativeNumber_ok|done]. Qed.
Lemma safeEpoch_ok v : 0 <= safeEpoch v <= MAX_DATE_MS.
Proof.
  unfold safeEpoch, MAX_DATE_MS. destruct v as [v|]; [|cbn; lia]. cbn [mbind option_bind]. unfold as_safe_integer.
  destruct (_ && _); [|cbn; lia]. cbn [mbind option_bind]. destruct (_ && _) eqn:E; [|cbn; lia]. breflect. cbn. lia.
Qed.
Lemma foldl_set_ok {V} (P : V → Prop) {B} (f : B → option (jsstr * V)) l m :
  (∀ k v, jm_get k m = Some v → P v) → (∀ b k v, b ∈ l → f b = Some (k, v) → P v) →
  ∀ k v, jm_get k (foldl (λ m b, match f b with Some (k, v) => jm_set k v m | None => m end) m l) = Some v → P v.
Proof.
  revert m. induction l as [|b l IH]; intros m Hm Hf; [done|]. cbn. apply IH; [|intros; eapply Hf; [by right|done]].
  destruct (f b) as [[k v]|] eqn:E; [|done]. intros k' v'. rewrite jm_get_set. case_decide; [|apply Hm].
  intros [= <-]. eapply Hf; [by left|done].
Qed.
Lemma bridgeMap_ok es k p : jm_get k (bridgeMap es) = Some (Some p) → is_safe_integer p = true ∧ 0 < p.
Proof.
  unfold bridgeMap. intros Hk.
  refine (foldl_set_ok (λ v, ∀ p, v = Some p → is_safe_integer p = true ∧ 0 < p)
    (λ e, if negb (isSessionId (be_sessionId e)) || negb (be_attached e) then None
          else Some (be_sessionId e, safePid (be_pid e))) es [] _ _ k (Some p) _ p eq_refl); [done| |].
  - intros b j v _. case_match; [done|]. intros [= _ <-] q. apply safePid_ok.
  - rewrite <-Hk. f_equal. generalize (@nil (jsstr * option Z)). clear Hk. induction es as [|e es IH]; intros m; [done|]. cbn [foldl].
    rewrite <-IH. f_equal. by destruct (_ || _).
Qed.
Lemma socket_counts_ok o read ids k n : jm_get k (readSocketCounts o read ids) = Some n → nonnegative_int n = true.
Proof.
  unfold readSocketCounts. intros Hk.
  refine (foldl_set_ok (λ n, nonnegative_int n = true) (λ i, Some (i, safeNonnegativeInteger (read i)))
    (take (Z.to_nat (maxSessions o)) ids) [] _ _ k n Hk); [done|].
  intros b j v _ [= _ <-]. apply safeNonnegativeInteger_ok.
Qed.

(** * The order of the rows *)

Definition by_position (t u : TabRecord) : Prop := position t <= position u.
Lemma insert_tab_ok t l : Sorted by_position l →
  Sorted by_position (insert_tab t l) ∧ insert_tab t l ≡ₚ t :: l.
Proof.
  induction l as [|u l IH]; intros Hs; cbn; [by repeat constructor|].
  destruct (Z.leb_spec (position u) (position t)) as [Hle|Hlt].
  - apply Sorted_inv in Hs as [Hs Hh]. destruct (IH Hs) as [Hs' Hp]. split.
    + constructor; [done|]. destruct l as [|v l]; cbn; [by constructor|].
      destruct (Z.leb_spec (position v) (position t)); constructor; [by inversion Hh|done].
    + rewrite Hp. constructor.
  - split; [|done]. constructor; [done|]. constructor. unfold by_position. lia.
Qed.
Lemma orderedTabs_ok o l : Sorted by_position (orderedTabs o l) ∧
  (∃ rest, orderedTabs o l ++ rest ≡ₚ l) ∧ (length (orderedTabs o l) ≤ Z.to_nat (maxSessions o))%nat.
Proof.
  unfold orderedTabs. assert (∀ acc, Sorted by_position acc →
    Sorted by_position (foldl (λ acc t, insert_tab t acc) acc l) ∧ foldl (λ acc t, insert_tab t acc) acc l ≡ₚ l ++ acc) as H.
  { induction l as [|t l IH]; intros acc Ha; [done|]. cbn [foldl]. destruct (insert_tab_ok t acc Ha) as [Hs Hp].
    destruct (IH _ Hs) as [Hs' Hp']. split; [done|]. rewrite Hp', Hp. by rewrite <-Permutation_middle. }
  destruct (H [] ltac:(constructor)) as [Hs Hp]. rewrite app_nil_r in Hp.
  set (s := foldl _ [] l) in *. split_and!.
  - clear - Hs. generalize (Z.to_nat (maxSessions o)). induction Hs as [|t s Hs IH Hh]; intros [|n]; cbn; try by constructor.
    constructor; [apply IH|]. destruct Hh as [|u s Hu]; [by destruct n|]. destruct n; cbn; by constructor.
  - exists (drop (Z.to_nat (maxSessions o)) s). by rewrite take_drop.
  - rewrite length_take. lia.
Qed.

(** * The service *)

Section service.
Context `{Platform, DateParser}.
Variable o : AdminServiceOptions.
Hypothesis valid : valid_options o = true.
Lemma options_range : 1 <= maxSessions o <= 20 ∧ 1 <= concurrency o <= 20.
Proof. revert valid. unfold valid_options, HARD_MAX_SESSIONS. intros Hv. breflect. lia. Qed.

Record errors_ok (m : list (jsstr * AdminLifecycleError)) : Prop := {
  e_wf : jm_wf m;
  e_bound : (length m ≤ Z.to_nat (maxSessions o))%nat;
  e_ids : Forall (λ e, isSessionId e.1 = true) m;
}.
(** The results of a build are the rows' health, and each worker is where its
    answers have led it. *)
Record building_ok (b : building) : Prop := {
  b_from : ∃ r tabs, r_tabs r = Some tabs ∧ b = with_health (b_health b) (begin_build o r tabs);
  b_mapping : mapping_ok (length (b_tabs b)) (b_health b);
  b_workers : length (workers (b_health b)) = Nat.min (Z.to_nat (concurrency o)) (length (b_tabs b));
  b_busy : busy (length (workers (b_health b))) (b_health b);
  b_results : ∀ i h, results (b_health b) !! i = Some (Some h) →
    ∃ tab e el, b_tabs b !! i = Some tab ∧ h = readHealth (b_thresholds b) tab e el;
  b_eligible : ∀ k i, workers (b_health b) !! k = Some (Some (i, AwaitEligible)) →
    ∃ tab e, b_tabs b !! i = Some tab ∧ after_exists (b_thresholds b) tab e = inr AwaitEligible;
}.
Record service_ok (s : service) : Prop := {
  s_errors : errors_ok (errors s);
  s_building : ∀ b, inFlightSnapshot s = Some (Building b) → building_ok b;
  s_builds : is_Some (inFlightSnapshot s) → (0 < builds s)%nat;
}.

Lemma filter_Forall {A} (Q P : A → Prop) `{∀ x, Decision (P x)} (l : list A) : Forall Q l → Forall Q (filter P l).
Proof. intros Hq. apply Forall_forall. intros x [_ Hx]%list_elem_of_filter. exact (proj1 (Forall_forall _ _) Hq x Hx). Qed.
Lemma filter_errors_ok (P : jsstr * AdminLifecycleError → Prop) `{∀ x, Decision (P x)} m : errors_ok m → errors_ok (filter P m).
Proof.
  intros [E1 E2 E3]. split.
  - unfold jm_wf in *. clear - E1. induction m as [|[k v] m IH]; [done|]. apply NoDup_cons in E1 as [Hk E1].
    rewrite filter_cons. case_decide; [|by apply IH]. cbn. apply NoDup_cons. split; [|by apply IH].
    intros (x & -> & Hx)%list_elem_of_fmap. apply Hk. apply list_elem_of_filter in Hx as [_ Hx]. by apply (list_elem_of_fmap_2 fst) in Hx.
  - pose proof (length_filter P m). lia.
  - by apply filter_Forall.
Qed.
Lemma drop_errors_ok n m : jm_wf m → Forall (λ e, isSessionId e.1 = true) m →
  (length m - n ≤ Z.to_nat (maxSessions o))%nat → errors_ok (drop n m).
Proof.
  intros H1 H2 H3. split.
  - unfold jm_wf in *. rewrite fmap_drop. rewrite <-(take_drop n m.*1) in H1. by apply NoDup_app in H1 as (_ & _ & ?).
  - by rewrite length_drop.
  - by apply Forall_drop.
Qed.
Lemma record_ok i e s : errors_ok (errors s) → errors_ok (errors (recordLifecycleError o i e s)).
Proof.
  intros [H1 H2 H3]. unfold recordLifecycleError. destruct (isSessionId i) eqn:Hi; [|by split]. cbn.
  apply drop_errors_ok.
  - unfold jm_wf. rewrite fmap_app. apply NoDup_app. split_and!; [by apply jm_delete_wf| |apply NoDup_singleton].
    intros k Hk ->%list_elem_of_singleton. apply (jm_get_None i (jm_delete i (errors s))); [apply jm_get_delete_eq|done].
  - apply Forall_app. split; [|by repeat constructor]. by apply filter_Forall.
  - lia.
Qed.

Lemma worker_length {A R} (first : A) k i r (m : mapping A R) :
  length (workers (worker_returns first k i r m)) = length (workers m).
Proof. unfold worker_returns. by rewrite (proj1 (take_next_length _ _ _)). Qed.
Lemma worker_returns_busy {A R} (first : A) p k i r (m : mapping A R) : busy p m → busy p (worker_returns first k i r m).
Proof.
  intros Hb. unfold worker_returns. apply take_next_busy. intros k' Hk' Hn. cbn in *. rewrite length_insert. by apply (Hb k').
Qed.
Lemma worker_awaits_busy {A R} p k i (a : A) (m : mapping A R) : busy p m → busy p (worker_awaits k i a m).
Proof.
  intros Hb k' Hk' Hn. cbn in *. apply (Hb k' Hk'). destruct (decide (k = k')) as [<-|]; [|by rewrite list_lookup_insert_ne in Hn].
  assert (k < length (workers m))%nat by (rewrite <-(length_insert (workers m) k (Some (i, a))); by eapply lookup_lt_Some).
  by rewrite list_lookup_insert_eq in Hn.
Qed.
(** Returning from worker [k] adds one result, and its next value starts with
    the first probe. *)
Lemma worker_returns_results k i h (m : mapping health_wait RowHealth) j h' :
  results (worker_returns AwaitExists k i h m) !! j = Some (Some h') →
  (j = i ∧ h' = h) ∨ results m !! j = Some (Some h').
Proof.
  unfold worker_returns, take_next. intros Hj. assert (<[i := Some h]> (results m) !! j = Some (Some h')) as Hi by by case_match.
  apply list_lookup_insert_Some in Hi as [(-> & [= ->] & _)|[_ ?]]; [by left|by right].
Qed.
Lemma worker_returns_eligible k i h (m : mapping health_wait RowHealth) k' j :
  workers (worker_returns AwaitExists k i h m) !! k' = Some (Some (j, AwaitEligible)) →
  workers m !! k' = Some (Some (j, AwaitEligible)).
Proof.
  unfold worker_returns, take_next. case_match; cbn; intros [(_ & ? & _)|[_ ?]]%list_lookup_insert_Some; done.
Qed.
Lemma returns_ok b k i a tab h : building_ok b → workers (b_health b) !! k = Some (Some (i, a)) → b_tabs b !! i = Some tab →
  (∃ e el, h = readHealth (b_thresholds b) tab e el) → building_ok (with_health (worker_returns AwaitExists k i h (b_health b)) b).
Proof.
  intros [H1 H2 H3 H4 H5 H6] Hk Ht (e & el & Hh). split; cbn.
  - destruct H1 as (r & tabs & ? & E). exists r, tabs. split; [done|]. rewrite E. done.
  - by eapply worker_returns_ok.
  - by rewrite worker_length.
  - rewrite worker_length. by apply worker_returns_busy.
  - intros j h' [[-> ->]|Hj]%worker_returns_results; [by exists tab, e, el|by apply H5].
  - intros k' j Hj%worker_returns_eligible. by apply (H6 k').
Qed.
Lemma on_exists_ok k answer b : building_ok b → building_ok (on_exists k answer b).
Proof.
  intros Hb. unfold on_exists. destruct (workers (b_health b) !! k) as [[[i []]|]|] eqn:Hk; try done.
  destruct (b_tabs b !! i) as [tab|] eqn:Ht; [|done].
  destruct (after_exists (b_thresholds b) tab answer) as [h|a] eqn:Ha.
  - apply (returns_ok b k i AwaitExists tab); try done. exists answer, None. unfold readHealth. by rewrite Ha.
  - assert (a = AwaitEligible) as -> by (unfold after_exists in Ha; repeat case_match; congruence).
    destruct Hb as [H1 H2 H3 H4 H5 H6]. split; cbn.
    + destruct H1 as (r & tabs & ? & E). exists r, tabs. split; [done|]. rewrite E. done.
    + by eapply worker_awaits_ok.
    + by rewrite length_insert.
    + rewrite length_insert. by apply worker_awaits_busy.
    + done.
    + intros k' j [(-> & [= ->] & _)|[_ Hj]]%list_lookup_insert_Some; [by exists tab, answer|by apply (H6 k')].
Qed.
Lemma on_eligible_ok k answer b : building_ok b → building_ok (on_eligible k answer b).
Proof.
  intros Hb. unfold on_eligible. destruct (workers (b_health b) !! k) as [[[i []]|]|] eqn:Hk; try done.
  destruct (b_tabs b !! i) as [tab|] eqn:Ht; [|done]. apply (returns_ok b k i AwaitEligible tab); try done.
  destruct (b_eligible b Hb k i Hk) as (tab' & e & Ht' & He). simplify_eq. exists e, answer. unfold readHealth. by rewrite He.
Qed.
Lemma begin_build_ok r tabs : r_tabs r = Some tabs → building_ok (begin_build o r tabs).
Proof.
  intros Hr. pose proof options_range as [_ Hc].
  destruct (mapConcurrent_ok (A := health_wait) (R := RowHealth) AwaitExists (length (orderedTabs o tabs)) (Z.to_nat (concurrency o))) as (Hm & Hl & Hb).
  split; cbn.
  - by exists r, tabs.
  - done.
  - by rewrite Hl.
  - by rewrite Hl.
  - intros i h Hi. exfalso. assert (∀ l (m : mapping health_wait RowHealth), results (foldl (λ m k, take_next AwaitExists k m) m l) = results m) as Hres.
    { induction l as [|k l IH]; intros m; [done|]. cbn. rewrite IH. unfold take_next. by case_match. }
    unfold mapConcurrent in Hi. rewrite Hres in Hi. cbn in Hi. by apply lookup_replicate in Hi as [? _].
  - intros k i Hk. exfalso. assert (∀ l (m : mapping health_wait RowHealth), (∀ k i, workers m !! k ≠ Some (Some (i, AwaitEligible))) →
      ∀ k i, workers (foldl (λ m k, take_next AwaitExists k m) m l) !! k ≠ Some (Some (i, AwaitEligible))) as Hw.
    { induction l as [|k0 l IH]; intros m Hmm; [done|]. cbn. apply IH. intros k1 i1.
      unfold take_next. case_match; cbn; intros [(_ & ? & _)|[_ ?]]%list_lookup_insert_Some; try done; by eapply Hmm. }
    unfold mapConcurrent in Hk. revert Hk. apply Hw. intros k1 i1 [? _]%lookup_replicate. done.
Qed.
Lemma in_build_ok f s : (∀ b, building_ok b → building_ok (f b)) → service_ok s → service_ok (in_build f s).
Proof.
  intros Hf Hs. pose proof Hs as [H1 H2 H3]. unfold in_build. destruct (inFlightSnapshot s) as [[b|]|] eqn:E; [|done..].
  split; cbn; [done| |intros _; by apply H3]. intros b' [= <-]. apply Hf. by apply H2.
Qed.
Lemma admin_step_ok s s' : sstep o s s' → service_ok s → service_ok s'.
Proof.
  intros [r s0|k a s0|k a s0|u m s0|s0|i e s0|i s0] Hs; pose proof Hs as [S1 S2 S3].
  - unfold snapshot. destruct (inFlightSnapshot s0) as [f|] eqn:E.
    + split; cbn; rewrite ?E; [done|by intros b [= ->]; apply S2|intros _; by apply S3].
    + destruct (r_tabs r) as [tabs|] eqn:Ht; split; cbn; try done; try lia.
      * by apply filter_errors_ok.
      * intros b [= <-]. by apply begin_build_ok.
  - apply in_build_ok; [intros; by apply on_exists_ok|done].
  - apply in_build_ok; [intros; by apply on_eligible_ok|done].
  - unfold on_mapped. destruct (inFlightSnapshot s0) as [[b|]|] eqn:E; try done. case_match; [|done].
    split; cbn; [done..|]. intros _. by apply S3.
  - unfold finishSnapshot. destruct (inFlightSnapshot s0) as [[b|]|] eqn:E; try done. by split; cbn; try done; intros [? ?].
  - split; [by apply record_ok| |]; unfold recordLifecycleError; by case_match.
  - unfold clearLifecycleError. case_match; [|done]. split; cbn; [|done..]. by apply filter_errors_ok.
Qed.
Lemma admin_steps_ok s s' : rtc (sstep o) s s' → service_ok s → service_ok s'.
Proof. induction 1 as [|? ? ? Hs ? IH]; [done|]. intros Hl. by apply IH, (admin_step_ok _ _ Hs). Qed.
Lemma new_service_ok : service_ok new_service.
Proof. split; cbn; [split; cbn; [constructor|lia|constructor]|done|by intros [? ?]]. Qed.
End service.

(** ** The end of a build *)

(** What the snapshot needs of its sources: the tabs of a parsed document, and
    the start of a cleanup run in the years 0 to 9999. *)
Definition accepted_tab `{Platform} (t : TabRecord) : Prop := tabRecordSchema t = Some t.
Definition wire_ready `{Platform} (b : building) : Prop :=
  Forall accepted_tab (b_tabs b) ∧
  ∀ v ms, cl_lastRunAt (b_cleanup b) = Some v → iso_ms v = Some ms → 0 <= ms <= MAX_DATE_MS.
Definition lifecycle_error_of (s : service) (t : TabRecord) (h : RowHealth) : option AdminLifecycleError :=
  match jm_get (tab_id t) (errors s) with Some e => Some e | None => h_dependencyError h end.

Lemma error_wire `{WireLaws} e : boundedDisplayString 128 (JStr (error_name e)) = Some (error_name e).
Proof. apply printable_string; destruct e; done. Qed.
Lemma build_row_ok `{WireLaws, DateParser} o s b r tabs t h : b = with_health (b_health b) (begin_build o r tabs) →
  accepted_tab t → ∃ row, build_row s b t (Some h) = Some row ∧ row_ok row ∧ row_id row = tab_id t ∧
    row_observedState row = h_observedState h ∧ row_cleanupEligible row = h_cleanupEligible h ∧
    row_lifecycleError row = error_name <$> lifecycle_error_of s t h.
Proof.
  intros Hb Ha. apply tabRecordSchema_Some in Ha as (n & Hn & Ht & Hid & _ & Hc & Hl).
  assert (displayName t = n) as En by (rewrite Ht; done). unfold build_row. cbn [default].
  destruct (tmuxSessionName (tab_id t)) as [tm|] eqn:Htm; [|unfold tmuxSessionName in Htm; by rewrite Hid in Htm].
  destruct (tmux_name_wire _ _ Htm) as [Htw _]. cbn [mbind option_bind]. eexists. split; [done|]. split; [|done].
  split; cbn; try done.
  - by rewrite Hn, En.
  - apply ageSeconds_ok.
  - destruct (jm_get (tab_id t) (b_sockets b)) as [k|] eqn:E; [|done]. rewrite Hb in E. cbn in E. by apply socket_counts_ok in E.
  - intros p Hp. destruct (jm_get (tab_id t) (b_bridges b)) as [q|] eqn:E; [|done]. cbn in Hp. subst q.
    rewrite Hb in E. cbn in E. by apply bridgeMap_ok in E.
  - intros e He. unfold lifecycle_error_of in *. destruct (match jm_get _ _ with Some _ => _ | None => _ end); [|done].
    injection He as <-. apply error_wire.
Qed.
Lemma rows_ok `{WireLaws, DateParser} o s b r tabs hs : b = with_health (b_health b) (begin_build o r tabs) →
  Forall accepted_tab (b_tabs b) → length hs = length (b_tabs b) → (∀ i, (i < length hs)%nat → is_Some (hs !! i ≫= id)) →
  ∃ rows, mapM (λ p, build_row s b p.1 p.2) (zip (b_tabs b) hs) = Some rows ∧ Forall row_ok rows ∧ length rows = length (b_tabs b) ∧
    ∀ i row, rows !! i = Some row → ∃ t h, b_tabs b !! i = Some t ∧ hs !! i = Some (Some h) ∧ row_id row = tab_id t ∧
      row_observedState row = h_observedState h ∧ row_cleanupEligible row = h_cleanupEligible h ∧
      row_lifecycleError row = error_name <$> lifecycle_error_of s t h.
Proof.
  intros Hb. generalize (b_tabs b) as ts. intros ts. revert hs. induction ts as [|t ts IH]; intros hs Ha Hl Hs.
  - destruct hs; [|done]. exists []. by split_and!.
  - destruct hs as [|h hs]; [done|]. apply Forall_cons in Ha as [Ht Ha].
    destruct (Hs 0%nat ltac:(cbn; lia)) as [h' Hh]. cbn in Hh. subst h.
    destruct (IH hs Ha ltac:(by injection Hl) ltac:(intros i Hi; apply (Hs (S i)); cbn; lia)) as (rows & Hm & Hf & Hlr & Hr).
    destruct (build_row_ok o s b r tabs t h' Hb Ht) as (row & Hrow & Hok & Hrest).
    exists (row :: rows). cbn. rewrite Hrow. cbn. rewrite Hm. split_and!; [done|by constructor|by rewrite Hlr|].
    intros [|i] x Hx; cbn in Hx; [injection Hx as <-; by exists t, h'|by apply Hr].
Qed.
Lemma length_filter_le {A} (P : A → Prop) `{∀ x, Decision (P x)} (l : list A) : (length (filter P l) ≤ length l)%nat.
Proof. apply length_filter. Qed.
Lemma small_int n : (n ≤ 20)%nat → nonnegative_int (Z.of_nat n) = true.
Proof. intros Hn. unfold nonnegative_int, is_safe_integer, MAX_SAFE_INTEGER. rewrite !andb_true_iff, !Z.leb_le. lia. Qed.

Lemma end_build_ok `{WireLaws, DateParser} o s b uptime mem : valid_options o = true → building_ok o b → wire_ready b →
  mapped (b_health b) = true → ∃ sn, end_build s b uptime mem = Some sn ∧ length (sessions sn) = length (b_tabs b) ∧
    tot_tabs (totals sn) = Z.of_nat (length (b_tabs b)) ∧
    ∀ i row, sessions sn !! i = Some row → ∃ t e el, b_tabs b !! i = Some t ∧ row_id row = tab_id t ∧
      let h := readHealth (b_thresholds b) t e el in
      row_observedState row = h_observedState h ∧ row_cleanupEligible row = h_cleanupEligible h ∧
      row_lifecycleError row = error_name <$> lifecycle_error_of s t h.
Proof.
  intros Hv [(r & tabs & Hr & Hb) Hm Hw Hbu Hres _] [Ha Hrun] Hmap.
  pose proof (options_range o Hv) as [Hmx Hcc].
  assert (length (b_tabs b) ≤ 20)%nat as Hlen.
  { rewrite Hb. cbn. destruct (orderedTabs_ok o tabs) as (_ & _ & Hl). lia. }
  destruct (mapped_results (length (b_tabs b)) (b_health b) Hm Hbu) as [_ Hall]; [lia|done|].
  destruct (rows_ok o s b r tabs (results (b_health b)) Hb Ha (ok_length _ _ Hm)) as (rows & Hrows & Hf & Hlr & Hrow).
  { intros i Hi. apply Hall. by rewrite <-(ok_length _ _ Hm). }
  unfold end_build. rewrite Hrows. cbn [mbind option_bind].
  assert (0 <= b_now b <= MAX_DATE_MS) as Hnow by (rewrite Hb; cbn; apply safeEpoch_ok).
  unfold toISOString. rewrite (proj2 (Z.leb_le _ (b_now b))), (proj2 (Z.leb_le (b_now b) _)) by (unfold MAX_DATE, MAX_DATE_MS in *; lia).
  cbn [andb mbind option_bind]. eexists. split; [apply snapshot_wire|].
  - split; cbn.
    + by apply iso_printed.
    + apply safeNonnegativeNumber_ok.
    + destruct mem as [[rss heap]|]; cbn; [split; apply safeNonnegativeInteger_ok|done].
    + split_and!; [apply small_int; lia|apply small_int; pose proof (length_filter_le (λ r, row_observedState r = running) rows); lia|..];
        rewrite Hb; cbn; apply safeNonnegativeInteger_ok.
    + intros v Hc. assert (is_Some (iso_ms v)) as [ms Hms].
      { rewrite Hb in Hc. cbn in Hc. unfold readCleanupStatus in Hc. destruct (r_cleanup r) as [c|]; [|done]. cbn in Hc.
        unfold canonicalTimestamp in Hc. destruct (cs_lastRunAt c) as [w|]; [|done]. cbn in Hc. destruct (iso_ms w) eqn:E; [|done].
        injection Hc as <-. by rewrite E. }
      pose proof (Hrun v ms Hc Hms). apply iso_ms_spec in Hms as [_ ->]. by apply iso_printed.
    + done.
    + lia.
  - cbn. split_and!; [done|by rewrite Hlr|]. intros i row Hi. destruct (Hrow i row Hi) as (t & h & Ht & Hh & Hid & R1 & R2 & R3).
    destruct (Hres i h Hh) as (t' & e & el & Ht' & ->). simplify_eq. by exists t, e, el.
Qed.


(** One stopped tab, looked at once. *)
Definition sample_options : AdminServiceOptions := {| maxSessions := 2; probeConcurrency := None; probeTimeoutMs := None |}.
Definition sample_tab : TabRecord :=
  {| tab_id := js "3f2504e0-4f89-41d3-9a0c-0305e82c3301"; displayName := js "build"; position := 0;
     createdAt := js "2026-01-01T00:00:00.000Z"; lastActivityAt := js "2026-01-01T00:00:00.000Z"; desiredState := active |}.
Definition sample_readings : readings :=
  {| r_now := Some (Num 1767225600500 0); r_tabs := Some [sample_tab]; r_bridges := λ _, None; r_sockets := λ _, Some (Num 15 (-1));
     r_bridgeTotal := None; r_socketTotal := Some (Num 3 0); r_cleanup := None; r_threshold := Some (Num 2 0) |}.
Definition sample_dates : DateParser := {| date_parse_other := λ _, None |}.
Lemma sample_wire : @WireLaws ascii_platform.
Proof. split; done. Qed.
Definition started_service : service := snapshot sample_options sample_readings new_service.
Definition probed_service : service := in_build (on_exists 0 (Some false)) started_service.
Lemma probed_reachable : rtc (@sstep ascii_platform sample_dates sample_options) new_service probed_service.
Proof.
  apply (rtc_l _ _ started_service); [apply (@a_snapshot ascii_platform sample_dates)|].
  apply rtc_once, (@a_exists ascii_platform sample_dates).
Qed.
Definition probed_build : building := with_health
  (Mapping 1 [None] [Some {| h_observedState := state_stopped; h_cleanupEligible := false; h_dependencyError := None |}] [0%nat])
  (begin_build sample_options sample_readings [sample_tab]).
Lemma probed_building : inFlightSnapshot probed_service = Some (Building probed_build).
Proof. vm_compute. reflexivity. Qed.
