(* ===== verification/WebSocket.v ===== *)
(** The WebSocket server ([apps/server/src/websocket.ts]): the admission of an
    upgrade, the life of a connection from the upgrade to the clean-up of its
    bridge, the heartbeat and the shutdown.

    Each stretch of code between two awaits is a function of the answers that
    its calls get; it records the calls it makes.  [websocketServer.clients]
    are the clients that are [listed].  The calls that the code does not guard
    ([terminate], [ping], [sweepExpired], [clearInterval], the logger) do not
    throw here, and [handleUpgrade] of ws makes its callback before it
    returns, or never. *)
From S2P Require Import Prelude SafeString Json Tabs Protocol TerminalBridge Headers Origin SessionManager WsAuthIndex.
Open Scope Z_scope.

(** * A connection *)

(** The entry of [connections]. *)
Record connection := Connection {
  sessionId : jsstr;
  token : AttachToken;
  authority : ApplicationSessionAuthority;
}.

(** The calls on the socket of a client and on its peers, with the answers of
    [isActive]. *)
Inductive act :=
| Active (b : bool)                           (* authIndex.isActive(authority) *)
| Close (code : Z) (reason : jsstr)           (* port.close, socket.close *)
| Terminate
| Ping
| Pong                                        (* the 'pong' event *)
| Send (m : ServerMessage) (ok : bool)        (* socket.send, which may throw *)
| Connect (t : AttachToken) (d : TerminalDimensions)
| Unregister                                  (* authIndex.unregister(port) *)
| RequireAuthentication                       (* authIndex.closeAuthenticationRequired(port) *)
| OwnerClose (code : Z) (reason : jsstr)
| OwnerRemove (id : jsstr)                    (* registry.remove(id, owner) *)
| LogFailure (id : jsstr).
#[export] Instance message_eq_dec : EqDecision ServerMessage.
Proof. solve_decision. Defined.
#[export] Instance dimensions_eq_dec : EqDecision TerminalDimensions.
Proof. solve_decision. Defined.
#[export] Instance act_eq_dec : EqDecision act.
Proof. solve_decision. Defined.

(** The promise chain of the connection: [connect] is queued, is under way,
    has led to a rejection, awaits [cleanupOwner], or the chain has ended. *)
Inductive place := Queued | Connecting | Rejected | AwaitCleanup | Returned.
#[export] Instance place_eq_dec : EqDecision place.
Proof. solve_decision. Defined.
(** [cleanupPromise]: undefined, at one of its two awaits, or resolved. *)
Inductive cleaning := Uncleaned | ClosingOwner | RemovingOwner | Cleaned.
#[export] Instance cleaning_eq_dec : EqDecision cleaning.
Proof. solve_decision. Defined.

(** A WebSocket with the variables of its connection; [None] when the
    connection handler has no entry for it. *)
Record client := Client {
  upgrade_of : nat;
  connection_of : option connection;
  alive : option bool;
  owner : bool;                 (* the variable is set *)
  ended : bool;
  authenticationEnded : bool;
  listenersDisposed : bool;
  cleanupPromise : cleaning;
  at_place : place;
  listed : bool;                (* until ws emits 'close' *)
  acts : list act;
}.

Definition did (a : list act) (c : client) : client :=
  Client (upgrade_of c) (connection_of c) (alive c) (owner c) (ended c) (authenticationEnded c)
    (listenersDisposed c) (cleanupPromise c) (at_place c) (listed c) (acts c ++ a).
Definition set_alive (b : bool) (c : client) : client :=
  Client (upgrade_of c) (connection_of c) (Some b) (owner c) (ended c) (authenticationEnded c)
    (listenersDisposed c) (cleanupPromise c) (at_place c) (listed c) (acts c).
Definition set_owner (c : client) : client :=
  Client (upgrade_of c) (connection_of c) (alive c) true (ended c) (authenticationEnded c)
    (listenersDisposed c) (cleanupPromise c) (at_place c) (listed c) (acts c).
Definition set_ended (auth : bool) (c : client) : client :=
  Client (upgrade_of c) (connection_of c) (alive c) (owner c) true auth
    (listenersDisposed c) (cleanupPromise c) (at_place c) (listed c) (acts c).
Definition disposeSocketListeners (c : client) : client :=
  Client (upgrade_of c) (connection_of c) (alive c) (owner c) (ended c) (authenticationEnded c)
    true (cleanupPromise c) (at_place c) (listed c) (acts c).
Definition set_cleanup (x : cleaning) (c : client) : client :=
  Client (upgrade_of c) (connection_of c) (alive c) (owner c) (ended c) (authenticationEnded c)
    (listenersDisposed c) x (at_place c) (listed c) (acts c).
Definition moved (p : place) (c : client) : client :=
  Client (upgrade_of c) (connection_of c) (alive c) (owner c) (ended c) (authenticationEnded c)
    (listenersDisposed c) (cleanupPromise c) p (listed c) (acts c).
Definition unlisted (c : client) : client :=
  Client (upgrade_of c) (connection_of c) (alive c) (owner c) (ended c) (authenticationEnded c)
    (listenersDisposed c) (cleanupPromise c) (at_place c) false (acts c).

(** The handler of 'connection', to its first microtask.  A socket without an
    entry gets no listener, and runs no chain. *)
Definition on_connection (k : nat) (entry : option connection) : client :=
  match entry with
  | Some x => Client k (Some x) (Some true) false false false false Uncleaned Queued true []
  | None => Client k None None false false false true Uncleaned Returned true
              [Close 1011 (js "terminal_unavailable")]
  end.

(** The function [closeAuthenticationRequired] of this file; [open1] and
    [open2] are the answers of [readyState === OPEN]. *)
Definition closeAuthenticationRequired (open1 open2 : bool) : list act :=
  if negb open1 then []
  else Close AUTHENTICATION_REQUIRED AUTHENTICATION_REQUIRED_REASON ::
       (if negb open2 then [] else [Terminate]).
(** The socket of an upgrade that the callback refuses. *)
Definition refused_client (k : nat) (open1 open2 : bool) : client :=
  Client k None None false false false true Uncleaned Returned true (closeAuthenticationRequired open1 open2).

Definition sendReady (id : jsstr) (sent : bool) (open : bool) : list act :=
  if negb open then [] else [Send (Ready id) sent].
Definition sendConnectionError (id : jsstr) (open : bool) : list act :=
  if negb open then [] else [Send (ErrorMessage id (js "terminal_unavailable")) true].

Definition initial_dimensions : TerminalDimensions := {| cols := 80; rows := 24 |}.

Section connection.
Variable x : connection.

(** [cleanupOwner]: the code that it is given depends on
    [authenticationEnded] at every call. *)
Definition cleanup_code (c : client) : Z * jsstr :=
  if authenticationEnded c then (AUTHENTICATION_REQUIRED, AUTHENTICATION_REQUIRED_REASON)
  else (1001, js "socket_closed").
Definition cleanupOwner (c : client) : client :=
  match cleanupPromise c with
  | Uncleaned =>
      if owner c then
        let '(code, reason) := cleanup_code c in set_cleanup ClosingOwner (did [OwnerClose code reason] c)
      else c
  | _ => c
  end.
(** [target.close] settles, fulfilled or not; and [registry.remove]. *)
Definition owner_closed (c : client) : client := set_cleanup RemovingOwner (did [OwnerRemove (sessionId x)] c).
Definition owner_removed (c : client) : client := set_cleanup Cleaned c.

Definition removeRegistration (active : bool) (c : client) : client :=
  cleanupOwner (did [Active active; Unregister] (set_ended (negb active) (disposeSocketListeners c))).
Definition onSocketError (active open : bool) (c : client) : client :=
  let c := removeRegistration active c in
  if open then did [Close 1011 (js "socket_error")] c else c.
Definition onPong (c : client) : client := did [Pong] (set_alive true c).
(** ws takes the socket out of [clients] and emits 'close'. *)
Definition on_close (active : bool) (c : client) : client :=
  let c := unlisted c in if listenersDisposed c then c else removeRegistration active c.

(** The chain of [Promise.resolve().then(...)]. *)
Definition call_connect (c : client) : client := moved Connecting (did [Connect (token x) initial_dimensions] c).
(** [connect] resolves: [sent] tells whether [send] returns. *)
Definition connected (active open sent : bool) (c : client) : client :=
  let c := did [Active active] (set_owner c) in
  let c := if active then c else did [RequireAuthentication] (set_ended true c) in
  if ended c || negb open then moved AwaitCleanup (cleanupOwner c)
  else moved (if sent then Returned else Rejected) (did (sendReady (sessionId x) sent open) c).
Definition connect_failed (c : client) : client := moved Rejected c.
(** The [catch] handler; the last answer is that of [readyState] after the
    message was sent. *)
Definition on_rejected (active open1 open2 : bool) (c : client) : client :=
  let c' := if ended c then c else did [Active active] c in
  if ended c || negb active then moved Returned (did [RequireAuthentication] c')
  else
    let c := did (LogFailure (sessionId x) :: sendConnectionError (sessionId x) open1) c' in
    moved Returned (if open2 then did [Close 1011 (js "terminal_unavailable")] c else c).
End connection.

(** What the heartbeat does with one client. *)
Definition beat_client (open : bool) (c : client) : client :=
  if negb (listed c) then c
  else if negb open then c
  else if bool_decide (alive c = Some false) then did [Terminate] c
  else did [Ping] (set_alive false c).
Definition terminate_client (c : client) : client := if listed c then did [Terminate] c else c.

(** The steps of a client on its own promises. *)
Inductive cstep : client → client → Prop :=
| c_connect x c : connection_of c = Some x → at_place c = Queued → cstep c (call_connect x c)
| c_connected x active open sent c : connection_of c = Some x → at_place c = Connecting →
    cstep c (connected x active open sent c)
| c_failed c : at_place c = Connecting → cstep c (connect_failed c)
| c_rejected x active open1 open2 c : connection_of c = Some x → at_place c = Rejected →
    cstep c (on_rejected x active open1 open2 c)
| c_owner_closed x c : connection_of c = Some x → cleanupPromise c = ClosingOwner → cstep c (owner_closed x c)
| c_owner_removed c : cleanupPromise c = RemovingOwner → cstep c (owner_removed c)
| c_cleaned c : at_place c = AwaitCleanup → cleanupPromise c = Cleaned → cstep c (moved Returned c).
(** The events of its socket. *)
Inductive cevent : client → client → Prop :=
| e_pong c : listenersDisposed c = false → cevent c (onPong c)
| e_error active open c : listenersDisposed c = false → cevent c (onSocketError active open c)
| e_close active c : listed c = true → cevent c (on_close active c).

(** * The server *)

(** What an upgrade has done: the answers of its calls, and the response. *)
Inductive uact :=
| Authenticated (a : option ApplicationSessionAuthority)
| AuthenticateFailed
| UActive (a : ApplicationSessionAuthority) (b : bool)
| Authorized (id : jsstr) (t : option AttachToken)
| AuthorizeFailed (id : jsstr)
| HandleUpgrade
| Registered (a : ApplicationSessionAuthority) (id : jsstr) (b : bool)
| Respond (status : Z).
#[export] Instance uact_eq_dec : EqDecision uact.
Proof. solve_decision. Defined.

(** [acceptUpgrade] awaits [authenticate], or has ended. *)
Inductive stage := Authenticating (id : jsstr) | Ended.
Record upgrade := Upgrade { request : UpgradeRequest; stage_of : stage; log : list uact }.

Definition status_reason (status : Z) : jsstr :=
  if status =? 401 then js "Unauthorized" else if status =? 403 then js "Forbidden"
  else if status =? 404 then js "Not Found" else js "Service Unavailable".
Definition crlf : jsstr := [13; 10].
(** The text that [rejectUpgrade] ends the socket with. *)
Definition rejectUpgrade (status : Z) : jsstr :=
  let line := number_to_string status ++ js " " ++ status_reason status in
  let body := line ++ [10] in
  js "HTTP/1.1 " ++ line ++ crlf ++ js "Connection: close" ++ crlf ++
  js "Content-Type: text/plain; charset=utf-8" ++ crlf ++
  js "Content-Length: " ++ number_to_string (utf8ByteLength body) ++ crlf ++ crlf ++ body.

(** What [websocketServer.handleUpgrade] does. *)
Inductive handshake := Completes | Aborts | Throws.
(** The answers that the continuation of [authenticate] gets. *)
Record answers := Answers {
  authenticated : res unit (option ApplicationSessionAuthority);
  active1 : bool;
  authorized : res unit (option AttachToken);
  active2 : bool;
  upgraded : handshake;
  active3 : bool;
  registered : bool;
  open1 : bool;
  open2 : bool;
}.

(** [options.server.close]: the method of the server, the hook, or something
    else. *)
Inductive server_close := Original | Hooked | Foreign.
#[export] Instance server_close_eq_dec : EqDecision server_close.
Proof. solve_decision. Defined.

Record server := Server {
  accepting : bool;
  upgrade_listener : bool;
  heartbeat : bool;             (* the timer is set *)
  close_method : server_close;
  close_listener : bool;
  disposals : nat;              (* calls of [authIndex.dispose] *)
  sweeps : nat;
  closePromise : bool;          (* [websocketServer.close] has been called *)
  upgrades : list upgrade;
  clients : list client;
}.
Definition createTerminalWebSocketServer : server := Server true true true Hooked true 0 0 false [] [].

Section server.
Context `{LowerCase, UrlParser}.
Variable options : UpgradeAuthorizationOptions.
(** Both [upgradeAuthenticator] and [authIndex] are given. *)
Variable configured : bool.

Definition with_upgrades (us : list upgrade) (s : server) : server :=
  Server (accepting s) (upgrade_listener s) (heartbeat s) (close_method s) (close_listener s) (disposals s)
    (sweeps s) (closePromise s) us (clients s).
Definition with_clients (cs : list client) (s : server) : server :=
  Server (accepting s) (upgrade_listener s) (heartbeat s) (close_method s) (close_listener s) (disposals s)
    (sweeps s) (closePromise s) (upgrades s) cs.

(** [acceptUpgrade], to its [await]. *)
Definition acceptUpgrade (r : UpgradeRequest) (s : server) : upgrade :=
  if negb (accepting s) then Upgrade r Ended [Respond 503]
  else match authorizeUpgrade r options with
       | Refused status => Upgrade r Ended [Respond status]
       | Allowed id => if configured then Upgrade r (Authenticating id) [] else Upgrade r Ended [Respond 503]
       end.
Definition on_upgrade (r : UpgradeRequest) (s : server) : server :=
  with_upgrades (upgrades s ++ [acceptUpgrade r s]) s.

(** The callback of [handleUpgrade]. *)
Definition upgrade_callback (k : nat) (id : jsstr) (t : AttachToken) (a : ApplicationSessionAuthority)
    (n : answers) : list uact * client :=
  if negb (active3 n) then ([UActive a false], refused_client k (open1 n) (open2 n))
  else if negb (registered n) then ([UActive a true; Registered a id false], refused_client k (open1 n) (open2 n))
  else ([UActive a true; Registered a id true],
        on_connection k (Some {| sessionId := id; token := t; authority := a |})).
(** The rest of [acceptUpgrade], with the handler of its rejection. *)
Definition continueUpgrade (k : nat) (id : jsstr) (acc : bool) (n : answers) : list uact * option client :=
  match authenticated n with
  | Throw _ => ([AuthenticateFailed; Respond 401], None)
  | Ok None => ([Authenticated None; Respond 401], None)
  | Ok (Some a) =>
      if negb (active1 n) then ([Authenticated (Some a); UActive a false; Respond 401], None)
      else
        let before := [Authenticated (Some a); UActive a true] in
        match authorized n with
        | Throw _ => (before ++ [AuthorizeFailed id; Respond 401], None)
        | Ok None => (before ++ [Authorized id None; Respond 404], None)
        | Ok (Some t) =>
            let before := before ++ [Authorized id (Some t)] in
            if negb acc then (before ++ [Respond 503], None)
            else if negb (active2 n) then (before ++ [UActive a false; Respond 401], None)
            else
              let before := before ++ [UActive a true; HandleUpgrade] in
              match upgraded n with
              | Throws => (before ++ [Respond 401], None)
              | Aborts => (before, None)
              | Completes => let '(l, c) := upgrade_callback k id t a n in (before ++ l, Some c)
              end
        end
  end.
Definition resume_upgrade (k : nat) (id : jsstr) (n : answers) (s : server) : server :=
  let '(l, c) := continueUpgrade k id (accepting s) n in
  with_clients (clients s ++ match c with Some c => [c] | None => [] end)
    (with_upgrades (alter (λ u, Upgrade (request u) Ended (log u ++ l)) k (upgrades s)) s).

Definition beat (opens : nat → bool) (s : server) : server :=
  Server (accepting s) (upgrade_listener s) (heartbeat s) (close_method s) (close_listener s) (disposals s)
    (if configured then S (sweeps s) else sweeps s) (closePromise s) (upgrades s)
    (imap (λ i, beat_client (opens i)) (clients s)).

Definition stopAccepting (s : server) : server :=
  if negb (accepting s) then s
  else Server false false (heartbeat s) (close_method s) (close_listener s) (disposals s) (sweeps s)
         (closePromise s) (upgrades s) (clients s).
Definition stopHeartbeat (s : server) : server :=
  Server (accepting s) (upgrade_listener s) false (close_method s) (close_listener s) (disposals s) (sweeps s)
    (closePromise s) (upgrades s) (clients s).
Definition closeClients (s : server) : server := with_clients (terminate_client <$> clients s) s.
Definition disposeAuthentication (s : server) : server :=
  Server (accepting s) (upgrade_listener s) (heartbeat s) (close_method s) (close_listener s)
    (if configured then S (disposals s) else disposals s) (sweeps s) (closePromise s) (upgrades s) (clients s).
Definition with_close_method (m : server_close) (s : server) : server :=
  Server (accepting s) (upgrade_listener s) (heartbeat s) m (close_listener s) (disposals s) (sweeps s)
    (closePromise s) (upgrades s) (clients s).
Definition restoreHttpServerClose (s : server) : server :=
  if bool_decide (close_method s = Hooked) then with_close_method Original s else s.
Definition onHttpServerClose (s : server) : server :=
  restoreHttpServerClose (disposeAuthentication (stopHeartbeat (stopAccepting s))).
Definition without_close_listener (s : server) : server :=
  Server (accepting s) (upgrade_listener s) (heartbeat s) (close_method s) false (disposals s) (sweeps s)
    (closePromise s) (upgrades s) (clients s).
Definition close_sockets (s : server) : server :=
  Server (accepting s) (upgrade_listener s) (heartbeat s) (close_method s) (close_listener s) (disposals s)
    (sweeps s) true (upgrades s) (clients s).
(** [close]: a later call returns the same promise. *)
Definition close (s : server) : server :=
  if closePromise s then s
  else close_sockets (without_close_listener (restoreHttpServerClose (disposeAuthentication
         (closeClients (stopHeartbeat (stopAccepting s)))))).

Inductive own_step : server → server → Prop :=
| o_client i c c' s : clients s !! i = Some c → cstep c c' → own_step s (with_clients (<[i := c']> (clients s)) s).
Inductive sstep : server → server → Prop :=
| s_own s s' : own_step s s' → sstep s s'
| s_event i c c' s : clients s !! i = Some c → cevent c c' → sstep s (with_clients (<[i := c']> (clients s)) s)
| s_upgrade r s : upgrade_listener s = true → sstep s (on_upgrade r s)
| s_resume k u id n s : upgrades s !! k = Some u → stage_of u = Authenticating id →
    sstep s (resume_upgrade k id n s)
| s_beat opens s : heartbeat s = true → sstep s (beat opens s)
| s_stopAccepting s : sstep s (stopAccepting s)
| s_stopHeartbeat s : sstep s (stopHeartbeat s)
| s_closeClients s : sstep s (closeClients s)
| s_close s : sstep s (close s)
(** A call of [server.close] through the hook, the 'close' event, and another
    assignment of [server.close]. *)
| s_http_call s : close_method s = Hooked → sstep s (onHttpServerClose s)
| s_http_close s : close_listener s = true → sstep s (onHttpServerClose (without_close_listener s))
| s_foreign m s : m ≠ Hooked → sstep s (with_close_method m s).
End server.
