(* ===== verification/WebSocketFacts.v ===== *)
(** The theorems about the WebSocket server of [WebSocket]: who is admitted,
    what becomes of a connection's bridge, and how the server shuts down. *)
From S2P Require Import Prelude SafeString Json Tabs Protocol TerminalBridge Headers Origin SessionManager WsAuthIndex WebSocket.
Open Scope Z_scope.

(** * One client *)

Definition is_owner_close (a : act) : bool := match a with OwnerClose _ _ => true | _ => false end.
Definition is_owner_remove (a : act) : bool := match a with OwnerRemove _ => true | _ => false end.
Definition is_connect (a : act) : bool := match a with Connect _ _ => true | _ => false end.
Definition is_unregister (a : act) : bool := match a with Unregister => true | _ => false end.
Definition is_send (a : act) : bool := match a with Send _ _ => true | _ => false end.
Definition is_sent (a : act) : bool := match a with Send _ true => true | _ => false end.
Definition is_beat (a : act) : bool := match a with Ping | Pong => true | _ => false end.
Definition hits (f : act → bool) (l : list act) : nat := length (List.filter f l).
Definition count (f : act → bool) (c : client) : nat := hits f (acts c).

Definition on (b : bool) : nat := if b then 1 else 0.
Definition has_entry (c : client) : bool := match connection_of c with Some _ => true | None => false end.
Definition cleaning_started (c : client) : bool := match cleanupPromise c with Uncleaned => false | _ => true end.
Definition removal_started (c : client) : bool :=
  match cleanupPromise c with RemovingOwner | Cleaned => true | _ => false end.

Definition unsent (p : place) : bool := match p with Queued | Connecting => true | _ => false end.
Definition queued (p : place) : bool := match p with Queued => true | _ => false end.
Definition awaiting (p : place) : bool := match p with AwaitCleanup => true | _ => false end.
Definition returned (p : place) : bool := match p with Returned => true | _ => false end.
(** The relations between the variables of a connection. *)
Definition flags_ok (c : client) : bool :=
  implb (owner c) (has_entry c && negb (unsent (at_place c))) &&
  implb (cleaning_started c) (owner c) &&
  implb (owner c && ended c) (cleaning_started c) &&
  implb (awaiting (at_place c)) (cleaning_started c) &&
  implb (listenersDisposed c) (ended c || negb (has_entry c)) &&
  implb (negb (listed c)) (listenersDisposed c) &&
  implb (negb (has_entry c)) (listenersDisposed c && returned (at_place c) && negb (ended c)) &&
  implb (authenticationEnded c) (ended c).
Definition counts_ok (c : client) : Prop :=
  count is_owner_close c = on (cleaning_started c) ∧
  count is_owner_remove c = on (removal_started c) ∧
  count is_connect c = on (has_entry c && negb (queued (at_place c))) ∧
  count is_unregister c = on (has_entry c && listenersDisposed c) ∧
  (count is_sent c ≤ on (returned (at_place c)))%nat ∧
  (unsent (at_place c) = true → count is_send c = 0%nat).
(** The codes and the frames. *)
Record acts_ok (c : client) : Prop := {
  a_code : ∀ code reason, OwnerClose code reason ∈ acts c →
    (code = AUTHENTICATION_REQUIRED ∧ reason = AUTHENTICATION_REQUIRED_REASON ∧ Active false ∈ acts c) ∨
    (code = 1001 ∧ reason = js "socket_closed");
  a_auth : authenticationEnded c = true → Active false ∈ acts c;
  a_remove : ∀ id, OwnerRemove id ∈ acts c → ∃ x, connection_of c = Some x ∧ id = sessionId x;
  a_connect : ∀ t d, Connect t d ∈ acts c → ∃ x, connection_of c = Some x ∧ t = token x ∧ d = initial_dimensions;
  a_ready : ∀ i id ok, acts c !! i = Some (Send (Ready id) ok) →
    owner c = true ∧ (∃ x, connection_of c = Some x ∧ id = sessionId x) ∧
    ∃ j, i = S j ∧ acts c !! j = Some (Active true);
  a_alive : alive c = Some false ↔ last (List.filter is_beat (acts c)) = Some Ping;
}.
Record client_ok (c : client) : Prop := {
  k_flags : flags_ok c = true;
  k_counts : counts_ok c;
  k_acts : acts_ok c;
}.

Lemma hits_app f l l' : hits f (l ++ l') = (hits f l + hits f l')%nat.
Proof. unfold hits. by rewrite List.filter_app, length_app. Qed.

(** Reasoning on the variables is by cases. *)
Ltac field_case x H := destruct x; cbn in H; try discriminate H.
Ltac client_cases c H :=
  unfold flags_ok, has_entry, cleaning_started, removal_started, unsent in H;
  destruct c as [xk xe xa xo xn xu xd xc xp xl xs]; cbn in H;
  field_case xo H; field_case xn H; field_case xd H; field_case xe H; field_case xp H; field_case xc H;
  field_case xl H; field_case xu H; clear H.
Lemma step_flags c c' : cstep c c' ∨ cevent c c' → flags_ok c = true → flags_ok c' = true.
Proof.
  intros [[x c0 Hx Hp|x a o t c0 Hx Hp|c0 Hp|x a o1 o2 c0 Hx Hp|x c0 Hx Hp|c0 Hp|c0 Hp Hc]|[c0 Hp|a o c0 Hp|a c0 Hp]] Hf.
  all: client_cases c0 Hf; cbn in Hp; try discriminate Hp; try discriminate Hx; try discriminate Hc.
  all: try destruct a; try destruct o; try destruct t; try reflexivity.
  all: try destruct o1; try destruct o2; try reflexivity.
Qed.
Lemma step_counts c c' : cstep c c' ∨ cevent c c' → flags_ok c = true → counts_ok c → counts_ok c'.
Proof.
  intros [[x c0 Hx Hp|x a o t c0 Hx Hp|c0 Hp|x a o1 o2 c0 Hx Hp|x c0 Hx Hp|c0 Hp|c0 Hp Hc]|[c0 Hp|a o c0 Hp|a c0 Hp]] Hf.
  all: client_cases c0 Hf; cbn in Hp; try discriminate Hp; try discriminate Hx; try discriminate Hc; clear Hp; try clear Hx; try clear Hc.
  all: try destruct a; try destruct o; try destruct t; try destruct o1; try destruct o2.
  all: unfold counts_ok, count; cbn -[hits]; rewrite ?hits_app; cbn [hits List.filter length is_owner_close is_owner_remove is_connect is_unregister is_sent is_send].
  all: intros (N1 & N2 & N3 & N4 & N5 & N6); split_and!; try lia; try discriminate.
Qed.

(** What appending [l] to the calls of [c] needs. *)
Definition new_beat (l : list act) (c c' : client) : Prop :=
  (alive c' = alive c ∧ List.filter is_beat l = []) ∨
  (alive c' = Some false ∧ last (List.filter is_beat l) = Some Ping) ∨
  (alive c' = Some true ∧ last (List.filter is_beat l) = Some Pong).
Definition new_act (c' : client) (l : list act) (i : nat) (a : act) : Prop :=
  match a with
  | OwnerClose code reason =>
      (code = AUTHENTICATION_REQUIRED ∧ reason = AUTHENTICATION_REQUIRED_REASON ∧ authenticationEnded c' = true) ∨
      (code = 1001 ∧ reason = js "socket_closed")
  | OwnerRemove id => ∃ x, connection_of c' = Some x ∧ id = sessionId x
  | Connect t d => ∃ x, connection_of c' = Some x ∧ t = token x ∧ d = initial_dimensions
  | Send (Ready id) ok => owner c' = true ∧ (∃ x, connection_of c' = Some x ∧ id = sessionId x) ∧
      ∃ j, i = S j ∧ l !! j = Some (Active true)
  | _ => True
  end.
Lemma acts_extend l c c' : acts_ok c → connection_of c' = connection_of c → acts c' = acts c ++ l →
  (owner c = true → owner c' = true) →
  (authenticationEnded c' = true → authenticationEnded c = true ∨ Active false ∈ l) →
  (∀ i a, l !! i = Some a → new_act c' l i a) → new_beat l c c' → acts_ok c'.
Proof.
  intros [A1 A2 A3 A4 A5 A6] Hx Hl Ho Ha Hn Hb.
  assert (∀ a, a ∈ acts c' → a ∈ acts c ∨ ∃ i, l !! i = Some a) as Hin.
  { intros a. rewrite Hl, elem_of_app, (list_elem_of_lookup l). done. }
  assert (authenticationEnded c' = true → Active false ∈ acts c') as Hauth.
  { intros [?|?]%Ha; rewrite Hl, elem_of_app; auto. }
  split; [| done | | | |].
  - intros code reason [Hc|[i Hi]]%Hin.
    + destruct (A1 _ _ Hc) as [(?&?&?)|?]; [left; rewrite Hl, elem_of_app; auto|by right].
    + destruct (Hn _ _ Hi) as [(?&?&?)|?]; [left; auto|by right].
  - intros id [Hc|[i Hi]]%Hin; [rewrite Hx; eauto|apply (Hn _ _ Hi)].
  - intros t d [Hc|[i Hi]]%Hin; [rewrite Hx; eauto|apply (Hn _ _ Hi)].
  - intros i id ok. rewrite Hl. intros [Hi|[Hge Hi]]%lookup_app_Some.
    + destruct (A5 _ _ _ Hi) as (? & ? & j & -> & Hj). rewrite Hx. split_and!; auto.
      exists j. split; [done|]. by apply lookup_app_l_Some.
    + destruct (Hn _ _ Hi) as (? & ? & j & Hij & Hj). split_and!; auto.
      exists (length (acts c) + j)%nat. split; [lia|]. rewrite lookup_app_r by lia.
      rewrite <-Hj. f_equal. lia.
  - rewrite Hl, List.filter_app, last_app. destruct Hb as [[-> ->]|[[-> ->]|[-> ->]]]; [done|done|].
    split; [done|]. intros [=].
Qed.
(** A list of calls written out. *)
Lemma lookup_head (a b : act) l : (a :: l) !! 0%nat = Some b → b = a.
Proof. by intros [= ->]. Qed.
Lemma lookup_tail (a b : act) l i : (a :: l) !! S i = Some b → l !! i = Some b.
Proof. done. Qed.
Lemma lookup_none (b : act) i : ([] : list act) !! i = Some b → False.
Proof. done. Qed.
Ltac each_act := let i := fresh "i" in let a := fresh "a" in let Hi := fresh "Hi" in
  intros i a Hi; repeat (destruct i as [|i]; [apply lookup_head in Hi as ->; unfold new_act|apply lookup_tail in Hi]);
  try (by destruct (lookup_none _ _ Hi)); try exact I.

Lemma acts_same c c' : acts_ok c → connection_of c' = connection_of c → acts c' = acts c → alive c' = alive c →
  (owner c = true → owner c' = true) → (authenticationEnded c' = true → authenticationEnded c = true) → acts_ok c'.
Proof.
  intros Hc Hx Hl Ha Ho Hu. apply (acts_extend [] c); auto; [by rewrite app_nil_r|done|by left].
Qed.
Lemma cleanup_acts c : acts_ok c → acts_ok (cleanupOwner c).
Proof.
  intros Hc. unfold cleanupOwner, cleanup_code. destruct (cleanupPromise c); try done. destruct (owner c) eqn:Ho; [|done].
  destruct (authenticationEnded c) eqn:Ha; (eapply (acts_extend [_] c); [done|done|reflexivity|auto|auto| |by left]); each_act.
  - left. auto.
  - right. auto.
Qed.
Lemma did_acts l c : acts_ok c → new_beat l c c → (∀ i a, l !! i = Some a → new_act c l i a) → acts_ok (did l c).
Proof. intros Hc Hb Hl. apply (acts_extend l c); auto. Qed.
Lemma moved_acts p c : acts_ok c → acts_ok (moved p c).
Proof. intros Hc. by apply (acts_same c). Qed.
Lemma removeRegistration_acts b c : acts_ok c → acts_ok (removeRegistration b c).
Proof.
  intros Hc. apply cleanup_acts, (acts_extend [Active b; Unregister] c); cbn; auto; [|each_act|by left].
  destruct b; [done|]. right. by left.
Qed.
Lemma connected_acts x a o t c : connection_of c = Some x → acts_ok c → acts_ok (connected x a o t c).
Proof.
  intros Hx Hc. unfold connected. set (c1 := did [Active a] (set_owner c)).
  assert (acts_ok c1) as H1. { apply (acts_extend [Active a] c); cbn; auto; [each_act|by left]. }
  destruct a; cbn [negb].
  - destruct (ended c1 || negb o) eqn:He; apply moved_acts; [by apply cleanup_acts|].
    apply orb_false_iff in He as [_ Ho]. apply negb_false_iff in Ho as ->. cbn [negb sendReady].
    apply (acts_extend [Active true; Send (Ready (sessionId x)) t] c); cbn; auto; [by rewrite <-(assoc_L (++))| |by left].
    intros [|[|i]] b; cbn; [by intros [= <-]| |done]. intros [= <-]. split_and!; eauto.
  - cbn [ended did set_ended orb]. apply moved_acts, cleanup_acts.
    apply (acts_extend [Active false; RequireAuthentication] c); cbn; auto.
    + by rewrite <-(assoc_L (++)).
    + intros _. right. by left.
    + each_act.
    + by left.
Qed.
Lemma on_rejected_acts x a o1 o2 c : acts_ok c → acts_ok (on_rejected x a o1 o2 c).
Proof.
  intros Hc. unfold on_rejected. set (c' := if ended c then c else did [Active a] c).
  assert (acts_ok c') as H1 by (subst c'; destruct (ended c); [done|]; apply did_acts; [done|by left|each_act]).
  destruct (_ || _); apply moved_acts; [apply did_acts; [done|by left|each_act]|].
  assert (acts_ok (did (LogFailure (sessionId x) :: sendConnectionError (sessionId x) o1) c')) as H2.
  { apply did_acts; [done|left; by destruct o1|]. destruct o1; each_act. }
  destruct o2; [|done]. apply did_acts; [done|by left|each_act].
Qed.
Lemma step_acts c c' : cstep c c' ∨ cevent c c' → acts_ok c → acts_ok c'.
Proof.
  intros [[x c0 Hx Hp|x a o t c0 Hx Hp|c0 Hp|x a o1 o2 c0 Hx Hp|x c0 Hx Hp|c0 Hp|c0 Hp Hc]|[c0 Hp|a o c0 Hp|a c0 Hp]] Ha.
  - apply moved_acts, did_acts; [done|by left|each_act; eauto].
  - by apply connected_acts.
  - by apply moved_acts.
  - by apply on_rejected_acts.
  - apply (acts_extend [OwnerRemove (sessionId x)] c0); [done|done|done|auto|by left|each_act; eauto|by left].
  - by apply (acts_same c0).
  - by apply moved_acts.
  - apply (acts_extend [Pong] c0); cbn; auto; [each_act|]. by right; right.
  - unfold onSocketError. assert (acts_ok (removeRegistration a c0)) by by apply removeRegistration_acts.
    destruct o; [|done]. apply did_acts; [done|by left|each_act].
  - unfold on_close. assert (acts_ok (unlisted c0)) as Hu by by apply (acts_same c0).
    destruct (listenersDisposed _); [done|]. by apply removeRegistration_acts.
Qed.

Theorem client_step c c' : cstep c c' ∨ cevent c c' → client_ok c → client_ok c'.
Proof. intros Hs [K1 K2 K3]. split; eauto using step_flags, step_counts, step_acts. Qed.

(** ** The heartbeat and the shutdown *)

Lemma did_ok a c : client_ok c → (∀ f, f = is_owner_close ∨ f = is_owner_remove ∨ f = is_connect ∨ f = is_unregister ∨ f = is_sent ∨ f = is_send → f a = false) →
  ∀ c', c' = did [a] c ∨ c' = did [a] (set_alive false c) → acts_ok c' → client_ok c'.
Proof.
  intros [K1 K2 K3] Hf c' Hc Ha. split; [|clear K1 K3 Ha|done].
  - by destruct Hc as [-> | ->].
  - assert (∀ f, f = is_owner_close ∨ f = is_owner_remove ∨ f = is_connect ∨ f = is_unregister ∨ f = is_sent ∨ f = is_send → count f c' = count f c) as Hcount.
    { intros f Hin. specialize (Hf f Hin). unfold count.
      destruct Hc as [-> | ->]; cbn -[hits]; rewrite hits_app; unfold hits; cbn [List.filter]; rewrite Hf; cbn; lia. }
    unfold counts_ok, cleaning_started, removal_started, has_entry in *. rewrite !Hcount by tauto.
    by destruct Hc as [-> | ->].
Qed.
Lemma beat_ok o c : client_ok c → client_ok (beat_client o c).
Proof.
  intros Hc. unfold beat_client. destruct (listed c); [|done]. destruct o; [|done]. cbn [negb]. pose proof (k_acts _ Hc).
  destruct (bool_decide _) eqn:Hb; eapply did_ok; eauto; try (intros f; by intros [->|[->|[->|[->|[->| ->]]]]]).
  - apply did_acts; [done|by left|each_act].
  - apply (acts_extend [Ping] c); cbn; auto; [each_act|]. by right; left.
Qed.
Lemma terminate_ok c : client_ok c → client_ok (terminate_client c).
Proof.
  intros Hc. unfold terminate_client. destruct (listed c); [|done]. pose proof (k_acts _ Hc).
  eapply did_ok; eauto; [intros f; by intros [->|[->|[->|[->|[->| ->]]]]]|].
  apply did_acts; [done|by left|each_act].
Qed.
Lemma on_connection_ok k x : client_ok (on_connection k (Some x)).
Proof.
  split; [done| |split; cbn; try done]; [unfold counts_ok; cbn; split_and!; lia|..]; intros; try (by exfalso; eapply not_elem_of_nil; eauto).
Qed.
Lemma refused_client_ok k o1 o2 : client_ok (refused_client k o1 o2).
Proof.
  split; [done| |].
  - destruct o1, o2; unfold counts_ok; cbn; split_and!; try lia; done.
  - apply (acts_extend (closeAuthenticationRequired o1 o2) (Client k None None false false false true Uncleaned Returned true [])); cbn; auto.
    + split; cbn; try done; intros; by exfalso; eapply not_elem_of_nil; eauto.
    + destruct o1, o2; each_act.
    + left. by destruct o1, o2.
Qed.

(** ** What no step changes, and the work that is left *)

Definition frame (c c' : client) : Prop :=
  upgrade_of c' = upgrade_of c ∧ connection_of c' = connection_of c ∧ acts c `prefix_of` acts c' ∧
  (listed c' = true → listed c = true).
Lemma frame_refl c : frame c c.
Proof. done. Qed.
Lemma frame_trans c1 c2 c3 : frame c1 c2 → frame c2 c3 → frame c1 c3.
Proof. intros (H1 & H2 & H3 & H4) (H5 & H6 & H7 & H8). split_and!; [congruence|congruence|by etrans|auto]. Qed.
Lemma frame_did a c : frame c (did a c).
Proof. split_and!; try done. by apply prefix_app_r. Qed.
Lemma frame_cleanup c : frame c (cleanupOwner c).
Proof. unfold cleanupOwner. repeat case_match; try apply frame_refl; apply (frame_did _ c). Qed.
Lemma frame_remove b c : frame c (removeRegistration b c).
Proof. eapply frame_trans; [apply (frame_did [Active b; Unregister] c)|]. apply (frame_cleanup (did _ (set_ended _ (disposeSocketListeners c)))). Qed.
Lemma frame_step c c' : cstep c c' ∨ cevent c c' → frame c c'.
Proof.
  intros [[x c0 Hx Hp|x a o t c0 Hx Hp|c0 Hp|x a o1 o2 c0 Hx Hp|x c0 Hx Hp|c0 Hp|c0 Hp Hc]|[c0 Hp|a o c0 Hp|a c0 Hp]];
    try (split_and!; [done|done|by (try apply prefix_app_r)|done]).
  - unfold connected. destruct a; cbn [negb].
    + destruct (_ || _).
      * eapply frame_trans; [apply (frame_did [Active true] c0)|apply (frame_cleanup (did [Active true] (set_owner c0)))].
      * eapply frame_trans; [apply (frame_did [Active true] c0)|]. apply (frame_did _ (did [Active true] c0)).
    + cbn [ended did set_ended orb]. eapply frame_trans; [apply (frame_did [Active false] c0)|].
      eapply frame_trans; [apply (frame_did [RequireAuthentication] (did [Active false] c0))|].
      apply (frame_cleanup (did [RequireAuthentication] (set_ended true (did [Active false] (set_owner c0))))).
  - unfold on_rejected. set (c1 := if ended c0 then c0 else did [Active a] c0).
    assert (frame c0 c1) as H1 by (subst c1; destruct (ended c0); [apply frame_refl|apply frame_did]).
    destruct (_ || _); [eapply frame_trans; [exact H1|apply (frame_did _ c1)]|].
    eapply frame_trans; [exact H1|].
    destruct o2; [|exact (frame_did _ c1)]. eapply (frame_trans _ (did _ c1)); [apply frame_did|]. exact (frame_did [_] (did _ c1)).
  - unfold onSocketError. destruct o; [|apply frame_remove]. eapply frame_trans; [apply frame_remove|apply frame_did].
  - unfold on_close. eapply (frame_trans _ (unlisted c0)); [by split_and!|]. destruct (listenersDisposed _); [apply frame_refl|apply frame_remove].
Qed.
Lemma frame_beat o c : frame c (beat_client o c).
Proof.
  unfold beat_client. destruct (listed c), o, (bool_decide (alive c = Some false)); cbn [negb]; try apply frame_refl; apply (frame_did [_] c).
Qed.
Lemma frame_terminate c : frame c (terminate_client c).
Proof. unfold terminate_client. destruct (listed c); [apply frame_did|apply frame_refl]. Qed.

(** How many of its own steps a client can still take at most. *)
Definition load (c : client) : nat :=
  match at_place c with Queued => 4 | Connecting => 3 | Rejected => 2 | AwaitCleanup => 1 | Returned => 0 end +
  match cleanupPromise c with Uncleaned => 3 | ClosingOwner => 2 | RemovingOwner => 1 | Cleaned => 0 end.
Lemma load_cleanup c : (load (cleanupOwner c) ≤ load c)%nat ∧ at_place (cleanupOwner c) = at_place c.
Proof.
  unfold cleanupOwner, cleanup_code. destruct (cleanupPromise c) eqn:Hc; try done. destruct (owner c); [|done].
  unfold load. rewrite Hc. destruct (authenticationEnded c); cbn; split; try done; lia.
Qed.
Lemma load_remove b c : (load (removeRegistration b c) ≤ load c)%nat.
Proof. apply (load_cleanup (did [Active b; Unregister] (set_ended (negb b) (disposeSocketListeners c)))). Qed.
Lemma load_moved p c : load (moved p c) = (load (moved Returned c) + match p with Queued => 4 | Connecting => 3 | Rejected => 2 | AwaitCleanup => 1 | Returned => 0 end)%nat.
Proof. unfold load. cbn. lia. Qed.
Lemma load_place c : load c = load (moved (at_place c) c).
Proof. done. Qed.
Lemma load_step c c' : cstep c c' → (load c' < load c)%nat.
Proof.
  intros [x c0 Hx Hp|x a o t c0 Hx Hp|c0 Hp|x a o1 o2 c0 Hx Hp|x c0 Hx Hp|c0 Hp|c0 Hp Hc].
  - unfold load. cbn. rewrite Hp. lia.
  - assert (∀ c1, load c1 = load c0 → at_place c1 = Connecting → (load (moved AwaitCleanup (cleanupOwner c1)) < load c0)%nat) as Hcl.
    { intros c1 Hl Hp1. pose proof (load_cleanup c1) as [Hle Hpl]. rewrite <-Hl.
      rewrite load_place, Hpl, Hp1, load_moved in Hle. rewrite load_moved. lia. }
    unfold connected. destruct a; cbn [negb].
    + destruct (_ || _); [by apply Hcl|]. unfold load. cbn. rewrite Hp. destruct t; lia.
    + cbn [ended did set_ended orb]. by apply Hcl.
  - unfold load. cbn. rewrite Hp. lia.
  - unfold on_rejected. destruct (ended c0), a, o2; unfold load; cbn; rewrite Hp; lia.
  - unfold load. cbn. rewrite Hp. lia.
  - unfold load. cbn. rewrite Hp. lia.
  - unfold load. cbn. rewrite Hp, Hc. lia.
Qed.
Lemma load_event c c' : cevent c c' → (load c' ≤ load c)%nat.
Proof.
  intros [c0 Hp|a o c0 Hp|a c0 Hp]; [done| |].
  - unfold onSocketError. destruct o; apply (load_remove a c0).
  - unfold on_close. destruct (listenersDisposed _); [done|]. apply (load_remove a (unlisted c0)).
Qed.
Lemma load_beat o c : load (beat_client o c) = load c.
Proof. unfold beat_client. by destruct (listed c), o, (bool_decide (alive c = Some false)). Qed.
Lemma load_terminate c : load (terminate_client c) = load c.
Proof. unfold terminate_client. by destruct (listed c). Qed.

(** A client that waits for nothing has ended, and has cleaned up its bridge
    if its socket is gone. *)
Lemma client_settled c : client_ok c → (∀ c', ¬ cstep c c') →
  at_place c = Returned ∧ (cleanupPromise c = Uncleaned ∨ cleanupPromise c = Cleaned) ∧
  (owner c = true → listed c = false → count is_owner_close c = 1%nat ∧ count is_owner_remove c = 1%nat).
Proof.
  intros [K1 (N1 & N2 & _) _] Hs.
  assert (∀ x, connection_of c = Some x → at_place c ≠ Queued ∧ at_place c ≠ Connecting ∧ at_place c ≠ Rejected ∧ cleanupPromise c ≠ ClosingOwner) as H1.
  { intros x Hx. split_and!; intros Hp; eapply Hs.
    - by eapply c_connect.
    - by apply c_failed.
    - by apply (c_rejected x true true true).
    - by eapply c_owner_closed. }
  assert (cleanupPromise c ≠ RemovingOwner) as H2 by (intros Hp; by eapply Hs, c_owner_removed).
  assert (at_place c = AwaitCleanup → cleanupPromise c ≠ Cleaned) as H3 by (intros Hp Hq; by eapply Hs, c_cleaned).
  rewrite N1, N2. clear N1 N2 Hs. unfold flags_ok, has_entry, cleaning_started, removal_started in *.
  destruct (connection_of c) as [x|]; [destruct (H1 x eq_refl) as (? & ? & ? & ?)|]; clear H1;
    destruct (at_place c), (cleanupPromise c), (owner c), (listed c), (ended c), (listenersDisposed c); cbn in *; try discriminate K1; try done; split_and!; auto; try done; try (by destruct H3); intros; try congruence.
Qed.
