(* ===== verification/WebSocketSafety.v ===== *)
(** The server of [WebSocket]: the admission of an upgrade, the custody of the
    bridges, and the shutdown. *)
From S2P Require Import Prelude SafeString Json Tabs Protocol TerminalBridge Headers Origin SessionManager WsAuthIndex WebSocket WebSocketFacts.
Open Scope Z_scope.

(** ** The calls of one upgrade *)

Definition is_respond (a : uact) : bool := match a with Respond _ => true | _ => false end.
Definition responses (l : list uact) : nat := length (List.filter is_respond l).
(** The calls of an upgrade that becomes a connection. *)
Definition admission (x : connection) : list uact :=
  let a := authority x in
  [Authenticated (Some a); UActive a true; Authorized (sessionId x) (Some (token x)); UActive a true; HandleUpgrade;
   UActive a true; Registered a (sessionId x) true].
(** An upgrade ends with one response, or with the socket in the hands of ws. *)
Definition ends_once (l : list uact) : Prop :=
  (∃ pre st, l = pre ++ [Respond st] ∧ responses pre = 0%nat ∧ st ∈ [401; 403; 404; 503]) ∨
  (responses l = 0%nat ∧ HandleUpgrade ∈ l).
(** The session manager is asked for a token behind an authentication only. *)
Definition token_guarded (id : jsstr) (l : list uact) : Prop :=
  ∀ i t, Authorized i t ∈ l → i = id ∧ ∃ a rest, l = Authenticated (Some a) :: UActive a true :: rest.
Definition upgraded_client (k : nat) (id : jsstr) (l : list uact) (c : client) : Prop :=
  upgrade_of c = k ∧ client_ok c ∧ responses l = 0%nat ∧ listed c = true ∧
  match connection_of c with
  | Some x => sessionId x = id ∧ l = admission x
  | None => ∀ a i, Registered a i true ∉ l
  end.

Lemma ends_respond pre st : responses pre = 0%nat → st ∈ [401; 403; 404; 503] → ends_once (pre ++ [Respond st]).
Proof. intros Hp Hst. left. eauto. Qed.
Ltac in_list := repeat (apply elem_of_cons; first [left; reflexivity | right]).
(** [H]: an element of a list of calls that has another constructor. *)
Ltac no_more H := repeat (apply elem_of_cons in H as [H|H]; [congruence|]); by apply not_elem_of_nil in H.
Ltac refused_after pre guarded :=
  split_and!; [by apply (ends_respond pre); [|in_list]|apply guarded; intros ? ? Hin; no_more Hin|done].

Lemma callback_facts k id t a n : let '(l, c) := upgrade_callback k id t a n in
  upgraded_client k id ([Authenticated (Some a); UActive a true; Authorized id (Some t); UActive a true; HandleUpgrade] ++ l) c ∧
  ∀ i t', Authorized i t' ∉ l.
Proof.
  unfold upgrade_callback. destruct (active3 n); cbn [negb].
  - destruct (registered n); cbn [negb].
    + split; [by repeat split; try apply on_connection_ok|]. intros ? ? Hi. no_more Hi.
    + split; [split_and!; try done; [apply refused_client_ok|]|]; intros ? ? Hi; no_more Hi.
  - split; [split_and!; try done; [apply refused_client_ok|]|]; intros ? ? Hi; no_more Hi.
Qed.
Lemma continue_facts k id acc n : let '(l, c) := continueUpgrade k id acc n in
  ends_once l ∧ token_guarded id l ∧
  match c with Some c => acc = true ∧ upgraded_client k id l c | None => True end.
Proof.
  unfold continueUpgrade.
  assert (∀ l : list uact, (∀ i t, Authorized i t ∈ l → False) → token_guarded id l) as Hnone by (intros l Hl i t Hi; by destruct (Hl i t)).
  destruct (authenticated n) as [[a|]|]; [|refused_after [Authenticated None] Hnone|refused_after [AuthenticateFailed] Hnone].
  destruct (active1 n); cbn [negb]; [|refused_after [Authenticated (Some a); UActive a false] Hnone].
  set (b := [Authenticated (Some a); UActive a true]).
  assert (∀ l, (∀ i t, Authorized i t ∈ b ++ l → i = id) → token_guarded id (b ++ l)) as Hsome.
  { intros l Hl i t Hi. split; [by apply (Hl i t)|by exists a, l]. }
  destruct (authorized n) as [[t|]|];
    [|refused_after (b ++ [Authorized id None]) (Hsome [Authorized id None; Respond 404])
     |refused_after (b ++ [AuthorizeFailed id]) (Hsome [AuthorizeFailed id; Respond 401])].
  set (d := b ++ [Authorized id (Some t)]).
  destruct acc; cbn [negb]; [|refused_after d (Hsome [Authorized id (Some t); Respond 503])].
  destruct (active2 n); cbn [negb]; [|refused_after (d ++ [UActive a false]) (Hsome [Authorized id (Some t); UActive a false; Respond 401])].
  set (e := d ++ [UActive a true; HandleUpgrade]).
  destruct (upgraded n); [| |refused_after e (Hsome [Authorized id (Some t); UActive a true; HandleUpgrade; Respond 401])].
  - pose proof (callback_facts k id t a n) as Hcb. destruct (upgrade_callback k id t a n) as [l c]. destruct Hcb as [Hc Hl].
    split_and!; [right; split; [apply Hc|in_list]| |done|done].
    apply (Hsome ([Authorized id (Some t); UActive a true; HandleUpgrade] ++ l)). intros i t' Hi.
    repeat (apply elem_of_cons in Hi as [Hi|Hi]; [congruence|]). by destruct (Hl i t').
  - split_and!; [right; split; [done|in_list]| |done].
    apply (Hsome [Authorized id (Some t); UActive a true; HandleUpgrade]). intros ? ? Hi. no_more Hi.
Qed.

(** ** The invariant *)

(** The clients after a step that adds none. *)
Definition evolves (cs cs' : list client) : Prop :=
  length cs' = length cs ∧ ∀ j c', cs' !! j = Some c' →
    ∃ c, cs !! j = Some c ∧ frame c c' ∧ (client_ok c → client_ok c') ∧ (load c' ≤ load c)%nat.
Lemma evolves_refl cs : evolves cs cs.
Proof. split; [done|]. intros j c Hj. by exists c. Qed.
Lemma evolves_insert i c c' cs : cs !! i = Some c → cstep c c' ∨ cevent c c' → evolves cs (<[i := c']> cs).
Proof.
  intros Hi Hs. split; [by rewrite length_insert|]. intros j d. destruct (decide (i = j)) as [<-|Hne].
  - rewrite list_lookup_insert_eq by by eapply lookup_lt_Some. intros [= <-]. exists c. split_and!; [done|by apply frame_step|by apply client_step|].
    destruct Hs as [?%load_step|?%load_event]; lia.
  - rewrite list_lookup_insert_ne by done. intros Hj. by exists d.
Qed.
Lemma evolves_beat opens cs : evolves cs (imap (λ i, beat_client (opens i)) cs).
Proof.
  split; [by rewrite length_imap|]. intros j c'. rewrite list_lookup_imap. intros (c & Hj & ->)%fmap_Some.
  exists c. split_and!; [done|apply frame_beat|apply beat_ok|by rewrite load_beat].
Qed.
Lemma evolves_terminate cs : evolves cs (terminate_client <$> cs).
Proof.
  split; [by rewrite length_fmap|]. intros j c'. rewrite list_lookup_fmap. intros (c & Hj & ->)%fmap_Some.
  exists c. split_and!; [done|apply frame_terminate|apply terminate_ok|by rewrite load_terminate].
Qed.
Lemma evolves_upgrades cs cs' : evolves cs cs' → upgrade_of <$> cs' = upgrade_of <$> cs.
Proof.
  intros [Hl He]. apply list_eq_same_length with (n := length cs); rewrite ?length_fmap; [done..|]. intros i x y _.
  rewrite !list_lookup_fmap. intros (c' & Hi & ->)%fmap_Some (c & Hj & ->)%fmap_Some.
  destruct (He i c' Hi) as (d & Hd & Hf & _). simplify_eq. by destruct Hf.
Qed.

Section server.
Context `{LowerCase, UrlParser}.
Context (options : UpgradeAuthorizationOptions) (configured : bool).
Abbreviation sstep := (sstep options configured).

Definition allowed (u : upgrade) (id : jsstr) : Prop := authorizeUpgrade (request u) options = Allowed id.
Definition upgrade_ok (u : upgrade) : Prop :=
  match stage_of u with
  | Authenticating id => allowed u id ∧ log u = [] ∧ configured = true
  | Ended => ends_once (log u)
  end ∧
  ∀ id t, Authorized id t ∈ log u → allowed u id ∧ ∃ a rest, log u = Authenticated (Some a) :: UActive a true :: rest.
Definition client_from (u : upgrade) (c : client) : Prop :=
  stage_of u = Ended ∧ responses (log u) = 0%nat ∧ configured = true ∧
  match connection_of c with
  | Some x => allowed u (sessionId x) ∧ log u = admission x
  | None => ∀ a i, Registered a i true ∉ log u
  end.
Record closed_ok (s : server) : Prop := {
  z_accepting : accepting s = false;
  z_heartbeat : heartbeat s = false;
  z_listener : close_listener s = false;
  z_method : close_method s ≠ Hooked;
  z_disposed : configured = true → disposals s ≠ 0%nat;
  z_terminated : ∀ i c, clients s !! i = Some c → listed c = true → Terminate ∈ acts c;
}.
Record server_ok (s : server) : Prop := {
  s_clients : ∀ i c, clients s !! i = Some c → client_ok c;
  s_upgrades : ∀ k u, upgrades s !! k = Some u → upgrade_ok u;
  s_from : ∀ i c, clients s !! i = Some c → ∃ u, upgrades s !! upgrade_of c = Some u ∧ client_from u c;
  s_once : NoDup (upgrade_of <$> clients s);
  s_listener : upgrade_listener s = accepting s;
  s_closed : closePromise s = true → closed_ok s;
}.

Lemma server_created_ok : server_ok createTerminalWebSocketServer.
Proof. split; cbn; try done. apply NoDup_nil_2. Qed.
(** A step that keeps the upgrades and adds no client. *)
Lemma evolves_ok s s' : server_ok s → upgrades s' = upgrades s → evolves (clients s) (clients s') →
  upgrade_listener s' = accepting s' → (closePromise s' = true → closed_ok s') → server_ok s'.
Proof.
  intros [S1 S2 S3 S4 S5 S6] Hu He Hl Hc. split; try done.
  - intros i c' Hi. destruct (proj2 He i c' Hi) as (c & Hj & _ & Hok & _). by eapply Hok, S1.
  - by rewrite Hu.
  - intros i c' Hi. destruct (proj2 He i c' Hi) as (c & Hj & (Hk & Hx & _) & _).
    rewrite Hu, Hk. destruct (S3 i c Hj) as (u & ? & Hf). exists u. split; [done|]. unfold client_from in *. by rewrite Hx.
  - by rewrite (evolves_upgrades _ _ He).
Qed.
Lemma closed_evolves s s' : closed_ok s → evolves (clients s) (clients s') → accepting s' = accepting s →
  heartbeat s' = heartbeat s → close_listener s' = close_listener s → close_method s' = close_method s →
  disposals s' = disposals s → closed_ok s'.
Proof.
  intros [Z1 Z2 Z3 Z4 Z5 Z6] He E1 E2 E3 E4 E5. split; [congruence|congruence|congruence|congruence|by rewrite E5|].
  intros i c' Hi Hl. destruct (proj2 He i c' Hi) as (c & Hj & (_ & _ & Hp & Hm) & _).
  destruct Hp as [l ->]. apply elem_of_app. left. eauto.
Qed.

(** *** The upgrades *)

Lemma upgrade_begin_ok r s : server_ok s → server_ok (on_upgrade options configured r s).
Proof.
  intros [S1 S2 S3 S4 S5 S6]. split; cbn; try done.
  - intros k u [Hu|[_ Hu]]%lookup_app_Some; [by eapply S2|]. apply list_lookup_singleton_Some in Hu as [_ <-].
    assert (∀ st, st ∈ [401; 403; 404; 503] → upgrade_ok (Upgrade r Ended [Respond st])) as Hr.
    { intros st Hst. split; [by apply (ends_respond [])|]. intros id t Hi. no_more Hi. }
    unfold acceptUpgrade. destruct (accepting s); cbn [negb]; [|apply Hr; in_list].
    destruct (authorizeUpgrade r options) as [id|st] eqn:Ha.
    + destruct configured eqn:Hc; [|apply Hr; in_list]. split; [done|]. intros i t Hi. no_more Hi.
    + apply Hr. revert Ha. unfold authorizeUpgrade. repeat case_match; intros [= <-]; in_list.
  - intros i c Hi. destruct (S3 i c Hi) as (u & Hu & Hf). exists u. split; [by apply lookup_app_l_Some|done].
  - intros Hc. by apply (closed_evolves s); [auto|apply evolves_refl|..].
Qed.
Lemma upgrade_resume_ok k u id n s : upgrades s !! k = Some u → stage_of u = Authenticating id →
  server_ok s → server_ok (resume_upgrade k id n s).
Proof.
  intros Hu Hst [S1 S2 S3 S4 S5 S6]. unfold resume_upgrade.
  pose proof (continue_facts k id (accepting s) n) as Hf. destruct (continueUpgrade k id (accepting s) n) as [l o]. destruct Hf as (He & Ht & Ho).
  destruct (S2 _ _ Hu) as [Hok _]. rewrite Hst in Hok. destruct Hok as (Ha & Hlog & Hcf).
  set (u' := Upgrade (request u) Ended (log u ++ l)).
  assert (log u' = l) as Hl' by (cbn; by rewrite Hlog).
  set (us := alter (λ u, Upgrade (request u) Ended (log u ++ l)) k (upgrades s)).
  assert (us !! k = Some u') as Hk by (subst us; by rewrite list_lookup_alter_eq, Hu).
  assert (∀ j, j ≠ k → us !! j = upgrades s !! j) as Hne by (intros j ?; subst us; by rewrite list_lookup_alter_ne).
  assert (∀ i c, clients s !! i = Some c → upgrade_of c ≠ k) as Hnew.
  { intros i c Hi Hk'. destruct (S3 i c Hi) as (v & Hv & Hs & _). congruence. }
  assert (∀ i c, (clients s ++ match o with Some c => [c] | None => [] end) !! i = Some c → clients s !! i = Some c ∨ o = Some c) as Hin.
  { intros i c [?|[_ Hi]]%lookup_app_Some; [by left|right]. destruct o; [|done]. by apply list_lookup_singleton_Some in Hi as [_ <-]. }
  split; cbn -[alter]; fold us; try done.
  - intros i c [?| ->]%Hin; [by eapply S1|]. by destruct Ho as (_ & _ & ? & _).
  - intros j v. destruct (decide (j = k)) as [->|?]; [|rewrite Hne by done; apply S2]. rewrite Hk. intros [= <-].
    split; [by rewrite Hl'|]. rewrite Hl'. intros i t Hi. destruct (Ht i t Hi) as [-> ?]. done.
  - intros i c [Hc|Hc]%Hin.
    + rewrite Hne by by eapply Hnew. by eapply S3.
    + subst o. destruct Ho as (_ & -> & _ & Hr & _ & Hx). exists u'. split; [done|].
      split_and!; try done; rewrite ?Hl'; [done|]. destruct (connection_of c); [|done]. by destruct Hx as [<- ?].
  - rewrite fmap_app. destruct o as [c|]; cbn; [|by rewrite app_nil_r]. destruct Ho as (_ & <- & _).
    apply NoDup_app. split_and!; [done| |apply NoDup_singleton]. intros j (c' & -> & [i Hi]%list_elem_of_lookup)%list_elem_of_fmap.
    rewrite list_elem_of_singleton. by eapply Hnew.
  - intros Hc. destruct (S6 Hc) as [Z1 Z2 Z3 Z4 Z5 Z6]. split; try done. cbn.
    intros i c [Hi|Hi]%Hin; [by eapply Z6|]. subst o. destruct Ho as [? _]. congruence.
Qed.

(** *** The control *)

Lemma stopAccepting_evolves s : evolves (clients s) (clients (stopAccepting s)).
Proof. unfold stopAccepting. destruct (negb _); apply evolves_refl. Qed.
Lemma control_frame s :
  clients (onHttpServerClose configured s) = clients s ∧ upgrades (onHttpServerClose configured s) = upgrades s ∧
  accepting (onHttpServerClose configured s) = false ∧ heartbeat (onHttpServerClose configured s) = false ∧
  closePromise (onHttpServerClose configured s) = closePromise s ∧ close_listener (onHttpServerClose configured s) = close_listener s ∧
  close_method (onHttpServerClose configured s) ≠ Hooked ∧
  (configured = true → disposals (onHttpServerClose configured s) = S (disposals s)) ∧
  (upgrade_listener s = accepting s → upgrade_listener (onHttpServerClose configured s) = false).
Proof.
  unfold onHttpServerClose, restoreHttpServerClose, stopAccepting.
  destruct (accepting s) eqn:Ha; cbn [negb]; unfold disposeAuthentication, stopHeartbeat; cbn [close_method];
    destruct (bool_decide (close_method s = Hooked)) eqn:Hm; cbn; rewrite ?Ha; split_and!; try done;
    try (by apply bool_decide_eq_false in Hm); by intros ->.
Qed.
Lemma close_frame s : closePromise s = false → let s' := close configured s in
  clients s' = terminate_client <$> clients s ∧ upgrades s' = upgrades s ∧
  accepting s' = false ∧ heartbeat s' = false ∧ closePromise s' = true ∧ close_listener s' = false ∧
  close_method s' ≠ Hooked ∧ (configured = true → disposals s' = S (disposals s)) ∧
  (upgrade_listener s = accepting s → upgrade_listener s' = false).
Proof.
  intros Hc. unfold close, restoreHttpServerClose, stopAccepting. rewrite Hc.
  destruct (accepting s) eqn:Ha; cbn [negb]; unfold disposeAuthentication, closeClients, stopHeartbeat; cbn [close_method with_clients];
    destruct (bool_decide (close_method s = Hooked)) eqn:Hm; cbn; rewrite ?Ha; split_and!; try done;
    try (by apply bool_decide_eq_false in Hm); by intros ->.
Qed.
Lemma terminated_all (cs : list client) (i : nat) c : (terminate_client <$> cs) !! i = Some c → listed c = true → Terminate ∈ acts c.
Proof.
  rewrite list_lookup_fmap. intros (c0 & Hi & ->)%fmap_Some Hl. unfold terminate_client in *.
  destruct (listed c0) eqn:Hc; [|congruence]. apply elem_of_app. right. by left.
Qed.
Lemma http_close_ok s : server_ok s → server_ok (onHttpServerClose configured s).
Proof.
  intros Hs. destruct (control_frame s) as (E1 & E2 & E3 & E4 & E5 & E6 & E7 & E8 & E9).
  apply (evolves_ok s); try done; [rewrite E1; apply evolves_refl| |].
  - rewrite E3. apply E9, Hs.
  - rewrite E5. intros [Z1 Z2 Z3 Z4 Z5 Z6]%(s_closed _ Hs). split; try done; [congruence| |by rewrite E1].
    intros Hcf. by rewrite E8.
Qed.
Lemma without_listener_ok s : server_ok s → server_ok (without_close_listener s).
Proof.
  intros Hs. apply (evolves_ok s); try done; [apply evolves_refl|apply Hs|].
  intros [Z1 Z2 Z3 Z4 Z5 Z6]%(s_closed _ Hs). by split.
Qed.

Theorem server_step_ok s s' : sstep s s' → server_ok s → server_ok s'.
Proof.
  assert (∀ s i c c', clients s !! i = Some c → cstep c c' ∨ cevent c c' → server_ok s →
    server_ok (with_clients (<[i := c']> (clients s)) s)) as Hclient.
  { intros t i c c' Hi Hs Ht. pose proof (evolves_insert i c c' (clients t) Hi Hs) as He.
    apply (evolves_ok t); try done; [apply Ht|]. intros Hc. by apply (closed_evolves t); [apply Ht|..]. }
  intros [? ? [i c c' t Hi Hc]|i c c' t Hi Hc|r t Hl|k u id n t Hu Hst|opens t Hh|t|t|t|t|t Hm|t Hl|m t Hm] Hs.
  - eapply Hclient; eauto.
  - eapply Hclient; eauto.
  - by apply upgrade_begin_ok.
  - by eapply upgrade_resume_ok.
  - apply (evolves_ok t); try done; [apply evolves_beat|apply Hs|].
    intros Hc. pose proof (z_heartbeat _ (s_closed _ Hs Hc)). congruence.
  - apply (evolves_ok t); try done; [by unfold stopAccepting; destruct (negb _)|apply stopAccepting_evolves| |].
    + unfold stopAccepting. destruct (accepting t) eqn:Ha; cbn; [done|apply Hs].
    + unfold stopAccepting. destruct (accepting t) eqn:Ha; cbn; [|apply Hs].
      intros Hc. pose proof (z_accepting _ (s_closed _ Hs Hc)). congruence.
  - apply (evolves_ok t); try done; [apply evolves_refl|apply Hs|]. intros [Z1 Z2 Z3 Z4 Z5 Z6]%(s_closed _ Hs). by split.
  - apply (evolves_ok t); try done; [apply evolves_terminate|apply Hs|].
    intros Hc. by apply (closed_evolves t); [apply Hs|apply evolves_terminate|..].
  - destruct (closePromise t) eqn:Hc; [unfold close; by rewrite Hc|].
    destruct (close_frame t Hc) as (E1 & E2 & E3 & E4 & E5 & E6 & E7 & E8 & E9).
    apply (evolves_ok t); try done; [rewrite E1; apply evolves_terminate|rewrite E3; apply E9, Hs|].
    intros _. split; try done; [intros Hcf; by rewrite E8|]. rewrite E1. apply terminated_all.
  - by apply http_close_ok.
  - by apply http_close_ok, without_listener_ok.
  - apply (evolves_ok t); try done; [apply evolves_refl|apply Hs|]. intros [Z1 Z2 Z3 Z4 Z5 Z6]%(s_closed _ Hs). by split.
Qed.
Lemma server_steps_ok s s' : rtc sstep s s' → server_ok s → server_ok s'.
Proof. induction 1 as [|? ? ? Hstep ? IH]; [done|]. intros Hs. by apply IH, (server_step_ok _ _ Hstep). Qed.

(** *** Once the server has stopped accepting *)

Lemma stopped_step s s' : sstep s s' → server_ok s → accepting s = false →
  accepting s' = false ∧ evolves (clients s) (clients s').
Proof.
  intros [? ? [i c c' t Hi Hc]|i c c' t Hi Hc|r t Hl|k u id n t Hu Hst|opens t Hh|t|t|t|t|t Hm|t Hl|m t Hm] Hs Ha;
    try (split; [done|first [apply evolves_refl|by eapply evolves_insert; eauto|apply evolves_beat|apply evolves_terminate]]).
  - unfold resume_upgrade. rewrite Ha. pose proof (continue_facts k id false n) as Hf.
    destruct (continueUpgrade k id false n) as [l [c|]]; destruct Hf as (_ & _ & Hc); [by destruct Hc|]. cbn. rewrite app_nil_r.
    split; [done|apply evolves_refl].
  - unfold stopAccepting. rewrite Ha. split; [done|apply evolves_refl].
  - destruct (closePromise t) eqn:Hc; [unfold close; rewrite Hc; split; [done|apply evolves_refl]|].
    destruct (close_frame t Hc) as (-> & _ & -> & _). split; [done|apply evolves_terminate].
  - destruct (control_frame t) as (-> & _ & -> & _). split; [done|apply evolves_refl].
  - destruct (control_frame (without_close_listener t)) as (-> & _ & -> & _). split; [done|apply evolves_refl].
Qed.
End server.

(** The steps that the connections can still take by themselves. *)
Definition server_load (s : server) : nat := sum_list (load <$> clients s).
Lemma evolves_load (cs cs' : list client) : evolves cs cs' → (sum_list (load <$> cs') ≤ sum_list (load <$> cs))%nat.
Proof.
  revert cs'. induction cs as [|c cs IH]; intros [|c' cs'] [Hl He]; try done.
  destruct (He 0%nat c' eq_refl) as (? & [= <-] & _ & _ & Hc). cbn in *.
  assert (sum_list (load <$> cs') ≤ sum_list (load <$> cs))%nat; [|lia].
  apply IH. split; [lia|]. intros j d Hj. by apply (He (S j) d).
Qed.
#[local] Arguments load : simpl never.
Lemma sum_load_insert (i : nat) c c' (cs : list client) : cs !! i = Some c → (sum_list (load <$> <[i := c']> cs) + load c = sum_list (load <$> cs) + load c')%nat.
Proof.
  revert i. induction cs as [|d cs IH]; intros [|i] Hi; try done; cbn in *; [simplify_eq; lia|]. rewrite <-Nat.add_assoc. etrans; [apply (f_equal (λ n, (load d + n)%nat)), (IH i Hi)|]. apply Nat.add_assoc.
Qed.
Lemma own_load s s' : own_step s s' → (server_load s' < server_load s)%nat.
Proof. intros [i c c' t Hi Hc]. unfold server_load. cbn. pose proof (sum_load_insert i c c' _ Hi). apply load_step in Hc. lia. Qed.
Lemma on_le b : (on b ≤ 1)%nat.
Proof. destruct b; cbn; lia. Qed.
Lemma load_bound s : (server_load s ≤ 7 * length (clients s))%nat.
Proof.
  unfold server_load. induction (clients s) as [|c cs IH]; [done|].
  assert (load c ≤ 7)%nat by (unfold load; destruct (at_place c), (cleanupPromise c); lia). cbn -[Nat.mul] in *. lia.
Qed.
Lemma close_stays `{LowerCase, UrlParser} options configured s s' : sstep options configured s s' → closePromise s = true → closePromise s' = true.
Proof.
  intros [? ? [i c c' t Hi Hc]|i c c' t Hi Hc|r t Hl|k u id n t Hu Hst|opens t Hh|t|t|t|t|t Hm|t Hl|m t Hm] Hp; try done.
  - unfold resume_upgrade. by destruct (continueUpgrade _ _ _ _).
  - unfold stopAccepting. by destruct (negb _).
  - unfold close. by rewrite Hp.
  - by destruct (control_frame configured t) as (_ & _ & _ & _ & -> & _).
  - by destruct (control_frame configured (without_close_listener t)) as (_ & _ & _ & _ & -> & _).
Qed.

(** * The theorems *)

Section theorems.
Context `{LowerCase, UrlParser}.
Context (options : UpgradeAuthorizationOptions) (configured : bool).
Abbreviation sstep := (sstep options configured).
Abbreviation start := createTerminalWebSocketServer.

Lemma server_reachable_ok s : rtc sstep start s → server_ok options configured s.
Proof. intros Hs. by eapply server_steps_ok, server_created_ok. Qed.
Lemma stopped_steps s s' : rtc sstep s s' → server_ok options configured s → accepting s = false →
  accepting s' = false ∧ length (clients s') = length (clients s) ∧ (server_load s' ≤ server_load s)%nat.
Proof.
  induction 1 as [|? y ? Hstep ? IH]; [done|]. intros Hs Ha. destruct (stopped_step _ _ _ _ Hstep Hs Ha) as [Hy He].
  destruct (IH (server_step_ok _ _ _ _ Hstep Hs) Hy) as (? & -> & Hl). split_and!; [done|apply He|].
  etrans; [exact Hl|]. by apply evolves_load.
Qed.

Lemma closed_steps s s' : rtc sstep s s' → closePromise s = true → closePromise s' = true.
Proof. induction 1 as [|? ? ? Hstep]; eauto using close_stays. Qed.

(** C9: an upgrade gets one response, or becomes one connection; the session
    manager issues a token, and a connection exists, only for a request that
    [authorizeUpgrade] allows for that very session, whose authority the
    authenticator gave and the index held active at each check and registered;
    a socket without registration never reaches a terminal; and nothing is
    admitted once the server has stopped accepting, whatever is in flight. *)
Theorem websocket_admission s : rtc sstep start s →
  (∀ k u, upgrades s !! k = Some u →
     match stage_of u with
     | Authenticating id => allowed options u id ∧ log u = []
     | Ended => ends_once (log u)
     end ∧
     (∀ id t, Authorized id t ∈ log u →
        allowed options u id ∧ ∃ a rest, log u = Authenticated (Some a) :: UActive a true :: rest)) ∧
  (∀ i c, clients s !! i = Some c → ∃ u, upgrades s !! upgrade_of c = Some u ∧ responses (log u) = 0%nat ∧
     match connection_of c with
     | Some x => allowed options u (sessionId x) ∧ log u = admission x
     | None => (∀ a id, Registered a id true ∉ log u) ∧ owner c = false ∧ ∀ t d, Connect t d ∉ acts c
     end) ∧
  (∀ i j c c', clients s !! i = Some c → clients s !! j = Some c' → upgrade_of c = upgrade_of c' → i = j) ∧
  (accepting s = false → ∀ s', rtc sstep s s' → length (clients s') = length (clients s)) ∧
  (∀ status, status ∈ [401; 403; 404; 503] → ∃ head body, rejectUpgrade status =
     head ++ js "Content-Length: " ++ number_to_string (Z.of_nat (length body)) ++ crlf ++ crlf ++ body).
Proof.
  intros Hr. pose proof (server_reachable_ok _ Hr) as Hs. pose proof Hs as [S1 S2 S3 S4 S5 S6]. split_and!.
  - intros k u Hu. destruct (S2 k u Hu) as [Ho Ht]. split; [|done]. destruct (stage_of u); [|done]. by destruct Ho as (? & ? & _).
  - intros i c Hi. destruct (S3 i c Hi) as (u & Hu & _ & Hn & _ & Hx). exists u. split_and!; [done..|].
    destruct (connection_of c) as [x|] eqn:Hc; [done|]. destruct (S1 i c Hi) as [Hf (_ & _ & _) [_ _ _ A4 _ _]]. split_and!; [done| |].
    + unfold flags_ok, has_entry in Hf. rewrite Hc in Hf. by destruct (owner c).
    + intros t d Hin. destruct (A4 t d Hin) as (x & Hx' & _). congruence.
  - intros i j c c' Hi Hj Hk. apply (NoDup_lookup _ i j (upgrade_of c) S4); rewrite list_lookup_fmap, ?Hi, ?Hj; cbn; congruence.
  - intros Ha s' Hs'. by apply (stopped_steps s s').
  - intros st. repeat (intros [->|Hst]%elem_of_cons; [|revert Hst]); [..|by intros ?%not_elem_of_nil].
    + exists (take 87 (rejectUpgrade 401)), (js "401 Unauthorized" ++ [10]). vm_compute. reflexivity.
    + exists (take 84 (rejectUpgrade 403)), (js "403 Forbidden" ++ [10]). vm_compute. reflexivity.
    + exists (take 84 (rejectUpgrade 404)), (js "404 Not Found" ++ [10]). vm_compute. reflexivity.
    + exists (take 94 (rejectUpgrade 503)), (js "503 Service Unavailable" ++ [10]). vm_compute. reflexivity.
Qed.

(** C10: [connect] is called once for a connection, with the token of its
    admission; the bridge it delivers is closed at most once and removed from
    the registry after that, and is always closed once the socket is gone, has
    failed or was not open; the code tells an ended authentication exactly when
    one was observed; the client is told that it is ready right after the
    authority was found active, and gets one frame at most; the registration in
    the index is dropped once; and the heartbeat terminates an open socket
    exactly when its last ping is unanswered. *)
Theorem connection_custody s i c x :
  rtc sstep start s → clients s !! i = Some c → connection_of c = Some x →
  (count is_connect c ≤ 1)%nat ∧ (∀ t d, Connect t d ∈ acts c → t = token x ∧ d = initial_dimensions) ∧
  (count is_owner_remove c ≤ count is_owner_close c ≤ on (owner c))%nat ∧
  (owner c = true → (ended c = true ∨ listed c = false ∨ at_place c = AwaitCleanup) → count is_owner_close c = 1%nat) ∧
  (∀ code reason, OwnerClose code reason ∈ acts c →
     (code = AUTHENTICATION_REQUIRED ∧ reason = AUTHENTICATION_REQUIRED_REASON ∧ Active false ∈ acts c) ∨
     (code = 1001 ∧ reason = js "socket_closed")) ∧
  (∀ k id ok, acts c !! k = Some (Send (Ready id) ok) →
     owner c = true ∧ id = sessionId x ∧ ∃ j, k = S j ∧ acts c !! j = Some (Active true)) ∧
  (count is_sent c ≤ 1)%nat ∧
  count is_unregister c = on (listenersDisposed c) ∧ (listed c = false → listenersDisposed c = true) ∧
  (listed c = true → (beat_client true c = did [Terminate] c ↔ last (List.filter is_beat (acts c)) = Some Ping)).
Proof.
  intros Hs%server_reachable_ok Hi Hx. destruct (s_clients _ _ _ Hs i c Hi) as [Hf (N1 & N2 & N3 & N4 & N5 & N6) [A1 A2 A3 A4 A5 A6]].
  unfold flags_ok, has_entry in *. rewrite Hx in *. split_and!.
  - rewrite N3. apply on_le.
  - intros t d Hc. destruct (A4 t d Hc) as (y & Hy & ?). by simplify_eq.
  - rewrite N1, N2. unfold cleaning_started, removal_started in *. destruct (cleanupPromise c), (owner c); cbn in *; try discriminate Hf; lia.
  - rewrite N1. unfold cleaning_started in *. destruct (cleanupPromise c), (owner c); cbn in *; try discriminate Hf; lia.
  - intros Ho Hor. rewrite N1, Ho in *. clear N1 N2 N3 N4 N5 N6 A1 A2 A3 A4 A5 A6. destruct (cleaning_started c); [done|].
    destruct (ended c), (listed c), (listenersDisposed c), (at_place c); cbn in *; try discriminate Hf; by destruct Hor as [?|[?|?]].
  - done.
  - intros k id ok Hk. destruct (A5 k id ok Hk) as (? & (y & Hy & ->) & ?). by simplify_eq.
  - etrans; [exact N5|]. apply on_le.
  - by rewrite N4.
  - intros Hl. rewrite Hl in Hf. destruct (listenersDisposed c); [done|]. exfalso. cbn in Hf. by rewrite !andb_false_r in Hf.
  - intros Hl. rewrite <-A6. unfold beat_client. rewrite Hl. cbn [negb]. split.
    + intros Hb. destruct (bool_decide (alive c = Some false)) eqn:He; [by apply bool_decide_eq_true in He|].
      apply (f_equal acts) in Hb. cbn in Hb. by apply app_inj_2 in Hb as [_ [=]].
    + intros Ha. by rewrite bool_decide_true.
Qed.

(** C11: after [close] the clients stay the same and have all been terminated,
    no upgrade is listened for, the index is disposed and the timer is off,
    whatever happens next; each step on a promise makes the bounded remaining
    work smaller and no event makes it grow; when no such step is left, no
    chain is pending, and every bridge whose socket is gone was closed and
    removed exactly once. *)
Theorem websocket_shutdown_terminates s s' :
  rtc sstep start s → rtc sstep (close configured s) s' →
  length (clients s') = length (clients s) ∧ accepting s' = false ∧
  (server_load s' ≤ 7 * length (clients s))%nat ∧
  (∀ s2 s3, rtc sstep s' s2 → own_step s2 s3 → (server_load s3 < server_load s2 ≤ server_load s')%nat) ∧
  heartbeat s' = false ∧ upgrade_listener s' = false ∧ close_method s' ≠ Hooked ∧
  (configured = true → disposals s' ≠ 0%nat) ∧
  (∀ i c, clients s' !! i = Some c → listed c = true → Terminate ∈ acts c) ∧
  ((∀ s2, ¬ own_step s' s2) → ∀ i c, clients s' !! i = Some c →
     at_place c = Returned ∧
     (owner c = true → listed c = false → count is_owner_close c = 1%nat ∧ count is_owner_remove c = 1%nat)).
Proof.
  intros Hr Hs'. pose proof (server_reachable_ok _ Hr) as Hs.
  pose proof (server_step_ok _ _ _ _ (s_close options configured s) Hs) as Hc.
  assert (closePromise (close configured s) = true ∧ length (clients (close configured s)) = length (clients s)) as [Hp Hl].
  { destruct (closePromise s) eqn:He; [unfold close; by rewrite He|]. destruct (close_frame configured s He) as (-> & _ & _ & _ & -> & _).
    by rewrite length_fmap. }
  pose proof (s_closed _ _ _ Hc Hp) as Hz.
  destruct (stopped_steps _ _ Hs' Hc (z_accepting _ _ Hz)) as (Ha & Hl' & Hload).
  pose proof (server_steps_ok _ _ _ _ Hs' Hc) as Hok. pose proof (s_closed _ _ _ Hok (closed_steps _ _ Hs' Hp)) as [Z1 Z2 Z3 Z4 Z5 Z6].
  split_and!; try done; try congruence.
  - etrans; [apply load_bound|]. by rewrite Hl', Hl.
  - intros s2 s3 H2 H3. split; [by apply own_load|]. by apply (stopped_steps s' s2).
  - rewrite (s_listener _ _ _ Hok). done.
  - intros Hn i c Hi. destruct (client_settled c) as (? & _ & ?); [by eapply s_clients| |done].
    intros c' Hstep. eapply Hn. by econstructor.
Qed.
End theorems.

(** A connection whose socket closes after it was told that it is ready. *)
Definition sample_authority : ApplicationSessionAuthority :=
  {| applicationSessionId := js "a"; auth_generation := 1; expiresAt := 1000 |}.
Definition sample_token : AttachToken := {| token_ref := 0; token_session := sample_session; token_generation := 1 |}.
Definition sample_entry : connection := Connection sample_session sample_token sample_authority.
Definition agreed : answers :=
  Answers (Ok (Some sample_authority)) true (Ok (Some sample_token)) true Completes true true true true.
Section sample.
#[local] Existing Instance ascii_lower_case.
#[local] Existing Instance sample_urls.
Abbreviation run := (rtc (sstep sample_upgrade_options true)).
Definition asked : server := on_upgrade sample_upgrade_options true sample_upgrade createTerminalWebSocketServer.
Definition admitted : server := resume_upgrade 0 sample_session agreed asked.
Definition change (f : client → client) (s : server) : server :=
  match clients s !! 0%nat with Some c => with_clients (<[0%nat := f c]> (clients s)) s | None => s end.
Definition attaching : server := change (call_connect sample_entry) admitted.
Definition attached : server := change (connected sample_entry true true true) attaching.
Definition dropped : server := change (on_close true) attached.
Lemma run_attached : run createTerminalWebSocketServer attached.
Proof.
  apply (rtc_l _ _ asked); [by apply s_upgrade|].
  apply (rtc_l _ _ admitted).
  { apply (s_resume _ _ 0 (Upgrade sample_upgrade (Authenticating sample_session) []) sample_session agreed asked); [|done].
    unfold asked, on_upgrade, acceptUpgrade. rewrite (proj1 sample_upgrades). reflexivity. }
  apply (rtc_l _ _ attaching).
  { apply s_own, (o_client 0 (on_connection 0 (Some sample_entry)) _ admitted); [reflexivity|]. by apply c_connect. }
  apply rtc_once, s_own, (o_client 0 (call_connect sample_entry (on_connection 0 (Some sample_entry))) _ attaching); [reflexivity|].
  by apply (c_connected sample_entry true true true).
Qed.
Lemma run_dropped : run createTerminalWebSocketServer dropped.
Proof.
  eapply rtc_r; [apply run_attached|].
  apply (s_event _ _ 0 (connected sample_entry true true true (call_connect sample_entry (on_connection 0 (Some sample_entry)))) _ attached);
    [reflexivity|]. by apply (e_close true).
Qed.
Lemma websocket_admission_witness : ∃ u, upgrades attached !! 0%nat = Some u ∧ log u = admission sample_entry.
Proof.
  destruct (websocket_admission sample_upgrade_options true attached run_attached) as (_ & H & _).
  destruct (H 0%nat (connected sample_entry true true true (call_connect sample_entry (on_connection 0 (Some sample_entry)))) eq_refl)
    as (u & Hu & _ & _ & Hl). by exists u.
Defined.
Lemma connection_custody_witness : ∃ c, clients dropped !! 0%nat = Some c ∧ count is_owner_close c = 1%nat.
Proof.
  eexists. split; [reflexivity|].
  eapply (connection_custody sample_upgrade_options true dropped 0 _ sample_entry run_dropped); [reflexivity|reflexivity|reflexivity|by right; left].
Defined.
Lemma websocket_shutdown_terminates_witness : length (clients (close true attached)) = 1%nat ∧ heartbeat (close true attached) = false.
Proof.
  destruct (websocket_shutdown_terminates sample_upgrade_options true attached _ run_attached (rtc_refl _ _)) as (-> & _ & _ & _ & H & _).
  by split.
Defined.
End sample.
