(* ===== verification/Logger.v ===== *)
(** [apps/server/src/logger.ts]: what the lifecycle logger lets through to its
    destination.  Metadata is an object that the caller built: reading a key of
    it may throw. *)
From S2P Require Import Prelude SafeString Json Tabs Headers TerminalBridge.
Open Scope Z_scope.

(** A value that is neither a string nor a number is [None]. *)
Abbreviation metadata := (jsstr → res unit (option json)).

Definition recognizedEvents : list jsstr :=
  [js "administration_action_failed"; js "administration_action_succeeded"; js "administration_cleanup_failed";
   js "administration_cleanup_succeeded"; js "administration_read_failed"; js "authentication_activity_failed";
   js "authentication_request_rejected"; js "authentication_route_failed"; js "protocol_message_rejected";
   js "server_started"; js "settings_route_failed"; js "settings_store_durability_degraded"; js "shutdown_failed";
   js "socket_close_failed"; js "socket_error"; js "subscription_dispose_failed"; js "tab_store_durability_degraded";
   js "terminal_activity_failed"; js "terminal_backpressure"; js "terminal_closed"; js "terminal_connection_failed";
   js "terminal_exited"; js "terminal_kill_failed"; js "terminal_opened"; js "terminal_resize_failed";
   js "terminal_send_failed"; js "terminal_setup_failed"; js "terminal_write_failed"].
Definition allowedCategories : list jsstr :=
  [js "restart_bridge"; js "restart_session"; js "terminate"; js "recreate"; js "cleanup_completed";
   js "invalid_request"; js "origin_forbidden"; js "tab_not_found"; js "session_limit"; js "order_conflict";
   js "invalid_session_state"; js "json_required"; js "operation_failed"; js "authentication_required";
   js "authentication_failed"; js "csrf_invalid"; js "rate_limited"; js "password_invalid"; js "settings_invalid";
   js "durability_uncertain"; js "cleanup_disabled"; js "binary_payload"; js "payload_too_large"; js "invalid_json";
   js "invalid_message"; js "session_mismatch"; js "cleanup_failed"].

(** * Patterns *)

Definition safeSessionIdPattern : jsstr → bool := match_chars TAB_ID_PATTERN.
Definition alphanumeric (c : Z) : bool :=
  ((48 <=? c) && (c <=? 57)) || ((65 <=? c) && (c <=? 90)) || ((97 <=? c) && (c <=? 122)).
(** [/^[A-Za-z0-9.:[\]_-]{1,255}$/] *)
Definition safeBindHostPattern (s : jsstr) : bool :=
  (1 <=? length s)%nat && (length s <=? 255)%nat && forallb (λ c, alphanumeric c || char_in (js ".:[]_-") c) s.
(** [/^\/(?:[A-Za-z0-9._~-]+\/?)*$/]: [previous] is a slash, which no other may
    follow. *)
Fixpoint path_rest (previous : bool) (s : jsstr) : bool :=
  match s with
  | [] => true
  | c :: s => if c =? 47 then negb previous && path_rest true s
              else (alphanumeric c || char_in (js "._~-") c) && path_rest false s
  end.
Definition safeBasePathPattern (s : jsstr) : bool :=
  match s with c :: s => (c =? 47) && path_rest true s | [] => false end.
(** [/^sha256:[a-f0-9]{64}$/] *)
Definition identityHashPattern : jsstr → bool :=
  match_chars ((Z.eqb <$> js "sha256:") ++ replicate 64 is_lower_hex).

(** * Sanitizing *)

Definition readMetadata (m : metadata) (key : jsstr) : option json :=
  match m key with Ok v => v | Throw _ => None end.
(** The copy functions yield what they add to the target. *)
Definition copy (ok : json → bool) (m : metadata) (key : jsstr) : list (jsstr * json) :=
  match readMetadata m key with Some v => if ok v then [(key, v)] else [] | None => [] end.
Definition allowed_string (allowed : list jsstr) (v : json) : bool :=
  match v with JStr s => bool_decide (s ∈ allowed) | _ => false end.
Definition pattern_string (pattern : jsstr → bool) (maximumLength : nat) (v : json) : bool :=
  match v with JStr s => (length s <=? maximumLength)%nat && pattern s | _ => false end.
Definition integer_value (minimum maximum : Z) (v : json) : bool :=
  match v with JNum z => is_safe_integer z && (minimum <=? z) && (z <=? maximum) | _ => false end.
Definition copyAllowedString m key allowed := copy (allowed_string allowed) m key.
Definition copyString m key pattern maximumLength := copy (pattern_string pattern maximumLength) m key.
Definition copyInteger m key minimum maximum := copy (integer_value minimum maximum) m key.

Definition sanitizeMetadata (m : metadata) : list (jsstr * json) :=
  copyString m (js "sessionId") safeSessionIdPattern 36 ++
  copyAllowedString m (js "category") allowedCategories ++
  copyInteger m (js "exitCode") (-2147483648) 2147483647 ++
  copyInteger m (js "signal") 0 2147483647 ++
  copyInteger m (js "bufferedAmount") 0 MAX_SAFE_INTEGER ++
  copyInteger m (js "code") 0 65535 ++
  copyInteger m (js "port") 1 65535 ++
  copyInteger m (js "status") 100 599 ++
  copyString m (js "bindHost") safeBindHostPattern 255 ++
  copyString m (js "basePath") safeBasePathPattern 256 ++
  copyString m (js "identityHash") identityHashPattern 71.
Definition eventName (event : jsstr) : jsstr :=
  if bool_decide (event ∈ recognizedEvents) then event else js "unrecognized_event".
(** The object that [info], [warn] and [error] give to pino. *)
Definition log_object (event : jsstr) (m : metadata) : json :=
  JObj (sanitizeMetadata m ++ [(js "event", JStr (eventName event))]).

(** * Theorems *)

(** The fields and what each of them may hold. *)
Definition fields : list (jsstr * (json → bool)) :=
  [(js "sessionId", pattern_string safeSessionIdPattern 36); (js "category", allowed_string allowedCategories);
   (js "exitCode", integer_value (-2147483648) 2147483647); (js "signal", integer_value 0 2147483647);
   (js "bufferedAmount", integer_value 0 MAX_SAFE_INTEGER); (js "code", integer_value 0 65535);
   (js "port", integer_value 1 65535); (js "status", integer_value 100 599);
   (js "bindHost", pattern_string safeBindHostPattern 255); (js "basePath", pattern_string safeBasePathPattern 256);
   (js "identityHash", pattern_string identityHashPattern 71)].
Definition sanitize_with (fs : list (jsstr * (json → bool))) (m : metadata) : list (jsstr * json) :=
  flat_map (λ f, copy f.2 m f.1) fs.
Lemma sanitize_fields m : sanitizeMetadata m = sanitize_with fields m.
Proof. unfold sanitize_with, fields. cbn [flat_map]. rewrite app_nil_r. reflexivity. Qed.
Lemma field_names_distinct : NoDup (fields.*1 ++ [js "event"]).
Proof. apply (bool_decide_unpack _). vm_compute. exact I. Qed.

Lemma sanitize_elem fs m k v : (k, v) ∈ sanitize_with fs m ↔
  readMetadata m k = Some v ∧ ∃ ok, (k, ok) ∈ fs ∧ ok v = true.
Proof.
  unfold sanitize_with. induction fs as [|[k' ok'] fs IH]; cbn [flat_map].
  - split; [by intros ?%not_elem_of_nil|]. intros (_ & ok & ?%not_elem_of_nil & _). done.
  - rewrite elem_of_app, IH. unfold copy. cbn [fst snd]. split.
    + intros [Hin|(Hr & ok & Hin & Hok)].
      * destruct (readMetadata m k') as [w|] eqn:Hr; [|by apply not_elem_of_nil in Hin].
        destruct (ok' w) eqn:Hw; [|by apply not_elem_of_nil in Hin]. apply list_elem_of_singleton in Hin. injection Hin as -> ->.
        split; [done|]. exists ok'. split; [by left|done].
      * split; [done|]. exists ok. split; [by right|done].
    + intros (Hr & ok & Hin & Hok). apply elem_of_cons in Hin as [Hin|Hin]; [|right; eauto].
      injection Hin as -> ->. left. rewrite Hr, Hok. by left.
Qed.
Lemma sanitize_keys fs m : NoDup (fs.*1) → NoDup ((sanitize_with fs m).*1) ∧ ∀ k, k ∈ (sanitize_with fs m).*1 → k ∈ fs.*1.
Proof.
  unfold sanitize_with. induction fs as [|[k ok] fs IH]; cbn [flat_map fmap list_fmap fst]; [split; [constructor|done]|].
  intros [Hk Hn]%NoDup_cons. destruct (IH Hn) as [H1 H2]. unfold copy. cbn [fst snd].
  destruct (readMetadata m k) as [v|]; [destruct (ok v)|]; cbn [app]; try (split; [done|]; intros j Hj; right; by apply H2).
  cbn [fmap list_fmap fst]. split; [apply NoDup_cons; split; [by intros ?%H2|done]|].
  intros j [->|Hj]%elem_of_cons; [by left|right; by apply H2].
Qed.

(** A character that cannot break a line of the log. *)
Definition plain (c : Z) : Prop := 33 <= c <= 126.
Lemma alphanumeric_plain c : alphanumeric c = true → plain c.
Proof. unfold alphanumeric, plain. rewrite !orb_true_iff, !andb_true_iff, !Z.leb_le. lia. Qed.
Lemma char_in_plain cs c : Forall plain cs → char_in cs c = true → plain c.
Proof. intros Hf Hc%bool_decide_eq_true. by apply (proj1 (Forall_forall _ _) Hf). Qed.
Definition plainb (c : Z) : bool := (33 <=? c) && (c <=? 126).
Lemma plain_list s : forallb plainb s = true → Forall plain s.
Proof.
  intros Hs. apply Forall_forall. intros c Hc. rewrite forallb_forall in Hs.
  apply list_elem_of_In, Hs, andb_true_iff in Hc as [?%Z.leb_le ?%Z.leb_le]. by split.
Qed.
Ltac plain_chars := apply plain_list; vm_compute; reflexivity.
Lemma match_plain ps s : (∀ p c, p ∈ ps → p c = true → plain c) → match_chars ps s = true → Forall plain s.
Proof.
  revert s. induction ps as [|p ps IH]; intros [|c s] Hp; cbn; try done. intros [Hc Hs]%andb_true_iff. constructor.
  - apply (Hp p); [by left|done].
  - apply IH; [|done]. intros q d Hq. apply Hp. by right.
Qed.
Lemma hex_plain c : is_lower_hex c = true → plain c.
Proof. unfold is_lower_hex, plain. rewrite orb_true_iff, !andb_true_iff, !Z.leb_le. lia. Qed.
Lemma session_plain s : safeSessionIdPattern s = true → Forall plain s.
Proof.
  apply match_plain. intros p c Hp Hc. unfold TAB_ID_PATTERN in Hp.
  repeat (apply elem_of_app in Hp as [Hp|Hp]); try (apply elem_of_replicate in Hp as [-> _]; by apply hex_plain);
    apply list_elem_of_singleton in Hp as ->; try (apply Z.eqb_eq in Hc as <-; unfold plain, dash; lia);
    try (eapply char_in_plain; [|exact Hc]; plain_chars).
Qed.
Lemma hash_plain s : identityHashPattern s = true → Forall plain s.
Proof.
  apply match_plain. intros p c [Hp|Hp]%elem_of_app Hc; [|apply elem_of_replicate in Hp as [-> _]; by apply hex_plain].
  apply list_elem_of_fmap in Hp as (d & -> & Hd). apply Z.eqb_eq in Hc as <-.
  eapply (proj1 (Forall_forall plain (js "sha256:"))); [plain_chars|done].
Qed.
Lemma host_plain s : safeBindHostPattern s = true → Forall plain s.
Proof.
  intros [_ Hs]%andb_true_iff. apply Forall_forall. intros c Hc. rewrite forallb_forall in Hs.
  apply list_elem_of_In, Hs, orb_true_iff in Hc as [?|Hc]; [by apply alphanumeric_plain|].
  eapply char_in_plain; [|exact Hc]. plain_chars.
Qed.
Lemma path_plain b s : path_rest b s = true → Forall plain s.
Proof.
  revert b. induction s as [|c s IH]; intros b; cbn -[char_in alphanumeric]; [done|].
  destruct (Z.eqb_spec c 47) as [->|_].
  - intros [_ Hs]%andb_true_iff. constructor; [unfold plain; lia|by eapply IH].
  - intros [Hc Hs]%andb_true_iff. constructor; [|by eapply IH]. apply orb_true_iff in Hc as [?|Hc]; [by apply alphanumeric_plain|].
    eapply char_in_plain; [|exact Hc]. plain_chars.
Qed.
Lemma base_path_plain s : safeBasePathPattern s = true → Forall plain s.
Proof.
  destruct s as [|c s]; [done|]. intros [->%Z.eqb_eq Hs]%andb_true_iff. constructor; [unfold plain; lia|by eapply path_plain].
Qed.
Lemma categories_plain : Forall (λ s, Forall plain s ∧ (length s ≤ 256)%nat) allowedCategories.
Proof.
  apply Forall_forall. intros s Hs.
  assert (forallb (λ s, forallb plainb s && (length s <=? 256)%nat) allowedCategories = true) as Hall by (vm_compute; reflexivity).
  rewrite forallb_forall in Hall. apply list_elem_of_In, Hall, andb_true_iff in Hs as [Hs Hl%Nat.leb_le].
  split; [by apply plain_list|done].
Qed.
Lemma pattern_string_inv p n s : pattern_string p n (JStr s) = true → (length s ≤ n)%nat ∧ p s = true.
Proof. cbn. by intros [?%Nat.leb_le ?]%andb_true_iff. Qed.
Lemma field_strings k ok s : (k, ok) ∈ fields → ok (JStr s) = true → Forall plain s ∧ (length s ≤ 256)%nat.
Proof.
  assert (∀ p n, (n ≤ 256)%nat → (∀ s, p s = true → Forall plain s) → pattern_string p n (JStr s) = true → Forall plain s ∧ (length s ≤ 256)%nat) as Hp.
  { intros p n Hn Hpl [? ?]%pattern_string_inv. split; [auto|lia]. }
  intros Hin. repeat (apply elem_of_cons in Hin as [Hin|Hin]); try (by apply not_elem_of_nil in Hin);
    apply (f_equal snd) in Hin; cbn [snd] in Hin; subst ok; try discriminate.
  - apply Hp; [lia|apply session_plain].
  - intros Hs%bool_decide_eq_true. by apply (proj1 (Forall_forall _ _) categories_plain).
  - apply Hp; [lia|apply host_plain].
  - apply Hp; [lia|apply base_path_plain].
  - apply Hp; [lia|apply hash_plain].
Qed.

(** A password next to a category: it does not reach the record. *)
Definition with_secret (secret : jsstr) : metadata := λ k,
  if bool_decide (k = js "category") then Ok (Some (JStr (js "csrf_invalid")))
  else if bool_decide (k = js "password") then Ok (Some (JStr secret)) else Throw tt.

(** The events that [TerminalBridge] logs are known, but for one: a failure
    to terminate its socket is recorded as [unrecognized_event]. *)
Definition bridge_events : list jsstr :=
  [js "terminal_exited"; js "socket_error"; js "terminal_setup_failed"; js "terminal_opened"; js "terminal_write_failed";
   js "terminal_resize_failed"; js "protocol_message_rejected"; js "terminal_backpressure"; js "terminal_send_failed";
   js "terminal_activity_failed"; js "subscription_dispose_failed"; js "terminal_kill_failed"; js "socket_close_failed";
   js "socket_terminate_failed"; js "terminal_closed"].
Theorem terminate_failure_unrecognized e : e ∈ bridge_events →
  eventName e = if bool_decide (e = js "socket_terminate_failed") then js "unrecognized_event" else e.
Proof.
  intros Hin. repeat (apply elem_of_cons in Hin as [->|Hin]; [vm_compute; reflexivity|]). by apply not_elem_of_nil in Hin.
Qed.
