(* ===== verification/WorkspaceBootstrap.v ===== *)
(** [apps/server/src/workspace-bootstrap.ts]: the class [WorkspaceBootstrap].
    Each call queues one operation behind the earlier ones, whether they
    succeeded or not; an operation creates the initial tab when the settings
    ask for it at that moment. *)
From S2P Require Import Prelude PromiseQueue.

Inductive outcome := Resolved | BootstrapFailed.
(** An operation has no argument, and awaits [ensureInitialTab] only. *)
Definition bootstrap : Type := queue unit unit outcome.

Definition ensureForAuthenticatedSession (b : bootstrap) : bootstrap := enqueue tt b.
(** The start of an operation; [snapshot] is the answer of
    [settingsStore.snapshot().automaticTabCreation], or its throw. *)
Definition start_operation (snapshot : res unit bool) (i : nat) (b : bootstrap) : bootstrap :=
  match snapshot with
  | Throw _ => settle i BootstrapFailed b
  | Ok false => settle i Resolved b
  | Ok true => await i tt b
  end.
(** [ensureInitialTab] settles. *)
Definition initial_tab_settled (ok : bool) (i : nat) (b : bootstrap) : bootstrap :=
  settle i (if ok then Resolved else BootstrapFailed) b.

Inductive own_step : bootstrap → bootstrap → Prop :=
| o_start snapshot i b b' : next_job b = Some (i, tt, b') → own_step b (start_operation snapshot i b')
| o_settled ok i b : active b = Some (i, tt) → own_step b (initial_tab_settled ok i b).
Inductive bstep : bootstrap → bootstrap → Prop :=
| b_call b : bstep b (ensureForAuthenticatedSession b)
| b_own b b' : own_step b b' → bstep b b'.

(** Calls settle in their order, one at a time. *)
Definition in_order (b : bootstrap) : Prop := ids b = seq 0 (calls b).
Lemma step_in_order b b' : bstep b b' → in_order b → in_order b'.
Proof.
  unfold in_order, ids. intros [c|? ? [snapshot i c c' Hn|ok i c Ha]] Hc.
  - cbn [ensureForAuthenticatedSession enqueue settled active jobs calls]. rewrite fmap_app, seq_S, <-Hc, <-!(assoc_L (++)). done.
  - apply next_job_Some in Hn as (Ha & Hj & Ha' & Hk & Hs). rewrite Ha, Hj in Hc.
    destruct snapshot as [[]|]; cbn [start_operation await settle settled active jobs calls]; rewrite Hk, Hs, ?fmap_app, <-Hc;
      rewrite <-?(assoc_L (++)); done.
  - rewrite Ha in Hc. cbn [initial_tab_settled settle settled active jobs calls]. rewrite fmap_app, <-Hc, <-(assoc_L (++)). done.
Qed.
Definition left_over (b : bootstrap) : nat := pending (λ _, 1%nat) 1 b.
Lemma own_decreases b b' : own_step b b' → (left_over b' < left_over b)%nat.
Proof.
  unfold left_over. intros [snapshot i c c' Hn|ok i c Ha].
  - destruct (next_pending (λ _, 1%nat) 1 _ _ _ _ Hn) as [H1 H2]. destruct snapshot as [[]|]; [by apply H2|apply H1..].
  - by apply (active_pending (λ _, 1%nat) 1 _ _ _ Ha (Nat.lt_0_succ 0)).
Qed.
(** Something can run as long as a call has not settled. *)
Lemma own_progress b : (∀ b', ¬ own_step b b') → active b = None ∧ jobs b = [].
Proof.
  intros Hs. destruct (active b) as [[i []]|] eqn:Ha; [by destruct (Hs _ (o_settled true i b Ha))|].
  destruct (jobs b) as [|[i []] js] eqn:Hj; [done|]. destruct (Hs (start_operation (Ok true) i (Queue js None (calls b) (settled b)))).
  apply o_start. unfold next_job. by rewrite Ha, Hj.
Qed.
Theorem workspace_bootstrap_serial b : rtc bstep empty_queue b →
  (settled b).*1 = seq 0 (length (settled b)) ∧
  (∀ b', own_step b b' → (left_over b' < left_over b)%nat) ∧
  ((∀ b', ¬ own_step b b') → length (settled b) = calls b).
Proof.
  intros Hs. assert (in_order b) as Hb.
  { cut (∀ x y, rtc bstep x y → in_order x → in_order y); [intros Hc; by apply (Hc _ _ Hs)|].
    induction 1 as [|? ? ? Hstep ? IH]; [done|]. intros Hx. by apply IH, (step_in_order _ _ Hstep). }
  unfold in_order, ids in Hb. split_and!.
  - apply (f_equal (take (length (settled b)))) in Hb. rewrite take_app_length' in Hb by by rewrite length_fmap.
    rewrite Hb, take_seq. f_equal. pose proof (f_equal length Hb) as Hl. rewrite length_take, length_fmap, length_seq in Hl. lia.
  - apply own_decreases.
  - intros [Ha Hj]%own_progress. rewrite Ha, Hj, app_nil_r in Hb. apply (f_equal length) in Hb.
    by rewrite length_fmap, length_seq in Hb.
Qed.
