(* ===== verification/TerminalAuth.v ===== *)
(** [apps/client/src/terminal-auth-suspension.ts]: which terminals of the page
    were suspended because their authentication ended, in module-level tables
    that outlive the components.

    A token is an object, named by its place in [tokens]; [microtasks] are the
    sessions of the queued callbacks of [unregister]. *)
From S2P Require Import Prelude JsMap.

Definition MAX_SESSION_IDS : nat := 20.
Definition MAX_REGISTRATIONS : nat := MAX_SESSION_IDS * 2.

Record token := Token { t_session : jsstr; restored : bool; preserveOnUnmount : bool; registered : bool }.
Record suspensions := Suspensions {
  tokens : list token;
  active : list (jsstr * list nat);
  suspended : list jsstr;
  registrationCount : nat;
  microtasks : list jsstr;
}.
Definition no_suspensions : suspensions := Suspensions [] [] [] 0 [].

Definition with_tokens (ts : list token) (s : suspensions) : suspensions :=
  Suspensions ts (active s) (suspended s) (registrationCount s) (microtasks s).
Definition with_suspended (l : list jsstr) (s : suspensions) : suspensions :=
  Suspensions (tokens s) (active s) l (registrationCount s) (microtasks s).

Definition isTerminalAuthSuspended (id : jsstr) (s : suspensions) : bool := bool_decide (id ∈ suspended s).

(** [None]: it throws. *)
Definition registerTerminalAuthLifecycle (id : jsstr) (s : suspensions) : option (nat * suspensions) :=
  if (MAX_REGISTRATIONS <=? registrationCount s)%nat then None
  else
    let i := length (tokens s) in
    let t := Token id (isTerminalAuthSuspended id s) false true in
    Some (i, Suspensions (tokens s ++ [t]) (jm_set id (default [] (jm_get id (active s)) ++ [i]) (active s))
               (suspended s) (S (registrationCount s)) (microtasks s)).

(** The loop makes room for one more. *)
Definition remember (id : jsstr) (l : list jsstr) : list jsstr :=
  if bool_decide (id ∈ l) then l else drop (length l - (MAX_SESSION_IDS - 1)) l ++ [id].
Definition rememberSuspension (id : jsstr) (s : suspensions) : suspensions :=
  with_suspended (remember id (suspended s)) s.
Definition flag (b : bool) (t : token) : token := Token (t_session t) b b (registered t).
Definition flag_all (b : bool) (regs : list nat) (s : suspensions) : suspensions :=
  with_tokens (foldl (λ ts i, alter (flag b) i ts) (tokens s) regs) s.

Definition suspendTerminalAuthLifecycle (id : jsstr) (s : suspensions) : suspensions :=
  let s := rememberSuspension id s in flag_all true (default [] (jm_get id (active s))) s.
Definition suspendActiveTerminalAuthLifecycles (s : suspensions) : suspensions :=
  foldl (λ s e, flag_all true e.2 (rememberSuspension e.1 s)) s (active s).
Definition clearTerminalAuthSuspension (id : jsstr) (s : suspensions) : suspensions :=
  let s := with_suspended (filter (λ x, x ≠ id) (suspended s)) s in
  flag_all false (default [] (jm_get id (active s))) s.

(** [registrations?.delete(token)], and the entry when it is empty. *)
Definition remove_registration (id : jsstr) (i : nat) (m : list (jsstr * list nat)) : list (jsstr * list nat) :=
  match jm_get id m with
  | Some regs =>
      let rest := filter (λ j, j ≠ i) regs in
      if bool_decide (rest = []) then jm_delete id m else jm_set id rest m
  | None => m
  end.
Definition unregistered (t : token) : token := Token (t_session t) (restored t) (preserveOnUnmount t) false.
Definition unregister (i : nat) (s : suspensions) : suspensions :=
  match tokens s !! i with
  | Some t =>
      if registered t then
        Suspensions (alter unregistered i (tokens s)) (remove_registration (t_session t) i (active s)) (suspended s)
          (registrationCount s - 1)
          (if negb (restored t) || preserveOnUnmount t then microtasks s else microtasks s ++ [t_session t])
      else s
  | None => s
  end.
(** The first queued callback. *)
Definition run_microtask (s : suspensions) : suspensions :=
  match microtasks s with
  | id :: rest =>
      Suspensions (tokens s) (active s)
        (if jm_has id (active s) then suspended s else filter (λ x, x ≠ id) (suspended s)) (registrationCount s) rest
  | [] => s
  end.

Inductive ustep : suspensions → suspensions → Prop :=
| u_register id i s s' : registerTerminalAuthLifecycle id s = Some (i, s') → ustep s s'
| u_unregister i s : ustep s (unregister i s)
| u_suspend id s : ustep s (suspendTerminalAuthLifecycle id s)
| u_suspendActive s : ustep s (suspendActiveTerminalAuthLifecycles s)
| u_clear id s : ustep s (clearTerminalAuthSuspension id s)
| u_microtask s : ustep s (run_microtask s).

(** * The invariant *)

Definition live (ts : list token) (i : nat) (id : jsstr) : Prop :=
  ∃ t, ts !! i = Some t ∧ registered t = true ∧ t_session t = id.
Definition live_count (ts : list token) : nat := length (List.filter registered ts).
Record suspensions_ok (s : suspensions) : Prop := {
  ok_distinct : NoDup (suspended s);
  ok_bounded : (length (suspended s) ≤ MAX_SESSION_IDS)%nat;
  ok_count : registrationCount s = live_count (tokens s);
  ok_registrations : (registrationCount s ≤ MAX_REGISTRATIONS)%nat;
  ok_map : jm_wf (active s);
  ok_active : ∀ id regs, jm_get id (active s) = Some regs → regs ≠ [] ∧ NoDup regs;
  ok_live : ∀ i id, live (tokens s) i id ↔ ∃ regs, jm_get id (active s) = Some regs ∧ i ∈ regs;
}.

Lemma remember_ok id l : NoDup l → (length l ≤ MAX_SESSION_IDS)%nat →
  NoDup (remember id l) ∧ (length (remember id l) ≤ MAX_SESSION_IDS)%nat ∧ id ∈ remember id l.
Proof.
  intros Hn Hl. unfold remember. destruct (bool_decide (id ∈ l)) eqn:Hb.
  - apply bool_decide_eq_true in Hb. done.
  - apply bool_decide_eq_false in Hb. set (k := (length l - (MAX_SESSION_IDS - 1))%nat).
    pose proof Hn as Hd. rewrite <-(take_drop k l) in Hd. apply NoDup_app in Hd as (_ & _ & Hd). split_and!.
    + apply NoDup_app. split_and!; [done| |apply NoDup_singleton].
      intros x Hx ->%list_elem_of_singleton. apply Hb. rewrite <-(take_drop k l). apply elem_of_app. by right.
    + rewrite length_app, length_drop. cbn. unfold MAX_SESSION_IDS in *. lia.
    + apply elem_of_app. right. by left.
Qed.

(** Steps that keep who is registered. *)
Definition same_live (ts ts' : list token) : Prop :=
  length ts' = length ts ∧ ∀ i, (λ t, (t_session t, registered t)) <$> (ts' !! i) = (λ t, (t_session t, registered t)) <$> (ts !! i).
Lemma same_live_iff ts ts' i id : same_live ts ts' → live ts' i id ↔ live ts i id.
Proof.
  intros [_ He]. specialize (He i). unfold live. destruct (ts !! i) as [t|], (ts' !! i) as [t'|]; cbn in He; [|done|done|split; by intros (? & ? & _)].
  injection He as E1 E2. split; intros (u & [= <-] & ? & ?); eexists; split_and!; try done; congruence.
Qed.
Lemma same_live_count ts ts' : same_live ts ts' → live_count ts' = live_count ts.
Proof.
  revert ts'. induction ts as [|t ts IH]; intros [|t' ts'] [Hl He]; try done.
  assert (live_count ts' = live_count ts) as Hc by (apply IH; split; [by injection Hl|intros i; apply (He (S i))]).
  specialize (He 0%nat). cbn in He. injection He as _ Hr. unfold live_count in *. cbn. rewrite Hr. destruct (registered t); cbn; lia.
Qed.
Lemma same_live_alter b i ts : same_live ts (alter (flag b) i ts).
Proof.
  split; [by rewrite length_alter|]. intros j. destruct (decide (i = j)) as [<-|Hne].
  - rewrite list_lookup_alter_eq. by destruct (ts !! i).
  - by rewrite list_lookup_alter_ne.
Qed.
Lemma same_live_all b regs ts : same_live ts (foldl (λ ts i, alter (flag b) i ts) ts regs).
Proof.
  revert ts. induction regs as [|i regs IH]; intros ts; [by split|]. cbn. destruct (IH (alter (flag b) i ts)) as [H1 H2].
  destruct (same_live_alter b i ts) as [H3 H4]. split; [by rewrite H1|]. intros j. by rewrite H2, H4.
Qed.
Lemma kept_ok s s' : suspensions_ok s → same_live (tokens s) (tokens s') → active s' = active s →
  registrationCount s' = registrationCount s → NoDup (suspended s') → (length (suspended s') ≤ MAX_SESSION_IDS)%nat → suspensions_ok s'.
Proof.
  intros [U1 U2 U3 U4 U5 U6 U7] Hl Ha Hc Hn Hb. split; rewrite ?Hc, ?Ha; try done.
  - by rewrite U3, (same_live_count _ _ Hl).
  - intros i id. by rewrite (same_live_iff _ _ _ _ Hl).
Qed.
Lemma suspend_ok b id regs s : suspensions_ok s → suspensions_ok (flag_all b regs (rememberSuspension id s)).
Proof.
  intros Hs. destruct (remember_ok id (suspended s) (ok_distinct _ Hs) (ok_bounded _ Hs)) as (? & ? & _).
  apply (kept_ok s); try done. apply same_live_all.
Qed.
Lemma suspensions_filter_ne (id : jsstr) l : (length (filter (λ x, x ≠ id) l) ≤ length l)%nat.
Proof. induction l as [|x l IH]; [done|]. rewrite filter_cons. destruct (decide _); cbn; lia. Qed.

Lemma live_count_unregister i t ts : ts !! i = Some t → registered t = true →
  live_count ts = S (live_count (alter unregistered i ts)).
Proof.
  revert i. induction ts as [|u ts IH]; intros [|i] Hi Ht; try done; unfold live_count in *; cbn in *.
  - injection Hi as ->. by rewrite Ht.
  - destruct (registered u); cbn; [|by apply IH]. f_equal. by apply IH.
Qed.
Lemma live_unregister i t ts j id : ts !! i = Some t → live (alter unregistered i ts) j id ↔ j ≠ i ∧ live ts j id.
Proof.
  intros Hi. unfold live. destruct (decide (i = j)) as [<-|Hne].
  - rewrite list_lookup_alter_eq, Hi. split; [|by intros [? _]]. intros (u & [= <-] & Hr & _). discriminate Hr.
  - rewrite list_lookup_alter_ne by done. split; [|by intros [_ ?]]. intros Hl. by split; [congruence|].
Qed.
Lemma live_snoc ts t i id : registered t = true → live (ts ++ [t]) i id ↔ live ts i id ∨ (i = length ts ∧ t_session t = id).
Proof.
  intros Ht. unfold live. split.
  - intros (u & [Hu|[Hge Hu]]%lookup_app_Some & Hr & Hid); [left; eauto|].
    apply list_lookup_singleton_Some in Hu as [? <-]. right. split; [lia|done].
  - intros [(u & Hu & ?)|[-> ?]]; [exists u; split; [by apply lookup_app_l_Some|done]|].
    exists t. split_and!; try done. rewrite lookup_app_r, Nat.sub_diag by done. done.
Qed.
Lemma live_lt ts i id : live ts i id → (i < length ts)%nat.
Proof. intros (t & Ht & _). by eapply lookup_lt_Some. Qed.

Lemma register_ok id i s s' : registerTerminalAuthLifecycle id s = Some (i, s') → suspensions_ok s → suspensions_ok s'.
Proof.
  unfold registerTerminalAuthLifecycle. destruct (Nat.leb_spec MAX_REGISTRATIONS (registrationCount s)) as [|Hlt]; [done|].
  intros [= <- <-] [U1 U2 U3 U4 U5 U6 U7]. split; cbn [suspended registrationCount tokens active]; try done.
  - unfold live_count in *. rewrite List.filter_app, length_app, <-U3. cbn. lia.
  - by apply jm_set_wf.
  - intros id' regs. rewrite jm_get_set. destruct (decide (id' = id)) as [->|]; [|apply U6]. intros [= <-]. split; [by intros [_ ?]%app_nil|].
    apply NoDup_app. split_and!; [|intros j Hj ->%list_elem_of_singleton|apply NoDup_singleton].
    + destruct (jm_get id (active s)) as [regs|] eqn:Hg; cbn; [by eapply U6|apply NoDup_nil_2].
    + destruct (jm_get id (active s)) as [regs|] eqn:Hg; cbn in Hj; [|by apply not_elem_of_nil in Hj].
      assert (live (tokens s) (length (tokens s)) id) as Hl by (apply U7; eauto). apply live_lt in Hl. lia.
  - intros j id'. rewrite live_snoc by done. cbn [t_session]. rewrite jm_get_set, U7. destruct (decide (id' = id)) as [->|Hne].
    + split.
      * intros [(regs & -> & Hj)|[-> _]]; eexists; (split; [done|]); apply elem_of_app; [by left|right; by left].
      * intros (regs & [= <-] & [Hj|Hj%list_elem_of_singleton]%elem_of_app); [|by right]. left.
        destruct (jm_get id (active s)) as [regs|]; [by exists regs|by apply not_elem_of_nil in Hj].
    + split; [by intros [?|[_ ?]]; [|congruence]|by left].
Qed.
Lemma unregister_ok i s : suspensions_ok s → suspensions_ok (unregister i s).
Proof.
  intros Hs. unfold unregister. destruct (tokens s !! i) as [t|] eqn:Hi; [|done]. destruct (registered t) eqn:Hr; [|done].
  destruct Hs as [U1 U2 U3 U4 U5 U6 U7].
  assert (live (tokens s) i (t_session t)) as Hl by (by exists t). destruct (proj1 (U7 _ _) Hl) as (regs & Hg & Hin).
  unfold remove_registration. rewrite Hg. set (rest := filter (λ j, j ≠ i) regs).
  assert (∀ j, j ∈ rest ↔ j ≠ i ∧ j ∈ regs) as Hrest by (intros j; unfold rest; by rewrite list_elem_of_filter).
  assert (∀ id', jm_get id' (if bool_decide (rest = []) then jm_delete (t_session t) (active s) else jm_set (t_session t) rest (active s)) =
    if decide (id' = t_session t) then (if bool_decide (rest = []) then None else Some rest) else jm_get id' (active s)) as Hget.
  { intros id'. destruct (bool_decide (rest = [])); rewrite ?jm_get_delete, ?jm_get_set; by destruct (decide _). }
  split; cbn [suspended registrationCount tokens active]; try done.
  - rewrite U3, (live_count_unregister _ _ _ Hi Hr). lia.
  - lia.
  - destruct (bool_decide (rest = [])); [by apply jm_delete_wf|by apply jm_set_wf].
  - intros id' regs'. rewrite Hget. destruct (decide _); [|apply U6]. destruct (bool_decide (rest = [])) eqn:Hb; [done|].
    intros [= <-]. split; [by apply bool_decide_eq_false in Hb|]. apply NoDup_filter. by eapply U6.
  - intros j id'. rewrite (live_unregister _ _ _ _ _ Hi), U7, Hget. destruct (decide (id' = t_session t)) as [->|Hne].
    + destruct (bool_decide (rest = [])) eqn:Hb.
      * apply bool_decide_eq_true in Hb. split; [|by intros (? & ? & _)]. intros (Hj & regs' & Hg' & Hj'). simplify_eq.
        exfalso. apply (not_elem_of_nil j). rewrite <-Hb. by apply Hrest.
      * split; [intros (Hj & regs' & Hg' & Hj'); simplify_eq; exists rest; split; [done|]; by apply Hrest|].
        intros (regs' & [= <-] & [? ?]%Hrest). split; [done|]. by exists regs.
    + split; [by intros [_ ?]|]. intros Hx. split; [|done]. intros ->.
      apply U7 in Hx as (u & Hu & _ & <-). congruence.
Qed.
Theorem suspensions_bounded s : rtc ustep no_suspensions s → suspensions_ok s.
Proof.
  assert (suspensions_ok no_suspensions) as H0.
  { split; cbn; try done; try lia; [apply NoDup_nil_2|unfold jm_wf; apply NoDup_nil_2|].
    intros i id. split; [by intros (? & ? & _)|by intros (? & ? & _)]. }
  cut (∀ x y, rtc ustep x y → suspensions_ok x → suspensions_ok y); [intros Hc Hs; by apply (Hc _ _ Hs)|].
  induction 1 as [|x y z Hstep _ IH]; [done|]. intros Hx. apply IH. clear IH.
  destruct Hstep as [id i s' s'' Hr|i s'|id s'|s'|id s'|s'].
  - by eapply register_ok.
  - by apply unregister_ok.
  - by apply suspend_ok.
  - unfold suspendActiveTerminalAuthLifecycles. generalize (active s'). intros l. revert s' Hx.
    induction l as [|e l IH]; intros s' Hx; [done|]. cbn. apply IH. by apply suspend_ok.
  - apply (kept_ok s'); try done; [apply same_live_all|cbn; apply NoDup_filter, Hx|].
    cbn. etrans; [apply suspensions_filter_ne|apply Hx].
  - unfold run_microtask. destruct (microtasks s') as [|id rest]; [done|].
    apply (kept_ok s'); try done; cbn; destruct (jm_has id (active s')); try apply Hx; [apply NoDup_filter, Hx|].
    etrans; [apply suspensions_filter_ne|apply Hx].
Qed.

(** A suspension survives the unmounting of the terminals it found. *)
Theorem suspension_survives id regs s : suspensions_ok s → id ∉ microtasks s →
  let s' := foldl (λ s i, run_microtask (unregister i s)) (suspendTerminalAuthLifecycle id s) regs in
  isTerminalAuthSuspended id s' = true.
Proof.
  intros Hs Hm. set (held s := id ∈ suspended s ∧ id ∉ microtasks s ∧ ∀ i, live (tokens s) i id → ∃ t, tokens s !! i = Some t ∧ preserveOnUnmount t = true).
  assert (∀ x i, held x → held (run_microtask (unregister i x))) as Hstep.
  { intros x i (H1 & H2 & H3).
    assert (held (unregister i x)) as (G1 & G2 & G3).
    { unfold unregister. destruct (tokens x !! i) as [t|] eqn:Hi; [|done]. destruct (registered t) eqn:Hr; [|done].
      split_and!; cbn [suspended microtasks tokens]; [done| |].
      - destruct (decide (t_session t = id)) as [He|He].
        + destruct (H3 i) as (u & Hu & Hp); [by exists t|]. simplify_eq. by rewrite Hp, orb_true_r.
        + destruct (_ || _); [done|]. rewrite elem_of_app, list_elem_of_singleton. intros [?| ->]; done.
      - intros j [Hne Hl]%(live_unregister _ _ _ _ _ Hi). rewrite list_lookup_alter_ne by congruence. by apply H3. }
    unfold run_microtask. destruct (microtasks (unregister i x)) as [|m rest] eqn:Hmt; [split_and!; [done|by rewrite Hmt|done]|].
    split_and!; cbn [suspended microtasks tokens]; [|by intros ?; apply G2; right|done].
    destruct (jm_has m _); [done|]. apply list_elem_of_filter. split; [|done]. intros ->. apply G2. by left. }
  assert (held (suspendTerminalAuthLifecycle id s)) as H0.
  { split_and!; [apply (remember_ok id _ (ok_distinct _ Hs) (ok_bounded _ Hs))|done|].
    intros i Hl. unfold suspendTerminalAuthLifecycle in *. cbn [rememberSuspension with_suspended active flag_all with_tokens tokens] in *.
    apply (same_live_iff _ _ _ _ (same_live_all true _ (tokens s))) in Hl. destruct (proj1 (ok_live _ Hs _ _) Hl) as (regs' & -> & Hin). cbn [default].
    destruct Hl as (t & Ht & _ & _). clear -Ht Hin.
    assert (∀ (l : list nat) (ts : list token), ts !! i = Some t → ∃ u, foldl (λ ts i, alter (flag true) i ts) ts l !! i = Some u ∧ (i ∈ l → preserveOnUnmount u = true)) as Hl.
    { clear Ht Hin. intros l. induction l as [|j l IH] using rev_ind; intros ts Ht; [exists t; split; [done|by intros ?%not_elem_of_nil]|].
      rewrite foldl_snoc. destruct (IH ts Ht) as (u & Hu & Hp). destruct (decide (j = i)) as [->|Hne].
      - rewrite list_lookup_alter_eq, Hu. by exists (flag true u).
      - rewrite list_lookup_alter_ne by done. exists u. split; [done|]. intros [?| ->%list_elem_of_singleton]%elem_of_app; [auto|done]. }
    destruct (Hl regs' _ Ht) as (u & Hu & Hp). exists u. auto. }
  assert (held (foldl (λ s i, run_microtask (unregister i s)) (suspendTerminalAuthLifecycle id s) regs)) as (H1 & _ & _).
  { generalize dependent (suspendTerminalAuthLifecycle id s). induction regs as [|i regs IH]; intros x Hx; [done|]. cbn. apply IH. by apply Hstep. }
  unfold isTerminalAuthSuspended. by rewrite bool_decide_true.
Qed.
