(* ===== verification/TerminalSocket.v ===== *)
(** [apps/client/src/useTerminalSocket.ts]: the hook that keeps a terminal
    connected to its session, as a state machine over its refs.

    The events are the first render with its effects, the events of the
    browser's sockets, the timer, a change of [reconnectBehavior], the calls of
    the page ([sendInput], [reconnect], [disconnect]), an effect that runs
    again, and the unmounting.  The tables of [TerminalAuth] are part of the
    state; other components may change them between any two events.  The
    callbacks and output listeners run last in their events, so that their
    calls are events of their own. *)
From S2P Require Import Prelude SafeString Json Tabs Protocol Origin TerminalAuth.
Open Scope Z_scope.

Inductive ConnectionStatus := connecting | connected | reconnecting | disconnected | status_error.
#[export] Instance ConnectionStatus_eq_dec : EqDecision ConnectionStatus.
Proof. solve_decision. Defined.
Inductive behavior := automatic | manual.
#[export] Instance behavior_eq_dec : EqDecision behavior.
Proof. solve_decision. Defined.

Definition INITIAL_RETRY_DELAY_MS : Z := 500.
Definition INITIAL_RETRY_STEPS : nat := 5.
Definition PROTOCOL_ERROR : jsstr := js "Terminal connection protocol error.".
Definition SERVER_ERROR : jsstr := js "Terminal server reported an error.".
Definition SESSION_REPLACED_ERROR : jsstr := js "Terminal opened in another browser. Reconnect to take control.".
Definition OPEN_ERROR : jsstr := js "Unable to open terminal connection.".
Definition INTERRUPTED_ERROR : jsstr := js "Terminal connection interrupted.".

(** [encodeURIComponent]; [None]: it throws, on a lone surrogate. *)
Definition unreserved_char (c : Z) : bool :=
  ((48 <=? c) && (c <=? 57)) || ((65 <=? c) && (c <=? 90)) || ((97 <=? c) && (c <=? 122)) || char_in (js "-_.!~*'()") c.
Definition hex_upper (d : Z) : Z := if d <? 10 then 48 + d else 55 + d.
Definition percent (b : Z) : jsstr := [37; hex_upper (b / 16); hex_upper (b mod 16)].
Definition encode_point (c : Z) : option jsstr :=
  if unreserved_char c then Some [c]
  else if (0xD800 <=? c) && (c <=? 0xDFFF) then None
  else Some (flat_map percent (utf8_char c)).
Definition encodeURIComponent (s : jsstr) : option jsstr := l ← mapM encode_point (code_points s); Some (concat l).

(** [location]: the two parts that the URL takes. *)
Record Location := { loc_protocol : jsstr; host : jsstr }.
Definition terminalSocketUrl (basePath sessionId : jsstr) (l : Location) : option jsstr :=
  let protocol := if bool_decide (loc_protocol l = js "https:") then js "wss:" else js "ws:" in
  let basePath := if bool_decide (basePath = js "/") then [] else basePath in
  id ← encodeURIComponent sessionId;
  Some (protocol ++ js "//" ++ host l ++ basePath ++ js "/ws/sessions/" ++ id).

(** A socket that the factory returned, with the generation that its listeners
    captured. *)
Record socket := Socket {
  s_url : jsstr;
  s_generation : Z;
  listening : bool;
  closedWith : option (Z * jsstr);   (* [close] was called *)
  closeEvent : bool;                 (* 'close' was handled *)
  sent : list jsstr;
}.
Inductive notice := Stopped | Restarting | AuthenticationRequired.
#[export] Instance notice_eq_dec : EqDecision notice.
Proof. solve_decision. Defined.

Record terminal := Terminal {
  mounted : bool;
  status : ConnectionStatus;
  error : option jsstr;
  socketRef : option nat;
  retryTimer : option Z;             (* the delay of the armed timer *)
  retryAttempt : nat;
  generation : Z;
  stopped : bool;
  authenticationSuspended : bool;
  manualSuspended : bool;
  reconnectBehavior : behavior;
  listeners : list nat;
  socks : list socket;
  micro : list Z;                    (* the queued microtasks, by generation *)
  registration : option nat;
  auth : suspensions;
  delivered : list (nat * jsstr);
  notices : list notice;
}.

(** The refs of the connection change together in most functions. *)
Definition set_status (st : ConnectionStatus) (t : terminal) : terminal :=
  Terminal (mounted t) st (error t) (socketRef t) (retryTimer t) (retryAttempt t) (generation t) (stopped t)
    (authenticationSuspended t) (manualSuspended t) (reconnectBehavior t) (listeners t) (socks t) (micro t)
    (registration t) (auth t) (delivered t) (notices t).
Definition set_error (e : option jsstr) (t : terminal) : terminal :=
  Terminal (mounted t) (status t) e (socketRef t) (retryTimer t) (retryAttempt t) (generation t) (stopped t)
    (authenticationSuspended t) (manualSuspended t) (reconnectBehavior t) (listeners t) (socks t) (micro t)
    (registration t) (auth t) (delivered t) (notices t).
Definition set_socketRef (r : option nat) (t : terminal) : terminal :=
  Terminal (mounted t) (status t) (error t) r (retryTimer t) (retryAttempt t) (generation t) (stopped t)
    (authenticationSuspended t) (manualSuspended t) (reconnectBehavior t) (listeners t) (socks t) (micro t)
    (registration t) (auth t) (delivered t) (notices t).
Definition set_timer (r : option Z) (t : terminal) : terminal :=
  Terminal (mounted t) (status t) (error t) (socketRef t) r (retryAttempt t) (generation t) (stopped t)
    (authenticationSuspended t) (manualSuspended t) (reconnectBehavior t) (listeners t) (socks t) (micro t)
    (registration t) (auth t) (delivered t) (notices t).
Definition set_attempt (n : nat) (t : terminal) : terminal :=
  Terminal (mounted t) (status t) (error t) (socketRef t) (retryTimer t) n (generation t) (stopped t)
    (authenticationSuspended t) (manualSuspended t) (reconnectBehavior t) (listeners t) (socks t) (micro t)
    (registration t) (auth t) (delivered t) (notices t).
Definition next_generation (t : terminal) : terminal :=
  Terminal (mounted t) (status t) (error t) (socketRef t) (retryTimer t) (retryAttempt t) (generation t + 1) (stopped t)
    (authenticationSuspended t) (manualSuspended t) (reconnectBehavior t) (listeners t) (socks t) (micro t)
    (registration t) (auth t) (delivered t) (notices t).
Definition set_flags (st au ma : bool) (t : terminal) : terminal :=
  Terminal (mounted t) (status t) (error t) (socketRef t) (retryTimer t) (retryAttempt t) (generation t) st au ma
    (reconnectBehavior t) (listeners t) (socks t) (micro t) (registration t) (auth t) (delivered t) (notices t).
Definition set_behavior (b : behavior) (t : terminal) : terminal :=
  Terminal (mounted t) (status t) (error t) (socketRef t) (retryTimer t) (retryAttempt t) (generation t) (stopped t)
    (authenticationSuspended t) (manualSuspended t) b (listeners t) (socks t) (micro t)
    (registration t) (auth t) (delivered t) (notices t).
Definition set_listeners (l : list nat) (t : terminal) : terminal :=
  Terminal (mounted t) (status t) (error t) (socketRef t) (retryTimer t) (retryAttempt t) (generation t) (stopped t)
    (authenticationSuspended t) (manualSuspended t) (reconnectBehavior t) l (socks t) (micro t)
    (registration t) (auth t) (delivered t) (notices t).
Definition set_socks (l : list socket) (t : terminal) : terminal :=
  Terminal (mounted t) (status t) (error t) (socketRef t) (retryTimer t) (retryAttempt t) (generation t) (stopped t)
    (authenticationSuspended t) (manualSuspended t) (reconnectBehavior t) (listeners t) l (micro t)
    (registration t) (auth t) (delivered t) (notices t).
Definition set_micro (l : list Z) (t : terminal) : terminal :=
  Terminal (mounted t) (status t) (error t) (socketRef t) (retryTimer t) (retryAttempt t) (generation t) (stopped t)
    (authenticationSuspended t) (manualSuspended t) (reconnectBehavior t) (listeners t) (socks t) l
    (registration t) (auth t) (delivered t) (notices t).
Definition set_auth (a : suspensions) (t : terminal) : terminal :=
  Terminal (mounted t) (status t) (error t) (socketRef t) (retryTimer t) (retryAttempt t) (generation t) (stopped t)
    (authenticationSuspended t) (manualSuspended t) (reconnectBehavior t) (listeners t) (socks t) (micro t)
    (registration t) a (delivered t) (notices t).
Definition deliver (l : list (nat * jsstr)) (t : terminal) : terminal :=
  Terminal (mounted t) (status t) (error t) (socketRef t) (retryTimer t) (retryAttempt t) (generation t) (stopped t)
    (authenticationSuspended t) (manualSuspended t) (reconnectBehavior t) (listeners t) (socks t) (micro t)
    (registration t) (auth t) (delivered t ++ l) (notices t).
Definition notify (n : notice) (t : terminal) : terminal :=
  Terminal (mounted t) (status t) (error t) (socketRef t) (retryTimer t) (retryAttempt t) (generation t) (stopped t)
    (authenticationSuspended t) (manualSuspended t) (reconnectBehavior t) (listeners t) (socks t) (micro t)
    (registration t) (auth t) (delivered t) (notices t ++ [n]).
Definition set_mounted (b : bool) (t : terminal) : terminal :=
  Terminal b (status t) (error t) (socketRef t) (retryTimer t) (retryAttempt t) (generation t) (stopped t)
    (authenticationSuspended t) (manualSuspended t) (reconnectBehavior t) (listeners t) (socks t) (micro t)
    (registration t) (auth t) (delivered t) (notices t).

Definition unlisten (s : socket) : socket :=
  Socket (s_url s) (s_generation s) false (closedWith s) (closeEvent s) (sent s).
Definition close_with (code : Z) (reason : jsstr) (s : socket) : socket :=
  Socket (s_url s) (s_generation s) (listening s) (Some (code, reason)) (closeEvent s) (sent s).
Definition gone (s : socket) : socket :=
  Socket (s_url s) (s_generation s) (listening s) (closedWith s) true (sent s).
Definition send_on (text : jsstr) (s : socket) : socket :=
  Socket (s_url s) (s_generation s) (listening s) (closedWith s) (closeEvent s) (sent s ++ [text]).
Definition on_socket (k : nat) (f : socket → socket) (t : terminal) : terminal := set_socks (alter f k (socks t)) t.

Section terminal.
Variable basePath : jsstr.
Variable reconnectMaxSeconds : Z.
Variable sessionId : jsstr.
Variable location : Location.
(** [restoredManualSuspension], of the first render. *)
Variable restoredManualSuspension : bool.

Definition cancelRetry (t : terminal) : terminal := set_timer None t.
Definition retryDelay (attempt : nat) : Z :=
  let configuredCap := reconnectMaxSeconds * 1000 in
  if (attempt <? INITIAL_RETRY_STEPS)%nat then Z.min (INITIAL_RETRY_DELAY_MS * 2 ^ Z.of_nat attempt) configuredCap
  else configuredCap.
Definition set_message (message : option jsstr) (t : terminal) : terminal :=
  match message with Some m => set_error (Some m) t | None => t end.
Definition scheduleRetry (message : option jsstr) (t : terminal) : terminal :=
  if stopped t then set_status disconnected t
  else match reconnectBehavior t with
       | manual =>
           set_message message (set_status disconnected (cancelRetry (set_flags true (authenticationSuspended t) true t)))
       | automatic =>
           let t := set_message message (set_status reconnecting (cancelRetry t)) in
           set_timer (Some (retryDelay (retryAttempt t))) (set_attempt (S (retryAttempt t)) t)
       end.

(** [removeSocketListenersRef.current()]: the listeners are those of the
    current socket, if any. *)
Definition removeSocketListeners (t : terminal) : terminal :=
  match socketRef t with Some k => on_socket k unlisten t | None => t end.
(** The current socket is dropped, with its listeners, and closed. *)
Definition drop_socket (code : Z) (reason : jsstr) (t : terminal) : terminal :=
  let t' := set_socketRef None (removeSocketListeners t) in
  match socketRef t with Some k => on_socket k (close_with code reason) t' | None => t' end.

(** [connect]; [opens]: the factory does not throw. *)
Definition connect (opens : bool) (t : terminal) : terminal :=
  if stopped t || authenticationSuspended t then t
  else
    let t := next_generation (cancelRetry t) in
    let t := set_error None (set_status (if (retryAttempt t =? 0)%nat then connecting else reconnecting) t) in
    match terminalSocketUrl basePath sessionId location, opens with
    | Some url, true =>
        set_socks (socks t ++ [Socket url (generation t) true None false []]) (set_socketRef (Some (length (socks t))) t)
    | _, _ => scheduleRetry (Some OPEN_ERROR) (set_socketRef None t)
    end.

(** ** The listeners of socket [k]; [current] is [isCurrent()]. *)

Definition isCurrent (k : nat) (t : terminal) : bool :=
  match socks t !! k with Some s => s_generation s =? generation t | None => false end.
Definition onOpen (k : nat) (t : terminal) : terminal := if isCurrent k t then set_attempt 0 t else t.
Definition protocol_failure (k : nat) (t : terminal) : terminal :=
  on_socket k (close_with 1002 (js "Protocol error")) (set_error (Some PROTOCOL_ERROR) (set_status status_error t)).
Definition message_session (m : ServerMessage) : jsstr :=
  match m with Ready id => id | Output id _ => id | ErrorMessage id _ => id end.
(** [data]: the text of the frame, or [None] when it is not a string. *)
Definition onMessage (k : nat) (data : option jsstr) (t : terminal) : terminal :=
  if negb (isCurrent k t) then t
  else match parseServerMessage data with
       | Protocol.Rejected _ => protocol_failure k t
       | Parsed m =>
           if negb (bool_decide (message_session m = sessionId)) then protocol_failure k t
           else match m with
                | Ready _ => set_error None (set_status connected (set_attempt 0 t))
                | Output _ text => deliver ((λ l, (l, text)) <$> listeners t) t
                | ErrorMessage _ _ =>
                    on_socket k (close_with 1011 (js "Server error")) (set_error (Some SERVER_ERROR) (set_status status_error t))
                end
       end.
Definition onError (k : nat) (t : terminal) : terminal :=
  if isCurrent k t then set_error (Some INTERRUPTED_ERROR) t else t.
(** The branches that end the connection for good. *)
Definition stop (message : option jsstr) (t : terminal) : terminal :=
  set_error message (set_status disconnected (cancelRetry (set_flags true (authenticationSuspended t) (manualSuspended t) t))).
Definition onClose (k : nat) (code : Z) (t : terminal) : terminal :=
  let t := on_socket k gone t in
  if negb (isCurrent k t) then t
  else
    let t := set_socketRef None (removeSocketListeners t) in
    if code =? AUTHENTICATION_REQUIRED then
      let t := set_auth (suspendTerminalAuthLifecycle sessionId (auth t)) t in
      let t := next_generation (cancelRetry (set_flags true true (manualSuspended t) t)) in
      notify AuthenticationRequired (set_error None (set_status disconnected t))
    else if code =? SESSION_REPLACED then stop (Some SESSION_REPLACED_ERROR) t
    else if (code =? SESSION_STOPPED) || (code =? SESSION_RESTARTING) then
      notify (if code =? SESSION_STOPPED then Stopped else Restarting) (stop None t)
    else if code =? BRIDGE_RESTART then scheduleRetry None t
    else if stopped t then set_status disconnected t
    else scheduleRetry None t.

(** ** The effects *)

(** The effect of [reconnectBehavior]. *)
Definition behavior_effect (b : behavior) (opens : bool) (t : terminal) : terminal :=
  let t := set_behavior b t in
  if authenticationSuspended t then t
  else match b with
       | manual =>
           match retryTimer t with
           | None => t
           | Some _ =>
               let t := set_flags true (authenticationSuspended t) true (next_generation (cancelRetry t)) in
               set_micro (micro t ++ [generation t]) t
           end
       | automatic =>
           if manualSuspended t then
             connect opens (set_attempt 0 (cancelRetry (set_flags false (authenticationSuspended t) false t)))
           else t
       end.
(** Its microtask. *)
Definition behavior_microtask (t : terminal) : terminal :=
  match micro t with
  | g :: rest =>
      let t := set_micro rest t in
      if (g =? generation t) && stopped t && manualSuspended t && bool_decide (reconnectBehavior t = manual)
      then set_status disconnected t else t
  | [] => t
  end.
(** The last effect, and its cleanup. *)
Definition connect_effect (opens : bool) (t : terminal) : terminal :=
  let t := set_flags restoredManualSuspension false restoredManualSuspension t in
  if restoredManualSuspension then t else connect opens t.
Definition cleanup_effect (t : terminal) : terminal :=
  drop_socket 1000 (js "Client disconnect")
    (next_generation (cancelRetry (set_flags true (authenticationSuspended t) (manualSuspended t) t))).
Definition rerun_effect (opens : bool) (t : terminal) : terminal := connect_effect opens (cleanup_effect t).
Definition unmount (t : terminal) : terminal :=
  let t := match registration t with Some i => set_auth (unregister i (auth t)) t | None => t end in
  set_mounted false (cleanup_effect t).

(** ** The controller *)

(** [open]: [readyState] is [OPEN]. *)
Definition send (open : bool) (m : ClientMessage) (t : terminal) : bool * terminal :=
  match socketRef t with
  | Some k => if open then (true, on_socket k (send_on (stringify (client_json m))) t) else (false, t)
  | None => (false, t)
  end.
Definition sendInput (open : bool) (data : jsstr) : terminal → bool * terminal := send open (Input sessionId data).
Definition sendResize (open : bool) (cols rows : Z) : terminal → bool * terminal := send open (Resize sessionId cols rows).
Definition subscribeOutput (l : nat) (t : terminal) : terminal :=
  if bool_decide (l ∈ listeners t) then t else set_listeners (listeners t ++ [l]) t.
Definition unsubscribe (l : nat) (t : terminal) : terminal := set_listeners (filter (λ x, x ≠ l) (listeners t)) t.
Definition disconnect (t : terminal) : terminal :=
  set_status disconnected (drop_socket 1000 (js "Client disconnect")
    (next_generation (cancelRetry (set_flags true (authenticationSuspended t) false t)))).
Definition reconnect (opens : bool) (t : terminal) : terminal :=
  if authenticationSuspended t then t
  else
    let t := set_auth (clearTerminalAuthSuspension sessionId (auth t)) t in
    let t := next_generation (cancelRetry (set_flags false (authenticationSuspended t) false t)) in
    connect opens (set_status connecting (set_attempt 0 (drop_socket 1000 (js "Client reconnect") t))).

(** The first render and its effects. *)
Definition rendered (b : behavior) (a : suspensions) : terminal :=
  Terminal true (if restoredManualSuspension then disconnected else connecting) None None None 0 0
    restoredManualSuspension false restoredManualSuspension b [] [] [] None a [] [].
Definition mount (b : behavior) (opens : bool) (a : suspensions) : option terminal :=
  '(i, a) ← registerTerminalAuthLifecycle sessionId a;
  let t := rendered b a in
  Some (connect_effect opens (Terminal (mounted t) (status t) (error t) (socketRef t) (retryTimer t) (retryAttempt t)
    (generation t) (stopped t) (authenticationSuspended t) (manualSuspended t) (reconnectBehavior t) (listeners t)
    (socks t) (micro t) (Some i) (auth t) (delivered t) (notices t))).

Definition hears (k : nat) (t : terminal) : Prop := ∃ s, socks t !! k = Some s ∧ listening s = true.
(** The steps of a mounted terminal on its own. *)
Inductive quiet_step : terminal → terminal → Prop :=
| q_open k t : hears k t → quiet_step t (onOpen k t)
| q_message k data t : hears k t → quiet_step t (onMessage k data t)
| q_error k t : hears k t → quiet_step t (onError k t)
| q_close k code t : hears k t → quiet_step t (onClose k code t)
| q_timer d opens t : retryTimer t = Some d → quiet_step t (connect opens t)
| q_micro t : quiet_step t (behavior_microtask t)
| q_send open m t : quiet_step t (send open m t).2
| q_subscribe l t : quiet_step t (subscribeOutput l t)
| q_unsubscribe l t : quiet_step t (unsubscribe l t)
| q_disconnect t : mounted t = true → quiet_step t (disconnect t)
| q_unmount t : mounted t = true → quiet_step t (unmount t)
| q_others a t : quiet_step t (set_auth a t).
(** The steps that a page or a setting asks for. *)
Inductive asked_step : terminal → terminal → Prop :=
| a_reconnect opens t : mounted t = true → asked_step t (reconnect opens t)
| a_behavior b opens t : mounted t = true → asked_step t (behavior_effect b opens t).
Inductive terminal_step : terminal → terminal → Prop :=
| t_quiet t t' : quiet_step t t' → terminal_step t t'
| t_asked t t' : asked_step t t' → terminal_step t t'
| t_rerun opens t : mounted t = true → terminal_step t (rerun_effect opens t).
End terminal.

(** [useState] of the first render: an automatic terminal forgets a
    suspension, a manual one starts with it. *)
Definition first_render (sessionId : jsstr) (b : behavior) (a : suspensions) : bool * suspensions :=
  let restored := bool_decide (b = manual) && isTerminalAuthSuspended sessionId a in
  (restored, match b with automatic => clearTerminalAuthSuspension sessionId a | manual => a end).
