(* ===== verification/TerminalSocketFacts.v ===== *)
(** The terminal of [TerminalSocket]: its sockets, its retries, and what keeps
    it disconnected. *)
From S2P Require Import Prelude SafeString Json JsonText Tabs Protocol Origin TerminalAuth TerminalSocket.
Open Scope Z_scope.

(** * The invariant *)

(** [r] is the one socket that is listened to; every other one was closed by
    the hook, or has closed. *)
Record sockets_ok (url : jsstr) (ss : list socket) (r : option nat) : Prop := {
  ok_ref : ∀ k, r = Some k ↔ ∃ s, ss !! k = Some s ∧ listening s = true;
  ok_closed : ∀ k s, ss !! k = Some s → listening s = false → closedWith s ≠ None ∨ closeEvent s = true;
  ok_url : ∀ k s, ss !! k = Some s → s_url s = url;
}.
Definition current_ok (ss : list socket) (g : Z) : Prop :=
  ∀ k s, ss !! k = Some s → listening s = true → s_generation s = g.

Section invariant.
Variable basePath : jsstr.
Variable reconnectMaxSeconds : Z.
Variable sessionId : jsstr.
Variable location : Location.
Variable restoredManualSuspension : bool.
Variable url : jsstr.
Hypothesis config_ok : 1 <= reconnectMaxSeconds.
Hypothesis url_ok : terminalSocketUrl basePath sessionId location = Some url.

Record terminal_ok (t : terminal) : Prop := {
  ok_sockets : sockets_ok url (socks t) (socketRef t);
  ok_current : current_ok (socks t) (generation t);
  ok_busy : socketRef t ≠ None → stopped t = false ∧ retryTimer t = None;
  ok_timer : ∀ d, retryTimer t = Some d → stopped t = false ∧ reconnectBehavior t = automatic ∧
    500 <= d <= reconnectMaxSeconds * 1000;
  ok_stopped : manualSuspended t = true ∨ authenticationSuspended t = true ∨ mounted t = false → stopped t = true;
  ok_waits : stopped t = false → socketRef t ≠ None ∨ retryTimer t ≠ None;
  ok_status : status t = connected → restoredManualSuspension = false → mounted t = true → socketRef t ≠ None;
}.

Lemma retryDelay_bounds n : 500 <= retryDelay reconnectMaxSeconds n <= reconnectMaxSeconds * 1000.
Proof.
  unfold retryDelay, INITIAL_RETRY_STEPS, INITIAL_RETRY_DELAY_MS. destruct (Nat.ltb_spec n 5); [|lia].
  assert (1 <= 2 ^ Z.of_nat n) by (apply Z.lt_pred_le, Z.pow_pos_nonneg; lia). lia.
Qed.
Lemma retryDelay_mono n : retryDelay reconnectMaxSeconds n <= retryDelay reconnectMaxSeconds (S n).
Proof.
  unfold retryDelay, INITIAL_RETRY_STEPS, INITIAL_RETRY_DELAY_MS.
  rewrite Nat2Z.inj_succ, Z.pow_succ_r by lia. assert (0 < 2 ^ Z.of_nat n) by (apply Z.pow_pos_nonneg; lia).
  destruct (Nat.ltb_spec n 5), (Nat.ltb_spec (S n) 5); lia.
Qed.

(** ** Sockets *)

Lemma deaf ss k : sockets_ok url ss None → ∀ s, ss !! k = Some s → listening s = false.
Proof. intros [H1 _ _] s Hs. destruct (listening s) eqn:Hl; [|done]. by assert (None = Some k) by (apply H1; eauto). Qed.
Lemma deaf_current ss g : sockets_ok url ss None → current_ok ss g.
Proof. intros Hs k s Hk Hl. by rewrite (deaf _ _ Hs _ Hk) in Hl. Qed.
(** The current socket is no longer listened to, and is closed or has closed. *)
Lemma sockets_leave ss k f : sockets_ok url ss (Some k) →
  (∀ s, listening (f s) = false ∧ (closedWith (f s) ≠ None ∨ closeEvent (f s) = true) ∧ s_url (f s) = s_url s) →
  sockets_ok url (alter f k ss) None.
Proof.
  intros [H1 H2 H3] Hf. split.
  - intros j. split; [done|]. intros (s & Hs & Hl). destruct (decide (k = j)) as [<-|Hne].
    + rewrite list_lookup_alter_eq in Hs. apply fmap_Some in Hs as (s0 & _ & ->). destruct (Hf s0) as (Hd & _). congruence.
    + rewrite list_lookup_alter_ne in Hs by done. assert (Some k = Some j) by (apply H1; eauto). congruence.
  - intros j s Hs Hl. destruct (decide (k = j)) as [<-|Hne].
    + rewrite list_lookup_alter_eq in Hs. apply fmap_Some in Hs as (s0 & _ & ->). apply Hf.
    + rewrite list_lookup_alter_ne in Hs by done. by eapply H2.
  - intros j s Hs. destruct (decide (k = j)) as [<-|Hne].
    + rewrite list_lookup_alter_eq in Hs. apply fmap_Some in Hs as (s0 & Hs0 & ->). rewrite (proj2 (proj2 (Hf s0))). by eapply H3.
    + rewrite list_lookup_alter_ne in Hs by done. by eapply H3.
Qed.
Lemma sockets_keep ss k r f : sockets_ok url ss r →
  (∀ s, listening (f s) = listening s ∧ s_generation (f s) = s_generation s ∧ s_url (f s) = s_url s ∧
     (closedWith s ≠ None → closedWith (f s) ≠ None) ∧ (closeEvent s = true → closeEvent (f s) = true)) →
  sockets_ok url (alter f k ss) r ∧ ∀ g, current_ok ss g → current_ok (alter f k ss) g.
Proof.
  intros [H1 H2 H3] Hf.
  assert (∀ j s, alter f k ss !! j = Some s → ∃ s0, ss !! j = Some s0 ∧ listening s = listening s0 ∧ s_generation s = s_generation s0 ∧
    s_url s = s_url s0 ∧ (closedWith s0 ≠ None → closedWith s ≠ None) ∧ (closeEvent s0 = true → closeEvent s = true)) as Hback.
  { intros j s. destruct (decide (k = j)) as [<-|Hne].
    - rewrite list_lookup_alter_eq. intros (s0 & Hs0 & ->)%fmap_Some. exists s0. split; [done|apply Hf].
    - rewrite list_lookup_alter_ne by done. intros Hs. by exists s. }
  split; [split|].
  - intros j. rewrite H1. split.
    + intros (s & Hs & Hl). destruct (decide (k = j)) as [<-|Hne].
      * exists (f s). rewrite list_lookup_alter_eq, Hs. split; [done|]. by rewrite (proj1 (Hf s)).
      * exists s. by rewrite list_lookup_alter_ne.
    + intros (s & Hs & Hl). destruct (Hback j s Hs) as (s0 & ? & E & _). exists s0. split; [done|congruence].
  - intros j s Hs Hl. destruct (Hback j s Hs) as (s0 & Hs0 & E & _ & _ & Hc & He). destruct (H2 j s0 Hs0); [congruence|left; auto|right; auto].
  - intros j s Hs. destruct (Hback j s Hs) as (s0 & Hs0 & _ & _ & -> & _). by eapply H3.
  - intros g Hg j s Hs Hl. destruct (Hback j s Hs) as (s0 & Hs0 & E & -> & _). eapply Hg; [done|congruence].
Qed.
Lemma sockets_open ss g : sockets_ok url ss None →
  sockets_ok url (ss ++ [Socket url g true None false []]) (Some (length ss)) ∧
  current_ok (ss ++ [Socket url g true None false []]) g.
Proof.
  intros Hs. pose proof Hs as [H1 H2 H3]. split; [split|].
  - intros k. split.
    + intros [= <-]. exists (Socket url g true None false []). by rewrite lookup_app_r, Nat.sub_diag by done.
    + intros (s & [Hk|[Hge Hk]]%lookup_app_Some & Hl); [by rewrite (deaf _ _ Hs _ Hk) in Hl|].
      apply list_lookup_singleton_Some in Hk as [? _]. f_equal. lia.
  - intros k s [Hk|[_ Hk]]%lookup_app_Some Hl; [by eapply H2|]. apply list_lookup_singleton_Some in Hk as [_ <-]. done.
  - intros k s [Hk|[_ Hk]]%lookup_app_Some; [by eapply H3|]. by apply list_lookup_singleton_Some in Hk as [_ <-].
  - intros k s [Hk|[_ Hk]]%lookup_app_Some Hl; [by rewrite (deaf _ _ Hs _ Hk) in Hl|]. by apply list_lookup_singleton_Some in Hk as [_ <-].
Qed.

Lemma drop_sockets code reason t : sockets_ok url (socks t) (socketRef t) →
  sockets_ok url (socks (drop_socket code reason t)) None ∧
  ∃ ss, drop_socket code reason t = set_socketRef None (set_socks ss t).
Proof.
  intros Hs. unfold drop_socket, removeSocketListeners. destruct (socketRef t) as [k|] eqn:Hr.
  - split; [|by eexists]. cbn. rewrite list_alter_alter_eq. apply sockets_leave; [done|]. intros s. cbn. auto.
  - split; [done|]. exists (socks t). destruct t; cbn in *; by subst.
Qed.

(** ** Connecting and retrying *)

(** Ready to connect. *)
Record parted (t : terminal) : Prop := {
  p_sockets : sockets_ok url (socks t) None;
  p_flags : stopped t = false ∧ authenticationSuspended t = false ∧ manualSuspended t = false ∧ mounted t = true;
}.
Lemma retry_schedule_ok message t : parted t → socketRef t = None →
  terminal_ok (scheduleRetry reconnectMaxSeconds message t).
Proof.
  intros [P1 (P2 & P3 & P4 & P5)] Hr. unfold scheduleRetry. rewrite P2. pose proof (retryDelay_bounds (retryAttempt t)).
  destruct (reconnectBehavior t) eqn:Hb; destruct message; split; cbn; rewrite ?Hr, ?P2, ?P3, ?P4, ?P5, ?Hb; try done;
    try (by apply deaf_current); try (by intros ? [= <-]); try (by intros [?|[?|?]]); try (by right).
Qed.
Lemma connect_ok opens t : parted t → terminal_ok (connect basePath reconnectMaxSeconds sessionId location opens t).
Proof.
  intros [P1 (P2 & P3 & P4 & P5)]. unfold connect. rewrite P2, P3. cbn [orb]. rewrite url_ok.
  set (t1 := set_error _ _).
  destruct opens.
  - destruct (sockets_open _ (generation t1) P1) as [H1 H2].
    split; cbn; rewrite ?P2, ?P3, ?P4, ?P5; try done; [|by left]. by intros [?|[?|?]].
  - apply retry_schedule_ok; [|done]. split; cbn; [done|by split_and!].
Qed.
(** A terminal that has stopped without a socket. *)
Lemma halted_ok t : sockets_ok url (socks t) None → socketRef t = None → retryTimer t = None → stopped t = true →
  (status t = connected → mounted t = false ∨ restoredManualSuspension = true) → terminal_ok t.
Proof.
  intros Hs Hr Ht Hst Hc. split; rewrite ?Hr, ?Ht, ?Hst; try done; [by apply deaf_current|].
  intros Hx. destruct (Hc Hx); congruence.
Qed.
(** A change of variables that the invariant does not read. *)
Lemma unread_ok t t' : terminal_ok t → socks t' = socks t → socketRef t' = socketRef t → generation t' = generation t →
  stopped t' = stopped t → retryTimer t' = retryTimer t → manualSuspended t' = manualSuspended t →
  authenticationSuspended t' = authenticationSuspended t → mounted t' = mounted t → reconnectBehavior t' = reconnectBehavior t →
  (status t' = connected → status t = connected ∨ socketRef t ≠ None) → terminal_ok t'.
Proof.
  intros [T1 T2 T3 T4 T5 T6 T7] E1 E2 E3 E4 E5 E6 E7 E8 E9 Hst.
  split; rewrite ?E1, ?E2, ?E3, ?E4, ?E5, ?E6, ?E7, ?E8, ?E9; try done. intros [?|?]%Hst; auto.
Qed.
Lemma on_socket_ok k f t : terminal_ok t → (∀ s, listening (f s) = listening s ∧ s_generation (f s) = s_generation s ∧ s_url (f s) = s_url s ∧
     (closedWith s ≠ None → closedWith (f s) ≠ None) ∧ (closeEvent s = true → closeEvent (f s) = true)) → terminal_ok (on_socket k f t).
Proof.
  intros [T1 T2 T3 T4 T5 T6 T7] Hf. destruct (sockets_keep _ k _ f T1 Hf) as [H1 H2]. split; cbn; try done. by apply H2.
Qed.
Lemma heard t k : terminal_ok t → hears k t → socketRef t = Some k ∧ isCurrent k t = true ∧ stopped t = false.
Proof.
  intros Ht (s & Hs & Hl). assert (socketRef t = Some k) as Hr by (apply (ok_ref _ _ _ (ok_sockets _ Ht)); by exists s).
  split_and!; [done| |].
  - unfold isCurrent. rewrite Hs. apply Z.eqb_eq. by eapply (ok_current _ Ht).
  - apply (ok_busy _ Ht). congruence.
Qed.

(** ** The steps *)

Lemma protocol_failure_ok k t : terminal_ok t → terminal_ok (protocol_failure k t).
Proof.
  intros Ht. apply on_socket_ok; [by apply (unread_ok t)|]. intros s. by split_and!.
Qed.
Lemma onMessage_ok k data t : hears k t → terminal_ok t → terminal_ok (onMessage sessionId k data t).
Proof.
  intros Hk Ht. destruct (heard t k Ht Hk) as (Hr & Hc & _). unfold onMessage. rewrite Hc. cbn [negb].
  destruct (parseServerMessage data) as [m|]; [|by apply protocol_failure_ok].
  destruct (negb _); [by apply protocol_failure_ok|]. destruct m.
  - apply (unread_ok t); try done. intros _. right. by rewrite Hr.
  - by apply (unread_ok t); auto.
  - apply on_socket_ok; [by apply (unread_ok t)|]. intros s. by split_and!.
Qed.
Lemma close_parts k t : hears k t → terminal_ok t →
  let t' := set_socketRef None (removeSocketListeners (on_socket k gone t)) in
  sockets_ok url (socks t') None ∧ stopped t' = false ∧ authenticationSuspended t' = false ∧ manualSuspended t' = false ∧ mounted t' = true ∧
  isCurrent k (on_socket k gone t) = true.
Proof.
  intros Hk Ht. destruct (heard t k Ht Hk) as (Hr & Hc & Hst). unfold removeSocketListeners. cbn [on_socket set_socks socketRef]. rewrite Hr.
  pose proof (ok_stopped _ Ht) as Hs. rewrite Hst in Hs. cbn. split_and!; try done.
  - rewrite list_alter_alter_eq. apply sockets_leave; [rewrite <-Hr; apply Ht|]. intros s. cbn. auto.
  - destruct (authenticationSuspended t); [by discriminate Hs; auto|done].
  - destruct (manualSuspended t); [by discriminate Hs; auto|done].
  - destruct (mounted t); [done|by discriminate Hs; auto].
  - unfold isCurrent in *. cbn. rewrite list_lookup_alter_eq. destruct (socks t !! k); [|done]. done.
Qed.
Lemma onClose_ok k code t : hears k t → terminal_ok t → terminal_ok (onClose reconnectMaxSeconds sessionId k code t).
Proof.
  intros Hk Ht. destruct (close_parts k t Hk Ht) as (H1 & H2 & H3 & H4 & H5 & H6). unfold onClose. rewrite H6. cbn [negb].
  set (t1 := set_socketRef None (removeSocketListeners (on_socket k gone t))) in *.
  assert (terminal_ok (scheduleRetry reconnectMaxSeconds None t1)) as Hsch by (by apply retry_schedule_ok; [split|..]; auto).
  destruct (code =? AUTHENTICATION_REQUIRED); [by apply halted_ok|].
  destruct (code =? SESSION_REPLACED); [by apply halted_ok|].
  destruct (_ || _); [by apply halted_ok|]. destruct (code =? BRIDGE_RESTART); [done|]. by rewrite H2.
Qed.

Lemma micro_ok t : terminal_ok t → terminal_ok (behavior_microtask t).
Proof.
  intros Ht. unfold behavior_microtask. destruct (micro t) as [|g rest]; [done|].
  destruct (_ && _); apply (unread_ok t); auto; done.
Qed.
Lemma timer_ok opens d t : retryTimer t = Some d → terminal_ok t →
  terminal_ok (connect basePath reconnectMaxSeconds sessionId location opens t).
Proof.
  intros Hd Ht. destruct (ok_timer _ Ht d Hd) as (Hs & _). apply connect_ok. pose proof (ok_stopped _ Ht) as Hf. rewrite Hs in Hf.
  assert (socketRef t = None) as Hr.
  { destruct (socketRef t) eqn:Hr; [|done]. destruct (ok_busy _ Ht) as [_ ?]; congruence. }
  split; [rewrite <-Hr; apply Ht|]. split_and!; [done|..].
  - destruct (authenticationSuspended t); [by discriminate Hf; auto|done].
  - destruct (manualSuspended t); [by discriminate Hf; auto|done].
  - destruct (mounted t); [done|by discriminate Hf; auto].
Qed.
Lemma disconnect_ok t : terminal_ok t → terminal_ok (disconnect t).
Proof.
  intros Ht. unfold disconnect.
  destruct (drop_sockets 1000 (js "Client disconnect") (next_generation (cancelRetry (set_flags true (authenticationSuspended t) false t)))) as [H1 [ss H2]];
    [apply Ht|]. rewrite H2 in *. by apply halted_ok.
Qed.
Lemma cleanup_parts t : terminal_ok t → let t' := cleanup_effect t in
  sockets_ok url (socks t') None ∧ socketRef t' = None ∧ retryTimer t' = None ∧ stopped t' = true ∧ mounted t' = mounted t ∧
  authenticationSuspended t' = authenticationSuspended t.
Proof.
  intros Ht. unfold cleanup_effect.
  destruct (drop_sockets 1000 (js "Client disconnect") (next_generation (cancelRetry (set_flags true (authenticationSuspended t) (manualSuspended t) t)))) as [H1 [ss H2]];
    [apply Ht|]. rewrite H2 in *. done.
Qed.
Lemma unmount_ok t : terminal_ok t → terminal_ok (unmount t).
Proof.
  intros Ht. unfold unmount. set (t1 := match registration t with Some _ => _ | None => _ end).
  assert (terminal_ok t1) as H1 by (subst t1; destruct (registration t); [by apply (unread_ok t); auto|done]).
  destruct (cleanup_parts t1 H1) as (? & ? & ? & ? & _). apply halted_ok; auto.
Qed.
Lemma connect_effect_ok opens t : sockets_ok url (socks t) None → socketRef t = None → retryTimer t = None → mounted t = true →
  terminal_ok (connect_effect basePath reconnectMaxSeconds sessionId location restoredManualSuspension opens t).
Proof.
  intros Hs Hr Ht Hm. unfold connect_effect. destruct restoredManualSuspension eqn:Hre.
  - apply halted_ok; auto.
  - apply connect_ok. split; [done|]. by split_and!.
Qed.
Lemma rerun_ok opens t : mounted t = true → terminal_ok t →
  terminal_ok (rerun_effect basePath reconnectMaxSeconds sessionId location restoredManualSuspension opens t).
Proof.
  intros Hm Ht. destruct (cleanup_parts t Ht) as (? & ? & ? & _ & Hm' & _). apply connect_effect_ok; try done. by rewrite Hm'.
Qed.
Lemma reconnect_ok opens t : mounted t = true → terminal_ok t →
  terminal_ok (reconnect basePath reconnectMaxSeconds sessionId location opens t).
Proof.
  intros Hm Ht. unfold reconnect. destruct (authenticationSuspended t) eqn:Ha; [done|].
  match goal with |- context [drop_socket ?c ?r ?u] => destruct (drop_sockets c r u) as [H1 [ss H2]]; [apply Ht|]; rewrite H2 in * end.
  apply connect_ok. split; [done|]. split_and!; try done.
Qed.
Lemma behavior_ok b opens t : mounted t = true → terminal_ok t →
  terminal_ok (behavior_effect basePath reconnectMaxSeconds sessionId location b opens t).
Proof.
  intros Hm Ht. pose proof Ht as [T1 T2 T3 T4 T5 T6 T7]. unfold behavior_effect. cbn [authenticationSuspended set_behavior retryTimer manualSuspended].
  assert ((∀ d, retryTimer t = Some d → b = automatic) → terminal_ok (set_behavior b t)) as Hkeep.
  { intros Hn. split; cbn; try done. intros d Hd. destruct (T4 d Hd) as (? & _ & ?). by rewrite (Hn d Hd). }
  destruct (authenticationSuspended t) eqn:Ha.
  { apply Hkeep. intros d Hd. destruct (T4 d Hd) as [? _]. rewrite T5 in *; auto. done. }
  destruct b.
  - destruct (manualSuspended t) eqn:Hma; [|by apply Hkeep]. assert (stopped t = true) as Hst by auto.
    apply connect_ok. split; cbn; [|by split_and!].
    destruct (socketRef t) eqn:Hr; [|done]. destruct T3; congruence.
  - destruct (retryTimer t) as [d|] eqn:Hd; [|by apply Hkeep]. destruct (T4 d eq_refl) as (Hst & _).
    assert (socketRef t = None) as Hr by (destruct (socketRef t); [by destruct T3|done]).
    rewrite Hr in *. apply halted_ok; try done. intros Hc. cbn in Hc. right. destruct restoredManualSuspension; [done|]. by destruct (T7 Hc).
Qed.
Lemma quiet_ok t t' : quiet_step basePath reconnectMaxSeconds sessionId location t t' → terminal_ok t → terminal_ok t'.
Proof.
  intros [k u Hk|k data u Hk|k u Hk|k code u Hk|d opens u Hd|u|open m u|l u|l u|u Hm|u Hm|a u] Ht.
  - unfold onOpen. destruct (isCurrent k u); [by apply (unread_ok u); auto|done].
  - by apply onMessage_ok.
  - unfold onError. destruct (isCurrent k u); [by apply (unread_ok u); auto|done].
  - by apply onClose_ok.
  - by eapply timer_ok.
  - by apply micro_ok.
  - unfold send. destruct (socketRef u); [|done]. destruct open; [|done]. apply on_socket_ok; [done|]. intros s. by split_and!.
  - unfold subscribeOutput. destruct (bool_decide _); [done|by apply (unread_ok u); auto].
  - by apply (unread_ok u); auto.
  - by apply disconnect_ok.
  - by apply unmount_ok.
  - by apply (unread_ok u); auto.
Qed.
Lemma terminal_step_ok t t' : terminal_step basePath reconnectMaxSeconds sessionId location restoredManualSuspension t t' →
  terminal_ok t → terminal_ok t'.
Proof.
  intros [? ? Hq|? ? [opens u Hm|b opens u Hm]|opens u Hm] Ht.
  - by eapply quiet_ok.
  - by apply reconnect_ok.
  - by apply behavior_ok.
  - by apply rerun_ok.
Qed.
Lemma mount_ok b opens a t : mount basePath reconnectMaxSeconds sessionId location restoredManualSuspension b opens a = Some t → terminal_ok t.
Proof.
  unfold mount. destruct (registerTerminalAuthLifecycle sessionId a) as [[i a']|]; [|done]. cbn. intros [= <-].
  apply connect_effect_ok; try done. split; cbn; try done. intros k. split; [done|]. by intros (? & ? & _).
Qed.
End invariant.

(** * The URL *)

Definition socket_origin (l : Location) : jsstr :=
  (if bool_decide (loc_protocol l = js "https:") then js "wss:" else js "ws:") ++ js "//" ++ host l.
Definition id_char (c : Z) : bool := is_lower_hex c || (c =? 45).
Lemma id_chars s : isSessionId s = true → Forall (λ c, id_char c = true) s.
Proof.
  unfold isSessionId. assert (Forall (λ p : Z → bool, ∀ c, p c = true → id_char c = true) TAB_ID_PATTERN) as Hp.
  { assert (∀ c, is_lower_hex c = true → id_char c = true) as Hhex by (intros c Hc; unfold id_char; by rewrite Hc).
    assert (∀ c, (dash =? c) = true → id_char c = true) as Hdash by (intros c <-%Z.eqb_eq; reflexivity).
    assert (∀ l, forallb id_char l = true → ∀ c, char_in l c = true → id_char c = true) as Hin.
    { intros l Hl c Hc%bool_decide_eq_true. rewrite forallb_forall in Hl. by apply Hl, list_elem_of_In. }
    unfold TAB_ID_PATTERN. rewrite !Forall_app. split_and!; try (apply Forall_replicate; done); try (constructor; [done|constructor]).
    - constructor; [apply Hin; vm_compute; reflexivity|constructor].
    - constructor; [apply Hin; vm_compute; reflexivity|constructor]. }
  revert s. induction Hp as [|p ps Hp _ IH]; intros [|c s]; cbn; try done. intros [Hc Hs]%andb_true_iff. constructor; auto.
Qed.
Lemma id_char_range c : id_char c = true → 45 <= c <= 102 ∧ unreserved_char c = true.
Proof.
  unfold id_char, is_lower_hex, unreserved_char. rewrite !orb_true_iff, !andb_true_iff, !Z.leb_le, Z.eqb_eq.
  intros [[?|?]| ->]; [split; [lia|left; lia]..|]. split; [lia|]. right. vm_compute. reflexivity.
Qed.
Lemma encode_id s : isSessionId s = true → encodeURIComponent s = Some s.
Proof.
  intros Hs%id_chars. unfold encodeURIComponent.
  assert (code_points s = s) as ->.
  { induction Hs as [|c s Hc _ IH]; [done|]. apply id_char_range in Hc as [Hc _]. rewrite code_points_plain, IH; [done|].
    unfold is_high_surrogate. apply andb_false_iff. left. apply Z.leb_gt. lia. }
  assert (mapM encode_point s = Some ((λ c, [c]) <$> s)) as ->.
  { induction Hs as [|c s Hc _ IH]; [done|].
    change (mapM encode_point (c :: s)) with (y ← encode_point c; k ← mapM encode_point s; Some (y :: k)).
    assert (encode_point c = Some [c]) as -> by (unfold encode_point; by rewrite (proj2 (id_char_range c Hc))).
    cbn [mbind option_bind]. by rewrite IH. }
  cbn. f_equal. clear Hs. induction s as [|c s IH]; [done|]. cbn. by rewrite IH.
Qed.
(** The page and the server agree on the path of a session. *)
Lemma terminalSocketUrl_path basePath id l : isSessionId id = true →
  terminalSocketUrl basePath id l = Some (socket_origin l ++ websocketSessionPath basePath id).
Proof.
  intros Hid. unfold terminalSocketUrl, socket_origin, websocketSessionPath. rewrite (encode_id id Hid). cbn [mbind option_bind].
  by rewrite <-!(assoc_L (++)).
Qed.

(** * Staying disconnected *)

Section quiet.
Variable basePath : jsstr.
Variable reconnectMaxSeconds : Z.
Variable sessionId : jsstr.
Variable location : Location.
Variable restoredManualSuspension : bool.
Variable url : jsstr.
Abbreviation terminal_ok := (terminal_ok reconnectMaxSeconds restoredManualSuspension url).
Abbreviation quiet_step := (quiet_step basePath reconnectMaxSeconds sessionId location).
Abbreviation asked_step := (asked_step basePath reconnectMaxSeconds sessionId location).

Lemma stopped_idle t : terminal_ok t → stopped t = true → socketRef t = None ∧ retryTimer t = None ∧ ∀ k, ¬ hears k t.
Proof.
  intros Ht Hs. assert (socketRef t = None) as Hr by (destruct (socketRef t) eqn:Hr; [destruct (ok_busy _ _ _ _ Ht); congruence|done]).
  split_and!; [done| |].
  - destruct (retryTimer t) as [d|] eqn:Hd; [|done]. destruct (ok_timer _ _ _ _ Ht d Hd); congruence.
  - intros k Hk. apply (ok_ref _ _ _ (ok_sockets _ _ _ _ Ht)) in Hk. congruence.
Qed.
Lemma drop_idle code reason t : socketRef t = None → drop_socket code reason t = t.
Proof. intros Hr. unfold drop_socket, removeSocketListeners. rewrite Hr. destruct t. cbn in *. by subst. Qed.
(** What stays as it is while no connection is asked for. *)
Definition resting (t t' : terminal) : Prop :=
  stopped t' = true ∧ authenticationSuspended t' = authenticationSuspended t ∧ socks t' = socks t ∧
  (manualSuspended t = false → manualSuspended t' = false).
Lemma quiet_rests t t' : terminal_ok t → stopped t = true → quiet_step t t' → resting t t'.
Proof.
  intros Ht Hs Hq. destruct (stopped_idle t Ht Hs) as (Hr & Hd & Hk).
  destruct Hq as [k u Hh|k data u Hh|k u Hh|k code u Hh|d opens u Hh|u|open m u|l u|l u|u Hm|u Hm|a u]; try (by destruct (Hk k)).
  - congruence.
  - unfold behavior_microtask. destruct (micro u); [done|]. by destruct (_ && _).
  - unfold send. by rewrite Hr.
  - unfold subscribeOutput. by destruct (bool_decide _).
  - done.
  - unfold disconnect. by rewrite drop_idle.
  - unfold unmount, cleanup_effect. destruct (registration u); by rewrite drop_idle.
  - done.
Qed.
Lemma asked_rests t t' : terminal_ok t → authenticationSuspended t = true → asked_step t t' → resting t t'.
Proof.
  intros Ht Ha Hq. assert (stopped t = true) as Hs by (apply (ok_stopped _ _ _ _ Ht); auto).
  destruct Hq as [opens u Hm|b opens u Hm].
  - unfold reconnect. by rewrite Ha.
  - unfold behavior_effect. cbn. by rewrite Ha.
Qed.
Lemma behavior_rests b opens t : terminal_ok t → stopped t = true → manualSuspended t = false →
  resting t (behavior_effect basePath reconnectMaxSeconds sessionId location b opens t).
Proof.
  intros Ht Hs Hm. destruct (stopped_idle t Ht Hs) as (_ & Hd & _). unfold behavior_effect. cbn [authenticationSuspended set_behavior retryTimer manualSuspended].
  destruct (authenticationSuspended t); [done|]. destruct b; [by rewrite Hm|by rewrite Hd].
Qed.
End quiet.

(** The steps that do not ask for a connection. *)
Inductive passive_step basePath seconds id l : terminal → terminal → Prop :=
| p_quiet t t' : quiet_step basePath seconds id l t t' → passive_step basePath seconds id l t t'
| p_behavior b opens t : mounted t = true → passive_step basePath seconds id l t (behavior_effect basePath seconds id l b opens t).


(** A terminal whose connection is lost after it was ready. *)
Definition sample_location : Location := {| loc_protocol := js "https:"; host := js "t.example" |}.
Definition sample_tab_id : jsstr := js "123e4567-e89b-42d3-a456-426614174000".
Definition sample_step := terminal_step (js "/term") 30 sample_tab_id sample_location false.
Definition mounted_terminal : terminal :=
  default (rendered false automatic no_suspensions) (mount (js "/term") 30 sample_tab_id sample_location false automatic true no_suspensions).
Definition ready_terminal : terminal :=
  onMessage sample_tab_id 0 (Some (stringify (server_json (Ready sample_tab_id)))) mounted_terminal.
Definition lost_terminal : terminal := onClose 30 sample_tab_id 0 1006 ready_terminal.
