(* ===== verification/ClientAuth.v ===== *)
(** [apps/client/src/useAuth.ts]: the authentication of the page, as a state
    machine over the refs and the state of the hook.

    The events are the mount effect and its cleanup, the effect that arms the
    refresh timer, the timer, the page lifecycle, the calls of the page, and
    the settlement of a request.  [dirty] stands for a committed change of the
    dependencies of the refresh effect that the effect has not seen.  An
    [AbortController] is named by its place in [operations] or [privates]. *)
From S2P Require Import Prelude AuthService.
Open Scope Z_scope.

Definition REFRESH_LEAD_MS : Z := 60000.
Definition MINIMUM_APPLICATION_IDLE_MS : Z := 5 * 60000.
Definition TRUSTED_HEADER_REFRESH_MS : Z := MINIMUM_APPLICATION_IDLE_MS - REFRESH_LEAD_MS.
Definition ACCESS_ERROR : jsstr := js "Access could not be verified.".
Definition SIGN_IN_ERROR : jsstr := js "Sign-in failed.".
Definition RATE_LIMIT_ERROR : jsstr := js "Too many attempts. Try again later.".
Definition REQUEST_ERROR : jsstr := js "Unable to complete the request.".
Definition PASSWORD_ERROR : jsstr := js "Unable to change password.".
Definition SETUP_RATE_LIMIT_ERROR : jsstr := js "Too many setup attempts. Try again shortly.".
Definition SETUP_PASSWORD_ERROR : jsstr := js "Password could not be accepted.".
Definition SETUP_RETRY_ERROR : jsstr := js "Setup could not be completed. Try again.".
Definition SETUP_VERIFY_ERROR : jsstr := js "Setup status could not be verified. Try again.".
Definition SETUP_COMPLETED_ERROR : jsstr := js "Administrator already created. Sign in to continue.".
Definition SETUP_AMBIGUOUS_COMPLETED_ERROR : jsstr := js "Administrator created. Sign in to continue.".

Inductive AuthStatus := loading | unauthenticated | authenticated | access_error.
#[export] Instance AuthStatus_eq_dec : EqDecision AuthStatus.
Proof. solve_decision. Defined.

(** What a call of the API rejects with. *)
Inductive reason :=
| AbortError
| ApiError (code : option jsstr) (status : option Z)
| OtherError.
Definition isAbortError (r : reason) : bool := match r with AbortError => true | _ => false end.
Definition isAuthenticationLoss (r : reason) : bool :=
  match r with ApiError _ (Some s) => s =? 401 | _ => false end.
Definition has_code (c : jsstr) (r : reason) : bool :=
  match r with ApiError (Some c') _ => bool_decide (c' = c) | _ => false end.

(** The asynchronous function that owns an operation, at the call that it
    awaits. *)
Inductive kind :=
| Bootstrapping
| LoggingIn (username password : jsstr)
| SettingUp (password : jsstr)
| Recovering (conflict : bool)           (* the second call of [setup] *)
| LoggingOut (csrf : jsstr)
| ChangingPassword (csrf currentPassword newPassword : jsstr)
| Refreshing (previous : AuthBootstrap).
Record operation := Operation { op_kind : kind; op_aborted : bool; op_settled : bool }.

(** A call of [privateFetch] that is under way. *)
Inductive fetched := Fetching | Response (status : Z) | FetchAborted | FetchFailed.
Record request := Request {
  controller : nat;                      (* the private controller it captured *)
  csrf_header : option jsstr;
  r_aborted : bool;                      (* [composed.signal.aborted] *)
  outcome : fetched;
}.

Record client := Client {
  mounted : bool;
  status : AuthStatus;
  bootstrap : option AuthBootstrap;      (* the state *)
  error : option jsstr;
  passwordError : option jsstr;
  busy : bool;
  epoch : nat;
  dirty : bool;
  bootstrapRef : option AuthBootstrap;
  operationRef : option nat;
  operations : list operation;
  privateRef : option nat;
  privates : list bool;                  (* aborted *)
  refreshTimer : option (AuthBootstrap * Z);
  suspensions : nat;                     (* calls of [suspendActiveTerminalAuthLifecycles] *)
  requests : list request;
}.

Definition set_mounted (x : bool) (c : client) : client :=
  Client x (status c) (bootstrap c) (error c) (passwordError c) (busy c) (epoch c) (dirty c) (bootstrapRef c)
    (operationRef c) (operations c) (privateRef c) (privates c) (refreshTimer c) (suspensions c)
    (requests c).
Definition set_status (x : AuthStatus) (c : client) : client :=
  Client (mounted c) x (bootstrap c) (error c) (passwordError c) (busy c) (epoch c) (dirty c) (bootstrapRef c)
    (operationRef c) (operations c) (privateRef c) (privates c) (refreshTimer c) (suspensions c)
    (requests c).
Definition set_bootstrap (x : option AuthBootstrap) (c : client) : client :=
  Client (mounted c) (status c) x (error c) (passwordError c) (busy c) (epoch c) (dirty c) (bootstrapRef c)
    (operationRef c) (operations c) (privateRef c) (privates c) (refreshTimer c) (suspensions c)
    (requests c).
Definition set_error (x : option jsstr) (c : client) : client :=
  Client (mounted c) (status c) (bootstrap c) x (passwordError c) (busy c) (epoch c) (dirty c)
    (bootstrapRef c) (operationRef c) (operations c) (privateRef c) (privates c) (refreshTimer c)
    (suspensions c) (requests c).
Definition set_passwordError (x : option jsstr) (c : client) : client :=
  Client (mounted c) (status c) (bootstrap c) (error c) x (busy c) (epoch c) (dirty c) (bootstrapRef c)
    (operationRef c) (operations c) (privateRef c) (privates c) (refreshTimer c) (suspensions c)
    (requests c).
Definition set_busy (x : bool) (c : client) : client :=
  Client (mounted c) (status c) (bootstrap c) (error c) (passwordError c) x (epoch c) (dirty c)
    (bootstrapRef c) (operationRef c) (operations c) (privateRef c) (privates c) (refreshTimer c)
    (suspensions c) (requests c).
Definition set_epoch (x : nat) (c : client) : client :=
  Client (mounted c) (status c) (bootstrap c) (error c) (passwordError c) (busy c) x (dirty c)
    (bootstrapRef c) (operationRef c) (operations c) (privateRef c) (privates c) (refreshTimer c)
    (suspensions c) (requests c).
Definition set_dirty (x : bool) (c : client) : client :=
  Client (mounted c) (status c) (bootstrap c) (error c) (passwordError c) (busy c) (epoch c) x
    (bootstrapRef c) (operationRef c) (operations c) (privateRef c) (privates c) (refreshTimer c)
    (suspensions c) (requests c).
Definition set_bootstrapRef (x : option AuthBootstrap) (c : client) : client :=
  Client (mounted c) (status c) (bootstrap c) (error c) (passwordError c) (busy c) (epoch c) (dirty c) x
    (operationRef c) (operations c) (privateRef c) (privates c) (refreshTimer c) (suspensions c)
    (requests c).
Definition set_operationRef (x : option nat) (c : client) : client :=
  Client (mounted c) (status c) (bootstrap c) (error c) (passwordError c) (busy c) (epoch c) (dirty c)
    (bootstrapRef c) x (operations c) (privateRef c) (privates c) (refreshTimer c) (suspensions c)
    (requests c).
Definition set_operations (x : list operation) (c : client) : client :=
  Client (mounted c) (status c) (bootstrap c) (error c) (passwordError c) (busy c) (epoch c) (dirty c)
    (bootstrapRef c) (operationRef c) x (privateRef c) (privates c) (refreshTimer c) (suspensions c)
    (requests c).
Definition set_privateRef (x : option nat) (c : client) : client :=
  Client (mounted c) (status c) (bootstrap c) (error c) (passwordError c) (busy c) (epoch c) (dirty c)
    (bootstrapRef c) (operationRef c) (operations c) x (privates c) (refreshTimer c) (suspensions c)
    (requests c).
Definition set_privates (x : list bool) (c : client) : client :=
  Client (mounted c) (status c) (bootstrap c) (error c) (passwordError c) (busy c) (epoch c) (dirty c)
    (bootstrapRef c) (operationRef c) (operations c) (privateRef c) x (refreshTimer c) (suspensions c)
    (requests c).
Definition set_refreshTimer (x : option (AuthBootstrap * Z)) (c : client) : client :=
  Client (mounted c) (status c) (bootstrap c) (error c) (passwordError c) (busy c) (epoch c) (dirty c)
    (bootstrapRef c) (operationRef c) (operations c) (privateRef c) (privates c) x (suspensions c)
    (requests c).
Definition set_suspensions (x : nat) (c : client) : client :=
  Client (mounted c) (status c) (bootstrap c) (error c) (passwordError c) (busy c) (epoch c) (dirty c)
    (bootstrapRef c) (operationRef c) (operations c) (privateRef c) (privates c) (refreshTimer c) x
    (requests c).
Definition set_requests (x : list request) (c : client) : client :=
  Client (mounted c) (status c) (bootstrap c) (error c) (passwordError c) (busy c) (epoch c) (dirty c)
    (bootstrapRef c) (operationRef c) (operations c) (privateRef c) (privates c) (refreshTimer c)
    (suspensions c) x.
(** The first render. *)
Definition initial : client :=
  Client true loading None None None false 0 false None None [] None [] None 0 [].

Definition is_authenticated (b : AuthBootstrap) : bool := match b with Authenticated _ _ _ _ => true | _ => false end.
Definition boot_mode (b : AuthBootstrap) : AuthMode :=
  match b with Unauthenticated m => m | Setup_required _ => mode_local | Authenticated m _ _ _ => m end.
Definition authenticated_ref (c : client) : bool := match bootstrapRef c with Some b => is_authenticated b | None => false end.
Definition isSetupRequired (b : option AuthBootstrap) : bool :=
  match b with Some (Setup_required _) => true | _ => false end.

(** ** The helpers *)

Definition cancelRefresh (c : client) : client := set_refreshTimer None c.
Definition abort_operation (o : operation) : operation := Operation (op_kind o) true (op_settled o).
(** [operationRef.current?.abort()] *)
Definition abort_current (c : client) : client :=
  match operationRef c with Some k => set_operations (alter abort_operation k (operations c)) c | None => c end.
(** A controller is made, and the call that it goes with. *)
Definition replaceOperation (x : kind) (c : client) : client :=
  let c := abort_current c in
  set_operationRef (Some (length (operations c))) (set_operations (operations c ++ [Operation x false false]) c).
Definition isCurrentOperation (k : nat) (c : client) : bool :=
  mounted c && bool_decide (operationRef c = Some k) &&
  match operations c !! k with Some o => negb (op_aborted o) | None => false end.
(** Aborting a private controller aborts the requests that captured it. *)
Definition abort_request (p : nat) (r : request) : request :=
  match outcome r with
  | Fetching => if decide (controller r = p) then Request (controller r) (csrf_header r) true (outcome r) else r
  | _ => r
  end.
Definition abort_private (c : client) : client :=
  match privateRef c with
  | Some p => set_requests (abort_request p <$> requests c) (set_privates (<[p := true]> (privates c)) c)
  | None => c
  end.
Definition drop_private (c : client) : client := set_privateRef None (abort_private c).
Definition drop_operation (c : client) : client := set_operationRef None (abort_current c).
(** [setBootstrap] *)
Definition setBootstrap (b : option AuthBootstrap) (c : client) : client := set_dirty true (set_bootstrap b c).
Definition setRefreshRevision (c : client) : client := set_dirty true c.

Definition publish (next : AuthBootstrap) (message : option jsstr) (c : client) : client :=
  if negb (mounted c) then c
  else
    let c := cancelRefresh c in
    let continuesAuthenticatedEpoch := authenticated_ref c && is_authenticated next in
    let c := set_error message (setBootstrap (Some next) (set_bootstrapRef (Some next) c)) in
    let c := if continuesAuthenticatedEpoch then c else set_passwordError None c in
    if is_authenticated next then
      let c := if continuesAuthenticatedEpoch then c
               else let c := abort_private c in
                    set_epoch (S (epoch c)) (set_privateRef (Some (length (privates c))) (set_privates (privates c ++ [false]) c)) in
      set_status authenticated c
    else
      let c := drop_private c in
      if decide (boot_mode next = mode_local) then set_status unauthenticated c
      else set_error (Some ACCESS_ERROR) (set_status access_error c).

Definition authenticationRequired (c : client) : client :=
  match bootstrapRef c with
  | None => c
  | Some previous =>
      let c := set_bootstrapRef None (drop_private (drop_operation (cancelRefresh (set_suspensions (S (suspensions c)) c)))) in
      if negb (mounted c) then c
      else
        let c := set_passwordError None (set_busy false (setBootstrap None c)) in
        if decide (boot_mode previous = mode_local) then set_error None (set_status unauthenticated c)
        else set_error (Some ACCESS_ERROR) (set_status access_error c)
  end.

Definition bootstrapSession (c : client) : client :=
  let c := replaceOperation Bootstrapping c in
  if mounted c then set_busy false (set_error None (set_status loading c)) else c.

(** ** The effects *)

(** The refresh effect runs after it in the same commit. *)
Definition mount_effect (c : client) : client := set_dirty true (bootstrapSession (set_mounted true c)).
Definition unmount_cleanup (c : client) : client := drop_private (drop_operation (cancelRefresh (set_mounted false c))).

(** [refreshDelay], at time [now]. *)
Definition refreshDelay (now : Z) (b : AuthBootstrap) : option Z :=
  match b with
  | Authenticated m _ _ u =>
      match m with
      | cloudflare_access | trusted_header =>
          match u with
          | Some t => Some (Z.max 0 (t - now - REFRESH_LEAD_MS))
          | None => match m with trusted_header => Some TRUSTED_HEADER_REFRESH_MS | _ => None end
          end
      | _ => None
      end
  | _ => None
  end.
(** The refresh effect, with the cleanup of its last run. *)
Definition refresh_effect (now : Z) (c : client) : client :=
  let c := set_dirty false (cancelRefresh c) in
  match bootstrap c with
  | Some b => match refreshDelay now b with Some d => set_refreshTimer (Some (b, d)) c | None => c end
  | None => c
  end.
Definition on_timer (c : client) : client :=
  match refreshTimer c with
  | Some (b, _) => replaceOperation (Refreshing b) (set_refreshTimer None c)
  | None => c
  end.
Definition onPageHide (c : client) : client :=
  set_status loading (set_passwordError None (set_error None (set_busy false (setBootstrap None
    (set_bootstrapRef None (drop_private (drop_operation (cancelRefresh c)))))))).
Definition onPageShow (persisted : bool) (c : client) : client := if persisted then bootstrapSession c else c.

(** ** The calls of the page, to their first await *)

Definition retry : client → client := bootstrapSession.
Definition login (username password : jsstr) (c : client) : client :=
  set_error None (set_busy true (replaceOperation (LoggingIn username password) c)).
Definition setup (password : jsstr) (c : client) : client :=
  if negb (isSetupRequired (bootstrapRef c)) then c
  else set_error None (set_busy true (replaceOperation (SettingUp password) c)).
Definition logout (c : client) : client :=
  match bootstrapRef c with
  | Some (Authenticated _ _ csrf _) => set_error None (set_busy true (replaceOperation (LoggingOut csrf) (cancelRefresh c)))
  | _ => c
  end.
Definition changePassword (currentPassword newPassword : jsstr) (c : client) : client :=
  match bootstrapRef c with
  | Some (Authenticated _ _ csrf _) =>
      set_passwordError None (set_busy true (replaceOperation (ChangingPassword csrf currentPassword newPassword) (cancelRefresh c)))
  | _ => c
  end.

(** ** The settlement of operation [k] *)

(** The [finally] blocks: those of [bootstrapSession] and of the refresh leave
    [busy] alone. *)
Definition release_operation (k : nat) (c : client) : client :=
  if decide (operationRef c = Some k) then set_operationRef None c else c.
Definition finally_busy (k : nat) (c : client) : client :=
  if decide (operationRef c = Some k) then
    let c := set_operationRef None c in if mounted c then set_busy false c else c
  else c.
Definition settled (o : operation) : operation := Operation (op_kind o) (op_aborted o) true.
Definition rekind (x : kind) (o : operation) : operation := Operation x (op_aborted o) (op_settled o).
Definition mark_settled (k : nat) (c : client) : client := set_operations (alter settled k (operations c)) c.

Definition setupRecoveryMessage (b : AuthBootstrap) (conflict : bool) : option jsstr :=
  match b with
  | Authenticated _ _ _ _ => None
  | Setup_required _ => Some SETUP_RETRY_ERROR
  | Unauthenticated _ => Some (if conflict then SETUP_COMPLETED_ERROR else SETUP_AMBIGUOUS_COMPLETED_ERROR)
  end.
Definition isConsistentRefresh (previous next : AuthBootstrap) : bool :=
  match previous, next with
  | Authenticated m l _ u, Authenticated m' l' _ u' =>
      bool_decide (m' = m) && bool_decide (l' = l) &&
      match u with None => true | Some t => match u' with Some t' => t <? t' | None => false end end
  | _, _ => false
  end.

(** The answer of the API: a bootstrap, nothing, or a rejection. *)
Inductive answer := Answer (b : AuthBootstrap) | Done | Failure (r : reason).

Definition settle_bootstrap (k : nat) (n : answer) (c : client) : client :=
  match n with
  | Answer next => if isCurrentOperation k c then publish next None c else c
  | Done => c
  | Failure r =>
      if isAbortError r || negb (isCurrentOperation k c) then c
      else set_error (Some ACCESS_ERROR) (set_status access_error (setBootstrap None (set_bootstrapRef None c)))
  end.
Definition settle_login (k : nat) (n : answer) (c : client) : client :=
  match n with
  | Answer next => if isCurrentOperation k c then publish next None c else c
  | Done => c
  | Failure r =>
      if isAbortError r || negb (isCurrentOperation k c) then c
      else set_error (Some (if has_code (js "rate_limited") r then RATE_LIMIT_ERROR else SIGN_IN_ERROR)) c
  end.
Definition settle_recovery (k : nat) (conflict : bool) (n : answer) (c : client) : client :=
  match n with
  | Answer b => if isCurrentOperation k c then publish b (setupRecoveryMessage b conflict) c else c
  | Done => c
  | Failure r => if isAbortError r || negb (isCurrentOperation k c) then c else set_error (Some SETUP_VERIFY_ERROR) c
  end.
Definition settle_ending (k : nat) (n : answer) (failed : client → client) (c : client) : client :=
  match n with
  | Answer _ | Done => if isCurrentOperation k c then authenticationRequired c else c
  | Failure r =>
      if isAbortError r || negb (isCurrentOperation k c) then c
      else if isAuthenticationLoss r then authenticationRequired c
      else setRefreshRevision (failed c)
  end.
Definition settle_refresh (k : nat) (previous : AuthBootstrap) (n : answer) (c : client) : client :=
  match n with
  | Answer next =>
      if negb (isCurrentOperation k c) then c
      else if negb (isConsistentRefresh previous next) then authenticationRequired c
      else publish next None c
  | Done => c
  | Failure r => if negb (isAbortError r) && isCurrentOperation k c then authenticationRequired c else c
  end.
(** [setup] after a rejection: it ends with a message, or asks for the
    session again with the same controller. *)
Definition setup_failed (k : nat) (r : reason) (c : client) : client * bool :=
  if isAbortError r || negb (isCurrentOperation k c) then (c, true)
  else if has_code (js "rate_limited") r then (set_error (Some SETUP_RATE_LIMIT_ERROR) c, true)
  else if has_code (js "invalid_request") r then (set_error (Some SETUP_PASSWORD_ERROR) c, true)
  else (set_operations (alter (rekind (Recovering (has_code (js "setup_already_completed") r))) k (operations c)) c, false).

Definition settle (k : nat) (n : answer) (c : client) : client :=
  match operations c !! k with
  | None => c
  | Some o =>
      if op_settled o then c
      else match op_kind o with
           | Bootstrapping => release_operation k (settle_bootstrap k n (mark_settled k c))
           | LoggingIn _ _ => finally_busy k (settle_login k n (mark_settled k c))
           | SettingUp _ =>
               match n with
               | Failure r =>
                   let '(c', ended) := setup_failed k r c in
                   if ended : bool then finally_busy k (mark_settled k c') else c'
               | _ => finally_busy k (settle_login k n (mark_settled k c))
               end
           | Recovering conflict => finally_busy k (settle_recovery k conflict n (mark_settled k c))
           | LoggingOut _ => finally_busy k (settle_ending k n (set_error (Some REQUEST_ERROR)) (mark_settled k c))
           | ChangingPassword _ _ _ => finally_busy k (settle_ending k n (set_passwordError (Some PASSWORD_ERROR)) (mark_settled k c))
           | Refreshing previous => release_operation k (settle_refresh k previous n (mark_settled k c))
           end
  end.

(** ** [privateFetch] *)

(** [safe]: the method is GET or HEAD; [inside]: [privateRequestUrl] yields a
    URL; [aborted]: a signal of the caller is aborted.  [None]: it throws before
    the request. *)
Definition privateFetch (safe inside aborted : bool) (c : client) : option client :=
  match bootstrapRef c, privateRef c with
  | Some (Authenticated _ _ csrf _), Some p =>
      if negb inside then None
      else if aborted || default false (privates c !! p) then None
      else Some (set_requests (requests c ++ [Request p (if safe then None else Some csrf) false Fetching]) c)
  | _, _ => None
  end.
Definition with_outcome (f : fetched) (r : request) : request := Request (controller r) (csrf_header r) (r_aborted r) f.
(** The request settles: with a status, or [None] for a failure that is
    ([abort]) or is not an abort. *)
Definition fetch_settled (i : nat) (st : option Z) (abort : bool) (c : client) : client :=
  match requests c !! i with
  | Some r =>
      match outcome r with
      | Fetching =>
          let put f c := set_requests (alter (with_outcome f) i (requests c)) c in
          if r_aborted r then put FetchAborted c
          else match st with
               | Some s =>
                   let c' := put (Response s) c in
                   if (s =? 401) && bool_decide (privateRef c = Some (controller r)) && negb (default false (privates c !! controller r))
                   then authenticationRequired c' else c'
               | None => put (if abort then FetchAborted else FetchFailed) c
               end
      | _ => c
      end
  | None => c
  end.
(** A signal of the caller aborts. *)
Definition caller_aborts (i : nat) (c : client) : client :=
  set_requests (alter (λ r, match outcome r with Fetching => Request (controller r) (csrf_header r) true Fetching | _ => r end) i (requests c)) c.

(** The steps of a page: [c_mount] runs the effect of a mount again only
    after a cleanup. *)
Inductive cstep : client → client → Prop :=
| c_unmount c : mounted c = true → cstep c (unmount_cleanup c)
| c_effect now c : dirty c = true → mounted c = true → cstep c (refresh_effect now c)
| c_timer c : cstep c (on_timer c)
| c_pagehide c : mounted c = true → cstep c (onPageHide c)
| c_pageshow persisted c : mounted c = true → cstep c (onPageShow persisted c)
| c_retry c : cstep c (retry c)
| c_login u p c : cstep c (login u p c)
| c_setup p c : cstep c (setup p c)
| c_logout c : cstep c (logout c)
| c_changePassword cp np c : cstep c (changePassword cp np c)
| c_required c : cstep c (authenticationRequired c)
| c_settle k n c : cstep c (settle k n c)
| c_fetch safe inside aborted c c' : privateFetch safe inside aborted c = Some c' → cstep c c'
| c_fetched i st abort c : cstep c (fetch_settled i st abort c)
| c_abort i c : cstep c (caller_aborts i c).
(** The mount effect runs again, as it does when [api] changes. *)
Inductive remount_step : client → client → Prop :=
| c_remount c : mounted c = false → remount_step c (mount_effect c).
