(* ===== verification/ClientAuthFacts.v ===== *)
(** The page of [ClientAuth]: one live operation, one private controller, and
    what an ended authentication leaves behind. *)
From S2P Require Import Prelude AuthService ClientAuth.
Open Scope Z_scope.

(** * The invariant *)

(** The current operation is the only one that is neither aborted nor
    settled. *)
Definition ops_ok (ops : list operation) (r : option nat) : Prop :=
  ∀ k o, ops !! k = Some o → (op_aborted o = false ∧ op_settled o = false ↔ r = Some k).
Definition ref_ok (ops : list operation) (r : option nat) : Prop := ∀ k, r = Some k → is_Some (ops !! k).
(** The current private controller is the only one that is not aborted; the
    live requests captured it. *)
Definition privates_ok (ps : list bool) (r : option nat) : Prop := ∀ p, ps !! p = Some false ↔ r = Some p.
Definition requests_ok (ps : list bool) (rs : list request) : Prop :=
  ∀ i q, rs !! i = Some q → outcome q = Fetching → r_aborted q = false → ps !! controller q = Some false.

Record client_ok (c : client) : Prop := {
  ok_operations : ops_ok (operations c) (operationRef c);
  ok_operation : ref_ok (operations c) (operationRef c);
  ok_privates : privates_ok (privates c) (privateRef c);
  ok_requests : requests_ok (privates c) (requests c);
  ok_epoch : epoch c = length (privates c);
  ok_status : mounted c = true → status c = authenticated → authenticated_ref c = true ∧ bootstrap c = bootstrapRef c;
  ok_timer : ∀ b d, refreshTimer c = Some (b, d) → mounted c = true ∧ 0 <= d ∧ is_authenticated b = true;
}.

(** ** Controllers *)

Lemma ops_drop ops k : ops_ok ops (Some k) → ops_ok (alter abort_operation k ops) None.
Proof.
  intros Hs j o Hj. split; [|done]. intros [Ha Hd]. destruct (decide (k = j)) as [<-|Hne].
  - rewrite list_lookup_alter_eq in Hj. apply fmap_Some in Hj as (o0 & _ & ->). done.
  - rewrite list_lookup_alter_ne in Hj by done. by assert (Some k = Some j) by (by apply (Hs j o)); simplify_eq.
Qed.
Lemma ops_new ops x : ops_ok ops None → ops_ok (ops ++ [Operation x false false]) (Some (length ops)).
Proof.
  intros Hs j o [Hj|[Hge Hj]]%lookup_app_Some.
  - split; [intros Hd; by apply (Hs j o Hj) in Hd|]. intros [= <-]. apply lookup_lt_Some in Hj. lia.
  - apply list_lookup_singleton_Some in Hj as [Hz <-]. split; [|done]. intros _. f_equal. lia.
Qed.
Lemma ops_settled ops r k : ops_ok ops r → ops_ok (alter settled k ops) (if decide (r = Some k) then None else r).
Proof.
  intros Hs j o Hj. destruct (decide (k = j)) as [<-|Hne].
  - rewrite list_lookup_alter_eq in Hj. apply fmap_Some in Hj as (o0 & _ & ->). split; [by intros [_ ?]|]. by destruct (decide _).
  - rewrite list_lookup_alter_ne in Hj by done. rewrite (Hs j o Hj). destruct (decide _) as [->|]; [|done]. split; [congruence|done].
Qed.
Lemma ops_rekind ops r k x : ops_ok ops r → ops_ok (alter (rekind x) k ops) r.
Proof.
  intros Hs j o Hj. destruct (decide (k = j)) as [<-|Hne].
  - rewrite list_lookup_alter_eq in Hj. apply fmap_Some in Hj as (o0 & Ho & ->). apply (Hs k o0 Ho).
  - rewrite list_lookup_alter_ne in Hj by done. by apply Hs.
Qed.
Lemma ops_aborted ops k : ops_ok ops None → ops_ok (alter abort_operation k ops) None.
Proof.
  intros Hs j o Hj. destruct (decide (k = j)) as [<-|Hne].
  - rewrite list_lookup_alter_eq in Hj. apply fmap_Some in Hj as (o0 & _ & ->). split; [by intros [? _]|done].
  - rewrite list_lookup_alter_ne in Hj by done. by apply Hs.
Qed.
Lemma ref_alter f k ops r : ref_ok ops r → ref_ok (alter f k ops) r.
Proof. intros Hr j Hj. apply lookup_lt_is_Some. rewrite length_alter. by apply lookup_lt_is_Some, Hr. Qed.

Lemma privates_drop ps p : privates_ok ps (Some p) → privates_ok (<[p := true]> ps) None.
Proof.
  intros Hs j. split; [|done]. intros Hj. destruct (decide (p = j)) as [<-|Hne].
  - assert (ps !! p = Some false) as Hp by by apply Hs. rewrite list_lookup_insert_eq in Hj by by eapply lookup_lt_Some. done.
  - rewrite list_lookup_insert_ne in Hj by done. apply Hs in Hj. congruence.
Qed.
Lemma privates_new ps : privates_ok ps None → privates_ok (ps ++ [false]) (Some (length ps)).
Proof.
  intros Hs j. split.
  - intros [Hj|[Hge Hj]]%lookup_app_Some; [by apply Hs in Hj|]. apply list_lookup_singleton_Some in Hj as [? _]. f_equal. lia.
  - intros [= <-]. by rewrite lookup_app_r, Nat.sub_diag by done.
Qed.
Lemma requests_drop ps rs p : requests_ok ps rs → requests_ok (<[p := true]> ps) (abort_request p <$> rs).
Proof.
  intros Hs i q Hi Hf Hn. rewrite list_lookup_fmap in Hi. apply fmap_Some in Hi as (q0 & Hq0 & ->).
  unfold abort_request in *. destruct (outcome q0) eqn:Ho; try congruence. destruct (decide (controller q0 = p)) as [He|He]; [done|].
  rewrite list_lookup_insert_ne by done. by eapply Hs.
Qed.
Lemma requests_new ps rs : requests_ok ps rs → requests_ok (ps ++ [false]) rs.
Proof. intros Hs i q Hi Hf Hn. apply lookup_app_l_Some. by eapply Hs. Qed.

(** ** The helpers *)

Record dropped_private (c c' : client) : Prop := {
  dp_privates : privates_ok (privates c') None;
  dp_requests : requests_ok (privates c') (requests c');
  dp_epoch : length (privates c') = length (privates c);
}.
Lemma abort_private_ok c : privates_ok (privates c) (privateRef c) → requests_ok (privates c) (requests c) →
  dropped_private c (abort_private c).
Proof.
  intros Hp Hr. unfold abort_private. destruct (privateRef c) as [p|] eqn:Hpr; split; cbn; try done.
  - by apply privates_drop.
  - by apply requests_drop.
  - by rewrite length_insert.
Qed.
Lemma abort_private_frame c : let c' := abort_private c in
  operations c' = operations c ∧ operationRef c' = operationRef c ∧ epoch c' = epoch c ∧ mounted c' = mounted c ∧ status c' = status c ∧
  bootstrapRef c' = bootstrapRef c ∧ bootstrap c' = bootstrap c ∧ refreshTimer c' = refreshTimer c ∧ privateRef c' = privateRef c ∧
  passwordError c' = passwordError c ∧ busy c' = busy c ∧ error c' = error c.
Proof. unfold abort_private. destruct (privateRef c) eqn:E; cbn; rewrite ?E; done. Qed.
Lemma abort_current_ok c : ops_ok (operations c) (operationRef c) → ops_ok (operations (abort_current c)) None.
Proof. intros Hs. unfold abort_current. destruct (operationRef c) eqn:Hr; cbn; [by apply ops_drop|by rewrite Hr in Hs || done]. Qed.
Lemma abort_current_frame c : let c' := abort_current c in
  privates c' = privates c ∧ privateRef c' = privateRef c ∧ requests c' = requests c ∧ epoch c' = epoch c ∧ mounted c' = mounted c ∧
  status c' = status c ∧ bootstrapRef c' = bootstrapRef c ∧ bootstrap c' = bootstrap c ∧ refreshTimer c' = refreshTimer c.
Proof. unfold abort_current. by destruct (operationRef c). Qed.

(** A change of variables that leaves the controllers alone. *)
Lemma controllers_kept c c' : client_ok c → operations c' = operations c → operationRef c' = operationRef c →
  privates c' = privates c → privateRef c' = privateRef c → requests c' = requests c → epoch c' = epoch c → mounted c' = mounted c →
  (refreshTimer c' = refreshTimer c ∨ refreshTimer c' = None) →
  (mounted c = true → status c' = authenticated → authenticated_ref c' = true ∧ bootstrap c' = bootstrapRef c') → client_ok c'.
Proof.
  intros [C1 C2 C3 C4 C5 C6 C7] E1 E2 E3 E4 E5 E6 E7 Ht Hs.
  split; rewrite ?E1, ?E2, ?E3, ?E4, ?E5, ?E6, ?E7; try done.
  intros b d Hb. destruct Ht as [Ht|Ht]; rewrite Ht in Hb; [by eapply C7|done].
Qed.
Lemma publish_ok next msg c : client_ok c → client_ok (publish next msg c).
Proof.
  intros Hc. pose proof Hc as [C1 C2 C3 C4 C5 C6 C7]. unfold publish. destruct (mounted c) eqn:Hm; [|done]. cbn [negb].
  set (c1 := set_error msg (setBootstrap (Some next) (set_bootstrapRef (Some next) (cancelRefresh c)))).
  destruct (is_authenticated next) eqn:Hn.
  - destruct (authenticated_ref (cancelRefresh c) && true) eqn:He.
    + apply (controllers_kept c); try done. by right.
    + destruct (abort_private_ok (set_passwordError None c1) C3 C4) as [D1 D2 D3].
      destruct (abort_private_frame (set_passwordError None c1)) as (F1 & F2 & F3 & F4 & F5 & F6 & F7 & F8 & F9 & _).
      split; cbn; rewrite ?F1, ?F2, ?F3, ?F4, ?F8; try done.
      * by apply privates_new.
      * by apply requests_new.
      * rewrite length_app, D3. cbn. cbn in C5. rewrite C5. lia.
      * intros _ _. unfold authenticated_ref. cbn. by rewrite F6, F7.
  - rewrite andb_false_r.
    destruct (abort_private_ok (set_passwordError None c1) C3 C4) as [D1 D2 D3].
    destruct (abort_private_frame (set_passwordError None c1)) as (F1 & F2 & F3 & F4 & F5 & F6 & F7 & F8 & F9 & _).
    unfold drop_private. destruct (decide _); split; cbn; rewrite ?F1, ?F2, ?F3, ?F4, ?F8, ?D3; done.
Qed.
(** The current operation may have settled already. *)
Record droppable (c : client) : Prop := {
  d_operations : ops_ok (operations c) (operationRef c) ∨ ops_ok (operations c) None;
  d_privates : privates_ok (privates c) (privateRef c);
  d_requests : requests_ok (privates c) (requests c);
  d_epoch : epoch c = length (privates c);
}.
Lemma client_droppable c : client_ok c → droppable c.
Proof. intros [C1 C2 C3 C4 C5 C6 C7]. split; auto. Qed.
Lemma drop_all_ok c : droppable c → let c' := drop_private (drop_operation c) in
  ops_ok (operations c') None ∧ privates_ok (privates c') None ∧ requests_ok (privates c') (requests c') ∧ epoch c' = length (privates c') ∧
  operationRef c' = None ∧ privateRef c' = None ∧ mounted c' = mounted c ∧ status c' = status c ∧ bootstrapRef c' = bootstrapRef c ∧
  bootstrap c' = bootstrap c ∧ refreshTimer c' = refreshTimer c.
Proof.
  intros [C1 C3 C4 C5].
  destruct (abort_current_frame c) as (G1 & G2 & G3 & G4 & G5 & G6 & G7 & G8 & G9).
  destruct (abort_private_ok (drop_operation c)) as [D1 D2 D3]; [cbn; by rewrite G1, G2|cbn; by rewrite G1, G3|].
  destruct (abort_private_frame (drop_operation c)) as (F1 & F2 & F3 & F4 & F5 & F6 & F7 & F8 & F9 & _).
  cbn -[abort_private drop_operation]. rewrite F1, F2, F3, F4, F5, F6, F7, F8, D3. cbn. rewrite G1, G4, G5, G6, G7, G8, G9.
  split_and!; try done. destruct C1 as [C1|C1]; [by apply abort_current_ok|].
  unfold abort_current. destruct (operationRef c); [by apply ops_aborted|done].
Qed.
(** Everything was dropped, and nothing shows an authenticated page. *)
Lemma dropped_ok c : ops_ok (operations c) None → privates_ok (privates c) None → requests_ok (privates c) (requests c) →
  epoch c = length (privates c) → operationRef c = None → privateRef c = None → refreshTimer c = None →
  (mounted c = true → status c ≠ authenticated) → client_ok c.
Proof.
  intros H1 H2 H3 H4 H5 H6 H7 H8. split; rewrite ?H5, ?H6, ?H7; try done. intros Hm Hs. by destruct (H8 Hm).
Qed.
Lemma authenticationRequired_drops c : droppable c → bootstrapRef c ≠ None → client_ok (authenticationRequired c) ∧
  operationRef (authenticationRequired c) = None ∧ privateRef (authenticationRequired c) = None ∧ bootstrapRef (authenticationRequired c) = None.
Proof.
  intros Hc Hb. unfold authenticationRequired. destruct (bootstrapRef c) as [previous|]; [clear Hb|done].
  set (c1 := cancelRefresh (set_suspensions (S (suspensions c)) c)).
  assert (droppable c1) as H1 by (by destruct Hc).
  destruct (drop_all_ok c1 H1) as (D1 & D2 & D3 & D4 & D5 & D6 & D7 & D8 & D9 & D10 & D11).
  cbn [mounted set_bootstrapRef]. rewrite D7. cbn [mounted cancelRefresh set_refreshTimer set_suspensions c1].
  destruct (mounted c) eqn:Hm; cbn [negb]; [destruct (decide _)|]; (split; [apply dropped_ok; cbn -[drop_private drop_operation c1]; try done|done]).
  all: rewrite D7; cbn; congruence.
Qed.
Lemma authenticationRequired_ok c : client_ok c → client_ok (authenticationRequired c).
Proof.
  intros Hc. destruct (bootstrapRef c) eqn:Hb.
  - apply authenticationRequired_drops; [by apply client_droppable|congruence].
  - unfold authenticationRequired. by rewrite Hb.
Qed.
Lemma replace_parts x c : client_ok c → let c' := replaceOperation x c in
  ops_ok (operations c') (operationRef c') ∧ ref_ok (operations c') (operationRef c') ∧
  privates c' = privates c ∧ privateRef c' = privateRef c ∧ requests c' = requests c ∧ epoch c' = epoch c ∧ mounted c' = mounted c ∧
  status c' = status c ∧ bootstrapRef c' = bootstrapRef c ∧ bootstrap c' = bootstrap c ∧ refreshTimer c' = refreshTimer c.
Proof.
  intros [C1 C2 C3 C4 C5 C6 C7]. destruct (abort_current_frame c) as (G1 & G2 & G3 & G4 & G5 & G6 & G7 & G8 & G9).
  unfold replaceOperation. cbn. split_and!; try done.
  - by apply ops_new, abort_current_ok.
  - intros k [= <-]. apply lookup_lt_is_Some. rewrite length_app. cbn. lia.
Qed.
(** [replaceOperation] with a change of the shown state. *)
Lemma replaced_ok x c c' : client_ok c → operations c' = operations (replaceOperation x c) → operationRef c' = operationRef (replaceOperation x c) →
  privates c' = privates c → privateRef c' = privateRef c → requests c' = requests c → epoch c' = epoch c →
  (mounted c = true → mounted c' = true) → (refreshTimer c' = refreshTimer c ∨ refreshTimer c' = None) →
  (mounted c' = true → status c' = authenticated → authenticated_ref c' = true ∧ bootstrap c' = bootstrapRef c') → client_ok c'.
Proof.
  intros Hc E1 E2 E3 E4 E5 E6 Hm Ht Hs. destruct (replace_parts x c Hc) as (R1 & R2 & _).
  destruct Hc as [C1 C2 C3 C4 C5 C6 C7]. split; rewrite ?E1, ?E2, ?E3, ?E4, ?E5, ?E6; try done.
  intros b d Hb. destruct Ht as [Ht|Ht]; rewrite Ht in Hb; [|done]. destruct (C7 b d Hb) as (? & ? & ?). auto.
Qed.

(** ** The events *)

Lemma bootstrapSession_ok c : client_ok c → client_ok (bootstrapSession c).
Proof.
  intros Hc. destruct (replace_parts Bootstrapping c Hc) as (R1 & R2 & R3 & R4 & R5 & R6 & R7 & R8 & R9 & R10 & R11).
  unfold bootstrapSession. rewrite R7. destruct (mounted c) eqn:Hm.
  - apply (replaced_ok Bootstrapping c); cbn -[replaceOperation]; try done; by left.
  - apply (replaced_ok Bootstrapping c); try done; [congruence|by left|congruence].
Qed.
Lemma page_mount_ok c : client_ok c → client_ok (mount_effect c).
Proof.
  intros Hc. apply (replaced_ok Bootstrapping c); try done; unfold mount_effect, bootstrapSession, replaceOperation, abort_current; cbn;
    destruct (operationRef c); cbn; auto; done.
Qed.
Lemma timer_none c : client_ok c → mounted c = false → refreshTimer c = None.
Proof. intros Hc Hm. destruct (refreshTimer c) as [[b d]|] eqn:Ht; [|done]. destruct (ok_timer _ Hc b d Ht). congruence. Qed.

Lemma page_unmount_ok c : client_ok c → client_ok (unmount_cleanup c).
Proof.
  intros Hc. unfold unmount_cleanup. destruct (drop_all_ok (cancelRefresh (set_mounted false c))) as (D1 & D2 & D3 & D4 & D5 & D6 & D7 & D8 & D9 & D10 & D11).
  { by destruct (client_droppable c Hc). }
  apply dropped_ok; try done. by rewrite D7.
Qed.
Lemma refreshDelay_auth now b d : refreshDelay now b = Some d → 0 <= d ∧ is_authenticated b = true.
Proof.
  destruct b as [| |m ? ? u]; try done. destruct m, u; cbn; try done; intros [= <-]; split; try done; try lia.
Qed.
Lemma refresh_effect_ok now c : mounted c = true → client_ok c → client_ok (refresh_effect now c).
Proof.
  intros Hm Hc. unfold refresh_effect. set (c1 := set_dirty false (cancelRefresh c)).
  assert (client_ok c1) as H1 by (apply (controllers_kept c); try done; [by right|apply Hc]).
  change (bootstrap c1) with (bootstrap c). destruct (bootstrap c) as [b|] eqn:Hb; [|done]. destruct (refreshDelay now b) as [d|] eqn:Hd; [|done].
  destruct H1 as [C1 C2 C3 C4 C5 C6 C7]. split; try done. intros b' d'. cbn. intros [= <- <-]. split; [done|]. by eapply refreshDelay_auth.
Qed.
Lemma refresh_timer_ok c : client_ok c → client_ok (on_timer c).
Proof.
  intros Hc. unfold on_timer. destruct (refreshTimer c) as [[b d]|] eqn:Ht; [|done].
  pose proof (ok_status _ Hc) as Hs. unfold authenticated_ref in Hs.
  apply (replaced_ok (Refreshing b) c); try done; unfold authenticated_ref, replaceOperation, abort_current; cbn; destruct (operationRef c); cbn; auto; done.
Qed.
Lemma pagehide_ok c : client_ok c → client_ok (onPageHide c).
Proof.
  intros Hc. unfold onPageHide. destruct (drop_all_ok (cancelRefresh c)) as (D1 & D2 & D3 & D4 & D5 & D6 & D7 & D8 & D9 & D10 & D11).
  { by destruct (client_droppable c Hc). }
  by apply dropped_ok.
Qed.
Lemma login_ok u p c : client_ok c → client_ok (login u p c).
Proof.
  intros Hc. pose proof (ok_status _ Hc) as Hs. unfold authenticated_ref in Hs.
  apply (replaced_ok (LoggingIn u p) c); try done; unfold login, authenticated_ref, replaceOperation, abort_current; cbn; destruct (operationRef c); cbn; auto; done.
Qed.
Lemma setup_ok p c : client_ok c → client_ok (setup p c).
Proof.
  intros Hc. unfold setup. destruct (negb _); [done|]. pose proof (ok_status _ Hc) as Hs. unfold authenticated_ref in Hs.
  apply (replaced_ok (SettingUp p) c); try done; unfold authenticated_ref, replaceOperation, abort_current; cbn; destruct (operationRef c); cbn; auto; done.
Qed.
Lemma logout_ok c : client_ok c → client_ok (logout c).
Proof.
  intros Hc. unfold logout. destruct (bootstrapRef c) as [[| |m l csrf u]|] eqn:Hb; try done.
  pose proof (ok_status _ Hc) as Hs. unfold authenticated_ref in Hs. rewrite Hb in Hs.
  apply (replaced_ok (LoggingOut csrf) c); try done; unfold authenticated_ref, replaceOperation, abort_current; cbn; destruct (operationRef c); cbn; rewrite ?Hb; auto; done.
Qed.
Lemma changePassword_ok cp np c : client_ok c → client_ok (changePassword cp np c).
Proof.
  intros Hc. unfold changePassword. destruct (bootstrapRef c) as [[| |m l csrf u]|] eqn:Hb; try done.
  pose proof (ok_status _ Hc) as Hs. unfold authenticated_ref in Hs. rewrite Hb in Hs.
  apply (replaced_ok (ChangingPassword csrf cp np) c); try done; unfold authenticated_ref, replaceOperation, abort_current; cbn; destruct (operationRef c); cbn; rewrite ?Hb; auto; done.
Qed.

(** ** The settlement of an operation *)

(** The invariant holds once operation [k] is released. *)
Definition releasable (k : nat) (c : client) : Prop := client_ok (release_operation k c).
Lemma mark_releasable k c : client_ok c → releasable k (mark_settled k c).
Proof.
  intros [C1 C2 C3 C4 C5 C6 C7]. unfold releasable, release_operation, mark_settled. pose proof (ops_settled _ _ k C1) as Ho. cbn.
  destruct (decide (operationRef c = Some k)); split; cbn; try done. by apply ref_alter.
Qed.
Lemma publish_release n m c : operationRef (publish n m c) = operationRef c ∧
  set_operationRef None (publish n m c) = publish n m (set_operationRef None c).
Proof.
  unfold publish. change (mounted (set_operationRef None c)) with (mounted c). destruct (mounted c); [|done]. cbn [negb].
  change (authenticated_ref (cancelRefresh (set_operationRef None c))) with (authenticated_ref (cancelRefresh c)).
  destruct (authenticated_ref (cancelRefresh c) && is_authenticated n), (is_authenticated n), (decide (boot_mode n = mode_local));
    unfold drop_private, abort_private; cbn; destruct (privateRef c); done.
Qed.
Lemma publish_releasable k n m c : releasable k c → releasable k (publish n m c).
Proof.
  unfold releasable, release_operation. destruct (publish_release n m c) as [-> E]. destruct (decide _); [rewrite E|]; apply publish_ok.
Qed.
Lemma required_releasable k c : releasable k c → releasable k (authenticationRequired c).
Proof.
  intros Hc. destruct (bootstrapRef c) eqn:Hb; [|unfold authenticationRequired; by rewrite Hb].
  assert (droppable c) as Hd.
  { apply client_droppable in Hc. unfold release_operation in Hc. destruct (decide _); [|done]. destruct Hc as [[D|D] D2 D3 D4]; split; auto. }
  destruct (authenticationRequired_drops c Hd) as (H1 & H2 & _); [congruence|]. unfold releasable, release_operation. rewrite H2. by rewrite decide_False.
Qed.
(** Only what is shown changes. *)
Lemma shown_releasable k c c' : releasable k c → operations c' = operations c → operationRef c' = operationRef c →
  privates c' = privates c → privateRef c' = privateRef c → requests c' = requests c → epoch c' = epoch c → mounted c' = mounted c →
  refreshTimer c' = refreshTimer c →
  (mounted c = true → status c' = authenticated → authenticated_ref c' = true ∧ bootstrap c' = bootstrapRef c') → releasable k c'.
Proof.
  unfold releasable. intros Hc E1 E2 E3 E4 E5 E6 E7 E8 Hs.
  apply (controllers_kept _ _ Hc); unfold release_operation; rewrite E2; destruct (decide _); cbn; auto.
Qed.
Lemma shown_status k c : releasable k c →
  mounted c = true → status c = authenticated → authenticated_ref c = true ∧ bootstrap c = bootstrapRef c.
Proof. intros Hc. pose proof (ok_status _ Hc) as Hs. unfold release_operation in Hs. by destruct (decide _). Qed.
Lemma error_releasable k e c : releasable k c → releasable k (set_error e c).
Proof. intros Hc. apply (shown_releasable k c); try done. exact (shown_status k c Hc). Qed.
Lemma passwordError_releasable k e c : releasable k c → releasable k (set_passwordError e c).
Proof. intros Hc. apply (shown_releasable k c); try done. exact (shown_status k c Hc). Qed.
Lemma revision_releasable k c : releasable k c → releasable k (setRefreshRevision c).
Proof. intros Hc. apply (shown_releasable k c); try done. exact (shown_status k c Hc). Qed.
Lemma finally_ok k c : releasable k c → client_ok (finally_busy k c).
Proof.
  intros Hc. unfold finally_busy. unfold releasable, release_operation in Hc. destruct (decide _); [|done].
  cbn [mounted set_operationRef]. destruct (mounted c); [|done].
  by apply (controllers_kept _ _ Hc); [..|left|apply Hc].
Qed.
Ltac releasing := first [apply publish_releasable | apply required_releasable | apply error_releasable | idtac]; try done.
Lemma bootstrap_releasable k n c : releasable k c → releasable k (settle_bootstrap k n c).
Proof.
  intros Hc. unfold settle_bootstrap. destruct n as [b| |r]; [destruct (isCurrentOperation k c); releasing|done|].
  destruct (_ || _); [done|]. by apply (shown_releasable k c).
Qed.
Lemma login_releasable k n c : releasable k c → releasable k (settle_login k n c).
Proof. intros Hc. unfold settle_login. destruct n; repeat case_match; releasing. Qed.
Lemma recovery_releasable k b n c : releasable k c → releasable k (settle_recovery k b n c).
Proof. intros Hc. unfold settle_recovery. destruct n; repeat case_match; releasing. Qed.
Lemma ending_releasable k n f c : releasable k c → releasable k (f c) → releasable k (settle_ending k n f c).
Proof. intros Hc Hf. unfold settle_ending. destruct n; repeat case_match; releasing. by apply revision_releasable. Qed.
Lemma refresh_releasable k b n c : releasable k c → releasable k (settle_refresh k b n c).
Proof. intros Hc. unfold settle_refresh. destruct n; repeat case_match; releasing. Qed.

Lemma operation_settled_ok k n c : client_ok c → client_ok (settle k n c).
Proof.
  intros Hc. unfold settle. destruct (operations c !! k) as [o|]; [|done]. destruct (op_settled o); [done|].
  pose proof (mark_releasable k c Hc) as Hm. destruct (op_kind o).
  - by apply bootstrap_releasable.
  - by apply finally_ok, login_releasable.
  - destruct n as [b| |r]; [by apply finally_ok, login_releasable|by apply finally_ok, login_releasable|].
    unfold setup_failed. repeat case_match; simplify_eq; try apply finally_ok; try done.
    + apply (mark_releasable k (set_error _ c)), (controllers_kept c); try done; [by left|apply Hc].
    + apply (mark_releasable k (set_error _ c)), (controllers_kept c); try done; [by left|apply Hc].
    + destruct Hc as [C1 C2 C3 C4 C5 C6 C7]. split; cbn; try done; [by apply ops_rekind|by apply ref_alter].
  - by apply finally_ok, recovery_releasable.
  - by apply finally_ok, ending_releasable, error_releasable.
  - by apply finally_ok, ending_releasable, passwordError_releasable.
  - by apply refresh_releasable.
Qed.

(** ** Private requests *)

Lemma fetch_ok safe inside aborted c c' : privateFetch safe inside aborted c = Some c' → client_ok c → client_ok c'.
Proof.
  unfold privateFetch. destruct (bootstrapRef c) as [[| |m l csrf u]|]; try done. destruct (privateRef c) as [p|] eqn:Hp; [|done].
  destruct inside; [|done]. destruct (_ || _); [done|]. cbn. intros [= <-] [C1 C2 C3 C4 C5 C6 C7]. split; cbn; try done.
  intros i q [Hi|[_ Hi]]%lookup_app_Some Hf Ha; [by eapply C4|]. apply list_lookup_singleton_Some in Hi as [_ <-]. cbn. by apply C3.
Qed.
Lemma requests_alter ps rs i f : requests_ok ps rs →
  (∀ q, controller (f q) = controller q ∧ (outcome (f q) = Fetching → outcome q = Fetching) ∧ (r_aborted (f q) = false → r_aborted q = false)) →
  requests_ok ps (alter f i rs).
Proof.
  intros Hr Hf j q Hj Ho Ha. destruct (decide (i = j)) as [<-|Hne].
  - rewrite list_lookup_alter_eq in Hj. apply fmap_Some in Hj as (q0 & Hq0 & ->). destruct (Hf q0) as (-> & ? & ?). eauto.
  - rewrite list_lookup_alter_ne in Hj by done. by eapply Hr.
Qed.
Lemma put_request_ok i f c : client_ok c → f ≠ Fetching → client_ok (set_requests (alter (with_outcome f) i (requests c)) c).
Proof.
  intros [C1 C2 C3 C4 C5 C6 C7] Hf. split; cbn; try done. apply requests_alter; [done|]. intros q. by split_and!.
Qed.
Lemma fetched_ok i st abort c : client_ok c → client_ok (fetch_settled i st abort c).
Proof.
  intros Hc. unfold fetch_settled. destruct (requests c !! i) as [r|]; [|done]. destruct (outcome r); try done.
  destruct (r_aborted r); [by apply put_request_ok|]. destruct st as [s|]; [|by apply put_request_ok; destruct abort].
  destruct (_ && _); [apply authenticationRequired_ok|]; by apply put_request_ok.
Qed.
Lemma caller_ok i c : client_ok c → client_ok (caller_aborts i c).
Proof.
  intros [C1 C2 C3 C4 C5 C6 C7]. split; cbn; try done. apply requests_alter; [done|]. intros q. destruct (outcome q) eqn:Ho; cbn; rewrite ?Ho; by split_and!.
Qed.
Lemma first_client_ok : client_ok initial.
Proof. split; try done; intros k; split; intros; done. Qed.
Theorem client_step_ok c c' : cstep c c' ∨ remount_step c c' → client_ok c → client_ok c'.
Proof.
  intros [[u Hm|now u Hd Hm|u|u Hm|persisted u Hm|u|x p u|p u|u|cp np u|u|k n u|safe inside aborted u u' Hf|i st abort u|i u]|[u Hm]] Hc.
  - by apply page_unmount_ok.
  - by apply refresh_effect_ok.
  - by apply refresh_timer_ok.
  - by apply pagehide_ok.
  - destruct persisted; [by apply bootstrapSession_ok|done].
  - by apply bootstrapSession_ok.
  - by apply login_ok.
  - by apply setup_ok.
  - by apply logout_ok.
  - by apply changePassword_ok.
  - by apply authenticationRequired_ok.
  - by apply operation_settled_ok.
  - by eapply fetch_ok.
  - by apply fetched_ok.
  - by apply caller_ok.
  - by apply page_mount_ok.
Qed.

(** * An authenticated page has its private controller *)

Definition private_ok (c : client) : Prop := authenticated_ref c = true → mounted c = true → privateRef c ≠ None.
Lemma private_kept c c' : private_ok c → bootstrapRef c' = bootstrapRef c → mounted c' = mounted c → privateRef c' = privateRef c → private_ok c'.
Proof. unfold private_ok, authenticated_ref. by intros H -> -> ->. Qed.
Lemma private_publish n m c : private_ok c → private_ok (publish n m c).
Proof.
  intros Hc. unfold publish. destruct (mounted c) eqn:Hm; [|done]. cbn [negb].
  change (authenticated_ref (cancelRefresh c)) with (authenticated_ref c). unfold private_ok in *. rewrite Hm in Hc.
  destruct (is_authenticated n) eqn:Hn; [destruct (authenticated_ref c) eqn:Ha|]; cbn [andb].
  - intros _ _. by apply Hc.
  - done.
  - rewrite andb_false_r. intros Hx. exfalso. revert Hx. unfold authenticated_ref. destruct (decide _); unfold drop_private, abort_private; cbn;
      destruct (privateRef c); cbn; by rewrite Hn.
Qed.
Lemma private_required c : private_ok c → private_ok (authenticationRequired c).
Proof.
  intros Hc. unfold authenticationRequired. destruct (bootstrapRef c) as [b|] eqn:Hb; [|done].
  destruct (mounted _); cbn; [destruct (decide _)|]; by intros ?.
Qed.
Lemma private_release k c : private_ok c → private_ok (release_operation k c) ∧ private_ok (finally_busy k c).
Proof.
  intros Hc. unfold release_operation, finally_busy. destruct (decide _); [|done]. split; [by apply (private_kept c)|].
  cbn. destruct (mounted c) eqn:Hm; by apply (private_kept c).
Qed.
Lemma private_replace x c c' : private_ok c → bootstrapRef c' = bootstrapRef (replaceOperation x c) → mounted c' = mounted (replaceOperation x c) →
  privateRef c' = privateRef (replaceOperation x c) → private_ok c'.
Proof.
  intros Hc E1 E2 E3. apply (private_kept c); [done|..]; rewrite ?E1, ?E2, ?E3; unfold replaceOperation, abort_current; cbn; by destruct (operationRef c).
Qed.
Ltac private_settle := first [apply private_publish | apply private_required | idtac]; try done;
  try (match goal with H : private_ok ?c |- _ => by apply (private_kept c) end).
Lemma private_settles k n c : private_ok c → private_ok (settle k n c).
Proof.
  intros Hc. unfold settle. destruct (operations c !! k) as [o|]; [|done]. destruct (op_settled o); [done|].
  assert (private_ok (mark_settled k c)) as Hm by by apply (private_kept c).
  destruct (op_kind o); try apply private_release.
  - unfold settle_bootstrap. destruct n as [b| |r]; repeat case_match; private_settle.
  - unfold settle_login. destruct n; repeat case_match; private_settle.
  - destruct n as [b| |r].
    + apply private_release. unfold settle_login. repeat case_match; private_settle.
    + by apply private_release.
    + unfold setup_failed. repeat case_match; simplify_eq; try apply private_release; private_settle.
  - unfold settle_recovery. destruct n; repeat case_match; private_settle.
  - unfold settle_ending. destruct n; repeat case_match; private_settle.
  - unfold settle_ending. destruct n; repeat case_match; private_settle.
  - unfold settle_refresh. destruct n; repeat case_match; private_settle.
Qed.
Lemma private_step c c' : cstep c c' → private_ok c → private_ok c'.
Proof.
  intros [u Hm|now u Hd Hm|u|u Hm|persisted u Hm|u|x p u|p u|u|cp np u|u|k n u|safe inside aborted u u' Hf|i st abort u|i u] Hc.
  - intros _. unfold unmount_cleanup, drop_private, abort_private, drop_operation, abort_current. cbn. destruct (operationRef u); cbn; by destruct (privateRef u).
  - apply (private_kept u); [done|..]; unfold refresh_effect; cbn; repeat case_match; done.
  - unfold on_timer. destruct (refreshTimer u) as [[b d]|]; [|done]. by apply (private_replace (Refreshing b) (set_refreshTimer None u)).
  - by intros ?.
  - destruct persisted; [|done]. unfold onPageShow, bootstrapSession. destruct (mounted (replaceOperation Bootstrapping u)) eqn:E; by apply (private_replace Bootstrapping u).
  - unfold retry, bootstrapSession. destruct (mounted (replaceOperation Bootstrapping u)) eqn:E; by apply (private_replace Bootstrapping u).
  - by apply (private_replace (LoggingIn x p) u).
  - unfold setup. destruct (negb _); [done|]. by apply (private_replace (SettingUp p) u).
  - unfold logout. destruct (bootstrapRef u) as [[| |? ? csrf ?]|]; try done. by apply (private_replace (LoggingOut csrf) (cancelRefresh u)).
  - unfold changePassword. destruct (bootstrapRef u) as [[| |? ? csrf ?]|]; try done. by apply (private_replace (ChangingPassword csrf cp np) (cancelRefresh u)).
  - by apply private_required.
  - by apply private_settles.
  - unfold privateFetch in Hf. repeat case_match; try done; injection Hf as <-; by apply (private_kept u).
  - unfold fetch_settled. repeat case_match; try done; try apply private_required; by apply (private_kept u).
  - by apply (private_kept u).
Qed.

(** * The theorems *)

Lemma stale_settle k n c : operationRef c ≠ Some k → ∃ ops, settle k n c = set_operations ops c.
Proof.
  intros Hk. assert (∀ d, operationRef d = operationRef c → isCurrentOperation k d = false) as Hcur.
  { intros d Hd. unfold isCurrentOperation. rewrite Hd, bool_decide_false by done. by destruct (mounted d). }
  assert (∀ d, operationRef d = operationRef c → release_operation k d = d ∧ finally_busy k d = d) as Hrel.
  { intros d Hd. unfold release_operation, finally_busy. by rewrite Hd, !decide_False by done. }
  assert (isCurrentOperation k (mark_settled k c) = false) as Hm by by apply Hcur.
  assert (settle_login k n (mark_settled k c) = mark_settled k c) as Hl.
  { unfold settle_login. rewrite Hm. destruct n; [done|done|]. by rewrite orb_true_r. }
  unfold settle. destruct (operations c !! k) as [o|]; [|by exists (operations c); destruct c]. destruct (op_settled o); [by exists (operations c); destruct c|].
  exists (alter settled k (operations c)). change (set_operations _ c) with (mark_settled k c).
  destruct (op_kind o).
  - unfold settle_bootstrap. rewrite Hm. destruct n; rewrite ?orb_true_r; by apply Hrel.
  - rewrite Hl. by apply Hrel.
  - destruct n as [b| |r]; rewrite ?Hl; try by apply Hrel. unfold setup_failed. rewrite (Hcur c), orb_true_r by done. by apply Hrel.
  - unfold settle_recovery. rewrite Hm. destruct n; rewrite ?orb_true_r; by apply Hrel.
  - unfold settle_ending. rewrite Hm. destruct n; rewrite ?orb_true_r; by apply Hrel.
  - unfold settle_ending. rewrite Hm. destruct n; rewrite ?orb_true_r; by apply Hrel.
  - unfold settle_refresh. rewrite Hm. destruct n; rewrite ?andb_false_r; by apply Hrel.
Qed.
Lemma required_clears c : client_ok c → bootstrapRef c ≠ None → let c' := authenticationRequired c in
  bootstrapRef c' = None ∧ privateRef c' = None ∧ operationRef c' = None ∧
  (∀ i q, requests c' !! i = Some q → outcome q = Fetching → r_aborted q = true) ∧
  ∀ safe inside aborted, privateFetch safe inside aborted c' = None.
Proof.
  intros Hc Hb c'. destruct (authenticationRequired_drops c (client_droppable c Hc) Hb) as (Hok & H1 & H2 & H3). fold c' in Hok, H1, H2, H3.
  split_and!; try done.
  - intros i q Hi Hq. destruct (r_aborted q) eqn:Ha; [done|]. pose proof (ok_requests _ Hok i q Hi Hq Ha) as Hp.
    apply (ok_privates _ Hok) in Hp. congruence.
  - intros safe inside aborted. unfold privateFetch. by rewrite H3.
Qed.

Lemma required_boot c : bootstrapRef (authenticationRequired c) = None.
Proof.
  unfold authenticationRequired. destruct (bootstrapRef c) eqn:Hb; [|exact Hb].
  unfold drop_private, abort_private. repeat (case_match; cbn; try done).
Qed.


(** A page that logs in, and a private request that is answered with 401. *)
Definition sample_boot : AuthBootstrap := Authenticated mode_local (js "admin") (js "token") None.
Definition booting : client := mount_effect initial.
Definition signed_in : client := settle 0 (Answer sample_boot) booting.
Definition fetching : client := default signed_in (privateFetch false true false signed_in).
Lemma signed_in_reached : rtc cstep booting fetching.
Proof.
  apply (rtc_l _ _ signed_in); [apply c_settle|]. apply rtc_once, (c_fetch false true false). vm_compute. reflexivity.
Qed.

(** The cleanup of the mount effect forgets the private controller but keeps
    the session it holds, so that an effect that runs again takes the next
    bootstrap for the same epoch: the page is authenticated, and no private
    request ever leaves. *)
Theorem remount_loses_private : ∃ c,
  rtc (λ x y, cstep x y ∨ remount_step x y) booting c ∧ status c = authenticated ∧ authenticated_ref c = true ∧
  ∀ safe inside aborted, privateFetch safe inside aborted c = None.
Proof.
  set (left := unmount_cleanup signed_in). set (back := mount_effect left). exists (settle 1 (Answer sample_boot) back).
  split; [|split; [vm_compute; reflexivity|split; [vm_compute; reflexivity|done]]].
  apply (rtc_l _ _ signed_in); [left; apply c_settle|]. apply (rtc_l _ _ left); [left; by apply c_unmount|].
  apply (rtc_l _ _ back); [right; by apply c_remount|]. apply rtc_once. left. apply c_settle.
Qed.
